(* ===== verification/_CoqProject ===== *)
-Q . S2P
Prelude.v
GoBytes.v
GoStrings.v
GoNet.v
DomainTrie.v
GeoIP.v
RuleProvider.v
RuleChain.v
Router.v
FakeIP.v
Replay.v
Signal.v
Addr.v
Vless.v
Trojan.v
Vmess.v
UDPFrame.v
Mesh.v
Circuit.v
GroupDag.v
HealthCheck.v
Quality.v
Groups.v
Varint.v
Wire.v
AckFrame.v
Frames.v
FrameParser.v
PacketNumber.v
ReceivedPackets.v
FlowControl.v
FrameSorter.v
CryptoStream.v
SendStream.v
SendSafety.v
ReceiveStream.v
ReceiveSafety.v
StreamTransfer.v
RttStats.v
SentHistory.v
Ecn.v
SentPackets.v
SentAcks.v
SentSafety.v
SentRecovery.v
Cubic.v
LossTimer.v
LossRecovery.v
