(* ===== verification/Prelude.v ===== *)
(** * Shuttle: a verification of its routing, dialing, wire formats and QUIC transport

    Shuttle (src/) is a proxy client and server in Go.  A connection that enters
    through an inbound is classified by the router (src/router), sent to an
    outbound of the engine (src/engine), which dials through a transport
    (src/transport) to a server (src/server); a mesh (src/mesh) links clients.
    The H3 transport runs over a fork of a QUIC implementation (src/quicfork).
    This library models the parts of it that decide and that encode, as
    executable definitions, and proves what they promise each other.

    ** How the code is modelled

    Go functions are Rocq functions.  A result with an error is a [res]: a value,
    an error (one constructor per return site) or a panic.  A w-bit integer is a
    [Z] with its wrap-around written out, a slice a list of bytes with checked
    slicing, a string a [string], a map a [gmap], a reader the bytes still to
    come, a writer the bytes written and how many it will still accept.  State is
    passed explicitly.  Locks are not modelled: each method is one atomic step,
    and where calls interleave with timers a step relation says so.  The clock,
    random draws, map iteration order and name lookup are arguments.  Hashes and
    ciphers are arguments with the laws the code relies on.

    ** Files

    - [Prelude]: outcomes, tactics, lemmas on lists.  [GoBytes], [GoStrings],
      [GoNet]: what the code uses of Go's encoding/binary, io, strings, strconv,
      net and net/netip.
    - [DomainTrie] (src/router/trie.go), [GeoIP] (geoip.go), [RuleProvider]
      (src/provider), [RuleChain] (rule_chain.go), [Router] (router.go, convert.go,
      conflict.go): the routing decision.  [FakeIP] (src/router/dns/fakeip).
    - [Circuit] (src/engine/circuit.go, outbound_middleware.go): the circuit
      breaker and the dials that go through it.  [GroupDag], [HealthCheck],
      [Quality], [Groups] (src/engine/outbound_group*.go, outbound_quality.go,
      src/outbound/healthcheck): outbound groups.
    - [Replay] (src/crypto/replay.go): the replay filter.
    - [Addr] (src/transport/shared), [Vless], [Trojan], [Vmess]
      (src/transport/*/protocol.go), [UDPFrame] (src/proxy/udp_frame.go): headers.
    - [Signal] (src/mesh/signal/protocol.go), [Mesh] (src/mesh/mesh.go,
      peertable.go): mesh signalling, addresses, frames and forwarding.
    - QUIC wire formats: [Varint] (src/quicfork/quicvarint), [Wire], [AckFrame],
      [Frames], [FrameParser] (src/quicfork/internal/wire, and handleFrames of
      connection.go), [PacketNumber] (internal/protocol).
    - QUIC data: [FlowControl] (internal/flowcontrol), [FrameSorter]
      (frame_sorter.go), [CryptoStream] (crypto_stream.go, crypto_stream_manager.go,
      sni.go), [SendStream] and [SendSafety] (send_stream.go), [ReceiveStream] and
      [ReceiveSafety] (receive_stream.go), [StreamTransfer] (both ends of a stream).
    - QUIC acknowledgements: [ReceivedPackets] (internal/ackhandler/received_packet_history.go, _tracker.go and _handler.go),
      and for what was sent [RttStats] (internal/utils/rtt_stats.go), [SentHistory]
      (sent_packet_history.go, packet_number_generator.go, lost_packet_tracker.go),
      [Ecn] (ecn.go), [SentPackets] (sent_packet_handler.go), whose congestion
      controller is the class [SendAlgorithm], and [Cubic] (internal/congestion), an
      instance of it.  [SentAcks], [SentSafety], [SentRecovery], [LossTimer] and
      [LossRecovery] hold the proofs about the handler of sent packets.

    ** What the theorems show

    - Routing: the trie is a finite map from label paths with longest-suffix
      lookup; a rule chain compiles exactly when its entries are valid and then
      accepts exactly what they say, a suffix covering the names whose labels end in
      its own; the router's answer is the one of the configuration read as the
      stages of the code, rule chain first, in which some settings are replaced by
      later ones; the country table finds every disjoint range; the conflict report is
      complete.  Three theorems state where the code ignores a configured rule.
    - Dialing: an invariant of breaker, timers and concurrent calls; that the
      cooldown is respected unless a timer of an earlier open period is late, and only
      one probe is let through; that a probe is
      settled unless its caller is cancelled, and that a cancelled one blocks the
      breaker for good.  Groups promise their clients what outbounds promise
      groups (the class [Lawful]), so a dial through nested groups succeeds
      exactly when a usable leaf works.
    - Stores: the fake-IP pool is a window over its allocations; the cuckoo
      filter has no false negatives and the replay filter detects replays for
      half its window; the mesh address pool hands out each host offset of its network
      that is not in use, and no other, if only allocated addresses are released.
    - Wire formats: every encoder is inverted by its decoder with any bytes
      following, decoders do not panic on any input, and the inputs on which one
      of them does are characterised.
    - QUIC streams: the sorter delivers a stream in order whatever pieces below the
      largest offset arrive; send and receive streams do not panic, if the reliable
      boundary is left alone after a reset, and lose nothing unless reset, cancelled
      or shut down; from end to end what is read is a beginning of what was written,
      and all of it at the end of a stream that is neither.  The flow controllers
      never grant or use more than was agreed, and a stream credits its connection
      what it credits itself.  The Initial crypto stream sends every byte written,
      unless a scrambling client never recognises its ClientHello.
    - QUIC loss recovery, for every congestion controller: the calls of a
      connection do not panic, if path probes have frames with handlers and datagram
      sizes are accepted by the controller ([TimeUntilSend], a query to it, is not among
      them); the bytes in flight are those of the tracked
      packets; every frame is reported once, as acknowledged only if an ACK frame
      covers its packet before that is given up; when an ACK frame acknowledges
      something, packets are given up exactly if they are due; while handshake packets,
      1-RTT packets of a confirmed handshake or path probes are outstanding the timer is
      set, and when it fires probes are owed at the level where one is due first; an address that is not validated is sent at most three times what came
      from it.  The RTT estimates, the congestion window and the probe timeout stay
      within their bounds, and the pacer has a budget when its timer fires.

    ** Bounds and fuel

    The depth-first search of [GroupDag] has the number of groups as fuel, which
    is proved to be enough; so is the number of ranges for the walk over an ACK
    frame in [SentPackets].  The eviction loop of the cuckoo filter has the
    source's own bound.  Other loops are over lists and structural.  Durations are
    bounded by 2^62 ns where they are doubled.  Packet numbers and offsets are below
    2^62, as the wire format enforces, so that sums of two do not overflow.  Binary
    floating point is modelled by rounding integers to 24 or 53 bits.

    ** Not modelled

    Sockets, TLS, WebRTC and WireGuard connections and the goroutines around them;
    the run loop of a QUIC connection, its handshake, packet protection and
    transport parameters; persistence, downloads, the GUI, the command line and the
    mobile bindings; JSON and YAML parsing: these are I/O, or calls of libraries
    that are not part of the repository.  The congestion controllers of
    src/congestion are driven by floating-point rate filters and wall-clock
    sampling; only the controller the fork itself provides is modelled.  HTTP/3 of
    the fork is not used by the transport beyond its framing.  The manifest lists
    each part with its reason. *)

From stdpp Require Export base gmap strings list fin_maps sets.
From Stdlib Require Export ZArith Lia.

#[export] Set Warnings "-register-all".

#[global] Arguments String.append : simpl nomatch.

(** ** Outcomes of Go functions

    A Go function that returns [(T, error)] is a function into [res E T]: [Ok]
    for a nil error, [Err] for a non-nil error (the error is a constructor of
    the component's error type, one per [return ..., err] site), and [Panic]
    for a run-time panic (index or slice out of range). *)

Inductive res (E A : Type) : Type :=
| Ok (a : A)
| Err (e : E)
| Panic.
Arguments Ok {E A} a.
Arguments Err {E A} e.
Arguments Panic {E A}.

#[export] Instance res_ret E : MRet (res E) := fun A a => Ok a.
#[export] Instance res_bind E : MBind (res E) := fun A B f m =>
  match m with
  | Ok a => f a
  | Err e => Err e
  | Panic => Panic
  end.
#[export] Instance res_fmap E : FMap (res E) := fun A B f m =>
  match m with
  | Ok a => Ok (f a)
  | Err e => Err e
  | Panic => Panic
  end.

(** [fmt.Errorf("...: %w", err)] and [return err]: an error of one component
    wrapped into an error of its caller. *)
Definition wrap_err {E E' A} (f : E -> E') (m : res E A) : res E' A :=
  match m with
  | Ok a => Ok a
  | Err e => Err (f e)
  | Panic => Panic
  end.

Definition no_panic {E A} (m : res E A) : Prop := m <> Panic.

(** ** Tactics *)

(** Linear arithmetic without the hypotheses it does not use. *)
Ltac llia :=
  repeat match goal with
  | H : _ -> _ |- _ => clear H
  | H : forall _, _ |- _ => clear H
  | H : _ \/ _ |- _ => clear H
  | H : Forall _ _ |- _ => clear H
  | H : @eq (option _) _ _ |- _ => clear H
  | H : @eq (list _) _ _ |- _ => clear H
  | H : @eq bool ?b _ |- _ =>
      lazymatch b with
      | context [Z.leb _ _] => fail | context [Z.ltb _ _] => fail | context [Z.eqb _ _] => fail
      | _ => clear H
      end
  end; lia.

(** Split the matches and conditionals of the goal or of the hypotheses and
    close what becomes contradictory. *)
Ltac split_ifs :=
  repeat (case_match; simplify_eq/=; try done).

Ltac zb :=
  repeat match goal with
  | H : (_ <? _)%Z = true |- _ => apply Z.ltb_lt in H
  | H : (_ <? _)%Z = false |- _ => apply Z.ltb_ge in H
  | H : (_ <=? _)%Z = true |- _ => apply Z.leb_le in H
  | H : (_ <=? _)%Z = false |- _ => apply Z.leb_gt in H
  | H : (_ =? _)%Z = true |- _ => apply Z.eqb_eq in H
  | H : (_ =? _)%Z = false |- _ => apply Z.eqb_neq in H
  | H : (_ >? _)%Z = _ |- _ => rewrite Z.gtb_ltb in H
  | H : (_ >=? _)%Z = _ |- _ => rewrite Z.geb_leb in H
  end.

(** Linear arithmetic with division and remainder by constants. *)
Ltac dlia := Z.to_euclidean_division_equations; lia.

Create HintDb shuttle.

(** ** Lists *)

Lemma omap_cons {A B} (f : A -> option B) x l :
  omap f (x :: l) = match f x with Some y => y :: omap f l | None => omap f l end.
Proof. done. Qed.

Lemma omap_ext_eq {A B} (f g : A -> option B) (l : list A) :
  (forall x, f x = g x) -> omap f l = omap g l.
Proof. intros H. induction l as [|x l IH]; [done|]. by rewrite !omap_cons, H, IH. Qed.

Definition or_else {A} (o last : option A) : option A :=
  match o with Some x => Some x | None => last end.

Lemma last_cons_default {A} (x : A) l : list.last (x :: l) = Some (default x (list.last l)).
Proof. rewrite last_cons. by destruct (list.last l). Qed.

Lemma or_else_Some {A} (o : option A) x : or_else o (Some x) = Some (default x o).
Proof. by destruct o. Qed.

Lemma last_is_Some_cons {A} (x : A) l : is_Some (list.last (x :: l)).
Proof. rewrite last_cons_default. eauto. Qed.

Lemma filter_none {A} (P : A -> Prop) `{!forall x, Decision (P x)} (l : list A) :
  Forall (fun x => ~ P x) l -> filter P l = [].
Proof. induction 1; [done|]. by rewrite filter_cons_False. Qed.

Lemma filter_all {A} (P : A -> Prop) `{!forall x, Decision (P x)} (l : list A) :
  Forall P l -> filter P l = l.
Proof. induction 1; [done|]. rewrite filter_cons_True by done. by f_equal. Qed.

Lemma elem_of_map {A B} (f : A -> B) (l : list A) x : x ∈ map f l <-> exists y, x = f y /\ y ∈ l.
Proof.
  induction l as [|a l IH]; simpl; [set_solver|]. rewrite elem_of_cons, IH. set_solver.
Qed.

Lemma lookup_map {A B} (f : A -> B) (l : list A) i : map f l !! i = f <$> l !! i.
Proof. revert i. induction l as [|a l IH]; intros [|i]; simpl; [done..|apply IH]. Qed.

(** ** Binary search *)

(** [sort.Search(n, f)]: the loop on [i, j]; [n + 1] rounds are enough
    ([search_loop_spec]). *)
Fixpoint search_loop (fuel : nat) (f : nat -> bool) (i j : nat) : nat :=
  match fuel with
  | O => i
  | S fuel =>
      if (i <? j)%nat then
        let h := ((i + j) / 2)%nat in
        if f h then search_loop fuel f i h else search_loop fuel f (S h) j
      else i
  end.
Definition Search (n : nat) (f : nat -> bool) : nat := search_loop (S n) f 0 n.

Lemma search_loop_spec fuel f i j :
  (j - i < fuel)%nat -> (i <= j)%nat ->
  (forall a b, (a <= b < j)%nat -> f a = true -> f b = true) ->
  let r := search_loop fuel f i j in
  (i <= r <= j)%nat /\ (forall a, (i <= a < r)%nat -> f a = false) /\
  (forall a, (r <= a < j)%nat -> f a = true).
Proof.
  revert i j; induction fuel as [|fuel IH]; intros i j Hf Hij Hmono; [lia|]. cbn [search_loop].
  destruct (Nat.ltb_spec i j) as [Hlt|Hge]; [|simpl; split_and!; intros; lia].
  pose proof (Nat.div_mod_eq (i + j) 2). pose proof (Nat.mod_upper_bound (i + j) 2).
  set (h := ((i + j) / 2)%nat) in *.
  destruct (f h) eqn:Hh.
  - destruct (IH i h) as (Hr & Hlo & Hhi); [lia..|intros; apply (Hmono a); [lia|done]|].
    split_and!; [lia|lia|done|]. intros a Ha.
    destruct (Nat.lt_ge_cases a h); [apply Hhi; lia|]. apply (Hmono h); [lia|done].
  - destruct (IH (S h) j) as (Hr & Hlo & Hhi); [lia..|intros; apply (Hmono a); [lia|done]|].
    split_and!; [lia|lia| |done]. intros a Ha.
    destruct (Nat.lt_ge_cases h a); [apply Hlo; lia|].
    destruct (f a) eqn:Hfa; [|done]. rewrite <- Hh. symmetry. apply (Hmono a); [lia|done].
Qed.

Lemma Search_spec n f :
  (forall a b, (a <= b < n)%nat -> f a = true -> f b = true) ->
  (Search n f <= n)%nat /\ (forall a, (a < Search n f)%nat -> f a = false) /\
  (forall a, (Search n f <= a < n)%nat -> f a = true).
Proof.
  intros Hm. destruct (search_loop_spec (S n) f 0 n) as (Hr & Hlo & Hhi); [lia|lia|done|].
  fold (Search n f) in Hr, Hlo, Hhi. split_and!; [lia| |]; intros a Ha; [apply Hlo|apply Hhi]; lia.
Qed.
