(* ===== verification/GoBytes.v ===== *)
(** * Bytes, fixed-width integers, slices and streams of the Go runtime

    Byte slices are lists of [byte]; a w-bit unsigned integer is a [Z] in
    [[0, 2^w)] and every conversion [uintW(x)] is written as a wrap-around.
    Slicing and indexing are bounds-checked as the Go runtime does, against the
    length (the capacity of every slice the code takes apart equals its
    length).  [io.Reader] is the list of bytes still to come, [io.Writer] the
    bytes written so far. *)

From Stdlib Require Import Strings.Byte.
From S2P Require Import Prelude.

Local Open Scope Z_scope.

(** ** Fixed-width unsigned integers *)

Definition u8 (z : Z) : Z := z mod 2 ^ 8.
Definition u16 (z : Z) : Z := z mod 2 ^ 16.
Definition u32 (z : Z) : Z := z mod 2 ^ 32.
Definition u64 (z : Z) : Z := z mod 2 ^ 64.

(** Signed 64-bit integers ([int], [int64], [time.Duration]). *)
Definition i64 (z : Z) : Z := (z + 2 ^ 63) mod 2 ^ 64 - 2 ^ 63.

Lemma i64_small z : - 2 ^ 63 <= z < 2 ^ 63 -> i64 z = z.
Proof. intros. unfold i64. rewrite Z.mod_small by lia. lia. Qed.

Lemma u8_small z : 0 <= z < 256 -> u8 z = z.
Proof. intros; apply Z.mod_small; lia. Qed.
Lemma u16_small z : 0 <= z < 65536 -> u16 z = z.
Proof. intros; apply Z.mod_small; lia. Qed.
Lemma u32_small z : 0 <= z < 4294967296 -> u32 z = z.
Proof. intros; apply Z.mod_small; lia. Qed.
Lemma u8_range z : 0 <= u8 z < 256.
Proof. apply Z.mod_pos_bound; lia. Qed.
Lemma u16_range z : 0 <= u16 z < 65536.
Proof. apply Z.mod_pos_bound; lia. Qed.
Lemma u32_range z : 0 <= u32 z < 4294967296.
Proof. apply Z.mod_pos_bound; lia. Qed.
Lemma u64_range z : 0 <= u64 z < 2 ^ 64.
Proof. apply Z.mod_pos_bound; lia. Qed.

(** ** Bytes *)

Notation byte := Byte.byte.
Notation bytes := (list byte).

#[export] Instance byte_eq_dec : EqDecision byte := Byte.byte_eq_dec.

Definition Z_of_byte (b : byte) : Z := Z.of_N (Byte.to_N b).
Definition byte_of_Z (z : Z) : byte :=
  default Byte.x00 (Byte.of_N (Z.to_N (u8 z))).

Lemma Z_of_byte_range b : 0 <= Z_of_byte b < 256.
Proof. unfold Z_of_byte. pose proof (Byte.to_N_bounded b). lia. Qed.

Lemma Z_of_byte_of_Z z : Z_of_byte (byte_of_Z z) = u8 z.
Proof.
  unfold byte_of_Z, Z_of_byte. pose proof (u8_range z).
  pose proof (Byte.to_of_N_option_map (Z.to_N (u8 z))) as Hm.
  replace (Z.to_N (u8 z) <=? 255)%N with true in Hm
    by (symmetry; apply N.leb_le; lia).
  destruct (Byte.of_N (Z.to_N (u8 z))); simpl in *; [|done].
  injection Hm as ->. lia.
Qed.

Lemma byte_of_Z_of_byte b : byte_of_Z (Z_of_byte b) = b.
Proof.
  unfold byte_of_Z. rewrite u8_small by apply Z_of_byte_range.
  unfold Z_of_byte. rewrite N2Z.id, Byte.of_to_N. done.
Qed.

Lemma byte_of_Z_small z : 0 <= z < 256 -> Z_of_byte (byte_of_Z z) = z.
Proof. intros. rewrite Z_of_byte_of_Z. by apply u8_small. Qed.

Lemma Z_of_byte_inj b c : Z_of_byte b = Z_of_byte c -> b = c.
Proof. intros H. by rewrite <- (byte_of_Z_of_byte b), H, byte_of_Z_of_byte. Qed.

(** ** Big-endian integers ([encoding/binary]) *)

Definition put16 (v : Z) : bytes := [byte_of_Z (v / 256); byte_of_Z v].
Definition put32 (v : Z) : bytes :=
  [byte_of_Z (v / 16777216); byte_of_Z (v / 65536); byte_of_Z (v / 256); byte_of_Z v].

Definition put64 (v : Z) : bytes := put32 (u32 (Z.shiftr v 32)) ++ put32 (u32 v).

Fixpoint be_value (acc : Z) (bs : bytes) : Z :=
  match bs with
  | [] => acc
  | b :: bs => be_value (acc * 256 + Z_of_byte b) bs
  end.

(** [binary.BigEndian.Uint16(b)] panics when [b] is shorter than 2 bytes. *)
Definition get16 {E} (bs : bytes) : res E Z :=
  match bs with
  | a :: b :: _ => Ok (be_value 0 [a; b])
  | _ => Panic
  end.
Definition get32 {E} (bs : bytes) : res E Z :=
  match bs with
  | a :: b :: c :: d :: _ => Ok (be_value 0 [a; b; c; d])
  | _ => Panic
  end.

Lemma be_value_put16 v : 0 <= v < 65536 -> be_value 0 (put16 v) = v.
Proof.
  intros. cbn. rewrite !Z_of_byte_of_Z. unfold u8.
  change (2 ^ 8) with 256.
  rewrite (Z.mod_small (v / 256)) by (split; [apply Z.div_pos | apply Z.div_lt_upper_bound]; lia).
  pose proof (Z.div_mod v 256). lia.
Qed.

Lemma get16_put16 E v rest :
  0 <= v < 65536 -> get16 (E:=E) (put16 v ++ rest) = Ok v.
Proof. intros. cbn [put16 app get16]. f_equal. by apply be_value_put16. Qed.

Lemma be_value_put32 v : 0 <= v < 4294967296 -> be_value 0 (put32 v) = v.
Proof.
  intros. cbn. rewrite !Z_of_byte_of_Z. unfold u8. change (2 ^ 8) with 256.
  replace (v / 16777216) with (v / 256 / 256 / 256) by (rewrite !Z.div_div by lia; done).
  replace (v / 65536) with (v / 256 / 256) by (rewrite !Z.div_div by lia; done).
  pose proof (Z.div_mod v 256). pose proof (Z.div_mod (v / 256) 256).
  pose proof (Z.div_mod (v / 256 / 256) 256).
  rewrite (Z.mod_small (v / 256 / 256 / 256)); [lia|].
  rewrite !Z.div_div by lia.
  split; [apply Z.div_pos | apply Z.div_lt_upper_bound]; lia.
Qed.

Lemma get32_put32 E v rest :
  0 <= v < 4294967296 -> get32 (E:=E) (put32 v ++ rest) = Ok v.
Proof. intros. cbn [put32 app get32]. f_equal. by apply be_value_put32. Qed.

Lemma be_value_range acc bs :
  0 <= acc -> 0 <= be_value acc bs < (acc + 1) * 256 ^ Z.of_nat (length bs).
Proof.
  revert acc; induction bs as [|b bs IH]; intros acc Hacc; simpl be_value.
  - simpl. lia.
  - pose proof (Z_of_byte_range b). specialize (IH (acc * 256 + Z_of_byte b)).
    cbn [length]. rewrite Nat2Z.inj_succ, Z.pow_succ_r by lia.
    assert (0 < 256 ^ Z.of_nat (length bs)) by (apply Z.pow_pos_nonneg; lia).
    nia.
Qed.

Lemma be_value_app acc a b : be_value acc (a ++ b) = be_value (be_value acc a) b.
Proof. revert acc; induction a as [|x a IH]; intros acc; [done|]. apply IH. Qed.

Lemma get16_range E bs v : get16 (E:=E) bs = Ok v -> 0 <= v < 65536.
Proof.
  destruct bs as [|a [|b bs]]; simpl; try done. intros [= <-].
  pose proof (Z_of_byte_range a). pose proof (Z_of_byte_range b). lia.
Qed.

(** ** Slices *)

Definition blen (bs : bytes) : Z := Z.of_nat (length bs).

Lemma blen_app a b : blen (a ++ b) = blen a + blen b.
Proof. unfold blen. rewrite length_app. lia. Qed.
Lemma blen_nonneg a : 0 <= blen a.
Proof. unfold blen. lia. Qed.

(** [b[i]] *)
Definition go_index {E} (bs : bytes) (i : Z) : res E Z :=
  if (i <? 0) then Panic else
  match bs !! Z.to_nat i with
  | Some b => Ok (Z_of_byte b)
  | None => Panic
  end.

(** [b[lo:hi]] *)
Definition go_slice {E} (bs : bytes) (lo hi : Z) : res E bytes :=
  if (0 <=? lo) && (lo <=? hi) && (hi <=? blen bs)
  then Ok (take (Z.to_nat (hi - lo)) (drop (Z.to_nat lo) bs))
  else Panic.

(** [make([]byte, n)] *)
Definition go_make (n : Z) : bytes := replicate (Z.to_nat n) Byte.x00.

(** [copy(dst[lo:hi], src)] with [lo <= hi <= len(dst)]: the elements that fit
    in the window are overwritten, the rest of [dst] is untouched. *)
Definition go_copy (dst : bytes) (lo hi : nat) (src : bytes) : bytes :=
  let n := Nat.min (hi - lo) (length src) in
  take lo dst ++ take n src ++ drop (lo + n) dst.

(** [b[i] = v] for an index known to be in range. *)
Definition go_set (dst : bytes) (i : nat) (v : Z) : bytes := <[i := byte_of_Z v]> dst.

Lemma go_copy_exact dst lo src :
  (lo + length src <= length dst)%nat ->
  go_copy dst lo (lo + length src) src = take lo dst ++ src ++ drop (lo + length src) dst.
Proof.
  intros. unfold go_copy. replace (lo + length src - lo)%nat with (length src) by lia.
  rewrite Nat.min_id, (take_ge src) by lia. done.
Qed.

Lemma go_slice_app E pre mid post :
  go_slice (E:=E) (pre ++ mid ++ post) (blen pre) (blen pre + blen mid) = Ok mid.
Proof.
  unfold go_slice, blen. rewrite !length_app.
  rewrite (proj2 (Z.leb_le 0 _)), (proj2 (Z.leb_le (Z.of_nat (length pre)) _)),
    (proj2 (Z.leb_le (_ + _) _)) by lia. cbn [andb].
  replace (Z.to_nat (Z.of_nat (length pre) + Z.of_nat (length mid) - Z.of_nat (length pre)))
    with (length mid) by lia.
  rewrite Nat2Z.id, drop_app_length, take_app_length. done.
Qed.

Lemma go_slice_Ok E bs lo hi :
  0 <= lo <= hi -> hi <= blen bs ->
  go_slice (E:=E) bs lo hi = Ok (take (Z.to_nat (hi - lo)) (drop (Z.to_nat lo) bs)).
Proof.
  intros. unfold go_slice.
  rewrite (proj2 (Z.leb_le 0 _)), (proj2 (Z.leb_le lo _)), (proj2 (Z.leb_le hi _)) by lia. done.
Qed.

Lemma go_index_Ok E bs i :
  0 <= i < blen bs -> exists v, go_index (E:=E) bs i = Ok v /\ 0 <= v < 256.
Proof.
  intros. unfold go_index, blen in *. rewrite (proj2 (Z.ltb_ge i 0)) by lia.
  destruct (lookup_lt_is_Some_2 bs (Z.to_nat i)) as [b ->]; [lia|].
  exists (Z_of_byte b). split; [done|apply Z_of_byte_range].
Qed.

Lemma go_index_app E pre b post :
  go_index (E:=E) (pre ++ b :: post) (blen pre) = Ok (Z_of_byte b).
Proof.
  unfold go_index, blen. rewrite (proj2 (Z.ltb_ge _ 0)) by lia.
  rewrite Nat2Z.id, list_lookup_middle by done. done.
Qed.

Lemma length_go_slice E bs lo hi s :
  go_slice (E:=E) bs lo hi = Ok s -> blen s = hi - lo.
Proof.
  unfold go_slice. case_match eqn:Hb; [|done]. intros [= <-].
  apply andb_prop in Hb as [[H1 H2]%andb_prop H3]. zb.
  unfold blen in *. rewrite length_take, length_drop. lia.
Qed.

(** ** Strings as bytes: [[]byte(s)] and [string(b)] *)

Definition str_bytes (s : string) : bytes := String.list_byte_of_string s.
Definition bytes_str (b : bytes) : string := String.string_of_list_byte b.

Lemma bytes_str_bytes s : bytes_str (str_bytes s) = s.
Proof. apply String.string_of_list_byte_of_string. Qed.
Lemma str_bytes_str b : str_bytes (bytes_str b) = b.
Proof. apply String.list_byte_of_string_of_list_byte. Qed.

(** The same with the split of the buffer as a side condition, for decoders that
    work on offsets of a whole message. *)
Lemma go_slice_at E pre mid post bs lo hi :
  bs = pre ++ mid ++ post -> lo = blen pre -> hi = lo + blen mid -> go_slice (E:=E) bs lo hi = Ok mid.
Proof. intros -> -> ->. apply go_slice_app. Qed.

Lemma go_index_at E pre b post bs i :
  bs = pre ++ b :: post -> i = blen pre -> go_index (E:=E) bs i = Ok (Z_of_byte b).
Proof. intros -> ->. apply go_index_app. Qed.

Lemma blen_cons b bs : blen (b :: bs) = 1 + blen bs.
Proof. unfold blen. simpl. lia. Qed.

Lemma blen_nil : blen [] = 0.
Proof. done. Qed.

Lemma blen_put16 v : blen (put16 v) = 2.
Proof. done. Qed.

Lemma blen_put32 v : blen (put32 v) = 4.
Proof. done. Qed.

Lemma get16_Ok E bs : 2 <= blen bs -> exists v, get16 (E:=E) bs = Ok v /\ 0 <= v < 65536.
Proof.
  intros. destruct bs as [|a [|b bs]]; [done..|].
  eexists. split; [reflexivity|]. by apply (get16_range E (a :: b :: bs)).
Qed.

Lemma get32_Ok E bs : 4 <= blen bs -> exists v, get32 (E:=E) bs = Ok v.
Proof. intros. destruct bs as [|a [|b [|c [|d bs]]]]; [done..|]. eexists. reflexivity. Qed.

(** Run a decoder symbolically: its next step is the innermost computation of the
    binds; indices and slices that are in bounds succeed. *)
Ltac head_of t :=
  match t with
  | ?m ≫= _ => head_of m
  | _ => t
  end.
Ltac decode_head t :=
  lazymatch t with
  | @go_index ?E ?bs ?i =>
      let v := fresh "v" in let H := fresh "H" in let Hr := fresh "Hr" in
      destruct (go_index_Ok E bs i) as (v & H & Hr); [lia|rewrite H; clear H; cbn [mbind res_bind]]
  | go_slice ?bs ?lo ?hi =>
      let s := fresh "s" in let H := fresh "H" in let Hl := fresh "Hl" in
      destruct (go_slice bs lo hi) as [s| |] eqn:H;
      [pose proof (length_go_slice _ _ _ _ _ H) as Hl; clear H; cbn [mbind res_bind]
      |rewrite go_slice_Ok in H by lia; discriminate H
      |rewrite go_slice_Ok in H by lia; discriminate H]
  | @get16 ?E ?bs =>
      let v := fresh "v" in let H := fresh "H" in let Hr := fresh "Hr" in
      destruct (get16_Ok E bs) as (v & H & Hr); [lia|rewrite H; clear H; cbn [mbind res_bind]]
  | @get32 ?E ?bs =>
      let v := fresh "v" in let H := fresh "H" in
      destruct (get32_Ok E bs) as (v & H); [lia|rewrite H; clear H; cbn [mbind res_bind]]
  | (if ?b then _ else _) =>
      let H := fresh "Hb" in destruct b eqn:H; zb; cbn [mbind res_bind]; try discriminate
  end.
Ltac decode_step := match goal with |- ?t <> Panic => let h := head_of t in decode_head h end.
Ltac decode_safe := unfold no_panic; repeat decode_step; try discriminate.

(** Read a field at its place: [pre] before it, [post] after it. *)
Ltac blen_solve :=
  repeat rewrite ?blen_app, ?blen_cons, ?blen_nil, ?blen_put16, ?blen_put32; lia.
Ltac app_solve :=
  repeat (progress (cbn [app]; rewrite <- ?app_assoc)); rewrite ?app_nil_r; reflexivity.
Ltac slice_at pre mid post :=
  match goal with |- ?t = _ => let h := head_of t in
    match h with @go_slice ?E ?bs ?lo ?hi =>
      rewrite (go_slice_at E pre mid post bs lo hi); [|app_solve|blen_solve|blen_solve];
      cbn [mbind res_bind]
    end
  end.
Ltac index_at pre b post :=
  match goal with |- ?t = _ => let h := head_of t in
    match h with @go_index ?E ?bs ?i =>
      rewrite (go_index_at E pre b post bs i); [|app_solve|blen_solve]; cbn [mbind res_bind]
    end
  end.
(** Decide the conditional at the head by its length arithmetic. *)
Ltac cond_at :=
  match goal with |- ?t = _ => let h := head_of t in
    match h with
    | (if ?a <? ?b then _ else _) =>
        first [rewrite (proj2 (Z.ltb_ge a b)) by blen_solve|rewrite (proj2 (Z.ltb_lt a b)) by blen_solve]
    | (if ?a <=? ?b then _ else _) =>
        first [rewrite (proj2 (Z.leb_gt a b)) by blen_solve|rewrite (proj2 (Z.leb_le a b)) by blen_solve]
    end; cbn [mbind res_bind]
  end.

Lemma get16_put16' E v : 0 <= v < 65536 -> get16 (E:=E) (put16 v) = Ok v.
Proof. rewrite <- (app_nil_r (put16 v)). apply get16_put16. Qed.

Lemma get32_put32' E v : 0 <= v < 4294967296 -> get32 (E:=E) (put32 v) = Ok v.
Proof. rewrite <- (app_nil_r (put32 v)). apply get32_put32. Qed.

(** ** Streams *)

Inductive io_err := EOF | ErrUnexpectedEOF.

(** [io.ReadFull(r, buf)] with [len(buf) = n]: the bytes read and the reader
    afterwards. *)
Definition ReadFull (n : nat) (r : bytes) : res io_err (bytes * bytes) :=
  if decide (n <= length r)%nat then Ok (take n r, drop n r)
  else match r with [] => Err EOF | _ => Err ErrUnexpectedEOF end.

Lemma ReadFull_app p r : ReadFull (length p) (p ++ r) = Ok (p, r).
Proof.
  unfold ReadFull. rewrite length_app, decide_True by lia.
  by rewrite take_app_length, drop_app_length.
Qed.

Lemma ReadFull_app' n p r : n = length p -> ReadFull n (p ++ r) = Ok (p, r).
Proof. intros ->. apply ReadFull_app. Qed.

Lemma ReadFull_Ok n r p r' :
  ReadFull n r = Ok (p, r') -> r = p ++ r' /\ length p = n.
Proof.
  unfold ReadFull. case_decide; [|by destruct r]. intros [= <- <-].
  split; [by rewrite take_drop | rewrite length_take; lia].
Qed.

Lemma ReadFull_no_panic n r : no_panic (ReadFull n r).
Proof. unfold no_panic, ReadFull. by case_decide; [|destruct r]. Qed.

Lemma ReadFull_short n r : (length r < n)%nat -> exists e, ReadFull n r = Err e.
Proof. intros. unfold ReadFull. rewrite decide_False by lia. destruct r; eauto. Qed.

(** A writer: what was written, and the number of further [Write] calls that
    succeed ([None]: all of them, as for an in-memory buffer). *)
Record writer := Writer { w_out : bytes; w_quota : option nat }.

Definition w_buffer : writer := Writer [] None.

(** [w.Write(p)]: [None] when the underlying connection reports an error. *)
Definition Write (w : writer) (p : bytes) : option writer :=
  match w_quota w with
  | None => Some (Writer (w_out w ++ p) None)
  | Some 0%nat => None
  | Some (S k) => Some (Writer (w_out w ++ p) (Some k))
  end.

Lemma Write_buffer o p : Write (Writer o None) p = Some (Writer (o ++ p) None).
Proof. done. Qed.

#[export] Hint Resolve Z_of_byte_range blen_nonneg ReadFull_no_panic : shuttle.
