(* ===== verification/GoStrings.v ===== *)
(** * The parts of Go's [strings] and [strconv] packages the sources use

    A Go string is a [string] of bytes.  Case mapping is the ASCII case mapping
    of [strings.ToLower]/[strings.ToUpper] (bytes above 127 are left alone):
    the strings the sources case-fold are domain names, process names, protocol
    names and configuration keywords. *)

From Stdlib Require Import Ascii.
From S2P Require Import Prelude.

Local Open Scope Z_scope.

(** ** Characters *)

Definition code (c : ascii) : Z := Z.of_N (N_of_ascii c).
Definition chr (z : Z) : ascii := ascii_of_N (Z.to_N z).

Definition is_upper (c : ascii) : bool := (65 <=? code c) && (code c <=? 90).
Definition is_lower (c : ascii) : bool := (97 <=? code c) && (code c <=? 122).
Definition is_digit (c : ascii) : bool := (48 <=? code c) && (code c <=? 57).

(** ASCII white space of [unicode.IsSpace]. *)
Definition is_space (c : ascii) : bool :=
  ((9 <=? code c) && (code c <=? 13)) || (code c =? 32).

Definition lower (c : ascii) : ascii := if is_upper c then chr (code c + 32) else c.
Definition upper (c : ascii) : ascii := if is_lower c then chr (code c - 32) else c.

(** ** Strings *)

Fixpoint smap (f : ascii -> ascii) (s : string) : string :=
  match s with
  | EmptyString => EmptyString
  | String c s => String (f c) (smap f s)
  end.

Definition ToLower : string -> string := smap lower.
Definition ToUpper : string -> string := smap upper.

Definition slen (s : string) : Z := Z.of_nat (String.length s).

Fixpoint sdrop (n : nat) (s : string) : string :=
  match n, s with
  | O, _ => s
  | S n, EmptyString => EmptyString
  | S n, String _ s => sdrop n s
  end.

Fixpoint stake (n : nat) (s : string) : string :=
  match n, s with
  | O, _ => EmptyString
  | S n, EmptyString => EmptyString
  | S n, String c s => String c (stake n s)
  end.

Definition HasPrefix (s p : string) : bool := String.prefix p s.

(** [len(s) >= len(suf) && s[len(s)-len(suf):] == suf] *)
Definition HasSuffix (s suf : string) : bool :=
  (String.length suf <=? String.length s)%nat &&
  String.eqb (sdrop (String.length s - String.length suf) s) suf.

Definition TrimPrefix (s p : string) : string :=
  if HasPrefix s p then sdrop (String.length p) s else s.
Definition TrimSuffix (s suf : string) : string :=
  if HasSuffix s suf then stake (String.length s - String.length suf) s else s.

Fixpoint trim_left (s : string) : string :=
  match s with
  | String c s' => if is_space c then trim_left s' else s
  | EmptyString => EmptyString
  end.

Fixpoint trim_right (s : string) : string :=
  match s with
  | EmptyString => EmptyString
  | String c s' =>
      match trim_right s' with
      | EmptyString => if is_space c then EmptyString else String c EmptyString
      | t => String c t
      end
  end.

Definition TrimSpace (s : string) : string := trim_right (trim_left s).

(** [strings.Contains(s, sub)] *)
Fixpoint Contains (s sub : string) : bool :=
  String.prefix sub s ||
  match s with
  | EmptyString => false
  | String _ s' => Contains s' sub
  end.

(** [strings.IndexByte(s, c)], [None] for -1. *)
Fixpoint IndexByte (s : string) (c : ascii) : option nat :=
  match s with
  | EmptyString => None
  | String d s' => if Ascii.eqb c d then Some O else S <$> IndexByte s' c
  end.

(** [strings.LastIndexByte(s, c)], [None] for -1. *)
Fixpoint LastIndexByte (s : string) (c : ascii) : option nat :=
  match s with
  | EmptyString => None
  | String d s' =>
      match LastIndexByte s' c with
      | Some i => Some (S i)
      | None => if Ascii.eqb c d then Some O else None
      end
  end.

(** [strings.ContainsAny(s, chars)] *)
Fixpoint ContainsAny (s chars : string) : bool :=
  match s with
  | EmptyString => false
  | String c s' => bool_decide (is_Some (IndexByte chars c)) || ContainsAny s' chars
  end.

(** [strings.Split(s, string(sep))] for a one-byte separator: never empty. *)
Fixpoint Split (s : string) (sep : ascii) : list string :=
  match s with
  | EmptyString => [EmptyString]
  | String c s' =>
      if Ascii.eqb c sep then EmptyString :: Split s' sep
      else match Split s' sep with
           | p :: ps => String c p :: ps
           | [] => [String c EmptyString]
           end
  end.

(** [strings.Join(ps, sep)] *)
Fixpoint Join (ps : list string) (sep : string) : string :=
  match ps with
  | [] => EmptyString
  | [p] => p
  | p :: ps => String.append p (String.append sep (Join ps sep))
  end.

(** [strings.EqualFold(s, t)] on ASCII strings. *)
Definition EqualFold (s t : string) : bool := String.eqb (ToLower s) (ToLower t).

(** ** [strconv] *)

Inductive num_err := ErrSyntax | ErrRange.

Fixpoint parse_digits (maxVal n : Z) (s : string) : res num_err Z :=
  match s with
  | EmptyString => Ok n
  | String c s' =>
      if is_digit c then
        let n1 := n * 10 + (code c - 48) in
        if maxVal <? n1 then Err ErrRange else parse_digits maxVal n1 s'
      else Err ErrSyntax
  end.

(** [strconv.ParseUint(s, 10, bits)] *)
Definition ParseUint (s : string) (bits : Z) : res num_err Z :=
  match s with
  | EmptyString => Err ErrSyntax
  | _ => parse_digits (2 ^ bits - 1) 0 s
  end.

Fixpoint format_digits (fuel : nat) (n : Z) (acc : string) : string :=
  match fuel with
  | O => acc
  | S fuel =>
      let acc' := String (chr (48 + n mod 10)) acc in
      if n <? 10 then acc' else format_digits fuel (n / 10) acc'
  end.

(** [strconv.FormatUint(n, 10)]: 20 digits are enough for 64 bits. *)
Definition FormatUint (n : Z) : string := format_digits 20 n EmptyString.

(** ** Lemmas *)

Lemma code_range c : 0 <= code c < 256.
Proof.
  unfold code. pose proof (N_ascii_bounded c). lia.
Qed.

Lemma code_chr z : 0 <= z < 256 -> code (chr z) = z.
Proof. intros. unfold code, chr. rewrite N_ascii_embedding by lia. lia. Qed.

Lemma chr_code c : chr (code c) = c.
Proof. unfold chr, code. by rewrite N2Z.id, ascii_N_embedding. Qed.

Lemma lower_lower c : lower (lower c) = lower c.
Proof. by destruct c as [[] [] [] [] [] [] [] []]. Qed.

Lemma ToLower_ToLower s : ToLower (ToLower s) = ToLower s.
Proof. unfold ToLower. induction s; simpl; [done|]. by rewrite lower_lower, IHs. Qed.

Lemma ToLower_length s : String.length (ToLower s) = String.length s.
Proof. unfold ToLower. by induction s as [|c s IH]; simpl; [|rewrite IH]. Qed.

Lemma ToLower_append s t : ToLower (String.append s t) = String.append (ToLower s) (ToLower t).
Proof. unfold ToLower. by induction s as [|c s IH]; simpl; [|rewrite IH]. Qed.

Lemma ToLower_empty s : ToLower s = EmptyString <-> s = EmptyString.
Proof. by destruct s. Qed.

Lemma EqualFold_spec s t : EqualFold s t = true <-> ToLower s = ToLower t.
Proof. apply String.eqb_eq. Qed.

Lemma append_nil_r s : String.append s EmptyString = s.
Proof. by induction s as [|c s IH]; simpl; [|rewrite IH]. Qed.

Lemma append_assoc s t u :
  String.append s (String.append t u) = String.append (String.append s t) u.
Proof. by induction s as [|c s IH]; simpl; [|rewrite IH]. Qed.

Lemma append_length s t :
  String.length (String.append s t) = (String.length s + String.length t)%nat.
Proof. by induction s as [|c s IH]; simpl; [|rewrite IH]. Qed.

Lemma sdrop_append s t : sdrop (String.length s) (String.append s t) = t.
Proof. by induction s. Qed.

Lemma stake_append s t : stake (String.length s) (String.append s t) = s.
Proof. induction s as [|c s IH]; simpl; [by destruct t|by rewrite IH]. Qed.

Lemma stake_sdrop n s : String.append (stake n s) (sdrop n s) = s.
Proof. revert s; induction n as [|n IH]; intros [|c s]; simpl; try done. by rewrite IH. Qed.

Lemma HasPrefix_spec s p : HasPrefix s p = true <-> exists t, s = String.append p t.
Proof.
  unfold HasPrefix. revert s; induction p as [|c p IH]; intros s; simpl.
  - split; [intros _; by exists s|intros _; by destruct s].
  - destruct s as [|d s]; [split; [done|intros [? [=]]]|].
    simpl. destruct (ascii_dec c d) as [->|Hne].
    + rewrite IH. split; intros [t Ht]; exists t; congruence.
    + split; [done|intros [t [=]]; congruence].
Qed.

Lemma HasSuffix_spec s suf : HasSuffix s suf = true <-> exists p, s = String.append p suf.
Proof.
  unfold HasSuffix. rewrite andb_true_iff, Nat.leb_le, String.eqb_eq. split.
  - intros [_ H]. exists (stake (String.length s - String.length suf) s).
    rewrite <- H at 2. by rewrite stake_sdrop.
  - intros [p ->]. rewrite append_length. split; [lia|].
    replace (String.length p + String.length suf - String.length suf)%nat
      with (String.length p) by lia. apply sdrop_append.
Qed.

Lemma Split_nonempty s sep : Split s sep <> [].
Proof. destruct s as [|c s]; simpl; [done|]. case_match; [done|]. by case_match. Qed.

Lemma Split_append s t sep :
  Split (String.append s (String sep t)) sep = Split s sep ++ Split t sep.
Proof.
  induction s as [|c s IH]; simpl.
  - by rewrite Ascii.eqb_refl.
  - rewrite IH. destruct (Ascii.eqb c sep); [done|].
    pose proof (Split_nonempty s sep). by destruct (Split s sep).
Qed.

Lemma Join_Split s sep : Join (Split s sep) (String sep EmptyString) = s.
Proof.
  induction s as [|c s IH]; simpl; [done|].
  pose proof (Split_nonempty s sep).
  destruct (Ascii.eqb_spec c sep) as [->|].
  - destruct (Split s sep) eqn:E; [done|]. simpl in *. by rewrite IH.
  - destruct (Split s sep) as [|p [|q ps]] eqn:E; [done|..]; simpl in *; by rewrite IH.
Qed.

Lemma Split_inj s t sep : Split s sep = Split t sep -> s = t.
Proof. intros H. by rewrite <- (Join_Split s sep), H, Join_Split. Qed.

Lemma is_digit_chr d : 0 <= d < 10 -> is_digit (chr (48 + d)) = true /\ code (chr (48 + d)) - 48 = d.
Proof.
  intros. unfold is_digit. rewrite !code_chr by lia. split; [|lia].
  apply andb_true_iff; split; apply Z.leb_le; lia.
Qed.

Lemma parse_format_digits fuel maxVal n acc k :
  0 <= n <= maxVal -> n < 10 ^ Z.of_nat fuel -> (0 < fuel)%nat ->
  (forall m, parse_digits maxVal m acc = k m) ->
  parse_digits maxVal 0 (format_digits fuel n acc) = k n.
Proof.
  revert n acc k; induction fuel as [|fuel IH]; intros n acc k Hn Hlt Hf Hacc; [lia|].
  cbn [format_digits]. pose proof (Z.mod_pos_bound n 10). pose proof (Z.div_mod n 10).
  assert (0 <= n / 10) by (apply Z.div_pos; lia).
  destruct (is_digit_chr (n mod 10)) as [Hd Hc]; [lia|].
  destruct (n <? 10) eqn:Hb; zb.
  - cbn [parse_digits]. rewrite Hd, Hc.
    rewrite (Z.mod_small n 10) in * by lia.
    rewrite (proj2 (Z.ltb_ge maxVal (0 * 10 + n))) by lia.
    rewrite Hacc. f_equal; lia.
  - rewrite Nat2Z.inj_succ, Z.pow_succ_r in Hlt by lia.
    destruct fuel as [|fuel]; [simpl in Hlt; lia|].
    rewrite (IH (n / 10) _ (fun m => if maxVal <? m * 10 + n mod 10 then Err ErrRange
               else k (m * 10 + n mod 10))); [| lia | | lia | ].
    + replace (n / 10 * 10 + n mod 10) with n by lia.
      by rewrite (proj2 (Z.ltb_ge maxVal n)) by lia.
    + apply Z.div_lt_upper_bound; lia.
    + intros m. cbn [parse_digits]. rewrite Hd, Hc. by rewrite Hacc.
Qed.

Lemma format_digits_cons fuel n acc :
  (0 < fuel)%nat -> format_digits fuel n acc <> EmptyString.
Proof.
  revert n acc; induction fuel as [|fuel IH]; intros n acc Hf; [lia|]. cbn [format_digits].
  case_match; [done|]. destruct fuel; [done|]. apply IH; lia.
Qed.

(** [strconv.ParseUint] reads back what [strconv.FormatUint] prints. *)
Lemma ParseUint_FormatUint n bits :
  0 <= n < 2 ^ bits -> bits <= 64 -> ParseUint (FormatUint n) bits = Ok n.
Proof.
  intros Hn Hb. unfold ParseUint, FormatUint.
  assert (2 ^ bits <= 2 ^ 64).
  { destruct (Z.lt_ge_cases bits 0); [rewrite Z.pow_neg_r in * by lia; lia|].
    apply Z.pow_le_mono_r; lia. }
  case_match eqn:E; [by apply format_digits_cons in E; [|lia]|].
  rewrite <- E. apply (parse_format_digits 20 _ n EmptyString (fun m => Ok m)); [lia | | lia | done].
  assert (2 ^ 64 < 10 ^ 20) by (vm_compute; done). simpl Z.of_nat. lia.
Qed.

Lemma parse_digits_range maxVal n s v :
  parse_digits maxVal n s = Ok v -> 0 <= n <= maxVal -> 0 <= v <= maxVal.
Proof.
  revert n; induction s as [|c s IH]; intros n; simpl; [intros [= ->]; lia|].
  destruct (is_digit c) eqn:Hd; [|done]. case_match eqn:Hm; [done|]. zb.
  intros H Hn. apply IH in H; [done|]. unfold is_digit in Hd.
  apply andb_prop in Hd as [H1 H2]. zb. lia.
Qed.

Lemma ParseUint_range s bits v :
  0 <= bits -> ParseUint s bits = Ok v -> 0 <= v < 2 ^ bits.
Proof.
  unfold ParseUint. intros Hb. destruct s; [done|]. intros H.
  apply parse_digits_range in H; [lia|].
  assert (0 < 2 ^ bits) by (apply Z.pow_pos_nonneg; lia). lia.
Qed.

#[export] Hint Rewrite ToLower_ToLower : shuttle.
