(* ===== verification/GoNet.v ===== *)
(** * The parts of Go's [net] and [net/netip] packages the sources use

    [net.IP] is a byte slice (4 or 16 bytes, nil as [None] where the source
    tests for it), [net.IPNet] an address with a mask.  Parsing follows
    [netip.ParseAddr] ([parseIPv4Fields], [parseIPv6]) and [net.ParseCIDR],
    printing follows [netip.Addr.String]. *)

From Stdlib Require Import Ascii.
From Stdlib Require Import Strings.Byte.
From S2P Require Import Prelude GoBytes GoStrings.

Local Open Scope Z_scope.

Notation IP := bytes (only parsing).

Definition v4InV6Prefix : bytes :=
  replicate 10 Byte.x00 ++ [Byte.xff; Byte.xff].

(** [ip.To4()] *)
Definition To4 (ip : IP) : option bytes :=
  if decide (length ip = 4%nat) then Some ip
  else if decide (length ip = 16%nat /\ take 12 ip = v4InV6Prefix) then Some (drop 12 ip)
  else None.

(** [ip.To16()] *)
Definition To16 (ip : IP) : option bytes :=
  if decide (length ip = 4%nat) then Some (v4InV6Prefix ++ ip)
  else if decide (length ip = 16%nat) then Some ip
  else None.

(** ** Parsing addresses *)

(** [parseIPv4Fields]: [val] and [digLen] of the octet being read, [acc] the
    octets already stored, [prevDot] for [i == 0 || s[i-1] == '.']. *)
Fixpoint parseIPv4Fields (s : string) (val : Z) (digLen : nat) (prevDot : bool)
    (acc : bytes) : option bytes :=
  match s with
  | EmptyString =>
      if decide (length acc < 3)%nat then None else Some (acc ++ [byte_of_Z val])
  | String c s' =>
      if is_digit c then
        if decide (digLen = 1%nat /\ val = 0) then None else
        let val' := val * 10 + (code c - 48) in
        if 255 <? val' then None else parseIPv4Fields s' val' (S digLen) false acc
      else if Ascii.eqb c "." then
        if prevDot || String.eqb s' "" then None else
        if decide (length acc = 3%nat) then None else
        parseIPv4Fields s' 0 0 true (acc ++ [byte_of_Z val])
      else None
  end.

Definition parseIPv4 (s : string) : option bytes := parseIPv4Fields s 0 0 true [].

Definition hex_val (c : ascii) : option Z :=
  let x := code c in
  if (48 <=? x) && (x <=? 57) then Some (x - 48)
  else if (97 <=? x) && (x <=? 102) then Some (x - 97 + 10)
  else if (65 <=? x) && (x <=? 70) then Some (x - 65 + 10)
  else None.

(** The hex digits of one group: the value, their number and what follows;
    [None] when there are more than four. *)
Fixpoint scan_hex (off : nat) (acc : Z) (s : string) : option (Z * nat * string) :=
  match s with
  | EmptyString => Some (acc, off, s)
  | String c s' =>
      match hex_val c with
      | None => Some (acc, off, s)
      | Some d =>
          if decide (3 < off)%nat then None
          else if 65535 <? acc * 16 + d then None
          else scan_hex (S off) (acc * 16 + d) s'
      end
  end.

(** The loop of [parseIPv6]: the bytes stored so far ([i] is their number), the
    position of "::", and the rest of the string when the loop ends. *)
Fixpoint parseIPv6_loop (fuel : nat) (s : string) (ip : bytes) (ellipsis : option nat)
    : option (bytes * option nat * string) :=
  match fuel with
  | O => Some (ip, ellipsis, s)
  | S fuel =>
      if decide (16 <= length ip)%nat then Some (ip, ellipsis, s) else
      match scan_hex 0 0 s with
      | None => None
      | Some (acc, off, s') =>
          if decide (off = 0%nat) then None else
          match s' with
          | String "." _ =>
              if decide (ellipsis = None /\ length ip <> 12%nat) then None
              else if decide (16 < length ip + 4)%nat then None
              else match parseIPv4Fields s 0 0 true [] with
                   | Some v4 => Some (ip ++ v4, ellipsis, EmptyString)
                   | None => None
                   end
          | EmptyString => Some (ip ++ put16 acc, ellipsis, EmptyString)
          | String ":" EmptyString => None
          | String ":" (String ":" s'') =>
              if decide (is_Some ellipsis) then None else
              let ell := Some (length ip + 2)%nat in
              match s'' with
              | EmptyString => Some (ip ++ put16 acc, ell, EmptyString)
              | _ => parseIPv6_loop fuel s'' (ip ++ put16 acc) ell
              end
          | String ":" s'' => parseIPv6_loop fuel s'' (ip ++ put16 acc) ellipsis
          | String _ _ => None
          end
      end
  end.

(** The address and whether it carries a zone. *)
Definition parseIPv6 (inp : string) : option (bytes * bool) :=
  let '(s, zone) := match IndexByte inp "%" with
                    | Some i => (stake i inp, Some (sdrop (S i) inp))
                    | None => (inp, None)
                    end in
  if decide (zone = Some EmptyString) then None else
  let hasZone := bool_decide (is_Some zone) in
  let '(s, ellipsis) := if HasPrefix s "::" then (sdrop 2 s, Some 0%nat) else (s, None) in
  if bool_decide (ellipsis = Some 0%nat) && String.eqb s "" then
    Some (replicate 16 Byte.x00, hasZone)
  else
    match parseIPv6_loop 9 s [] ellipsis with
    | None => None
    | Some (ip, ell, rest) =>
        if negb (String.eqb rest "") then None else
        let i := length ip in
        if decide (i < 16)%nat then
          match ell with
          | None => None
          | Some e => Some (take e ip ++ replicate (16 - i) Byte.x00 ++ drop e ip, hasZone)
          end
        else if decide (is_Some ell) then None
        else Some (ip, hasZone)
    end.

(** [netip.ParseAddr]: 4 bytes for dotted notation, 16 for colon notation. *)
Fixpoint addr_kind (s : string) : option ascii :=
  match s with
  | EmptyString => None
  | String c s' =>
      if Ascii.eqb c "." || Ascii.eqb c ":" || Ascii.eqb c "%" then Some c else addr_kind s'
  end.

Definition ParseAddr (s : string) : option (bytes * bool) :=
  match addr_kind s with
  | Some "."%char => (fun ip => (ip, false)) <$> parseIPv4 s
  | Some ":"%char => parseIPv6 s
  | _ => None
  end.

(** [net.ParseIP]: 16 bytes, nil for an invalid address or one with a zone. *)
Definition ParseIP (s : string) : option IP :=
  match ParseAddr s with
  | Some (ip, false) => To16 ip
  | _ => None
  end.

(** ** Networks *)

Record IPNet := { net_ip : bytes; net_mask : bytes }.

(** [CIDRMask(ones, bits)] for [0 <= ones <= bits] and [bits] 32 or 128. *)
Fixpoint mask_bytes (n : nat) (ones : Z) : bytes :=
  match n with
  | O => []
  | S n =>
      if 8 <=? ones then Byte.xff :: mask_bytes n (ones - 8)
      else byte_of_Z (255 - Z.shiftr 255 ones) :: mask_bytes n 0
  end.

Definition CIDRMask (ones : Z) (nbytes : nat) : bytes := mask_bytes nbytes ones.

Definition byte_and (a b : byte) : byte := byte_of_Z (Z.land (Z_of_byte a) (Z_of_byte b)).

(** [ip.Mask(m)] when both have the same length. *)
Definition mask_ip (ip m : bytes) : bytes := zip_with byte_and ip m.

(** [dtoi]: decimal digits up to the first other character. *)
Fixpoint dtoi (s : string) (n : Z) (seen : bool) : option (Z * string) :=
  match s with
  | EmptyString => if seen then Some (n, s) else None
  | String c s' =>
      if is_digit c then
        let n' := n * 10 + (code c - 48) in
        if 16777215 <=? n' then None else dtoi s' n' true
      else if seen then Some (n, s) else None
  end.

(** [net.ParseCIDR], the network only. *)
Definition ParseCIDR (s : string) : option IPNet :=
  match IndexByte s "/" with
  | None => None
  | Some i =>
      match ParseAddr (stake i s), dtoi (sdrop (S i) s) 0 false with
      | Some (ip, false), Some (n, EmptyString) =>
          if Z.of_nat (8 * length ip) <? n then None else
          let m := CIDRMask n (length ip) in
          Some {| net_ip := mask_ip ip m; net_mask := m |}
      | _, _ => None
      end
  end.

(** [networkNumberAndMask] *)
Definition networkNumberAndMask (n : IPNet) : option (bytes * bytes) :=
  match (match To4 (net_ip n) with
         | Some ip => Some ip
         | None => if decide (length (net_ip n) = 16%nat) then Some (net_ip n) else None
         end) with
  | None => None
  | Some ip =>
      let m := net_mask n in
      if decide (length m = 4%nat) then
        if decide (length ip = 4%nat) then Some (ip, m) else None
      else if decide (length m = 16%nat) then
        if decide (length ip = 4%nat) then Some (ip, drop 12 m) else Some (ip, m)
      else None
  end.

(** [n.Contains(ip)] *)
Definition IPNet_Contains (n : IPNet) (ip : IP) : bool :=
  match networkNumberAndMask n with
  | None => bool_decide (length (default ip (To4 ip)) = 0%nat)
  | Some (nn, m) =>
      let x := default ip (To4 ip) in
      bool_decide (length x = length nn) && bool_decide (mask_ip nn m = mask_ip x m)
  end.

(** The number of leading one bits of a mask; [None] for a mask that is not a
    prefix mask ([Mask.Size()] returns 0, 0). *)
Fixpoint byte_ones (fuel : nat) (b : Z) : option Z :=
  match fuel with
  | O => if b =? 0 then Some 0 else None
  | S fuel =>
      if Z.testbit b 7 then Z.succ <$> byte_ones fuel (u8 (b * 2))
      else if b =? 0 then Some 0 else None
  end.

Fixpoint mask_ones (m : bytes) : option Z :=
  match m with
  | [] => Some 0
  | b :: m' =>
      if decide (b = Byte.xff) then Z.add 8 <$> mask_ones m'
      else if forallb (fun c => bool_decide (c = Byte.x00)) m'
           then byte_ones 8 (Z_of_byte b) else None
  end.

(** [n.Mask.Size()], the first result *)
Definition mask_size (m : bytes) : Z := default 0 (mask_ones m).

(** ** Printing addresses *)

Definition hex_digit (d : Z) : ascii := if d <? 10 then chr (48 + d) else chr (97 + (d - 10)).

(** [appendHex]: no leading zeros *)
Definition hex16 (v : Z) : string :=
  let d0 := String (hex_digit (v mod 16)) EmptyString in
  let d1 := String (hex_digit (v / 16 mod 16)) d0 in
  let d2 := String (hex_digit (v / 256 mod 16)) d1 in
  if 4096 <=? v then String (hex_digit (v / 4096)) d2
  else if 256 <=? v then d2 else if 16 <=? v then d1 else d0.

Definition ipv4_string (ip : bytes) : string :=
  Join (map (fun b => FormatUint (Z_of_byte b)) ip) ".".

Fixpoint groups (bs : bytes) : list Z :=
  match bs with
  | a :: b :: bs => be_value 0 [a; b] :: groups bs
  | _ => []
  end.

Fixpoint zero_run (gs : list Z) : nat :=
  match gs with
  | 0 :: gs => S (zero_run gs)
  | _ => O
  end.

(** The leftmost longest run of at least two zero groups. *)
Fixpoint best_run (gs : list Z) (i : nat) (best : option (nat * nat)) : option (nat * nat) :=
  match gs with
  | [] => best
  | _ :: gs' =>
      let l := zero_run gs in
      let best' :=
        match best with
        | Some (s, e) => if decide (2 <= l /\ e - s < l)%nat then Some (i, i + l)%nat else best
        | None => if decide (2 <= l)%nat then Some (i, i + l)%nat else None
        end in
      best_run gs' (S i) best'
  end.

Definition join_groups (gs : list Z) : string := Join (map hex16 gs) ":".

Definition ipv6_string (ip : bytes) : string :=
  let gs := groups ip in
  match best_run gs 0 None with
  | None => join_groups gs
  | Some (s, e) =>
      String.append (join_groups (take s gs))
        (String.append "::" (join_groups (drop e gs)))
  end.

(** [ip.String()] for an address of 4 or 16 bytes *)
Definition IP_String (ip : IP) : string :=
  match To4 ip with
  | Some p4 => ipv4_string p4
  | None => ipv6_string ip
  end.

(** ** host:port *)

Inductive addr_err := MissingPort | TooManyColons | MissingBracket | UnexpectedBracket.

Definition SplitHostPort (hostport : string) : res addr_err (string * string) :=
  match LastIndexByte hostport ":" with
  | None => Err MissingPort
  | Some i =>
      let finish host j k :=
        if decide (is_Some (IndexByte (sdrop j hostport) "[")) then Err UnexpectedBracket
        else if decide (is_Some (IndexByte (sdrop k hostport) "]")) then Err UnexpectedBracket
        else Ok (host, sdrop (S i) hostport) in
      if HasPrefix hostport "[" then
        match IndexByte hostport "]" with
        | None => Err MissingBracket
        | Some e =>
            if decide (S e = String.length hostport) then Err MissingPort
            else if decide (S e = i) then finish (stake (e - 1) (sdrop 1 hostport)) 1%nat (S e)
            else if HasPrefix (sdrop (S e) hostport) ":" then Err TooManyColons
            else Err MissingPort
        end
      else
        let host := stake i hostport in
        if decide (is_Some (IndexByte host ":")) then Err TooManyColons
        else finish host 0%nat 0%nat
  end.

Definition JoinHostPort (host port : string) : string :=
  if decide (is_Some (IndexByte host ":"))
  then String.append "[" (String.append host (String.append "]:" port))
  else String.append host (String.append ":" port).

(** ** Lengths *)

Lemma To4_length ip b : To4 ip = Some b -> length b = 4%nat.
Proof.
  unfold To4. repeat case_decide; intros [= <-]; [done|]. rewrite length_drop. lia.
Qed.

Lemma To16_16 ip : length ip = 16%nat -> To16 ip = Some ip.
Proof. intros H. unfold To16. rewrite decide_False by lia. by rewrite decide_True. Qed.

Lemma ParseIP_length s ip : ParseIP s = Some ip -> length ip = 16%nat.
Proof.
  unfold ParseIP. destruct (ParseAddr s) as [[a []]|]; [done| |done]. unfold To16.
  case_decide as H4; [intros [= <-]; simpl; by rewrite H4|].
  case_decide; [by intros [= <-]|done].
Qed.
