(* ===== verification/DomainTrie.v ===== *)
(** * The domain trie of the router (src/router/trie.go)

    The trie itself ([DomainTrie], [trieNode]), its three operations, and the
    contract they implement: a finite map from reversed label paths to actions
    in which a lookup answers with the most specific entry on the path of the
    domain. *)

From Stdlib Require Import Ascii.
From S2P Require Import Prelude GoStrings.

Local Open Scope Z_scope.

Module Trie.

(** ** Data and operations *)

(** [trieNode] *)
Inductive trieNode :=
  TrieNode (children : gmap string trieNode) (value : string) (isEnd : bool).

Definition children (n : trieNode) := let 'TrieNode c _ _ := n in c.
Definition value (n : trieNode) := let 'TrieNode _ v _ := n in v.
Definition isEnd (n : trieNode) := let 'TrieNode _ _ e := n in e.

(** [DomainTrie]; [size] is the Go [int] field. *)
Record DomainTrie := { root : trieNode; size : Z }.

Definition newNode : trieNode := TrieNode ∅ "" false.
Definition NewDomainTrie : DomainTrie := {| root := newNode; size := 0 |}.

(** The labels of a domain, last label first. *)
Definition reverseDomain (domain : string) : list string :=
  let domain := TrimPrefix domain "+." in
  let domain := TrimSuffix domain "." in
  let domain := ToLower domain in
  rev (Split domain ".").

(** The node loop of [Insert]: the new node and whether [isEnd] was unset. *)
Fixpoint insert_node (n : trieNode) (parts : list string) (action : string)
    : trieNode * bool :=
  match n, parts with
  | TrieNode c v e, [] => (TrieNode c action true, negb e)
  | TrieNode c v e, part :: parts =>
      let child := default newNode (c !! part) in
      let '(child', grown) := insert_node child parts action in
      (TrieNode (<[part := child']> c) v e, grown)
  end.

Definition Insert (t : DomainTrie) (domain action : string) : DomainTrie :=
  let '(root', grown) := insert_node (root t) (reverseDomain domain) action in
  {| root := root'; size := if grown then size t + 1 else size t |}.

(** The loop of [Lookup], with [lastMatch] and [found] as an option. *)
Fixpoint lookup_node (n : trieNode) (parts : list string) (last : option string)
    : option string :=
  match parts with
  | [] => last
  | part :: parts =>
      let last :=
        match children n !! "+" with
        | Some wild => if isEnd wild then Some (value wild) else last
        | None => last
        end in
      match children n !! part with
      | None => last
      | Some child =>
          lookup_node child parts (if isEnd child then Some (value child) else last)
      end
  end.

(** [Lookup]: [None] for [("", false)]. *)
Definition Lookup (t : DomainTrie) (domain : string) : option string :=
  lookup_node (root t) (reverseDomain domain) None.

(** The node loop of [Delete]: [None] when the function returns false. *)
Fixpoint delete_node (n : trieNode) (parts : list string) : option trieNode :=
  match n, parts with
  | TrieNode c v e, [] => if e then Some (TrieNode c "" false) else None
  | TrieNode c v e, part :: parts =>
      match c !! part with
      | None => None
      | Some child =>
          child' ← delete_node child parts;
          Some (TrieNode (<[part := child']> c) v e)
      end
  end.

Definition Delete (t : DomainTrie) (domain : string) : DomainTrie * bool :=
  match delete_node (root t) (reverseDomain domain) with
  | Some root' => ({| root := root'; size := size t - 1 |}, true)
  | None => (t, false)
  end.

(** ** Entries of a trie *)

(** The action stored at a path, if the path is an entry. *)
Fixpoint entry (n : trieNode) (p : list string) : option string :=
  match p with
  | [] => if isEnd n then Some (value n) else None
  | l :: p => child ← children n !! l; entry child p
  end.

Lemma entry_newNode p : entry newNode p = None.
Proof. by destruct p; simpl; rewrite ?lookup_empty. Qed.

Lemma entry_default (c : gmap string trieNode) l p :
  entry (default newNode (c !! l)) p = (child ← c !! l; entry child p).
Proof. destruct (c !! l); simpl; [done|apply entry_newNode]. Qed.

Lemma entry_insert_node n p a q :
  entry (insert_node n p a).1 q = if decide (p = q) then Some a else entry n q.
Proof.
  revert n q; induction p as [|l p IH]; intros [c v e] q; simpl.
  - by destruct q.
  - specialize (IH (default newNode (c !! l))).
    destruct (insert_node _ _ _) as [child grown]; simpl in *.
    destruct q as [|l' q]; simpl; [done|].
    destruct (decide (l = l')) as [->|Hne].
    + rewrite lookup_insert_eq. simpl. rewrite IH, entry_default.
      repeat case_decide; by simplify_eq.
    + rewrite lookup_insert_ne by done. rewrite decide_False by congruence. done.
Qed.

Lemma insert_node_grown n p a : (insert_node n p a).2 = bool_decide (entry n p = None).
Proof.
  revert n; induction p as [|l p IH]; intros [c v e]; simpl.
  - by destruct e.
  - specialize (IH (default newNode (c !! l))). rewrite entry_default in IH.
    destruct (insert_node _ _ _); simpl in *. done.
Qed.

Lemma delete_node_None n p : delete_node n p = None <-> entry n p = None.
Proof.
  revert n; induction p as [|l p IH]; intros [c v e]; simpl; [by destruct e|].
  destruct (c !! l) as [child|]; simpl; [|done]. rewrite <- IH.
  by destruct (delete_node child p).
Qed.

Lemma entry_delete_node n p n' q :
  delete_node n p = Some n' ->
  entry n' q = if decide (p = q) then None else entry n q.
Proof.
  revert n n' q; induction p as [|l p IH]; intros [c v e] n' q; simpl.
  - destruct e; [|done]. intros [= <-]. by destruct q.
  - destruct (c !! l) as [child|] eqn:Hl; simpl; [|done].
    destruct (delete_node child p) as [child'|] eqn:Hd; simpl; [|done].
    intros [= <-]. destruct q as [|l' q]; simpl; [done|].
    destruct (decide (l = l')) as [->|Hne].
    + rewrite lookup_insert_eq, Hl. simpl. rewrite (IH _ _ _ Hd).
      repeat case_decide; by simplify_eq.
    + rewrite lookup_insert_ne by done. by rewrite decide_False by congruence.
Qed.

(** ** The contract: a map of paths *)

(** Where a lookup on [parts] finds its answer, in the order the loop visits
    the places: under each prefix first its "+" child, then the next label. *)
Fixpoint places (pre parts : list string) : list (list string) :=
  match parts with
  | [] => []
  | l :: parts => (pre ++ ["+"]) :: (pre ++ [l]) :: places (pre ++ [l]) parts
  end.

Abbreviation tmap := (gmap (list string) string).

(** The most specific entry: the last place that is an entry. *)
Definition spec_lookup (m : tmap) (parts : list string) : option string :=
  list.last (omap (fun p => m !! p) (places [] parts)).

Definition represents (t : DomainTrie) (m : tmap) : Prop :=
  (forall p, entry (root t) p = m !! p) /\ size t = Z.of_nat (base.size m).

Lemma places_app pre pre' parts :
  places (pre ++ pre') parts = map (app pre) (places pre' parts).
Proof.
  revert pre'; induction parts as [|l parts IH]; intros pre'; simpl; [done|].
  by rewrite <- !app_assoc, IH.
Qed.

Lemma omap_entry_places n pre parts :
  omap (fun p => entry n p) (places pre parts) =
  omap (fun p => entry n p) (map (app pre) (places [] parts)).
Proof. by rewrite <- places_app, app_nil_r. Qed.

Lemma omap_child n l (ps : list (list string)) :
  omap (fun p => entry n p) (map (cons l) ps) =
  match children n !! l with
  | Some child => omap (fun p => entry child p) ps
  | None => []
  end.
Proof.
  induction ps as [|p ps IH]; [by case_match|].
  cbn [map]. rewrite omap_cons, IH. cbn [entry]. by destruct (children n !! l).
Qed.

Lemma lookup_node_spec n parts last :
  lookup_node n parts last =
  or_else (list.last (omap (fun p => entry n p) (places [] parts))) last.
Proof.
  revert n last; induction parts as [|l parts IH]; intros n last; [done|].
  cbn [lookup_node places].
  change ([] ++ [l]) with ([l] ++ @nil string). rewrite (places_app [l] [] parts).
  change (app [l]) with (@cons string l).
  rewrite !omap_cons. cbn [app]. rewrite (omap_child n l).
  cbn [entry]. destruct (children n !! "+") as [wild|]; simpl;
    [destruct (isEnd wild)|];
    (destruct (children n !! l) as [child|]; simpl;
     [rewrite IH; destruct (isEnd child)|]; simpl;
     rewrite ?last_cons_default, ?or_else_Some; done).
Qed.

Lemma represents_new : represents NewDomainTrie ∅.
Proof. split; [intros p; by rewrite entry_newNode, lookup_empty|done]. Qed.

Lemma Insert_represents t m d a :
  represents t m -> represents (Insert t d a) (<[reverseDomain d := a]> m).
Proof.
  intros [Hm Hs]. unfold Insert.
  pose proof (entry_insert_node (root t) (reverseDomain d) a) as He.
  pose proof (insert_node_grown (root t) (reverseDomain d) a) as Hg.
  destruct (insert_node _ _ _) as [r g]; simpl in *. rewrite Hm in Hg. split; simpl.
  - intros p. rewrite He, lookup_insert. by case_decide; [|apply Hm].
  - subst g. rewrite map_size_insert, Hs.
    destruct (m !! reverseDomain d); simpl; [done|]. lia.
Qed.

Lemma Delete_represents t m d :
  represents t m ->
  represents (Delete t d).1 (delete (reverseDomain d) m) /\
  (Delete t d).2 = bool_decide (is_Some (m !! reverseDomain d)).
Proof.
  intros [Hm Hs]. unfold Delete.
  destruct (delete_node (root t) (reverseDomain d)) as [r|] eqn:Hd; simpl.
  - assert (is_Some (m !! reverseDomain d)) as [v Hv].
    { rewrite <- Hm. apply not_eq_None_Some. rewrite <- delete_node_None. by rewrite Hd. }
    rewrite bool_decide_eq_true_2 by eauto. split; [|done]. split; simpl.
    + intros p. rewrite (entry_delete_node _ _ _ _ Hd), lookup_delete. by case_decide.
    + rewrite map_size_delete, Hv, Hs. simpl.
      assert (base.size m <> 0%nat); [|lia]. intros ->%map_size_empty_inv. by rewrite lookup_empty in Hv.
  - apply delete_node_None in Hd. rewrite Hm in Hd. rewrite Hd.
    rewrite bool_decide_eq_false_2 by (by intros [? ?]). split; [|done].
    by rewrite delete_id.
Qed.

Lemma Lookup_represents t m d :
  represents t m -> Lookup t d = spec_lookup m (reverseDomain d).
Proof.
  intros [Hm _]. unfold Lookup, spec_lookup. rewrite lookup_node_spec.
  rewrite (omap_ext_eq _ (fun p => m !! p) _ Hm). by destruct (list.last _).
Qed.

(** ** Sequences of operations *)

Inductive op := OpInsert (domain action : string) | OpDelete (domain : string).

Definition run_op (t : DomainTrie) (o : op) : DomainTrie :=
  match o with
  | OpInsert d a => Insert t d a
  | OpDelete d => (Delete t d).1
  end.

Definition spec_op (m : tmap) (o : op) : tmap :=
  match o with
  | OpInsert d a => <[reverseDomain d := a]> m
  | OpDelete d => delete (reverseDomain d) m
  end.

Lemma run_represents ops t m :
  represents t m -> represents (fold_left run_op ops t) (fold_left spec_op ops m).
Proof.
  revert t m; induction ops as [|[d a|d] ops IH]; intros t m H; simpl; [done|..]; apply IH.
  - by apply Insert_represents.
  - by apply Delete_represents.
Qed.

(** C2: the trie implements a map of reversed label paths: after any sequence of
    insertions and deletions, a lookup answers with the action of the most
    specific entry on the path of the domain (the last one among the "+" child
    and the next label of every prefix), a further deletion succeeds exactly for
    an entry, and the size field counts the entries. *)
Theorem trie_refines_map (ops : list op) (domain : string) :
  let t := fold_left run_op ops NewDomainTrie in
  let m := fold_left spec_op ops ∅ in
  Lookup t domain = spec_lookup m (reverseDomain domain) /\
  (Delete t domain).2 = bool_decide (is_Some (m !! reverseDomain domain)) /\
  size t = Z.of_nat (base.size m).
Proof.
  intros t m. pose proof (run_represents ops _ _ represents_new) as H.
  split_and!; [by apply Lookup_represents | by apply Delete_represents | apply H].
Qed.

(** ** Suffix matching on domains *)

(** The form in which a domain is stored. *)
Definition norm (d : string) : string := ToLower (TrimSuffix (TrimPrefix d "+.") ".").

(** [d] is [s] or a subdomain of [s]. *)
Definition under (d s : string) : Prop :=
  d = s \/ HasSuffix d (String "." s) = true.

Lemma suffix_Join (l k : list string) sep :
  l <> [] -> k <> [] ->
  Join (l ++ k) sep = String.append (Join l sep) (String.append sep (Join k sep)).
Proof.
  intros Hl Hk. induction l as [|x [|y l] IH]; [done| |].
  - by destruct k.
  - change (Join ((x :: y :: l) ++ k) sep)
      with (String.append x (String.append sep (Join ((y :: l) ++ k) sep))).
    rewrite IH by done.
    change (Join (x :: y :: l) sep) with (String.append x (String.append sep (Join (y :: l) sep))).
    by rewrite !append_assoc.
Qed.

Lemma under_Split (d s : string) :
  under d s <-> exists pre, Split d "." = pre ++ Split s ".".
Proof.
  unfold under. split.
  - intros [->|H]; [by exists []|]. apply HasSuffix_spec in H as [p ->].
    exists (Split p "."). apply Split_append.
  - intros [pre H]. destruct pre as [|x pre]; [left; by apply Split_inj in H|].
    right. apply HasSuffix_spec. exists (Join (x :: pre) ".").
    rewrite <- (Join_Split d "."), H, suffix_Join by (done || apply Split_nonempty).
    by rewrite Join_Split.
Qed.

Lemma reverseDomain_prefix d s :
  reverseDomain s `prefix_of` reverseDomain d <-> under (norm d) (norm s).
Proof.
  unfold reverseDomain. fold (norm d) (norm s). rewrite under_Split. split.
  - intros [k Hk]. exists (rev k). rewrite <- (rev_involutive (Split (norm d) ".")), Hk.
    by rewrite rev_app_distr, rev_involutive.
  - intros [pre ->]. exists (rev pre). apply rev_app_distr.
Qed.

Lemma reverseDomain_nonempty d : reverseDomain d <> [].
Proof.
  unfold reverseDomain. intros H. apply (f_equal (@rev string)) in H.
  rewrite rev_involutive in H. by apply Split_nonempty in H.
Qed.

Lemma elem_of_places p pre parts :
  p ∈ places pre parts <->
  exists q, q `prefix_of` parts /\
    ((q <> [] /\ p = pre ++ q) \/ (q <> parts /\ p = pre ++ q ++ ["+"])).
Proof.
  revert pre; induction parts as [|l parts IH]; intros pre; simpl.
  - rewrite elem_of_nil. split; [done|]. intros (q & ->%prefix_nil_inv & [[? _]|[? _]]); done.
  - rewrite !elem_of_cons, IH. split.
    + intros [->|[->|(q & Hq & [[? ->]|[? ->]])]].
      * exists []. split; [apply prefix_nil|]. right. by rewrite app_nil_l.
      * exists [l]. split; [apply prefix_cons, prefix_nil|]. by left.
      * exists (l :: q). split; [by apply prefix_cons|]. left. by rewrite <- app_assoc.
      * exists (l :: q). split; [by apply prefix_cons|]. right.
        split; [congruence|]. by rewrite <- app_assoc.
    + intros (q & Hq & Hc). destruct q as [|l' q].
      * destruct Hc as [[? _]|[_ ->]]; [done|]. by left.
      * pose proof (prefix_cons_inv_1 _ _ _ _ Hq) as ->. apply prefix_cons_inv_2 in Hq. right.
        destruct Hc as [[_ ->]|[Hne ->]].
        -- destruct q as [|x q]; [by left|]. right. exists (x :: q).
           split; [done|]. left. by rewrite <- app_assoc.
        -- right. exists q. split; [done|]. right. split; [congruence|]. by rewrite <- app_assoc.
Qed.

Lemma last_omap_is_Some {A B} (f : A -> option B) l :
  is_Some (list.last (omap f l)) <-> exists x, x ∈ l /\ is_Some (f x).
Proof.
  split.
  - intros [y Hy]. apply last_Some_elem_of, list_elem_of_omap in Hy as (x & Hx & Hf). eauto.
  - intros (x & Hx & y & Hy). assert (y ∈ omap f l) as Hin by (apply list_elem_of_omap; eauto).
    destruct (omap f l); [by apply elem_of_nil in Hin|apply last_is_Some_cons].
Qed.

Definition insert_all (rules : list (string * string)) (t : DomainTrie) : DomainTrie :=
  fold_left (fun t '(d, a) => Insert t d a) rules t.

Lemma insert_all_run rules t :
  insert_all rules t = fold_left run_op (map (fun '(d, a) => OpInsert d a) rules) t.
Proof. revert t; induction rules as [|[d a] rules IH]; intros t; simpl; [done|apply IH]. Qed.

Lemma spec_inserts_is_Some rules m p :
  is_Some (fold_left spec_op (map (fun '(d, a) => OpInsert d a) rules) m !! p) <->
  is_Some (m !! p) \/ exists d a, (d, a) ∈ rules /\ p = reverseDomain d.
Proof.
  revert m; induction rules as [|[d a] rules IH]; intros m; simpl.
  - split; [auto|]. intros [?|(? & ? & []%elem_of_nil & _)]; done.
  - rewrite IH. setoid_rewrite elem_of_cons. rewrite lookup_insert. case_decide; subst.
    + split; [intros _; right; exists d, a; auto|]. intros _. left. eauto.
    + naive_solver.
Qed.

(** The entry [d] answers for [domain]: its labels end those of the domain, where a
    first label "+" stands for one label or more. *)
Definition covers (domain d : string) : Prop :=
  under (norm domain) (norm d) \/
  exists t, Split (norm d) "." = "+" :: t /\ exists pre x, Split (norm domain) "." = pre ++ x :: t.

Lemma covers_paths domain d :
  covers domain d <->
  exists q, q `prefix_of` reverseDomain domain /\
    (reverseDomain d = q \/ (q <> reverseDomain domain /\ reverseDomain d = q ++ ["+"])).
Proof.
  unfold covers. rewrite <- reverseDomain_prefix. unfold reverseDomain. fold (norm d) (norm domain). split.
  - intros [H|(t & Ht & pre & x & Hd)]; [eauto|]. exists (rev t). rewrite Ht, Hd, rev_app_distr. cbn [rev]. split.
    + rewrite <- app_assoc. by eexists.
    + right. split; [|done]. intros H%(f_equal length). rewrite !length_app in H. cbn in H. lia.
  - intros (q & Hq & [<-|[Hne Hd]]); [by left|right]. exists (rev q). split.
    + by rewrite <- (rev_involutive (Split (norm d) ".")), Hd, rev_app_distr.
    + destruct Hq as [k Hk]. destruct k as [|x k]; [by rewrite app_nil_r in Hk|]. exists (rev k), x.
      rewrite <- (rev_involutive (Split (norm domain) ".")), Hk, rev_app_distr. cbn [rev]. by rewrite <- app_assoc.
Qed.

Lemma Lookup_insert_covers rules domain :
  is_Some (Lookup (insert_all rules NewDomainTrie) domain) <-> exists d a, (d, a) ∈ rules /\ covers domain d.
Proof.
  rewrite insert_all_run. rewrite (Lookup_represents _ _ _ (run_represents _ _ _ represents_new)).
  unfold spec_lookup. rewrite last_omap_is_Some. setoid_rewrite spec_inserts_is_Some.
  setoid_rewrite elem_of_places. setoid_rewrite covers_paths. split.
  - intros (p & (q & Hq & Hp) & [[? Hm]|(d & a & Hin & ->)]); [by rewrite lookup_empty in Hm|]. naive_solver.
  - intros (d & a & Hin & q & Hq & Hp). exists (reverseDomain d). split; [|right; eauto]. exists q. split; [done|].
    destruct Hp as [<-|[? ?]]; [left; split; [apply reverseDomain_nonempty|done]|by right].
Qed.

Lemma covers_plain domain d : "+" ∉ reverseDomain d -> covers domain d <-> under (norm domain) (norm d).
Proof.
  intros Hp. unfold covers. split; [|by left]. intros [H|(t & Ht & _)]; [done|]. exfalso. apply Hp. unfold reverseDomain.
  fold (norm d). rewrite Ht. cbn [rev]. set_solver.
Qed.

Lemma Lookup_insert_all rules domain :
  (forall d a, (d, a) ∈ rules -> "+" ∉ reverseDomain d) ->
  is_Some (Lookup (insert_all rules NewDomainTrie) domain) <->
  exists d a, (d, a) ∈ rules /\ reverseDomain d `prefix_of` reverseDomain domain.
Proof.
  intros Hplus. rewrite Lookup_insert_covers. split; intros (d & a & Hin & Hc); exists d, a; (split; [done|]).
  - by apply covers_plain, reverseDomain_prefix in Hc; [|by eapply Hplus].
  - left. by apply reverseDomain_prefix.
Qed.

(** Suffix matching on label boundaries. In a trie filled with domains none
    of which has a "+" label of its own, a domain is found exactly when it is
    one of the stored domains or a subdomain of one (after removing a leading
    "+.", a trailing "." and the case): "example.com" and "+.example.com" both
    cover "a.example.com" and neither covers "notexample.com". *)
Theorem trie_suffix_match (rules : list (string * string)) (domain : string) :
  (forall d a, (d, a) ∈ rules -> "+" ∉ reverseDomain d) ->
  is_Some (Lookup (insert_all rules NewDomainTrie) domain) <->
  exists d a, (d, a) ∈ rules /\ under (norm domain) (norm d).
Proof.
  intros Hplus. rewrite Lookup_insert_all by done. by setoid_rewrite reverseDomain_prefix.
Qed.

Lemma trie_suffix_match_witness :
  is_Some (Lookup (insert_all [("+.Example.com", "direct")] NewDomainTrie) "a.b.example.com.") /\
  ~ is_Some (Lookup (insert_all [("+.Example.com", "direct")] NewDomainTrie) "notexample.com").
Proof.
  assert (Hp : forall d a, (d, a) ∈ [("+.Example.com", "direct")] -> "+" ∉ reverseDomain d).
  { intros d a [= -> ->]%list_elem_of_singleton. vm_compute. set_solver. }
  split.
  - apply (trie_suffix_match _ _ Hp). exists "+.Example.com", "direct".
    split; [set_solver|]. right. vm_compute. reflexivity.
  - intros H. apply (trie_suffix_match _ _ Hp) in H as (d & a & Hin & Hu).
    apply list_elem_of_singleton in Hin as [= -> ->]. destruct Hu as [Hu|Hu]; vm_compute in Hu; discriminate.
Defined.

End Trie.
