(* ===== verification/GeoIP.v ===== *)
(** * GeoIP and GeoSite databases (src/router/geoip.go)

    A snapshot holds the IPv4 CIDRs sorted by start address and the IPv6 CIDRs
    per country.  [atomic.Pointer] updates are atomic, so an operation is a
    function of the snapshot it reads.  [sort.Slice] (not stable) and Go's map
    iteration order are arguments with their documented behaviour as
    hypotheses. *)

From Stdlib Require Import Strings.Byte Sorting.Sorted.
From S2P Require Import Prelude GoBytes GoStrings GoNet.

Local Open Scope Z_scope.

Module GeoIP.

(** ** Data *)

Record geoEntry := { start : Z; mask : Z; country : string }.

Record geoIPSnapshot := {
  ipv4Entries : list geoEntry;
  ipv4Sorted : bool;
  ipv6Entries : gmap string (list IPNet);
}.

(** [GeoIPEntry], the input of [Reload] *)
Record GeoIPEntry := { CountryCode : string; CIDRs : list string }.

(** [NewGeoIPDB] *)
Definition NewGeoIPDB : geoIPSnapshot :=
  {| ipv4Entries := []; ipv4Sorted := false; ipv6Entries := ∅ |}.

(** ** Loading *)

(** [mask := uint32(0); if ones > 0 { mask = ^uint32(0) << (32 - ones) }]: a
    negative shift count panics. *)
Definition v4_mask (ones : Z) : res unit Z :=
  if 0 <? ones then
    if 32 - ones <? 0 then Panic else Ok (u32 (Z.shiftl (2 ^ 32 - 1) (32 - ones)))
  else Ok 0.

(** One CIDR of [LoadFromCIDRs] / [Reload]: appended to the IPv4 entries or to
    the country's IPv6 list; a CIDR that does not parse is skipped. *)
Definition load_cidr (country : string)
    (acc : list geoEntry * gmap string (list IPNet)) (cidr : string)
    : res unit (list geoEntry * gmap string (list IPNet)) :=
  let '(v4, v6) := acc in
  match ParseCIDR cidr with
  | None => Ok (v4, v6)
  | Some ipnet =>
      match To4 (net_ip ipnet) with
      | Some ip4 =>
          m ← v4_mask (mask_size (net_mask ipnet));
          Ok (v4 ++ [{| start := Z.land (be_value 0 ip4) m; mask := m; country := country |}], v6)
      | None =>
          Ok (v4, <[country := default [] (v6 !! country) ++ [ipnet]]> v6)
      end
  end.

Fixpoint load_cidrs (country : string) (cidrs : list string)
    (acc : list geoEntry * gmap string (list IPNet))
    : res unit (list geoEntry * gmap string (list IPNet)) :=
  match cidrs with
  | [] => Ok acc
  | cidr :: cidrs => acc' ← load_cidr country acc cidr; load_cidrs country cidrs acc'
  end.

Fixpoint load_entries (entries : list GeoIPEntry)
    (acc : list geoEntry * gmap string (list IPNet))
    : res unit (list geoEntry * gmap string (list IPNet)) :=
  match entries with
  | [] => Ok acc
  | e :: entries =>
      acc' ← load_cidrs (CountryCode e) (CIDRs e) acc; load_entries entries acc'
  end.

(** ** Lookup *)

(** The backward loop of [lookupIPv4] from index [i - 1]. *)
Fixpoint scan_back (entries : list geoEntry) (addr : Z) (i : nat) : string :=
  match i with
  | O => ""
  | S i =>
      match entries !! i with
      | None => ""
      | Some e =>
          if Z.land addr (mask e) =? start e then country e
          else if start e <? Z.land addr (mask e) then ""
          else scan_back entries addr i
      end
  end.

Definition starts_after (entries : list geoEntry) (addr : Z) (i : nat) : bool :=
  match entries !! i with
  | Some e => addr <? start e
  | None => true
  end.

Definition lookupIPv4 (snap : geoIPSnapshot) (addr : Z) : string :=
  let entries := ipv4Entries snap in
  if decide (length entries = 0%nat) then ""
  else scan_back entries addr (Search (length entries) (starts_after entries addr)).

Section operations.

(** [sort.Slice] by start address, and the order in which a map is ranged over. *)
Context (sortSlice : list geoEntry -> list geoEntry)
        (rangeMap : gmap string (list IPNet) -> list (string * list IPNet)).

Definition LoadFromCIDRs (old : geoIPSnapshot) (country : string) (cidrs : list string)
    : res unit geoIPSnapshot :=
  '(v4, v6) ← load_cidrs country cidrs (ipv4Entries old, ipv6Entries old);
  Ok {| ipv4Entries := sortSlice v4; ipv4Sorted := true; ipv6Entries := v6 |}.

Definition Reload (entries : list GeoIPEntry) : res unit geoIPSnapshot :=
  '(v4, v6) ← load_entries entries ([], ∅);
  Ok {| ipv4Entries := sortSlice v4; ipv4Sorted := true; ipv6Entries := v6 |}.

Fixpoint scan_v6 (l : list (string * list IPNet)) (ip : bytes) : string :=
  match l with
  | [] => ""
  | (country, cidrs) :: l =>
      if existsb (fun n => IPNet_Contains n ip) cidrs then country else scan_v6 l ip
  end.

Definition lookupIPv6 (snap : geoIPSnapshot) (ip : bytes) : string :=
  scan_v6 (rangeMap (ipv6Entries snap)) ip.

Definition LookupCountry (snap : geoIPSnapshot) (ip : bytes) : string :=
  match To4 ip with
  | Some ip4 => lookupIPv4 snap (be_value 0 ip4)
  | None => lookupIPv6 snap ip
  end.

End operations.

(** ** GeoSite *)

Record geoSiteSnapshot := { categories : gmap string (list string) }.
Record GeoSiteEntry := { Category : string; Domains : list string }.

Definition NewGeoSiteDB : geoSiteSnapshot := {| categories := ∅ |}.

Definition LoadCategory (old : geoSiteSnapshot) (category : string) (domains : list string)
    : geoSiteSnapshot :=
  {| categories := <[category := domains]> (categories old) |}.

Definition ReloadSites (entries : list GeoSiteEntry) : geoSiteSnapshot :=
  {| categories := fold_left (fun m e => <[Category e := Domains e]> m) entries ∅ |}.

Definition SiteLookup (snap : geoSiteSnapshot) (category : string) : list string :=
  default [] (categories snap !! category).

(** ** Prefix masks *)

Definition prefix_mask (k : Z) : Z := Z.shiftl (Z.ones (32 - k)) k.

(** An entry as the loaders build it: a prefix mask of [32 - k] bits and an
    aligned start. *)
Definition wf_entry (e : geoEntry) : Prop :=
  exists k, 0 <= k <= 32 /\ mask e = prefix_mask k /\
    0 <= start e < 2 ^ 32 /\ (2 ^ k | start e).

Definition contains (e : geoEntry) (addr : Z) : Prop := Z.land addr (mask e) = start e.

Lemma land_prefix_mask a k :
  0 <= a < 2 ^ 32 -> 0 <= k <= 32 -> Z.land a (prefix_mask k) = a / 2 ^ k * 2 ^ k.
Proof.
  intros Ha Hk. unfold prefix_mask. rewrite <- Z.shiftr_div_pow2, <- Z.shiftl_mul_pow2 by lia.
  apply Z.bits_inj'. intros i Hi. rewrite Z.land_spec.
  destruct (Z.lt_ge_cases i k).
  - rewrite !Z.shiftl_spec_low by lia. apply andb_false_r.
  - rewrite !Z.shiftl_spec, Z.shiftr_spec by lia.
    replace (i - k + k) with i by lia.
    destruct (Z.lt_ge_cases i 32).
    + rewrite Z.ones_spec_low by lia. apply andb_true_r.
    + rewrite Z.ones_spec_high by lia. rewrite andb_false_r. symmetry.
      destruct (Z.eq_dec a 0) as [->|]; [apply Z.bits_0|].
      apply Z.bits_above_log2; [lia|].
      assert (Z.log2 a < 32); [|lia]. apply Z.log2_lt_pow2; lia.
Qed.

Lemma v4_mask_prefix ones m :
  0 <= ones -> v4_mask ones = Ok m -> exists k, 0 <= k <= 32 /\ m = prefix_mask k.
Proof.
  intros Ho. unfold v4_mask. case_match eqn:H1; zb.
  - case_match eqn:H2; [done|]. intros [= <-]. zb. exists (32 - ones). split; [lia|].
    unfold prefix_mask, u32. rewrite <- Z.land_ones by lia.
    apply Z.bits_inj'. intros i Hi. rewrite Z.land_spec.
    change (2 ^ 32 - 1) with (Z.ones 32).
    destruct (Z.lt_ge_cases i (32 - ones)).
    + by rewrite !Z.shiftl_spec_low by lia.
    + rewrite !Z.shiftl_spec by lia. destruct (Z.lt_ge_cases i 32).
      * rewrite !Z.ones_spec_low by lia. done.
      * rewrite (Z.ones_spec_high 32 i) by lia. rewrite andb_false_r.
        symmetry. apply Z.ones_spec_high. lia.
  - intros [= <-]. exists 32. split; [lia|]. done.
Qed.

Section wf_entry.

Context (e : geoEntry) (Hwf : wf_entry e).

Lemma contains_interval :
  exists k, 0 <= k <= 32 /\
    forall addr, 0 <= addr < 2 ^ 32 -> contains e addr <-> start e <= addr < start e + 2 ^ k.
Proof.
  destruct Hwf as (k & Hk & Hm & Hs & [q Hq]). exists k. split; [done|]. intros addr Ha.
  unfold contains. rewrite Hm, land_prefix_mask by lia.
  assert (0 < 2 ^ k) by (apply Z.pow_pos_nonneg; lia).
  pose proof (Z.div_mod addr (2 ^ k)). pose proof (Z.mod_pos_bound addr (2 ^ k)).
  rewrite Hq. split; [intros; nia|]. intros. assert (addr / 2 ^ k = q); [|nia].
  symmetry. apply (Z.div_unique _ _ _ (addr - q * 2 ^ k)); [left; nia|nia].
Qed.

(** An entry that starts at or below an address it does not contain ends below
    it. *)
Lemma not_contains_lt addr :
  0 <= addr < 2 ^ 32 -> start e <= addr -> ~ contains e addr ->
  start e < Z.land addr (mask e).
Proof.
  destruct Hwf as (k & Hk & Hm & Hs & [q Hq]). intros Ha Hle Hnc.
  unfold contains in Hnc. rewrite Hm, land_prefix_mask in * by lia.
  assert (0 < 2 ^ k) by (apply Z.pow_pos_nonneg; lia).
  assert (q <= addr / 2 ^ k); [|nia]. apply Z.div_le_lower_bound; nia.
Qed.

End wf_entry.

(** ** Sorted snapshots *)

Definition le_start (a b : geoEntry) : Prop := start a <= start b.

Definition wf_snapshot (snap : geoIPSnapshot) : Prop :=
  StronglySorted le_start (ipv4Entries snap) /\ Forall wf_entry (ipv4Entries snap).

(** The rightmost entry that starts at or below the address. *)
Definition candidate (snap : geoIPSnapshot) (addr : Z) : option geoEntry :=
  list.last (filter (fun e => start e <= addr) (ipv4Entries snap)).

Lemma StronglySorted_lookup_le {A} (R : A -> A -> Prop) (l : list A) i j x y :
  StronglySorted R l -> (i < j)%nat -> l !! i = Some x -> l !! j = Some y -> R x y.
Proof.
  intros Hs. revert i j; induction Hs as [|z l Hs IH Hf]; intros i j Hij; [done|].
  destruct j as [|j]; [lia|]. destruct i as [|i]; simpl.
  - intros [= ->] Hy. rewrite Forall_lookup in Hf. by eapply Hf.
  - apply IH. lia.
Qed.

(** In a sorted list the entries that start at or below [addr] are a prefix. *)
Lemma filter_sorted_take entries addr r :
  StronglySorted le_start entries ->
  (r <= length entries)%nat ->
  (forall a, (a < r)%nat -> starts_after entries addr a = false) ->
  (forall a, (r <= a < length entries)%nat -> starts_after entries addr a = true) ->
  filter (fun e => start e <= addr) entries = take r entries.
Proof.
  intros Hs. revert r; induction Hs as [|e entries Hs IH Hf]; intros r Hr Hlo Hhi; [by destruct r|].
  rewrite filter_cons. destruct r as [|r].
  - assert (Hall : Forall (fun e => ~ start e <= addr) (e :: entries)).
    { apply Forall_lookup. intros i x Hx. pose proof (lookup_lt_Some _ _ _ Hx).
      specialize (Hhi i). unfold starts_after in Hhi. rewrite Hx in Hhi.
      specialize (Hhi ltac:(lia)). zb. lia. }
    apply Forall_cons in Hall as [He Hall]. rewrite decide_False by done. simpl.
    by apply filter_none.
  - specialize (Hlo 0%nat) as H0. unfold starts_after in H0. simpl in H0.
    specialize (H0 ltac:(lia)). zb. rewrite decide_True by lia. simpl. f_equal.
    apply IH; [simpl in *; lia|..].
    + intros a Ha. apply (Hlo (S a)). lia.
    + intros a Ha. apply (Hhi (S a)). simpl. lia.
Qed.

Lemma Search_candidate snap addr :
  wf_snapshot snap ->
  let r := Search (length (ipv4Entries snap)) (starts_after (ipv4Entries snap) addr) in
  (r <= length (ipv4Entries snap))%nat /\
  filter (fun e => start e <= addr) (ipv4Entries snap) = take r (ipv4Entries snap).
Proof.
  intros [Hs _]. set (es := ipv4Entries snap) in *.
  destruct (Search_spec (length es) (starts_after es addr)) as (Hr & Hlo & Hhi).
  - intros a b Hab. unfold starts_after.
    destruct (es !! a) as [ea|] eqn:Ha; [|apply lookup_ge_None in Ha; lia].
    destruct (es !! b) as [eb|] eqn:Hb; [|done]. intros ?. zb. apply Z.ltb_lt.
    destruct (decide (a = b)) as [->|]; [by simplify_eq|].
    assert (le_start ea eb) by (eapply (StronglySorted_lookup_le _ _ a b); eauto; lia).
    unfold le_start in *. lia.
  - split; [lia|]. apply filter_sorted_take; [done|lia|..]; intros a Ha; [apply Hlo|apply Hhi]; lia.
Qed.

Lemma last_take {A} (l : list A) r : (r < length l)%nat -> list.last (take (S r) l) = l !! r.
Proof.
  intros Hr. rewrite last_lookup, length_take, Nat.min_l by lia. simpl.
  apply lookup_take_lt. lia.
Qed.

Lemma lookupIPv4_candidate snap addr :
  wf_snapshot snap -> 0 <= addr < 2 ^ 32 ->
  lookupIPv4 snap addr =
  match candidate snap addr with
  | Some e => if Z.land addr (mask e) =? start e then country e else ""
  | None => ""
  end.
Proof.
  intros Hwf Ha. destruct (Search_candidate snap addr Hwf) as [Hr Hf].
  destruct Hwf as [_ Hwf]. unfold lookupIPv4, candidate. rewrite Hf.
  case_decide as Hlen; [by destruct (ipv4Entries snap); [rewrite take_nil|]|].
  set (r := Search _ _) in *. destruct r as [|r]; [done|]. cbn [scan_back].
  rewrite last_take by lia.
  destruct (ipv4Entries snap !! r) as [e|] eqn:He; [|done].
  destruct (Z.land addr (mask e) =? start e) eqn:Hc; [done|]. zb.
  assert (start e <= addr).
  { assert (e ∈ filter (fun e => start e <= addr) (ipv4Entries snap)) as Hin.
    { rewrite Hf. apply list_elem_of_lookup. exists r. rewrite lookup_take_lt by lia. done. }
    by apply list_elem_of_filter in Hin as [? _]. }
  rewrite Forall_lookup in Hwf.
  rewrite (proj2 (Z.ltb_lt _ _)); [done|].
  apply not_contains_lt; [by eapply Hwf|done..].
Qed.

(** ** What the loaders build *)

Lemma be_value_4 bs : length bs = 4%nat -> 0 <= be_value 0 bs < 2 ^ 32.
Proof.
  intros H. pose proof (be_value_range 0 bs). rewrite H in *.
  change (Z.of_nat 4) with 4 in *. change (256 ^ 4) with (2 ^ 32) in *. lia.
Qed.

Lemma byte_ones_nonneg fuel b z : byte_ones fuel b = Some z -> 0 <= z.
Proof.
  revert b z; induction fuel as [|fuel IH]; intros b z; simpl; [case_match; naive_solver|].
  case_match; [|case_match; naive_solver].
  destruct (byte_ones fuel (u8 (b * 2))) eqn:E; [|done]. intros [= <-]. apply IH in E. lia.
Qed.

Lemma mask_size_nonneg m : 0 <= mask_size m.
Proof.
  unfold mask_size. destruct (mask_ones m) as [z|] eqn:E; [simpl|done].
  revert z E; induction m as [|b m IH]; intros z; cbn [mask_ones]; [by intros [= <-]|].
  case_decide; [|case_match; [apply byte_ones_nonneg|done]].
  destruct (mask_ones m) eqn:Em; [|done]. intros [= <-]. specialize (IH _ eq_refl). lia.
Qed.

Lemma load_cidr_wf country v4 v6 cidr v4' v6' :
  Forall wf_entry v4 -> load_cidr country (v4, v6) cidr = Ok (v4', v6') -> Forall wf_entry v4'.
Proof.
  intros Hwf. unfold load_cidr. destruct (ParseCIDR cidr) as [n|]; [|by intros [= <- <-]].
  destruct (To4 (net_ip n)) as [ip4|] eqn:H4; [|by intros [= <- <-]].
  destruct (v4_mask _) as [m| |] eqn:Hm; [|done..]. intros [= <- <-].
  apply Forall_app. split; [done|]. apply Forall_singleton.
  apply v4_mask_prefix in Hm as (k & Hk & ->); [|apply mask_size_nonneg].
  exists k. split; [done|]. simpl. split; [done|].
  pose proof (be_value_4 _ (To4_length _ _ H4)).
  rewrite land_prefix_mask by lia. assert (0 < 2 ^ k) by (apply Z.pow_pos_nonneg; lia).
  pose proof (Z.div_mod (be_value 0 ip4) (2 ^ k)). pose proof (Z.mod_pos_bound (be_value 0 ip4) (2 ^ k)).
  pose proof (Z.div_pos (be_value 0 ip4) (2 ^ k)).
  split; [nia|]. by exists (be_value 0 ip4 / 2 ^ k).
Qed.

Lemma load_cidrs_wf country cidrs v4 v6 v4' v6' :
  Forall wf_entry v4 -> load_cidrs country cidrs (v4, v6) = Ok (v4', v6') -> Forall wf_entry v4'.
Proof.
  revert v4 v6; induction cidrs as [|c cidrs IH]; intros v4 v6 Hwf; cbn [load_cidrs];
    [by intros [= <- <-]|].
  destruct (load_cidr _ _ _) as [[v41 v61]| |] eqn:E; [|done..]. cbn.
  apply IH. by eapply load_cidr_wf.
Qed.

Lemma load_entries_wf es v4 v6 v4' v6' :
  Forall wf_entry v4 -> load_entries es (v4, v6) = Ok (v4', v6') -> Forall wf_entry v4'.
Proof.
  revert v4 v6; induction es as [|e es IH]; intros v4 v6 Hwf; cbn [load_entries];
    [by intros [= <- <-]|].
  destruct (load_cidrs _ _ _) as [[v41 v61]| |] eqn:E; [|done..]. cbn.
  apply IH. by eapply load_cidrs_wf.
Qed.

Section sort.

Context (sortSlice : list geoEntry -> list geoEntry).
Context (sort_perm : forall l, sortSlice l ≡ₚ l).
Context (sort_sorted : forall l, StronglySorted le_start (sortSlice l)).

Lemma sorted_wf v4 v6 :
  Forall wf_entry v4 ->
  wf_snapshot {| ipv4Entries := sortSlice v4; ipv4Sorted := true; ipv6Entries := v6 |}.
Proof. intros H. split; simpl; [apply sort_sorted|]. by rewrite sort_perm. Qed.

Lemma LoadFromCIDRs_wf old country cidrs snap :
  wf_snapshot old -> LoadFromCIDRs sortSlice old country cidrs = Ok snap -> wf_snapshot snap.
Proof.
  intros [_ Hold]. unfold LoadFromCIDRs.
  destruct (load_cidrs _ _ _) as [[v4 v6]| |] eqn:E; [|done..]. intros [= <-].
  apply sorted_wf. by eapply load_cidrs_wf.
Qed.

Lemma Reload_wf es snap : Reload sortSlice es = Ok snap -> wf_snapshot snap.
Proof.
  unfold Reload. destruct (load_entries _ _) as [[v4 v6]| |] eqn:E; [|done..]. intros [= <-].
  apply sorted_wf. eapply load_entries_wf; [|done]. constructor.
Qed.

(** C8: for CIDRs that do not overlap, the binary search finds the country of the
    one that contains the address, and the empty string when there is none:
    whatever the order in which [sort.Slice] leaves equal keys, and for every
    data set [Reload] accepts. *)
Theorem geoip_lookup_complete (es : list GeoIPEntry) (snap : geoIPSnapshot) (addr : Z) :
  Reload sortSlice es = Ok snap ->
  0 <= addr < 2 ^ 32 ->
  (forall i j e e' a, ipv4Entries snap !! i = Some e -> ipv4Entries snap !! j = Some e' ->
     0 <= a < 2 ^ 32 -> contains e a -> contains e' a -> i = j) ->
  (forall e, e ∈ ipv4Entries snap -> contains e addr -> lookupIPv4 snap addr = country e) /\
  ((forall e, e ∈ ipv4Entries snap -> ~ contains e addr) -> lookupIPv4 snap addr = "").
Proof.
  intros Hr Ha Hdisj. apply Reload_wf in Hr as Hwf.
  rewrite lookupIPv4_candidate by done. destruct Hwf as [Hs Hw]. split.
  - intros e He Hc. destruct (candidate snap addr) as [e'|] eqn:Hcand.
    + apply last_filter_Some in Hcand as He'. destruct He' as (l1 & l2 & Hl & Hl2).
      assert (start e' <= addr /\ e' ∈ ipv4Entries snap) as [Hle' Hin'].
      { apply last_Some_elem_of in Hcand. by apply list_elem_of_filter in Hcand. }
      assert (e = e') as ->; [|by apply Z.eqb_eq in Hc as ->].
      destruct (proj1 (list_elem_of_lookup _ _) He) as [i Hi].
      assert (ipv4Entries snap !! length l1 = Some e') as Hj by (rewrite Hl; by apply list_lookup_middle).
      rewrite Forall_forall in Hw.
      destruct (contains_interval e (Hw _ He)) as (k & Hk & Hiv).
      destruct (contains_interval e' (Hw _ Hin')) as (k' & Hk' & Hiv').
      pose proof (proj1 (Hiv addr Ha) Hc).
      destruct (Hw _ Hin') as (_ & _ & _ & Hst & _).
      assert (0 < 2 ^ k') by (apply Z.pow_pos_nonneg; lia).
      destruct (Nat.lt_trichotomy i (length l1)) as [Hlt|[->|Hgt]]; [|by simplify_eq|].
      * pose proof (StronglySorted_lookup_le _ _ _ _ _ _ Hs Hlt Hi Hj) as Hle. unfold le_start in Hle.
        assert (i = length l1) as ->; [|lia].
        apply (Hdisj i (length l1) e e' (start e')); [done..|apply Hiv; lia|apply Hiv'; lia].
      * exfalso. rewrite Hl in Hi. rewrite lookup_app_r in Hi by lia.
        destruct (i - length l1)%nat as [|d] eqn:Hd; [lia|]. simpl in Hi.
        rewrite Forall_lookup in Hl2. apply (Hl2 d e Hi). lia.
    + unfold candidate in Hcand. apply last_None in Hcand.
      rewrite Forall_forall in Hw.
      destruct (contains_interval e (Hw _ He)) as (k & Hk & Hiv).
      apply Hiv in Hc; [|done]. exfalso.
      eapply (filter_nil_not_elem_of (fun e => start e <= addr)); [exact Hcand| |exact He]. simpl; lia.
  - intros Hno. destruct (candidate snap addr) as [e'|] eqn:Hcand; [|done].
    apply last_Some_elem_of, list_elem_of_filter in Hcand as [_ Hin].
    specialize (Hno _ Hin). unfold contains in Hno.
    destruct (Z.eqb_spec (Z.land addr (mask e')) (start e')); [done|done].
Qed.

(** Of nested CIDRs only the innermost start is tried. With 1.0.0.0/8 (US)
    and 1.2.0.0/16 (AU) loaded, an address of the /8 above the /16 is reported
    as unknown although the /8 entry contains it. *)
Theorem geoip_nested_missed (snap : geoIPSnapshot) :
  Reload sortSlice [ {| CountryCode := "US"; CIDRs := ["1.0.0.0/8"] |};
                     {| CountryCode := "AU"; CIDRs := ["1.2.0.0/16"] |} ] = Ok snap ->
  exists addr e, e ∈ ipv4Entries snap /\ contains e addr /\ country e = "US" /\
    lookupIPv4 snap addr = "".
Proof.
  intros Hr. pose proof (Reload_wf _ _ Hr) as Hwf.
  set (e1 := {| start := 16777216; mask := prefix_mask 24; country := "US" |}).
  set (e2 := {| start := 16908288; mask := prefix_mask 16; country := "AU" |}).
  assert (ipv4Entries snap ≡ₚ [e1; e2]) as Hp.
  { unfold Reload in Hr. vm_compute (load_entries _ _) in Hr. cbn in Hr. injection Hr as <-.
    simpl. apply sort_perm. }
  assert (ipv4Entries snap = [e1; e2]) as Hes.
  { symmetry in Hp. apply Permutation_length_2_inv in Hp as [->|Hp]; [done|]. destruct Hwf as [Hs _].
    rewrite Hp in Hs. inversion Hs as [|? ? ? Hf]; subst.
    inversion Hf as [|? ? Hle]; subst. by unfold le_start in Hle. }
  exists (16777216 + 196608 + 1), e1. rewrite Hes. split_and!; [set_solver|done|done|].
  unfold lookupIPv4. rewrite Hes. vm_compute. reflexivity.
Qed.

End sort.

(** A sort with the contract of [sort.Slice], for concrete runs. *)
Definition insert_by_start (e : geoEntry) : list geoEntry -> list geoEntry :=
  fix ins l :=
    match l with
    | [] => [e]
    | x :: l' => if start e <=? start x then e :: l else x :: ins l'
    end.
Definition insertion_sort (l : list geoEntry) : list geoEntry := foldr insert_by_start [] l.

Lemma insert_by_start_perm e l : insert_by_start e l ≡ₚ e :: l.
Proof.
  induction l as [|x l IH]; simpl; [done|]. case_match; [done|]. rewrite IH. apply Permutation_swap.
Qed.
Lemma insertion_sort_perm l : insertion_sort l ≡ₚ l.
Proof. induction l as [|x l IH]; simpl; [done|]. by rewrite insert_by_start_perm, IH. Qed.
Lemma insert_by_start_sorted e l :
  StronglySorted le_start l -> StronglySorted le_start (insert_by_start e l).
Proof.
  induction 1 as [|x l Hs IH Hf]; simpl; [by repeat constructor|].
  unfold le_start in *. case_match eqn:Hc; zb.
  - constructor; [by constructor|]. constructor; [done|]. eapply Forall_impl; [exact Hf|]. simpl; lia.
  - constructor; [done|]. rewrite insert_by_start_perm. constructor; [lia|done].
Qed.
Lemma insertion_sort_sorted l : StronglySorted le_start (insertion_sort l).
Proof. induction l; simpl; [constructor|]. by apply insert_by_start_sorted. Qed.

Definition demo_data : list GeoIPEntry :=
  [ {| CountryCode := "US"; CIDRs := ["1.0.0.0/24"] |};
    {| CountryCode := "CN"; CIDRs := ["1.0.1.0/24"; "not a cidr"] |} ].

Definition demo_snapshot : geoIPSnapshot :=
  match Reload insertion_sort demo_data with Ok s => s | _ => NewGeoIPDB end.

Lemma geoip_lookup_complete_witness : lookupIPv4 demo_snapshot 16777483 = "CN".
Proof.
  destruct (geoip_lookup_complete insertion_sort insertion_sort_perm insertion_sort_sorted
              demo_data demo_snapshot 16777483) as [H _].
  - reflexivity.
  - lia.
  - intros i j e e' a Hi Hj Ha He He'. unfold contains in *.
    destruct i as [|[|i]], j as [|[|j]]; try done; vm_compute in Hi, Hj; simplify_eq;
      exfalso; simpl in He, He'; congruence.
  - apply (H {| start := 16777472; mask := 4294967040; country := "CN" |}); [|reflexivity].
    apply list_elem_of_lookup. exists 1%nat. reflexivity.
Defined.

Lemma geoip_nested_missed_witness :
  exists snap addr e, e ∈ ipv4Entries snap /\ contains e addr /\ country e = "US" /\
    lookupIPv4 snap addr = "".
Proof.
  eexists. eapply (geoip_nested_missed insertion_sort insertion_sort_perm insertion_sort_sorted);
    reflexivity.
Defined.

(** An IPv4-mapped IPv6 CIDR makes the loaders panic: its address converts to
    4 bytes while its mask counts 128 bits, so the shift count is negative.
    This is the case of every such CIDR that parses. *)
Theorem geoip_mapped_cidr_panics (sortSlice : list geoEntry -> list geoEntry)
    (old : geoIPSnapshot) (country cidr : string) (ipnet : IPNet) :
  ParseCIDR cidr = Some ipnet ->
  length (net_ip ipnet) = 16%nat -> is_Some (To4 (net_ip ipnet)) ->
  32 < mask_size (net_mask ipnet) ->
  LoadFromCIDRs sortSlice old country [cidr] = Panic /\
  Reload sortSlice [ {| CountryCode := country; CIDRs := [cidr] |} ] = Panic.
Proof.
  intros Hp Hlen [ip4 H4] Hones.
  assert (forall acc, load_cidr country acc cidr = Panic) as Hl.
  { intros [v4 v6]. unfold load_cidr. rewrite Hp, H4. unfold v4_mask.
    rewrite (proj2 (Z.ltb_lt 0 _)) by lia. by rewrite (proj2 (Z.ltb_lt (32 - _) 0)) by lia. }
  unfold LoadFromCIDRs, Reload. cbn [load_cidrs load_entries CountryCode CIDRs].
  by rewrite !Hl.
Qed.

Lemma geoip_mapped_cidr_panics_witness :
  LoadFromCIDRs insertion_sort NewGeoIPDB "XX" ["::ffff:1.2.3.0/120"] = Panic.
Proof.
  eapply (geoip_mapped_cidr_panics insertion_sort NewGeoIPDB "XX" "::ffff:1.2.3.0/120");
    [vm_compute; reflexivity|reflexivity|vm_compute; eauto|vm_compute; reflexivity].
Defined.

End GeoIP.
