(* ===== verification/RuleProvider.v ===== *)
(** * Rule providers (src/provider/rule_provider.go)

    The rule set a provider downloads: parsing of the three behaviours and the
    two match operations.  Fetching, caching and the refresh timer are network
    and file I/O; what they store is the result of [parseRuleSet]. *)

From Stdlib Require Import Ascii.
From S2P Require Import Prelude GoBytes GoStrings GoNet DomainTrie.

Local Open Scope Z_scope.

Module RuleProvider.

(** [ruleSet] *)
Record ruleSet := {
  domains : gset string;
  domainSuffixes : list string;
  domainKeywords : list string;
  cidrs : list IPNet;
}.

Definition empty_rules : ruleSet :=
  {| domains := ∅; domainSuffixes := []; domainKeywords := []; cidrs := [] |}.

Definition add_domain (d : string) (rs : ruleSet) : ruleSet :=
  {| domains := {[ d ]} ∪ domains rs; domainSuffixes := domainSuffixes rs;
     domainKeywords := domainKeywords rs; cidrs := cidrs rs |}.
Definition add_suffix (s : string) (rs : ruleSet) : ruleSet :=
  {| domains := domains rs; domainSuffixes := domainSuffixes rs ++ [s];
     domainKeywords := domainKeywords rs; cidrs := cidrs rs |}.
Definition add_keyword (k : string) (rs : ruleSet) : ruleSet :=
  {| domains := domains rs; domainSuffixes := domainSuffixes rs;
     domainKeywords := domainKeywords rs ++ [k]; cidrs := cidrs rs |}.
Definition add_cidr (n : IPNet) (rs : ruleSet) : ruleSet :=
  {| domains := domains rs; domainSuffixes := domainSuffixes rs;
     domainKeywords := domainKeywords rs; cidrs := cidrs rs ++ [n] |}.

(** [parseDomainLine] *)
Definition parseDomainLine (rs : ruleSet) (line : string) : ruleSet :=
  let domain := ToLower line in
  add_suffix (String "." domain) (add_domain domain rs).

(** [parseCIDRLine]; a line that does not parse is skipped by the caller. *)
Definition parseCIDRLine (rs : ruleSet) (line : string) : ruleSet :=
  match ParseCIDR line with
  | Some n => add_cidr n rs
  | None => rs
  end.

(** [parseClassicalLine]: the first two of at most three comma-separated parts. *)
Definition parseClassicalLine (rs : ruleSet) (line : string) : ruleSet :=
  match Split line "," with
  | ruleType :: value :: _ =>
      let ruleType := ToUpper (TrimSpace ruleType) in
      let value := TrimSpace value in
      if String.eqb value "" then rs
      else if String.eqb ruleType "DOMAIN" then add_domain (ToLower value) rs
      else if String.eqb ruleType "DOMAIN-SUFFIX" then add_suffix (String "." (ToLower value)) rs
      else if String.eqb ruleType "DOMAIN-KEYWORD" then add_keyword (ToLower value) rs
      else if String.eqb ruleType "IP-CIDR" || String.eqb ruleType "IP-CIDR6" then
        match ParseCIDR value with
        | Some n => add_cidr n rs
        | None => rs
        end
      else rs
  | _ => rs
  end.

Definition newline : ascii := chr 10.

(** The lines the parser acts on. *)
Definition rule_lines (data : string) : list string :=
  filter (fun line => line <> "" /\ HasPrefix line "#" = false)
    (map TrimSpace (Split data newline)).

(** [parseRuleSet] *)
Definition parseRuleSet (behavior data : string) : ruleSet :=
  fold_left (fun rs line =>
      if String.eqb behavior "domain" then parseDomainLine rs line
      else if String.eqb behavior "ipcidr" then parseCIDRLine rs line
      else if String.eqb behavior "classical" then parseClassicalLine rs line
      else rs)
    (rule_lines data) empty_rules.

(** [MatchDomain] on the stored rule set, [None] before the first load. *)
Definition MatchDomain (rules : option ruleSet) (domain : string) : bool :=
  match rules with
  | None => false
  | Some rs =>
      let lower := ToLower domain in
      bool_decide (lower ∈ domains rs)
      || existsb (fun suffix => HasSuffix lower suffix || String.eqb lower (sdrop 1 suffix))
           (domainSuffixes rs)
      || existsb (fun kw => Contains lower kw) (domainKeywords rs)
  end.

(** [MatchIP] *)
Definition MatchIP (rules : option ruleSet) (ipStr : string) : bool :=
  match rules with
  | None => false
  | Some rs =>
      match ParseIP ipStr with
      | None => false
      | Some ip => existsb (fun n => IPNet_Contains n ip) (cidrs rs)
      end
  end.

(** ** Properties *)

Lemma fold_parseDomainLine lines rs d :
  let rs' := fold_left parseDomainLine lines rs in
  domainKeywords rs' = domainKeywords rs /\
  (d ∈ domains rs' <-> d ∈ domains rs \/ exists l, l ∈ lines /\ d = ToLower l) /\
  domainSuffixes rs' = domainSuffixes rs ++ map (fun l => String "." (ToLower l)) lines.
Proof.
  revert rs; induction lines as [|l lines IH]; intros rs; simpl.
  - rewrite app_nil_r. set_solver.
  - destruct (IH (parseDomainLine rs l)) as (Hk & Hd & Hs). split_and!.
    + by rewrite Hk.
    + rewrite Hd. simpl. set_solver.
    + rewrite Hs. simpl. by rewrite <- app_assoc.
Qed.

(** A "domain" rule list matches exactly its entries and their subdomains,
    without regard to case: comments and blank lines do not count, and a match
    always falls on a label boundary. *)
Theorem domain_list_match (data domain : string) :
  MatchDomain (Some (parseRuleSet "domain" data)) domain = true <->
  exists line, line ∈ rule_lines data /\ Trie.under (ToLower domain) (ToLower line).
Proof.
  unfold MatchDomain, parseRuleSet. cbn [String.eqb Ascii.eqb Bool.eqb].
  destruct (fold_parseDomainLine (rule_lines data) empty_rules (ToLower domain)) as (Hk & Hd & Hs).
  cbn zeta. change (fold_left (fun rs line => parseDomainLine rs line)) with (fold_left parseDomainLine).
  rewrite Hk, Hs. rewrite !orb_true_iff, bool_decide_eq_true, Hd, !existsb_exists.
  simpl. setoid_rewrite orb_true_iff. setoid_rewrite in_map_iff. setoid_rewrite <- list_elem_of_In.
  setoid_rewrite String.eqb_eq. unfold Trie.under. split.
  - intros [[[H|(l & Hl & He)]|(suf & (l & <- & Hl) & He)]|(kw & [] & _)]; [set_solver|eauto|].
    exists l. split; [done|]. simpl in He. naive_solver.
  - intros (l & Hl & [He|He]).
    + left. left. right. eauto.
    + left. right. exists (String "." (ToLower l)). eauto.
Qed.

End RuleProvider.
