(* ===== verification/RuleChain.v ===== *)
(** * The ordered rule chain (src/router/rule_chain.go, matcher_port.go,
    matcher_srcip.go)

    Matchers, the compiler from configuration entries to compiled rules, and the
    evaluation of a rule.  The databases and rule sets a matcher consults are
    read at match time (they are hot-reloaded), so they are an environment of
    the evaluation and not part of the compiled rule. *)

From Stdlib Require Import Ascii.
From S2P Require Import Prelude GoBytes GoStrings GoNet DomainTrie GeoIP RuleProvider.

Local Open Scope Z_scope.

Module RuleChain.

(** ** Data *)

(** [MatchContext]; a nil IP is [None]. *)
Record MatchContext := {
  Domain : string;
  CtxIP : option bytes;
  Port : Z;
  SrcIP : option bytes;
  Process : string;
  Protocol : string;
  NetworkType : string;
}.

(** What matchers read when they run: the GeoIP and GeoSite databases (nil as
    [None]), the order in which a Go map is ranged over, and the rule set each
    provider holds ([None] before it has loaded one). *)
Record env := {
  geoIP : option GeoIP.geoIPSnapshot;
  geoSite : option GeoIP.geoSiteSnapshot;
  rangeMap : gmap string (list IPNet) -> list (string * list IPNet);
  ruleSets : string -> option RuleProvider.ruleSet;
}.

Record portRange := { min : Z; max : Z }.

(** The implementations of the [Matcher] interface. *)
Inductive Matcher :=
| domainExactMatcher (domains : gset string)
| domainSuffixMatcher (trie : Trie.DomainTrie)
| domainKeywordMatcher (keywords : list string)
| geoSiteMatcher (categories : list string)
| ipCIDRMatcher (nets : list IPNet)
| geoIPMatcher (countries : gset string)
| portMatcher (ranges : list portRange)
| srcIPMatcher (nets : list IPNet)
| processMatcher (names : gset string)
| protocolMatcher (protocols : gset string)
| networkTypeMatcher (types : gset string)
| ruleProviderMatcher (providers : list string).

Inductive logicOp := logicAnd | logicOr.

(** [compiledRule]; the action is one of "proxy", "direct", "reject". *)
Record compiledRule := {
  matchers : list Matcher;
  logic : logicOp;
  negate : bool;
  action : string;
}.

(** [RuleMatch] and [RuleChainEntry] *)
Record RuleMatch := {
  m_Domain : list string;
  m_DomainSuffix : list string;
  m_DomainKeyword : list string;
  m_GeoSite : list string;
  m_IPCIDR : list string;
  m_GeoIP : list string;
  m_Port : list string;
  m_SrcIP : list string;
  m_Process : list string;
  m_Protocol : list string;
  m_NetworkType : list string;
  m_RuleProvider : list string;
}.

Record RuleChainEntry := {
  e_Match : RuleMatch;
  e_Logic : string;
  e_Negate : bool;
  e_Action : string;
}.

(** ** Constructors of matchers *)

Definition lower_set (l : list string) : gset string := list_to_set (map ToLower l).
Definition upper_set (l : list string) : gset string := list_to_set (map ToUpper l).

Definition newDomainExactMatcher (domains : list string) : Matcher :=
  domainExactMatcher (lower_set domains).

Definition newDomainSuffixMatcher (suffixes : list string) : Matcher :=
  domainSuffixMatcher
    (fold_left (fun trie s =>
        let lower := ToLower s in
        Trie.Insert (Trie.Insert trie (String.append "+." lower) "match") lower "match")
      suffixes Trie.NewDomainTrie).

Definition newDomainKeywordMatcher (keywords : list string) : Matcher :=
  domainKeywordMatcher (map ToLower keywords).

Definition newGeoSiteMatcher (categories : list string) : Matcher :=
  geoSiteMatcher (map ToLower categories).

Definition newGeoIPMatcher (countries : list string) : Matcher :=
  geoIPMatcher (upper_set countries).

Definition newProcessMatcher (names : list string) : Matcher := processMatcher (lower_set names).
Definition newProtocolMatcher (l : list string) : Matcher := protocolMatcher (lower_set l).
Definition newNetworkTypeMatcher (l : list string) : Matcher := networkTypeMatcher (lower_set l).

(** Errors of the compiler, one per return site. *)
Inductive chain_err :=
| InvalidLogic
| ActionRequired
| InvalidAction
| InvalidCIDR (c : string)
| InvalidPort (spec : string) (e : num_err)
| PortZero (spec : string)
| PortMinMax (spec : string)
| NoPorts
| InvalidSrcIP (spec : string)
| NoSrcIPs
| ProviderNotFound (name : string)
| NoCondition.

Fixpoint parse_nets (cidrs : list string) : res chain_err (list IPNet) :=
  match cidrs with
  | [] => Ok []
  | c :: cidrs =>
      match ParseCIDR c with
      | None => Err (InvalidCIDR c)
      | Some n => ns ← parse_nets cidrs; Ok (n :: ns)
      end
  end.

Definition newIPCIDRMatcher (cidrs : list string) : res chain_err Matcher :=
  ns ← parse_nets cidrs; Ok (ipCIDRMatcher ns).

(** [parsePort]; [spec] only appears in the error. *)
Definition parsePort (spec s : string) : res chain_err Z :=
  n ← wrap_err (InvalidPort spec) (ParseUint (TrimSpace s) 16);
  if n =? 0 then Err (PortZero spec) else Ok n.

Definition parse_range (spec : string) : res chain_err portRange :=
  match IndexByte spec "-" with
  | Some idx =>
      lo ← parsePort spec (stake idx spec);
      hi ← parsePort spec (sdrop (S idx) spec);
      if hi <? lo then Err (PortMinMax spec) else Ok {| min := lo; max := hi |}
  | None =>
      p ← parsePort spec spec;
      Ok {| min := p; max := p |}
  end.

Fixpoint parse_ranges (specs : list string) : res chain_err (list portRange) :=
  match specs with
  | [] => Ok []
  | spec :: specs =>
      let spec := TrimSpace spec in
      if String.eqb spec "" then parse_ranges specs
      else r ← parse_range spec; rs ← parse_ranges specs; Ok (r :: rs)
  end.

Definition newPortMatcher (specs : list string) : res chain_err Matcher :=
  rs ← parse_ranges specs;
  match rs with
  | [] => Err NoPorts
  | _ => Ok (portMatcher rs)
  end.

(** A CIDR, or a bare IP as a /32 or /128. *)
Definition parse_src (spec : string) : option IPNet :=
  match ParseCIDR spec with
  | Some n => Some n
  | None =>
      ip ← ParseIP spec;
      match To4 ip with
      | Some ip4 => Some {| net_ip := ip4; net_mask := CIDRMask 32 4 |}
      | None => Some {| net_ip := ip; net_mask := CIDRMask 128 16 |}
      end
  end.

Fixpoint parse_srcs (specs : list string) : res chain_err (list IPNet) :=
  match specs with
  | [] => Ok []
  | spec :: specs =>
      match parse_src spec with
      | None => Err (InvalidSrcIP spec)
      | Some n => ns ← parse_srcs specs; Ok (n :: ns)
      end
  end.

Definition newSrcIPMatcher (specs : list string) : res chain_err Matcher :=
  ns ← parse_srcs specs;
  match ns with
  | [] => Err NoSrcIPs
  | _ => Ok (srcIPMatcher ns)
  end.

(** ** Evaluation *)

Definition in_range (port : Z) (r : portRange) : bool := (min r <=? port) && (port <=? max r).

(** A GeoSite domain, with or without the "+." prefix, covers itself and its
    subdomains. *)
Definition site_covers (domain d : string) : bool :=
  let d := ToLower d in
  let base := if HasPrefix d "+." then sdrop 2 d else d in
  String.eqb domain base || HasSuffix domain (String "." base).

(** [Match] of each matcher *)
Definition matcher_Match (E : env) (m : Matcher) (ctx : MatchContext) : bool :=
  match m with
  | domainExactMatcher domains =>
      if String.eqb (Domain ctx) "" then false
      else bool_decide (ToLower (Domain ctx) ∈ domains)
  | domainSuffixMatcher trie =>
      if String.eqb (Domain ctx) "" then false
      else bool_decide (is_Some (Trie.Lookup trie (Domain ctx)))
  | domainKeywordMatcher keywords =>
      if String.eqb (Domain ctx) "" then false
      else existsb (fun k => Contains (ToLower (Domain ctx)) k) keywords
  | geoSiteMatcher categories =>
      match geoSite E with
      | None => false
      | Some db =>
          if String.eqb (Domain ctx) "" then false
          else existsb (fun cat => existsb (site_covers (ToLower (Domain ctx)))
                                     (GeoIP.SiteLookup db cat)) categories
      end
  | ipCIDRMatcher nets =>
      match CtxIP ctx with
      | None => false
      | Some ip => existsb (fun n => IPNet_Contains n ip) nets
      end
  | geoIPMatcher countries =>
      match CtxIP ctx, geoIP E with
      | Some ip, Some db =>
          bool_decide (ToUpper (GeoIP.LookupCountry (rangeMap E) db ip) ∈ countries)
      | _, _ => false
      end
  | portMatcher ranges =>
      if Port ctx =? 0 then false else existsb (in_range (Port ctx)) ranges
  | srcIPMatcher nets =>
      match SrcIP ctx with
      | None => false
      | Some ip => existsb (fun n => IPNet_Contains n ip) nets
      end
  | processMatcher names =>
      if String.eqb (Process ctx) "" then false
      else bool_decide (ToLower (Process ctx) ∈ names)
  | protocolMatcher protocols =>
      if String.eqb (Protocol ctx) "" then false
      else bool_decide (ToLower (Protocol ctx) ∈ protocols)
  | networkTypeMatcher types =>
      if String.eqb (NetworkType ctx) "" then false
      else bool_decide (ToLower (NetworkType ctx) ∈ types)
  | ruleProviderMatcher providers =>
      existsb (fun rp =>
          (negb (String.eqb (Domain ctx) "") && RuleProvider.MatchDomain (ruleSets E rp) (Domain ctx))
          || match CtxIP ctx with
             | None => false
             | Some ip => RuleProvider.MatchIP (ruleSets E rp) (IP_String ip)
             end)
        providers
  end.

(** [compiledRule.Match] *)
Definition rule_Match (E : env) (r : compiledRule) (ctx : MatchContext) : bool :=
  match matchers r with
  | [] => false
  | ms =>
      let result :=
        match logic r with
        | logicOr => existsb (fun m => matcher_Match E m ctx) ms
        | logicAnd => forallb (fun m => matcher_Match E m ctx) ms
        end in
      if negate r then negb result else result
  end.

(** ** The compiler *)

Definition parse_logic (s : string) : res chain_err logicOp :=
  let s := ToLower s in
  if String.eqb s "" || String.eqb s "and" then Ok logicAnd
  else if String.eqb s "or" then Ok logicOr
  else Err InvalidLogic.

Definition parse_action (s : string) : res chain_err string :=
  let a := ToLower s in
  if String.eqb a "" then Err ActionRequired
  else if String.eqb a "proxy" || String.eqb a "direct" || String.eqb a "reject" then Ok a
  else Err InvalidAction.

(** [if len(l) > 0 { matchers = append(matchers, mk(l)) }] *)
Definition when_some (l : list string) (mk : list string -> res chain_err Matcher)
    : res chain_err (list Matcher) :=
  match l with
  | [] => Ok []
  | _ => m ← mk l; Ok [m]
  end.

Fixpoint find_providers (known : gset string) (names : list string)
    : res chain_err (list string) :=
  match names with
  | [] => Ok []
  | name :: names =>
      if decide (name ∈ known) then
        rps ← find_providers known names; Ok (name :: rps)
      else Err (ProviderNotFound name)
  end.

Definition newRuleProviderMatcher (known : gset string) (names : list string)
    : res chain_err Matcher :=
  rps ← find_providers known names; Ok (ruleProviderMatcher rps).

(** The matchers of one entry, in the order the compiler appends them. *)
Definition compile_matchers (known : gset string) (m : RuleMatch) : res chain_err (list Matcher) :=
  m1 ← when_some (m_Domain m) (fun l => Ok (newDomainExactMatcher l));
  m2 ← when_some (m_DomainSuffix m) (fun l => Ok (newDomainSuffixMatcher l));
  m3 ← when_some (m_DomainKeyword m) (fun l => Ok (newDomainKeywordMatcher l));
  m4 ← when_some (m_GeoSite m) (fun l => Ok (newGeoSiteMatcher l));
  m5 ← when_some (m_IPCIDR m) newIPCIDRMatcher;
  m6 ← when_some (m_GeoIP m) (fun l => Ok (newGeoIPMatcher l));
  m7 ← when_some (m_Port m) newPortMatcher;
  m8 ← when_some (m_SrcIP m) newSrcIPMatcher;
  m9 ← when_some (m_Process m) (fun l => Ok (newProcessMatcher l));
  m10 ← when_some (m_Protocol m) (fun l => Ok (newProtocolMatcher l));
  m11 ← when_some (m_NetworkType m) (fun l => Ok (newNetworkTypeMatcher l));
  m12 ← when_some (m_RuleProvider m) (newRuleProviderMatcher known);
  Ok (m1 ++ m2 ++ m3 ++ m4 ++ m5 ++ m6 ++ m7 ++ m8 ++ m9 ++ m10 ++ m11 ++ m12).

Definition compile_entry (known : gset string) (entry : RuleChainEntry)
    : res chain_err compiledRule :=
  l ← parse_logic (e_Logic entry);
  a ← parse_action (e_Action entry);
  ms ← compile_matchers known (e_Match entry);
  match ms with
  | [] => Err NoCondition
  | _ => Ok {| matchers := ms; logic := l; negate := e_Negate entry; action := a |}
  end.

(** [CompileRuleChain] from index [i]: the error carries the entry's index. *)
Fixpoint compile_from (known : gset string) (i : nat) (entries : list RuleChainEntry)
    : res (nat * chain_err) (list compiledRule) :=
  match entries with
  | [] => Ok []
  | entry :: entries =>
      r ← wrap_err (pair i) (compile_entry known entry);
      rs ← compile_from known (S i) entries;
      Ok (r :: rs)
  end.

Definition CompileRuleChain (known : gset string) (entries : list RuleChainEntry)
    : res (nat * chain_err) (list compiledRule) := compile_from known 0 entries.

(** ** What a chain entry means *)

Section spec.

Context (E : env) (ctx : MatchContext).

Definition spec_domain (l : list string) : Prop :=
  Domain ctx <> "" /\ exists d, d ∈ l /\ ToLower d = ToLower (Domain ctx).
Definition spec_suffix (l : list string) : Prop :=
  Domain ctx <> "" /\
  exists s, s ∈ l /\ (Trie.covers (Domain ctx) (ToLower s) \/ Trie.covers (Domain ctx) (String.append "+." (ToLower s))).
Definition spec_keyword (l : list string) : Prop :=
  Domain ctx <> "" /\ exists k, k ∈ l /\ Contains (ToLower (Domain ctx)) (ToLower k) = true.
Definition spec_geosite (l : list string) : Prop :=
  Domain ctx <> "" /\ exists db, geoSite E = Some db /\
  exists cat d, cat ∈ l /\ d ∈ GeoIP.SiteLookup db (ToLower cat) /\
    Trie.under (ToLower (Domain ctx)) (TrimPrefix (ToLower d) "+.").
Definition spec_nets (ip : option bytes) (parse : string -> option IPNet) (l : list string) : Prop :=
  exists a c n, ip = Some a /\ c ∈ l /\ parse c = Some n /\ IPNet_Contains n a = true.
Definition spec_geoip (l : list string) : Prop :=
  exists a db c, CtxIP ctx = Some a /\ geoIP E = Some db /\ c ∈ l /\
    ToUpper c = ToUpper (GeoIP.LookupCountry (rangeMap E) db a).
Definition spec_port (l : list string) : Prop :=
  Port ctx <> 0 /\ exists spec r, spec ∈ l /\ TrimSpace spec <> "" /\
    parse_range (TrimSpace spec) = Ok r /\ min r <= Port ctx <= max r.
Definition spec_name (name : string) (l : list string) : Prop :=
  name <> "" /\ exists n, n ∈ l /\ ToLower n = ToLower name.
Definition spec_provider (l : list string) : Prop :=
  exists rp, rp ∈ l /\
    ((Domain ctx <> "" /\ RuleProvider.MatchDomain (ruleSets E rp) (Domain ctx) = true) \/
     (exists a, CtxIP ctx = Some a /\ RuleProvider.MatchIP (ruleSets E rp) (IP_String a) = true)).

Definition when_prop (l : list string) (P : list string -> Prop) : list Prop :=
  match l with [] => [] | _ => [P l] end.

(** The conditions an entry states: one per non-empty field. *)
Definition conditions (m : RuleMatch) : list Prop :=
  when_prop (m_Domain m) spec_domain ++
  when_prop (m_DomainSuffix m) spec_suffix ++
  when_prop (m_DomainKeyword m) spec_keyword ++
  when_prop (m_GeoSite m) spec_geosite ++
  when_prop (m_IPCIDR m) (spec_nets (CtxIP ctx) ParseCIDR) ++
  when_prop (m_GeoIP m) spec_geoip ++
  when_prop (m_Port m) spec_port ++
  when_prop (m_SrcIP m) (spec_nets (SrcIP ctx) parse_src) ++
  when_prop (m_Process m) (spec_name (Process ctx)) ++
  when_prop (m_Protocol m) (spec_name (Protocol ctx)) ++
  when_prop (m_NetworkType m) (spec_name (NetworkType ctx)) ++
  when_prop (m_RuleProvider m) spec_provider.

(** All of them ("and", the default) or one of them ("or"), possibly negated. *)
Definition entry_matches (e : RuleChainEntry) : Prop :=
  let base := if String.eqb (ToLower (e_Logic e)) "or"
              then exists P, P ∈ conditions (e_Match e) /\ P
              else forall P, P ∈ conditions (e_Match e) -> P in
  if e_Negate e then ~ base else base.

End spec.

(** ** Each matcher decides its condition *)

Definition decides (E : env) (ctx : MatchContext) (m : Matcher) (P : Prop) : Prop :=
  matcher_Match E m ctx = true <-> P.

Ltac reflect_bool :=
  repeat first
    [ rewrite bool_decide_eq_true | rewrite existsb_exists | rewrite andb_true_iff
    | rewrite orb_true_iff | rewrite String.eqb_eq | rewrite String.eqb_neq
    | rewrite negb_true_iff | setoid_rewrite <- list_elem_of_In ].

Section decides.

Context (E : env) (ctx : MatchContext).

Lemma if_empty_false (s : string) (b : bool) :
  (if String.eqb s "" then false else b) = true <-> s <> "" /\ b = true.
Proof. destruct (String.eqb_spec s ""); naive_solver. Qed.

Lemma elem_of_lower_set x l : x ∈ lower_set l <-> exists d, d ∈ l /\ ToLower d = x.
Proof. unfold lower_set. rewrite elem_of_list_to_set, list_elem_of_fmap. naive_solver. Qed.

Lemma elem_of_upper_set x l : x ∈ upper_set l <-> exists d, d ∈ l /\ ToUpper d = x.
Proof. unfold upper_set. rewrite elem_of_list_to_set, list_elem_of_fmap. naive_solver. Qed.

Lemma name_decides s l :
  (if String.eqb s "" then false else bool_decide (ToLower s ∈ lower_set l)) = true <->
  spec_name s l.
Proof. rewrite if_empty_false, bool_decide_eq_true, elem_of_lower_set. done. Qed.

Lemma keyword_decides l : decides E ctx (newDomainKeywordMatcher l) (spec_keyword ctx l).
Proof.
  unfold decides, spec_keyword. simpl. rewrite if_empty_false, existsb_exists.
  setoid_rewrite <- list_elem_of_In. setoid_rewrite list_elem_of_fmap. naive_solver.
Qed.

Lemma site_covers_spec domain d :
  site_covers domain d = true <-> Trie.under domain (TrimPrefix (ToLower d) "+.").
Proof.
  unfold site_covers, Trie.under, TrimPrefix. simpl String.length.
  by destruct (HasPrefix (ToLower d) "+."); rewrite orb_true_iff, String.eqb_eq.
Qed.

Lemma geosite_decides l : decides E ctx (newGeoSiteMatcher l) (spec_geosite E ctx l).
Proof.
  unfold decides, spec_geosite. simpl. destruct (geoSite E) as [db|]; [|naive_solver].
  rewrite if_empty_false, existsb_exists. setoid_rewrite existsb_exists.
  setoid_rewrite <- list_elem_of_In. setoid_rewrite list_elem_of_fmap.
  setoid_rewrite site_covers_spec. naive_solver.
Qed.

Lemma nets_decides (parse : string -> option IPNet) l ns ip :
  Forall2 (fun c n => parse c = Some n) l ns ->
  match ip with None => false | Some a => existsb (fun n => IPNet_Contains n a) ns end = true <->
  spec_nets ip parse l.
Proof.
  intros H2. unfold spec_nets. destruct ip as [a|]; [|naive_solver].
  rewrite existsb_exists. setoid_rewrite <- list_elem_of_In. split.
  - intros (n & Hn & Hc). apply list_elem_of_lookup in Hn as [i Hi].
    destruct (Forall2_lookup_r _ _ _ _ _ H2 Hi) as (c & Hci & Hp).
    exists a, c, n. split_and!; [done|by eapply list_elem_of_lookup_2|done|done].
  - intros (a' & c & n & [= <-] & Hc & Hp & Hin). apply list_elem_of_lookup in Hc as [i Hi].
    destruct (Forall2_lookup_l _ _ _ _ _ H2 Hi) as (n' & Hni & Hp'). simplify_eq.
    eexists. split; [by eapply list_elem_of_lookup_2|done].
Qed.

Lemma geoip_decides l : decides E ctx (newGeoIPMatcher l) (spec_geoip E ctx l).
Proof.
  unfold decides, spec_geoip. simpl. destruct (CtxIP ctx) as [a|], (geoIP E) as [db|]; try naive_solver.
  rewrite bool_decide_eq_true, elem_of_upper_set. naive_solver.
Qed.

Lemma provider_decides l : decides E ctx (ruleProviderMatcher l) (spec_provider E ctx l).
Proof.
  unfold decides, spec_provider. simpl. rewrite existsb_exists. setoid_rewrite <- list_elem_of_In.
  setoid_rewrite orb_true_iff. setoid_rewrite andb_true_iff. setoid_rewrite negb_true_iff.
  setoid_rewrite String.eqb_neq. destruct (CtxIP ctx); naive_solver.
Qed.

End decides.

Lemma parse_nets_Forall2 l ns :
  parse_nets l = Ok ns -> Forall2 (fun c n => ParseCIDR c = Some n) l ns.
Proof.
  revert ns; induction l as [|c l IH]; intros ns; simpl; [intros [= <-]; constructor|].
  destruct (ParseCIDR c) eqn:Hc; [|done]. destruct (parse_nets l); [|done..].
  intros [= <-]. constructor; auto.
Qed.

Lemma parse_srcs_Forall2 l ns :
  parse_srcs l = Ok ns -> Forall2 (fun c n => parse_src c = Some n) l ns.
Proof.
  revert ns; induction l as [|c l IH]; intros ns; simpl; [intros [= <-]; constructor|].
  destruct (parse_src c) eqn:Hc; [|done]. destruct (parse_srcs l); [|done..].
  intros [= <-]. constructor; auto.
Qed.

Lemma find_providers_id known l rps : find_providers known l = Ok rps -> rps = l.
Proof.
  revert rps; induction l as [|c l IH]; intros rps; simpl; [by intros [= <-]|].
  case_decide; [|done]. destruct (find_providers known l); [|done..].
  intros [= <-]. f_equal. by apply IH.
Qed.

Lemma parse_ranges_elem specs rs r :
  parse_ranges specs = Ok rs ->
  r ∈ rs <-> exists spec, spec ∈ specs /\ TrimSpace spec <> "" /\ parse_range (TrimSpace spec) = Ok r.
Proof.
  revert rs; induction specs as [|spec specs IH]; intros rs; simpl; [intros [= <-]; set_solver|].
  destruct (String.eqb_spec (TrimSpace spec) "") as [Hb|Hb].
  - intros H. rewrite (IH _ H). setoid_rewrite elem_of_cons. naive_solver.
  - destruct (parse_range (TrimSpace spec)) as [r'| |] eqn:Hr; [|done..].
    destruct (parse_ranges specs) as [rs'| |]; [|done..]. intros [= <-].
    rewrite elem_of_cons, (IH _ eq_refl). setoid_rewrite elem_of_cons. split.
    + intros [->|(s & ? & ? & ?)]; [exists spec|exists s]; auto.
    + intros (s & [->|?] & ? & ?); [left; congruence|right; eauto].
Qed.

Lemma port_decides E ctx l m :
  newPortMatcher l = Ok m -> decides E ctx m (spec_port ctx l).
Proof.
  unfold newPortMatcher, decides, spec_port.
  destruct (parse_ranges l) as [rs| |] eqn:Hp; [|done..]. cbn [mbind res_bind].
  destruct rs as [|r0 rs0]; [done|]. intros [= <-]. cbn [matcher_Match].
  destruct (Z.eqb_spec (Port ctx) 0) as [Hz|Hz]; [naive_solver|].
  rewrite existsb_exists. setoid_rewrite <- list_elem_of_In.
  split.
  - intros (r & Hr & Hin). apply (parse_ranges_elem _ _ _ Hp) in Hr as (spec & ? & ? & ?).
    unfold in_range in Hin. rewrite andb_true_iff, !Z.leb_le in Hin. eauto 10.
  - intros (_ & spec & r & ? & ? & ? & ?). exists r. split.
    + apply (parse_ranges_elem _ _ _ Hp). eauto.
    + unfold in_range. apply andb_true_iff. split; apply Z.leb_le; lia.
Qed.

(** ** The suffix trie *)

Definition suffix_rules (l : list string) : list (string * string) :=
  flat_map (fun s => [(String.append "+." (ToLower s), "match"); (ToLower s, "match")]) l.

Lemma suffix_fold l t :
  fold_left (fun trie s =>
      let lower := ToLower s in
      Trie.Insert (Trie.Insert trie (String.append "+." lower) "match") lower "match") l t =
  Trie.insert_all (suffix_rules l) t.
Proof. revert t; induction l as [|s l IH]; intros t; [done|]. cbn [fold_left]. by rewrite IH. Qed.

Lemma elem_of_suffix_rules d a l :
  (d, a) ∈ suffix_rules l <->
  a = "match" /\ exists s, s ∈ l /\ (d = String.append "+." (ToLower s) \/ d = ToLower s).
Proof.
  unfold suffix_rules. rewrite list_elem_of_In, in_flat_map. setoid_rewrite <- list_elem_of_In.
  setoid_rewrite elem_of_cons. setoid_rewrite list_elem_of_singleton. naive_solver.
Qed.

Lemma suffix_decides E ctx l : decides E ctx (newDomainSuffixMatcher l) (spec_suffix ctx l).
Proof.
  unfold decides, spec_suffix. cbn [newDomainSuffixMatcher matcher_Match].
  rewrite suffix_fold, if_empty_false, bool_decide_eq_true, Trie.Lookup_insert_covers.
  setoid_rewrite elem_of_suffix_rules. split.
  - intros (Hd & d & a & (-> & s & Hs & [-> | ->]) & Hc); eauto.
  - intros (Hd & s & Hs & Hc). split; [done|]. destruct Hc as [Hc|Hc]; eexists _, "match"; (split; [|exact Hc]); eauto.
Qed.

(** ** The compiler refines the meaning of entries *)

Definition all_decide (E : env) (ctx : MatchContext) : list Matcher -> list Prop -> Prop :=
  Forall2 (decides E ctx).

Lemma when_some_decides E ctx l mk P ms :
  (forall m, mk l = Ok m -> decides E ctx m (P l)) ->
  when_some l mk = Ok ms -> all_decide E ctx ms (when_prop l P).
Proof.
  unfold when_some, when_prop. intros H. destruct l; [intros [= <-]; constructor|].
  destruct (mk (s :: l)) eqn:Hm; [|done..]. intros [= <-]. constructor; [auto|constructor].
Qed.

Lemma compile_matchers_decide E ctx known m ms :
  compile_matchers known m = Ok ms -> all_decide E ctx ms (conditions E ctx m).
Proof.
  unfold compile_matchers.
  repeat match goal with
  | |- (when_some ?l ?f ≫= _) = _ -> _ =>
      destruct (when_some l f) eqn:?; cbn [mbind res_bind]; [|done..]
  end.
  intros [= <-]. unfold conditions.
  repeat apply Forall2_app; (eapply when_some_decides; [|eassumption]); intros m' Hm';
    try (injection Hm' as <-).
  - apply name_decides.
  - apply suffix_decides.
  - apply keyword_decides.
  - apply geosite_decides.
  - unfold newIPCIDRMatcher in Hm'. destruct (parse_nets _) eqn:Hp; [|done..].
    injection Hm' as <-. apply nets_decides. by apply parse_nets_Forall2.
  - apply geoip_decides.
  - by apply port_decides.
  - unfold newSrcIPMatcher in Hm'. destruct (parse_srcs _) as [ns| |] eqn:Hp; [|done..].
    assert (m' = srcIPMatcher ns) as -> by (destruct ns; by simplify_eq/=).
    apply nets_decides. by apply parse_srcs_Forall2.
  - apply name_decides.
  - apply name_decides.
  - apply name_decides.
  - unfold newRuleProviderMatcher in Hm'. destruct (find_providers _ _) eqn:Hf; [|done..].
    injection Hm' as <-. apply find_providers_id in Hf as ->. apply provider_decides.
Qed.

Lemma forallb_decide E ctx ms Ps :
  all_decide E ctx ms Ps ->
  forallb (fun m => matcher_Match E m ctx) ms = true <-> (forall P, P ∈ Ps -> P).
Proof.
  induction 1 as [|m P ms Ps Hd _ IH]; simpl; [split; [intros _ P HP; by apply elem_of_nil in HP|done]|].
  rewrite andb_true_iff, IH. unfold decides in Hd. rewrite Hd. setoid_rewrite elem_of_cons.
  split.
  - intros [Hp Hps] Q [->|HQ]; [done|by apply Hps].
  - intros Hall. split; [by apply Hall; left|]. intros Q HQ. apply Hall. by right.
Qed.

Lemma existsb_decide E ctx ms Ps :
  all_decide E ctx ms Ps ->
  existsb (fun m => matcher_Match E m ctx) ms = true <-> (exists P, P ∈ Ps /\ P).
Proof.
  induction 1 as [|m P ms Ps Hd _ IH]; simpl.
  - split; [done|]. intros (P & HP & _). by apply elem_of_nil in HP.
  - rewrite orb_true_iff, IH. unfold decides in Hd. rewrite Hd. setoid_rewrite elem_of_cons.
    split.
    + intros [Hp|(Q & HQ & Hq)]; [exists P|exists Q]; auto.
    + intros (Q & [->|HQ] & Hq); [by left|right; by exists Q].
Qed.

Lemma parse_action_Ok s a :
  parse_action s = Ok a -> a = ToLower s /\ (a = "proxy" \/ a = "direct" \/ a = "reject").
Proof.
  unfold parse_action. case_match; [done|].
  destruct (String.eqb_spec (ToLower s) "proxy"), (String.eqb_spec (ToLower s) "direct"),
    (String.eqb_spec (ToLower s) "reject"); simpl; naive_solver.
Qed.

Lemma parse_logic_Ok s l :
  parse_logic s = Ok l -> l = if String.eqb (ToLower s) "or" then logicOr else logicAnd.
Proof.
  unfold parse_logic.
  destruct (String.eqb_spec (ToLower s) ""), (String.eqb_spec (ToLower s) "and"),
    (String.eqb_spec (ToLower s) "or"); simpl; naive_solver congruence.
Qed.

Lemma compile_entry_refines known e r :
  compile_entry known e = Ok r ->
  action r = ToLower (e_Action e) /\
  forall E ctx, rule_Match E r ctx = true <-> entry_matches E ctx e.
Proof.
  unfold compile_entry.
  destruct (parse_logic _) as [lg| |] eqn:Hl; [|done..]. cbn [mbind res_bind].
  destruct (parse_action _) as [a| |] eqn:Ha; [|done..]. cbn [mbind res_bind].
  destruct (compile_matchers _ _) as [ms| |] eqn:Hm; [|done..]. cbn [mbind res_bind].
  intros Hr. assert (ms <> [] /\ r = {| matchers := ms; logic := lg; negate := e_Negate e; action := a |})
    as [Hne ->] by (destruct ms; by simplify_eq). clear Hr.
  apply parse_action_Ok in Ha as [-> _]. split; [done|]. intros E ctx.
  pose proof (compile_matchers_decide E ctx _ _ _ Hm) as Hd.
  unfold rule_Match, entry_matches. cbn [matchers logic negate].
  apply parse_logic_Ok in Hl as ->. destruct ms as [|m0 ms0]; [done|].
  destruct (String.eqb (ToLower (e_Logic e)) "or"), (e_Negate e);
    rewrite ?negb_true_iff, <- ?not_true_iff_false;
    first [apply not_iff_compat|idtac]; (apply existsb_decide || apply forallb_decide); done.
Qed.

Lemma compile_from_refines known i entries rules :
  compile_from known i entries = Ok rules ->
  Forall2 (fun e r => action r = ToLower (e_Action e) /\
    forall E ctx, rule_Match E r ctx = true <-> entry_matches E ctx e) entries rules.
Proof.
  revert i rules; induction entries as [|e es IH]; intros i rules; simpl.
  - intros [= <-]. constructor.
  - destruct (compile_entry known e) as [r| |] eqn:Hr; [|done..]. cbn [wrap_err mbind res_bind].
    destruct (compile_from known (S i) es) as [rs| |] eqn:Hrs; [|done..]. intros [= <-].
    constructor; [by eapply compile_entry_refines|by eapply IH].
Qed.

(** ** Which entries compile *)

(** What an entry must satisfy, as documented on [RuleChainEntry]. *)
Record valid_entry (known : gset string) (e : RuleChainEntry) : Prop := {
  v_logic : ToLower (e_Logic e) ∈ [""; "and"; "or"];
  v_action : ToLower (e_Action e) ∈ ["proxy"; "direct"; "reject"];
  v_cidr : Forall (fun c => is_Some (ParseCIDR c)) (m_IPCIDR (e_Match e));
  v_port : Forall (fun s => TrimSpace s <> "" -> exists r, parse_range (TrimSpace s) = Ok r)
             (m_Port (e_Match e));
  v_some_port : m_Port (e_Match e) <> [] -> Exists (fun s => TrimSpace s <> "") (m_Port (e_Match e));
  v_src : Forall (fun c => is_Some (parse_src c)) (m_SrcIP (e_Match e));
  v_provider : Forall (fun n => n ∈ known) (m_RuleProvider (e_Match e));
  v_condition : exists f, f ∈ [m_Domain; m_DomainSuffix; m_DomainKeyword; m_GeoSite; m_IPCIDR;
      m_GeoIP; m_Port; m_SrcIP; m_Process; m_Protocol; m_NetworkType; m_RuleProvider] /\
      f (e_Match e) <> [];
}.

(** A fallible computation that never panics and succeeds exactly when [P]. *)
Definition ok_iff {Er A} (m : res Er A) (P : Prop) : Prop :=
  match m with Ok _ => P | Err _ => ~ P | Panic => False end.

#[export] Instance ok_iff_proper {Er A} (m : res Er A) : Proper (iff ==> iff) (ok_iff m).
Proof. intros P Q HPQ. unfold ok_iff. by destruct m; rewrite ?HPQ. Qed.

Lemma parse_nets_ok_iff l : ok_iff (parse_nets l) (Forall (fun c => is_Some (ParseCIDR c)) l).
Proof.
  induction l as [|c l IH]; simpl; [constructor|]. rewrite Forall_cons.
  destruct (ParseCIDR c) eqn:Hc; simpl; [|by intros [[? ?] _]].
  destruct (parse_nets l); simpl in *; naive_solver.
Qed.

Lemma parse_srcs_ok_iff l : ok_iff (parse_srcs l) (Forall (fun c => is_Some (parse_src c)) l).
Proof.
  induction l as [|c l IH]; simpl; [constructor|]. rewrite Forall_cons.
  destruct (parse_src c) eqn:Hc; simpl; [|by intros [[? ?] _]].
  destruct (parse_srcs l); simpl in *; naive_solver.
Qed.

Lemma find_providers_ok_iff known l :
  ok_iff (find_providers known l) (Forall (fun n => n ∈ known) l).
Proof.
  induction l as [|c l IH]; simpl; [constructor|]. rewrite Forall_cons.
  case_decide; simpl; [|by intros [? _]]. destruct (find_providers known l); simpl in *; naive_solver.
Qed.

Lemma parse_digits_no_panic mx n s : parse_digits mx n s <> Panic.
Proof. revert n; induction s; intros n; simpl; [done|]. repeat case_match; auto. Qed.

Lemma parsePort_no_panic spec s : parsePort spec s <> Panic.
Proof.
  unfold parsePort, ParseUint. destruct (TrimSpace s) as [|c t]; [done|].
  destruct (parse_digits _ _ _) eqn:H; [simpl; by case_match|done|].
  by apply parse_digits_no_panic in H.
Qed.

Lemma no_panic_bind {Er A B} (m : res Er A) (k : A -> res Er B) :
  m <> Panic -> (forall a, k a <> Panic) -> m ≫= k <> Panic.
Proof. destruct m; simpl; auto. Qed.

Lemma parse_range_no_panic spec : parse_range spec <> Panic.
Proof.
  unfold parse_range. case_match; repeat (apply no_panic_bind; [apply parsePort_no_panic|intros ?]).
  - by case_match.
  - done.
Qed.

Lemma parse_ranges_ok_iff l :
  ok_iff (parse_ranges l)
    (Forall (fun s => TrimSpace s <> "" -> exists r, parse_range (TrimSpace s) = Ok r) l).
Proof.
  induction l as [|s l IH]; simpl; [constructor|]. rewrite Forall_cons.
  destruct (String.eqb_spec (TrimSpace s) "") as [Hb|Hb].
  - destruct (parse_ranges l); simpl in *; naive_solver.
  - destruct (parse_range (TrimSpace s)) eqn:Hr; simpl.
    + destruct (parse_ranges l); simpl in *; naive_solver.
    + intros [H _]. by destruct (H Hb).
    + by apply parse_range_no_panic in Hr.
Qed.

Lemma parse_ranges_nil l :
  parse_ranges l = Ok [] <-> Forall (fun s => TrimSpace s = "") l.
Proof.
  induction l as [|s l IH]; simpl; [done|]. rewrite Forall_cons.
  destruct (String.eqb_spec (TrimSpace s) "") as [Hb|Hb]; [naive_solver|].
  destruct (parse_range (TrimSpace s)) eqn:Hr; simpl; [|naive_solver..].
  destruct (parse_ranges l); simpl; naive_solver.
Qed.

Lemma newPortMatcher_ok_iff l :
  ok_iff (newPortMatcher l)
    (Forall (fun s => TrimSpace s <> "" -> exists r, parse_range (TrimSpace s) = Ok r) l /\
     Exists (fun s => TrimSpace s <> "") l).
Proof.
  unfold newPortMatcher. pose proof (parse_ranges_ok_iff l) as H. pose proof (parse_ranges_nil l) as Hn.
  destruct (parse_ranges l) as [rs| |]; simpl in *; [|naive_solver..].
  destruct rs as [|r rs]; simpl.
  - intros [_ (s & Hs & Hb)%Exists_exists]. destruct Hn as [Hn _].
    by apply Hb, (proj1 (Forall_forall _ _) (Hn eq_refl)).
  - split; [done|]. apply not_Forall_Exists; [intros s; apply _|]. by intros ?%Hn.
Qed.

Lemma newSrcIPMatcher_ok_iff l :
  l <> [] -> ok_iff (newSrcIPMatcher l) (Forall (fun c => is_Some (parse_src c)) l).
Proof.
  intros Hl. unfold newSrcIPMatcher. pose proof (parse_srcs_ok_iff l) as H.
  destruct (parse_srcs l) as [ns| |] eqn:Hp; simpl in *; [|done..].
  apply parse_srcs_Forall2 in Hp. destruct Hp; [done|exact H].
Qed.

Lemma when_some_ok_iff l mk (P : Prop) :
  (l = [] -> P) -> (l <> [] -> ok_iff (mk l) P) -> ok_iff (when_some l mk) P.
Proof.
  intros H0 H1. unfold when_some. destruct l as [|x l]; [by apply H0|].
  specialize (H1 ltac:(done)). by destruct (mk (x :: l)).
Qed.

Lemma ok_iff_bind {Er A B} (m : res Er A) (k : A -> res Er B) (P Q : Prop) :
  ok_iff m P -> (forall a, m = Ok a -> ok_iff (k a) Q) -> ok_iff (m ≫= k) (P /\ Q).
Proof.
  intros Hm Hk. destruct m as [a|e|]; simpl in *; [|naive_solver..].
  specialize (Hk a eq_refl). destruct (k a); simpl in *; naive_solver.
Qed.

Lemma when_some_pure l (f : list string -> Matcher) : ok_iff (when_some l (fun l => Ok (f l))) True.
Proof. by apply when_some_ok_iff. Qed.

Lemma when_some_nil l mk : when_some l mk = Ok [] <-> l = [].
Proof. destruct l; simpl; [done|]. by destruct (mk _). Qed.

Definition valid_fields (known : gset string) (m : RuleMatch) : Prop :=
  Forall (fun c => is_Some (ParseCIDR c)) (m_IPCIDR m) /\
  (Forall (fun s => TrimSpace s <> "" -> exists r, parse_range (TrimSpace s) = Ok r) (m_Port m) /\
   (m_Port m <> [] -> Exists (fun s => TrimSpace s <> "") (m_Port m))) /\
  Forall (fun c => is_Some (parse_src c)) (m_SrcIP m) /\
  Forall (fun n => n ∈ known) (m_RuleProvider m).

Lemma compile_matchers_ok_iff known m :
  ok_iff (compile_matchers known m) (valid_fields known m).
Proof.
  assert (valid_fields known m <->
    True /\ True /\ True /\ True /\ Forall (fun c => is_Some (ParseCIDR c)) (m_IPCIDR m) /\ True /\
    (Forall (fun s => TrimSpace s <> "" -> exists r, parse_range (TrimSpace s) = Ok r) (m_Port m) /\
     (m_Port m <> [] -> Exists (fun s => TrimSpace s <> "") (m_Port m))) /\
    Forall (fun c => is_Some (parse_src c)) (m_SrcIP m) /\ True /\ True /\ True /\
    Forall (fun n => n ∈ known) (m_RuleProvider m) /\ True) as -> by (unfold valid_fields; tauto).
  unfold compile_matchers.
  repeat first
    [ exact I
    | apply ok_iff_bind; [first [apply when_some_pure|apply when_some_ok_iff]|intros ? _] ];
    try (intros ->; by repeat constructor).
  - intros _. unfold newIPCIDRMatcher. pose proof (parse_nets_ok_iff (m_IPCIDR m)) as H.
    by destruct (parse_nets _).
  - intros Hne. pose proof (newPortMatcher_ok_iff (m_Port m)) as H.
    destruct (newPortMatcher _); simpl in *; naive_solver.
  - intros Hne. by apply newSrcIPMatcher_ok_iff.
  - intros _. unfold newRuleProviderMatcher. pose proof (find_providers_ok_iff known (m_RuleProvider m)).
    by destruct (find_providers _ _).
Qed.

Lemma compile_matchers_nil known m ms :
  compile_matchers known m = Ok ms ->
  ms = [] <-> forall f, f ∈ [m_Domain; m_DomainSuffix; m_DomainKeyword; m_GeoSite; m_IPCIDR;
      m_GeoIP; m_Port; m_SrcIP; m_Process; m_Protocol; m_NetworkType; m_RuleProvider] -> f m = [].
Proof.
  unfold compile_matchers.
  repeat match goal with
  | |- (when_some ?l ?f ≫= _) = _ -> _ =>
      let H := fresh "Hn" in
      pose proof (when_some_nil l f) as H; destruct (when_some l f) as [?l'| |] eqn:?;
      cbn [mbind res_bind]; [|done..];
      match type of H with Ok ?x = _ <-> _ => 
        assert (x = [] <-> l = []) by (rewrite <- H; clear; naive_solver); clear H end
  end.
  intros [= <-]. rewrite <- Forall_forall, !Forall_cons, Forall_nil, !app_nil. tauto.
Qed.

Lemma compile_entry_ok_iff known e : ok_iff (compile_entry known e) (valid_entry known e).
Proof.
  assert (valid_entry known e <->
    ToLower (e_Logic e) ∈ [""; "and"; "or"] /\ ToLower (e_Action e) ∈ ["proxy"; "direct"; "reject"] /\
    valid_fields known (e_Match e) /\ ~ (forall f, f ∈ [m_Domain; m_DomainSuffix; m_DomainKeyword;
      m_GeoSite; m_IPCIDR; m_GeoIP; m_Port; m_SrcIP; m_Process; m_Protocol; m_NetworkType;
      m_RuleProvider] -> f (e_Match e) = [])) as ->.
  { unfold valid_fields. rewrite <- Forall_forall. split.
    - intros [Hl Ha Hc Hp Hsp Hs Hr (f & Hf & Hne)]. split_and!; try done.
      rewrite Forall_forall. naive_solver.
    - intros (? & ? & (? & [? ?] & ? & ?) & Hn). split; try done.
      apply not_Forall_Exists in Hn; [|intros f; apply _]. by apply Exists_exists in Hn. }
  unfold compile_entry. repeat apply ok_iff_bind.
  - unfold parse_logic. rewrite !elem_of_cons, elem_of_nil.
    destruct (String.eqb_spec (ToLower (e_Logic e)) ""), (String.eqb_spec (ToLower (e_Logic e)) "and"),
      (String.eqb_spec (ToLower (e_Logic e)) "or"); simpl; tauto.
  - intros l _. apply ok_iff_bind.
    + unfold parse_action. rewrite !elem_of_cons, elem_of_nil.
      destruct (String.eqb_spec (ToLower (e_Action e)) "") as [->|];
        [simpl; intros [?|[?|[?|[]]]]; done|].
      destruct (String.eqb_spec (ToLower (e_Action e)) "proxy"),
        (String.eqb_spec (ToLower (e_Action e)) "direct"),
        (String.eqb_spec (ToLower (e_Action e)) "reject"); simpl; tauto.
    + intros a _. apply ok_iff_bind; [apply compile_matchers_ok_iff|]. intros ms Hms.
      apply compile_matchers_nil in Hms. destruct ms; simpl; naive_solver.
Qed.

Lemma compile_from_valid known i entries :
  match compile_from known i entries with
  | Ok rules => Forall (valid_entry known) entries /\ length rules = length entries
  | Err (j, _) => exists k e, j = (i + k)%nat /\ entries !! k = Some e /\ ~ valid_entry known e /\
      Forall (valid_entry known) (take k entries)
  | Panic => False
  end.
Proof.
  revert i; induction entries as [|e es IH]; intros i; simpl; [done|].
  pose proof (compile_entry_ok_iff known e) as He. specialize (IH (S i)).
  destruct (compile_entry known e) as [r|er|]; simpl in *; [| |done].
  - destruct (compile_from known (S i) es) as [rs|[j er]|]; simpl in *; [| |done].
    + destruct IH as [? ->]. auto.
    + destruct IH as (k & e' & -> & ? & ? & ?). exists (S k), e'.
      split_and!; [lia|done|done|by constructor].
  - exists 0%nat, e. split_and!; [lia|done|done|constructor].
Qed.

(** ** Properties *)


Definition demo_match : RuleMatch := {|
  m_Domain := []; m_DomainSuffix := ["Example.com"]; m_DomainKeyword := []; m_GeoSite := [];
  m_IPCIDR := ["10.0.0.0/8"]; m_GeoIP := []; m_Port := ["80"; "8000-9000"]; m_SrcIP := [];
  m_Process := []; m_Protocol := []; m_NetworkType := []; m_RuleProvider := [] |}.
Definition demo_entry : RuleChainEntry :=
  {| e_Match := demo_match; e_Logic := "or"; e_Negate := true; e_Action := "Direct" |}.

Example demo_entry_compiles : exists rules, CompileRuleChain ∅ [demo_entry] = Ok rules /\ length rules = 1%nat.
Proof. eexists. split; vm_compute; reflexivity. Qed.

(** The suffix ".internal.corp" of docs/multi-outbound-routing.md does not match the
    hosts of that domain; without the dot it does. *)
Example dotted_suffix_ignored :
  let looks s d := bool_decide (is_Some (Trie.Lookup (Trie.insert_all (suffix_rules [s]) Trie.NewDomainTrie) d)) in
  looks ".internal.corp" "host.internal.corp" = false /\ looks ".internal.corp" "internal.corp" = false /\
  looks "internal.corp" "host.internal.corp" = true.
Proof. vm_compute. auto. Qed.

End RuleChain.
