(* ===== verification/Router.v ===== *)
(** * The router (src/router/router.go, convert.go, conflict.go)

    The routing engine built from a configuration, its match operations with the
    decisions they report, the conversion of configured rules, and the conflict
    detector.  [router_refines_config] relates the maps, the trie and the rule
    lists of the engine to the rules of the configuration. *)

From Stdlib Require Import Ascii.
From S2P Require Import Prelude GoBytes GoStrings GoNet DomainTrie GeoIP RuleProvider RuleChain.

Local Open Scope Z_scope.

Module Router.

Definition Action := string.
Definition ActionProxy : Action := "proxy".
Definition ActionDirect : Action := "direct".
Definition ActionReject : Action := "reject".

Definition RuleTypeDomain := "domain".
Definition RuleTypeDomainSuffix := "domain-suffix".
Definition RuleTypeGeoSite := "geosite".
Definition RuleTypeGeoIP := "geoip".
Definition RuleTypeIPCIDR := "ip-cidr".
Definition RuleTypeProcess := "process".
Definition RuleTypeProtocol := "protocol".

(** [Rule] *)
Record Rule := {
  Type_ : string;
  Values : list string;
  R_Action : Action;
  R_NetworkType : string;
}.

Record ipRule := { cidr : IPNet; ip_action : Action }.

Record networkRule := {
  nr_ruleType : string;
  nr_values : list string;
  nr_action : Action;
  nr_networkType : string;
}.

(** [Router].  The databases are shared with the rule chain and reloaded in
    place; the fields hold their current contents ([None] for nil).  The hook is
    whether one is installed: its calls are the events of the operations. *)
Record Router := {
  ruleChain : list RuleChain.compiledRule;
  exactDomain : gmap string Action;
  domainTrie : Trie.DomainTrie;
  ipRules : list ipRule;
  processMap : gmap string Action;
  protocolMap : gmap string Action;
  networkRules : list networkRule;
  geoIP : option GeoIP.geoIPSnapshot;
  geoSite : option GeoIP.geoSiteSnapshot;
  defaultAct : Action;
  networkType : string;
  decisionHook : bool;
}.

Record RouterConfig := {
  cfg_RuleChain : list RuleChain.RuleChainEntry;
  cfg_Rules : list Rule;
  cfg_DefaultAction : Action;
  cfg_RuleProviders : gset string;
}.

(** ** Construction *)

(** The record updates of [addRule], one per map or list it writes. *)
Definition set_exact (r : Router) (k : string) (a : Action) : Router :=
  {| ruleChain := ruleChain r; exactDomain := <[k := a]> (exactDomain r);
     domainTrie := domainTrie r; ipRules := ipRules r; processMap := processMap r;
     protocolMap := protocolMap r; networkRules := networkRules r; geoIP := geoIP r;
     geoSite := geoSite r; defaultAct := defaultAct r; networkType := networkType r;
     decisionHook := decisionHook r |}.
Definition trie_insert (r : Router) (d : string) (a : Action) : Router :=
  {| ruleChain := ruleChain r; exactDomain := exactDomain r;
     domainTrie := Trie.Insert (domainTrie r) d a; ipRules := ipRules r;
     processMap := processMap r; protocolMap := protocolMap r;
     networkRules := networkRules r; geoIP := geoIP r; geoSite := geoSite r;
     defaultAct := defaultAct r; networkType := networkType r; decisionHook := decisionHook r |}.
Definition add_ipRule (r : Router) (n : IPNet) (a : Action) : Router :=
  {| ruleChain := ruleChain r; exactDomain := exactDomain r; domainTrie := domainTrie r;
     ipRules := ipRules r ++ [{| cidr := n; ip_action := a |}]; processMap := processMap r;
     protocolMap := protocolMap r; networkRules := networkRules r; geoIP := geoIP r;
     geoSite := geoSite r; defaultAct := defaultAct r; networkType := networkType r;
     decisionHook := decisionHook r |}.
Definition set_process (r : Router) (k : string) (a : Action) : Router :=
  {| ruleChain := ruleChain r; exactDomain := exactDomain r; domainTrie := domainTrie r;
     ipRules := ipRules r; processMap := <[k := a]> (processMap r);
     protocolMap := protocolMap r; networkRules := networkRules r; geoIP := geoIP r;
     geoSite := geoSite r; defaultAct := defaultAct r; networkType := networkType r;
     decisionHook := decisionHook r |}.
Definition set_protocol (r : Router) (k : string) (a : Action) : Router :=
  {| ruleChain := ruleChain r; exactDomain := exactDomain r; domainTrie := domainTrie r;
     ipRules := ipRules r; processMap := processMap r;
     protocolMap := <[k := a]> (protocolMap r); networkRules := networkRules r;
     geoIP := geoIP r; geoSite := geoSite r; defaultAct := defaultAct r;
     networkType := networkType r; decisionHook := decisionHook r |}.
Definition add_networkRule (r : Router) (nr : networkRule) : Router :=
  {| ruleChain := ruleChain r; exactDomain := exactDomain r; domainTrie := domainTrie r;
     ipRules := ipRules r; processMap := processMap r; protocolMap := protocolMap r;
     networkRules := networkRules r ++ [nr]; geoIP := geoIP r; geoSite := geoSite r;
     defaultAct := defaultAct r; networkType := networkType r; decisionHook := decisionHook r |}.

Definition domain_key (d : string) : string := ToLower (TrimSuffix d ".").

Definition addRule (r : Router) (rule : Rule) : Router :=
  if negb (String.eqb (R_NetworkType rule) "") then
    add_networkRule r {| nr_ruleType := Type_ rule; nr_values := Values rule;
      nr_action := R_Action rule; nr_networkType := ToLower (R_NetworkType rule) |}
  else if String.eqb (Type_ rule) RuleTypeDomain then
    fold_left (fun r v => set_exact r (domain_key v) (R_Action rule)) (Values rule) r
  else if String.eqb (Type_ rule) RuleTypeDomainSuffix then
    fold_left (fun r v => trie_insert r v (R_Action rule)) (Values rule) r
  else if String.eqb (Type_ rule) RuleTypeGeoSite then
    match geoSite r with
    | None => r
    | Some db =>
        fold_left (fun r v =>
          fold_left (fun r d => trie_insert r d (R_Action rule)) (GeoIP.SiteLookup db v) r)
          (Values rule) r
    end
  else if String.eqb (Type_ rule) RuleTypeGeoIP then r
  else if String.eqb (Type_ rule) RuleTypeIPCIDR then
    fold_left (fun r v =>
      match ParseCIDR v with
      | None => r
      | Some n => add_ipRule r n (R_Action rule)
      end) (Values rule) r
  else if String.eqb (Type_ rule) RuleTypeProcess then
    fold_left (fun r v => set_process r (ToLower v) (R_Action rule)) (Values rule) r
  else if String.eqb (Type_ rule) RuleTypeProtocol then
    fold_left (fun r v => set_protocol r (ToLower v) (R_Action rule)) (Values rule) r
  else r.

(** [NewRouter] also writes the default action back into the caller's
    configuration: this is the configuration it leaves. *)
Definition with_default (cfg : RouterConfig) : RouterConfig :=
  if String.eqb (cfg_DefaultAction cfg) "" then
    {| cfg_RuleChain := cfg_RuleChain cfg; cfg_Rules := cfg_Rules cfg;
       cfg_DefaultAction := ActionProxy; cfg_RuleProviders := cfg_RuleProviders cfg |}
  else cfg.

(** A rule chain that does not compile is logged and dropped. *)
Definition compiled_chain (cfg : RouterConfig) : list RuleChain.compiledRule :=
  match cfg_RuleChain cfg with
  | [] => []
  | entries =>
      match RuleChain.CompileRuleChain (cfg_RuleProviders cfg) entries with
      | Ok rules => rules
      | _ => []
      end
  end.

Definition NewRouter (cfg : RouterConfig) (geoIP : option GeoIP.geoIPSnapshot)
    (geoSite : option GeoIP.geoSiteSnapshot) : Router :=
  let cfg := with_default cfg in
  fold_left addRule (cfg_Rules cfg)
    {| ruleChain := compiled_chain cfg; exactDomain := ∅; domainTrie := Trie.NewDomainTrie;
       ipRules := []; processMap := ∅; protocolMap := ∅; networkRules := []; geoIP := geoIP;
       geoSite := geoSite; defaultAct := cfg_DefaultAction cfg; networkType := "";
       decisionHook := false |}.

Definition SetDecisionHook (r : Router) (hook : bool) : Router :=
  {| ruleChain := ruleChain r; exactDomain := exactDomain r; domainTrie := domainTrie r;
     ipRules := ipRules r; processMap := processMap r; protocolMap := protocolMap r;
     networkRules := networkRules r; geoIP := geoIP r; geoSite := geoSite r;
     defaultAct := defaultAct r; networkType := networkType r; decisionHook := hook |}.

Definition SetNetworkType (r : Router) (nt : string) : Router :=
  {| ruleChain := ruleChain r; exactDomain := exactDomain r; domainTrie := domainTrie r;
     ipRules := ipRules r; processMap := processMap r; protocolMap := protocolMap r;
     networkRules := networkRules r; geoIP := geoIP r; geoSite := geoSite r;
     defaultAct := defaultAct r; networkType := ToLower nt; decisionHook := decisionHook r |}.

(** ** Matching *)

(** A call of the decision hook: the action and the kind of rule behind it. *)
Definition event : Type := string * string.

Definition notifyDecision (r : Router) (decision : Action) (rule : string) : list event :=
  if decisionHook r then [(decision, rule)] else [].

(** One value of a network-constrained domain rule. *)
Definition network_domain_match (domain v : string) : bool :=
  let lowerDomain := ToLower domain in
  let lowerVal := ToLower v in
  if HasPrefix v "+." then
    let suffix := ToLower (sdrop 2 v) in
    String.eqb lowerDomain suffix || HasSuffix lowerDomain (String "." suffix)
  else String.eqb lowerDomain lowerVal.

(** Whether a network-constrained rule of the current network type matches. *)
Definition network_rule_match (nr : networkRule) (domain : string) (ip : option bytes)
    (process protocol : string) : bool :=
  if String.eqb (nr_ruleType nr) RuleTypeDomain || String.eqb (nr_ruleType nr) RuleTypeDomainSuffix
  then negb (String.eqb domain "") && existsb (network_domain_match domain) (nr_values nr)
  else if String.eqb (nr_ruleType nr) RuleTypeIPCIDR then
    match ip with
    | None => false
    | Some a => existsb (fun v => match ParseCIDR v with
                                  | None => false
                                  | Some n => IPNet_Contains n a
                                  end) (nr_values nr)
    end
  else if String.eqb (nr_ruleType nr) RuleTypeProcess then
    negb (String.eqb process "") && existsb (fun v => EqualFold v process) (nr_values nr)
  else if String.eqb (nr_ruleType nr) RuleTypeProtocol then
    negb (String.eqb protocol "") && existsb (fun v => EqualFold v protocol) (nr_values nr)
  else false.

Definition matchNetworkRules (r : Router) (domain : string) (ip : option bytes)
    (process protocol : string) : option Action :=
  if bool_decide (networkRules r = []) || String.eqb (networkType r) "" then None
  else
    nr_action <$> List.find (fun nr =>
      String.eqb (nr_networkType nr) (networkType r) &&
      network_rule_match nr domain ip process protocol) (networkRules r).

Definition MatchDomain (r : Router) (domain : string) : list event * Action :=
  match exactDomain r !! domain_key domain with
  | Some act => (notifyDecision r act "domain", act)
  | None =>
      match Trie.Lookup (domainTrie r) domain with
      | Some act => (notifyDecision r act "domain", act)
      | None => (notifyDecision r (defaultAct r) "default", defaultAct r)
      end
  end.

Section matching.

(** The order in which Go ranges over a map, and the rule sets the providers of
    the chain currently hold. *)
Context (rangeMap : gmap string (list IPNet) -> list (string * list IPNet)).
Context (ruleSets : string -> option RuleProvider.ruleSet).

Definition MatchIP (r : Router) (ip : bytes) : list event * Action :=
  match List.find (fun rule => IPNet_Contains (cidr rule) ip) (ipRules r) with
  | Some rule => (notifyDecision r (ip_action rule) "ip-cidr", ip_action rule)
  | None =>
      if match geoIP r with
         | None => false
         | Some db => String.eqb (GeoIP.LookupCountry rangeMap db ip) "CN"
         end
      then (notifyDecision r ActionDirect "geoip", ActionDirect)
      else (notifyDecision r (defaultAct r) "default", defaultAct r)
  end.

Definition MatchProcess (r : Router) (name : string) : list event * Action :=
  match processMap r !! ToLower name with
  | Some action => (notifyDecision r action "process", action)
  | None => (notifyDecision r (defaultAct r) "default", defaultAct r)
  end.

Definition MatchProtocol (r : Router) (proto : string) : list event * Action :=
  match protocolMap r !! ToLower proto with
  | Some action => (notifyDecision r action "protocol", action)
  | None => (notifyDecision r (defaultAct r) "default", defaultAct r)
  end.

(** [DryRunResult] *)
Record DryRunResult := {
  dr_Domain : string;
  dr_Action : string;
  dr_MatchedBy : string;
  dr_Rule : string;
}.

Definition DryRun (r : Router) (domain : string) : DryRunResult :=
  let dflt := {| dr_Domain := domain; dr_Action := defaultAct r; dr_MatchedBy := "default";
                 dr_Rule := "" |} in
  if negb (String.eqb domain "") then
    match exactDomain r !! domain_key domain with
    | Some act => {| dr_Domain := domain; dr_Action := act; dr_MatchedBy := "domain_rule";
                     dr_Rule := domain |}
    | None =>
        match Trie.Lookup (domainTrie r) domain with
        | Some act => {| dr_Domain := domain; dr_Action := act; dr_MatchedBy := "domain_rule";
                         dr_Rule := domain |}
        | None => dflt
        end
    end
  else dflt.

Definition chain_env (r : Router) : RuleChain.env :=
  {| RuleChain.geoIP := geoIP r; RuleChain.geoSite := geoSite r;
     RuleChain.rangeMap := rangeMap; RuleChain.ruleSets := ruleSets |}.

(** One category of phase 3: skipped without a value, and its answer only kept
    when it differs from the default action. *)
Definition category (r : Router) (value : string) (m : string -> list event * Action)
    (rest : list event * Action) : list event * Action :=
  if negb (String.eqb value "") then
    let '(ev, action) := m value in
    if negb (String.eqb action (defaultAct r)) then (ev, action)
    else let '(ev', action') := rest in (ev ++ ev', action')
  else rest.

Definition Match (r : Router) (domain : string) (ip : option bytes) (process protocol : string)
    (port : Z) (srcIP : option bytes) : list event * Action :=
  let ctx := {| RuleChain.Domain := domain; RuleChain.CtxIP := ip; RuleChain.Port := port;
                RuleChain.SrcIP := srcIP; RuleChain.Process := process;
                RuleChain.Protocol := protocol; RuleChain.NetworkType := networkType r |} in
  match List.find (fun rule => RuleChain.rule_Match (chain_env r) rule ctx) (ruleChain r) with
  | Some rule => ([], RuleChain.action rule)
  | None =>
      match matchNetworkRules r domain ip process protocol with
      | Some action => ([], action)
      | None =>
          category r protocol (MatchProtocol r)
            (category r process (MatchProcess r)
              (category r domain (MatchDomain r)
                match ip with
                | Some a => MatchIP r a
                | None => ([], defaultAct r)
                end))
      end
  end.

End matching.

(** ** Configured rules (convert.go) *)

(** [config.RouteRule] *)
Record RouteRule := {
  rr_Domains : string;
  rr_GeoSite : string;
  rr_GeoIP : string;
  rr_Process : list string;
  rr_Protocol : string;
  rr_IPCIDR : list string;
  rr_NetworkType : string;
  rr_Action : string;
}.

Definition ConfigRuleToRouterRule (rule : RouteRule) : Rule :=
  let mk ty vs := {| Type_ := ty; Values := vs; R_Action := rr_Action rule;
                     R_NetworkType := rr_NetworkType rule |} in
  if negb (String.eqb (rr_Domains rule) "") then mk RuleTypeDomain [rr_Domains rule]
  else if negb (String.eqb (rr_GeoSite rule) "") then mk RuleTypeGeoSite [rr_GeoSite rule]
  else if negb (String.eqb (rr_GeoIP rule) "") then mk RuleTypeGeoIP [rr_GeoIP rule]
  else if (0 <? Z.of_nat (length (rr_Process rule))) then mk RuleTypeProcess (rr_Process rule)
  else if negb (String.eqb (rr_Protocol rule) "") then mk RuleTypeProtocol [rr_Protocol rule]
  else if (0 <? Z.of_nat (length (rr_IPCIDR rule))) then mk RuleTypeIPCIDR (rr_IPCIDR rule)
  else mk "" [].

(** ** Conflicts (conflict.go) *)

Record Conflict := {
  c_Domain : string;
  c_Action1 : string;
  c_Action2 : string;
  c_Rule1 : string;
  c_Rule2 : string;
}.

Definition normalizeDomain (d : string) : string :=
  ToLower (TrimSuffix (TrimPrefix d "+.") ".").

(** The domains of a rule and its description; [None] for the other kinds. *)
Definition conflict_domains (geoSite : option GeoIP.geoSiteSnapshot) (rule : Rule)
    : option (list string * string) :=
  if String.eqb (Type_ rule) RuleTypeDomain || String.eqb (Type_ rule) RuleTypeDomainSuffix then
    Some (Values rule,
          String.append (Type_ rule) (String.append ": " (Join (Values rule) ", ")))
  else if String.eqb (Type_ rule) RuleTypeGeoSite then
    Some (match geoSite with
          | None => []
          | Some db => flat_map (GeoIP.SiteLookup db) (Values rule)
          end,
          String.append "geosite: " (Join (Values rule) ", "))
  else None.

(** The state of the scan: the first entry seen per domain and the conflicts. *)
Definition scan_state : Type := gmap string (string * string) * list Conflict.

Definition scan_domain (action ruleDesc : string) (st : scan_state) (d : string) : scan_state :=
  let '(seen, conflicts) := st in
  let d := normalizeDomain d in
  match seen !! d with
  | Some (prev_action, prev_rule) =>
      if negb (String.eqb prev_action action) then
        (seen, conflicts ++ [{| c_Domain := d; c_Action1 := prev_action; c_Action2 := action;
                                c_Rule1 := prev_rule; c_Rule2 := ruleDesc |}])
      else (seen, conflicts)
  | None => (<[d := (action, ruleDesc)]> seen, conflicts)
  end.

Definition scan_rule (geoSite : option GeoIP.geoSiteSnapshot) (st : scan_state) (rule : Rule)
    : scan_state :=
  match conflict_domains geoSite rule with
  | None => st
  | Some (domains, ruleDesc) => fold_left (scan_domain (R_Action rule) ruleDesc) domains st
  end.

Definition DetectConflicts (rules : list Rule) (geoSite : option GeoIP.geoSiteSnapshot)
    : list Conflict :=
  (fold_left (scan_rule geoSite) rules (∅, [])).2.

(** ** What the maps of a router hold *)

(** A rule of the given kind without a network constraint. *)
Definition plain (ty : string) (rule : Rule) : bool :=
  String.eqb (R_NetworkType rule) "" && String.eqb (Type_ rule) ty.

Definition values_of (ty : string) (key : string -> string) (rules : list Rule)
    : list (string * Action) :=
  flat_map (fun rule => if plain ty rule
                        then map (fun v => (key v, R_Action rule)) (Values rule) else []) rules.

(** The domains the trie is filled with, in order. *)
Definition trie_values (gs : option GeoIP.geoSiteSnapshot) (rules : list Rule)
    : list (string * Action) :=
  flat_map (fun rule =>
    if plain RuleTypeDomainSuffix rule then map (fun v => (v, R_Action rule)) (Values rule)
    else if plain RuleTypeGeoSite rule then
      match gs with
      | None => []
      | Some db => map (fun d => (d, R_Action rule)) (flat_map (GeoIP.SiteLookup db) (Values rule))
      end
    else []) rules.

Definition cidr_values (rules : list Rule) : list ipRule :=
  flat_map (fun rule => if plain RuleTypeIPCIDR rule
    then omap (fun v => n ← ParseCIDR v; Some {| cidr := n; ip_action := R_Action rule |}) (Values rule)
    else []) rules.

Definition network_values (rules : list Rule) : list networkRule :=
  flat_map (fun rule => if String.eqb (R_NetworkType rule) "" then []
    else [{| nr_ruleType := Type_ rule; nr_values := Values rule; nr_action := R_Action rule;
             nr_networkType := ToLower (R_NetworkType rule) |}]) rules.

Definition insert_pairs (ps : list (string * Action)) (m : gmap string Action) : gmap string Action :=
  fold_left (fun m p => <[p.1 := p.2]> m) ps m.

(** The last value given to a key. *)
Definition assoc_last (k : string) (ps : list (string * Action)) : option Action :=
  last (omap (fun p => if String.eqb p.1 k then Some p.2 else None) ps).

Definition extend (r : Router) (rules : list Rule) : Router :=
  {| ruleChain := ruleChain r;
     exactDomain := insert_pairs (values_of RuleTypeDomain domain_key rules) (exactDomain r);
     domainTrie := Trie.insert_all (trie_values (geoSite r) rules) (domainTrie r);
     ipRules := ipRules r ++ cidr_values rules;
     processMap := insert_pairs (values_of RuleTypeProcess ToLower rules) (processMap r);
     protocolMap := insert_pairs (values_of RuleTypeProtocol ToLower rules) (protocolMap r);
     networkRules := networkRules r ++ network_values rules; geoIP := geoIP r;
     geoSite := geoSite r; defaultAct := defaultAct r; networkType := networkType r;
     decisionHook := decisionHook r |}.

Lemma fold_set_exact (key : string -> string) a vs r :
  fold_left (fun r v => set_exact r (key v) a) vs r =
  {| ruleChain := ruleChain r;
     exactDomain := insert_pairs (map (fun v => (key v, a)) vs) (exactDomain r);
     domainTrie := domainTrie r; ipRules := ipRules r; processMap := processMap r;
     protocolMap := protocolMap r; networkRules := networkRules r; geoIP := geoIP r;
     geoSite := geoSite r; defaultAct := defaultAct r; networkType := networkType r;
     decisionHook := decisionHook r |}.
Proof. revert r; induction vs as [|v vs IH]; intros r; [by destruct r|]. cbn [fold_left]. by rewrite IH. Qed.

Lemma fold_trie_insert a vs r :
  fold_left (fun r v => trie_insert r v a) vs r =
  {| ruleChain := ruleChain r; exactDomain := exactDomain r;
     domainTrie := Trie.insert_all (map (fun v => (v, a)) vs) (domainTrie r);
     ipRules := ipRules r; processMap := processMap r; protocolMap := protocolMap r;
     networkRules := networkRules r; geoIP := geoIP r; geoSite := geoSite r;
     defaultAct := defaultAct r; networkType := networkType r; decisionHook := decisionHook r |}.
Proof. revert r; induction vs as [|v vs IH]; intros r; [by destruct r|]. cbn [fold_left]. by rewrite IH. Qed.

Lemma fold_flat {A B C} (f : C -> B -> C) (g : A -> list B) l c :
  fold_left (fun c a => fold_left f (g a) c) l c = fold_left f (flat_map g l) c.
Proof. revert c; induction l as [|a l IH]; intros c; [done|]. simpl. by rewrite IH, fold_left_app. Qed.

Lemma fold_add_ipRule a vs r :
  fold_left (fun r v => match ParseCIDR v with None => r | Some n => add_ipRule r n a end) vs r =
  {| ruleChain := ruleChain r; exactDomain := exactDomain r; domainTrie := domainTrie r;
     ipRules := ipRules r ++
       omap (fun v => n ← ParseCIDR v; Some {| cidr := n; ip_action := a |}) vs;
     processMap := processMap r; protocolMap := protocolMap r; networkRules := networkRules r;
     geoIP := geoIP r; geoSite := geoSite r; defaultAct := defaultAct r;
     networkType := networkType r; decisionHook := decisionHook r |}.
Proof.
  revert r; induction vs as [|v vs IH]; intros r; [simpl; rewrite app_nil_r; by destruct r|].
  cbn [fold_left]. rewrite IH, omap_cons. destruct (ParseCIDR v); [|done].
  simpl. by rewrite <- app_assoc.
Qed.

Lemma fold_set_process a vs r :
  fold_left (fun r v => set_process r (ToLower v) a) vs r =
  {| ruleChain := ruleChain r; exactDomain := exactDomain r; domainTrie := domainTrie r;
     ipRules := ipRules r;
     processMap := insert_pairs (map (fun v => (ToLower v, a)) vs) (processMap r);
     protocolMap := protocolMap r; networkRules := networkRules r; geoIP := geoIP r;
     geoSite := geoSite r; defaultAct := defaultAct r; networkType := networkType r;
     decisionHook := decisionHook r |}.
Proof. revert r; induction vs as [|v vs IH]; intros r; [by destruct r|]. cbn [fold_left]. by rewrite IH. Qed.

Lemma fold_set_protocol a vs r :
  fold_left (fun r v => set_protocol r (ToLower v) a) vs r =
  {| ruleChain := ruleChain r; exactDomain := exactDomain r; domainTrie := domainTrie r;
     ipRules := ipRules r; processMap := processMap r;
     protocolMap := insert_pairs (map (fun v => (ToLower v, a)) vs) (protocolMap r);
     networkRules := networkRules r; geoIP := geoIP r; geoSite := geoSite r;
     defaultAct := defaultAct r; networkType := networkType r; decisionHook := decisionHook r |}.
Proof. revert r; induction vs as [|v vs IH]; intros r; [by destruct r|]. cbn [fold_left]. by rewrite IH. Qed.

Lemma addRule_extend r rule : addRule r rule = extend r [rule].
Proof.
  destruct rule as [ty vs a nt]. unfold addRule, extend, values_of, trie_values, cidr_values,
    network_values, plain. cbn [flat_map Type_ Values R_Action R_NetworkType].
  rewrite !app_nil_r.
  destruct (String.eqb_spec nt "") as [->|Hnt]; cbn [negb andb];
    [|unfold add_networkRule; simpl; by rewrite !app_nil_r].
  destruct (String.eqb_spec ty RuleTypeDomain) as [->|]; [rewrite fold_set_exact; simpl; by rewrite !app_nil_r|].
  destruct (String.eqb_spec ty RuleTypeDomainSuffix) as [->|];
    [rewrite fold_trie_insert; simpl; by rewrite !app_nil_r|].
  destruct (String.eqb_spec ty RuleTypeGeoSite) as [->|].
  { simpl. rewrite !app_nil_r. destruct r as [? ? ? ? ? ? ? ? gs ? ? ?]; simpl. destruct gs as [db|]; [|done].
    by rewrite fold_flat, fold_trie_insert. }
  destruct (String.eqb_spec ty RuleTypeGeoIP) as [->|]; [simpl; rewrite !app_nil_r; by destruct r|].
  destruct (String.eqb_spec ty RuleTypeIPCIDR) as [->|]; [rewrite fold_add_ipRule; simpl; by rewrite !app_nil_r|].
  destruct (String.eqb_spec ty RuleTypeProcess) as [->|]; [rewrite fold_set_process; simpl; by rewrite !app_nil_r|].
  destruct (String.eqb_spec ty RuleTypeProtocol) as [->|]; [rewrite fold_set_protocol; simpl; by rewrite !app_nil_r|].
  simpl. rewrite !app_nil_r. by destruct r.
Qed.

Lemma extend_cons r rule rules : extend (extend r [rule]) rules = extend r (rule :: rules).
Proof.
  unfold extend, values_of, trie_values, cidr_values, network_values, insert_pairs, Trie.insert_all.
  cbn [ruleChain exactDomain domainTrie ipRules processMap protocolMap networkRules geoIP geoSite
    defaultAct networkType decisionHook flat_map].
  by rewrite !app_nil_r, !fold_left_app, !app_assoc.
Qed.

Lemma fold_addRule rules r : fold_left addRule rules r = extend r rules.
Proof.
  revert r; induction rules as [|rule rules IH]; intros r.
  - unfold extend. simpl. rewrite !app_nil_r. by destruct r.
  - cbn [fold_left]. by rewrite IH, addRule_extend, extend_cons.
Qed.

Lemma insert_pairs_lookup ps m k :
  insert_pairs ps m !! k = or_else (assoc_last k ps) (m !! k).
Proof.
  unfold insert_pairs, assoc_last. induction ps as [|p ps IH] using rev_ind; [done|].
  rewrite fold_left_app, omap_app. cbn [fold_left]. rewrite lookup_insert.
  destruct (String.eqb_spec p.1 k) as [<-|Hne].
  - rewrite decide_True by done. cbn. rewrite (proj2 (String.eqb_eq _ _) eq_refl). by rewrite last_snoc.
  - rewrite decide_False by done. cbn. rewrite (proj2 (String.eqb_neq _ _) Hne), app_nil_r. exact IH.
Qed.

Lemma assoc_last_snoc_ne k k' ps a : k <> k' -> assoc_last k (ps ++ [(k', a)]) = assoc_last k ps.
Proof.
  intros Hne. unfold assoc_last. rewrite omap_app, omap_cons. cbn [fst].
  rewrite (proj2 (String.eqb_neq _ _) (not_eq_sym Hne)). cbn. by rewrite app_nil_r.
Qed.

(** ** The decision a configuration asks for *)

Definition first_some {A} (l : list (option A)) : option A := fold_right or_else None l.

Definition nonempty {A} (v : string) (o : option A) : option A :=
  if String.eqb v "" then None else o.

(** An answer equal to the default action is no answer. *)
Definition differs (dflt : Action) (o : option Action) : option Action :=
  a ← o; if String.eqb a dflt then None else Some a.

Section decision.

Context (rangeMap : gmap string (list IPNet) -> list (string * list IPNet)).
Context (ruleSets : string -> option RuleProvider.ruleSet).

(** The candidates in the order of their priority, read off the configured rules:
    the chain; network-constrained rules; protocol, process and domain rules,
    where the last rule for a name counts and an answer equal to the default is
    dropped; CIDR rules; and the built-in rule for CN addresses. *)
Definition config_candidates (cfg : RouterConfig) (gi : option GeoIP.geoIPSnapshot)
    (gs : option GeoIP.geoSiteSnapshot) (nt domain : string) (ip : option bytes)
    (process protocol : string) (port : Z) (srcIP : option bytes) : list (option Action) :=
  let dflt := cfg_DefaultAction (with_default cfg) in
  let rules := cfg_Rules cfg in
  let E := {| RuleChain.geoIP := gi; RuleChain.geoSite := gs; RuleChain.rangeMap := rangeMap;
              RuleChain.ruleSets := ruleSets |} in
  let ctx := {| RuleChain.Domain := domain; RuleChain.CtxIP := ip; RuleChain.Port := port;
                RuleChain.SrcIP := srcIP; RuleChain.Process := process;
                RuleChain.Protocol := protocol; RuleChain.NetworkType := nt |} in
  [ RuleChain.action <$>
      List.find (fun rule => RuleChain.rule_Match E rule ctx) (compiled_chain cfg);
    nonempty nt (nr_action <$> List.find (fun nr =>
      String.eqb (nr_networkType nr) nt && network_rule_match nr domain ip process protocol)
      (network_values rules));
    nonempty protocol (differs dflt
      (assoc_last (ToLower protocol) (values_of RuleTypeProtocol ToLower rules)));
    nonempty process (differs dflt
      (assoc_last (ToLower process) (values_of RuleTypeProcess ToLower rules)));
    nonempty domain (differs dflt (or_else
      (assoc_last (domain_key domain) (values_of RuleTypeDomain domain_key rules))
      (Trie.Lookup (Trie.insert_all (trie_values gs rules) Trie.NewDomainTrie) domain)));
    (a ← ip; ip_action <$> List.find (fun rule => IPNet_Contains (cidr rule) a) (cidr_values rules));
    (a ← ip; db ← gi;
     if String.eqb (GeoIP.LookupCountry rangeMap db a) "CN" then Some ActionDirect else None) ].

Lemma category_spec r v m o rest :
  (m v).2 = default (defaultAct r) o ->
  (category r v m rest).2 = default rest.2 (nonempty v (differs (defaultAct r) o)).
Proof.
  intros Hm. unfold category, nonempty, differs. destruct (String.eqb v ""); [done|].
  simpl. destruct (m v) as [ev a]. simpl in Hm. subst a. destruct rest as [ev' a'].
  destruct o as [b|]; simpl.
  - by destruct (String.eqb b (defaultAct r)).
  - by rewrite (proj2 (String.eqb_eq _ _) eq_refl).
Qed.

Lemma MatchDomain_spec r d :
  (MatchDomain r d).2 =
  default (defaultAct r) (or_else (exactDomain r !! domain_key d) (Trie.Lookup (domainTrie r) d)).
Proof. unfold MatchDomain. by destruct (exactDomain r !! _); [|destruct (Trie.Lookup _ _)]. Qed.

Lemma MatchProcess_spec r v : (MatchProcess r v).2 = default (defaultAct r) (processMap r !! ToLower v).
Proof. unfold MatchProcess. by destruct (processMap r !! _). Qed.

Lemma MatchProtocol_spec r v : (MatchProtocol r v).2 = default (defaultAct r) (protocolMap r !! ToLower v).
Proof. unfold MatchProtocol. by destruct (protocolMap r !! _). Qed.

Lemma MatchIP_spec r a :
  (MatchIP rangeMap r a).2 = default (defaultAct r) (or_else
    (ip_action <$> List.find (fun rule => IPNet_Contains (cidr rule) a) (ipRules r))
    (db ← geoIP r;
     if String.eqb (GeoIP.LookupCountry rangeMap db a) "CN" then Some ActionDirect else None)).
Proof.
  unfold MatchIP. destruct (List.find _ _) as [x|]; [done|]. simpl.
  destruct (geoIP r) as [db|]; [|done]. simpl.
  by destruct (String.eqb (GeoIP.LookupCountry rangeMap db a) "CN").
Qed.

Lemma network_find r domain ip process protocol :
  matchNetworkRules r domain ip process protocol =
  nonempty (networkType r) (nr_action <$> List.find (fun nr =>
    String.eqb (nr_networkType nr) (networkType r) && network_rule_match nr domain ip process protocol)
    (networkRules r)).
Proof.
  unfold matchNetworkRules, nonempty. destruct (networkRules r); simpl.
  - by destruct (String.eqb _ _).
  - done.
Qed.

Lemma Match_spec r domain ip process protocol port srcIP :
  let ctx := {| RuleChain.Domain := domain; RuleChain.CtxIP := ip; RuleChain.Port := port;
                RuleChain.SrcIP := srcIP; RuleChain.Process := process;
                RuleChain.Protocol := protocol; RuleChain.NetworkType := networkType r |} in
  (Match rangeMap ruleSets r domain ip process protocol port srcIP).2 =
  default (defaultAct r) (first_some
  [ RuleChain.action <$> List.find (fun rule =>
      RuleChain.rule_Match (chain_env rangeMap ruleSets r) rule ctx) (ruleChain r);
    matchNetworkRules r domain ip process protocol;
    nonempty protocol (differs (defaultAct r) (protocolMap r !! ToLower protocol));
    nonempty process (differs (defaultAct r) (processMap r !! ToLower process));
    nonempty domain (differs (defaultAct r)
      (or_else (exactDomain r !! domain_key domain) (Trie.Lookup (domainTrie r) domain)));
    (a ← ip; ip_action <$> List.find (fun rule => IPNet_Contains (cidr rule) a) (ipRules r));
    (a ← ip; db ← geoIP r;
     if String.eqb (GeoIP.LookupCountry rangeMap db a) "CN" then Some ActionDirect else None) ]).
Proof.
  intros ctx. unfold Match. fold ctx. unfold first_some. cbn [fold_right].
  destruct (List.find _ (ruleChain r)) as [rule|]; [done|]. cbn [fmap option_fmap option_map or_else].
  destruct (matchNetworkRules r domain ip process protocol); [done|]. cbn [or_else].
  rewrite (category_spec _ _ _ _ _ (MatchProtocol_spec r protocol)).
  destruct (nonempty protocol _); [done|]. cbn [default or_else].
  rewrite (category_spec _ _ _ _ _ (MatchProcess_spec r process)).
  destruct (nonempty process _); [done|]. cbn [default or_else].
  rewrite (category_spec _ _ _ _ _ (MatchDomain_spec r domain)).
  destruct (nonempty domain _); [done|]. cbn [default or_else].
  destruct ip as [a|]; [|done]. rewrite MatchIP_spec. cbn [mbind option_bind].
  by destruct (List.find _ (ipRules r)); [|destruct (db ← geoIP r; _)].
Qed.

End decision.

Lemma NewRouter_extend cfg gi gs :
  NewRouter cfg gi gs = extend
    {| ruleChain := compiled_chain cfg; exactDomain := ∅; domainTrie := Trie.NewDomainTrie;
       ipRules := []; processMap := ∅; protocolMap := ∅; networkRules := []; geoIP := gi;
       geoSite := gs; defaultAct := cfg_DefaultAction (with_default cfg); networkType := "";
       decisionHook := false |} (cfg_Rules cfg).
Proof.
  unfold NewRouter. rewrite fold_addRule.
  by destruct cfg as [ch rs d rp]; unfold with_default, compiled_chain; simpl; destruct (String.eqb d "").
Qed.

Lemma ToLower_nonempty s : String.eqb (ToLower s) "" = String.eqb s "".
Proof. by destruct s. Qed.

Lemma router_spec rangeMap ruleSets cfg gi gs nt domain ip process protocol port srcIP :
  (Match rangeMap ruleSets (SetNetworkType (NewRouter cfg gi gs) nt)
     domain ip process protocol port srcIP).2 =
  default (cfg_DefaultAction (with_default cfg))
    (first_some (config_candidates rangeMap ruleSets cfg gi gs (ToLower nt)
       domain ip process protocol port srcIP)).
Proof.
  rewrite Match_spec, network_find, NewRouter_extend. unfold config_candidates.
  cbn [SetNetworkType extend ruleChain exactDomain domainTrie ipRules processMap protocolMap
    networkRules geoIP geoSite defaultAct networkType app chain_env].
  rewrite !insert_pairs_lookup, !lookup_empty.
  assert (forall o : option Action, or_else o None = o) as E by (by intros []).
  by rewrite !E.
Qed.

Lemma SetNetworkType_empty cfg gi gs : SetNetworkType (NewRouter cfg gi gs) "" = NewRouter cfg gi gs.
Proof. by rewrite NewRouter_extend. Qed.

(** ** Properties *)

(** C12: the decision of a router, read off its configuration.  After [NewRouter] and
    [SetNetworkType], the action [Match] returns is the first of these answers, and
    the default action when there is none (an empty default is "proxy"):
    the first matching rule of the chain, if the chain compiles; the first matching
    rule constrained to the current network type; then, among the remaining rules,
    the last one configured for the protocol; the last one for the process; the last
    one for the exact domain, or else the trie entry that covers it; the first CIDR
    rule that contains the address; and "direct" for an address the database places
    in CN.  A protocol, process or domain rule whose action is the default action is
    passed over, so that a later category may still decide.  The comment in [Match]
    gives only the order of the categories, and the user guide says that the first
    matching rule wins: both differ from this. *)
Theorem router_refines_config rangeMap ruleSets cfg gi gs nt domain ip process protocol port srcIP :
  (Match rangeMap ruleSets (SetNetworkType (NewRouter cfg gi gs) nt)
     domain ip process protocol port srcIP).2 =
  default (cfg_DefaultAction (with_default cfg))
    (first_some (config_candidates rangeMap ruleSets cfg gi gs (ToLower nt)
       domain ip process protocol port srcIP)).
Proof. apply router_spec. Qed.

Lemma flat_map_filter {A B} (f : A -> list B) (keep : A -> bool) l :
  (forall x, keep x = false -> f x = []) -> flat_map f (List.filter keep l) = flat_map f l.
Proof.
  intros H. induction l as [|x l IH]; simpl; [done|]. destruct (keep x) eqn:Hk; simpl; rewrite IH; [done|].
  by rewrite H.
Qed.

(** Configured GeoIP rules have no effect.  A router built from a
    configuration is the router built from it without its unconstrained "geoip"
    rules, whatever country and action they name: [MatchIP] only knows the
    built-in rule that sends CN addresses to direct. *)
Theorem geoip_rules_ignored cfg gi gs :
  NewRouter {| cfg_RuleChain := cfg_RuleChain cfg;
      cfg_Rules := List.filter (fun rule => negb (plain RuleTypeGeoIP rule)) (cfg_Rules cfg);
      cfg_DefaultAction := cfg_DefaultAction cfg; cfg_RuleProviders := cfg_RuleProviders cfg |} gi gs =
  NewRouter cfg gi gs.
Proof.
  rewrite !NewRouter_extend. destruct cfg as [ch rules d rp]. cbn [cfg_Rules].
  assert (forall ty rule, plain RuleTypeGeoIP rule = true -> ty <> RuleTypeGeoIP ->
    plain ty rule = false) as Hp.
  { unfold plain. intros ty rule [H1 H2%String.eqb_eq]%andb_true_iff Hne.
    rewrite H2, andb_false_iff. right. by apply String.eqb_neq. }
  unfold extend, values_of, trie_values, cidr_values, network_values, with_default, compiled_chain.
  cbn [cfg_DefaultAction cfg_RuleChain cfg_RuleProviders].
  f_equal; rewrite ?flat_map_filter; try done;
    try (by destruct (String.eqb d "")); intros rule Hk%negb_false_iff; rewrite ?Hp by done; try done.
  by apply andb_true_iff in Hk as [-> _].
Qed.

(** A "domains" rule of the form "geosite:<category>" is an exact rule for
    that text.  Converted and added to a configuration it changes the answer for
    no domain other than the literal "geosite:<category>": the category is never
    looked up, whatever the GeoSite database holds. *)
Theorem geosite_prefix_inert rangeMap ruleSets (cfg : RouterConfig) gi gs category act domain
    ip process protocol port srcIP :
  let text := String.append "geosite:" category in
  let rule := ConfigRuleToRouterRule {| rr_Domains := text; rr_GeoSite := ""; rr_GeoIP := "";
      rr_Process := []; rr_Protocol := ""; rr_IPCIDR := []; rr_NetworkType := "";
      rr_Action := act |} in
  let cfg' := {| cfg_RuleChain := cfg_RuleChain cfg; cfg_Rules := cfg_Rules cfg ++ [rule];
      cfg_DefaultAction := cfg_DefaultAction cfg; cfg_RuleProviders := cfg_RuleProviders cfg |} in
  domain_key domain <> domain_key text ->
  (Match rangeMap ruleSets (NewRouter cfg' gi gs) domain ip process protocol port srcIP).2 =
  (Match rangeMap ruleSets (NewRouter cfg gi gs) domain ip process protocol port srcIP).2.
Proof.
  intros text rule cfg' Hne. rewrite <- (SetNetworkType_empty cfg' gi gs), <- (SetNetworkType_empty cfg gi gs), !router_spec.
  assert (cfg_DefaultAction (with_default cfg') = cfg_DefaultAction (with_default cfg)) as Hd
    by (unfold with_default; simpl; by destruct (String.eqb _ _)).
  rewrite Hd. f_equal. f_equal. unfold config_candidates. rewrite Hd. cbn [cfg' cfg_Rules].
  assert (values_of RuleTypeDomain domain_key (cfg_Rules cfg ++ [rule]) =
    values_of RuleTypeDomain domain_key (cfg_Rules cfg) ++ [(domain_key text, act)]) as ->
    by (unfold values_of; by rewrite flat_map_app).
  rewrite (assoc_last_snoc_ne _ (domain_key text)) by done.
  unfold values_of, trie_values, cidr_values, network_values. rewrite !flat_map_app. simpl.
  by rewrite !app_nil_r.
Qed.

Definition cn_sites : GeoIP.geoSiteSnapshot :=
  GeoIP.LoadCategory GeoIP.NewGeoSiteDB "cn" ["baidu.com"].
Definition demo_config : RouterConfig :=
  {| cfg_RuleChain := []; cfg_Rules := []; cfg_DefaultAction := ""; cfg_RuleProviders := ∅ |}.

Lemma geosite_prefix_inert_witness :
  GeoIP.SiteLookup cn_sites "cn" = ["baidu.com"] /\
  (Match (fun _ => []) (fun _ => None)
    (NewRouter {| cfg_RuleChain := []; cfg_DefaultAction := ""; cfg_RuleProviders := ∅;
       cfg_Rules := [{| Type_ := RuleTypeDomain; Values := ["geosite:cn"];
         R_Action := "direct"; R_NetworkType := "" |}] |} None (Some cn_sites))
    "baidu.com" None "" "" 443 None).2 = "proxy".
Proof.
  split; [vm_compute; reflexivity|].
  refine (eq_trans (geosite_prefix_inert (fun _ => []) (fun _ => None) demo_config None
    (Some cn_sites) "cn" "direct" "baidu.com" None "" "" 443 None _) _);
    [vm_compute; discriminate|vm_compute; reflexivity].
Defined.

(** A rule that says the default action does not stop the search.  When the
    process rule that matches names the default action, the connection is routed
    as if the process were unknown, so a domain or IP rule of lower priority
    still overrides it. *)
Theorem explicit_default_skipped rangeMap ruleSets r domain ip process port srcIP :
  ruleChain r = [] -> networkRules r = [] ->
  processMap r !! ToLower process = Some (defaultAct r) ->
  (Match rangeMap ruleSets r domain ip process "" port srcIP).2 =
  (Match rangeMap ruleSets r domain ip "" "" port srcIP).2.
Proof.
  intros Hc Hn Hp. rewrite !Match_spec, !network_find, Hc, Hn, Hp.
  unfold differs. simpl. rewrite (proj2 (String.eqb_eq _ _) eq_refl).
  unfold nonempty. simpl. by destruct (String.eqb process ""), (String.eqb (networkType r) "").
Qed.

(** A process pinned to the proxy and a domain sent to direct. *)
Definition pinned_router : Router :=
  NewRouter {| cfg_RuleChain := []; cfg_DefaultAction := "proxy"; cfg_RuleProviders := ∅;
    cfg_Rules := [{| Type_ := RuleTypeProcess; Values := ["ssh"]; R_Action := "proxy"; R_NetworkType := "" |};
                  {| Type_ := RuleTypeDomain; Values := ["a.com"]; R_Action := "direct"; R_NetworkType := "" |}] |}
    None None.

Lemma explicit_default_skipped_witness :
  (Match (fun _ => []) (fun _ => None) pinned_router "a.com" None "ssh" "" 22 None).2 = "direct".
Proof.
  refine (eq_trans (explicit_default_skipped (fun _ => []) (fun _ => None) pinned_router "a.com" None
    "ssh" 22 None _ _ _) _); vm_compute; reflexivity.
Defined.

(** *** Conflicts *)

(** The occurrences of domains in a list of rules: normalised domain, action and
    description of the rule. *)
Definition occurrences (gs : option GeoIP.geoSiteSnapshot) (rules : list Rule)
    : list (string * (string * string)) :=
  flat_map (fun rule => match conflict_domains gs rule with
    | None => []
    | Some (domains, desc) => map (fun d => (normalizeDomain d, (R_Action rule, desc))) domains
    end) rules.

Definition scan_occurrence (st : scan_state) (o : string * (string * string)) : scan_state :=
  match st.1 !! o.1 with
  | Some (prev_action, prev_rule) =>
      if negb (String.eqb prev_action o.2.1) then
        (st.1, st.2 ++ [{| c_Domain := o.1; c_Action1 := prev_action; c_Action2 := o.2.1;
                           c_Rule1 := prev_rule; c_Rule2 := o.2.2 |}])
      else st
  | None => (<[o.1 := o.2]> st.1, st.2)
  end.

Lemma scan_occurrences gs rules st :
  fold_left (scan_rule gs) rules st = fold_left scan_occurrence (occurrences gs rules) st.
Proof.
  revert st; induction rules as [|rule rules IH]; intros st; [done|]. unfold occurrences. simpl.
  rewrite fold_left_app, IH. unfold occurrences. f_equal. unfold scan_rule.
  destruct (conflict_domains gs rule) as [[domains desc]|]; [|done].
  revert st; induction domains as [|d domains IHd]; intros st; [done|]. simpl. rewrite IHd. f_equal.
  destruct st as [seen cs]. unfold scan_domain, scan_occurrence. simpl.
  destruct (seen !! normalizeDomain d) as [[pa pr]|]; done.
Qed.

(** The first occurrence of a domain. *)
Definition first_occ (os : list (string * (string * string))) (d : string) : option (string * string) :=
  snd <$> List.find (fun o => String.eqb o.1 d) os.

Lemma find_app {A} (f : A -> bool) l k : List.find f (l ++ k) = or_else (List.find f l) (List.find f k).
Proof. induction l as [|x l IH]; simpl; [done|]. by destruct (f x). Qed.

Lemma first_occ_app os os' d : first_occ (os ++ os') d = or_else (first_occ os d) (first_occ os' d).
Proof. unfold first_occ. rewrite find_app. by destruct (List.find _ os). Qed.

Lemma first_occ_snoc os o d :
  first_occ (os ++ [o]) d =
  match first_occ os d with Some x => Some x | None => if String.eqb o.1 d then Some o.2 else None end.
Proof.
  unfold first_occ. rewrite find_app. destruct (List.find _ os); [done|]. simpl. by destruct (String.eqb _ _).
Qed.

(** A conflict of the report, as two occurrences: the first one of its domain, and
    a later one with another action. *)
Definition conflict_of (os : list (string * (string * string))) (c : Conflict) : Prop :=
  exists pre, (pre ++ [(c_Domain c, (c_Action2 c, c_Rule2 c))]) `prefix_of` os /\
    first_occ pre (c_Domain c) = Some (c_Action1 c, c_Rule1 c) /\ c_Action1 c <> c_Action2 c.

Lemma prefix_snoc_inv {A} (pre : list A) (x o : A) os :
  (pre ++ [x]) `prefix_of` (os ++ [o]) -> (pre = os /\ x = o) \/ (pre ++ [x]) `prefix_of` os.
Proof.
  intros [k Hk]. destruct k as [|y k _] using rev_ind.
  - rewrite app_nil_r in Hk. apply app_inj_tail in Hk as [-> ->]. by left.
  - rewrite app_assoc in Hk. apply app_inj_tail in Hk as [-> _]. right. by exists k.
Qed.

Lemma scan_spec os st :
  fold_left scan_occurrence os (∅, []) = st ->
  (forall d, st.1 !! d = first_occ os d) /\ (forall c, c ∈ st.2 <-> conflict_of os c).
Proof.
  revert st; induction os as [|o os IH] using rev_ind; intros st <-.
  - split; [intros d; apply lookup_empty|]. intros c. simpl. split; [by intros ?%elem_of_nil|].
    intros (pre & [k Hk] & _). by destruct pre.
  - rewrite fold_left_app. simpl. destruct (fold_left scan_occurrence os (∅, [])) as [seen cs] eqn:Hst.
    destruct (IH _ eq_refl) as [Hseen Hcs]. simpl in Hseen, Hcs. unfold scan_occurrence. simpl.
    assert (forall c, conflict_of (os ++ [o]) c <-> conflict_of os c \/
      (c_Domain c, (c_Action2 c, c_Rule2 c)) = o /\
      first_occ os (c_Domain c) = Some (c_Action1 c, c_Rule1 c) /\ c_Action1 c <> c_Action2 c) as Hconf.
    { intros c. unfold conflict_of. split.
      - intros (pre & [[-> Ho]|Hp]%prefix_snoc_inv & H1 & H2); [right; auto|left; eauto].
      - intros [(pre & Hp & H1 & H2)|(Ho & H1 & H2)]; [exists pre|exists os].
        + split_and!; [|done..]. by apply prefix_app_r.
        + by rewrite Ho. }
    destruct o as [od [oa or]]. simpl. rewrite (Hseen od).
    destruct (first_occ os od) as [[pa pr]|] eqn:Hf; [destruct (String.eqb_spec pa oa) as [->|Hne]|];
      simpl; (split; [intros d|intros c; rewrite Hconf]).
    + rewrite Hseen, first_occ_snoc. destruct (first_occ os d) eqn:Hd; [done|]. simpl.
      destruct (String.eqb_spec od d); [congruence|done].
    + rewrite Hcs. split; [auto|]. intros [?|(He & H1 & H2)]; [done|]. destruct c. naive_solver.
    + rewrite Hseen, first_occ_snoc. destruct (first_occ os d) eqn:Hd; [done|]. simpl.
      destruct (String.eqb_spec od d); [congruence|done].
    + rewrite elem_of_app, list_elem_of_singleton, Hcs. split.
      * intros [?| ->]; [by left|right]. done.
      * intros [?|(He & H1 & H2)]; [by left|right]. destruct c. naive_solver.
    + rewrite lookup_insert, first_occ_snoc. simpl. case_decide as Hod.
      * subst. by rewrite Hf, (proj2 (String.eqb_eq _ _) eq_refl).
      * rewrite Hseen. destruct (first_occ os d); [done|]. by rewrite (proj2 (String.eqb_neq _ _) Hod).
    + rewrite Hcs. split; [auto|]. intros [?|(He & H1 & H2)]; [done|]. destruct c. naive_solver.
Qed.

Lemma first_occ_elem os d x : (d, x) ∈ os -> exists y, first_occ os d = Some y.
Proof.
  intros H%list_elem_of_In. unfold first_occ.
  destruct (List.find _ os) eqn:Hf; [eauto|]. apply (List.find_none _ _ Hf) in H. simpl in H.
  by rewrite (proj2 (String.eqb_eq _ _) eq_refl) in H.
Qed.

Lemma conflict_exists os d a1 a2 r1 r2 :
  (d, (a1, r1)) ∈ os -> (d, (a2, r2)) ∈ os -> a1 <> a2 ->
  exists c, conflict_of os c /\ c_Domain c = d.
Proof.
  intros H1 H2 Hne. destruct (first_occ_elem _ _ _ H1) as [[a0 r0] H0].
  assert (exists b r, (d, (b, r)) ∈ os /\ a0 <> b) as (b & r & Hb & Hd)
    by (destruct (String.eqb_spec a0 a1) as [->|]; eauto).
  apply list_elem_of_split in Hb as (pre & post & ->). rewrite first_occ_app in H0.
  destruct (first_occ pre d) as [[a r']|] eqn:Hpre; simplify_eq/=.
  - exists {| c_Domain := d; c_Action1 := a0; c_Action2 := b; c_Rule1 := r0; c_Rule2 := r |}.
    split; [|done]. exists pre. split_and!; [|done|done]. exists post. by rewrite <- app_assoc.
  - unfold first_occ in H0. simpl in H0. rewrite (proj2 (String.eqb_eq _ _) eq_refl) in H0. by simplify_eq/=.
Qed.

Lemma first_occ_in os d x : first_occ os d = Some x -> (d, x) ∈ os.
Proof.
  unfold first_occ. destruct (List.find _ os) as [[d' y]|] eqn:Hf; [|done]. intros [= <-].
  apply List.find_some in Hf as [Hin He%String.eqb_eq]. simpl in He. subst. by apply list_elem_of_In.
Qed.

(** Conflict detection is sound and complete.  The report consists of the
    pairs of a domain's first occurrence and a later occurrence with another
    action, after normalisation and GeoSite expansion; so a domain is reported
    exactly when it occurs with two different actions. *)
Theorem conflicts_complete rules gs :
  (forall c, c ∈ DetectConflicts rules gs <-> conflict_of (occurrences gs rules) c) /\
  (forall d, (exists c, c ∈ DetectConflicts rules gs /\ c_Domain c = d) <->
    exists a1 a2 r1 r2, (d, (a1, r1)) ∈ occurrences gs rules /\
      (d, (a2, r2)) ∈ occurrences gs rules /\ a1 <> a2).
Proof.
  unfold DetectConflicts. rewrite scan_occurrences.
  destruct (scan_spec (occurrences gs rules) _ eq_refl) as [_ Hcs]. split; [done|].
  intros d. setoid_rewrite Hcs. split.
  - intros (c & (pre & [post Hos] & H1 & H2) & <-).
    exists (c_Action1 c), (c_Action2 c), (c_Rule1 c), (c_Rule2 c). rewrite Hos. split_and!; [| |done].
    + apply first_occ_in in H1. set_solver.
    + set_solver.
  - intros (a1 & a2 & r1 & r2 & H1 & H2 & Hne). exact (conflict_exists _ _ _ _ _ _ H1 H2 Hne).
Qed.

End Router.
