(* ===== verification/FakeIP.v ===== *)
(** * Fake-IP DNS (src/router/dns/fakeip/pool.go, filter.go)

    The pool that hands out virtual addresses for domains, with its reverse map,
    and the filter of domains that bypass it.  [pool_refines_fifo] relates the
    two maps to the history of allocations. *)

From Stdlib Require Import Ascii.
From S2P Require Import Prelude GoBytes GoStrings.

Local Open Scope Z_scope.

(** ** net/netip *)

Module Netip.

(** [netip.Addr]: the zero value, an IPv4 or an IPv6 address as a number. *)
Inductive Addr := AddrZero | Addr4 (a : Z) | Addr6 (a : Z).

#[export] Instance Addr_eq_dec : EqDecision Addr.
Proof. solve_decision. Defined.

#[export] Instance Addr_countable : Countable Addr.
Proof.
  refine (inj_countable'
    (fun a => match a with AddrZero => inl () | Addr4 z => inr (inl z) | Addr6 z => inr (inr z) end)
    (fun s => match s with inl _ => AddrZero | inr (inl z) => Addr4 z | inr (inr z) => Addr6 z end) _).
  by intros [].
Defined.

(** [netip.Prefix]: a valid prefix has an address and a length; every invalid
    one is [PrefixInvalid]. *)
Inductive Prefix := PrefixInvalid | Prefix4 (a bits : Z) | Prefix6 (a bits : Z).

Definition clear_low (width bits a : Z) : Z := Z.shiftl (Z.shiftr a (width - bits)) (width - bits).

Definition Masked (p : Prefix) : Prefix :=
  match p with
  | PrefixInvalid => PrefixInvalid
  | Prefix4 a bits => Prefix4 (clear_low 32 bits a) bits
  | Prefix6 a bits => Prefix6 (clear_low 128 bits a) bits
  end.

(** [Prefix.Contains] *)
Definition Contains (p : Prefix) (ip : Addr) : bool :=
  match p, ip with
  | Prefix4 a bits, Addr4 b => Z.shiftr (Z.lxor a b) (32 - bits) =? 0
  | Prefix6 a bits, Addr6 b => Z.shiftr (Z.lxor a b) (128 - bits) =? 0
  | _, _ => false
  end.

(** [Addr.Next]: the zero address after the last one. *)
Definition Next (ip : Addr) : Addr :=
  match ip with
  | AddrZero => Addr6 1
  | Addr4 a => if a =? 2 ^ 32 - 1 then AddrZero else Addr4 (a + 1)
  | Addr6 a => if a =? 2 ^ 128 - 1 then AddrZero else Addr6 (a + 1)
  end.

End Netip.
Import Netip.

(** ** path/filepath.Match on names of bytes below 128 *)

Module Glob.

Inductive bad_pattern := ErrBadPattern.

(** [scanChunk] after the leading stars: the chunk up to the next star outside a
    range, and the rest of the pattern. *)
Fixpoint scan (inrange : bool) (p : string) : string * string :=
  match p with
  | EmptyString => (EmptyString, EmptyString)
  | String c p' =>
      if Ascii.eqb c "*" && negb inrange then (EmptyString, p)
      else if Ascii.eqb c "\" then
        match p' with
        | EmptyString => (String c EmptyString, EmptyString)
        | String c' p'' => let '(ch, r) := scan inrange p'' in (String c (String c' ch), r)
        end
      else
        let inrange := if Ascii.eqb c "[" then true else if Ascii.eqb c "]" then false else inrange in
        let '(ch, r) := scan inrange p' in (String c ch, r)
  end.

Fixpoint stars (star : bool) (p : string) : bool * string :=
  match p with
  | String "*"%char p' => stars true p'
  | _ => (star, p)
  end.

Definition scanChunk (p : string) : bool * string * string :=
  let '(star, p) := stars false p in
  let '(chunk, rest) := scan false p in
  (star, chunk, rest).

(** [getEsc]: a possibly escaped character of a range; more must follow. *)
Definition getEsc (chunk : string) : res bad_pattern (ascii * string) :=
  match chunk with
  | EmptyString => Err ErrBadPattern
  | String c r =>
      if Ascii.eqb c "-" || Ascii.eqb c "]" then Err ErrBadPattern
      else
        match (if Ascii.eqb c "\" then r else chunk) with
        | EmptyString => Err ErrBadPattern
        | String x nchunk =>
            if String.eqb nchunk "" then Err ErrBadPattern else Ok (x, nchunk)
        end
  end.

(** The loop over the ranges of a bracket: whether [r] was in one of them, and
    the chunk after the bracket.  [fuel] is the length of the chunk. *)
Fixpoint ranges (fuel : nat) (r : ascii) (nrange : nat) (matched : bool) (chunk : string)
    : res bad_pattern (bool * string) :=
  match fuel with
  | O => Err ErrBadPattern
  | S fuel =>
      match chunk, nrange with
      | String "]"%char rest, S _ => Ok (matched, rest)
      | _, _ =>
          '(lo, chunk) ← getEsc chunk;
          '(hi, chunk) ← match chunk with
                         | String "-"%char rest => getEsc rest
                         | _ => Ok (lo, chunk)
                         end;
          ranges fuel r (S nrange)
            (matched || ((code lo <=? code r) && (code r <=? code hi))) chunk
      end
  end.

(** [matchChunk]: the rest of the name, or [None] when the chunk does not match;
    a syntax error is reported even after a mismatch ([s = None]). *)
Fixpoint matchChunk (fuel : nat) (chunk : string) (s : option string)
    : res bad_pattern (option string) :=
  match fuel with
  | O => Ok s
  | S fuel =>
      match chunk with
      | EmptyString => Ok s
      | String c chunk' =>
          let s := match s with Some EmptyString => None | _ => s end in
          if Ascii.eqb c "[" then
            let r := match s with Some (String x _) => x | _ => chr 0 end in
            let s := match s with Some (String _ t) => Some t | _ => None end in
            let '(negated, chunk') :=
              match chunk' with String "^"%char t => (true, t) | _ => (false, chunk') end in
            '(matched, rest) ← ranges (S (String.length chunk')) r 0 false chunk';
            matchChunk fuel rest (if Bool.eqb matched negated then None else s)
          else if Ascii.eqb c "?" then
            matchChunk fuel chunk'
              (match s with
               | Some (String x t) => if Ascii.eqb x "/" then None else Some t
               | _ => None
               end)
          else
            match (if Ascii.eqb c "\" then chunk' else chunk) with
            | EmptyString => Err ErrBadPattern
            | String c rest =>
                matchChunk fuel rest
                  (match s with
                   | Some (String x t) => if Ascii.eqb c x then Some t else None
                   | _ => None
                   end)
            end
      end
  end.

Definition match_chunk (chunk : string) (s : string) : res bad_pattern (option string) :=
  matchChunk (S (String.length chunk)) chunk (Some s).

(** Look for the chunk after skipping one or more bytes other than "/". *)
Fixpoint skip_match (chunk : string) (last : bool) (name : string)
    : res bad_pattern (option string) :=
  match name with
  | EmptyString => Ok None
  | String c name' =>
      if Ascii.eqb c "/" then Ok None
      else
        o ← match_chunk chunk name';
        match o with
        | Some t => if last && negb (String.eqb t "") then skip_match chunk last name' else Ok (Some t)
        | None => skip_match chunk last name'
        end
  end.

(** The rest of the pattern is still checked for syntax. *)
Fixpoint check_rest (fuel : nat) (pattern : string) : res bad_pattern bool :=
  match fuel with
  | O => Ok false
  | S fuel =>
      if String.eqb pattern "" then Ok false
      else
        let '(_, chunk, pattern) := scanChunk pattern in
        _ ← match_chunk chunk "";
        check_rest fuel pattern
  end.

Fixpoint match_loop (fuel : nat) (pattern name : string) : res bad_pattern bool :=
  match fuel with
  | O => Ok false
  | S fuel =>
      if String.eqb pattern "" then Ok (String.eqb name "")
      else
        let '(star, chunk, rest) := scanChunk pattern in
        if star && String.eqb chunk "" then Ok (negb (GoStrings.Contains name "/"))
        else
          o ← match_chunk chunk name;
          match (match o with
                 | Some t => if String.eqb t "" || negb (String.eqb rest "") then Some t else None
                 | None => None
                 end) with
          | Some t => match_loop fuel rest t
          | None =>
              o ← (if star then skip_match chunk (String.eqb rest "") name else Ok None);
              match o with
              | Some t => match_loop fuel rest t
              | None => check_rest (S (String.length rest)) rest
              end
          end
  end.

(** Every round of the loops consumes a byte of the pattern. *)
Definition Match (pattern name : string) : res bad_pattern bool :=
  match_loop (S (String.length pattern)) pattern name.

Example match_star : Match "stun.*" "stun.example.com" = Ok true.
Proof. reflexivity. Qed.
Example match_inner_star : Match "time.*.com" "time.apple.com" = Ok true.
Proof. reflexivity. Qed.
Example match_inner_star_fails : Match "time.*.com" "time.apple.org" = Ok false.
Proof. reflexivity. Qed.
Example match_range : Match "ntp[0-9].[^a]?" "ntp3.xy" = Ok true.
Proof. reflexivity. Qed.
Example match_bad_range : Match "ntp[" "ntp3" = Err ErrBadPattern.
Proof. reflexivity. Qed.

End Glob.

Module FakeIP.

(** ** The filter (filter.go) *)

Record Filter := {
  exact : gset string;
  suffixes : list string;
  patterns : list string;
}.

Definition add_pattern (f : Filter) (p : string) : Filter :=
  let p := ToLower (TrimSpace p) in
  if String.eqb p "" then f
  else if HasPrefix p "+." then
    {| exact := exact f; suffixes := suffixes f ++ [sdrop 1 p]; patterns := patterns f |}
  else if ContainsAny p "*?[" then
    {| exact := exact f; suffixes := suffixes f; patterns := patterns f ++ [p] |}
  else {| exact := {[p]} ∪ exact f; suffixes := suffixes f; patterns := patterns f |}.

Definition NewFilter (ps : list string) : Filter :=
  fold_left add_pattern ps {| exact := ∅; suffixes := []; patterns := [] |}.

Definition glob_matches (pattern domain : string) : bool :=
  match Glob.Match pattern domain with Ok matched => matched | _ => false end.

Definition ShouldSkip (f : Filter) (domain : string) : bool :=
  let domain := ToLower (TrimSpace domain) in
  if String.eqb domain "" then false
  else if bool_decide (domain ∈ exact f) then true
  else if existsb (HasSuffix domain) (suffixes f) then true
  else existsb (fun pattern => glob_matches pattern domain) (patterns f).

(** ** The pool (pool.go) *)

Record PoolConfig := { CIDR : Prefix; cfg_Filter : list string }.

Record Pool := {
  prefix : Prefix;
  start : Addr;
  size : Z;
  next : Z;
  filter : Filter;
  forward : gmap string Addr;
  reverse : gmap Addr string;
}.

Inductive pool_err := InvalidCIDR | NotIPv4 | TooSmall | NoUsable.

Definition NewPool (cfg : PoolConfig) : res pool_err Pool :=
  match Masked (CIDR cfg) with
  | PrefixInvalid => Err InvalidCIDR
  | Prefix6 _ _ => Err NotIPv4
  | Prefix4 addr bits =>
      if 30 <? bits then Err TooSmall
      else
        let total := u32 (Z.shiftl 1 (32 - bits)) in
        let usable := u32 (total - 2) in
        if usable =? 0 then Err NoUsable
        else Ok {| prefix := Prefix4 addr bits; start := Next (Addr4 addr); size := usable;
                   next := 0; filter := NewFilter (cfg_Filter cfg); forward := ∅; reverse := ∅ |}
  end.

Definition ShouldFakeIP (p : Pool) (domain : string) : bool := negb (ShouldSkip (filter p) domain).

(** [addrAt]: [idx] steps from the start. *)
Definition addrAt (p : Pool) (idx : Z) : Addr := Nat.iter (Z.to_nat idx) Next (start p).

Definition Lookup (p : Pool) (domain : string) : Addr * Pool :=
  match forward p !! domain with
  | Some ip => (ip, p)
  | None =>
      let ip := addrAt p (next p) in
      let forward1 :=
        match reverse p !! ip with
        | Some old => if String.eqb old domain then forward p else delete old (forward p)
        | None => forward p
        end in
      (ip, {| prefix := prefix p; start := start p; size := size p;
              next := u32 (next p + 1) mod size p; filter := filter p;
              forward := <[domain := ip]> forward1; reverse := <[ip := domain]> (reverse p) |})
  end.

Definition Reverse (p : Pool) (ip : Addr) : option string := reverse p !! ip.

Definition IsFakeIP (p : Pool) (ip : Addr) : bool := Contains (prefix p) ip.

(** A sequence of lookups. *)
Fixpoint lookups (p : Pool) (ds : list string) : Pool :=
  match ds with
  | [] => p
  | d :: ds => lookups (Lookup p d).2 ds
  end.

(** ** The specification: a history of allocations

    A domain is live when it is among the last [n] allocations; a lookup of a
    domain that is not live allocates.  The [j]-th allocation gets the [j mod n]-th
    address. *)

Definition live (n : nat) (hist : list string) : list string := drop (length hist - n) hist.

Definition spec_lookup (n : nat) (hist : list string) (d : string) : list string :=
  if decide (d ∈ live n hist) then hist else hist ++ [d].

Definition spec_lookups (n : nat) (hist ds : list string) : list string :=
  fold_left (spec_lookup n) ds hist.

(** Allocation [j] is live and went to [d]. *)
Definition assigned (n : nat) (hist : list string) (j : nat) (d : string) : Prop :=
  (length hist - n <= j)%nat /\ hist !! j = Some d.

(** The [i]-th usable address of a network. *)
Definition slot (base : Z) (n j : nat) : Addr := Addr4 (base + 1 + Z.of_nat (j mod n)).

Record pool_state (base : Z) (n : nat) (p : Pool) (hist : list string) : Prop := {
  ps_size : size p = Z.of_nat n;
  ps_start : start p = Addr4 (base + 1);
  ps_next : next p = Z.of_nat (length hist mod n);
  ps_forward : forall d ip, forward p !! d = Some ip <->
    exists j, assigned n hist j d /\ ip = slot base n j;
  ps_reverse : forall d ip, reverse p !! ip = Some d <->
    exists j, assigned n hist j d /\ ip = slot base n j;
}.

Section proofs.

Context (base : Z) (n : nat).
Hypothesis Hbase : 0 <= base.
Hypothesis Hn : (0 < n)%nat.
Hypothesis Hfit : base + Z.of_nat n < 2 ^ 32 - 1.

Lemma Next_iter k a : 0 <= a -> a + Z.of_nat k < 2 ^ 32 -> Nat.iter k Next (Addr4 a) = Addr4 (a + Z.of_nat k).
Proof.
  intros Ha Hk. induction k as [|k IH]; [simpl; f_equal; lia|].
  rewrite Nat.iter_succ, IH by lia. unfold Next. case_match eqn:E; zb; [lia|]. f_equal. lia.
Qed.

Lemma addrAt_slot p hist : pool_state base n p hist -> addrAt p (next p) = slot base n (length hist).
Proof.
  intros [Hs Hst Hnx _ _]. unfold addrAt, slot. rewrite Hst, Hnx, Nat2Z.id.
  pose proof (Nat.mod_upper_bound (length hist) n). rewrite Next_iter by lia. done.
Qed.

Lemma mod_window a j k :
  (a <= j < a + n)%nat -> (a <= k < a + n)%nat -> (j mod n = k mod n)%nat -> j = k.
Proof.
  intros Hj Hk Hm. pose proof (Nat.div_mod j n ltac:(lia)). pose proof (Nat.div_mod k n ltac:(lia)).
  destruct (Nat.lt_trichotomy (j / n) (k / n)) as [Hlt|[He|Hlt]]; [nia|congruence|nia].
Qed.

Lemma slot_inj hist j j' d d' :
  assigned n hist j d -> assigned n hist j' d' -> slot base n j = slot base n j' -> j = j'.
Proof.
  intros [Hj Hd] [Hj' Hd'] [= H]. apply lookup_lt_Some in Hd, Hd'.
  apply (mod_window (length hist - n)); lia.
Qed.

Lemma live_assigned hist d : d ∈ live n hist <-> exists j, assigned n hist j d.
Proof.
  unfold live, assigned. rewrite list_elem_of_lookup. setoid_rewrite lookup_drop. split.
  - intros [i Hi]. eexists. split; [|exact Hi]. lia.
  - intros (j & Hj & Hd). exists (j - (length hist - n))%nat.
    by replace (length hist - n + (j - (length hist - n)))%nat with j by lia.
Qed.

Lemma assigned_snoc hist d j x :
  assigned n (hist ++ [d]) j x <->
  (j = length hist /\ x = d) \/
  (assigned n hist j x /\ slot base n j <> slot base n (length hist)).
Proof.
  unfold assigned, slot. rewrite length_app. simpl. rewrite lookup_app_Some, list_lookup_singleton_Some.
  split.
  - intros [Hj [Hx|[Hl [Hz ->]]]]; [right|left; split; [lia|done]].
    pose proof (lookup_lt_Some _ _ _ Hx). split_and!; [lia|done|]. intros [= Hsl].
    assert (j = length hist); [|lia]. apply (mod_window (length hist + 1 - n)); lia.
  - intros [[-> ->]|[[Hj Hx] Hne]]; [split; [lia|right; split; [lia|split; [lia|done]]]|].
    pose proof (lookup_lt_Some _ _ _ Hx). split; [|by left].
    destruct (decide (n <= length hist)%nat) as [Hle|]; [|lia].
    assert (j <> length hist - n)%nat; [|lia]. intros ->. apply Hne. do 3 f_equal.
    rewrite <- (Nat.Div0.mod_add (length hist - n) 1 n). f_equal. lia.
Qed.

Lemma next_wrap k : u32 (Z.of_nat (k mod n) + 1) mod Z.of_nat n = Z.of_nat (S k mod n).
Proof.
  pose proof (Nat.mod_upper_bound k n). rewrite u32_small by lia.
  replace (Z.of_nat (k mod n) + 1) with (Z.of_nat (S (k mod n))) by lia.
  rewrite <- Nat2Z.inj_mod. f_equal. change (S (k mod n)) with (1 + k mod n)%nat.
  change (S k) with (1 + k)%nat. apply Nat.Div0.add_mod_idemp_r.
Qed.

(** Dropping the previous owner of the next slot removes exactly that slot. *)
Lemma evict_forward p hist d x ip :
  pool_state base n p hist -> (forall x j, assigned n hist j x -> x <> d) ->
  (match reverse p !! slot base n (length hist) with
   | Some old => if String.eqb old d then forward p else delete old (forward p)
   | None => forward p end) !! x = Some ip <->
  forward p !! x = Some ip /\ ip <> slot base n (length hist).
Proof.
  intros [_ _ _ Hf Hr] Hold.
  destruct (reverse p !! slot base n (length hist)) as [old|] eqn:Ho.
  - apply Hr in Ho as (k & Hk & Hkl). pose proof (Hold _ _ Hk) as Hod.
    rewrite (proj2 (String.eqb_neq _ _) Hod), lookup_delete_Some, Hkl.
    assert (forward p !! old = Some (slot base n k)) as Hfo by (apply Hf; eauto).
    split; intros [H1 H2]; [|split; [|done]; intros ->; congruence]. split; [done|]. intros ->.
    apply Hf in H2 as (j & Hj & He).
    apply (slot_inj hist k j old x Hk Hj) in He as <-.
    destruct Hj as [_ Hj], Hk as [_ Hk]. congruence.
  - split; [|tauto]. intros H1. split; [done|]. intros ->. apply Hf in H1 as (j & Hj & He).
    assert (reverse p !! slot base n (length hist) = Some x) by (apply Hr; eauto). congruence.
Qed.

Lemma Lookup_state p hist d :
  pool_state base n p hist ->
  pool_state base n (Lookup p d).2 (spec_lookup n hist d) /\
  forward (Lookup p d).2 !! d = Some (Lookup p d).1.
Proof.
  intros Hp. pose proof Hp as [Hs Hst Hnx Hf Hr]. unfold Lookup, spec_lookup.
  destruct (forward p !! d) as [ip|] eqn:Hd.
  - apply Hf in Hd as Hj. destruct Hj as (j & Hj & ->). rewrite decide_True; [done|].
    apply live_assigned. eauto.
  - assert (d ∉ live n hist) as Hnl.
    { rewrite live_assigned. intros [j Hj].
      assert (forward p !! d = Some (slot base n j)) by (apply Hf; eauto). congruence. }
    rewrite decide_False by done. rewrite (addrAt_slot _ _ Hp). cbn [fst snd forward].
    split; [|by rewrite lookup_insert, decide_True].
    assert (forall x j, assigned n hist j x -> x <> d) as Hold
      by (intros x j Hj ->; apply Hnl, live_assigned; eauto).
    split; cbn [size start next forward reverse]; [done|done| | |].
    + rewrite Hs, Hnx, next_wrap, length_app. do 2 f_equal. simpl. lia.
    + intros x ip. setoid_rewrite assigned_snoc. rewrite lookup_insert. case_decide as Hx.
      * subst x. split; [intros [= <-]; exists (length hist); auto|].
        intros (j & [[-> _]|[Hj _]] & ->); [done|]. by apply Hold in Hj.
      * rewrite (evict_forward _ _ _ _ _ Hp Hold), Hf. split.
        -- intros [(j & Hj & ->) Hne]. exists j. auto.
        -- intros (j & [[-> ->]|[Hj Hne]] & ->); [done|eauto].
    + intros x ip. setoid_rewrite assigned_snoc. rewrite lookup_insert. case_decide as Hx.
      * subst ip. split; [intros [= <-]; exists (length hist); auto|].
        intros (j & [[-> ->]|[Hj Hne]] & He); [done|congruence].
      * rewrite Hr. split.
        -- intros (j & Hj & ->). exists j. auto.
        -- intros (j & [[-> ->]|[Hj Hne]] & ->); [done|eauto].
Qed.

Lemma lookups_state p hist ds :
  pool_state base n p hist -> pool_state base n (lookups p ds) (spec_lookups n hist ds).
Proof.
  unfold spec_lookups. revert p hist; induction ds as [|d ds IH]; intros p hist Hp; [done|].
  simpl. apply IH. by apply Lookup_state.
Qed.

End proofs.

(** ** Properties *)

Definition pool_n (bits : Z) : nat := Z.to_nat (2 ^ (32 - bits) - 2).

Lemma clear_low_range bits a :
  0 <= bits <= 32 -> 0 <= a < 2 ^ 32 ->
  exists k, clear_low 32 bits a = k * 2 ^ (32 - bits) /\ 0 <= k < 2 ^ bits.
Proof.
  intros Hb Ha. exists (a / 2 ^ (32 - bits)). unfold clear_low.
  rewrite Z.shiftr_div_pow2, Z.shiftl_mul_pow2 by lia. split; [done|].
  pose proof (Z.pow_pos_nonneg 2 (32 - bits)). split; [apply Z.div_pos; lia|].
  apply Z.div_lt_upper_bound; [lia|]. rewrite <- Z.pow_add_r by lia.
  replace (32 - bits + bits) with 32 by lia. lia.
Qed.

Lemma NewPool_state bits a fs p :
  0 <= bits -> 0 <= a < 2 ^ 32 ->
  NewPool {| CIDR := Prefix4 a bits; cfg_Filter := fs |} = Ok p ->
  bits <= 30 /\ prefix p = Prefix4 (clear_low 32 bits a) bits /\
  (0 < pool_n bits)%nat /\ clear_low 32 bits a + Z.of_nat (pool_n bits) < 2 ^ 32 - 1 /\
  pool_state (clear_low 32 bits a) (pool_n bits) p [].
Proof.
  intros Hb Ha. unfold NewPool. cbn [CIDR cfg_Filter Masked].
  destruct (Z.ltb_spec 30 bits) as [|Hle]; [done|].
  destruct (clear_low_range bits a ltac:(lia) Ha) as (k & Hk & Hk0).
  assert (4 <= 2 ^ (32 - bits) <= 2 ^ 32) as Hpow
    by (split; [change 4 with (2 ^ 2)|]; apply Z.pow_le_mono_r; lia).
  assert (2 ^ (32 - bits) * 2 ^ bits = 2 ^ 32) as Hmul
    by (rewrite <- Z.pow_add_r by lia; f_equal; lia).
  assert (clear_low 32 bits a + 2 ^ (32 - bits) <= 2 ^ 32) as Hlast by nia.
  assert (u32 (u32 (Z.shiftl 1 (32 - bits)) - 2) = 2 ^ (32 - bits) - 2) as ->.
  { rewrite Z.shiftl_1_l. unfold u32. rewrite Zminus_mod_idemp_l. apply Z.mod_small. lia. }
  destruct (Z.eqb_spec (2 ^ (32 - bits) - 2) 0); [lia|]. intros [= <-]. unfold pool_n.
  split_and!; [done|done|lia|lia|]. split; cbn [size start next forward reverse].
  - lia.
  - unfold Next. destruct (Z.eqb_spec (clear_low 32 bits a) (2 ^ 32 - 1)); [lia|done].
  - by rewrite Nat.Div0.mod_0_l.
  - intros d ip. rewrite lookup_empty. split; [done|]. by intros (j & [_ Hj] & _).
  - intros d ip. rewrite lookup_empty. split; [done|]. by intros (j & [_ Hj] & _).
Qed.

Lemma Contains_low bits a r :
  0 <= bits <= 32 -> 0 <= a < 2 ^ 32 -> 0 <= r < 2 ^ (32 - bits) ->
  Contains (Prefix4 (clear_low 32 bits a) bits) (Addr4 (clear_low 32 bits a + r)) = true.
Proof.
  intros Hb Ha Hr. destruct (clear_low_range bits a Hb Ha) as (k & -> & Hk). unfold Contains.
  apply Z.eqb_eq. rewrite Z.shiftr_lxor, !Z.shiftr_div_pow2 by lia.
  rewrite Z.div_mul, Z.add_comm, Z.div_add, Z.div_small by lia. apply Z.lxor_nilpotent.
Qed.

(** The prefix never changes. *)
Lemma lookups_prefix p ds : prefix (lookups p ds) = prefix p.
Proof.
  revert p; induction ds as [|d ds IH]; intros p; [done|]. simpl. rewrite IH.
  unfold Lookup. by destruct (forward p !! d).
Qed.

(** C19: the fake-IP pool is a first-in first-out window over its allocations (the
    comments of pool.go call it LRU: a lookup of a live domain does not renew it).
    After any sequence of lookups on a new pool of an IPv4 network with [n]
    usable addresses, the reverse map holds exactly the last [n] allocations, the
    [j]-th of them at the [j mod n]-th usable address; a lookup of a domain that
    is among them changes nothing; every lookup returns an address of the network
    that maps back to the domain. *)
Theorem pool_refines_fifo a bits fs p ds d :
  0 <= bits -> 0 <= a < 2 ^ 32 ->
  NewPool {| CIDR := Prefix4 a bits; cfg_Filter := fs |} = Ok p ->
  let base := clear_low 32 bits a in
  let n := pool_n bits in
  let hist := spec_lookups n [] ds in
  let q := lookups p ds in
  (forall ip, Reverse q ip = Some d <-> exists j, assigned n hist j d /\ ip = slot base n j) /\
  (d ∈ live n hist -> (Lookup q d).2 = q) /\
  Reverse (Lookup q d).2 (Lookup q d).1 = Some d /\
  IsFakeIP q (Lookup q d).1 = true.
Proof.
  intros Hb Ha Hnew base n hist q.
  destruct (NewPool_state _ _ _ _ Hb Ha Hnew) as (Hle & Hpre & Hn & Hfit & Hst).
  destruct (clear_low_range bits a ltac:(lia) Ha) as (k & Hk & Hk0).
  assert (0 <= base) as Hbase by (subst base; pose proof (Z.pow_nonneg 2 (32 - bits)); nia).
  apply (lookups_state _ _ Hbase Hn Hfit _ _ ds) in Hst. fold hist in Hst. fold q in Hst.
  destruct (Lookup_state _ _ Hbase Hn Hfit _ _ d Hst) as [Hst' Hfd].
  split_and!.
  - intros ip. apply (ps_reverse _ _ _ _ Hst).
  - intros Hl. apply live_assigned in Hl as [j Hj]; [|done]. unfold Lookup.
    assert (forward q !! d = Some (slot base n j)) as ->; [|done].
    apply (ps_forward _ _ _ _ Hst). by exists j.
  - apply (ps_reverse _ _ _ _ Hst'). by apply (ps_forward _ _ _ _ Hst').
  - apply (ps_forward _ _ _ _ Hst') in Hfd as (j & Hj & ->). unfold IsFakeIP.
    subst q. rewrite lookups_prefix, Hpre. unfold slot. fold base.
    rewrite <- Z.add_assoc. apply Contains_low; [lia|done|].
    pose proof (Nat.mod_upper_bound j n). unfold n, pool_n in *. lia.
Qed.

(** 198.18.0.0/30: two usable addresses. *)
Definition demo_pool_cfg : PoolConfig :=
  {| CIDR := Prefix4 3323068416 30; cfg_Filter := ["+.lan"; "stun.*"] |}.

Lemma pool_refines_fifo_witness :
  exists p, NewPool demo_pool_cfg = Ok p /\
  Reverse (Lookup (lookups p ["a"; "b"; "a"; "c"]) "b").2
    (Lookup (lookups p ["a"; "b"; "a"; "c"]) "b").1 = Some "b".
Proof.
  eexists. split; [vm_compute; reflexivity|].
  refine (proj1 (proj2 (proj2 (pool_refines_fifo 3323068416 30 ["+.lan"; "stun.*"] _
    ["a"; "b"; "a"; "c"] "b" _ _ _)))); [lia|lia|vm_compute; reflexivity].
Defined.

Lemma spec_lookups_fresh n ds hist :
  NoDup (hist ++ ds) -> spec_lookups n hist ds = hist ++ ds.
Proof.
  unfold spec_lookups. revert hist; induction ds as [|d ds IH]; intros hist Hnd; simpl;
    [by rewrite app_nil_r|].
  unfold spec_lookup at 2. rewrite decide_False.
  - rewrite IH; rewrite <- app_assoc; done.
  - intros Hin. apply (subseteq_drop _ _ d) in Hin. apply NoDup_app in Hnd as (_ & Hd & _). apply (Hd d Hin). left.
Qed.

(** Eviction follows the order of allocation, not of use.  Fill a pool of [n]
    addresses with [n] domains, look the first one up again, and ask for one new
    domain: the address just returned for the first domain now belongs to the new
    one. *)
Theorem fakeip_evicts_recent a bits fs p d ds x :
  0 <= bits -> 0 <= a < 2 ^ 32 ->
  NewPool {| CIDR := Prefix4 a bits; cfg_Filter := fs |} = Ok p ->
  NoDup (x :: d :: ds) -> length (d :: ds) = pool_n bits ->
  let q := lookups p (d :: ds) in
  let '(ip, q') := Lookup q d in
  Reverse q ip = Some d /\ Reverse (Lookup q' x).2 ip = Some x.
Proof.
  intros Hb Ha Hnew Hnd Hlen q. set (n := pool_n bits) in *.
  destruct (NewPool_state _ _ _ _ Hb Ha Hnew) as (Hle & Hpre & Hn & Hfit & Hst).
  destruct (clear_low_range bits a ltac:(lia) Ha) as (k & Hk & Hk0).
  assert (0 <= clear_low 32 bits a) as Hbase by (pose proof (Z.pow_nonneg 2 (32 - bits)); nia).
  apply (lookups_state _ _ Hbase Hn Hfit _ _ (d :: ds)) in Hst. fold q in Hst.
  apply NoDup_cons in Hnd as [Hx Hnd]. rewrite (spec_lookups_fresh _ (d :: ds) []) in Hst by done.
  simpl app in Hst. fold n in Hst.
  assert (assigned n (d :: ds) 0 d) as H0 by (split; [lia|done]).
  assert (forward q !! d = Some (slot (clear_low 32 bits a) n 0)) as Hf
    by (apply (ps_forward _ _ _ _ Hst); eauto).
  unfold Lookup at 1. rewrite Hf. split; [apply (ps_reverse _ _ _ _ Hst); eauto|].
  destruct (Lookup_state _ _ Hbase Hn Hfit _ _ x Hst) as [Hst' _]. fold n in Hst'.
  unfold spec_lookup in Hst'. rewrite decide_False in Hst'.
  - apply (ps_reverse _ _ _ _ Hst'). exists n. split.
    + split; [rewrite length_app; simpl in *; lia|]. rewrite <- Hlen. by apply list_lookup_middle.
    + unfold slot. by rewrite Nat.Div0.mod_same, Nat.Div0.mod_0_l.
  - unfold live. rewrite Hlen, Nat.sub_diag. done.
Qed.

Lemma fakeip_evicts_recent_witness :
  exists p, NewPool demo_pool_cfg = Ok p /\
  let '(ip, q') := Lookup (lookups p ["a"; "b"]) "a" in
  Reverse (lookups p ["a"; "b"]) ip = Some "a" /\ Reverse (Lookup q' "c").2 ip = Some "c".
Proof.
  eexists. split; [vm_compute; reflexivity|].
  apply (fakeip_evicts_recent 3323068416 30 ["+.lan"; "stun.*"] _ "a" ["b"] "c");
    [lia|lia|vm_compute; reflexivity| |vm_compute; reflexivity].
  apply (bool_decide_eq_true_1 _). vm_compute. reflexivity.
Defined.

(** What one filter pattern covers. *)
Definition pattern_covers (d p : string) : bool :=
  let p := ToLower (TrimSpace p) in
  let d := ToLower (TrimSpace d) in
  negb (String.eqb p "") && negb (String.eqb d "") &&
  (if HasPrefix p "+." then HasSuffix d (sdrop 1 p)
   else if ContainsAny p "*?[" then glob_matches p d
   else String.eqb d p).

Lemma add_pattern_skip f p d :
  ShouldSkip (add_pattern f p) d = ShouldSkip f d || pattern_covers d p.
Proof.
  unfold ShouldSkip, pattern_covers, add_pattern.
  set (dd := ToLower (TrimSpace d)). set (pp := ToLower (TrimSpace p)).
  destruct (String.eqb dd "") eqn:Hd; [by rewrite andb_false_r|].
  destruct (String.eqb pp "") eqn:Hp; [by rewrite orb_false_r|]. cbn [negb andb].
  destruct (HasPrefix pp "+."); [|destruct (ContainsAny pp "*?[")]; cbn [exact suffixes patterns];
    rewrite ?existsb_app; cbn [existsb]; rewrite ?orb_false_r.
  - destruct (bool_decide _); [done|].
    by destruct (existsb (HasSuffix dd) (suffixes f)), (HasSuffix dd (sdrop 1 pp)),
      (existsb (fun q => glob_matches q dd) (patterns f)).
  - destruct (bool_decide _); [done|].
    by destruct (existsb (HasSuffix dd) (suffixes f)),
      (existsb (fun q => glob_matches q dd) (patterns f)), (glob_matches pp dd).
  - destruct (String.eqb_spec dd pp) as [->|Hne].
    + rewrite bool_decide_eq_true_2 by set_solver. by rewrite orb_true_r.
    + rewrite (bool_decide_ext (dd ∈ {[pp]} ∪ exact f) (dd ∈ exact f)) by set_solver.
      by rewrite orb_false_r.
Qed.

(** The filter covers the union of its patterns.  A domain bypasses the pool
    exactly when one of the configured patterns covers it: as a "+." suffix, as a
    glob, or exactly; case and surrounding blanks do not matter, and an empty
    domain never matches. *)
Theorem filter_covers ps d : ShouldSkip (NewFilter ps) d = existsb (pattern_covers d) ps.
Proof.
  unfold NewFilter. induction ps as [|p ps IH] using rev_ind.
  - unfold ShouldSkip. simpl. by case_match.
  - rewrite fold_left_app, existsb_app. simpl. by rewrite add_pattern_skip, IH, orb_false_r.
Qed.

End FakeIP.
