(* ===== verification/Replay.v ===== *)
(** * Replay protection (src/crypto/replay.go)

    The cuckoo filter that remembers nonces and the two-generation replay filter
    on top of it.  Random choices are arguments of the operations that draw them,
    and the clock is an argument of the operations that read it (nanoseconds). *)

From S2P Require Import Prelude GoBytes.

Local Open Scope Z_scope.

Module Replay.

(** ** The cuckoo filter *)

Definition bucketSize : nat := 4.
Definition maxKicks : nat := 500.
Definition defaultCap : Z := 2 ^ 20.

(** [cuckooFilter]: the array of buckets is kept sparse, an absent index is a
    bucket of zeros. *)
Record cuckooFilter := {
  buckets : gmap Z (list Z);
  count : Z;
  numBuckets : Z;
}.

Definition empty_bucket : list Z := replicate bucketSize 0.
Definition bucket_at (cf : cuckooFilter) (idx : Z) : list Z :=
  default empty_bucket (buckets cf !! idx).
Definition set_bucket (cf : cuckooFilter) (idx : Z) (b : list Z) : cuckooFilter :=
  {| buckets := <[idx := b]> (buckets cf); count := count cf; numBuckets := numBuckets cf |}.
Definition count_up (cf : cuckooFilter) : cuckooFilter :=
  {| buckets := buckets cf; count := count cf + 1; numBuckets := numBuckets cf |}.

Definition nextPow2 (v : Z) : Z :=
  let v := u32 (v - 1) in
  let v := Z.lor v (Z.shiftr v 1) in
  let v := Z.lor v (Z.shiftr v 2) in
  let v := Z.lor v (Z.shiftr v 4) in
  let v := Z.lor v (Z.shiftr v 8) in
  let v := Z.lor v (Z.shiftr v 16) in
  u32 (v + 1).

Definition newCuckooFilter (capacity : Z) : cuckooFilter :=
  let n := u32 (Z.quot capacity (Z.of_nat bucketSize)) in
  let n := if n =? 0 then 1024 else n in
  {| buckets := ∅; count := 0; numBuckets := nextPow2 n |}.

Definition fingerprint (x : Z) : Z :=
  let fp := Z.lxor (Z.lxor (Z.lxor (Z.lxor (u8 (Z.shiftr x 32)) (u8 (Z.shiftr x 24)))
                     (u8 (Z.shiftr x 16))) (u8 (Z.shiftr x 8))) (u8 x) in
  if fp =? 0 then 1 else fp.

Definition index1 (cf : cuckooFilter) (x : Z) : Z := Z.land (u32 x) (u32 (numBuckets cf - 1)).

Definition index2 (cf : cuckooFilter) (i1 fp : Z) : Z :=
  let hash := u32 (fp * 1540483477) in
  Z.land (Z.lxor i1 hash) (u32 (numBuckets cf - 1)).

Definition bucketContains (cf : cuckooFilter) (idx fp : Z) : bool :=
  existsb (fun b => b =? fp) (bucket_at cf idx).

Definition Lookup (cf : cuckooFilter) (x : Z) : bool :=
  let fp := fingerprint x in
  let i1 := index1 cf x in
  let i2 := index2 cf i1 fp in
  bucketContains cf i1 fp || bucketContains cf i2 fp.

(** The first empty slot of a bucket takes the fingerprint. *)
Fixpoint fill (b : list Z) (fp : Z) : option (list Z) :=
  match b with
  | [] => None
  | x :: b => if x =? 0 then Some (fp :: b) else cons x <$> fill b fp
  end.

Definition bucketInsert (cf : cuckooFilter) (idx fp : Z) : option cuckooFilter :=
  set_bucket cf idx <$> fill (bucket_at cf idx) fp.

(** The eviction loop with [k] rounds left; [draw] gives the slot of each round. *)
Fixpoint kick (k : nat) (draw : nat -> nat) (cf : cuckooFilter) (idx fp : Z) : cuckooFilter * bool :=
  match k with
  | O => (cf, false)
  | S k =>
      let slot := draw k in
      let b := bucket_at cf idx in
      let cf := set_bucket cf idx (<[slot := fp]> b) in
      let fp := default 0 (b !! slot) in
      let idx := index2 cf idx fp in
      match bucketInsert cf idx fp with
      | Some cf => (count_up cf, true)
      | None => kick k draw cf idx fp
      end
  end.

(** [Insert]: [coin] is whether [rand.IntN(2)] is 0. *)
Definition Insert (cf : cuckooFilter) (x : Z) (coin : bool) (draw : nat -> nat)
    : cuckooFilter * bool :=
  let fp := fingerprint x in
  let i1 := index1 cf x in
  let i2 := index2 cf i1 fp in
  match bucketInsert cf i1 fp with
  | Some cf => (count_up cf, true)
  | None =>
      match bucketInsert cf i2 fp with
      | Some cf => (count_up cf, true)
      | None => kick maxKicks draw cf (if coin then i2 else i1) fp
      end
  end.

(** ** The replay filter *)

Record ReplayFilter := {
  current : cuckooFilter;
  previous : cuckooFilter;
  window : Z;
  lastSwap : Z;
  capacity : Z;
}.

Definition NewReplayFilter (w now : Z) : ReplayFilter :=
  let w := if w =? 0 then 120 * 10 ^ 9 else w in
  {| current := newCuckooFilter defaultCap; previous := newCuckooFilter defaultCap;
     window := w; lastSwap := now; capacity := defaultCap |}.

Definition maybeSwap (rf : ReplayFilter) (now : Z) : ReplayFilter :=
  if now - lastSwap rf <? Z.quot (window rf) 2 then rf
  else {| current := newCuckooFilter (capacity rf); previous := current rf;
          window := window rf; lastSwap := now; capacity := capacity rf |}.

(** What one call draws: the time it runs at and its random choices. *)
Record call := { at_time : Z; coin : bool; draw : nat -> nat }.

(** [Check]: the verdict, the new state, and whether the insertion it may have
    made succeeded (the code ignores that result). *)
Definition Check_full (rf : ReplayFilter) (nonce : Z) (c : call) : bool * ReplayFilter * bool :=
  let rf := maybeSwap rf (at_time c) in
  if Lookup (current rf) nonce || Lookup (previous rf) nonce then (true, rf, true)
  else
    let '(cur, ok) := Insert (current rf) nonce (coin c) (draw c) in
    (false, {| current := cur; previous := previous rf; window := window rf;
               lastSwap := lastSwap rf; capacity := capacity rf |}, ok).

Definition Check (rf : ReplayFilter) (nonce : Z) (c : call) : bool * ReplayFilter :=
  (Check_full rf nonce c).1.

(** FNV-1a on 64 bits *)
Definition fnv64a (data : bytes) : Z :=
  fold_left (fun h b => u64 (Z.lxor h (Z_of_byte b) * 1099511628211)) data 14695981039346656037.

Definition CheckBytes (rf : ReplayFilter) (nonce : bytes) (c : call) : bool * ReplayFilter :=
  match nonce with
  | [] => (false, rf)
  | _ => Check rf (fnv64a nonce) c
  end.

Definition Size (rf : ReplayFilter) : Z := count (current rf) + count (previous rf).

(** ** Indices *)

(** A table whose size is a power of two of at most 32 bits, with full buckets. *)
Record wf (cf : cuckooFilter) : Prop := {
  wf_pow : exists k, 0 <= k < 32 /\ numBuckets cf = 2 ^ k;
  wf_len : forall i, length (bucket_at cf i) = bucketSize;
}.

Lemma wf_mask cf : wf cf -> exists k, 0 <= k < 32 /\ numBuckets cf = 2 ^ k /\
  u32 (numBuckets cf - 1) = Z.ones k.
Proof.
  intros [(k & Hk & Hn) _]. exists k. split_and!; [lia..|done|]. rewrite Hn, Z.ones_equiv.
  assert (1 <= 2 ^ k < 2 ^ 32); [|apply u32_small; lia].
  split; [change 1 with (2 ^ 0); apply Z.pow_le_mono_r|apply Z.pow_lt_mono_r]; lia.
Qed.

Lemma index_range cf x : wf cf -> 0 <= Z.land x (u32 (numBuckets cf - 1)) < numBuckets cf.
Proof.
  intros (k & Hk & Hn & ->)%wf_mask. rewrite Z.land_ones, Hn by lia.
  apply Z.mod_pos_bound. apply Z.pow_pos_nonneg; lia.
Qed.

(** Going to the other bucket twice comes back. *)
Lemma index2_involutive cf i fp :
  wf cf -> 0 <= i < numBuckets cf -> index2 cf (index2 cf i fp) fp = i.
Proof.
  intros (k & Hk & Hn & Hm)%wf_mask Hi. unfold index2. rewrite Hm. set (h := u32 (fp * _)).
  rewrite Hn in Hi.
  assert (Z.land i (Z.ones k) = i) as Hid by (rewrite Z.land_ones, Z.mod_small by lia; done).
  rewrite <- Hid at 2. apply Z.bits_inj'. intros b Hb.
  rewrite !Z.land_spec, !Z.lxor_spec, !Z.land_spec, !Z.lxor_spec.
  by destruct (Z.testbit i b), (Z.testbit h b), (Z.testbit (Z.ones k) b).
Qed.

(** ** No false negatives *)

(** [fp] sits in one of the two buckets reached from [i]. *)
Definition holds (cf : cuckooFilter) (i fp : Z) : Prop :=
  fp ∈ bucket_at cf i \/ fp ∈ bucket_at cf (index2 cf i fp).

(** Items are pairs of a bucket and a fingerprint; the fingerprint in hand during
    an eviction belongs to bucket [idx] or its mate. *)
Definition in_hand (cf : cuckooFilter) (idx hand i fp : Z) : Prop :=
  fp = hand /\ (i = idx \/ index2 cf i fp = idx).

Lemma Lookup_holds cf x : Lookup cf x = true <-> holds cf (index1 cf x) (fingerprint x).
Proof.
  unfold Lookup, holds, bucketContains. rewrite orb_true_iff, !existsb_exists.
  setoid_rewrite Z.eqb_eq. setoid_rewrite <- list_elem_of_In. naive_solver.
Qed.

Lemma fill_elem b fp b' : fill b fp = Some b' -> fp ∈ b' /\ length b' = length b /\
  (forall y, y <> 0 -> y ∈ b -> y ∈ b').
Proof.
  revert b'; induction b as [|x b IH]; intros b'; simpl; [done|].
  destruct (Z.eqb_spec x 0) as [->|Hx].
  - intros [= <-]. split_and!; [left|done|]. intros y Hy [->|?]%elem_of_cons; [done|by right].
  - destruct (fill b fp) as [b1|]; [|done]. intros [= <-].
    destruct (IH _ eq_refl) as (H1 & H2 & H3). split_and!; [by right|simpl; lia|].
    intros y Hy [->|?]%elem_of_cons; [left|right; auto].
Qed.

Lemma bucket_at_set cf i b j : bucket_at (set_bucket cf i b) j = if decide (i = j) then b else bucket_at cf j.
Proof. unfold bucket_at, set_bucket. simpl. rewrite lookup_insert. by case_decide. Qed.

Lemma wf_set cf i b : wf cf -> length b = bucketSize -> wf (set_bucket cf i b).
Proof. intros [Hp Hl] Hb. split; [done|]. intros j. rewrite bucket_at_set. by case_decide. Qed.

Lemma wf_count cf : wf cf -> wf (count_up cf).
Proof. by intros [? ?]. Qed.

Lemma bucketInsert_spec cf idx fp cf' :
  wf cf -> bucketInsert cf idx fp = Some cf' ->
  wf cf' /\ numBuckets cf' = numBuckets cf /\ fp ∈ bucket_at cf' idx /\
  (forall y j, y <> 0 -> y ∈ bucket_at cf j -> y ∈ bucket_at cf' j).
Proof.
  intros Hwf. unfold bucketInsert. destruct (fill _ _) as [b|] eqn:Hf; [|done]. intros [= <-].
  apply fill_elem in Hf as (H1 & H2 & H3). split_and!.
  - apply wf_set; [done|]. rewrite H2. apply Hwf.
  - done.
  - by rewrite bucket_at_set, decide_True.
  - intros y j Hy Hin. rewrite bucket_at_set. case_decide; [subst|]; auto.
Qed.

Lemma index2_num cf cf' i fp : numBuckets cf = numBuckets cf' -> index2 cf i fp = index2 cf' i fp.
Proof. unfold index2. by intros ->. Qed.

(** The swap of one round: an item found before is found after it, or is the one
    now in hand at its other bucket. *)
Lemma swap_spec cf idx hand slot i fp :
  wf cf -> (slot < bucketSize)%nat -> fp <> 0 ->
  0 <= i < numBuckets cf -> 0 <= idx < numBuckets cf ->
  let b := bucket_at cf idx in
  let cf1 := set_bucket cf idx (<[slot := hand]> b) in
  let out := default 0 (b !! slot) in
  holds cf i fp \/ in_hand cf idx hand i fp ->
  holds cf1 i fp \/ in_hand cf1 (index2 cf1 idx out) out i fp.
Proof.
  intros Hwf Hslot Hfp Hi Hidx b cf1 out Hin.
  assert (length b = bucketSize) as Hlen by apply Hwf.
  assert (forall j y, y ∈ bucket_at cf j -> y ∈ bucket_at cf1 j \/ (j = idx /\ y = out)) as Hkeep.
  { intros j y Hy. unfold cf1. rewrite bucket_at_set. case_decide as Hj; [subst j|by left].
    apply list_elem_of_lookup in Hy as [k Hk]. fold b in Hk.
    destruct (decide (k = slot)) as [->|Hne]; [right; unfold out; by rewrite Hk|left].
    apply (list_elem_of_lookup_2 _ k). by rewrite list_lookup_insert_ne. }
  assert (hand ∈ bucket_at cf1 idx) as Hhand.
  { unfold cf1. rewrite bucket_at_set, decide_True by done. apply (list_elem_of_lookup_2 _ slot).
    apply list_lookup_insert_eq. lia. }
  assert (forall j, index2 cf1 j fp = index2 cf j fp) as Hix by (intros j; by apply index2_num).
  assert (wf cf1) as Hwf1 by (apply wf_set; [done|by rewrite length_insert]).
  unfold holds, in_hand in *. rewrite !Hix. destruct Hin as [[Hin|Hin]|[-> [->|He]]].
  - apply Hkeep in Hin as [?|[-> ->]]; [auto|]. right. split; [done|]. right. by rewrite <- Hix.
  - apply Hkeep in Hin as [?|[He ->]]; [auto|]. right. split; [done|]. left.
    rewrite <- He, <- Hix, index2_involutive; done.
  - auto.
  - left. right. by rewrite He.
Qed.

Lemma hold_insert cf idx hand cf' i fp :
  wf cf -> fp <> 0 -> bucketInsert cf idx hand = Some cf' ->
  holds cf i fp \/ in_hand cf idx hand i fp -> holds (count_up cf') i fp.
Proof.
  intros Hwf Hfp Hins. destruct (bucketInsert_spec _ _ _ _ Hwf Hins) as (_ & Hn & Hin & Hmono).
  unfold holds, in_hand. rewrite (index2_num (count_up cf') cf) by done.
  change (bucket_at (count_up cf')) with (bucket_at cf'). intros [[H|H]|[-> [->|He]]]; auto.
  right. by rewrite He.
Qed.

(** The eviction loop keeps every item, but for the one in hand when it gives up. *)
Lemma kick_spec k draw cf idx hand :
  wf cf -> (forall j, (draw j < bucketSize)%nat) -> 0 <= idx < numBuckets cf ->
  let '(cf', ok) := kick k draw cf idx hand in
  wf cf' /\ numBuckets cf' = numBuckets cf /\
  exists lost_idx lost_fp, forall i fp, fp <> 0 -> 0 <= i < numBuckets cf ->
    holds cf i fp \/ in_hand cf idx hand i fp ->
    holds cf' i fp \/ (ok = false /\ in_hand cf' lost_idx lost_fp i fp).
Proof.
  intros Hwf Hdraw. revert cf idx hand Hwf; induction k as [|k IH]; intros cf idx hand Hwf Hidx; simpl.
  - split_and!; [done|done|]. exists idx, hand. naive_solver.
  - set (b := bucket_at cf idx). set (cf1 := set_bucket cf idx (<[draw k := hand]> b)).
    set (out := default 0 (b !! draw k)).
    assert (wf cf1) as Hwf1 by (apply wf_set; [done|rewrite length_insert; apply Hwf]).
    assert (forall i fp, fp <> 0 -> 0 <= i < numBuckets cf ->
      holds cf i fp \/ in_hand cf idx hand i fp ->
      holds cf1 i fp \/ in_hand cf1 (index2 cf1 idx out) out i fp) as Hswap
      by (intros i fp Hfp Hi; apply swap_spec; auto).
    destruct (bucketInsert cf1 (index2 cf1 idx out) out) as [cf2|] eqn:Hins.
    + destruct (bucketInsert_spec _ _ _ _ Hwf1 Hins) as (Hwf2 & Hn & _).
      split_and!; [by apply wf_count|done|]. exists 0, 0. intros i fp Hfp Hi H. left.
      eapply hold_insert; [exact Hwf1|exact Hfp|exact Hins|by apply Hswap].
    + specialize (IH cf1 (index2 cf1 idx out) out Hwf1 (index_range _ _ Hwf1)).
      destruct (kick k draw cf1 _ out) as [cf' ok]. destruct IH as (Hwf' & Hn & li & lf & Hall).
      split_and!; [done|done|]. exists li, lf. intros i fp Hfp Hi H. apply Hall; auto.
Qed.

Lemma fingerprint_nonzero x : fingerprint x <> 0.
Proof. unfold fingerprint. case_match eqn:E; zb; [done|done]. Qed.

Lemma index1_num cf cf' x : numBuckets cf = numBuckets cf' -> index1 cf x = index1 cf' x.
Proof. unfold index1. by intros ->. Qed.

Lemma Insert_spec cf x coin draw :
  wf cf -> (forall j, (draw j < bucketSize)%nat) ->
  let '(cf', ok) := Insert cf x coin draw in
  wf cf' /\ numBuckets cf' = numBuckets cf /\
  exists lost_idx lost_fp, forall y, Lookup cf y = true \/ y = x ->
    Lookup cf' y = true \/
    (ok = false /\ in_hand cf' lost_idx lost_fp (index1 cf' y) (fingerprint y)).
Proof.
  intros Hwf Hdraw. unfold Insert. set (fp := fingerprint x). set (i1 := index1 cf x).
  set (i2 := index2 cf i1 fp).
  assert (0 <= i1 < numBuckets cf) as Hi1 by by apply index_range.
  assert (0 <= i2 < numBuckets cf) as Hi2 by by apply index_range.
  assert (forall y idx, idx = i1 \/ idx = i2 -> Lookup cf y = true \/ y = x ->
    holds cf (index1 cf y) (fingerprint y) \/ in_hand cf idx fp (index1 cf y) (fingerprint y)) as Hstart.
  { intros y idx Hidx [H| ->]; [left; by apply Lookup_holds|right]. split; [done|]. fold i1.
    destruct Hidx as [->| ->]; auto. }
  assert (forall idx cf', idx = i1 \/ idx = i2 -> bucketInsert cf idx fp = Some cf' ->
    wf (count_up cf') /\ numBuckets (count_up cf') = numBuckets cf /\
    exists lost_idx lost_fp, forall y, Lookup cf y = true \/ y = x ->
      Lookup (count_up cf') y = true \/ (true = false /\
        in_hand (count_up cf') lost_idx lost_fp (index1 (count_up cf') y) (fingerprint y))) as Hdone.
  { intros idx cf' Hidx Hins. destruct (bucketInsert_spec _ _ _ _ Hwf Hins) as (Hwf' & Hn & _).
    split_and!; [by apply wf_count|done|]. exists 0, 0. intros y Hy. left. apply Lookup_holds.
    rewrite (index1_num (count_up cf') cf) by done.
    eapply hold_insert; [exact Hwf|apply fingerprint_nonzero|exact Hins|by apply Hstart]. }
  destruct (bucketInsert cf i1 fp) as [cf1|] eqn:H1; [by apply (Hdone i1); auto|].
  destruct (bucketInsert cf i2 fp) as [cf2|] eqn:H2; [by apply (Hdone i2); auto|].
  assert (0 <= (if coin then i2 else i1) < numBuckets cf) as Hidx by by destruct coin.
  pose proof (kick_spec maxKicks draw cf (if coin then i2 else i1) fp Hwf Hdraw Hidx) as Hk.
  destruct (kick _ _ _ _ _) as [cf' ok]. destruct Hk as (Hwf' & Hn & li & lf & Hall).
  split_and!; [done|done|]. exists li, lf. intros y Hy. rewrite Lookup_holds, (index1_num cf' cf) by done.
  apply Hall; [apply fingerprint_nonzero|by apply index_range|].
  apply Hstart; [destruct coin; auto|done].
Qed.

(** ** Table sizes *)

(** Bit [i] of [x] is set when one of the bits [i .. i+w-1] of [v] is. *)
Definition smeared (v x w : Z) : Prop :=
  forall i, 0 <= i -> Z.testbit x i = true <-> exists j, i <= j < i + w /\ Z.testbit v j = true.

Lemma smeared_step v x w : 0 <= w -> smeared v x w -> smeared v (Z.lor x (Z.shiftr x w)) (2 * w).
Proof.
  intros Hw Hx i Hi. rewrite Z.lor_spec, orb_true_iff, Z.shiftr_spec by lia.
  rewrite (Hx i), (Hx (i + w)) by lia. split.
  - intros [(j & Hj & Hb)|(j & Hj & Hb)]; exists j; (split; [lia|done]).
  - intros (j & Hj & Hb). destruct (Z.lt_ge_cases j (i + w)); [left|right]; exists j; (split; [lia|done]).
Qed.

Lemma smeared_ones v x : 0 < v < 2 ^ 32 -> smeared v x 32 -> x = Z.ones (Z.log2 v + 1).
Proof.
  intros Hv Hx. pose proof (Z.log2_nonneg v).
  assert (Z.log2 v < 32) as Hl by (apply Z.log2_lt_pow2; lia).
  apply Z.bits_inj'. intros i Hi. apply eq_true_iff_eq. rewrite (Hx i), Z.testbit_ones_nonneg by lia.
  rewrite Z.ltb_lt. split.
  - intros (j & Hj & Hb). destruct (Z.lt_ge_cases i (Z.log2 v + 1)) as [|Hge]; [done|].
    rewrite Z.bits_above_log2 in Hb; [done|lia|lia].
  - intros Hlt. exists (Z.log2 v). split; [lia|]. apply Z.bit_log2; lia.
Qed.

Lemma nextPow2_log2 v : 1 <= v <= 2 ^ 31 -> nextPow2 v = 2 ^ Z.log2_up v.
Proof.
  intros Hv. unfold nextPow2. rewrite (u32_small (v - 1)) by lia. set (m := v - 1).
  set (x1 := Z.lor m (Z.shiftr m 1)). set (x2 := Z.lor x1 (Z.shiftr x1 2)).
  set (x3 := Z.lor x2 (Z.shiftr x2 4)). set (x4 := Z.lor x3 (Z.shiftr x3 8)).
  set (x5 := Z.lor x4 (Z.shiftr x4 16)).
  destruct (Z.eq_dec v 1) as [->|Hne]; [reflexivity|].
  assert (smeared m m 1) as H0.
  { intros i Hi. split; [intros H; exists i; split; [lia|done]|].
    intros (j & Hj & Hb). by replace i with j by lia. }
  apply smeared_step in H0; [|lia]. do 4 (apply smeared_step in H0; [simpl Z.mul in H0|lia]).
  assert (x5 = Z.ones (Z.log2 m + 1)) as -> by (apply smeared_ones; [lia|exact H0]).
  rewrite Z.ones_equiv. assert (0 <= Z.log2 m < 31) as Hl.
  { split; [apply Z.log2_nonneg|]. apply Z.log2_lt_pow2; lia. }
  assert (2 ^ (Z.log2 m + 1) <= 2 ^ 31) by (apply Z.pow_le_mono_r; lia).
  assert (0 < 2 ^ (Z.log2 m + 1)) by (apply Z.pow_pos_nonneg; lia).
  rewrite u32_small by lia. unfold Z.log2_up. destruct (Z.compare_spec 1 v) as [|Hlt|]; [lia| |lia].
  replace (Z.pred v) with m by lia. rewrite <- Z.add_1_r. lia.
Qed.

Lemma newCuckooFilter_wf cap : 0 <= cap < 2 ^ 33 -> wf (newCuckooFilter cap).
Proof.
  intros Hc. split; [|intros i; unfold bucket_at; simpl; by rewrite lookup_empty].
  unfold newCuckooFilter. simpl numBuckets. change (Z.of_nat bucketSize) with 4.
  rewrite Z.quot_div_nonneg by lia.
  assert (0 <= cap / 4 < 2 ^ 31) as Hq by (split; [apply Z.div_pos|apply Z.div_lt_upper_bound]; lia).
  rewrite (u32_small (cap / 4)) by lia.
  set (n := if cap / 4 =? 0 then 1024 else cap / 4).
  assert (1 <= n <= 2 ^ 31) as Hn by (unfold n; case_match eqn:E; zb; lia).
  rewrite nextPow2_log2 by done. exists (Z.log2_up n). split; [|done].
  split; [apply Z.log2_up_nonneg|]. assert (Z.log2_up n <= 31); [|lia].
  rewrite <- (Z.log2_up_pow2 31) by lia. apply Z.log2_up_le_mono; lia.
Qed.

Lemma newCuckooFilter_empty cap x : Lookup (newCuckooFilter cap) x = false.
Proof.
  apply not_true_iff_false. rewrite Lookup_holds. unfold holds, bucket_at. simpl. rewrite !lookup_empty.
  pose proof (fingerprint_nonzero x) as Hfp.
  by intros [[H _]%elem_of_replicate|[H _]%elem_of_replicate].
Qed.

(** ** Properties *)

(** The cuckoo filter has no false negatives.  Whatever it draws, an
    insertion that succeeds makes its nonce found and keeps every nonce found
    that was found before; an insertion that gives up after the last eviction
    loses at most the nonces that share one fingerprint and one pair of buckets. *)
Theorem cuckoo_no_false_negatives cf x coin draw :
  wf cf -> (forall j, (draw j < bucketSize)%nat) ->
  let '(cf', ok) := Insert cf x coin draw in
  wf cf' /\
  exists lost_idx lost_fp, forall y, Lookup cf y = true \/ y = x ->
    Lookup cf' y = true \/
    (ok = false /\ fingerprint y = lost_fp /\
     (index1 cf' y = lost_idx \/ index2 cf' (index1 cf' y) (fingerprint y) = lost_idx)).
Proof.
  intros Hwf Hdraw. pose proof (Insert_spec cf x coin draw Hwf Hdraw) as H.
  destruct (Insert cf x coin draw) as [cf' ok]. destruct H as (Hwf' & _ & li & lf & H).
  split; [done|]. by exists li, lf.
Qed.

Lemma cuckoo_no_false_negatives_witness :
  let '(cf', ok) := Insert (newCuckooFilter 16) 7 true (fun _ => 2%nat) in
  wf cf' /\
  exists lost_idx lost_fp, forall y, Lookup (newCuckooFilter 16) y = true \/ y = 7 ->
    Lookup cf' y = true \/
    (ok = false /\ fingerprint y = lost_fp /\
     (index1 cf' y = lost_idx \/ index2 cf' (index1 cf' y) (fingerprint y) = lost_idx)).
Proof.
  apply (cuckoo_no_false_negatives (newCuckooFilter 16) 7 true (fun _ => 2%nat)).
  - apply newCuckooFilter_wf. lia.
  - intros _. unfold bucketSize. lia.
Defined.

(** The table size is the next power of two.  The bit-smearing routine
    computes the least power of two that is not below its argument. *)
Theorem nextPow2_correct v : 1 <= v <= 2 ^ 31 ->
  nextPow2 v = 2 ^ Z.log2_up v /\ v <= nextPow2 v /\ (1 < v -> nextPow2 v < 2 * v).
Proof.
  intros Hv. rewrite nextPow2_log2 by done. split; [done|].
  destruct (Z.eq_dec v 1) as [->|Hne]; [by split|].
  pose proof (Z.log2_up_spec v ltac:(lia)) as [H1 H2]. split; [done|]. intros _.
  pose proof (Z.log2_up_pos v ltac:(lia)).
  replace (Z.log2_up v) with (Z.succ (Z.pred (Z.log2_up v))) by lia. rewrite Z.pow_succ_r by lia. lia.
Qed.

Lemma nextPow2_correct_witness :
  1 <= 262144 <= 2 ^ 31 /\
  (nextPow2 262144 = 2 ^ Z.log2_up 262144 /\ 262144 <= nextPow2 262144 /\
   (1 < 262144 -> nextPow2 262144 < 2 * 262144)).
Proof. split; [lia|]. apply nextPow2_correct. lia. Defined.

(** *** The replay window *)

(** A sequence of checks: the final state and whether every insertion succeeded. *)
Fixpoint run (rf : ReplayFilter) (cs : list (Z * call)) : ReplayFilter * bool :=
  match cs with
  | [] => (rf, true)
  | (nonce, c) :: cs =>
      let '(_, rf1, ok) := Check_full rf nonce c in
      let '(rf2, oks) := run rf1 cs in
      (rf2, ok && oks)
  end.

Record wf_rf (rf : ReplayFilter) : Prop := {
  wf_current : wf (current rf);
  wf_previous : wf (previous rf);
  wf_capacity : 0 <= capacity rf < 2 ^ 33;
}.

Definition draws_ok (c : call) : Prop := forall j, (draw c j < bucketSize)%nat.

Lemma maybeSwap_wf rf now : wf_rf rf -> wf_rf (maybeSwap rf now).
Proof.
  intros [Hc Hp Hcap]. unfold maybeSwap. case_match; [done|]. by split; [apply newCuckooFilter_wf|..].
Qed.

Lemma maybeSwap_window rf now : window (maybeSwap rf now) = window rf.
Proof. unfold maybeSwap. by case_match. Qed.

Lemma NewReplayFilter_wf w now : wf_rf (NewReplayFilter w now).
Proof. split; [apply newCuckooFilter_wf; done..|done]. Qed.

Section window.

Context (n t0 w : Z).

(** The nonce is in the current generation, or in the previous one and the last
    swap was not before [t0]. *)
Definition remembered (rf : ReplayFilter) : Prop :=
  Lookup (current rf) n = true \/ (Lookup (previous rf) n = true /\ t0 <= lastSwap rf).

Lemma maybeSwap_remembered rf now :
  window rf = w -> t0 <= now < t0 + Z.quot w 2 -> remembered rf -> remembered (maybeSwap rf now).
Proof.
  intros Hw Ht Hr. unfold maybeSwap. rewrite Hw. destruct (Z.ltb_spec (now - lastSwap rf) (Z.quot w 2)); [done|].
  unfold remembered in *. cbn [current previous lastSwap]. destruct Hr as [Hr|[Hr Hs]]; [|lia].
  right. split; [done|lia].
Qed.

Lemma Check_remembered rf x c v rf' :
  wf_rf rf -> draws_ok c -> window rf = w -> t0 <= at_time c < t0 + Z.quot w 2 ->
  remembered rf -> Check_full rf x c = (v, rf', true) ->
  wf_rf rf' /\ window rf' = w /\ remembered rf'.
Proof.
  intros Hwf Hd Hw Ht Hr. unfold Check_full.
  pose proof (maybeSwap_wf rf (at_time c) Hwf) as Hwf1.
  pose proof (maybeSwap_remembered rf (at_time c) Hw Ht Hr) as Hr1.
  pose proof (maybeSwap_window rf (at_time c)) as Hw1. rewrite Hw in Hw1.
  set (rf1 := maybeSwap rf (at_time c)) in *. destruct Hwf1 as [Hc Hp Hcap].
  destruct (Lookup (current rf1) x || Lookup (previous rf1) x); [by intros [= <- <-]|].
  pose proof (Insert_spec (current rf1) x (coin c) (draw c) Hc Hd) as HI.
  destruct (Insert _ _ _ _) as [cur ok]. destruct HI as (Hwf' & _ & li & lf & Hall).
  intros [= <- <- ->]. split_and!; [by split|done|]. unfold remembered in *. cbn [current previous lastSwap].
  destruct Hr1 as [Hr1|Hr1]; [left|by right].
  destruct (Hall n (or_introl Hr1)) as [?|[? _]]; done.
Qed.

Lemma run_remembered cs rf rf' :
  wf_rf rf -> window rf = w ->
  Forall (fun '(_, c) => draws_ok c /\ t0 <= at_time c < t0 + Z.quot w 2) cs ->
  remembered rf -> run rf cs = (rf', true) -> window rf' = w /\ remembered rf'.
Proof.
  revert rf; induction cs as [|[x c] cs IH]; intros rf Hwf Hw Hcs Hr; simpl; [by intros [= <-]|].
  apply Forall_cons in Hcs as [[Hd Ht] Hcs].
  destruct (Check_full rf x c) as [[v rf1] ok] eqn:Hc. destruct (run rf1 cs) as [rf2 oks] eqn:Hrun.
  intros [= <- [-> ->]%andb_true_iff].
  destruct (Check_remembered _ _ _ _ _ Hwf Hd Hw Ht Hr Hc) as (Hwf1 & Hw1 & Hr1). by apply (IH rf1).
Qed.

End window.

(** C35: an accepted nonce is refused for half the window.  When a check accepts a
    nonce and its insertion succeeds, every later check of that nonce within half
    the window answers "replayed", whatever other nonces were checked in between,
    as long as their insertions succeeded. *)
Theorem replay_detected rf n c0 rf1 cs rf2 c1 :
  wf_rf rf -> draws_ok c0 ->
  Check_full rf n c0 = (false, rf1, true) ->
  Forall (fun '(_, c) => draws_ok c /\ at_time c0 <= at_time c < at_time c0 + Z.quot (window rf) 2) cs ->
  run rf1 cs = (rf2, true) ->
  at_time c0 <= at_time c1 < at_time c0 + Z.quot (window rf) 2 ->
  (Check rf2 n c1).1 = true.
Proof.
  intros Hwf Hd Hc Hcs Hrun Ht.
  assert (wf_rf rf1 /\ window rf1 = window rf /\ Lookup (current rf1) n = true) as (Hwf1 & Hw1 & Hin).
  { unfold Check_full in Hc. pose proof (maybeSwap_wf rf (at_time c0) Hwf) as [Hcw Hpw Hcap].
    pose proof (maybeSwap_window rf (at_time c0)) as Hw.
    destruct (_ || _); [done|].
    pose proof (Insert_spec _ n (coin c0) (draw c0) Hcw Hd) as HI.
    destruct (Insert _ _ _ _) as [cur ok]. destruct HI as (Hwf' & _ & li & lf & Hall).
    injection Hc as <- ->. split_and!; [by split|done|]. simpl.
    destruct (Hall n (or_intror eq_refl)) as [?|[? _]]; done. }
  destruct (run_remembered n (at_time c0) (window rf) cs rf1 rf2 Hwf1 Hw1 Hcs (or_introl Hin) Hrun)
    as [Hw2 Hr].
  apply (maybeSwap_remembered n (at_time c0) (window rf) _ _ Hw2 Ht) in Hr.
  unfold Check, Check_full. set (rf3 := maybeSwap rf2 (at_time c1)) in *.
  assert (Lookup (current rf3) n || Lookup (previous rf3) n = true) as ->; [|done].
  apply orb_true_iff. destruct Hr as [?|[? _]]; auto.
Qed.

Definition call_at (t : Z) : call := {| at_time := t; coin := true; draw := fun _ => 0%nat |}.

Lemma call_at_ok t : draws_ok (call_at t).
Proof. intros j. unfold bucketSize. simpl. lia. Qed.

Lemma replay_detected_witness :
  exists rf1 rf2, Check_full (NewReplayFilter 120 0) 7 (call_at 50) = (false, rf1, true) /\
  run rf1 [(8, call_at 60); (9, call_at 100)] = (rf2, true) /\
  (Check rf2 7 (call_at 109)).1 = true.
Proof.
  do 2 eexists. split; [vm_compute; reflexivity|]. split; [vm_compute; reflexivity|].
  eapply (replay_detected (NewReplayFilter 120 0) 7 (call_at 50) _ [(8, call_at 60); (9, call_at 100)] _
    (call_at 109)).
  - apply NewReplayFilter_wf.
  - apply call_at_ok.
  - vm_compute. reflexivity.
  - repeat constructor; (apply call_at_ok || by vm_compute).
  - vm_compute. reflexivity.
  - split; by vm_compute.
Defined.

Lemma Check_unknown rf n c rf1 :
  maybeSwap rf (at_time c) = rf1 -> Lookup (current rf1) n = false -> Lookup (previous rf1) n = false ->
  Check rf n c =
  (false, {| current := (Insert (current rf1) n (coin c) (draw c)).1; previous := previous rf1;
             window := window rf1; lastSwap := lastSwap rf1; capacity := capacity rf1 |}).
Proof.
  intros <- Hc Hp. unfold Check, Check_full. rewrite Hc, Hp. simpl. by destruct (Insert _ _ _ _).
Qed.

(** Decide a swap by arithmetic. *)
Ltac decide_swap :=
  unfold maybeSwap; cbn [lastSwap window current previous capacity at_time call_at];
  repeat case_match; zb; try lia; reflexivity.

(** Half the window is all that is guaranteed.  For every window there is a
    schedule of three checks in which a nonce is accepted, and accepted again
    less than a full window later: one swap in between forgets nothing, the
    second one forgets the generation the nonce was in. *)
Theorem replay_accepted_within_window w : 4 <= w ->
  let rf0 := NewReplayFilter w 0 in
  let t0 := Z.quot w 2 - 1 in
  let t2 := 2 * Z.quot w 2 in
  let '(v0, rf1) := Check rf0 7 (call_at t0) in
  let '(v1, rf2) := Check rf1 8 (call_at (Z.quot w 2)) in
  let '(v2, _) := Check rf2 7 (call_at t2) in
  v0 = false /\ v2 = false /\ t2 - t0 < w.
Proof.
  intros Hw rf0 t0 t2. pose proof (Z.quot_rem w 2 ltac:(lia)). pose proof (Z.rem_bound_pos w 2 ltac:(lia) ltac:(lia)).
  pose (gen m := (Insert (newCuckooFilter defaultCap) m true (fun _ => 0%nat)).1).
  unfold rf0, NewReplayFilter. rewrite (proj2 (Z.eqb_neq w 0)) by lia.
  rewrite (Check_unknown _ 7 (call_at t0)
    {| current := newCuckooFilter defaultCap; previous := newCuckooFilter defaultCap;
       window := w; lastSwap := 0; capacity := defaultCap |}); [|decide_swap|apply newCuckooFilter_empty..].
  cbn [current previous window lastSwap capacity coin draw call_at]. fold (gen 7).
  rewrite (Check_unknown _ 8 (call_at (Z.quot w 2))
    {| current := newCuckooFilter defaultCap; previous := gen 7;
       window := w; lastSwap := Z.quot w 2; capacity := defaultCap |});
    [|decide_swap|apply newCuckooFilter_empty|vm_compute; reflexivity].
  cbn [current previous window lastSwap capacity coin draw call_at]. fold (gen 8).
  rewrite (Check_unknown _ 7 (call_at t2)
    {| current := newCuckooFilter defaultCap; previous := gen 8;
       window := w; lastSwap := t2; capacity := defaultCap |});
    [|decide_swap|apply newCuckooFilter_empty|vm_compute; reflexivity].
  split_and!; [done|done|lia].
Qed.

Lemma replay_accepted_within_window_witness :
  4 <= 120 /\
  (let rf0 := NewReplayFilter 120 0 in
   let t0 := Z.quot 120 2 - 1 in
   let t2 := 2 * Z.quot 120 2 in
   let '(v0, rf1) := Check rf0 7 (call_at t0) in
   let '(v1, rf2) := Check rf1 8 (call_at (Z.quot 120 2)) in
   let '(v2, _) := Check rf2 7 (call_at t2) in
   v0 = false /\ v2 = false /\ t2 - t0 < 120).
Proof. split; [lia|]. apply (replay_accepted_within_window 120). lia. Defined.

End Replay.
