(* ===== verification/Signal.v ===== *)
(** * The mesh signalling protocol (src/mesh/signal/protocol.go)

    Messages, and the codecs of their payloads.  Decoders index and slice like the
    code does, so an out-of-range access is a [Panic]. *)

From S2P Require Import Prelude GoBytes GoStrings GoNet.

Local Open Scope Z_scope.

Module Signal.

(** ** Messages *)

Definition SignalCandidate := 1.
Definition SignalConnect := 4.
Definition SignalConnectAck := 5.
Definition SignalDisconnect := 6.
Definition SignalPing := 7.
Definition SignalPong := 8.
Definition SignalICERestart := 9.
Definition SignalTrickleCandidate := 10.
Definition SignalEndOfCandidates := 11.
Definition SignalWebRTCOffer := 16.
Definition SignalWebRTCAnswer := 17.
Definition SignalWebRTCICECandidate := 18.
Definition SignalError := 255.

Definition MaxSignalPayload := 4096.
Definition HeaderSize := 11.

(** [Message]; a nil IP or payload is the empty slice. *)
Record Message := {
  Type_ : Z;
  SrcVIP : bytes;
  DstVIP : bytes;
  Payload : bytes;
}.

(** [copy(buf[a:a+4], ip.To4())] into zeroed memory. *)
Definition vip (ip : bytes) : bytes := default (go_make 4) (To4 ip).

Definition Encode (m : Message) : bytes :=
  byte_of_Z (Type_ m) :: vip (SrcVIP m) ++ vip (DstVIP m) ++ put16 (u16 (blen (Payload m))) ++ Payload m.

Inductive signal_err :=
| TooShort
| PayloadTooLarge
| Truncated
| EmptyCandidates
| MissingField.

Definition Decode (data : bytes) : res signal_err Message :=
  if blen data <? HeaderSize then Err TooShort
  else
    t ← go_index data 0;
    src ← go_slice data 1 5;
    dst ← go_slice data 5 9;
    l ← go_slice data 9 11;
    payloadLen ← get16 l;
    if MaxSignalPayload <? payloadLen then Err PayloadTooLarge
    else
      let expectedLen := HeaderSize + payloadLen in
      if blen data <? expectedLen then Err Truncated
      else
        p ← (if 0 <? payloadLen then go_slice data HeaderSize expectedLen else Ok []);
        Ok {| Type_ := t; SrcVIP := src; DstVIP := dst; Payload := p |}.

(** ** Candidates *)

(** [CandidateInfo]; the foundation never travels, and the related port only with a
    related address. *)
Record CandidateInfo := {
  c_Type : Z;
  c_IP : bytes;
  c_Port : Z;
  c_Priority : Z;
  c_Foundation : string;
  c_RelatedIP : option bytes;
  c_RelatedPort : Z;
}.

Definition CandidateInfoSize := 11.

Definition EncodeCandidate (c : CandidateInfo) : bytes :=
  byte_of_Z (c_Type c) :: vip (c_IP c) ++ put16 (c_Port c) ++ put32 (c_Priority c) ++
  match c_RelatedIP c with
  | Some ip => vip ip ++ put16 (c_RelatedPort c)
  | None => []
  end.

Definition DecodeCandidate (data : bytes) : res signal_err CandidateInfo :=
  if blen data <? CandidateInfoSize then Err TooShort
  else
    t ← go_index data 0;
    p ← go_slice data 5 7;
    port ← get16 p;
    q ← go_slice data 7 11;
    prio ← get32 q;
    ip ← go_slice data 1 5;
    rel ← (if 17 <=? blen data then
             rip ← go_slice data 11 15;
             rp ← go_slice data 15 17;
             rport ← get16 rp;
             Ok (Some rip, rport)
           else Ok (None, 0));
    Ok {| c_Type := t; c_IP := ip; c_Port := port; c_Priority := prio; c_Foundation := "";
          c_RelatedIP := rel.1; c_RelatedPort := rel.2 |}.

Definition EncodeCandidates (candidates : list CandidateInfo) : bytes :=
  match candidates with
  | [] => []
  | _ => byte_of_Z (Z.of_nat (length candidates)) ::
         flat_map (fun c => let encoded := EncodeCandidate c in
                            byte_of_Z (blen encoded) :: encoded) candidates
  end.

(** The loop of [DecodeCandidates]: [n] rounds left, a candidate that does not
    decode leaves the offset after its length byte. *)
Fixpoint decode_candidates (n : nat) (data : bytes) (offset : Z) (acc : list CandidateInfo)
    : res signal_err (list CandidateInfo) :=
  match n with
  | O => Ok acc
  | S n =>
      if blen data <=? offset then Ok acc
      else
        candidateLen ← go_index data offset;
        let offset := offset + 1 in
        if blen data <? offset + candidateLen then Ok acc
        else
          d ← go_slice data offset (offset + candidateLen);
          match DecodeCandidate d with
          | Err _ => decode_candidates n data offset acc
          | Ok c => decode_candidates n data (offset + candidateLen) (acc ++ [c])
          | Panic => Panic
          end
  end.

Definition DecodeCandidates (data : bytes) : res signal_err (list CandidateInfo) :=
  if blen data <? 1 then Err EmptyCandidates
  else
    count ← go_index data 0;
    decode_candidates (Z.to_nat count) data 1 [].

(** ** Connection requests: the 32-byte public key *)

Record ConnectInfo := { PublicKey : bytes }.

Definition EncodeConnectInfo (c : ConnectInfo) : bytes := PublicKey c.

Definition DecodeConnectInfo (data : bytes) : res signal_err ConnectInfo :=
  if blen data <? 32 then Err TooShort
  else k ← go_slice data 0 32; Ok {| PublicKey := k |}.

(** ** ICE restart *)

Record ICERestartInfo := {
  Reason : Z;
  Generation : Z;
  UsernameFragment : string;
  Password : string;
}.

Definition ICERestartInfoMinSize := 5.

Definition EncodeICERestartInfo (info : ICERestartInfo) : bytes :=
  let ufragBytes := str_bytes (UsernameFragment info) in
  let pwdBytes := str_bytes (Password info) in
  byte_of_Z (Reason info) :: put16 (Generation info) ++
  byte_of_Z (blen ufragBytes) :: ufragBytes ++ byte_of_Z (blen pwdBytes) :: pwdBytes.

Definition DecodeICERestartInfo (data : bytes) : res signal_err ICERestartInfo :=
  if blen data <? ICERestartInfoMinSize then Err TooShort
  else
    reason ← go_index data 0;
    g ← go_slice data 1 3;
    gen ← get16 g;
    ufragLen ← go_index data 3;
    if blen data <? 4 + ufragLen + 1 then Err Truncated
    else
      ufrag ← go_slice data 4 (4 + ufragLen);
      pwdLen ← go_index data (4 + ufragLen);
      if blen data <? 5 + ufragLen + pwdLen then Err Truncated
      else
        pwd ← go_slice data (5 + ufragLen) (5 + ufragLen + pwdLen);
        Ok {| Reason := reason; Generation := gen; UsernameFragment := bytes_str ufrag;
              Password := bytes_str pwd |}.

(** ** Trickle ICE *)

Record TrickleCandidateInfo := {
  t_Candidate : CandidateInfo;
  t_Generation : Z;
  t_MLineIndex : Z;
}.

Definition EncodeTrickleCandidate (info : TrickleCandidateInfo) : bytes :=
  let candidateBytes := EncodeCandidate (t_Candidate info) in
  put16 (t_Generation info) ++ byte_of_Z (t_MLineIndex info) ::
  byte_of_Z (blen candidateBytes) :: candidateBytes.

Definition DecodeTrickleCandidate (data : bytes) : res signal_err TrickleCandidateInfo :=
  if blen data <? 4 then Err TooShort
  else
    g ← go_slice data 0 2;
    gen ← get16 g;
    mline ← go_index data 2;
    candidateLen ← go_index data 3;
    if blen data <? 4 + candidateLen then Err Truncated
    else
      d ← go_slice data 4 (4 + candidateLen);
      candidate ← DecodeCandidate d;
      Ok {| t_Candidate := candidate; t_Generation := gen; t_MLineIndex := mline |}.

Record EndOfCandidatesInfo := { eoc_Generation : Z; TotalCandidates : Z }.

Definition EncodeEndOfCandidates (info : EndOfCandidatesInfo) : bytes :=
  put16 (eoc_Generation info) ++ [byte_of_Z (TotalCandidates info)].

Definition DecodeEndOfCandidates (data : bytes) : res signal_err EndOfCandidatesInfo :=
  if blen data <? 3 then Err TooShort
  else
    g ← go_slice data 0 2;
    gen ← get16 g;
    total ← go_index data 2;
    Ok {| eoc_Generation := gen; TotalCandidates := total |}.

(** ** WebRTC *)

Definition SDPTypeOffer := 1.
Definition SDPTypeAnswer := 2.
Definition MaxWebRTCSDPSize : Z := 8192.

Record WebRTCSDPInfo := { sdp_Type : Z; SDP : string }.

Definition EncodeWebRTCSDP (info : WebRTCSDPInfo) : bytes :=
  let sdpBytes := str_bytes (SDP info) in
  let sdpBytes := if MaxWebRTCSDPSize <? blen sdpBytes
                  then take (Z.to_nat MaxWebRTCSDPSize) sdpBytes else sdpBytes in
  byte_of_Z (sdp_Type info) :: put16 (u16 (blen sdpBytes)) ++ sdpBytes.

(** [3+sdpLen] is computed on 16 bits. *)
Definition DecodeWebRTCSDP (data : bytes) : res signal_err WebRTCSDPInfo :=
  if blen data <? 3 then Err TooShort
  else
    t ← go_index data 0;
    l ← go_slice data 1 3;
    sdpLen ← get16 l;
    if blen data - 3 <? sdpLen then Err Truncated
    else
      sdp ← go_slice data 3 (u16 (3 + sdpLen));
      Ok {| sdp_Type := t; SDP := bytes_str sdp |}.

Record WebRTCICECandidateInfo := {
  w_Candidate : string;
  SDPMid : string;
  SDPMLineIndex : Z;
  w_UsernameFragment : string;
}.

Definition EncodeWebRTCICECandidate (info : WebRTCICECandidateInfo) : bytes :=
  let candBytes := str_bytes (w_Candidate info) in
  let midBytes := str_bytes (SDPMid info) in
  let ufragBytes := str_bytes (w_UsernameFragment info) in
  put16 (u16 (blen candBytes)) ++ candBytes ++
  byte_of_Z (blen midBytes) :: midBytes ++
  put16 (SDPMLineIndex info) ++
  byte_of_Z (blen ufragBytes) :: ufragBytes.

Definition DecodeWebRTCICECandidate (data : bytes) : res signal_err WebRTCICECandidateInfo :=
  if blen data <? 6 then Err TooShort
  else
    l ← go_slice data 0 2;
    candLen ← get16 l;
    let offset := 2 in
    if blen data <? offset + candLen then Err Truncated
    else
      cand ← go_slice data offset (offset + candLen);
      let offset := offset + candLen in
      if blen data <=? offset then Err MissingField
      else
        midLen ← go_index data offset;
        let offset := offset + 1 in
        if blen data <? offset + midLen then Err Truncated
        else
          mid ← go_slice data offset (offset + midLen);
          let offset := offset + midLen in
          if blen data <? offset + 2 then Err MissingField
          else
            m ← go_slice data offset (offset + 2);
            mline ← get16 m;
            let offset := offset + 2 in
            if blen data <=? offset then Err MissingField
            else
              ufragLen ← go_index data offset;
              let offset := offset + 1 in
              if blen data <? offset + ufragLen then Err Truncated
              else
                ufrag ← go_slice data offset (offset + ufragLen);
                Ok {| w_Candidate := bytes_str cand; SDPMid := bytes_str mid;
                      SDPMLineIndex := mline; w_UsernameFragment := bytes_str ufrag |}.

(** ** Message constructors *)

Definition mk (t : Z) (srcVIP dstVIP payload : bytes) : Message :=
  {| Type_ := t; SrcVIP := srcVIP; DstVIP := dstVIP; Payload := payload |}.

Definition NewCandidateMessage (src dst : bytes) (cs : list CandidateInfo) : Message :=
  mk SignalCandidate src dst (EncodeCandidates cs).
Definition NewConnectMessage (src dst publicKey : bytes) : Message :=
  mk SignalConnect src dst (EncodeConnectInfo {| PublicKey := publicKey |}).
Definition NewConnectAckMessage (src dst publicKey : bytes) : Message :=
  mk SignalConnectAck src dst (EncodeConnectInfo {| PublicKey := publicKey |}).
Definition NewDisconnectMessage (src dst : bytes) : Message := mk SignalDisconnect src dst [].
Definition NewPingMessage (src dst : bytes) : Message := mk SignalPing src dst [].
Definition NewPongMessage (src dst : bytes) : Message := mk SignalPong src dst [].
Definition NewErrorMessage (src dst : bytes) (errMsg : string) : Message :=
  mk SignalError src dst (str_bytes errMsg).
Definition NewICERestartMessage (src dst : bytes) (info : ICERestartInfo) : Message :=
  mk SignalICERestart src dst (EncodeICERestartInfo info).
Definition NewTrickleCandidateMessage (src dst : bytes) (info : TrickleCandidateInfo) : Message :=
  mk SignalTrickleCandidate src dst (EncodeTrickleCandidate info).
Definition NewEndOfCandidatesMessage (src dst : bytes) (info : EndOfCandidatesInfo) : Message :=
  mk SignalEndOfCandidates src dst (EncodeEndOfCandidates info).
Definition NewWebRTCOfferMessage (src dst : bytes) (sdp : string) : Message :=
  mk SignalWebRTCOffer src dst (EncodeWebRTCSDP {| sdp_Type := SDPTypeOffer; SDP := sdp |}).
Definition NewWebRTCAnswerMessage (src dst : bytes) (sdp : string) : Message :=
  mk SignalWebRTCAnswer src dst (EncodeWebRTCSDP {| sdp_Type := SDPTypeAnswer; SDP := sdp |}).
Definition NewWebRTCICECandidateMessage (src dst : bytes) (info : WebRTCICECandidateInfo) : Message :=
  mk SignalWebRTCICECandidate src dst (EncodeWebRTCICECandidate info).

(** ** Decoders and malformed input *)

Lemma Decode_safe data : no_panic (Decode data).
Proof. unfold Decode, HeaderSize, MaxSignalPayload. decode_safe. Qed.

Lemma DecodeCandidate_safe data : no_panic (DecodeCandidate data).
Proof. unfold DecodeCandidate, CandidateInfoSize. decode_safe. Qed.

Lemma decode_candidates_safe n data offset acc :
  0 <= offset -> no_panic (decode_candidates n data offset acc).
Proof.
  unfold no_panic. revert offset acc; induction n as [|n IH]; intros offset acc Ho; cbn [decode_candidates]; [done|].
  repeat decode_step. pose proof (DecodeCandidate_safe s) as Hs.
  destruct (DecodeCandidate s); [apply IH; lia|apply IH; lia|done].
Qed.

Lemma DecodeCandidates_safe data : no_panic (DecodeCandidates data).
Proof.
  unfold DecodeCandidates, no_panic. repeat decode_step. apply decode_candidates_safe. lia.
Qed.

Lemma DecodeConnectInfo_safe data : no_panic (DecodeConnectInfo data).
Proof. unfold DecodeConnectInfo. decode_safe. Qed.

Lemma DecodeICERestartInfo_safe data : no_panic (DecodeICERestartInfo data).
Proof. unfold DecodeICERestartInfo, ICERestartInfoMinSize. decode_safe. Qed.

Lemma DecodeTrickleCandidate_safe data : no_panic (DecodeTrickleCandidate data).
Proof.
  unfold DecodeTrickleCandidate, no_panic. repeat decode_step.
  pose proof (DecodeCandidate_safe s0) as Hs. by destruct (DecodeCandidate s0).
Qed.

Lemma DecodeEndOfCandidates_safe data : no_panic (DecodeEndOfCandidates data).
Proof. unfold DecodeEndOfCandidates. decode_safe. Qed.

Lemma DecodeWebRTCICECandidate_safe data : no_panic (DecodeWebRTCICECandidate data).
Proof. unfold DecodeWebRTCICECandidate. decode_safe. Qed.

(** ** Round trips *)

Lemma blen_vip ip : blen (vip ip) = 4.
Proof.
  unfold vip, To4, blen. case_decide as H; [simpl; by rewrite H|].
  case_decide as H2; simpl; [destruct H2 as [H2 _]; rewrite length_drop, H2; done|done].
Qed.

Lemma vip_4 ip : length ip = 4%nat -> vip ip = ip.
Proof. intros H. unfold vip, To4. by rewrite decide_True. Qed.

Lemma Decode_Encode m rest :
  0 <= Type_ m < 256 -> blen (Payload m) <= MaxSignalPayload ->
  Decode (Encode m ++ rest) =
  Ok {| Type_ := Type_ m; SrcVIP := vip (SrcVIP m); DstVIP := vip (DstVIP m); Payload := Payload m |}.
Proof.
  destruct m as [t src dst p]. unfold MaxSignalPayload. cbn [Type_ SrcVIP DstVIP Payload]. intros Ht Hp.
  pose proof (blen_vip src). pose proof (blen_vip dst). pose proof (blen_nonneg p).
  pose proof (blen_nonneg rest).
  unfold Decode, Encode, HeaderSize, MaxSignalPayload. cbn [Type_ SrcVIP DstVIP Payload].
  rewrite u16_small by lia. set (T := byte_of_Z t). set (S := vip src) in *. set (D := vip dst) in *.
  cond_at. index_at (@nil byte) T (S ++ D ++ put16 (blen p) ++ p ++ rest).
  slice_at [T] S (D ++ put16 (blen p) ++ p ++ rest). slice_at (T :: S) D (put16 (blen p) ++ p ++ rest).
  slice_at (T :: S ++ D) (put16 (blen p)) (p ++ rest). rewrite get16_put16' by lia. cbn [mbind res_bind].
  cond_at. cond_at. replace (Z_of_byte T) with t by (symmetry; apply byte_of_Z_small; lia).
  destruct (Z.ltb_spec 0 (blen p)).
  - slice_at (T :: S ++ D ++ put16 (blen p)) p rest. done.
  - destruct p as [|b p]; [done|]. rewrite blen_cons in *. pose proof (blen_nonneg p). lia.
Qed.

(** What a decoder returns for a well-formed candidate. *)
Definition received (c : CandidateInfo) : CandidateInfo :=
  {| c_Type := c_Type c; c_IP := vip (c_IP c); c_Port := c_Port c; c_Priority := c_Priority c;
     c_Foundation := ""; c_RelatedIP := vip <$> c_RelatedIP c;
     c_RelatedPort := if c_RelatedIP c then c_RelatedPort c else 0 |}.

Definition wf_candidate (c : CandidateInfo) : Prop :=
  0 <= c_Type c < 256 /\ 0 <= c_Port c < 65536 /\ 0 <= c_Priority c < 4294967296 /\
  0 <= c_RelatedPort c < 65536.

Lemma blen_EncodeCandidate c : blen (EncodeCandidate c) = if c_RelatedIP c then 17 else 11.
Proof.
  unfold EncodeCandidate. rewrite blen_cons, !blen_app, blen_vip, blen_put16, blen_put32.
  destruct (c_RelatedIP c); [rewrite blen_app, blen_vip, blen_put16|]; done.
Qed.

Lemma DecodeCandidate_Encode c : wf_candidate c -> DecodeCandidate (EncodeCandidate c) = Ok (received c).
Proof.
  intros (Ht & Hp & Hq & Hr). pose proof (blen_EncodeCandidate c) as Hl.
  destruct c as [t ip port prio f rip rp]. unfold received, EncodeCandidate, DecodeCandidate, CandidateInfoSize in *.
  cbn [c_Type c_IP c_Port c_Priority c_RelatedIP c_RelatedPort] in *.
  pose proof (blen_vip ip). set (I := vip ip) in *. set (T := byte_of_Z t) in *.
  assert (Z_of_byte T = t) as HT by (apply byte_of_Z_small; lia).
  set (R := match rip with Some ip => vip ip ++ put16 rp | None => [] end) in *.
  pose proof (blen_nonneg R). cond_at.
  index_at (@nil byte) T (I ++ put16 port ++ put32 prio ++ R).
  slice_at (T :: I) (put16 port) (put32 prio ++ R). rewrite get16_put16' by lia. cbn [mbind res_bind].
  slice_at (T :: I ++ put16 port) (put32 prio) R. rewrite get32_put32' by lia. cbn [mbind res_bind].
  slice_at [T] I (put16 port ++ put32 prio ++ R). rewrite Hl, HT. unfold R. destruct rip as [rip|]; [|done].
  pose proof (blen_vip rip). set (J := vip rip) in *. change (17 <=? 17) with true. cbn iota.
  slice_at (T :: I ++ put16 port ++ put32 prio) J (put16 rp).
  slice_at (T :: I ++ put16 port ++ put32 prio ++ J) (put16 rp) (@nil byte). rewrite get16_put16' by lia. done.
Qed.

Definition framed (c : CandidateInfo) : bytes :=
  byte_of_Z (blen (EncodeCandidate c)) :: EncodeCandidate c.

Lemma decode_candidates_framed cs pre rest acc :
  Forall wf_candidate cs ->
  decode_candidates (length cs) (pre ++ flat_map framed cs ++ rest) (blen pre) acc =
  Ok (acc ++ map received cs).
Proof.
  intros Hcs. revert pre acc; induction Hcs as [|c cs Hc _ IH]; intros pre acc;
    cbn [length decode_candidates flat_map map]; [by rewrite app_nil_r|].
  pose proof (blen_EncodeCandidate c) as Hl.
  set (e := EncodeCandidate c) in *. set (post := flat_map framed cs ++ rest).
  pose proof (blen_nonneg post). pose proof (blen_nonneg pre).
  assert (0 <= blen e < 256) as He by (rewrite Hl; destruct (c_RelatedIP c); lia).
  assert (pre ++ (framed c ++ flat_map framed cs) ++ rest = pre ++ byte_of_Z (blen e) :: e ++ post) as ->
    by (unfold post; app_solve).
  cond_at. index_at pre (byte_of_Z (blen e)) (e ++ post). rewrite byte_of_Z_small by done.
  cond_at. slice_at (pre ++ [byte_of_Z (blen e)]) e post.
  unfold e at 1. rewrite (DecodeCandidate_Encode c Hc).
  replace (blen pre + 1 + blen e) with (blen (pre ++ byte_of_Z (blen e) :: e)) by blen_solve.
  replace (pre ++ byte_of_Z (blen e) :: e ++ post)
    with ((pre ++ byte_of_Z (blen e) :: e) ++ flat_map framed cs ++ rest) by (unfold post; app_solve).
  rewrite IH. by rewrite <- app_assoc.
Qed.

Lemma DecodeCandidates_Encode cs :
  cs <> [] -> Z.of_nat (length cs) < 256 -> Forall wf_candidate cs ->
  DecodeCandidates (EncodeCandidates cs) = Ok (map received cs).
Proof.
  intros Hne Hlen Hcs. destruct cs as [|c0 cs0]; [done|]. set (cs := c0 :: cs0) in *.
  assert (EncodeCandidates cs = byte_of_Z (Z.of_nat (length cs)) :: flat_map framed cs) as -> by done.
  unfold DecodeCandidates. pose proof (blen_nonneg (flat_map framed cs)). cond_at.
  index_at (@nil byte) (byte_of_Z (Z.of_nat (length cs))) (flat_map framed cs).
  rewrite byte_of_Z_small, Nat2Z.id by lia.
  rewrite <- (app_nil_r (flat_map framed cs)).
  apply (decode_candidates_framed cs [byte_of_Z (Z.of_nat (length cs))] [] [] Hcs).
Qed.

Lemma DecodeConnectInfo_Encode info : blen (PublicKey info) = 32 -> DecodeConnectInfo (EncodeConnectInfo info) = Ok info.
Proof.
  intros H. unfold DecodeConnectInfo, EncodeConnectInfo. rewrite H. cbn [Z.ltb Z.compare].
  rewrite go_slice_Ok by lia. unfold blen in H. cbn [mbind res_bind]. rewrite drop_0, take_ge by lia. by destruct info.
Qed.

Lemma DecodeICERestartInfo_Encode info :
  0 <= Reason info < 256 -> 0 <= Generation info < 65536 ->
  blen (str_bytes (UsernameFragment info)) < 256 -> blen (str_bytes (Password info)) < 256 ->
  DecodeICERestartInfo (EncodeICERestartInfo info) = Ok info.
Proof.
  destruct info as [r g u p]. cbn [Reason Generation UsernameFragment Password]. intros Hr Hg Hu Hp.
  unfold DecodeICERestartInfo, EncodeICERestartInfo, ICERestartInfoMinSize.
  cbn [Reason Generation UsernameFragment Password].
  set (ub := str_bytes u) in *. set (pb := str_bytes p) in *.
  pose proof (blen_nonneg ub). pose proof (blen_nonneg pb).
  set (R := byte_of_Z r). set (U := byte_of_Z (blen ub)). set (P := byte_of_Z (blen pb)).
  assert (Z_of_byte R = r) as HR by (apply byte_of_Z_small; lia).
  assert (Z_of_byte U = blen ub) as HU by (apply byte_of_Z_small; lia).
  assert (Z_of_byte P = blen pb) as HP by (apply byte_of_Z_small; lia).
  cond_at. index_at (@nil byte) R (put16 g ++ U :: ub ++ P :: pb).
  slice_at [R] (put16 g) (U :: ub ++ P :: pb). rewrite get16_put16' by lia. cbn [mbind res_bind].
  index_at (R :: put16 g) U (ub ++ P :: pb). rewrite HU. cond_at.
  slice_at (R :: put16 g ++ [U]) ub (P :: pb).
  index_at (R :: put16 g ++ U :: ub) P pb. rewrite HP. cond_at.
  slice_at (R :: put16 g ++ U :: ub ++ [P]) pb (@nil byte).
  unfold ub, pb. by rewrite HR, !bytes_str_bytes.
Qed.

Lemma DecodeTrickleCandidate_Encode info :
  wf_candidate (t_Candidate info) -> 0 <= t_Generation info < 65536 -> 0 <= t_MLineIndex info < 256 ->
  DecodeTrickleCandidate (EncodeTrickleCandidate info) =
  Ok {| t_Candidate := received (t_Candidate info); t_Generation := t_Generation info;
        t_MLineIndex := t_MLineIndex info |}.
Proof.
  destruct info as [c g m]. cbn [t_Candidate t_Generation t_MLineIndex]. intros Hc Hg Hm.
  unfold DecodeTrickleCandidate, EncodeTrickleCandidate. cbn [t_Candidate t_Generation t_MLineIndex].
  pose proof (blen_EncodeCandidate c) as Hl. set (e := EncodeCandidate c) in *.
  assert (0 <= blen e < 256) as He by (rewrite Hl; destruct (c_RelatedIP c); lia).
  set (M := byte_of_Z m). set (L := byte_of_Z (blen e)).
  assert (Z_of_byte M = m) as HM by (apply byte_of_Z_small; lia).
  assert (Z_of_byte L = blen e) as HL by (apply byte_of_Z_small; lia).
  cond_at. slice_at (@nil byte) (put16 g) (M :: L :: e). rewrite get16_put16' by lia. cbn [mbind res_bind].
  index_at (put16 g) M (L :: e). index_at (put16 g ++ [M]) L e. rewrite HL. cond_at.
  slice_at (put16 g ++ [M; L]) e (@nil byte). unfold e. rewrite (DecodeCandidate_Encode c Hc). simpl.
  by rewrite HM.
Qed.

Lemma DecodeEndOfCandidates_Encode info :
  0 <= eoc_Generation info < 65536 -> 0 <= TotalCandidates info < 256 ->
  DecodeEndOfCandidates (EncodeEndOfCandidates info) = Ok info.
Proof.
  destruct info as [g n]. cbn [eoc_Generation TotalCandidates]. intros Hg Hn.
  unfold DecodeEndOfCandidates, EncodeEndOfCandidates. cbn [eoc_Generation TotalCandidates].
  cond_at. slice_at (@nil byte) (put16 g) [byte_of_Z n]. rewrite get16_put16' by lia. cbn [mbind res_bind].
  index_at (put16 g) (byte_of_Z n) (@nil byte). by rewrite byte_of_Z_small.
Qed.

Lemma DecodeWebRTCSDP_Encode info :
  0 <= sdp_Type info < 256 -> blen (str_bytes (SDP info)) <= MaxWebRTCSDPSize ->
  DecodeWebRTCSDP (EncodeWebRTCSDP info) = Ok info.
Proof.
  destruct info as [t sdp]. cbn [sdp_Type SDP]. intros Ht Hs. unfold MaxWebRTCSDPSize in *.
  unfold DecodeWebRTCSDP, EncodeWebRTCSDP, MaxWebRTCSDPSize. cbn [sdp_Type SDP].
  set (b := str_bytes sdp) in *. pose proof (blen_nonneg b).
  rewrite (proj2 (Z.ltb_ge 8192 (blen b))) by lia. rewrite (u16_small (blen b)) by lia.
  set (T := byte_of_Z t). assert (Z_of_byte T = t) as HT by (apply byte_of_Z_small; lia).
  cond_at. index_at (@nil byte) T (put16 (blen b) ++ b). slice_at [T] (put16 (blen b)) b.
  rewrite get16_put16' by lia. cbn [mbind res_bind]. cond_at. rewrite u16_small by lia.
  slice_at (T :: put16 (blen b)) b (@nil byte). unfold b. by rewrite HT, bytes_str_bytes.
Qed.

Lemma DecodeWebRTCICECandidate_Encode info :
  blen (str_bytes (w_Candidate info)) < 65536 -> blen (str_bytes (SDPMid info)) < 256 ->
  0 <= SDPMLineIndex info < 65536 -> blen (str_bytes (w_UsernameFragment info)) < 256 ->
  DecodeWebRTCICECandidate (EncodeWebRTCICECandidate info) = Ok info.
Proof.
  destruct info as [c m l u]. cbn [w_Candidate SDPMid SDPMLineIndex w_UsernameFragment]. intros Hc Hm Hl Hu.
  unfold DecodeWebRTCICECandidate, EncodeWebRTCICECandidate.
  cbn [w_Candidate SDPMid SDPMLineIndex w_UsernameFragment].
  set (cb := str_bytes c) in *. set (mb := str_bytes m) in *. set (ub := str_bytes u) in *.
  pose proof (blen_nonneg cb). pose proof (blen_nonneg mb). pose proof (blen_nonneg ub).
  rewrite u16_small by lia. set (M := byte_of_Z (blen mb)). set (U := byte_of_Z (blen ub)).
  assert (Z_of_byte M = blen mb) as HM by (apply byte_of_Z_small; lia).
  assert (Z_of_byte U = blen ub) as HU by (apply byte_of_Z_small; lia).
  set (L := put16 (blen cb)). assert (blen L = 2) as HL by done.
  cond_at. slice_at (@nil byte) L (cb ++ M :: mb ++ put16 l ++ U :: ub).
  assert (get16 (E:=signal_err) L = Ok (blen cb)) as -> by (apply get16_put16'; lia). cbn [mbind res_bind]. cond_at.
  slice_at L cb (M :: mb ++ put16 l ++ U :: ub). cond_at.
  index_at (L ++ cb) M (mb ++ put16 l ++ U :: ub). rewrite HM. cond_at.
  slice_at (L ++ cb ++ [M]) mb (put16 l ++ U :: ub). cond_at.
  slice_at (L ++ cb ++ M :: mb) (put16 l) (U :: ub). rewrite get16_put16' by lia. cbn [mbind res_bind]. cond_at.
  index_at (L ++ cb ++ M :: mb ++ put16 l) U ub. rewrite HU. cond_at.
  slice_at (L ++ cb ++ M :: mb ++ put16 l ++ [U]) ub (@nil byte).
  unfold cb, mb, ub. by rewrite !bytes_str_bytes.
Qed.

(** ** Properties *)

(** A signalling message survives the wire.  Encoding and decoding returns
    the type, the 4-byte forms of the two virtual addresses and the payload,
    whatever follows the message in the buffer, as long as the payload is within
    the limit. *)
Theorem signal_message_roundtrip m rest :
  0 <= Type_ m < 256 -> blen (Payload m) <= MaxSignalPayload ->
  Decode (Encode m ++ rest) =
  Ok {| Type_ := Type_ m; SrcVIP := vip (SrcVIP m); DstVIP := vip (DstVIP m); Payload := Payload m |}.
Proof. apply Decode_Encode. Qed.

Definition demo_candidate : CandidateInfo :=
  {| c_Type := 1; c_IP := map byte_of_Z [10; 7; 0; 2]; c_Port := 51820; c_Priority := 2130706431;
     c_Foundation := "f"; c_RelatedIP := Some (map byte_of_Z [192; 168; 1; 9]); c_RelatedPort := 4000 |}.

Lemma signal_message_roundtrip_witness :
  let m := NewCandidateMessage (map byte_of_Z [10; 7; 0; 2]) (map byte_of_Z [10; 7; 0; 3])
             [demo_candidate; demo_candidate] in
  Decode (Encode m ++ [byte_of_Z 0]) =
  Ok {| Type_ := Type_ m; SrcVIP := vip (SrcVIP m); DstVIP := vip (DstVIP m); Payload := Payload m |}.
Proof. apply signal_message_roundtrip; [split|]; by vm_compute. Defined.

(** C36: the payloads on the wire.  With all numbers within the width of their fields,
    decoding what was encoded gives back: the 32-byte key of a connection request; an
    ICE restart with credentials of at most 255 bytes; the end-of-candidates notice; an
    SDP of at most 8192 bytes; a WebRTC candidate of less than 64 KB with a mid and a
    fragment of at most 255 bytes.  A batch of 1 to 255 candidates, and a trickled
    candidate, come back in the form [received]: an IPv4 address in its 4-byte form, but
    an IPv6 address as 0.0.0.0, without the foundation, and without a related port when
    there is no related address. *)
Theorem signal_payload_roundtrips ci cs ri tc eoc sdp wc :
  blen (PublicKey ci) = 32 ->
  (cs <> [] /\ Z.of_nat (length cs) < 256 /\ Forall wf_candidate cs) ->
  (0 <= Reason ri < 256 /\ 0 <= Generation ri < 65536 /\
   blen (str_bytes (UsernameFragment ri)) < 256 /\ blen (str_bytes (Password ri)) < 256) ->
  (wf_candidate (t_Candidate tc) /\ 0 <= t_Generation tc < 65536 /\ 0 <= t_MLineIndex tc < 256) ->
  (0 <= eoc_Generation eoc < 65536 /\ 0 <= TotalCandidates eoc < 256) ->
  (0 <= sdp_Type sdp < 256 /\ blen (str_bytes (SDP sdp)) <= MaxWebRTCSDPSize) ->
  (blen (str_bytes (w_Candidate wc)) < 65536 /\ blen (str_bytes (SDPMid wc)) < 256 /\
   0 <= SDPMLineIndex wc < 65536 /\ blen (str_bytes (w_UsernameFragment wc)) < 256) ->
  DecodeConnectInfo (EncodeConnectInfo ci) = Ok ci /\
  DecodeCandidates (EncodeCandidates cs) = Ok (map received cs) /\
  DecodeICERestartInfo (EncodeICERestartInfo ri) = Ok ri /\
  DecodeTrickleCandidate (EncodeTrickleCandidate tc) =
    Ok {| t_Candidate := received (t_Candidate tc); t_Generation := t_Generation tc;
          t_MLineIndex := t_MLineIndex tc |} /\
  DecodeEndOfCandidates (EncodeEndOfCandidates eoc) = Ok eoc /\
  DecodeWebRTCSDP (EncodeWebRTCSDP sdp) = Ok sdp /\
  DecodeWebRTCICECandidate (EncodeWebRTCICECandidate wc) = Ok wc.
Proof.
  intros ? (? & ? & ?) (? & ? & ? & ?) (? & ? & ?) (? & ?) (? & ?) (? & ? & ? & ?).
  auto 10 using DecodeConnectInfo_Encode, DecodeCandidates_Encode, DecodeICERestartInfo_Encode, DecodeTrickleCandidate_Encode,
    DecodeEndOfCandidates_Encode, DecodeWebRTCSDP_Encode, DecodeWebRTCICECandidate_Encode.
Qed.

Definition demo_restart : ICERestartInfo :=
  {| Reason := 1; Generation := 3; UsernameFragment := "abcdefgh"; Password := "secret" |}.
Definition demo_trickle : TrickleCandidateInfo :=
  {| t_Candidate := demo_candidate; t_Generation := 3; t_MLineIndex := 0 |}.
Definition demo_eoc : EndOfCandidatesInfo := {| eoc_Generation := 3; TotalCandidates := 2 |}.
Definition demo_sdp : WebRTCSDPInfo := {| sdp_Type := SDPTypeOffer; SDP := "v=0" |}.
Definition demo_webrtc : WebRTCICECandidateInfo :=
  {| w_Candidate := "candidate:1"; SDPMid := "0"; SDPMLineIndex := 0; w_UsernameFragment := "u" |}.

Definition demo_key : ConnectInfo := {| PublicKey := repeat Byte.x05 32 |}.

Lemma signal_payload_roundtrips_witness :
  DecodeConnectInfo (EncodeConnectInfo demo_key) = Ok demo_key /\
  DecodeCandidates (EncodeCandidates [demo_candidate]) = Ok (map received [demo_candidate]) /\
  DecodeICERestartInfo (EncodeICERestartInfo demo_restart) = Ok demo_restart /\
  DecodeTrickleCandidate (EncodeTrickleCandidate demo_trickle) =
    Ok {| t_Candidate := received (t_Candidate demo_trickle); t_Generation := t_Generation demo_trickle;
          t_MLineIndex := t_MLineIndex demo_trickle |} /\
  DecodeEndOfCandidates (EncodeEndOfCandidates demo_eoc) = Ok demo_eoc /\
  DecodeWebRTCSDP (EncodeWebRTCSDP demo_sdp) = Ok demo_sdp /\
  DecodeWebRTCICECandidate (EncodeWebRTCICECandidate demo_webrtc) = Ok demo_webrtc.
Proof.
  assert (wf_candidate demo_candidate) as Hc by (unfold wf_candidate; simpl; lia).
  apply signal_payload_roundtrips.
  - by vm_compute.
  - split; [done|]. split; [by vm_compute|]. by constructor.
  - split_and!; by vm_compute.
  - split; [done|]. split_and!; by vm_compute.
  - split_and!; by vm_compute.
  - split_and!; by vm_compute.
  - split_and!; by vm_compute.
Defined.

(** No input crashes the decoders.  Whatever bytes a peer sends, none of these
    decoders indexes or slices out of range. *)
Theorem signal_decoders_total data :
  no_panic (Decode data) /\ no_panic (DecodeCandidate data) /\ no_panic (DecodeCandidates data) /\
  no_panic (DecodeConnectInfo data) /\ no_panic (DecodeICERestartInfo data) /\
  no_panic (DecodeTrickleCandidate data) /\ no_panic (DecodeEndOfCandidates data) /\
  no_panic (DecodeWebRTCICECandidate data).
Proof.
  auto 10 using Decode_safe, DecodeCandidate_safe, DecodeCandidates_safe, DecodeConnectInfo_safe,
    DecodeICERestartInfo_safe, DecodeTrickleCandidate_safe, DecodeEndOfCandidates_safe,
    DecodeWebRTCICECandidate_safe.
Qed.

(** The SDP decoder is the exception.  It panics exactly on inputs that really
    carry an SDP of 65533 bytes or more, because the end of the slice wraps around
    in 16 bits; the payload of a decoded message is never that long. *)
Theorem sdp_decoder_panics data :
  DecodeWebRTCSDP data = Panic <->
  exists t l sdp, data = t :: put16 l ++ sdp /\ 65533 <= l < 65536 /\ l <= blen sdp.
Proof.
  unfold DecodeWebRTCSDP. destruct data as [|t [|a [|b sdp]]]; try (split; [done|]; intros (? & ? & ? & ? & _); done).
  pose proof (blen_nonneg sdp) as Hs.
  assert (blen (t :: a :: b :: sdp) = 3 + blen sdp) as Hl by (rewrite !blen_cons; lia). rewrite Hl.
  destruct (Z.ltb_spec (3 + blen sdp) 3); [lia|].
  rewrite (go_index_at _ [] t (a :: b :: sdp)) by done. cbn [mbind res_bind].
  rewrite (go_slice_at _ [t] [a; b] sdp) by done. cbn [mbind res_bind].
  destruct (get16_Ok signal_err [a; b] ltac:(done)) as (l & Hg & Hr). rewrite Hg. cbn [mbind res_bind].
  assert (forall t' l' sdp', t :: a :: b :: sdp = t' :: put16 l' ++ sdp' -> 0 <= l' < 65536 ->
    l' = l /\ sdp' = sdp) as Hinj.
  { intros t' l' sdp' [= <- -> -> ->] Hl'. split; [|done].
    pose proof (get16_put16' signal_err l' Hl') as Hg'. unfold put16 in Hg'. congruence. }
  destruct (Z.ltb_spec (3 + blen sdp - 3) l) as [Hlt|Hge].
  - split; [done|]. intros (t' & l' & sdp' & He & Hl' & Hle).
    destruct (Hinj _ _ _ He ltac:(lia)) as [-> ->]. lia.
  - destruct (Z.lt_ge_cases l 65533) as [Hsmall|Hbig].
    + rewrite u16_small by lia. rewrite go_slice_Ok by lia. split; [done|].
      intros (t' & l' & sdp' & He & Hl' & Hle). destruct (Hinj _ _ _ He ltac:(lia)) as [-> ->]. lia.
    + assert (go_slice (E:=signal_err) (t :: a :: b :: sdp) 3 (u16 (3 + l)) = Panic) as ->.
      { unfold go_slice, u16. replace ((3 + l) mod 2 ^ 16) with (3 + l - 65536);
          [|rewrite <- (Z.mod_small (3 + l - 65536) (2 ^ 16)) by lia;
            rewrite <- (Z_mod_plus_full (3 + l - 65536) 1 (2 ^ 16)); f_equal; lia].
        rewrite (proj2 (Z.leb_gt 3 _)) by lia. by rewrite andb_false_r. }
      split; [|done]. intros _. exists t, l, sdp. split_and!; [|lia..].
      unfold put16. simpl in Hg. injection Hg as <-.
      pose proof (Z_of_byte_range a). pose proof (Z_of_byte_range b). simpl. do 2 f_equal.
      * rewrite <- (byte_of_Z_of_byte a) at 1. f_equal.
        rewrite Z.div_add_l, Z.div_small by lia. lia.
      * f_equal. apply Z_of_byte_inj. rewrite Z_of_byte_of_Z. unfold u8. change (2 ^ 8) with 256.
        rewrite Z.add_comm, Z_mod_plus_full, Z.mod_small; lia.
Qed.

(** An SDP of more than 4093 bytes can be sent but not received.  The encoder
    accepts up to 8192 bytes, and [Decode] rejects the message it produces. *)
Theorem large_sdp_rejected src dst sdp rest :
  4093 < blen (str_bytes sdp) <= MaxWebRTCSDPSize ->
  Decode (Encode (NewWebRTCOfferMessage src dst sdp) ++ rest) = Err PayloadTooLarge.
Proof.
  intros Hs. unfold MaxWebRTCSDPSize in Hs.
  set (p := Payload (NewWebRTCOfferMessage src dst sdp)).
  assert (blen p = 3 + blen (str_bytes sdp)) as Hp.
  { unfold p, NewWebRTCOfferMessage, mk, EncodeWebRTCSDP, MaxWebRTCSDPSize. cbn [Payload sdp_Type SDP].
    rewrite (proj2 (Z.ltb_ge 8192 _)) by lia. blen_solve. }
  unfold Encode, NewWebRTCOfferMessage, mk, Decode, HeaderSize, MaxSignalPayload.
  cbn [Type_ SrcVIP DstVIP Payload]. cbn [Payload NewWebRTCOfferMessage mk] in p. fold p.
  rewrite u16_small by lia. set (T := byte_of_Z SignalWebRTCOffer).
  pose proof (blen_vip src). pose proof (blen_vip dst). set (S := vip src) in *. set (D := vip dst) in *.
  pose proof (blen_nonneg rest).
  cond_at. index_at (@nil byte) T (S ++ D ++ put16 (blen p) ++ p ++ rest).
  slice_at [T] S (D ++ put16 (blen p) ++ p ++ rest). slice_at (T :: S) D (put16 (blen p) ++ p ++ rest).
  slice_at (T :: S ++ D) (put16 (blen p)) (p ++ rest). rewrite get16_put16' by lia. cbn [mbind res_bind].
  by cond_at.
Qed.

Fixpoint repeat_char (n : nat) : string := match n with O => "" | S n => String.append "x" (repeat_char n) end.

Lemma large_sdp_rejected_witness :
  Decode (Encode (NewWebRTCOfferMessage [] [] (repeat_char 4100)) ++ []) = Err PayloadTooLarge.
Proof. apply large_sdp_rejected. vm_compute. split; [reflexivity|discriminate]. Defined.

(** One malformed candidate hides the valid ones after it.  A batch of two
    entries, the first too short to be a candidate and the second well formed,
    decodes to no candidate at all when the short entry's first byte is larger
    than what is left, since only its length byte is skipped. *)
Theorem malformed_candidate_hides_rest c b :
  wf_candidate c -> blen (framed c) < Z_of_byte b ->
  DecodeCandidates (byte_of_Z 2 :: byte_of_Z 1 :: b :: framed c) = Ok [].
Proof.
  intros Hc Hb. unfold DecodeCandidates. pose proof (blen_nonneg (framed c)). pose proof (Z_of_byte_range b).
  cond_at. index_at (@nil byte) (byte_of_Z 2) (byte_of_Z 1 :: b :: framed c).
  rewrite byte_of_Z_small by lia. change (Z.to_nat 2) with 2%nat. cbn [decode_candidates].
  cond_at. index_at [byte_of_Z 2] (byte_of_Z 1) (b :: framed c). rewrite byte_of_Z_small by lia.
  cond_at. slice_at [byte_of_Z 2; byte_of_Z 1] [b] (framed c).
  change (DecodeCandidate [b]) with (Err TooShort : res signal_err CandidateInfo). cbn iota.
  cond_at. index_at [byte_of_Z 2; byte_of_Z 1] b (framed c). by cond_at.
Qed.

Lemma malformed_candidate_hides_rest_witness :
  DecodeCandidates (byte_of_Z 2 :: byte_of_Z 1 :: byte_of_Z 200 :: framed demo_candidate) = Ok [].
Proof.
  apply malformed_candidate_hides_rest; [unfold wf_candidate; simpl; lia|by vm_compute].
Defined.

End Signal.
