(* ===== verification/Addr.v ===== *)
(** * SOCKS5-style addresses (src/transport/shared/addr.go)

    [EncodeAddr] and [DecodeAddr].  Writers keep what was written before an error,
    readers are the bytes still to come. *)

From S2P Require Import Prelude GoBytes GoStrings GoNet.

Local Open Scope Z_scope.

Module Shared.

Definition AddrTypeIPv4 := 1.
Definition AddrTypeDomain := 3.
Definition AddrTypeIPv6 := 4.

Inductive encode_err :=
| SplitErr (e : addr_err)
| PortErr (e : num_err)
| DomainTooLong (n : Z)
| WriteErr.

(** The address part of the encoding: type byte and address. *)
Definition addr_bytes (host : string) : res encode_err bytes :=
  match ParseIP host with
  | None =>
      let domain := str_bytes host in
      if 255 <? blen domain then Err (DomainTooLong (blen domain))
      else Ok (byte_of_Z AddrTypeDomain :: byte_of_Z (blen domain) :: domain)
  | Some ip =>
      match To4 ip with
      | Some v4 => Ok (byte_of_Z AddrTypeIPv4 :: v4)
      | None => Ok (byte_of_Z AddrTypeIPv6 :: default [] (To16 ip))
      end
  end.

(** An operation on a writer: the writer afterwards and the outcome. *)
Definition write_all {E} (werr : E) (w : writer) (p : bytes) : writer * res E unit :=
  match Write w p with
  | None => (w, Err werr)
  | Some w => (w, Ok tt)
  end.

(** [if err := m; err != nil { return err }; k] *)
Definition then_write {E} (m : writer * res E unit) (k : writer -> writer * res E unit)
    : writer * res E unit :=
  match m with
  | (w, Ok _) => k w
  | (w, Err e) => (w, Err e)
  | (w, Panic) => (w, Panic)
  end.

(** Wrap the outcome of a write. *)
Definition wrap_write {E E'} (f : E -> E') (m : writer * res E unit) : writer * res E' unit :=
  (m.1, wrap_err f m.2).

(** [EncodeAddr]; the network is not encoded. *)
Definition EncodeAddr (w : writer) (network address : string) : writer * res encode_err unit :=
  match ('(host, portStr) ← wrap_err SplitErr (SplitHostPort address);
         port ← wrap_err PortErr (ParseUint portStr 16);
         buf ← addr_bytes host;
         Ok (buf, port)) with
  | Err e => (w, Err e)
  | Panic => (w, Panic)
  | Ok (buf, port) =>
      then_write (write_all WriteErr w buf) (fun w => write_all WriteErr w (put16 (u16 port)))
  end.

Inductive decode_err := ReadErr (e : io_err) | UnknownType (t : Z).

(** [DecodeAddr]: network, address, and the reader afterwards. *)
Definition DecodeAddr (r : bytes) : res decode_err (string * string * bytes) :=
  '(atype, r) ← wrap_err ReadErr (ReadFull 1 r);
  t ← go_index atype 0;
  '(host, r) ←
    (if t =? AddrTypeIPv4 then
       '(buf, r) ← wrap_err ReadErr (ReadFull 4 r); Ok (IP_String buf, r)
     else if t =? AddrTypeDomain then
       '(lenBuf, r) ← wrap_err ReadErr (ReadFull 1 r);
       n ← go_index lenBuf 0;
       '(domainBuf, r) ← wrap_err ReadErr (ReadFull (Z.to_nat n) r);
       Ok (bytes_str domainBuf, r)
     else if t =? AddrTypeIPv6 then
       '(buf, r) ← wrap_err ReadErr (ReadFull 16 r);
       Ok (String.append "[" (String.append (IP_String buf) "]"), r)
     else Err (UnknownType t));
  '(portBuf, r) ← wrap_err ReadErr (ReadFull 2 r);
  port ← get16 portBuf;
  Ok ("tcp", String.append host (String.append ":" (FormatUint port)), r).

(** *** Round trip *)

(** The form in which the receiver sees a host: addresses are printed back from
    their bytes, IPv6 in brackets, domains are kept. *)
Definition canonical_host (host : string) : string :=
  match ParseIP host with
  | None => host
  | Some ip =>
      match To4 ip with
      | Some v4 => IP_String v4
      | None => String.append "[" (String.append (IP_String ip) "]")
      end
  end.

Definition canonical (host : string) (port : Z) : string :=
  String.append (canonical_host host) (String.append ":" (FormatUint port)).

(** Addresses that can be encoded, with their host and port. *)
Definition encodable (address host : string) (port : Z) : Prop :=
  exists portStr, SplitHostPort address = Ok (host, portStr) /\ ParseUint portStr 16 = Ok port /\
    (ParseIP host = None -> blen (str_bytes host) <= 255).

Lemma addr_bytes_Ok host :
  (ParseIP host = None -> blen (str_bytes host) <= 255) -> exists a, addr_bytes host = Ok a.
Proof.
  intros H. unfold addr_bytes. destruct (ParseIP host) as [ip|]; [by destruct (To4 ip); eauto|].
  rewrite (proj2 (Z.ltb_ge _ _)) by auto. eauto.
Qed.

(** Steps of a reader over a known prefix. *)
Lemma read_app {E} (f : io_err -> E) n p r : n = length p -> wrap_err f (ReadFull n (p ++ r)) = Ok (p, r).
Proof. intros ->. by rewrite ReadFull_app. Qed.

Lemma DecodeAddr_bytes host a port rest :
  addr_bytes host = Ok a -> 0 <= port < 65536 ->
  DecodeAddr (a ++ put16 port ++ rest) = Ok ("tcp", canonical host port, rest).
Proof.
  unfold addr_bytes, canonical, canonical_host, DecodeAddr. intros Ha Hp.
  destruct (ParseIP host) as [ip|] eqn:Hip; [destruct (To4 ip) as [v4|] eqn:H4|].
  - injection Ha as <-. rewrite (read_app _ 1 [byte_of_Z AddrTypeIPv4] (v4 ++ put16 port ++ rest)) by done.
    cbn [mbind res_bind]. change (go_index [byte_of_Z AddrTypeIPv4] 0) with (Ok (E:=decode_err) 1).
    cbn [mbind res_bind]. change (1 =? AddrTypeIPv4) with true. cbn iota.
    rewrite (read_app _ 4 v4) by (symmetry; by eapply To4_length). cbn [mbind res_bind].
    rewrite (read_app _ 2 (put16 port) rest) by done. cbn [mbind res_bind].
    by rewrite get16_put16'.
  - injection Ha as <-. rewrite (To16_16 ip) by (by eapply ParseIP_length). cbn [default].
    rewrite (read_app _ 1 [byte_of_Z AddrTypeIPv6] (ip ++ put16 port ++ rest)) by done.
    cbn [mbind res_bind]. change (go_index [byte_of_Z AddrTypeIPv6] 0) with (Ok (E:=decode_err) 4).
    cbn [mbind res_bind]. change (4 =? AddrTypeIPv4) with false. change (4 =? AddrTypeDomain) with false.
    change (4 =? AddrTypeIPv6) with true. cbn iota.
    rewrite (read_app _ 16 ip) by (symmetry; by eapply ParseIP_length). cbn [mbind res_bind].
    rewrite (read_app _ 2 (put16 port) rest) by done. cbn [mbind res_bind].
    by rewrite get16_put16'.
  - destruct (Z.ltb_spec 255 (blen (str_bytes host))) as [|Hl]; [done|]. injection Ha as <-.
    pose proof (blen_nonneg (str_bytes host)). set (h := str_bytes host) in *.
    rewrite (read_app _ 1 [byte_of_Z AddrTypeDomain] (byte_of_Z (blen h) :: h ++ put16 port ++ rest)) by done.
    cbn [mbind res_bind]. change (go_index [byte_of_Z AddrTypeDomain] 0) with (Ok (E:=decode_err) 3).
    cbn [mbind res_bind]. change (3 =? AddrTypeIPv4) with false. change (3 =? AddrTypeDomain) with true.
    cbn iota. rewrite (read_app _ 1 [byte_of_Z (blen h)] (h ++ put16 port ++ rest)) by done.
    cbn [mbind res_bind]. rewrite (go_index_at _ [] (byte_of_Z (blen h)) []) by done. cbn [mbind res_bind].
    rewrite byte_of_Z_small by lia.
    rewrite (read_app _ _ h) by (unfold blen; lia). cbn [mbind res_bind].
    rewrite (read_app _ 2 (put16 port) rest) by done. cbn [mbind res_bind].
    rewrite get16_put16' by done. unfold h. by rewrite bytes_str_bytes.
Qed.

Lemma encodable_port address host port : encodable address host port -> 0 <= port < 65536.
Proof. intros (ps & _ & Hp & _). by apply (ParseUint_range _ 16) in Hp; [|lia]. Qed.

Lemma EncodeAddr_buffer out network address host port :
  encodable address host port ->
  exists a, addr_bytes host = Ok a /\
    EncodeAddr (Writer out None) network address = (Writer (out ++ a ++ put16 port) None, Ok tt).
Proof.
  intros He. pose proof (encodable_port _ _ _ He) as Hr. destruct He as (ps & Hs & Hp & Hd).
  destruct (addr_bytes_Ok host Hd) as [a Ha]. exists a. split; [done|].
  unfold EncodeAddr. rewrite Hs. cbn [wrap_err mbind res_bind]. rewrite Hp. cbn [wrap_err mbind res_bind].
  rewrite Ha. cbn. by rewrite u16_small, <- app_assoc by done.
Qed.

(** C38: an address survives the wire.  Every address with a host and a 16-bit
    port (a domain of at most 255 bytes or an IP address) is encoded without an
    error, and decoding returns its canonical text and leaves what follows. *)
Theorem addr_roundtrip network address host port rest :
  encodable address host port ->
  exists out, EncodeAddr w_buffer network address = (Writer out None, Ok tt) /\
    DecodeAddr (out ++ rest) = Ok ("tcp", canonical host port, rest).
Proof.
  intros He. pose proof (encodable_port _ _ _ He) as Hr.
  destruct (EncodeAddr_buffer [] network _ _ _ He) as (a & Ha & Hw). unfold w_buffer. rewrite Hw. eexists. split; [done|].
  simpl. rewrite <- app_assoc. by apply DecodeAddr_bytes.
Qed.

Lemma demo_encodable : encodable "example.com:443" "example.com" 443.
Proof. exists "443". split_and!; by vm_compute. Qed.

Lemma addr_roundtrip_witness :
  exists out, EncodeAddr w_buffer "tcp" "example.com:443" = (Writer out None, Ok tt) /\
    DecodeAddr (out ++ []) = Ok ("tcp", canonical "example.com" 443, []).
Proof. apply (addr_roundtrip "tcp" "example.com:443" "example.com" 443 []). apply demo_encodable. Defined.

Lemma read_safe {E A} (f : io_err -> E) n r (k : bytes * bytes -> res E A) :
  (forall p r', r = p ++ r' -> length p = n -> k (p, r') <> Panic) ->
  wrap_err f (ReadFull n r) ≫= k <> Panic.
Proof.
  intros H. destruct (ReadFull n r) as [[p r']| |] eqn:Hr; simpl.
  - apply ReadFull_Ok in Hr as [-> Hl]. by apply H.
  - done.
  - by apply ReadFull_no_panic in Hr.
Qed.

Lemma DecodeAddr_safe r : no_panic (DecodeAddr r).
Proof.
  unfold DecodeAddr, no_panic. apply read_safe. intros p1 r1 _ H1.
  destruct (go_index_Ok decode_err p1 0) as (t & -> & _); [unfold blen; lia|]. cbn [mbind res_bind].
  assert (forall (h : string) r', ('(portBuf, r) ← wrap_err ReadErr (ReadFull 2 r'); port ← get16 portBuf;
    Ok ("tcp", String.append h (String.append ":" (FormatUint port)), r)) <> (Panic : res decode_err _)) as Hport.
  { intros h r'. apply read_safe. intros p2 r2 _ H2.
    destruct (get16_Ok decode_err p2) as (v & -> & _); [unfold blen; lia|done]. }
  assert (forall m : res decode_err (string * bytes), m <> Panic ->
    (m ≫= fun '(h, r') => '(portBuf, r) ← wrap_err ReadErr (ReadFull 2 r'); port ← get16 portBuf;
       Ok ("tcp", String.append h (String.append ":" (FormatUint port)), r)) <> Panic) as Hk.
  { intros m Hm. destruct m as [[h r']| |]; simpl; [apply Hport|done|done]. }
  apply Hk. repeat case_match; [| | |done].
  - apply read_safe. done.
  - apply read_safe. intros p2 r2 _ H2. destruct (go_index_Ok decode_err p2 0) as (v & -> & _); [unfold blen; lia|].
    cbn [mbind res_bind]. by apply read_safe.
  - apply read_safe. done.
Qed.

End Shared.
