(* ===== verification/Vless.v ===== *)
(** * VLESS request and response headers (src/transport/vless/protocol.go) *)

From S2P Require Import Prelude GoBytes GoStrings GoNet.
From S2P Require Import Addr.

Local Open Scope Z_scope.

Module Vless.

Definition Version := 0.

(** [RequestHeader]; the UUID is 16 bytes. *)
Record RequestHeader := {
  UUID : bytes;
  Cmd : Z;
  Network : string;
  Address : string;
  Flow : string;
}.

Inductive vless_err :=
| WriteHeader
| EncodeAddrErr (e : Shared.encode_err)
| ReadHeader (e : io_err)
| BadVersion (v : Z)
| SkipAddons (e : io_err)
| ReadCmd (e : io_err)
| DecodeAddrErr (e : Shared.decode_err).

Definition flow_addons (flow : string) : bytes :=
  if String.eqb flow "" then []
  else byte_of_Z 10 :: byte_of_Z (blen (str_bytes flow)) :: str_bytes flow.

Definition header_bytes (h : RequestHeader) : bytes :=
  let addons := flow_addons (Flow h) in
  byte_of_Z Version :: UUID h ++ byte_of_Z (blen addons) :: addons ++ [byte_of_Z (Cmd h)].

Definition EncodeRequest (w : writer) (h : RequestHeader) : writer * res vless_err unit :=
  Shared.then_write (Shared.write_all WriteHeader w (header_bytes h))
    (fun w => Shared.wrap_write EncodeAddrErr (Shared.EncodeAddr w (Network h) (Address h))).

Definition DecodeRequest (r : bytes) : res vless_err (RequestHeader * bytes) :=
  '(buf, r) ← wrap_err ReadHeader (ReadFull 18 r);
  v ← go_index buf 0;
  if negb (v =? Version) then Err (BadVersion v)
  else
    uuid ← go_slice buf 1 17;
    addonLen ← go_index buf 17;
    r ← (if 0 <? addonLen
         then '(_, r) ← wrap_err SkipAddons (ReadFull (Z.to_nat addonLen) r); Ok r
         else Ok r);
    '(cmdBuf, r) ← wrap_err ReadCmd (ReadFull 1 r);
    cmd ← go_index cmdBuf 0;
    '(network, addr, r) ← wrap_err DecodeAddrErr (Shared.DecodeAddr r);
    Ok ({| UUID := uuid; Cmd := cmd; Network := network; Address := addr; Flow := "" |}, r).

Definition EncodeResponse (w : writer) : writer * res vless_err unit :=
  Shared.write_all WriteHeader w [byte_of_Z Version; byte_of_Z 0].

Definition DecodeResponse (r : bytes) : res vless_err bytes :=
  '(buf, r) ← wrap_err ReadHeader (ReadFull 2 r);
  v ← go_index buf 0;
  if negb (v =? Version) then Err (BadVersion v)
  else
    addonLen ← go_index buf 1;
    if 0 <? addonLen
    then '(_, r) ← wrap_err SkipAddons (ReadFull (Z.to_nat addonLen) r); Ok r
    else Ok r.

Lemma vless_DecodeRequest_bytes h rest a host port :
  length (UUID h) = 16%nat -> 0 <= Cmd h < 256 -> blen (str_bytes (Flow h)) <= 253 ->
  Shared.addr_bytes host = Ok a -> 0 <= port < 65536 ->
  DecodeRequest (header_bytes h ++ a ++ put16 port ++ rest) =
  Ok ({| UUID := UUID h; Cmd := Cmd h; Network := "tcp"; Address := Shared.canonical host port;
         Flow := "" |}, rest).
Proof.
  destruct h as [uuid cmd nw adr flow]. cbn [UUID Cmd Network Address Flow]. intros Hu Hc Hf Ha Hp.
  unfold header_bytes, DecodeRequest. cbn [UUID Cmd Flow].
  set (ad := flow_addons flow). assert (blen uuid = 16) as Hu' by (unfold blen; lia).
  assert (0 <= blen ad < 256) as Had.
  { unfold ad, flow_addons. pose proof (blen_nonneg (str_bytes flow)).
    destruct (String.eqb flow ""); [done|]. blen_solve. }
  set (V := byte_of_Z Version). set (L := byte_of_Z (blen ad)).
  replace ((V :: uuid ++ L :: ad ++ [byte_of_Z cmd]) ++ a ++ put16 port ++ rest)
    with ((V :: uuid ++ [L]) ++ ad ++ [byte_of_Z cmd] ++ a ++ put16 port ++ rest) by app_solve.
  rewrite (Shared.read_app _ 18) by (simpl; rewrite length_app, Hu; done). cbn [mbind res_bind].
  index_at (@nil byte) V (uuid ++ [L]). change (Z_of_byte V =? Version) with true. cbn [negb].
  slice_at [V] uuid [L]. index_at (V :: uuid) L (@nil byte). unfold L. rewrite byte_of_Z_small by done.
  assert ((if 0 <? blen ad
    then '(_, r) ← wrap_err SkipAddons (ReadFull (Z.to_nat (blen ad))
           (ad ++ [byte_of_Z cmd] ++ a ++ put16 port ++ rest)); Ok r
    else Ok (ad ++ [byte_of_Z cmd] ++ a ++ put16 port ++ rest)) =
    Ok ([byte_of_Z cmd] ++ a ++ put16 port ++ rest)) as ->.
  { destruct (Z.ltb_spec 0 (blen ad)) as [|Hz].
    - rewrite (Shared.read_app _ _ ad) by (unfold blen; lia). done.
    - destruct ad as [|b ad']; [done|]. rewrite blen_cons in Hz. pose proof (blen_nonneg ad'). lia. }
  cbn [mbind res_bind]. rewrite (Shared.read_app _ 1 [byte_of_Z cmd]) by done. cbn [mbind res_bind].
  index_at (@nil byte) (byte_of_Z cmd) (@nil byte). rewrite byte_of_Z_small by done.
  by rewrite (Shared.DecodeAddr_bytes host) by done.
Qed.

(** A VLESS request survives the wire.  The decoder returns the UUID, the
    command and the canonical address; the flow is sent but not read back. *)
Theorem vless_roundtrip h host port rest :
  length (UUID h) = 16%nat -> 0 <= Cmd h < 256 -> blen (str_bytes (Flow h)) <= 253 ->
  Shared.encodable (Address h) host port ->
  exists out, EncodeRequest w_buffer h = (Writer out None, Ok tt) /\
    DecodeRequest (out ++ rest) =
    Ok ({| UUID := UUID h; Cmd := Cmd h; Network := "tcp"; Address := Shared.canonical host port;
           Flow := "" |}, rest).
Proof.
  intros Hu Hc Hf He. pose proof (Shared.encodable_port _ _ _ He) as Hr.
  destruct (Shared.EncodeAddr_buffer (header_bytes h) (Network h) _ _ _ He) as (a & Ha & Hw).
  eexists. split.
  - unfold EncodeRequest, Shared.write_all, w_buffer. cbn [Write w_quota w_out Shared.then_write app].
    by rewrite Hw.
  - rewrite <- !app_assoc. by apply vless_DecodeRequest_bytes.
Qed.

Definition demo_header : RequestHeader :=
  {| UUID := repeat (byte_of_Z 7) 16; Cmd := 1; Network := "tcp"; Address := "example.com:443";
     Flow := "xtls-rprx-vision" |}.

Lemma vless_roundtrip_witness :
  exists out, EncodeRequest w_buffer demo_header = (Writer out None, Ok tt) /\
    DecodeRequest (out ++ []) =
    Ok ({| UUID := UUID demo_header; Cmd := Cmd demo_header; Network := "tcp";
           Address := Shared.canonical "example.com" 443; Flow := "" |}, []).
Proof.
  apply vless_roundtrip; [done|split; by vm_compute|by vm_compute|apply Shared.demo_encodable].
Defined.

End Vless.
