(* ===== verification/Trojan.v ===== *)
(** * Trojan request headers (src/transport/trojan/protocol.go)

    SHA-224 is an argument. *)

From S2P Require Import Prelude GoBytes GoStrings GoNet.
From S2P Require Import Addr.

Local Open Scope Z_scope.

Module Trojan.

Definition HashLen : nat := 56.
Definition crlf : bytes := [byte_of_Z 13; byte_of_Z 10].

Inductive trojan_err :=
| WriteHash
| WriteCmd
| WriteAddr (e : Shared.encode_err)
| WriteTrailer
| ReadHash (e : io_err)
| ExpectedCRLF
| ReadCmd (e : io_err)
| ReadAddr (e : Shared.decode_err)
| ReadTrailer (e : io_err)
| ExpectedTrailer.

(** [hex.EncodeToString] *)
Definition hex_digit (d : Z) : byte := byte_of_Z (if d <? 10 then 48 + d else 87 + d).
Definition hex_string (b : bytes) : bytes :=
  flat_map (fun x => [hex_digit (Z_of_byte x / 16); hex_digit (Z_of_byte x mod 16)]) b.

(** [HashPassword], over the SHA-224 digest of the password. *)
Definition HashPassword (sha224 : bytes -> bytes) (password : string) : string :=
  bytes_str (hex_string (sha224 (str_bytes password))).

Definition EncodeRequest (w : writer) (passwordHash : string) (cmd : Z) (address : string)
    : writer * res trojan_err unit :=
  Shared.then_write (Shared.write_all WriteHash w (str_bytes passwordHash ++ crlf)) (fun w =>
  Shared.then_write (Shared.write_all WriteCmd w [byte_of_Z cmd]) (fun w =>
  Shared.then_write (Shared.wrap_write WriteAddr (Shared.EncodeAddr w "tcp" address)) (fun w =>
  Shared.write_all WriteTrailer w crlf))).

Definition DecodeRequest (r : bytes) : res trojan_err (string * Z * string * bytes) :=
  '(buf, r) ← wrap_err ReadHash (ReadFull (HashLen + 2) r);
  h ← go_slice buf 0 (Z.of_nat HashLen);
  t ← go_slice buf (Z.of_nat HashLen) (blen buf);
  if negb (bool_decide (t = crlf)) then Err ExpectedCRLF
  else
    '(cmdBuf, r) ← wrap_err ReadCmd (ReadFull 1 r);
    cmd ← go_index cmdBuf 0;
    '(_, address, r) ← wrap_err ReadAddr (Shared.DecodeAddr r);
    '(crlfBuf, r) ← wrap_err ReadTrailer (ReadFull 2 r);
    if negb (bool_decide (crlfBuf = crlf)) then Err ExpectedTrailer
    else Ok (bytes_str h, cmd, address, r).

Lemma length_hex_string b : length (hex_string b) = (2 * length b)%nat.
Proof. induction b as [|x b IH]; [done|]. unfold hex_string in *. simpl. rewrite IH. lia. Qed.

Lemma trojan_DecodeRequest_bytes hash cmd a host port rest :
  length (str_bytes hash) = HashLen -> 0 <= cmd < 256 ->
  Shared.addr_bytes host = Ok a -> 0 <= port < 65536 ->
  DecodeRequest (((str_bytes hash ++ crlf) ++ [byte_of_Z cmd]) ++ a ++ put16 port ++ crlf ++ rest) =
  Ok (hash, cmd, Shared.canonical host port, rest).
Proof.
  intros Hh Hc Ha Hp. unfold DecodeRequest, HashLen in *. rewrite <- !(app_assoc (str_bytes hash ++ crlf)).
  assert (blen (str_bytes hash) = 56) as Hb by (unfold blen; lia).
  rewrite (Shared.read_app _ _ (str_bytes hash ++ crlf)) by (rewrite length_app, Hh; done).
  cbn [mbind res_bind]. slice_at (@nil byte) (str_bytes hash) crlf.
  rewrite (go_slice_at _ (str_bytes hash) crlf []); [|by rewrite app_nil_r|by rewrite Hb|by rewrite blen_app, Hb].
  cbn [mbind res_bind]. rewrite bool_decide_true by done. cbn [negb].
  rewrite (Shared.read_app _ 1 [byte_of_Z cmd]) by done. cbn [mbind res_bind].
  index_at (@nil byte) (byte_of_Z cmd) (@nil byte). rewrite byte_of_Z_small by done.
  rewrite (Shared.DecodeAddr_bytes host) by done. cbn [wrap_err mbind res_bind].
  rewrite (Shared.read_app _ 2 crlf) by done. cbn [mbind res_bind]. rewrite bool_decide_true by done.
  by rewrite bytes_str_bytes.
Qed.

(** A Trojan request survives the wire.  With a hash of 56 characters, which
    is what [HashPassword] makes of a 28-byte digest, the decoder returns the
    hash, the command and the canonical address, and leaves the payload. *)
Theorem trojan_roundtrip sha224 password cmd address host port rest :
  length (sha224 (str_bytes password)) = 28%nat -> 0 <= cmd < 256 ->
  Shared.encodable address host port ->
  exists out, EncodeRequest w_buffer (HashPassword sha224 password) cmd address = (Writer out None, Ok tt) /\
    DecodeRequest (out ++ rest) =
    Ok (HashPassword sha224 password, cmd, Shared.canonical host port, rest).
Proof.
  intros Hs Hc He. pose proof (Shared.encodable_port _ _ _ He) as Hr.
  set (hash := HashPassword sha224 password).
  assert (length (str_bytes hash) = HashLen) as Hh
    by (unfold hash, HashPassword; by rewrite str_bytes_str, length_hex_string, Hs).
  destruct (Shared.EncodeAddr_buffer ((str_bytes hash ++ crlf) ++ [byte_of_Z cmd]) "tcp" _ _ _ He)
    as (a & Ha & Hw).
  eexists. split.
  - unfold EncodeRequest, Shared.write_all, w_buffer. cbn [Write w_quota w_out Shared.then_write].
    rewrite app_nil_l, Hw. cbn. reflexivity.
  - rewrite <- !(app_assoc ((str_bytes hash ++ crlf) ++ [byte_of_Z cmd])), <- !(app_assoc a),
      <- !(app_assoc (put16 port)). by apply trojan_DecodeRequest_bytes.
Qed.

Lemma trojan_roundtrip_witness :
  exists out, EncodeRequest w_buffer (HashPassword (fun _ => repeat (byte_of_Z 171) 28) "pw") 1
      "example.com:443" = (Writer out None, Ok tt) /\
    DecodeRequest (out ++ str_bytes "GET") =
    Ok (HashPassword (fun _ => repeat (byte_of_Z 171) 28) "pw", 1,
        Shared.canonical "example.com" 443, str_bytes "GET").
Proof. apply trojan_roundtrip; [done|lia|apply Shared.demo_encodable]. Defined.

End Trojan.
