(* ===== verification/Vmess.v ===== *)
(** * VMess request headers (src/transport/vmess/protocol.go)

    MD5, HMAC-MD5 and AES-128-GCM are arguments, with the laws the code relies on. *)

From S2P Require Import Prelude GoBytes GoStrings GoNet.
From S2P Require Import Addr.

Local Open Scope Z_scope.

Module Vmess.

Definition CmdUDP := 2.
Definition AuthIDLen : nat := 16.
Definition NonceLen : nat := 12.

Record RequestHeader := {
  Version : Z;
  Command : Z;
  Security : Z;
  Address : string;
  DataIV : bytes;
  DataKey : bytes;
}.

Inductive vmess_err :=
| WriteField
| MarshalAddr (e : Shared.encode_err)
| ReadField (e : io_err)
| UnknownAuthID
| NewCipherErr
| RandomErr
| DecryptErr
| HeaderTooShort
| AddrErr (e : Shared.decode_err)
| MissingIVKey.

(** [marshalHeader]: the address goes through a writer that never fails. *)
Definition marshalHeader (hdr : RequestHeader) : res vmess_err bytes :=
  let network := if Command hdr =? CmdUDP then "udp" else "tcp" in
  let '(w, r) := Shared.EncodeAddr w_buffer network (Address hdr) in
  _ ← wrap_err MarshalAddr r;
  Ok ([byte_of_Z (Version hdr); byte_of_Z (Command hdr); byte_of_Z (Security hdr)] ++
      w_out w ++ DataIV hdr ++ DataKey hdr).

Definition unmarshalHeader (data : bytes) : res vmess_err RequestHeader :=
  if blen data <? 3 + 1 + 2 + 8 + 8 then Err HeaderTooShort
  else
    v ← go_index data 0;
    c ← go_index data 1;
    s ← go_index data 2;
    r ← go_slice data 3 (blen data);
    '(_, addr, remaining) ← wrap_err AddrErr (Shared.DecodeAddr r);
    if blen remaining <? 16 then Err MissingIVKey
    else
      iv ← go_slice remaining 0 8;
      key ← go_slice remaining 8 16;
      Ok {| Version := v; Command := c; Security := s; Address := addr; DataIV := iv; DataKey := key |}.

Section crypto.

(** The primitives of the Go library: MD5, HMAC-MD5 and AES-128-GCM. *)
Context (md5 : bytes -> bytes) (hmac_md5 : bytes -> bytes -> bytes).
Context (Seal : bytes -> bytes -> bytes -> bytes) (Open : bytes -> bytes -> bytes -> option bytes).

Definition deriveKey (uuid : bytes) : bytes := md5 (uuid ++ uuid).

Definition computeAuthID (uuid : bytes) (timestamp : Z) : bytes :=
  take AuthIDLen (hmac_md5 uuid (put64 (u64 timestamp))).

(** The key lengths that [aes.NewCipher] accepts; [cipher.NewGCM] accepts every AES cipher. *)
Definition aes_key (key : bytes) : bool := bool_decide (length key ∈ [16; 24; 32]%nat).

(** [nonce] is what the random source returns, if it does not fail. *)
Definition encryptHeader (key : bytes) (nonce : option bytes) (plaintext : bytes) : res vmess_err (bytes * bytes) :=
  if negb (aes_key key) then Err NewCipherErr
  else match nonce with
  | None => Err RandomErr
  | Some nonce => Ok (nonce, Seal key nonce plaintext)
  end.

Definition decryptHeader (key nonce ciphertext : bytes) : res vmess_err bytes :=
  if negb (aes_key key) then Err NewCipherErr
  else match Open key nonce ciphertext with Some p => Ok p | None => Err DecryptErr end.

Definition EncodeRequest (w : writer) (uuid : bytes) (timestamp : Z) (nonce : option bytes)
    (hdr : RequestHeader) : writer * res vmess_err unit :=
  Shared.then_write (Shared.write_all WriteField w (computeAuthID uuid timestamp)) (fun w =>
  match marshalHeader hdr with
  | Err e => (w, Err e)
  | Panic => (w, Panic)
  | Ok plain =>
      match encryptHeader (deriveKey uuid) nonce plain with
      | Err e => (w, Err e)
      | Panic => (w, Panic)
      | Ok (nonce, ct) =>
          Shared.then_write (Shared.write_all WriteField w nonce) (fun w =>
          Shared.then_write (Shared.write_all WriteField w (put16 (u16 (blen ct)))) (fun w =>
          Shared.write_all WriteField w ct))
      end
  end).

Definition DecodeRequest (r : bytes) (lookup : bytes -> option bytes)
    : res vmess_err (RequestHeader * bytes) :=
  '(authID, r) ← wrap_err ReadField (ReadFull AuthIDLen r);
  match lookup authID with
  | None => Err UnknownAuthID
  | Some uuid =>
      '(nonce, r) ← wrap_err ReadField (ReadFull NonceLen r);
      '(lenBuf, r) ← wrap_err ReadField (ReadFull 2 r);
      ctLen ← get16 lenBuf;
      '(ct, r) ← wrap_err ReadField (ReadFull (Z.to_nat ctLen) r);
      plain ← decryptHeader (deriveKey uuid) nonce ct;
      hdr ← unmarshalHeader plain;
      Ok (hdr, r)
  end.

Lemma marshalHeader_Ok hdr host port :
  Shared.encodable (Address hdr) host port ->
  exists a, Shared.addr_bytes host = Ok a /\
    marshalHeader hdr = Ok ([byte_of_Z (Version hdr); byte_of_Z (Command hdr); byte_of_Z (Security hdr)] ++
      (a ++ put16 port) ++ DataIV hdr ++ DataKey hdr).
Proof.
  intros He. unfold marshalHeader, w_buffer.
  destruct (Shared.EncodeAddr_buffer [] (if Command hdr =? CmdUDP then "udp" else "tcp") _ _ _ He)
    as (a & Ha & ->). by exists a.
Qed.

Lemma addr_bytes_length host a : Shared.addr_bytes host = Ok a -> 2 <= blen a <= 257.
Proof.
  unfold Shared.addr_bytes. destruct (ParseIP host) as [ip|] eqn:Hip; [destruct (To4 ip) as [v4|] eqn:H4|].
  - intros [= <-]. apply To4_length in H4. rewrite blen_cons. unfold blen. lia.
  - intros [= <-]. apply ParseIP_length in Hip. rewrite (To16_16 ip Hip), blen_cons.
    simpl default. unfold blen. rewrite Hip. lia.
  - destruct (Z.ltb_spec 255 (blen (str_bytes host))); [done|]. intros [= <-].
    pose proof (blen_nonneg (str_bytes host)). rewrite !blen_cons. lia.
Qed.

Definition wf_header (hdr : RequestHeader) : Prop :=
  0 <= Version hdr < 256 /\ 0 <= Command hdr < 256 /\ 0 <= Security hdr < 256 /\
  length (DataIV hdr) = 8%nat /\ length (DataKey hdr) = 8%nat.

Lemma unmarshalHeader_bytes hdr host port a :
  wf_header hdr -> Shared.addr_bytes host = Ok a -> 0 <= port < 65536 ->
  unmarshalHeader ([byte_of_Z (Version hdr); byte_of_Z (Command hdr); byte_of_Z (Security hdr)] ++
    (a ++ put16 port) ++ DataIV hdr ++ DataKey hdr) =
  Ok {| Version := Version hdr; Command := Command hdr; Security := Security hdr;
        Address := Shared.canonical host port; DataIV := DataIV hdr; DataKey := DataKey hdr |}.
Proof.
  destruct hdr as [v c s adr iv key]. unfold wf_header. cbn [Version Command Security Address DataIV DataKey].
  intros (Hv & Hc & Hs & Hiv & Hkey) Ha Hp. pose proof (addr_bytes_length _ _ Ha).
  assert (blen iv = 8) by (unfold blen; lia). assert (blen key = 8) by (unfold blen; lia).
  unfold unmarshalHeader. set (rest := (a ++ put16 port) ++ iv ++ key).
  assert (blen rest = blen a + 18) by (unfold rest; blen_solve).
  set (V := byte_of_Z v). set (C := byte_of_Z c). set (S := byte_of_Z s).
  assert (Z_of_byte V = v) as HV by (apply byte_of_Z_small; lia).
  assert (Z_of_byte C = c) as HC by (apply byte_of_Z_small; lia).
  assert (Z_of_byte S = s) as HS by (apply byte_of_Z_small; lia).
  cond_at. index_at (@nil byte) V (C :: S :: rest). index_at [V] C (S :: rest). index_at [V; C] S rest.
  slice_at [V; C; S] rest (@nil byte). unfold rest. rewrite <- app_assoc.
  rewrite (Shared.DecodeAddr_bytes host) by done. cbn [wrap_err mbind res_bind]. cond_at.
  slice_at (@nil byte) iv key. slice_at iv key (@nil byte). by rewrite HV, HC, HS.
Qed.

(** What the code relies on: opening a sealed message returns it, the seal adds a
    16-byte tag, and MD5 and HMAC-MD5 return 16 bytes. *)
Hypothesis Open_Seal : forall key nonce p, Open key nonce (Seal key nonce p) = Some p.
Hypothesis Seal_length : forall key nonce p, blen (Seal key nonce p) = blen p + 16.
Hypothesis md5_length : forall m, length (md5 m) = 16%nat.
Hypothesis hmac_length : forall key m, length (hmac_md5 key m) = 16%nat.

Lemma derived_key uuid : aes_key (deriveKey uuid) = true.
Proof. unfold aes_key, deriveKey. rewrite md5_length. done. Qed.

(** A VMess request survives the wire.  A server that resolves the auth id to
    the client's UUID recovers the header with the canonical address, and leaves
    the body. *)
Theorem vmess_roundtrip uuid timestamp nonce hdr host port lookup rest :
  wf_header hdr -> length nonce = NonceLen -> Shared.encodable (Address hdr) host port ->
  lookup (computeAuthID uuid timestamp) = Some uuid ->
  exists out, EncodeRequest w_buffer uuid timestamp (Some nonce) hdr = (Writer out None, Ok tt) /\
    DecodeRequest (out ++ rest) lookup =
    Ok ({| Version := Version hdr; Command := Command hdr; Security := Security hdr;
           Address := Shared.canonical host port; DataIV := DataIV hdr; DataKey := DataKey hdr |}, rest).
Proof.
  intros Hwf Hn He Hl. pose proof (Shared.encodable_port _ _ _ He) as Hr.
  destruct (marshalHeader_Ok _ _ _ He) as (a & Ha & Hm). unfold EncodeRequest. rewrite Hm.
  set (plain := _ ++ (a ++ put16 port) ++ _) in *.
  assert (blen plain = blen a + 21) as Hpl.
  { destruct Hwf as (_ & _ & _ & Hiv & Hkey). unfold plain.
    assert (blen (DataIV hdr) = 8) by (unfold blen; lia). assert (blen (DataKey hdr) = 8) by (unfold blen; lia).
    cbn [app]. blen_solve. }
  pose proof (addr_bytes_length _ _ Ha). set (ct := Seal (deriveKey uuid) nonce plain).
  assert (blen ct = blen a + 37) as Hct by (unfold ct; rewrite Seal_length; lia).
  unfold encryptHeader. rewrite derived_key. cbn [negb]. fold ct.
  eexists. split; [unfold Shared.write_all, w_buffer; cbn; reflexivity|].
  rewrite u16_small by lia. rewrite <- !app_assoc. unfold DecodeRequest.
  rewrite (Shared.read_app _ AuthIDLen (computeAuthID uuid timestamp))
    by (unfold computeAuthID; rewrite length_take, hmac_length; done).
  cbn [mbind res_bind]. rewrite Hl. rewrite (Shared.read_app _ NonceLen nonce) by done. cbn [mbind res_bind].
  rewrite (Shared.read_app _ 2 (put16 (blen ct))) by done. cbn [mbind res_bind].
  rewrite get16_put16' by lia. cbn [mbind res_bind].
  rewrite (Shared.read_app _ _ ct) by (unfold blen; lia). cbn [mbind res_bind].
  unfold decryptHeader. rewrite derived_key. unfold ct. rewrite Open_Seal. cbn [negb mbind res_bind]. unfold plain. by rewrite (unmarshalHeader_bytes hdr host port a).
Qed.

End crypto.

(** Toy primitives that meet the assumptions: the tag is 16 zero bytes. *)
Definition toy_seal (key nonce p : bytes) : bytes := p ++ repeat (byte_of_Z 0) 16.
Definition toy_open (key nonce c : bytes) : option bytes := Some (take (length c - 16) c).

Lemma toy_open_seal key nonce p : toy_open key nonce (toy_seal key nonce p) = Some p.
Proof.
  unfold toy_open, toy_seal. rewrite length_app. simpl length.
  replace (length p + 16 - 16)%nat with (length p) by lia. by rewrite take_app_length.
Qed.

Definition demo_header : RequestHeader :=
  {| Version := 1; Command := 1; Security := 3; Address := "example.com:443";
     DataIV := repeat (byte_of_Z 1) 8; DataKey := repeat (byte_of_Z 2) 8 |}.

Lemma vmess_roundtrip_witness :
  exists out, EncodeRequest (fun _ => repeat (byte_of_Z 7) 16) (fun _ _ => repeat (byte_of_Z 9) 16) toy_seal w_buffer
      (repeat (byte_of_Z 5) 16) 1700000000 (Some (repeat (byte_of_Z 3) 12)) demo_header = (Writer out None, Ok tt) /\
    DecodeRequest (fun _ => repeat (byte_of_Z 7) 16) toy_open (out ++ []) (fun _ => Some (repeat (byte_of_Z 5) 16)) =
    Ok ({| Version := Version demo_header; Command := Command demo_header; Security := Security demo_header;
           Address := Shared.canonical "example.com" 443; DataIV := DataIV demo_header;
           DataKey := DataKey demo_header |}, []).
Proof.
  apply (vmess_roundtrip (fun _ => repeat (byte_of_Z 7) 16) (fun _ _ => repeat (byte_of_Z 9) 16) toy_seal toy_open).
  - apply toy_open_seal.
  - intros. unfold toy_seal. by rewrite blen_app.
  - done.
  - done.
  - repeat split; simpl; lia.
  - done.
  - apply Shared.demo_encodable.
  - done.
Defined.

End Vmess.
