(* ===== verification/UDPFrame.v ===== *)
(** * UDP frames in a stream (src/proxy/udp_frame.go)

    The lookup of service names by the host system is an argument. *)

From S2P Require Import Prelude GoBytes GoStrings GoNet.
From S2P Require Import Addr.

Local Open Scope Z_scope.

Module UDPFrame.

Definition maxUDPPayload := 65507.
Definition atypIPv4 := 1.
Definition atypDomain := 3.
Definition atypIPv6 := 4.

Inductive frame_err :=
| PayloadTooLarge
| InvalidAddr (e : addr_err)
| InvalidPort
| DomainTooLong
| WriteErr
| ReadLength (e : io_err)
| BodyTooShort
| BodyTooLarge
| ReadBody (e : io_err)
| UnsupportedType (t : Z).

Section frames.

(** [net.LookupPort("udp", s)]: numbers, or service names of the host. *)
Context (LookupPort : string -> option Z).

Definition frame_addr (host : string) : res frame_err (Z * bytes) :=
  match ParseIP host with
  | Some ip =>
      match To4 ip with
      | Some ip4 => Ok (atypIPv4, ip4)
      | None => Ok (atypIPv6, default [] (To16 ip))
      end
  | None =>
      if 255 <? slen host then Err DomainTooLong
      else Ok (atypDomain, byte_of_Z (slen host) :: str_bytes host)
  end.

Definition frame_bytes (atyp : Z) (addrBytes : bytes) (port : Z) (payload : bytes) : bytes :=
  let bodyLen := 1 + blen addrBytes + 2 + blen payload in
  put16 (u16 bodyLen) ++ byte_of_Z atyp :: addrBytes ++ put16 (u16 port) ++ payload.

Definition WriteUDPFrame (w : writer) (addr : string) (payload : bytes) : writer * res frame_err unit :=
  if maxUDPPayload <? blen payload then (w, Err PayloadTooLarge)
  else
    match SplitHostPort addr with
    | Err e => (w, Err (InvalidAddr e))
    | Panic => (w, Panic)
    | Ok (host, portStr) =>
        match LookupPort portStr with
        | None => (w, Err InvalidPort)
        | Some port =>
            match frame_addr host with
            | Err e => (w, Err e)
            | Panic => (w, Panic)
            | Ok (atyp, addrBytes) => Shared.write_all WriteErr w (frame_bytes atyp addrBytes port payload)
            end
        end
    end.

(** The host of a frame body and where its address ends. *)
Definition frame_host (body : bytes) : res frame_err (string * Z) :=
  atyp ← go_index body 0;
  if atyp =? atypIPv4 then
    if blen body <? 1 + 4 + 2 then Err BodyTooShort
    else a ← go_slice body 1 5; Ok (IP_String a, 5)
  else if atyp =? atypDomain then
    if blen body <? 2 then Err BodyTooShort
    else
      dLen ← go_index body 1;
      if blen body <? 2 + dLen + 2 then Err BodyTooShort
      else d ← go_slice body 2 (2 + dLen); Ok (bytes_str d, 2 + dLen)
  else if atyp =? atypIPv6 then
    if blen body <? 1 + 16 + 2 then Err BodyTooShort
    else a ← go_slice body 1 17; Ok (IP_String a, 17)
  else Err (UnsupportedType atyp).

Definition ReadUDPFrame (r : bytes) : res frame_err (string * bytes * bytes) :=
  '(lenBuf, r) ← wrap_err ReadLength (ReadFull 2 r);
  bodyLen ← get16 lenBuf;
  if bodyLen <? 1 + 4 + 2 then Err BodyTooShort
  else if maxUDPPayload + 1 + 256 + 2 <? bodyLen then Err BodyTooLarge
  else
    '(body, r) ← wrap_err ReadBody (ReadFull (Z.to_nat bodyLen) r);
    '(host, addrEnd) ← frame_host body;
    if blen body <? addrEnd + 2 then Err BodyTooShort
    else
      p ← go_slice body addrEnd (addrEnd + 2);
      port ← get16 p;
      payload ← go_slice body (addrEnd + 2) (blen body);
      Ok (JoinHostPort host (FormatUint port), payload, r).

(** The host as the reader prints it. *)
Definition frame_canonical (host : string) : string :=
  match ParseIP host with
  | Some ip => match To4 ip with Some ip4 => IP_String ip4 | None => IP_String ip end
  | None => host
  end.

Lemma slen_bytes s : slen s = blen (str_bytes s).
Proof.
  unfold slen, blen, str_bytes, String.list_byte_of_string. rewrite length_map.
  f_equal. induction s as [|c s IH]; simpl; [done|]. by rewrite IH.
Qed.

Lemma frame_host_bytes host atyp a rest :
  frame_addr host = Ok (atyp, a) -> 2 <= blen rest ->
  frame_host (byte_of_Z atyp :: a ++ rest) = Ok (frame_canonical host, 1 + blen a).
Proof.
  unfold frame_addr, frame_canonical, frame_host. intros Ha Hr.
  destruct (ParseIP host) as [ip|] eqn:Hip; [destruct (To4 ip) as [v4|] eqn:H4|].
  - injection Ha as <- <-. apply To4_length in H4. assert (blen v4 = 4) by (unfold blen; lia).
    index_at (@nil byte) (byte_of_Z atypIPv4) (v4 ++ rest). change (Z_of_byte (byte_of_Z atypIPv4)) with 1.
    change (1 =? atypIPv4) with true. cbn iota. cond_at.
    slice_at [byte_of_Z atypIPv4] v4 rest. do 2 f_equal. lia.
  - injection Ha as <- <-. apply ParseIP_length in Hip. rewrite (To16_16 ip Hip). simpl default.
    assert (blen ip = 16) by (unfold blen; lia).
    index_at (@nil byte) (byte_of_Z atypIPv6) (ip ++ rest). change (Z_of_byte (byte_of_Z atypIPv6)) with 4.
    change (4 =? atypIPv4) with false. change (4 =? atypDomain) with false. change (4 =? atypIPv6) with true.
    cbn iota. cond_at. slice_at [byte_of_Z atypIPv6] ip rest. do 2 f_equal. lia.
  - rewrite slen_bytes in Ha. destruct (Z.ltb_spec 255 (blen (str_bytes host))) as [|Hl]; [done|].
    injection Ha as <- <-. pose proof (blen_nonneg (str_bytes host)). set (h := str_bytes host) in *.
    index_at (@nil byte) (byte_of_Z atypDomain) ((byte_of_Z (blen h) :: h) ++ rest).
    change (Z_of_byte (byte_of_Z atypDomain)) with 3. change (3 =? atypIPv4) with false.
    change (3 =? atypDomain) with true. cbn iota. cond_at.
    index_at [byte_of_Z atypDomain] (byte_of_Z (blen h)) (h ++ rest). rewrite byte_of_Z_small by lia.
    cond_at. slice_at [byte_of_Z atypDomain; byte_of_Z (blen h)] h rest. rewrite blen_cons.
    unfold h. by rewrite bytes_str_bytes, Z.add_assoc.
Qed.

Lemma ReadUDPFrame_bytes host atyp a port payload rest :
  frame_addr host = Ok (atyp, a) -> 0 <= port < 65536 ->
  7 <= 1 + blen a + 2 + blen payload < 65536 ->
  ReadUDPFrame (frame_bytes atyp a port payload ++ rest) =
  Ok (JoinHostPort (frame_canonical host) (FormatUint port), payload, rest).
Proof.
  intros Ha Hp Hb. unfold ReadUDPFrame, frame_bytes, maxUDPPayload. rewrite !u16_small by lia.
  pose proof (blen_nonneg a). pose proof (blen_nonneg payload).
  set (n := 1 + blen a + 2 + blen payload) in *.
  set (body := byte_of_Z atyp :: a ++ put16 port ++ payload).
  assert (blen body = n) as Hbody by (unfold body, n; blen_solve).
  rewrite <- app_assoc. rewrite (Shared.read_app _ 2 (put16 n)) by done. cbn [mbind res_bind].
  rewrite get16_put16' by lia. cbn [mbind res_bind]. cond_at. cond_at.
  rewrite (Shared.read_app _ _ body) by (unfold blen in *; lia). cbn [mbind res_bind].
  assert (frame_host body = Ok (frame_canonical host, 1 + blen a)) as ->
    by (apply frame_host_bytes; [done|blen_solve]).
  cbn [mbind res_bind].
  rewrite Hbody. cond_at. slice_at (byte_of_Z atyp :: a) (put16 port) payload.
  rewrite get16_put16' by lia. cbn [mbind res_bind].
  slice_at (byte_of_Z atyp :: a ++ put16 port) payload (@nil byte). done.
Qed.

(** The payload of a frame is never longer than its length field says. *)
Lemma ReadUDPFrame_short n r addr payload r' :
  0 <= n < 65536 -> ReadUDPFrame (put16 n ++ r) = Ok (addr, payload, r') -> blen payload <= n.
Proof.
  intros Hn. unfold ReadUDPFrame. rewrite (Shared.read_app _ 2 (put16 n)) by done. cbn [mbind res_bind].
  rewrite get16_put16' by lia. cbn [mbind res_bind]. case_match; [done|]. case_match; [done|].
  destruct (ReadFull (Z.to_nat n) r) as [[body r2]| |] eqn:Hr; [|done..]. cbn [wrap_err mbind res_bind].
  apply ReadFull_Ok in Hr as [_ Hl]. destruct (frame_host body) as [[h e]| |] eqn:Hh; [|done..].
  cbn [mbind res_bind]. case_match; [done|].
  destruct (go_slice body e (e + 2)) as [p| |] eqn:Hs1; [|done..]. cbn [mbind res_bind].
  destruct (get16 p); [|done..]. cbn [mbind res_bind].
  destruct (go_slice body (e + 2) (blen body)) as [q| |] eqn:Hs; [|done..]. cbn [mbind res_bind].
  intros [= _ <- _]. pose proof (length_go_slice _ _ _ _ _ Hs). unfold go_slice in Hs.
  case_match eqn:Hc; [|done]. apply andb_true_iff in Hc as [[Hc1 Hc2]%andb_true_iff Hc3]. zb.
  assert (blen body = n) by (unfold blen; lia). lia.
Qed.

End frames.

(** What the code relies on in [net.LookupPort]: ports are 16-bit numbers. *)
Definition ports_ok (LookupPort : string -> option Z) : Prop :=
  forall s p, LookupPort s = Some p -> 0 <= p < 65536.

(** A frame that can be written, with its parts. *)
Definition writable (LookupPort : string -> option Z) (addr : string) (payload : bytes)
    (host : string) (port atyp : Z) (a : bytes) : Prop :=
  (exists ps, SplitHostPort addr = Ok (host, ps) /\ LookupPort ps = Some port) /\
  frame_addr host = Ok (atyp, a) /\ blen payload <= maxUDPPayload.

Lemma WriteUDPFrame_buffer LookupPort addr payload host port atyp a :
  writable LookupPort addr payload host port atyp a ->
  WriteUDPFrame LookupPort w_buffer addr payload = (Writer (frame_bytes atyp a port payload) None, Ok tt).
Proof.
  intros ((ps & Hs & Hp) & Ha & Hl). unfold WriteUDPFrame. rewrite (proj2 (Z.ltb_ge _ _)) by done.
  by rewrite Hs, Hp, Ha.
Qed.

(** A UDP frame survives the stream when its body has between 7 and 65535
    bytes: the reader returns the canonical address, the payload, and leaves the
    next frame. *)
Theorem udp_frame_roundtrip LookupPort addr payload host port atyp a rest :
  ports_ok LookupPort -> writable LookupPort addr payload host port atyp a ->
  7 <= 1 + blen a + 2 + blen payload < 65536 ->
  exists out, WriteUDPFrame LookupPort w_buffer addr payload = (Writer out None, Ok tt) /\
    ReadUDPFrame (out ++ rest) =
    Ok (JoinHostPort (frame_canonical host) (FormatUint port), payload, rest).
Proof.
  intros Hports Hw Hb. eexists. split; [by eapply WriteUDPFrame_buffer|].
  destruct Hw as ((ps & _ & Hp) & Ha & _). apply ReadUDPFrame_bytes; [done|by eapply Hports|done].
Qed.

Definition decimal_port (s : string) : option Z :=
  match ParseUint s 16 with Ok p => Some p | _ => None end.

Lemma decimal_port_ok : ports_ok decimal_port.
Proof.
  intros s p. unfold decimal_port. destruct (ParseUint s 16) eqn:H; [|done..]. intros [= <-].
  by apply (ParseUint_range _ 16) in H; [|lia].
Qed.

Lemma udp_frame_roundtrip_witness :
  exists out, WriteUDPFrame decimal_port w_buffer "10.0.0.1:53" (str_bytes "hi") = (Writer out None, Ok tt) /\
    ReadUDPFrame (out ++ [byte_of_Z 1]) =
    Ok (JoinHostPort (frame_canonical "10.0.0.1") (FormatUint 53), str_bytes "hi", [byte_of_Z 1]).
Proof.
  apply (udp_frame_roundtrip decimal_port "10.0.0.1:53" (str_bytes "hi") "10.0.0.1" 53 1
    (map byte_of_Z [10; 0; 0; 1])).
  - apply decimal_port_ok.
  - split; [exists "53"; by split|]. split; [by vm_compute|by vm_compute].
  - split; by vm_compute.
Defined.

(** Frames outside that range are written and then not read back.  With a
    body of fewer than 7 bytes (a short domain and an almost empty payload) the
    reader reports an error; with a body of more than 65535 bytes (a long domain
    and a payload near the limit) the length field wraps around, and the payload
    is never what was written. *)
Theorem udp_frame_out_of_range LookupPort addr payload host port atyp a rest :
  ports_ok LookupPort -> writable LookupPort addr payload host port atyp a ->
  exists out, WriteUDPFrame LookupPort w_buffer addr payload = (Writer out None, Ok tt) /\
    (1 + blen a + 2 + blen payload < 7 -> ReadUDPFrame (out ++ rest) = Err BodyTooShort) /\
    (65536 <= 1 + blen a + 2 + blen payload ->
     forall addr' payload' r', ReadUDPFrame (out ++ rest) = Ok (addr', payload', r') -> payload' <> payload).
Proof.
  intros Hports Hw. eexists. split; [by eapply WriteUDPFrame_buffer|].
  destruct Hw as ((ps & _ & Hp) & Ha & Hl). unfold maxUDPPayload in Hl. apply Hports in Hp.
  assert (blen a <= 256) as Hla.
  { unfold frame_addr in Ha. destruct (ParseIP host) as [ip|] eqn:Hip; [destruct (To4 ip) as [v4|] eqn:H4|].
    - injection Ha as <- <-. apply To4_length in H4. unfold blen. lia.
    - injection Ha as <- <-. apply ParseIP_length in Hip. rewrite (To16_16 ip Hip).
      simpl default. unfold blen. lia.
    - rewrite slen_bytes in Ha. destruct (Z.ltb_spec 255 (blen (str_bytes host))); [done|].
      injection Ha as <- <-. rewrite blen_cons. lia. }
  pose proof (blen_nonneg a). pose proof (blen_nonneg payload). split.
  - intros Hs. unfold ReadUDPFrame, frame_bytes. rewrite (u16_small (1 + _ + _ + _)) by lia.
    rewrite <- app_assoc, (Shared.read_app _ 2 (put16 _)) by done. cbn [mbind res_bind].
    rewrite get16_put16' by lia. cbn [mbind res_bind]. by rewrite (proj2 (Z.ltb_lt _ _)) by lia.
  - intros Hs addr' payload' r' Hr ->. unfold frame_bytes in Hr. rewrite <- app_assoc in Hr.
    pose proof (u16_range (1 + blen a + 2 + blen payload)) as Hu.
    apply ReadUDPFrame_short in Hr; [|done].
    assert (u16 (1 + blen a + 2 + blen payload) = 1 + blen a + 2 + blen payload - 65536) as He; [|lia].
    unfold u16. rewrite <- (Z.mod_small (1 + blen a + 2 + blen payload - 65536) (2 ^ 16)) by lia.
    rewrite <- (Z_mod_plus_full (1 + blen a + 2 + blen payload - 65536) 1 (2 ^ 16)). f_equal. lia.
Qed.

Lemma udp_frame_out_of_range_witness :
  exists out, WriteUDPFrame decimal_port w_buffer "a:53" [] = (Writer out None, Ok tt) /\
    (1 + blen [byte_of_Z 1; byte_of_Z 97] + 2 + blen [] < 7 -> ReadUDPFrame (out ++ []) = Err BodyTooShort) /\
    (65536 <= 1 + blen [byte_of_Z 1; byte_of_Z 97] + 2 + blen [] ->
     forall addr' payload' r', ReadUDPFrame (out ++ []) = Ok (addr', payload', r') -> payload' <> []).
Proof.
  apply (udp_frame_out_of_range decimal_port "a:53" [] "a" 53 3 [byte_of_Z 1; byte_of_Z 97]).
  - apply decimal_port_ok.
  - split; [exists "53"; by split|]. split; [by vm_compute|by vm_compute].
Defined.

End UDPFrame.
