(* ===== verification/Mesh.v ===== *)
(** * The mesh (src/mesh/mesh.go, peertable.go)

    Virtual address allocation, frames and handshakes of a mesh stream, and the
    table that forwards packets between peers. *)

From S2P Require Import Prelude GoBytes GoStrings GoNet FakeIP Addr.

Local Open Scope Z_scope.

(** ** IPv4 allocation (peertable.go) *)

Module Alloc.

(** The first offset from [lo] on, among [n], that is not in use. *)
Fixpoint first_free (used : gset Z) (lo : Z) (n : nat) : option Z :=
  match n with
  | O => None
  | S n => if bool_decide (lo ∈ used) then first_free used (lo + 1) n else Some lo
  end.

(** [for offset := lo; offset < hi; offset++ { if !used[offset] ... }] *)
Definition scan (used : gset Z) (lo hi : Z) : option Z := first_free used lo (Z.to_nat (hi - lo)).

(** [IPAllocator] *)
Record IPAllocator := {
  network : IPNet;
  gateway : bytes;
  next : Z;
  max : Z;
  used : gset Z;
}.

Inductive alloc_err := ParseErr | Exhausted | NotIPv6 | PrefixTooLong.

(** [binary.BigEndian.Uint32(a.network.IP.To4())]; a nil slice panics. *)
Definition base {E} (n : IPNet) : res E Z :=
  match To4 (net_ip n) with
  | Some ip4 => get32 ip4
  | None => Panic
  end.

Definition NewIPAllocator (cidr : string) : res alloc_err IPAllocator :=
  match ParseCIDR cidr with
  | None => Err ParseErr
  | Some ipNet =>
      b ← base ipNet;
      let ones := mask_size (net_mask ipNet) in
      let bits := 8 * blen (net_mask ipNet) in
      let size := u32 (Z.shiftl 1 (bits - ones)) in
      Ok {| network := ipNet; gateway := put32 (u32 (b + 1)); next := 2; max := u32 (size - 1);
            used := ∅ |}
  end.

(** Mark an offset as used and continue after it. *)
Definition take_offset (a : IPAllocator) (offset : Z) : IPAllocator :=
  {| network := network a; gateway := gateway a; next := u32 (offset + 1); max := max a;
     used := {[offset]} ∪ used a |}.

Definition Allocate (a : IPAllocator) : res alloc_err (bytes * IPAllocator) :=
  b ← base (network a);
  let start := 2 in
  match or_else (scan (used a) (next a) (max a)) (scan (used a) start (next a)) with
  | Some offset => Ok (put32 (u32 (b + offset)), take_offset a offset)
  | None => Err Exhausted
  end.

Definition Release (a : IPAllocator) (ip : bytes) : res alloc_err IPAllocator :=
  match To4 ip with
  | None => Ok a
  | Some ip4 =>
      b ← base (network a);
      v ← get32 ip4;
      let offset := u32 (v - b) in
      Ok {| network := network a; gateway := gateway a;
            next := if offset <? next a then offset else next a;
            max := max a; used := used a ∖ {[offset]} |}
  end.

Definition Mask (a : IPAllocator) : bytes := net_mask (network a).

(** *** Scanning *)

Lemma first_free_Some us lo n o :
  first_free us lo n = Some o ->
  lo <= o < lo + Z.of_nat n /\ o ∉ us /\ (forall x, lo <= x < o -> x ∈ us).
Proof.
  revert lo; induction n as [|n IH]; intros lo; cbn [first_free]; [done|].
  case_bool_decide as Hu.
  - intros (H1 & H2 & H3)%IH. split_and!; [lia..|done|]. intros x Hx.
    destruct (Z.eq_dec x lo) as [->|]; [done|]. apply H3. lia.
  - intros [= <-]. split_and!; [lia..|done|]. intros x Hx. lia.
Qed.

Lemma first_free_None us lo n :
  first_free us lo n = None <-> forall x, lo <= x < lo + Z.of_nat n -> x ∈ us.
Proof.
  revert lo; induction n as [|n IH]; intros lo; cbn [first_free].
  - split; [intros _ x Hx; lia|done].
  - case_bool_decide as Hu.
    + rewrite IH. split.
      * intros H x Hx. destruct (Z.eq_dec x lo) as [->|]; [done|]. apply H. lia.
      * intros H x Hx. apply H. lia.
    + split; [done|]. intros H. exfalso. apply Hu, H. lia.
Qed.

Lemma scan_Some us lo hi o : scan us lo hi = Some o -> lo <= o < hi /\ o ∉ us.
Proof. intros (H1 & H2 & _)%first_free_Some. split; [lia|done]. Qed.

Lemma scan_None us lo hi : scan us lo hi = None <-> forall x, lo <= x < hi -> x ∈ us.
Proof.
  unfold scan. rewrite first_free_None. split; intros H x Hx; apply H; [|lia].
  destruct (Z.le_gt_cases lo hi); lia.
Qed.

(** *** The pool as a set of free offsets *)

(** Everything the operations rely on and keep. *)
Record wf (b : Z) (a : IPAllocator) : Prop := {
  wf_base : forall E, base (E:=E) (network a) = Ok b;
  wf_base_range : 0 <= b < 2 ^ 32;
  wf_max : 0 <= max a < 2 ^ 32;
  wf_next : 2 <= next a /\ (next a <= max a \/ next a = 2);
  wf_used : forall o, o ∈ used a -> 2 <= o < max a;
}.

(** The address at an offset of the network. *)
Definition address (b o : Z) : bytes := put32 (u32 (b + o)).

Lemma u32_offset b o : 0 <= b < 2 ^ 32 -> 0 <= o < 2 ^ 32 -> u32 (u32 (b + o) - b) = o.
Proof.
  intros Hb Ho. unfold u32. rewrite Zminus_mod_idemp_l. replace (b + o - b) with o by lia.
  by apply Z.mod_small.
Qed.

Lemma base_any E E' n b : base (E:=E) n = Ok b -> base (E:=E') n = Ok b /\ 0 <= b < 2 ^ 32.
Proof.
  unfold base, get32. destruct (To4 (net_ip n)) as [ip|]; [|done].
  destruct ip as [|x [|y [|z [|w ip]]]]; [done..|]. intros [= <-]. split; [done|].
  pose proof (be_value_range 0 [x; y; z; w] ltac:(lia)). simpl in *. lia.
Qed.

Lemma NewIPAllocator_wf cidr a : NewIPAllocator cidr = Ok a -> exists b, wf b a.
Proof.
  unfold NewIPAllocator. destruct (ParseCIDR cidr) as [n|]; [|done].
  destruct (base n) as [b| |] eqn:Hb; [|done..]. cbn [mbind res_bind]. intros [= <-]. exists b.
  split; cbn [network max next used].
  - intros E. exact (proj1 (base_any _ E _ _ Hb)).
  - exact (proj2 (base_any _ alloc_err _ _ Hb)).
  - apply u32_range.
  - lia.
  - intros o Ho. by apply not_elem_of_empty in Ho.
Qed.

Lemma take_offset_wf b a o : wf b a -> 2 <= o < max a -> wf b (take_offset a o).
Proof.
  intros [Hb Hbr Hm Hn Hu] Ho. split; cbn [take_offset network max next used]; [done|done|done| |].
  - rewrite u32_small by lia. lia.
  - intros x [->%elem_of_singleton|Hx]%elem_of_union; [lia|auto].
Qed.

Lemma Allocate_spec b a :
  wf b a ->
  match Allocate a with
  | Ok (ip, a') => exists o, ip = address b o /\ 2 <= o < max a /\ o ∉ used a /\ a' = take_offset a o
  | Err e => e = Exhausted /\ forall o, 2 <= o < max a -> o ∈ used a
  | Panic => False
  end.
Proof.
  intros [Hb _ _ [Hn1 Hn2] _]. unfold Allocate. rewrite Hb. cbn [mbind res_bind].
  destruct (scan (used a) (next a) (max a)) as [o|] eqn:H1; cbn [or_else].
  - apply scan_Some in H1 as [H1 H2]. exists o. split_and!; [done|lia|lia|done|done].
  - destruct (scan (used a) 2 (next a)) as [o|] eqn:H2.
    + apply scan_Some in H2 as [H2 H3]. exists o. split_and!; [done|lia|lia|done|done].
    + split; [done|]. rewrite scan_None in H1, H2. intros o Ho.
      destruct (Z.lt_ge_cases o (next a)); [apply H2|apply H1]; lia.
Qed.

Lemma Release_spec b a o :
  wf b a -> 0 <= o < 2 ^ 32 ->
  Release a (address b o) = Ok {| network := network a; gateway := gateway a;
    next := if o <? next a then o else next a; max := max a; used := used a ∖ {[o]} |}.
Proof.
  intros [Hb Hbr _ _ _] Ho. unfold Release, address.
  assert (To4 (put32 (u32 (b + o))) = Some (put32 (u32 (b + o)))) as -> by done.
  rewrite Hb. cbn [mbind res_bind]. rewrite get32_put32' by apply u32_range. cbn [mbind res_bind].
  by rewrite u32_offset.
Qed.

(** The states of an allocator whose clients release what they were given. *)
Inductive reachable (cidr : string) : IPAllocator -> Prop :=
| reach_new a : NewIPAllocator cidr = Ok a -> reachable cidr a
| reach_allocate a ip a' : reachable cidr a -> Allocate a = Ok (ip, a') -> reachable cidr a'
| reach_release a b o a' : reachable cidr a -> base (E:=alloc_err) (network a) = Ok b -> o ∈ used a ->
    Release a (address b o) = Ok a' -> reachable cidr a'.

Lemma reachable_wf cidr a : reachable cidr a -> exists b, wf b a.
Proof.
  induction 1 as [a Hnew|a ip a' _ [b Hwf] Ha|a b' o a' _ [b Hwf] Hb Ho Hr].
  - by eapply NewIPAllocator_wf.
  - exists b. pose proof (Allocate_spec b a Hwf) as H. rewrite Ha in H.
    destruct H as (o & _ & Ho & _ & ->). by apply take_offset_wf.
  - exists b. pose proof Hwf as [Hb' Hbr Hm Hn Hu]. rewrite Hb' in Hb. injection Hb as <-.
    specialize (Hu o Ho) as Ho'. rewrite (Release_spec b) in Hr by (try done; lia). injection Hr as <-.
    split; cbn [network max next used]; [done|done|done| |].
    + case_match; zb; lia.
    + intros x [Hx _]%elem_of_difference. auto.
Qed.

(** *** The network of a pool *)

Lemma be_value_cons acc c l : be_value acc (c :: l) = (acc * 256 + Z_of_byte c) * 256 ^ Z.of_nat (length l) + be_value 0 l.
Proof.
  revert acc c. induction l as [|d l IH]; intros acc c; [cbn; lia|].
  change (be_value acc (c :: d :: l)) with (be_value (acc * 256 + Z_of_byte c) (d :: l)).
  rewrite IH, (IH 0 d). cbn [length]. rewrite Nat2Z.inj_succ, Z.pow_succ_r by lia. lia.
Qed.

Lemma mask_bytes_length n ones : length (mask_bytes n ones) = n.
Proof. revert ones. induction n as [|n IH]; intros ones; cbn [mask_bytes]; [done|]. destruct (8 <=? ones); cbn; by rewrite IH. Qed.

Lemma mask_none l : be_value 0 (mask_ip l (mask_bytes (length l) 0)) = 0.
Proof.
  induction l as [|c l IH]; [done|]. unfold mask_ip in *. cbn [length mask_bytes zip_with Z.leb Z.compare]. rewrite be_value_cons, IH.
  assert (byte_and c (byte_of_Z (255 - Z.shiftr 255 0)) = Byte.x00) as -> by (by destruct c). change (Z_of_byte Byte.x00) with 0. lia.
Qed.

Lemma mask_byte_divides c ones : 0 <= ones < 8 ->
  (2 ^ (8 - ones) | Z_of_byte (byte_and c (byte_of_Z (255 - Z.shiftr 255 ones)))).
Proof.
  intros Ho. apply Z.mod_divide; [lia|]. assert (Hin : ones ∈ [0; 1; 2; 3; 4; 5; 6; 7]) by (rewrite !elem_of_cons; lia).
  rewrite !elem_of_cons, elem_of_nil in Hin. repeat destruct Hin as [->|Hin]; [by destruct c..|done].
Qed.

Lemma mask_divides l ones : 0 <= ones <= 8 * Z.of_nat (length l) ->
  (2 ^ (8 * Z.of_nat (length l) - ones) | be_value 0 (mask_ip l (mask_bytes (length l) ones))).
Proof.
  revert ones. induction l as [|c l IH]; intros ones Ho; [cbn; apply Z.divide_0_r|].
  unfold mask_ip in *. cbn [length mask_bytes zip_with] in *. rewrite Nat2Z.inj_succ in *. destruct (Z.leb_spec 8 ones).
  - cbn [zip_with]. rewrite be_value_cons. specialize (IH (ones - 8) ltac:(lia)).
    replace (8 * Z.succ (Z.of_nat (length l)) - ones) with (8 * Z.of_nat (length l) - (ones - 8)) by lia.
    apply Z.divide_add_r; [|done]. apply Z.divide_mul_r. rewrite length_zip_with, mask_bytes_length, Nat.min_id.
    change 256 with (2 ^ 8). rewrite <- Z.pow_mul_r by lia. exists (2 ^ (ones - 8)). rewrite <- Z.pow_add_r by lia. f_equal. lia.
  - cbn [zip_with]. rewrite be_value_cons, length_zip_with, mask_bytes_length, Nat.min_id. fold (mask_ip l (mask_bytes (length l) 0)).
    rewrite mask_none, Z.add_0_r. destruct (mask_byte_divides c ones ltac:(lia)) as [k ->].
    exists k. change 256 with (2 ^ 8). rewrite <- Z.pow_mul_r by lia.
    replace (8 * Z.succ (Z.of_nat (length l)) - ones) with ((8 - ones) + 8 * Z.of_nat (length l)) by lia. rewrite Z.pow_add_r by lia. lia.
Qed.

Lemma dtoi_nonneg s n seen k rest : 0 <= n -> dtoi s n seen = Some (k, rest) -> 0 <= k.
Proof.
  revert n seen. induction s as [|c s IH]; intros n seen Hn; cbn [dtoi]; [destruct seen; naive_solver|].
  destruct (is_digit c) eqn:Ed; [|destruct seen; naive_solver]. case_match; [done|]. apply IH.
  unfold is_digit in Ed. zb. lia.
Qed.

Lemma mask_size_prefix ones : 0 <= ones <= 32 -> mask_size (CIDRMask ones 4) = ones.
Proof.
  intros Ho. assert (H : forallb (fun k => mask_size (CIDRMask (Z.of_nat k) 4) =? Z.of_nat k) (seq 0 33) = true) by (vm_compute; reflexivity).
  rewrite forallb_forall in H. specialize (H (Z.to_nat ones)). rewrite Z2Nat.id in H by lia. apply Z.eqb_eq, H, in_seq. lia.
Qed.

(** The prefix of an IPv4 network: its length, and the number it is a multiple of. *)
Lemma v4_network cidr n : ParseCIDR cidr = Some n -> length (net_ip n) = 4%nat ->
  length (net_mask n) = 4%nat /\ 0 <= mask_size (net_mask n) <= 32 /\ (2 ^ (32 - mask_size (net_mask n)) | be_value 0 (net_ip n)).
Proof.
  unfold ParseCIDR. destruct (IndexByte cidr _) as [i|]; [|done]. destruct (ParseAddr _) as [[ip []]|]; [done| |done].
  destruct (dtoi _ 0 false) as [[k []]|] eqn:Ek; [|done..]. apply dtoi_nonneg in Ek; [|done].
  destruct (Z.ltb_spec (Z.of_nat (8 * length ip)) k) as [|Hle]; [done|]. intros [= <-]. cbn [net_ip net_mask]. unfold mask_ip at 1.
  rewrite length_zip_with. unfold CIDRMask. rewrite mask_bytes_length, Nat.min_id. intros Hip. split; [done|].
  pose proof (mask_divides ip k ltac:(lia)) as Hd. rewrite Hip in *. fold (CIDRMask k 4) in *. rewrite mask_size_prefix by lia. done.
Qed.

Lemma pool_size cidr n a : ParseCIDR cidr = Some n -> length (net_ip n) = 4%nat -> reachable cidr a ->
  network a = n /\ max a = 2 ^ (32 - mask_size (net_mask n)) - 1 /\ gateway a = put32 (u32 (be_value 0 (net_ip n) + 1)).
Proof.
  intros Hn H4. destruct (v4_network _ _ Hn H4) as (Hm & Ho & _).
  induction 1 as [a Hnew|a ip a' _ IH Ha|a b o a' _ IH Hb _ Hr].
  - unfold NewIPAllocator in Hnew. rewrite Hn in Hnew. unfold base, To4 in Hnew. rewrite decide_True in Hnew by done.
    destruct (net_ip n) as [|x [|y [|z [|w []]]]] eqn:Ei; [done..| |done]. cbn [get32 mbind res_bind] in Hnew. injection Hnew as <-.
    cbn [network max gateway]. split; [done|]. split; [|done]. unfold blen. rewrite Hm. change (8 * Z.of_nat 4) with 32.
    rewrite Z.shiftl_1_l. destruct (decide (mask_size (net_mask n) = 0)) as [->|]; [done|].
    assert (2 ^ 0 <= 2 ^ (32 - mask_size (net_mask n)) < 2 ^ 32) by (split; [apply Z.pow_le_mono_r|apply Z.pow_lt_mono_r]; lia).
    by rewrite !u32_small by (rewrite ?u32_small; lia).
  - unfold Allocate in Ha. destruct (base (network a)); [|done..]. cbn [mbind res_bind] in Ha. destruct (or_else _ _); [|done].
    by injection Ha as _ <-.
  - unfold Release in Hr. destruct (To4 (address b o)); [|by injection Hr as <-]. rewrite Hb in Hr. cbn [mbind res_bind] in Hr.
    destruct (get32 _); [|done..]. cbn [mbind res_bind] in Hr. by injection Hr as <-.
Qed.

(** C39: the pool of an IPv4 network with [hosts] addresses.  In every state reached by
    allocations and by releases of addresses that are allocated, [Allocate] returns the
    address at an offset from 2 to [hosts - 2] of the network, hence not the network
    address, the gateway (offset 1) or the broadcast address (offset [hosts - 1]); it
    was not in use and is in use afterwards.  It fails only when all these offsets are
    in use.  A release of any other address is excluded: it makes the pool hand out
    reserved addresses. *)
Theorem mesh_pool_correct cidr n a :
  ParseCIDR cidr = Some n -> length (net_ip n) = 4%nat -> reachable cidr a ->
  let hosts := 2 ^ (32 - mask_size (net_mask n)) in
  let b := be_value 0 (net_ip n) in
  (hosts | b) /\ gateway a = put32 (u32 (b + 1)) /\
  match Allocate a with
  | Ok (ip, a') => exists o, ip = put32 (b + o) /\ 2 <= o < hosts - 1 /\ o ∉ used a /\ used a' = {[o]} ∪ used a
  | Err e => e = Exhausted /\ forall o, 2 <= o < hosts - 1 -> o ∈ used a
  | Panic => False
  end.
Proof.
  intros Hn H4 Hr hosts b. destruct (pool_size _ _ _ Hn H4 Hr) as (Hnet & Hmax & Hgw). destruct (v4_network _ _ Hn H4) as (_ & Ho & [q Hd]).
  fold hosts in Hmax, Hd. fold b in Hgw, Hd. split; [by exists q|]. split; [done|].
  apply reachable_wf in Hr as [b' Hwf]. pose proof (Allocate_spec b' a Hwf) as H. rewrite Hmax in H.
  destruct Hwf as [Hb Hbr _ _ _]. assert (b' = b) as ->.
  { specialize (Hb alloc_err). rewrite Hnet in Hb. unfold base, To4 in Hb. rewrite decide_True in Hb by done. unfold b.
    destruct (net_ip n) as [|x [|y [|z [|w []]]]]; [done..| |done]. by injection Hb. }
  destruct (Allocate a) as [[ip a']| |]; [|done..]. destruct H as (o & -> & Hoff & Hu & ->). exists o. split_and!; try done; try lia.
  unfold address. rewrite u32_small; [done|]. assert (Hh : 2 ^ 32 = hosts * 2 ^ mask_size (net_mask n)) by (unfold hosts; rewrite <- Z.pow_add_r by lia; f_equal; lia).
  assert (0 < hosts) by (unfold hosts; lia). assert (q + 1 <= 2 ^ mask_size (net_mask n)) by nia. nia.
Qed.

Lemma mesh_pool_correct_witness :
  exists a, reachable "10.7.0.0/29" a /\
  match Allocate a with
  | Ok (ip, a') => exists o, ip = put32 (be_value 0 [Byte.x0a; Byte.x07; Byte.x00; Byte.x00] + o) /\ 2 <= o < 7
  | _ => False
  end.
Proof.
  destruct (NewIPAllocator "10.7.0.0/29") as [a0| |] eqn:H0; [|vm_compute in H0; discriminate..].
  exists a0. assert (reachable "10.7.0.0/29" a0) as Hr by by constructor. split; [exact Hr|].
  pose proof (mesh_pool_correct "10.7.0.0/29" {| net_ip := [Byte.x0a; Byte.x07; Byte.x00; Byte.x00]; net_mask := [Byte.xff; Byte.xff; Byte.xff; Byte.xf8] |} a0
    ltac:(vm_compute; reflexivity) ltac:(reflexivity) Hr) as (_ & _ & H).
  change (mask_size _) with 29 in H. destruct (Allocate a0) as [[ip a']|e|] eqn:E.
  - destruct H as (o & H1 & H2 & _). exists o. split; [exact H1|exact H2].
  - vm_compute in H0. injection H0 as <-. vm_compute in E. discriminate E.
  - exact H.
Defined.

(** Releasing the gateway's address gives it away.  In a network of more than
    two addresses, after a release of the address at offset 1 the next allocation
    returns that address, although it is reserved for the gateway. *)
Theorem mesh_gateway_released cidr a :
  reachable cidr a -> 1 < max a ->
  exists b a' a'', base (E:=alloc_err) (network a) = Ok b /\
    Release a (address b 1) = Ok a' /\ Allocate a' = Ok (address b 1, a'').
Proof.
  intros [b Hwf]%reachable_wf Hm. pose proof Hwf as [Hb Hbr _ [Hn _] Hu].
  exists b. do 2 eexists. split; [apply Hb|]. split; [apply Release_spec; [done|lia]|].
  rewrite (proj2 (Z.ltb_lt 1 (next a))) by lia. unfold Allocate. cbn [network]. rewrite Hb. cbn [mbind res_bind].
  cbn [used next max]. assert (scan (used a ∖ {[1]}) 1 (max a) = Some 1) as ->; [|done].
  unfold scan. destruct (Z.to_nat (max a - 1)) eqn:He; [lia|]. cbn [first_free].
  by rewrite bool_decide_false by set_solver.
Qed.

Lemma mesh_gateway_released_witness :
  exists a, reachable "10.7.0.0/29" a /\ 1 < max a /\
  exists b a' a'', base (E:=alloc_err) (network a) = Ok b /\
    Release a (address b 1) = Ok a' /\ Allocate a' = Ok (address b 1, a'').
Proof.
  destruct (NewIPAllocator "10.7.0.0/29") as [a0| |] eqn:H0; [|vm_compute in H0; discriminate..].
  exists a0. assert (reachable "10.7.0.0/29" a0) as Hr by by constructor.
  assert (1 < max a0) as Hm by (vm_compute in H0; injection H0 as <-; by vm_compute).
  split; [exact Hr|]. split; [exact Hm|]. exact (mesh_gateway_released "10.7.0.0/29" a0 Hr Hm).
Defined.

End Alloc.

(** ** IPv6 and dual-stack allocation (peertable.go) *)

Module Alloc6.
Import Alloc.

Record IPv6Allocator := {
  network6 : IPNet;
  prefix6 : bytes;
  next6 : Z;
  max6 : Z;
  used6 : gset Z;
}.

Definition NewIPv6Allocator (cidr : string) : res alloc_err IPv6Allocator :=
  match ParseCIDR cidr with
  | None => Err ParseErr
  | Some ipNet =>
      if bool_decide (is_Some (To4 (net_ip ipNet))) then Err NotIPv6
      else
        let ones := mask_size (net_mask ipNet) in
        if 64 <? ones then Err PrefixTooLong
        else
          let prefix := go_copy (go_make 16) 0 16 (default [] (To16 (net_ip ipNet))) in
          let hostBits := 128 - ones in
          let maxVal := if 64 <=? hostBits then 2 ^ 64 - 1 else u64 (Z.shiftl 1 hostBits) - 1 in
          Ok {| network6 := ipNet; prefix6 := prefix; next6 := 2; max6 := maxVal; used6 := ∅ |}
  end.

(** [makeIP]: the offset replaces the lower 64 bits of the prefix. *)
Definition makeIP (a : IPv6Allocator) (offset : Z) : bytes :=
  take 8 (prefix6 a) ++ put64 offset.

Definition take_offset6 (a : IPv6Allocator) (offset : Z) : IPv6Allocator :=
  {| network6 := network6 a; prefix6 := prefix6 a; next6 := u64 (offset + 1); max6 := max6 a;
     used6 := {[offset]} ∪ used6 a |}.

(** The forward scan gives up after 10000 offsets. *)
Definition Allocate6 (a : IPv6Allocator) : res alloc_err (bytes * IPv6Allocator) :=
  let start := 2 in
  match or_else (scan (used6 a) (next6 a) (Z.min (max6 a) (u64 (next6 a + 10000))))
                (scan (used6 a) start (next6 a)) with
  | Some offset => Ok (makeIP a offset, take_offset6 a offset)
  | None => Err Exhausted
  end.

Definition Release6 (a : IPv6Allocator) (ip : bytes) : IPv6Allocator :=
  match To16 ip with
  | None => a
  | Some ip16 =>
      let offset := be_value 0 (drop 8 ip16) in
      {| network6 := network6 a; prefix6 := prefix6 a;
         next6 := if offset <? next6 a then offset else next6 a;
         max6 := max6 a; used6 := used6 a ∖ {[offset]} |}
  end.

Definition Gateway6 (a : IPv6Allocator) : bytes := makeIP a 1.

(** [DualStackAllocator] *)
Record DualStackAllocator := { v4 : IPAllocator; v6 : IPv6Allocator }.

Definition NewDualStackAllocator (v4CIDR v6CIDR : string) : res alloc_err DualStackAllocator :=
  a4 ← NewIPAllocator v4CIDR;
  a6 ← NewIPv6Allocator v6CIDR;
  Ok {| v4 := a4; v6 := a6 |}.

(** [AllocateV4], [AllocateV6], [ReleaseV4] and [ReleaseV6] act on one half. *)
Definition AllocateV4 (d : DualStackAllocator) : res alloc_err (bytes * DualStackAllocator) :=
  '(ip, a) ← Allocate (v4 d); Ok (ip, {| v4 := a; v6 := v6 d |}).
Definition AllocateV6 (d : DualStackAllocator) : res alloc_err (bytes * DualStackAllocator) :=
  '(ip, a) ← Allocate6 (v6 d); Ok (ip, {| v4 := v4 d; v6 := a |}).
Definition ReleaseV4 (d : DualStackAllocator) (ip : bytes) : res alloc_err DualStackAllocator :=
  a ← Release (v4 d) ip; Ok {| v4 := a; v6 := v6 d |}.
Definition ReleaseV6 (d : DualStackAllocator) (ip : bytes) : DualStackAllocator :=
  {| v4 := v4 d; v6 := Release6 (v6 d) ip |}.

(** [AllocateDualStack]: the outcome and the allocator afterwards. *)
Definition AllocateDualStack (d : DualStackAllocator)
    : res alloc_err (bytes * bytes) * DualStackAllocator :=
  match Allocate (v4 d) with
  | Err e => (Err e, d)
  | Panic => (Panic, d)
  | Ok (ip4, a4) =>
      match Allocate6 (v6 d) with
      | Ok (ip6, a6) => (Ok (ip4, ip6), {| v4 := a4; v6 := a6 |})
      | Err e =>
          match Release a4 ip4 with
          | Ok a4' => (Err e, {| v4 := a4'; v6 := v6 d |})
          | _ => (Panic, {| v4 := a4; v6 := v6 d |})
          end
      | Panic => (Panic, {| v4 := a4; v6 := v6 d |})
      end
  end.

(** A dual-stack allocation is all or nothing.  From a reachable IPv4 half,
    when no IPv6 address can be had the IPv4 address is given back: the same
    addresses are in use as before. *)
Theorem dual_stack_rollback cidr d e d' :
  reachable cidr (v4 d) -> AllocateDualStack d = (Err e, d') ->
  used (v4 d') = used (v4 d) /\ v6 d' = v6 d.
Proof.
  intros [b Hwf]%reachable_wf. unfold AllocateDualStack. pose proof (Allocate_spec b _ Hwf) as H.
  destruct (Allocate (v4 d)) as [[ip4 a4]|e4|]; [|by intros [= <- <-]|done].
  destruct H as (o & -> & Ho & Hu & ->). destruct (Allocate6 (v6 d)) as [[ip6 a6]|e6|]; [done| |done].
  rewrite (Release_spec b) by (first [by apply take_offset_wf|pose proof (wf_max _ _ Hwf); lia]).
  intros [= <- <-]. cbn [v4 v6 used take_offset]. split; [|done]. set_solver.
Qed.

(** A full IPv6 half: its largest offset is 2, so nothing can be allocated. *)
Definition full6 : IPv6Allocator :=
  {| network6 := {| net_ip := []; net_mask := [] |}; prefix6 := go_make 16; next6 := 2; max6 := 2;
     used6 := ∅ |}.

Lemma dual_stack_rollback_witness :
  exists a, reachable "10.7.0.0/29" a /\
  exists d', AllocateDualStack {| v4 := a; v6 := full6 |} = (Err Exhausted, d') /\
    (used (v4 d') = used a /\ v6 d' = full6).
Proof.
  destruct (NewIPAllocator "10.7.0.0/29") as [a0| |] eqn:H0; [|vm_compute in H0; discriminate..].
  exists a0. assert (reachable "10.7.0.0/29" a0) as Hr by by constructor. split; [exact Hr|].
  destruct (AllocateDualStack {| v4 := a0; v6 := full6 |}) as [r d'] eqn:Hd.
  assert (r = Err Exhausted) as ->.
  { vm_compute in H0. injection H0 as <-. vm_compute in Hd. by injection Hd as <- _. }
  exists d'. split; [reflexivity|].
  exact (dual_stack_rollback "10.7.0.0/29" {| v4 := a0; v6 := full6 |} Exhausted d' Hr Hd).
Defined.

(** Allocate [n] addresses. *)
Fixpoint allocate_many (n : nat) (a : IPv6Allocator) : IPv6Allocator :=
  match n with
  | O => a
  | S n => match Allocate6 a with Ok (_, a') => allocate_many n a' | _ => a end
  end.

(** Offsets 2 to [k]-1 are in use. *)
Definition dense (a : IPv6Allocator) (k : Z) : Prop := forall x, x ∈ used6 a <-> 2 <= x < k.

Lemma scan_first us lo hi : lo < hi -> lo ∉ us -> scan us lo hi = Some lo.
Proof.
  intros H Hu. unfold scan. destruct (Z.to_nat (hi - lo)) eqn:He; [lia|]. cbn [first_free].
  by rewrite bool_decide_false.
Qed.

Lemma allocate_many_dense n a k :
  dense a k -> next6 a = k -> 2 <= k -> k + Z.of_nat n + 10000 < max6 a -> max6 a < 2 ^ 64 ->
  dense (allocate_many n a) (k + Z.of_nat n) /\ next6 (allocate_many n a) = k + Z.of_nat n /\
  max6 (allocate_many n a) = max6 a /\ prefix6 (allocate_many n a) = prefix6 a.
Proof.
  revert a k; induction n as [|n IH]; intros a k Hd Hn Hk Hm H64; cbn [allocate_many];
    [rewrite Z.add_0_r; done|].
  unfold Allocate6, u64. rewrite Hn, Z.mod_small, scan_first by (try lia; rewrite (Hd k); lia).
  cbn [or_else]. destruct (IH (take_offset6 a k) (k + 1)) as (H1 & H2 & H3 & H4).
  - intros x. cbn [take_offset6 used6]. rewrite elem_of_union, elem_of_singleton, (Hd x). lia.
  - cbn [take_offset6 next6]. unfold u64. rewrite Z.mod_small; lia.
  - lia.
  - cbn [take_offset6 max6]. lia.
  - done.
  - replace (k + Z.of_nat (S n)) with (k + 1 + Z.of_nat n) by lia. done.
Qed.

Lemma NewIPv6Allocator_state cidr a :
  NewIPv6Allocator cidr = Ok a ->
  dense a 2 /\ next6 a = 2 /\ max6 a = 2 ^ 64 - 1 /\ length (prefix6 a) = 16%nat.
Proof.
  unfold NewIPv6Allocator. destruct (ParseCIDR cidr) as [n|]; [|done].
  destruct (bool_decide _); [done|]. destruct (Z.ltb_spec 64 (mask_size (net_mask n))); [done|].
  rewrite (proj2 (Z.leb_le 64 _)) by lia. intros [= <-]. cbn [used6 next6 max6 prefix6].
  split_and!; [|done|done|].
  - intros x. cbn [used6]. split; [by intros ?%not_elem_of_empty|lia].
  - unfold go_copy. rewrite !length_app, !length_take, length_drop. simpl (length (go_make 16)). lia.
Qed.

Lemma Release6_makeIP a o :
  length (prefix6 a) = 16%nat -> 0 <= o < 2 ^ 32 ->
  Release6 a (makeIP a o) = {| network6 := network6 a; prefix6 := prefix6 a;
    next6 := if o <? next6 a then o else next6 a; max6 := max6 a; used6 := used6 a ∖ {[o]} |}.
Proof.
  intros Hp Ho. unfold Release6, makeIP. rewrite To16_16.
  - rewrite drop_app_length' by (rewrite length_take; lia).
    assert (be_value 0 (put64 o) = o) as ->; [|done].
    unfold put64. rewrite Z.shiftr_div_pow2, Z.div_small, (u32_small o), be_value_app by lia.
    change (be_value 0 (put32 (u32 0))) with 0. by apply be_value_put32.
  - rewrite length_app, length_take, Hp. done.
Qed.

(** The IPv6 pool can report exhaustion while almost empty.  Let more than
    10000 peers join a new pool, the first one leave and one join again: every
    further allocation fails, although all higher offsets of the 64-bit range are
    free, because the search looks at 10000 offsets only. *)
Theorem ipv6_exhausted_early cidr a n :
  NewIPv6Allocator cidr = Ok a -> 10001 <= Z.of_nat n < 2 ^ 63 ->
  let a1 := allocate_many n a in
  exists ip a2, Allocate6 (Release6 a1 (makeIP a1 2)) = Ok (ip, a2) /\
    Allocate6 a2 = Err Exhausted /\
    (forall o, Z.of_nat n + 2 <= o -> o ∉ used6 a2) /\ max6 a2 = 2 ^ 64 - 1.
Proof.
  intros Hnew Hn a1. destruct (NewIPv6Allocator_state _ _ Hnew) as (Hd & Hx & Hm & Hp).
  destruct (allocate_many_dense n a 2) as (Hd1 & Hn1 & Hm1 & Hp1); [done|done|lia|lia|lia|].
  fold a1 in Hd1, Hn1, Hm1, Hp1. rewrite Release6_makeIP by (try lia; by rewrite Hp1).
  rewrite (proj2 (Z.ltb_lt 2 (next6 a1))) by lia.
  set (a' := {| network6 := _ |}). assert (2 ∉ used6 a') as H2 by (unfold a'; set_solver).
  exists (makeIP a' 2), (take_offset6 a' 2). split.
  - unfold Allocate6, u64. cbn [a' next6 max6 used6]. rewrite Hm1, Hm, scan_first; [done|by vm_compute|exact H2].
  - assert (dense (take_offset6 a' 2) (2 + Z.of_nat n)) as Hd2.
    { intros x. cbn [take_offset6 a' used6]. specialize (Hd1 x).
      rewrite elem_of_union, elem_of_singleton, elem_of_difference, elem_of_singleton, Hd1. lia. }
    split_and!.
    + unfold Allocate6. cbn [take_offset6 a' next6 max6]. rewrite Hm1, Hm.
      change (u64 (2 + 1)) with 3. change (Z.min (2 ^ 64 - 1) (u64 (3 + 10000))) with 10003.
      assert (scan (used6 (take_offset6 a' 2)) 3 10003 = None) as ->
        by (apply scan_None; intros x Hx'; apply Hd2; lia).
      assert (scan (used6 (take_offset6 a' 2)) 2 3 = None) as ->
        by (apply scan_None; intros x Hx'; apply Hd2; lia).
      done.
    + intros o Ho Hin. apply Hd2 in Hin. lia.
    + cbn [take_offset6 a' max6]. lia.
Qed.

Lemma ipv6_exhausted_early_witness :
  exists a, NewIPv6Allocator "fd00:7::/64" = Ok a /\
  let a1 := allocate_many (Z.to_nat 20000) a in
  exists ip a2, Allocate6 (Release6 a1 (makeIP a1 2)) = Ok (ip, a2) /\
    Allocate6 a2 = Err Exhausted /\
    (forall o, Z.of_nat (Z.to_nat 20000) + 2 <= o -> o ∉ used6 a2) /\ max6 a2 = 2 ^ 64 - 1.
Proof.
  destruct (NewIPv6Allocator "fd00:7::/64") as [a| |] eqn:H; [|vm_compute in H; discriminate..].
  exists a. split; [reflexivity|].
  apply (ipv6_exhausted_early "fd00:7::/64" a (Z.to_nat 20000) H). lia.
Defined.

End Alloc6.

(** ** Frames and the handshake (mesh.go) *)

Module Frame.

Definition ProtocolVersion := 1.
Definition HandshakeSize := 16.
Definition MaxFrameSize := 65535.

Inductive frame_err :=
| FrameTooLarge
| FrameWrite
| FrameRead (e : io_err)
| ZeroLength
| HandshakeTooShort
| BadVersion (v : Z).

Definition WriteFrame (w : writer) (payload : bytes) : writer * res frame_err unit :=
  if MaxFrameSize <? blen payload then (w, Err FrameTooLarge)
  else
    Shared.then_write (Shared.write_all FrameWrite w (put16 (u16 (blen payload)))) (fun w =>
    Shared.write_all FrameWrite w payload).

Definition ReadFrame (r : bytes) : res frame_err (bytes * bytes) :=
  '(hdr, r) ← wrap_err FrameRead (ReadFull 2 r);
  length ← get16 hdr;
  if length =? 0 then Err ZeroLength
  else wrap_err FrameRead (ReadFull (Z.to_nat length) r).

(** [copy(buf[a:a+4], ip.To4())] into zeroed memory. *)
Definition field (ip : bytes) : bytes := default (go_make 4) (To4 ip).

Definition EncodeHandshake (ip mask gateway : bytes) : bytes :=
  byte_of_Z ProtocolVersion :: go_make 3 ++ field ip ++ field mask ++ field gateway.

Definition DecodeHandshake (data : bytes) : res frame_err (bytes * bytes * bytes) :=
  if blen data <? HandshakeSize then Err HandshakeTooShort
  else
    version ← go_index data 0;
    if negb (version =? ProtocolVersion) then Err (BadVersion version)
    else
      ip ← go_slice data 4 8;
      mask ← go_slice data 8 12;
      gateway ← go_slice data 12 16;
      Ok (ip, mask, gateway).

(** A stream of frames, one after the other. *)
Fixpoint write_frames (w : writer) (ps : list bytes) : writer * res frame_err unit :=
  match ps with
  | [] => (w, Ok tt)
  | p :: ps => Shared.then_write (WriteFrame w p) (fun w => write_frames w ps)
  end.

(** Read [n] frames. *)
Fixpoint read_frames (n : nat) (r : bytes) : res frame_err (list bytes * bytes) :=
  match n with
  | O => Ok ([], r)
  | S n => '(p, r) ← ReadFrame r; '(ps, r) ← read_frames n r; Ok (p :: ps, r)
  end.

Lemma WriteFrame_buffer out p :
  blen p <= MaxFrameSize ->
  WriteFrame (Writer out None) p = (Writer (out ++ put16 (blen p) ++ p) None, Ok tt).
Proof.
  intros Hp. unfold WriteFrame. rewrite (proj2 (Z.ltb_ge _ _)) by done. unfold MaxFrameSize in Hp.
  pose proof (blen_nonneg p). rewrite u16_small by lia. cbn. by rewrite <- app_assoc.
Qed.

Lemma ReadFrame_bytes p rest :
  1 <= blen p <= MaxFrameSize -> ReadFrame (put16 (blen p) ++ p ++ rest) = Ok (p, rest).
Proof.
  unfold MaxFrameSize. intros Hp. unfold ReadFrame. rewrite (Shared.read_app _ 2 (put16 _)) by done.
  cbn [mbind res_bind]. rewrite get16_put16' by lia. cbn [mbind res_bind].
  rewrite (proj2 (Z.eqb_neq _ _)) by lia. by rewrite (Shared.read_app _ _ p) by (unfold blen; lia).
Qed.

Definition framed (p : bytes) : bytes := put16 (blen p) ++ p.

(** Reading well-formed frames and then [n] more. *)
Lemma read_frames_framed ps n r :
  Forall (fun p => 1 <= blen p <= MaxFrameSize) ps ->
  read_frames (length ps + n) (flat_map framed ps ++ r) =
  ('(qs, r') ← read_frames n r; Ok (ps ++ qs, r')).
Proof.
  induction 1 as [|p ps Hp _ IH]; [simpl; by destruct (read_frames n r) as [[? ?]| |]|].
  cbn [flat_map length Nat.add read_frames]. unfold framed at 1.
  rewrite <- !app_assoc, ReadFrame_bytes by done. cbn [mbind res_bind]. rewrite IH.
  by destruct (read_frames n r) as [[? ?]| |].
Qed.

Lemma write_frames_buffer out ps :
  Forall (fun p => blen p <= MaxFrameSize) ps ->
  write_frames (Writer out None) ps =
  (Writer (out ++ flat_map framed ps) None, Ok tt).
Proof.
  intros H. revert out; induction H as [|p ps Hp _ IH]; intros out; cbn [write_frames flat_map];
    [by rewrite app_nil_r|].
  rewrite WriteFrame_buffer by done. cbn [Shared.then_write]. rewrite IH. by rewrite <- !app_assoc.
Qed.

(** Frames keep their boundaries.  A sequence of packets of 1 to 65535 bytes
    written to a stream is read back as the same sequence; an empty packet is
    written without complaint and makes the reader fail at that point. *)
Theorem mesh_frames_roundtrip ps rest :
  Forall (fun p => 1 <= blen p <= MaxFrameSize) ps ->
  exists out, write_frames w_buffer ps = (Writer out None, Ok tt) /\
    read_frames (length ps) (out ++ rest) = Ok (ps, rest) /\
    exists out', write_frames w_buffer (ps ++ [[]]) = (Writer out' None, Ok tt) /\
      read_frames (S (length ps)) (out' ++ rest) = Err ZeroLength.
Proof.
  intros Hps.
  assert (Forall (fun p => blen p <= MaxFrameSize) ps) as Hle by (eapply Forall_impl; [done|]; simpl; intros; lia).
  eexists. split; [by apply (write_frames_buffer [])|]. simpl app. split.
  - rewrite <- (Nat.add_0_r (length ps)), read_frames_framed by done. simpl. by rewrite app_nil_r.
  - eexists. split.
    + apply (write_frames_buffer []). apply Forall_app. split; [done|]. constructor; [done|constructor].
    + simpl app. rewrite flat_map_app, <- app_assoc, <- Nat.add_1_r. by rewrite read_frames_framed.
Qed.

Lemma mesh_frames_roundtrip_witness :
  exists out, write_frames w_buffer [str_bytes "one"; str_bytes "two"] = (Writer out None, Ok tt) /\
    read_frames 2 (out ++ []) = Ok ([str_bytes "one"; str_bytes "two"], []) /\
    exists out', write_frames w_buffer ([str_bytes "one"; str_bytes "two"] ++ [[]]) = (Writer out' None, Ok tt) /\
      read_frames 3 (out' ++ []) = Err ZeroLength.
Proof.
  apply (mesh_frames_roundtrip [str_bytes "one"; str_bytes "two"] []).
  repeat constructor; by vm_compute.
Defined.

Lemma blen_field ip : blen (field ip) = 4.
Proof.
  unfold field. destruct (To4 ip) as [v|] eqn:H; [|done]. apply To4_length in H. simpl. unfold blen. lia.
Qed.

(** The handshake survives the wire: the address, the mask and the gateway
    arrive in their 4-byte forms, whatever follows. *)
Theorem mesh_handshake_roundtrip ip mask gateway rest :
  DecodeHandshake (EncodeHandshake ip mask gateway ++ rest) = Ok (field ip, field mask, field gateway).
Proof.
  pose proof (blen_field ip). pose proof (blen_field mask). pose proof (blen_field gateway).
  unfold DecodeHandshake, EncodeHandshake, HandshakeSize. set (V := byte_of_Z ProtocolVersion).
  set (Z3 := go_make 3). assert (blen Z3 = 3) by done. pose proof (blen_nonneg rest).
  cond_at. index_at (@nil byte) V (Z3 ++ field ip ++ field mask ++ field gateway ++ rest).
  change (Z_of_byte V =? ProtocolVersion) with true. cbn [negb].
  slice_at (V :: Z3) (field ip) (field mask ++ field gateway ++ rest).
  slice_at (V :: Z3 ++ field ip) (field mask) (field gateway ++ rest).
  slice_at (V :: Z3 ++ field ip ++ field mask) (field gateway) rest. done.
Qed.

End Frame.

(** ** The peer table (peertable.go) *)

Module Peers.
Import Netip.

(** [netip.AddrFromSlice] and [Unmap] *)
Definition vipKey (ip : bytes) : Addr :=
  if decide (length ip = 4%nat) then Addr4 (be_value 0 ip)
  else if decide (length ip = 16%nat) then
    if decide (take 12 ip = v4InV6Prefix) then Addr4 (be_value 0 (drop 12 ip))
    else Addr6 (be_value 0 ip)
  else AddrZero.

(** [PeerTable]: each peer's stream by a number, with what it has received and
    whether a write to it fails. *)
Record PeerTable := {
  peers : gmap Addr nat;
  received : gmap nat (list bytes);
  broken : gset nat;
}.

Definition NewPeerTable : PeerTable := {| peers := ∅; received := ∅; broken := ∅ |}.

Definition Register (pt : PeerTable) (ip : bytes) (w : nat) : PeerTable :=
  {| peers := <[vipKey ip := w]> (peers pt); received := received pt; broken := broken pt |}.

Definition Unregister (pt : PeerTable) (ip : bytes) : PeerTable :=
  {| peers := delete (vipKey ip) (peers pt); received := received pt; broken := broken pt |}.

(** [w.Write(pkt)] on a peer's stream. *)
Definition deliver (pt : PeerTable) (w : nat) (pkt : bytes) : bool * PeerTable :=
  if bool_decide (w ∈ broken pt) then (false, pt)
  else (true, {| peers := peers pt;
                 received := <[w := default [] (received pt !! w) ++ [pkt]]> (received pt);
                 broken := broken pt |}).

(** The destination of a packet, [None] when there is none. *)
Definition dst_key (pkt : bytes) : res unit (option Addr) :=
  if blen pkt <? 1 then Ok None
  else
    b0 ← go_index pkt 0;
    let version := Z.shiftr b0 4 in
    if version =? 4 then
      if blen pkt <? 20 then Ok None
      else d ← go_slice pkt 16 20; Ok (Some (Addr4 (be_value 0 d)))
    else if version =? 6 then
      if blen pkt <? 40 then Ok None
      else d ← go_slice pkt 24 40; Ok (Some (Addr6 (be_value 0 d)))
    else Ok None.

Definition Forward (pt : PeerTable) (pkt : bytes) : res unit (bool * PeerTable) :=
  dst ← dst_key pkt;
  match dst with
  | None => Ok (false, pt)
  | Some dstKey =>
      match peers pt !! dstKey with
      | None => Ok (false, pt)
      | Some w => Ok (deliver pt w pkt)
      end
  end.

(** Histories of registrations. *)
Inductive op := OpRegister (ip : bytes) (w : nat) | OpUnregister (ip : bytes).
Definition apply (pt : PeerTable) (o : op) : PeerTable :=
  match o with OpRegister ip w => Register pt ip w | OpUnregister ip => Unregister pt ip end.

(** The stream last registered for an address and not unregistered since. *)
Fixpoint owner (key : Addr) (ops : list op) (last : option nat) : option nat :=
  match ops with
  | [] => last
  | OpRegister ip w :: ops => owner key ops (if decide (vipKey ip = key) then Some w else last)
  | OpUnregister ip :: ops => owner key ops (if decide (vipKey ip = key) then None else last)
  end.

Lemma peers_apply ops pt key :
  peers (fold_left apply ops pt) !! key = owner key ops (peers pt !! key).
Proof.
  revert pt; induction ops as [|o ops IH]; intros pt; [done|]. cbn [fold_left owner]. rewrite IH.
  destruct o as [ip w|ip]; cbn [apply Register Unregister peers owner];
    [rewrite lookup_insert|rewrite lookup_delete]; by repeat case_decide.
Qed.

Lemma dst_key_v4 hdr rest :
  length hdr = 20%nat -> (exists b, hdr !! 0%nat = Some b /\ Z.shiftr (Z_of_byte b) 4 = 4) ->
  dst_key (hdr ++ rest) = Ok (Some (vipKey (drop 16 hdr))).
Proof.
  intros Hl (b & Hb & Hv). destruct hdr as [|b0 hdr']; [done|]. injection Hb as ->. unfold dst_key.
  assert (blen (b :: hdr') = 20) as Hbl by (unfold blen; lia). pose proof (blen_nonneg rest).
  rewrite blen_app, Hbl, (proj2 (Z.ltb_ge _ 1)) by lia.
  rewrite (go_index_at _ [] b (hdr' ++ rest)) by done. cbn [mbind res_bind]. rewrite Hv.
  change (4 =? 4) with true. cbn iota. rewrite (proj2 (Z.ltb_ge _ 20)) by lia.
  assert (length (drop 16 (b :: hdr')) = 4%nat) as Hd by (rewrite length_drop, Hl; done).
  rewrite (go_slice_at _ (take 16 (b :: hdr')) (drop 16 (b :: hdr')) rest).
  - cbn [mbind res_bind]. unfold vipKey. by rewrite decide_True.
  - by rewrite app_assoc, take_drop.
  - unfold blen. rewrite length_take, Hl. done.
  - unfold blen. rewrite Hd. done.
Qed.

(** A packet reaches the peer that owns its destination and nobody else.  An
    IPv4 packet goes to the stream last registered for its destination address and
    not unregistered since; without one, or when that stream fails, nothing is
    written and the result is false. *)
Theorem mesh_forward_delivers ops hdr rest :
  length hdr = 20%nat -> (exists b, hdr !! 0%nat = Some b /\ Z.shiftr (Z_of_byte b) 4 = 4) ->
  let pt := fold_left apply ops NewPeerTable in
  let pkt := hdr ++ rest in
  Forward pt pkt =
  match owner (vipKey (drop 16 hdr)) ops None with
  | Some w => if decide (w ∈ broken pt) then Ok (false, pt)
              else Ok (true, {| peers := peers pt;
                     received := <[w := default [] (received pt !! w) ++ [pkt]]> (received pt);
                     broken := broken pt |})
  | None => Ok (false, pt)
  end.
Proof.
  intros Hl Hv pt pkt. unfold Forward, pkt. rewrite dst_key_v4 by done. cbn [mbind res_bind].
  unfold pt at 1. rewrite peers_apply. cbn [NewPeerTable peers]. rewrite lookup_empty.
  destruct (owner _ ops None) as [w|]; [|done]. unfold deliver.
  case_bool_decide; case_decide; done.
Qed.

(** An IPv4 header with the given destination. *)
Definition demo_hdr (dst : list Z) : bytes := map byte_of_Z ([69; 0; 0; 20; 0; 0; 0; 0; 64; 17; 0; 0; 10; 7; 0; 2] ++ dst).

Lemma mesh_forward_delivers_witness :
  let ops := [OpRegister (map byte_of_Z [10; 7; 0; 3]) 1; OpRegister (map byte_of_Z [10; 7; 0; 4]) 2] in
  Forward (fold_left apply ops NewPeerTable) (demo_hdr [10; 7; 0; 3] ++ []) =
  Ok (true, {| peers := peers (fold_left apply ops NewPeerTable);
               received := {[1%nat := [demo_hdr [10; 7; 0; 3]]]}; broken := ∅ |}).
Proof.
  refine (eq_trans (mesh_forward_delivers [OpRegister (map byte_of_Z [10; 7; 0; 3]) 1;
    OpRegister (map byte_of_Z [10; 7; 0; 4]) 2] (demo_hdr [10; 7; 0; 3]) [] eq_refl _) _).
  - exists (byte_of_Z 69). split; vm_compute; reflexivity.
  - vm_compute. reflexivity.
Defined.

End Peers.
