(* ===== verification/Circuit.v ===== *)
(** * Circuit breaker and resilient dialing
    (src/engine/circuit.go, src/engine/outbound_middleware.go)

    The breaker is a record with one function per method.  Go timers live in an
    environment: an armed timer has a deadline, [Stop] only removes a timer that
    is still armed, and a timer that has expired is a goroutine waiting for the
    breaker's mutex.  [ResilientOutbound.DialContext] is a small state machine per
    call, and a step relation interleaves calls, timers and the clock. *)

From S2P Require Import Prelude GoBytes.

Local Open Scope Z_scope.

Module Circuit.

Inductive CircuitState := CircuitClosed | CircuitOpen | CircuitHalfOpen.

#[export] Instance CircuitState_eq_dec : EqDecision CircuitState.
Proof. solve_decision. Defined.

Definition Second : Z := 1000000000.
Definition Minute : Z := 60 * Second.
Definition Millisecond : Z := 1000000.

(** [OnStateChange] is either nil or a callback; its calls are recorded in the
    environment. *)
Record CircuitBreakerConfig := MkConfig {
  Threshold : Z; BaseCooldown : Z; MaxCooldown : Z; OnStateChange : bool
}.

Record CircuitBreaker := MkBreaker {
  state : CircuitState;
  consecutiveFails : Z;
  threshold : Z;
  cooldown : Z;
  baseCooldown : Z;
  maxCooldown : Z;
  lastFailTime : option Z;
  resetTimer : option nat;
  halfOpenUsed : bool;
  onStateChange : bool
}.

(** The clock, the armed timers with their deadlines, the timers that have
    expired and whose function has not run yet, the next timer, and the calls of
    [onStateChange]. *)
Record Env := MkEnv {
  now : Z; armed : gmap nat Z; expired : list nat; next_id : nat;
  changes : list (CircuitState * Z)
}.

Definition orDefault (z d : Z) : Z := if z <=? 0 then d else z.

Definition NewCircuitBreaker (cfg : CircuitBreakerConfig) : CircuitBreaker :=
  let baseCooldown := orDefault (BaseCooldown cfg) (10 * Second) in
  MkBreaker CircuitClosed 0 (orDefault (Threshold cfg) 5) baseCooldown baseCooldown
    (orDefault (MaxCooldown cfg) (5 * Minute)) None None false (OnStateChange cfg).

Definition Allow (cb : CircuitBreaker) : CircuitBreaker * bool :=
  match state cb with
  | CircuitClosed => (cb, true)
  | CircuitOpen => (cb, false)
  | CircuitHalfOpen =>
      if halfOpenUsed cb then (cb, false)
      else (MkBreaker CircuitHalfOpen (consecutiveFails cb) (threshold cb) (cooldown cb)
              (baseCooldown cb) (maxCooldown cb) (lastFailTime cb) (resetTimer cb) true
              (onStateChange cb), true)
  end.

(** [t.Stop()] *)
Definition stop (t : option nat) (e : Env) : Env :=
  match t with
  | None => e
  | Some id => MkEnv (now e) (delete id (armed e)) (expired e) (next_id e) (changes e)
  end.

Definition notify (cb : CircuitBreaker) (s : CircuitState) (d : Z) (e : Env) : Env :=
  if onStateChange cb
  then MkEnv (now e) (armed e) (expired e) (next_id e) (changes e ++ [(s, d)])
  else e.

(** The state after [RecordSuccess] and [Reset]. *)
Definition closed (cb : CircuitBreaker) : CircuitBreaker :=
  MkBreaker CircuitClosed 0 (threshold cb) (baseCooldown cb) (baseCooldown cb) (maxCooldown cb)
    (lastFailTime cb) None false (onStateChange cb).

Definition RecordSuccess (cb : CircuitBreaker) (e : Env) : CircuitBreaker * Env :=
  let e := stop (resetTimer cb) e in
  (closed cb, if decide (state cb = CircuitClosed) then e else notify cb CircuitClosed 0 e).

Definition Reset (cb : CircuitBreaker) (e : Env) : CircuitBreaker * Env :=
  let e := stop (resetTimer cb) e in
  (closed cb, if decide (state cb = CircuitClosed) then e else notify cb CircuitClosed 0 e).

(** [startTimerLocked]; the new breaker field is the timer returned by
    [time.AfterFunc]. *)
Definition startTimerLocked (cb : CircuitBreaker) (d : Z) (e : Env) : CircuitBreaker * Env :=
  let e := stop (resetTimer cb) e in
  (MkBreaker (state cb) (consecutiveFails cb) (threshold cb) (cooldown cb) (baseCooldown cb)
     (maxCooldown cb) (lastFailTime cb) (Some (next_id e)) (halfOpenUsed cb) (onStateChange cb),
   MkEnv (now e) (<[next_id e := now e + d]> (armed e)) (expired e) (S (next_id e)) (changes e)).

(** The function run by the timer. *)
Definition timer_func (cb : CircuitBreaker) (e : Env) : CircuitBreaker * Env :=
  (match state cb with
   | CircuitOpen =>
       MkBreaker CircuitHalfOpen (consecutiveFails cb) (threshold cb) (cooldown cb)
         (baseCooldown cb) (maxCooldown cb) (lastFailTime cb) (resetTimer cb) false
         (onStateChange cb)
   | _ => cb
   end, notify cb CircuitHalfOpen 0 e).

Definition RecordFailure (cb : CircuitBreaker) (e : Env) : CircuitBreaker * Env * bool :=
  let fails := i64 (consecutiveFails cb + 1) in
  let fail s cool used :=
    MkBreaker s fails (threshold cb) cool (baseCooldown cb) (maxCooldown cb) (Some (now e))
      (resetTimer cb) used (onStateChange cb) in
  let opening cb :=
    let '(cb, e) := startTimerLocked cb (cooldown cb) e in
    (cb, notify cb CircuitOpen (cooldown cb) e, true) in
  match state cb with
  | CircuitHalfOpen =>
      let doubled := i64 (cooldown cb * 2) in
      let cool := if doubled >? maxCooldown cb then maxCooldown cb else doubled in
      opening (fail CircuitOpen cool false)
  | CircuitClosed =>
      if fails >=? threshold cb then opening (fail CircuitOpen (cooldown cb) (halfOpenUsed cb))
      else (fail CircuitClosed (cooldown cb) (halfOpenUsed cb), e, false)
  | CircuitOpen => (fail CircuitOpen (cooldown cb) (halfOpenUsed cb), e, false)
  end.

(** ** Resilient dialing (outbound_middleware.go) *)

(** The jitter of [RetryConfig] is not read by this code. *)
Record RetryConfig := MkRetry { MaxAttempts : Z; InitialBackoff : Z; MaxBackoff : Z }.

Definition DefaultRetryConfig : RetryConfig := MkRetry 3 (100 * Millisecond) (5 * Second).

(** The wrapper; its breaker may be nil. *)
Record ResilientOutbound := MkResilient { has_cb : bool; retry : RetryConfig }.

Definition NewResilientOutbound (has_cb : bool) (rc : RetryConfig) : ResilientOutbound :=
  MkResilient has_cb (if MaxAttempts rc =? 0 then DefaultRetryConfig else rc).

Definition max_attempts (r : ResilientOutbound) : Z :=
  if MaxAttempts (retry r) <=? 0 then 1 else MaxAttempts (retry r).

Definition first_backoff (r : ResilientOutbound) : Z :=
  if InitialBackoff (retry r) =? 0 then 100 * Millisecond else InitialBackoff (retry r).

Definition next_backoff (r : ResilientOutbound) (backoff : Z) : Z :=
  let backoff := i64 (backoff * 2) in
  if (MaxBackoff (retry r) >? 0) && (backoff >? MaxBackoff (retry r))
  then MaxBackoff (retry r) else backoff.

Inductive outcome := Connected | BreakerOpen | DialFailed | Cancelled.

(** Where a call of [DialContext] is: dialing the inner outbound, waiting before
    the next attempt, or returned. *)
Inductive call :=
| Dialing (attempt backoff : Z)
| Waiting (attempt backoff : Z)
| Returned (o : outcome).

Definition in_flight (c : call) : bool :=
  match c with Returned _ => false | _ => true end.

(** Entry: the breaker is asked before the first attempt. *)
Definition dial_start (r : ResilientOutbound) (cb : CircuitBreaker) : CircuitBreaker * call :=
  let go cb := (cb, Dialing 1 (first_backoff r)) in
  if has_cb r then
    match Allow cb with
    | (cb, true) => go cb
    | (cb, false) => (cb, Returned BreakerOpen)
    end
  else go cb.

(** The inner outbound has returned, with a connection or with an error. *)
Definition dial_result (r : ResilientOutbound) (ok : bool) (attempt backoff : Z)
    (cb : CircuitBreaker) (e : Env) : CircuitBreaker * Env * call :=
  if ok then
    let '(cb, e) := if has_cb r then RecordSuccess cb e else (cb, e) in (cb, e, Returned Connected)
  else if attempt <? max_attempts r then (cb, e, Waiting attempt backoff)
  else
    let '(cb, e) := if has_cb r then (RecordFailure cb e).1 else (cb, e) in
    (cb, e, Returned DialFailed).

(** The wait between two attempts has ended: by the timer or by the context. *)
Definition dial_resume (r : ResilientOutbound) (attempt backoff : Z) : call :=
  Dialing (attempt + 1) (next_backoff r backoff).

(** ** The system: breaker, environment and calls *)

Record Sys := MkSys { breaker : CircuitBreaker; env : Env; calls : gmap nat call }.

Inductive label :=
| LTick (d : Z)                  (* time passes *)
| LExpire (t : nat)              (* a timer reaches its deadline *)
| LTimer (t : nat)               (* its function runs *)
| LReset
| LCall (c : nat)                (* a call of DialContext starts *)
| LDialed (c : nat) (ok : bool)  (* its inner dial returns *)
| LResume (c : nat)              (* its backoff has elapsed *)
| LCancel (c : nat).             (* its context is done *)

#[export] Instance label_eq_dec : EqDecision label.
Proof. solve_decision. Defined.

Inductive step (r : ResilientOutbound) : Sys -> label -> Sys -> Prop :=
| step_tick cb e cs d :
    0 <= d ->
    step r (MkSys cb e cs) (LTick d)
      (MkSys cb (MkEnv (now e + d) (armed e) (expired e) (next_id e) (changes e)) cs)
| step_expire cb e cs t due :
    armed e !! t = Some due -> due <= now e ->
    step r (MkSys cb e cs) (LExpire t)
      (MkSys cb (MkEnv (now e) (delete t (armed e)) (t :: expired e) (next_id e) (changes e)) cs)
| step_timer cb e cs t l1 l2 cb' e' :
    expired e = l1 ++ t :: l2 ->
    timer_func cb (MkEnv (now e) (armed e) (l1 ++ l2) (next_id e) (changes e)) = (cb', e') ->
    step r (MkSys cb e cs) (LTimer t) (MkSys cb' e' cs)
| step_reset cb e cs cb' e' :
    Reset cb e = (cb', e') -> step r (MkSys cb e cs) LReset (MkSys cb' e' cs)
| step_call cb e cs c cb' k :
    cs !! c = None -> dial_start r cb = (cb', k) ->
    step r (MkSys cb e cs) (LCall c) (MkSys cb' e (<[c := k]> cs))
| step_dialed cb e cs c ok a b cb' e' k :
    cs !! c = Some (Dialing a b) -> dial_result r ok a b cb e = (cb', e', k) ->
    step r (MkSys cb e cs) (LDialed c ok) (MkSys cb' e' (<[c := k]> cs))
| step_resume cb e cs c a b :
    cs !! c = Some (Waiting a b) ->
    step r (MkSys cb e cs) (LResume c) (MkSys cb e (<[c := dial_resume r a b]> cs))
| step_cancel cb e cs c a b :
    cs !! c = Some (Waiting a b) ->
    step r (MkSys cb e cs) (LCancel c) (MkSys cb e (<[c := Returned Cancelled]> cs)).

Inductive steps (r : ResilientOutbound) : Sys -> list label -> Sys -> Prop :=
| steps_nil s : steps r s [] s
| steps_snoc s ls s1 l s2 : steps r s ls s1 -> step r s1 l s2 -> steps r s (ls ++ [l]) s2.

Definition start_sys (cfg : CircuitBreakerConfig) (t : Z) : Sys :=
  MkSys (NewCircuitBreaker cfg) (MkEnv t ∅ [] 0 []) ∅.

(** *** What holds in every reachable state *)

(** The parts of a breaker that never change, with their bounds: durations below
    2^62 ns (146 years), thresholds in [int]. *)
Definition cfg_ok (cfg : CircuitBreakerConfig) : Prop :=
  Threshold cfg < 2 ^ 63 /\ BaseCooldown cfg < 2 ^ 62 /\ MaxCooldown cfg < 2 ^ 62.

Record breaker_ok (cb : CircuitBreaker) (e : Env) : Prop := {
  ok_bounds : 0 < threshold cb < 2 ^ 63 /\ 0 < baseCooldown cb < 2 ^ 62 /\
    0 < maxCooldown cb < 2 ^ 62;
  ok_cooldown : 0 < cooldown cb <= Z.max (baseCooldown cb) (maxCooldown cb);
  ok_closed : state cb = CircuitClosed ->
    0 <= consecutiveFails cb < threshold cb /\ cooldown cb = baseCooldown cb;
  ok_open : state cb = CircuitOpen -> exists t, resetTimer cb = Some t /\
    (is_Some (armed e !! t) \/ t ∈ expired e);
  ok_used : halfOpenUsed cb = true -> state cb = CircuitHalfOpen;
  ok_armed : forall t, is_Some (armed e !! t) -> resetTimer cb = Some t;
  ok_fresh : forall t, is_Some (armed e !! t) \/ t ∈ expired e \/ resetTimer cb = Some t ->
    (t < next_id e)%nat
}.

(** The constant fields of a breaker. *)
Definition same_cfg (cb cb' : CircuitBreaker) : Prop :=
  threshold cb' = threshold cb /\ baseCooldown cb' = baseCooldown cb /\
  maxCooldown cb' = maxCooldown cb /\ onStateChange cb' = onStateChange cb.

Lemma notify_fields cb s d e :
  now (notify cb s d e) = now e /\ armed (notify cb s d e) = armed e /\
  expired (notify cb s d e) = expired e /\ next_id (notify cb s d e) = next_id e.
Proof. unfold notify. by destruct (onStateChange cb). Qed.

(** Only the timers matter to the invariant. *)
Lemma breaker_ok_env cb e e' :
  armed e' = armed e -> expired e' = expired e -> next_id e' = next_id e ->
  breaker_ok cb e -> breaker_ok cb e'.
Proof. intros Ha He Hn []. constructor; rewrite ?Ha, ?He, ?Hn; auto. Qed.

Lemma breaker_ok_notify cb cb' s d e :
  breaker_ok cb e -> breaker_ok cb (notify cb' s d e).
Proof. destruct (notify_fields cb' s d e) as (_ & ? & ? & ?). by apply breaker_ok_env. Qed.

Lemma NewCircuitBreaker_ok cfg t :
  cfg_ok cfg -> breaker_ok (NewCircuitBreaker cfg) (env (start_sys cfg t)).
Proof.
  intros (? & ? & ?). unfold NewCircuitBreaker, orDefault, Second, Minute.
  constructor; simpl; try done; intros.
  all: try (repeat case_match; zb; unfold Second in *; lia).
  - destruct H2. set_solver.
  - destruct H2 as [[? []%lookup_empty_Some]|[?%elem_of_nil|?]]; done.
Qed.

(** No timer is armed once the current one is stopped. *)
Lemma stop_armed cb e t : breaker_ok cb e -> armed (stop (resetTimer cb) e) !! t = None.
Proof.
  intros H. apply eq_None_not_Some. intros Hs.
  assert (is_Some (armed e !! t)) as Ha.
  { destruct (resetTimer cb); simpl in Hs; [|done].
    destruct Hs as [? [_ ?]%lookup_delete_Some]. eauto. }
  apply H in Ha. rewrite Ha in Hs. simpl in Hs. rewrite lookup_delete_eq in Hs. by destruct Hs.
Qed.

Lemma stop_fields t e :
  now (stop t e) = now e /\ expired (stop t e) = expired e /\ next_id (stop t e) = next_id e.
Proof. by destruct t. Qed.

Lemma closed_ok cb e : breaker_ok cb e -> breaker_ok (closed cb) (stop (resetTimer cb) e).
Proof.
  intros H. destruct (stop_fields (resetTimer cb) e) as (_ & He & Hn).
  destruct (ok_bounds _ _ H) as (? & ? & ?).
  constructor; simpl; try done; try lia.
  - intros t [d Hd]. by rewrite stop_armed in Hd.
  - intros t. rewrite stop_armed, He, Hn by done. intros [[]|[Ht|]]; [done| |done].
    apply (ok_fresh _ _ H). auto.
Qed.

(** [startTimerLocked] on the breaker that is about to be open. *)
Lemma startTimerLocked_ok cb0 cb e :
  breaker_ok cb0 e -> same_cfg cb0 cb -> resetTimer cb = resetTimer cb0 ->
  0 < cooldown cb <= Z.max (baseCooldown cb) (maxCooldown cb) ->
  state cb = CircuitOpen -> halfOpenUsed cb = false ->
  let '(cb', e') := startTimerLocked cb (cooldown cb) e in
  breaker_ok cb' e' /\ same_cfg cb0 cb' /\ state cb' = CircuitOpen /\ cooldown cb' = cooldown cb /\
  consecutiveFails cb' = consecutiveFails cb /\ resetTimer cb' = Some (next_id e) /\
  armed e' = {[next_id e := now e + cooldown cb]} /\ expired e' = expired e /\ now e' = now e.
Proof.
  intros H Hcfg Hr Hc Hs Hu. pose proof Hcfg as (Ht & Hb & Hm & _). unfold startTimerLocked.
  destruct (stop_fields (resetTimer cb) e) as (Hnow & He & Hn).
  assert (<[next_id e := now e + cooldown cb]> (armed (stop (resetTimer cb) e))
    = {[next_id e := now e + cooldown cb]}) as Ha.
  { apply map_eq. intros t. rewrite Hr. destruct (decide (t = next_id e)) as [->|].
    - by rewrite lookup_insert_eq, lookup_singleton_eq.
    - rewrite lookup_insert_ne, lookup_singleton_ne, stop_armed by done. done. }
  rewrite Hnow, Hn, Ha, He. split; [|by simpl; auto 10].
  pose proof (ok_bounds _ _ H).
  constructor; simpl; rewrite ?Ht, ?Hb, ?Hm in *; try done; try congruence.
  - intros _. eexists. split; [done|]. rewrite lookup_singleton_eq. eauto.
  - intros t [d Hd%lookup_singleton_Some]. destruct Hd. congruence.
  - intros t [[d Hd%lookup_singleton_Some]|[Ht'|[= <-]]]; [destruct Hd; lia| |lia].
    assert (t < next_id e)%nat; [|lia]. apply (ok_fresh _ _ H). auto.
Qed.

Lemma timer_func_ok cb e l1 l2 t cb' e' :
  breaker_ok cb e -> expired e = l1 ++ t :: l2 ->
  timer_func cb (MkEnv (now e) (armed e) (l1 ++ l2) (next_id e) (changes e)) = (cb', e') ->
  breaker_ok cb' e' /\ same_cfg cb cb' /\ state cb' <> CircuitOpen.
Proof.
  intros H He [= <- <-].
  assert (forall x, x ∈ l1 ++ l2 -> x ∈ expired e) as Hsub by (rewrite He; set_solver).
  split.
  - apply breaker_ok_notify. destruct H as [? ? Hcl Hop Hus Har Hfr].
    destruct (state cb) eqn:Hs; constructor; simpl; auto; try congruence; try naive_solver.
  - split; [|by destruct (state cb) eqn:Hs; rewrite ?Hs].
    by destruct (state cb).
Qed.

(** What opening does, with the notification. *)
Lemma opening_ok cb0 cb e cb' e' :
  breaker_ok cb0 e -> same_cfg cb0 cb -> resetTimer cb = resetTimer cb0 ->
  0 < cooldown cb <= Z.max (baseCooldown cb) (maxCooldown cb) ->
  state cb = CircuitOpen -> halfOpenUsed cb = false ->
  (let '(cb, e) := startTimerLocked cb (cooldown cb) e in
   (cb, notify cb CircuitOpen (cooldown cb) e, true)) = (cb', e', true) ->
  breaker_ok cb' e' /\ same_cfg cb0 cb' /\ expired e' = expired e /\ now e' = now e /\
  state cb' = CircuitOpen /\ halfOpenUsed cb' = false /\ cooldown cb' = cooldown cb /\
  resetTimer cb' = Some (next_id e) /\ armed e' = {[next_id e := now e + cooldown cb']}.
Proof.
  intros H Hcfg Hr Hc Hs Hu. pose proof (startTimerLocked_ok cb0 cb e H Hcfg Hr Hc Hs Hu) as P.
  destruct (startTimerLocked cb (cooldown cb) e) as [cb1 e1] eqn:Hst.
  destruct P as (P1 & P2 & P3 & P4 & P5 & P6 & P7 & P8 & P9). intros [= <- <-].
  destruct (notify_fields cb1 CircuitOpen (cooldown cb1) e1) as (-> & -> & -> & _).
  rewrite P4. split_and!; try done; [by apply breaker_ok_notify|].
  injection Hst as <- _. done.
Qed.

Lemma RecordFailure_spec cb e cb' e' opened :
  breaker_ok cb e -> RecordFailure cb e = (cb', e', opened) ->
  breaker_ok cb' e' /\ same_cfg cb cb' /\ expired e' = expired e /\ now e' = now e /\
  if opened then
    (state cb = CircuitHalfOpen \/
     state cb = CircuitClosed /\ consecutiveFails cb + 1 = threshold cb) /\
    state cb' = CircuitOpen /\ halfOpenUsed cb' = false /\
    cooldown cb' = (if decide (state cb = CircuitHalfOpen)
                    then Z.min (cooldown cb * 2) (maxCooldown cb) else baseCooldown cb) /\
    resetTimer cb' = Some (next_id e) /\
    armed e' = {[next_id e := now e + cooldown cb']}
  else
    (state cb = CircuitOpen \/
     state cb = CircuitClosed /\ consecutiveFails cb' = consecutiveFails cb + 1) /\
    state cb' = state cb /\ halfOpenUsed cb' = halfOpenUsed cb /\ cooldown cb' = cooldown cb /\
    resetTimer cb' = resetTimer cb /\ e' = e.
Proof.
  intros H. pose proof (ok_bounds _ _ H) as (Hbt & Hbb & Hbm). pose proof (ok_cooldown _ _ H) as Hc.
  pose proof (ok_closed _ _ H) as Hcl. pose proof (ok_used _ _ H) as Hus.
  unfold RecordFailure. destruct (state cb) eqn:Hs.
  - destruct Hcl as [Hf Hcb]; [done|]. rewrite i64_small by lia. rewrite Z.geb_leb.
    assert (halfOpenUsed cb = false) as Hu by (destruct (halfOpenUsed cb); naive_solver).
    case_match eqn:Hle; zb.
    + intros Ho. assert (opened = true) as -> by (by injection Ho).
      apply (opening_ok cb) in Ho as (? & ? & ? & ? & ? & ? & Hcool & ? & ?); [|done..].
      split_and!; try done; [right; split; [done|lia]|]. by rewrite Hcool, <- Hcb.
    + intros [= <- <- <-]. split_and!; try done; auto.
      destruct H as [? ? ? Hop ? Har Hfr]. constructor; simpl; auto; try congruence. intros _. lia.
  - intros [= <- <- <-]. split_and!; try done; auto.
    destruct H as [? ? ? Hop ? Har Hfr]. constructor; simpl; auto; congruence.
  - rewrite (i64_small (cooldown cb * 2)) by lia.
    assert ((if cooldown cb * 2 >? maxCooldown cb then maxCooldown cb else cooldown cb * 2)
      = Z.min (cooldown cb * 2) (maxCooldown cb)) as -> by (rewrite Z.gtb_ltb; case_match; zb; lia).
    intros Ho. assert (opened = true) as -> by (by injection Ho).
    apply (opening_ok cb) in Ho as (? & ? & ? & ? & ? & ? & Hcool & ? & ?); [|try done; simpl; lia..].
    split_and!; try done. by left.
Qed.

Lemma Allow_spec cb e cb' b :
  breaker_ok cb e -> Allow cb = (cb', b) ->
  breaker_ok cb' e /\ same_cfg cb cb' /\ state cb' = state cb /\
  resetTimer cb' = resetTimer cb /\ cooldown cb' = cooldown cb /\
  match state cb with
  | CircuitClosed => b = true /\ cb' = cb
  | CircuitOpen => b = false /\ cb' = cb
  | CircuitHalfOpen => halfOpenUsed cb' = true /\ b = negb (halfOpenUsed cb)
  end.
Proof.
  intros H. unfold Allow. destruct (state cb) eqn:Hs; [intros [= <- <-]..|].
  1,2: by rewrite Hs.
  destruct (halfOpenUsed cb) eqn:Hu; intros [= <- <-]; split_and!; rewrite ?Hs; try done.
  destruct H as [? ? ? Hop ? Har Hfr]. constructor; simpl; auto; congruence.
Qed.

Lemma RecordSuccess_ok cb e cb' e' :
  breaker_ok cb e -> RecordSuccess cb e = (cb', e') ->
  breaker_ok cb' e' /\ same_cfg cb cb' /\ cb' = closed cb.
Proof.
  intros H [= <- <-]. split_and!; [|done|done].
  case_decide; [|apply breaker_ok_notify]; by apply closed_ok.
Qed.

(** Every step keeps the invariant, and the configuration. *)
Lemma step_ok r s l s' :
  step r s l s' -> breaker_ok (breaker s) (env s) ->
  breaker_ok (breaker s') (env s') /\ same_cfg (breaker s) (breaker s').
Proof.
  intros Hst H. destruct Hst as
    [cb e cs d Hd|cb e cs t due Ht Hdue|cb e cs t l1 l2 cb' e' He Hf|cb e cs cb' e' Hr
    |cb e cs c cb' k Hc Hk|cb e cs c ok a b cb' e' k Hc Hk|cb e cs c a b Hc|cb e cs c a b Hc];
    simpl in *; try done.
  - split; [|done]. by eapply breaker_ok_env; [..|exact H].
  - split; [|done]. destruct H as [? ? ? Hop ? Har Hfr]. constructor; simpl; auto.
    + intros Hs. destruct (Hop Hs) as (t' & Ht' & [Ha|Ha]); exists t'; (split; [done|]).
      * right. apply Har in Ha. assert (resetTimer cb = Some t) by (apply Har; eauto).
        simplify_eq. set_solver.
      * set_solver.
    + intros t' [d Hd%lookup_delete_Some]. apply Har. naive_solver.
    + intros t' [[d Hd%lookup_delete_Some]|[Ht'|Ht']]; [apply Hfr; naive_solver| |by auto].
      apply elem_of_cons in Ht' as [->|?]; apply Hfr; eauto.
  - edestruct timer_func_ok as (? & ? & _); done.
  - edestruct RecordSuccess_ok as (? & ? & _); [exact H|exact Hr|done].
  - revert Hk. unfold dial_start. destruct (has_cb r); [|by intros [= <- <-]].
    destruct (Allow cb) as [cb1 b] eqn:Ha. destruct (Allow_spec _ _ _ _ H Ha) as (? & ? & _).
    by destruct b; intros [= <- <-].
  - revert Hk. unfold dial_result. destruct ok; [|case_match; [by intros [= <- <- <-]|]].
    + destruct (has_cb r); [|by intros [= <- <- <-]].
      destruct (RecordSuccess cb e) as [cb1 e1] eqn:Hrs.
      destruct (RecordSuccess_ok _ _ _ _ H Hrs) as (? & ? & _). by intros [= <- <- <-].
    + destruct (has_cb r); [|by intros [= <- <- <-]].
      destruct (RecordFailure cb e) as [[cb1 e1] b1] eqn:Hrf.
      destruct (RecordFailure_spec _ _ _ _ _ H Hrf) as (? & ? & _). by intros [= <- <- <-].
Qed.

Lemma same_cfg_trans cb1 cb2 cb3 : same_cfg cb1 cb2 -> same_cfg cb2 cb3 -> same_cfg cb1 cb3.
Proof. unfold same_cfg. intros (-> & -> & -> & ->). naive_solver. Qed.

Lemma steps_ok r s ls s' :
  steps r s ls s' -> breaker_ok (breaker s) (env s) ->
  breaker_ok (breaker s') (env s') /\ same_cfg (breaker s) (breaker s').
Proof.
  intros Hs H. induction Hs as [|s ls s1 l s2 Hs IH Hl]; [done|].
  destruct (IH H) as [H1 Hc]. destruct (step_ok _ _ _ _ Hl H1) as [H2 Hc2].
  split; [done|]. by eapply same_cfg_trans.
Qed.

(** *** Attempts *)

Definition attempt_ok (r : ResilientOutbound) (c : call) : Prop :=
  match c with
  | Dialing a _ => 1 <= a <= max_attempts r
  | Waiting a _ => 1 <= a < max_attempts r
  | Returned _ => True
  end.

Lemma max_attempts_pos r : 1 <= max_attempts r.
Proof. unfold max_attempts. case_match; zb; lia. Qed.

Lemma step_attempts r s l s' :
  step r s l s' -> map_Forall (fun _ => attempt_ok r) (calls s) ->
  map_Forall (fun _ => attempt_ok r) (calls s').
Proof.
  intros Hst H. pose proof (max_attempts_pos r). destruct Hst as
    [| | | |cb e cs c cb' k Hc Hk|cb e cs c ok a b cb' e' k Hc Hk|cb e cs c a b Hc|cb e cs c a b Hc];
    simpl in *; try done; apply map_Forall_insert_2; try done.
  - revert Hk. unfold dial_start. case_match; [destruct (Allow cb) as [? []]|];
      intros [= <- <-]; simpl; try done; lia.
  - apply H in Hc. simpl in Hc. revert Hk. unfold dial_result. destruct ok.
    + destruct (if has_cb r then _ else _). by intros [= <- <- <-].
    + case_match; zb; [intros [= <- <- <-]; simpl; lia|].
      destruct (if has_cb r then _ else _). by intros [= <- <- <-].
  - apply H in Hc. simpl in *. lia.
Qed.

Lemma start_ok cfg t : cfg_ok cfg -> breaker_ok (breaker (start_sys cfg t)) (env (start_sys cfg t)).
Proof. apply NewCircuitBreaker_ok. Qed.

(** C13: what holds whenever the breaker is idle, however calls, timers and
    cancellations interleave.  A closed breaker has seen fewer failures in a row
    than its threshold and is back at its base cooldown; the cooldown stays
    between zero and the larger of base and maximum; at most one timer is armed;
    an open breaker has a timer that is armed or about to run, so it cannot stay
    open for ever; and a call dials at most the configured number of times. *)
Theorem circuit_invariant r cfg t ls s :
  cfg_ok cfg -> steps r (start_sys cfg t) ls s ->
  let cb := breaker s in
  (state cb = CircuitClosed ->
     0 <= consecutiveFails cb < threshold cb /\ cooldown cb = baseCooldown cb) /\
  0 < cooldown cb <= Z.max (baseCooldown cb) (maxCooldown cb) /\
  (forall id1 id2, is_Some (armed (env s) !! id1) -> is_Some (armed (env s) !! id2) -> id1 = id2) /\
  (state cb = CircuitOpen -> exists id, resetTimer cb = Some id /\
     (is_Some (armed (env s) !! id) \/ id ∈ expired (env s))) /\
  (forall c a b, calls s !! c = Some (Dialing a b) -> 1 <= a <= max_attempts r).
Proof.
  intros Hcfg Hs. destruct (steps_ok _ _ _ _ Hs (start_ok cfg t Hcfg)) as [Hok _].
  split; [apply Hok|]. split; [apply Hok|]. split; [|split; [apply Hok|]].
  { intros id1 id2 H1%(ok_armed _ _ Hok) H2%(ok_armed _ _ Hok). congruence. }
  assert (map_Forall (fun _ => attempt_ok r) (calls s)) as Ha.
  { clear -Hs. remember (start_sys cfg t) as s0 eqn:E.
    induction Hs as [s0|s0 ls s1 l s2 Hs IH Hl]; [subst; apply map_Forall_empty|].
    eapply step_attempts; eauto. }
  intros c a b Hc. apply (Ha _ _ Hc).
Qed.

(** When the breaker opens, and for how long.  In a reachable state
    [RecordFailure] reports opening exactly for a failed probe of a half-open
    breaker and for the failure that completes the threshold of a closed one; the
    timer is then armed for the cooldown, which is the base cooldown in the second
    case and the doubled, capped one in the first.  Other failures are counted. *)
Theorem circuit_backoff r cfg t ls s cb' e' opened :
  cfg_ok cfg -> steps r (start_sys cfg t) ls s ->
  RecordFailure (breaker s) (env s) = (cb', e', opened) ->
  let cb := breaker s in let e := env s in
  if opened then
    (state cb = CircuitHalfOpen \/
     state cb = CircuitClosed /\ consecutiveFails cb + 1 = threshold cb) /\
    state cb' = CircuitOpen /\
    cooldown cb' = (if decide (state cb = CircuitHalfOpen)
                    then Z.min (cooldown cb * 2) (maxCooldown cb) else baseCooldown cb) /\
    armed e' = {[next_id e := now e + cooldown cb']}
  else
    state cb' = state cb /\ cooldown cb' = cooldown cb /\ armed e' = armed e /\
    (state cb = CircuitOpen \/
     state cb = CircuitClosed /\ consecutiveFails cb' = consecutiveFails cb + 1).
Proof.
  intros Hcfg Hs Hf. destruct (steps_ok _ _ _ _ Hs (start_ok cfg t Hcfg)) as [Hok _].
  destruct (RecordFailure_spec _ _ _ _ _ Hok Hf) as (_ & _ & _ & _ & H).
  destruct opened; destruct H as (? & ? & ? & ? & ? & H6); [done|]. by subst e'.
Qed.

(** *** Running the system *)

Definition exec (r : ResilientOutbound) (s : Sys) (l : label) : option Sys :=
  let '(MkSys cb e cs) := s in
  match l with
  | LTick d =>
      if 0 <=? d
      then Some (MkSys cb (MkEnv (now e + d) (armed e) (expired e) (next_id e) (changes e)) cs)
      else None
  | LExpire t =>
      match armed e !! t with
      | Some due =>
          if due <=? now e then
            Some (MkSys cb (MkEnv (now e) (delete t (armed e)) (t :: expired e) (next_id e)
                              (changes e)) cs)
          else None
      | None => None
      end
  | LTimer t =>
      match list_find (eq t) (expired e) with
      | Some (i, _) =>
          let '(cb', e') := timer_func cb (MkEnv (now e) (armed e)
            (take i (expired e) ++ drop (S i) (expired e)) (next_id e) (changes e)) in
          Some (MkSys cb' e' cs)
      | None => None
      end
  | LReset => let '(cb', e') := Reset cb e in Some (MkSys cb' e' cs)
  | LCall c =>
      match cs !! c with
      | None => let '(cb', k) := dial_start r cb in Some (MkSys cb' e (<[c := k]> cs))
      | Some _ => None
      end
  | LDialed c ok =>
      match cs !! c with
      | Some (Dialing a b) =>
          let '(cb', e', k) := dial_result r ok a b cb e in Some (MkSys cb' e' (<[c := k]> cs))
      | _ => None
      end
  | LResume c =>
      match cs !! c with
      | Some (Waiting a b) => Some (MkSys cb e (<[c := dial_resume r a b]> cs))
      | _ => None
      end
  | LCancel c =>
      match cs !! c with
      | Some (Waiting a b) => Some (MkSys cb e (<[c := Returned Cancelled]> cs))
      | _ => None
      end
  end.

Definition run (r : ResilientOutbound) (s : Sys) (ls : list label) : option Sys :=
  foldl (fun o l => s ← o; exec r s l) (Some s) ls.

Lemma exec_step r s l s' : exec r s l = Some s' -> step r s l s'.
Proof.
  destruct s as [cb e cs]. destruct l as [d|t|t| |c|c ok|c|c]; cbn [exec].
  - case_match; intros [= <-]. constructor. by zb.
  - destruct (armed e !! t) as [due|] eqn:Ha; [|done]. case_match; [|done]. intros [= <-]. zb. by econstructor.
  - destruct (list_find (eq t) (expired e)) as [[i x]|] eqn:Hf; [|done].
    apply list_find_Some in Hf as (Hi & <- & _). destruct (timer_func _ _) as [cb' e'] eqn:Ht.
    intros [= <-]. eapply step_timer; [|exact Ht]. by rewrite take_drop_middle.
  - destruct (Reset cb e) as [cb' e'] eqn:Hr. intros [= <-]. by constructor.
  - case_match; [done|]. destruct (dial_start r cb) as [cb' k] eqn:Hd. intros [= <-]. by constructor.
  - destruct (cs !! c) as [[a b| |]|] eqn:Hc; [|done..]. destruct (dial_result _ _ _ _ _ _) as [[cb' e'] k] eqn:Hd.
    intros [= <-]. by econstructor.
  - destruct (cs !! c) as [[|a b|]|] eqn:Hc; [done| |done..]. intros [= <-]. by constructor.
  - destruct (cs !! c) as [[|a b|]|] eqn:Hc; [done| |done..]. intros [= <-]. by econstructor.
Qed.

Lemma run_steps r s ls s' : run r s ls = Some s' -> steps r s ls s'.
Proof.
  revert s'. induction ls as [|l ls IH] using rev_ind; intros s'.
  - intros [= <-]. constructor.
  - unfold run. rewrite foldl_app. simpl. intros Hb. apply bind_Some in Hb as (s1 & H1 & H2).
    econstructor; [by apply IH|by apply exec_step].
Qed.

(** *** The engine's configuration *)

(** The calls and the breaker the engine sets up, and a run in which five calls
    fail, the cooldown passes, and the probe's caller gives up. *)
Definition engine_config : CircuitBreakerConfig := MkConfig 5 (10 * Second) (5 * Minute) true.
Definition engine_outbound : ResilientOutbound := NewResilientOutbound true DefaultRetryConfig.

Definition failing_call (c : nat) : list label :=
  [LCall c; LDialed c false; LResume c; LDialed c false; LResume c; LDialed c false].
Definition trip : list label := flat_map failing_call [1; 2; 3; 4; 5]%nat.
Definition abandoned_probe : list label :=
  trip ++ [LTick (10 * Second); LExpire 0; LTimer 0; LCall 6; LDialed 6 false; LCancel 6].

Definition after (ls : list label) : Sys :=
  default (start_sys engine_config 0) (run engine_outbound (start_sys engine_config 0) ls).

Lemma after_steps ls :
  is_Some (run engine_outbound (start_sys engine_config 0) ls) ->
  steps engine_outbound (start_sys engine_config 0) ls (after ls).
Proof. intros [s Hs]. unfold after. rewrite Hs. by apply run_steps. Qed.

Lemma engine_config_ok : cfg_ok engine_config.
Proof. by vm_compute. Qed.

Lemma trip_steps : steps engine_outbound (start_sys engine_config 0) trip (after trip).
Proof. apply after_steps. eexists. vm_compute. reflexivity. Qed.

Lemma circuit_invariant_witness :
  state (breaker (after trip)) = CircuitOpen /\
  exists id, resetTimer (breaker (after trip)) = Some id /\
    (is_Some (armed (env (after trip)) !! id) \/ id ∈ expired (env (after trip))).
Proof.
  split; [by vm_compute|].
  apply (circuit_invariant _ _ _ _ _ engine_config_ok trip_steps). by vm_compute.
Defined.

(** Four failing calls, and the last attempt of a fifth. *)
Definition before_trip : list label := take 29 trip.

Lemma circuit_backoff_witness :
  state (breaker (after before_trip)) = CircuitClosed /\
  armed (RecordFailure (breaker (after before_trip)) (env (after before_trip))).1.2
    = {[0%nat := 10 * Second]}.
Proof.
  split; [by vm_compute|].
  assert (steps engine_outbound (start_sys engine_config 0) before_trip (after before_trip)) as Hs
    by (apply after_steps; eexists; vm_compute; reflexivity).
  destruct (RecordFailure (breaker (after before_trip)) (env (after before_trip)))
    as [[cb' e'] opened] eqn:E.
  pose proof (circuit_backoff _ _ _ _ _ _ _ _ engine_config_ok Hs E) as H.
  assert (opened = true) as -> by (vm_compute in E; by injection E).
  destruct H as (_ & _ & Hc & H). simpl. rewrite H, Hc. by vm_compute.
Defined.

(** *** The open state *)

(** Open until [due], with only its own timer pending. *)
Definition open_until (due : Z) (s : Sys) : Prop :=
  state (breaker s) = CircuitOpen /\ expired (env s) = [] /\
  forall id d, armed (env s) !! id = Some d -> d = due.

(** Labels that close the breaker: a successful dial, and [Reset]. *)
Definition closes (l : label) : bool :=
  match l with LReset | LDialed _ true => true | _ => false end.

Lemma step_open_until r due s l s' :
  has_cb r = true -> breaker_ok (breaker s) (env s) -> step r s l s' ->
  open_until due s -> closes l = false -> now (env s) < due ->
  open_until due s' /\ (forall c, l = LCall c -> calls s' !! c = Some (Returned BreakerOpen)).
Proof.
  intros Hcb Hok Hst (Hs & He & Ha) Hl Hn. destruct Hst as
    [cb e cs d Hd|cb e cs t due' Ht Hdue|cb e cs t l1 l2 cb' e' Hx Hf|cb e cs cb' e' Hr
    |cb e cs c cb' k Hc Hk|cb e cs c ok a b cb' e' k Hc Hk|cb e cs c a b Hc|cb e cs c a b Hc];
    simpl in *; try done.
  - apply Ha in Ht. lia.
  - rewrite He in Hx. by destruct l1.
  - revert Hk. unfold dial_start, Allow. rewrite Hcb, Hs. intros [= <- <-].
    split; [done|]. intros c' [= <-]. by rewrite lookup_insert_eq.
  - destruct ok; [done|]. split; [|done]. revert Hk. unfold dial_result. rewrite Hcb.
    case_match; [by intros [= <- <- <-]|]. unfold RecordFailure. rewrite Hs. by intros [= <- <- <-].
Qed.

Lemma RecordSuccess_now cb e cb' e' : RecordSuccess cb e = (cb', e') -> now e' = now e.
Proof.
  intros [= <- <-]. destruct (stop_fields (resetTimer cb) e) as (<- & _). case_decide; [done|].
  by destruct (notify_fields cb CircuitClosed 0 (stop (resetTimer cb) e)) as (-> & _).
Qed.

Lemma RecordFailure_now cb e cb' e' b : RecordFailure cb e = (cb', e', b) -> now e' = now e.
Proof.
  unfold RecordFailure, notify, startTimerLocked.
  destruct (stop_fields (resetTimer cb) e) as (Hn & _).
  destruct (state cb); [case_match| |]; intros [= <- <- <-]; simpl; try done; by case_match.
Qed.

Lemma step_now r s l s' : step r s l s' -> now (env s) <= now (env s').
Proof.
  intros Hst. destruct Hst as
    [cb e cs d Hd|cb e cs t due' Ht Hdue|cb e cs t l1 l2 cb' e' Hx Hf|cb e cs cb' e' Hr
    |cb e cs c cb' k Hc Hk|cb e cs c ok a b cb' e' k Hc Hk|cb e cs c a b Hc|cb e cs c a b Hc];
    simpl; try lia.
  - injection Hf as <- <-. unfold notify. by destruct (onStateChange cb).
  - apply RecordSuccess_now in Hr. lia.
  - revert Hk. unfold dial_result. destruct ok; [|case_match; [by intros [= <- <- <-]|]];
      (destruct (has_cb r); [|by intros [= <- <- <-]]).
    + destruct (RecordSuccess cb e) as [cb1 e1] eqn:E. apply RecordSuccess_now in E.
      intros [= <- <- <-]. lia.
    + destruct (RecordFailure cb e) as [[cb1 e1] b1] eqn:E. apply RecordFailure_now in E.
      intros [= <- <- <-]. lia.
Qed.

Lemma step_calls_kept r s l s' c o :
  step r s l s' -> calls s !! c = Some (Returned o) -> calls s' !! c = Some (Returned o).
Proof.
  intros Hst H. destruct Hst as
    [| | | |cb e cs c' cb' k Hc Hk|cb e cs c' ok a b cb' e' k Hc Hk|cb e cs c' a b Hc
    |cb e cs c' a b Hc]; simpl in *; try done;
    (destruct (decide (c = c')) as [->|]; [congruence|by rewrite lookup_insert_ne]).
Qed.

(** The timer of a breaker that has just opened is due after its cooldown. *)
Lemma opening_due r s l s1 id d :
  step r s l s1 -> breaker_ok (breaker s) (env s) ->
  state (breaker s) <> CircuitOpen -> state (breaker s1) = CircuitOpen ->
  armed (env s1) !! id = Some d -> d = now (env s1) + cooldown (breaker s1).
Proof.
  intros Hst H Hno Ho Ha. destruct Hst as
    [cb e cs d' Hd|cb e cs t due' Ht Hdue|cb e cs t l1 l2 cb' e' Hx Hf|cb e cs cb' e' Hr
    |cb e cs c cb' k Hc Hk|cb e cs c ok a b cb' e' k Hc Hk|cb e cs c a b Hc|cb e cs c a b Hc];
    simpl in *; try done.
  - by edestruct timer_func_ok as (_ & _ & []).
  - by injection Hr as <- <-.
  - revert Hk. unfold dial_start. destruct (has_cb r); [|by intros [= <- <-]].
    destruct (Allow cb) as [cb1 b] eqn:Hal. destruct (Allow_spec _ _ _ _ H Hal) as (_ & _ & Hs & _).
    destruct b; intros [= <- <-]; congruence.
  - revert Hk. unfold dial_result. destruct ok; [|case_match; [by intros [= <- <- <-]|]];
      (destruct (has_cb r); [|by intros [= <- <- <-]]).
    + by intros [= <- <- <-].
    + destruct (RecordFailure cb e) as [[cb1 e1] b1] eqn:Hrf.
      destruct (RecordFailure_spec _ _ _ _ _ H Hrf) as (_ & _ & _ & Hn & P). intros [= <- <- <-].
      destruct b1; [|destruct P; intuition congruence].
      destruct P as (_ & _ & _ & _ & _ & P). rewrite P in Ha.
      apply lookup_singleton_Some in Ha as [_ <-]. by rewrite Hn.
Qed.

(** C26: the cooldown is respected.  Take any step that opens the breaker of an outbound
    while no timer of an earlier open period has fired and waits to run ([expired] is
    empty: such a timer would half-open the new period early).  Until the cooldown has
    passed, whatever else happens short of a success of a call that was already under
    way or a reset, the breaker stays open and every new call is refused without
    dialing. *)
Theorem circuit_cooldown_respected r cfg t ls s l s1 ls' s2 :
  cfg_ok cfg -> has_cb r = true -> steps r (start_sys cfg t) ls s -> step r s l s1 ->
  state (breaker s) <> CircuitOpen -> state (breaker s1) = CircuitOpen -> expired (env s1) = [] ->
  steps r s1 ls' s2 -> forallb (fun l => negb (closes l)) ls' = true ->
  now (env s2) < now (env s1) + cooldown (breaker s1) ->
  state (breaker s2) = CircuitOpen /\
  forall c, LCall c ∈ ls' -> calls s2 !! c = Some (Returned BreakerOpen).
Proof.
  intros Hcfg Hcb Hs Hl Hno Ho He Hs' Hcl Hn.
  destruct (steps_ok _ _ _ _ Hs (start_ok cfg t Hcfg)) as [Hok _].
  destruct (step_ok _ _ _ _ Hl Hok) as [Hok1 _].
  set (due := now (env s1) + cooldown (breaker s1)) in *.
  assert (open_until due s1) as Hu.
  { split_and!; [done|done|]. intros id d Hd. by apply (opening_due r s l s1 id d). }
  cut (open_until due s2 /\ forall c, LCall c ∈ ls' -> calls s2 !! c = Some (Returned BreakerOpen)).
  { intros [[] ?]. done. }
  clear Ho He Hno Hl Hs. clearbody due. induction Hs' as [|s1 ls' s2 l' s3 Hs' IH Hl'].
  { split; [done|]. set_solver. }
  rewrite forallb_app, andb_true_iff in Hcl. destruct Hcl as [Hcl1 Hcl2].
  simpl in Hcl2. rewrite andb_true_r, negb_true_iff in Hcl2.
  pose proof (step_now _ _ _ _ Hl').
  destruct IH as [Hu2 Hc2]; try done; [lia|].
  destruct (steps_ok _ _ _ _ Hs' Hok1) as [Hok2 _].
  destruct (step_open_until r due s2 l' s3) as [Hu3 Hc3]; try done; [lia|].
  split; [done|]. intros c [Hc|Hc%list_elem_of_singleton]%elem_of_app; [|by apply Hc3].
  eapply step_calls_kept; eauto.
Qed.

(** *** The half-open state *)

Definition half_used (s : Sys) : Prop :=
  state (breaker s) = CircuitHalfOpen /\ halfOpenUsed (breaker s) = true.

(** The state is half-open and its probe is neither under way nor settled. *)
Definition probe_lost (s : Sys) : Prop :=
  half_used s /\ map_Forall (fun _ c => in_flight c = false) (calls s).

Lemma timer_func_half cb e cb' e' :
  timer_func cb e = (cb', e') -> state cb = CircuitHalfOpen -> cb' = cb.
Proof. unfold timer_func. intros [= <- <-] ->. done. Qed.

Lemma step_half_used r s l s' :
  has_cb r = true -> half_used s -> step r s l s' ->
  state (breaker s') = CircuitHalfOpen ->
  half_used s' /\ (forall c, l = LCall c -> calls s' !! c = Some (Returned BreakerOpen)).
Proof.
  intros Hcb [Hs Hu] Hst Hs'. destruct Hst as
    [cb e cs d Hd|cb e cs t due' Ht Hdue|cb e cs t l1 l2 cb' e' Hx Hf|cb e cs cb' e' Hr
    |cb e cs c cb' k Hc Hk|cb e cs c ok a b cb' e' k Hc Hk|cb e cs c a b Hc|cb e cs c a b Hc];
    simpl in *; try done.
  - apply timer_func_half in Hf as ->; done.
  - by injection Hr as <- <-.
  - revert Hk. unfold dial_start, Allow. rewrite Hcb, Hs, Hu. intros [= <- <-].
    split; [done|]. intros c' [= <-]. by rewrite lookup_insert_eq.
  - split; [|done]. revert Hk. unfold dial_result. rewrite Hcb.
    destruct ok; [|case_match; [by intros [= <- <- <-]|]].
    + by intros [= <- <- <-].
    + unfold RecordFailure. rewrite Hs. by intros [= <- <- <-].
Qed.

(** Runs in which every state satisfies [P]. *)
Inductive steps_in (r : ResilientOutbound) (P : Sys -> Prop) : Sys -> list label -> Sys -> Prop :=
| steps_in_nil s : P s -> steps_in r P s [] s
| steps_in_snoc s ls s1 l s2 :
    steps_in r P s ls s1 -> step r s1 l s2 -> P s2 -> steps_in r P s (ls ++ [l]) s2.

(** One probe per half-open period.  While the breaker stays half-open, of any
    two calls that start at least one is refused without dialing, whatever else
    happens meanwhile. *)
Theorem circuit_single_probe r s ls s' c1 c2 :
  has_cb r = true ->
  steps_in r (fun s => state (breaker s) = CircuitHalfOpen) s ls s' ->
  LCall c1 ∈ ls -> LCall c2 ∈ ls -> c1 <> c2 ->
  calls s' !! c1 = Some (Returned BreakerOpen) \/ calls s' !! c2 = Some (Returned BreakerOpen).
Proof.
  intros Hcb Hs. revert c1 c2. cut (
    (forall c, LCall c ∈ ls -> half_used s') /\
    forall c1 c2, LCall c1 ∈ ls -> LCall c2 ∈ ls -> c1 <> c2 ->
      calls s' !! c1 = Some (Returned BreakerOpen) \/ calls s' !! c2 = Some (Returned BreakerOpen)).
  { naive_solver. }
  induction Hs as [s H|s ls s1 l s2 Hs [IHu IH] Hl H2]; [split; intros; set_solver|].
  assert (state (breaker s1) = CircuitHalfOpen) as H1 by (by inversion Hs).
  assert (forall c, l = LCall c -> half_used s2) as Hcall.
  { intros c ->. inversion Hl as [| | | |cb e cs c' cb' k Hc Hk| | |]; subst. simpl in *.
    revert Hk. unfold dial_start, Allow. rewrite Hcb, H1.
    destruct (halfOpenUsed cb) eqn:Hu; by intros [= <- <-]. }
  split.
  - intros c [Hc|Hc%list_elem_of_singleton]%elem_of_app; [|by eapply Hcall].
    by destruct (step_half_used r s1 l s2) as [? _]; eauto.
  - intros c1 c2 Hc1 Hc2 Hne. rewrite !elem_of_app, !list_elem_of_singleton in *.
    destruct Hc1 as [Hc1|Hc1], Hc2 as [Hc2|Hc2].
    + destruct (IH c1 c2); eauto using step_calls_kept.
    + right. destruct (step_half_used r s1 l s2) as [_ Hr]; eauto.
    + left. destruct (step_half_used r s1 l s2) as [_ Hr]; eauto.
    + congruence.
Qed.

(** A half-open breaker whose probe was handed out has a call under way. *)
Definition probe_pending (s : Sys) : Prop :=
  half_used s -> exists c k, calls s !! c = Some k /\ in_flight k = true.

(** [dial_result] on a half-open breaker, seen from the outside. *)
Lemma dial_result_half r ok a b cb e cb' e' k :
  has_cb r = true -> dial_result r ok a b cb e = (cb', e', k) ->
  state cb' = CircuitHalfOpen -> state cb = CircuitHalfOpen /\ cb' = cb /\ in_flight k = true.
Proof.
  intros Hcb. unfold dial_result. rewrite Hcb. destruct ok; [by intros [= <- <- <-]|].
  case_match; [by intros [= <- <- <-]|]. unfold RecordFailure.
  destruct (state cb); [destruct (i64 _ >=? _)| |]; by intros [= <- <- <-].
Qed.

Lemma step_probe_pending r s l s' :
  has_cb r = true -> step r s l s' -> (forall c, l <> LCancel c) ->
  probe_pending s -> probe_pending s'.
Proof.
  intros Hcb Hst Hl H. destruct Hst as
    [cb e cs d Hd|cb e cs t due' Ht Hdue|cb e cs t l1 l2 cb' e' Hx Hf|cb e cs cb' e' Hr
    |cb e cs c cb' k Hc Hk|cb e cs c ok a b cb' e' k Hc Hk|cb e cs c a b Hc|cb e cs c a b Hc];
    unfold probe_pending, half_used in *; simpl in *; try done.
  - intros [Hs Hu]. injection Hf as <- <-. destruct (state cb) eqn:E; simpl in *; try congruence.
    by apply H.
  - injection Hr as <- <-. by intros [].
  - intros [Hs Hu]. revert Hk. unfold dial_start. rewrite Hcb. unfold Allow.
    destruct (state cb) eqn:E; [intros [= <- <-]; congruence..|].
    destruct (halfOpenUsed cb) eqn:Eu; intros [= <- <-].
    + destruct H as (c' & k' & Hc' & Hf); [done|]. exists c', k'. split; [|done].
      rewrite lookup_insert_ne; [done|]. intros ->. congruence.
    + eexists c, _. by rewrite lookup_insert_eq.
  - intros [Hs Hu]. destruct (dial_result_half _ _ _ _ _ _ _ _ _ Hcb Hk Hs) as (_ & _ & Hf).
    exists c, k. by rewrite lookup_insert_eq.
  - intros _. eexists c, _. by rewrite lookup_insert_eq.
  - by destruct (Hl c).
Qed.

(** A probe is settled.  As long as no call is cancelled while it waits for
    its next attempt, a half-open breaker that has handed out its probe has a call
    under way that will report to it. *)
Theorem circuit_probe_settles r cfg t ls s :
  has_cb r = true -> steps r (start_sys cfg t) ls s -> (forall c, LCancel c ∉ ls) ->
  half_used s -> exists c k, calls s !! c = Some k /\ in_flight k = true.
Proof.
  intros Hcb Hs. remember (start_sys cfg t) as s0 eqn:E. revert E.
  induction Hs as [s0|s0 ls s1 l s2 Hs IH Hl]; intros E Hno.
  - subst s0. by intros [].
  - apply (step_probe_pending r s1 l s2 Hcb Hl); [set_solver|]. intros Hh. apply IH; set_solver.
Qed.

Lemma step_probe_lost r s l s' :
  has_cb r = true -> step r s l s' -> l <> LReset -> probe_lost s -> probe_lost s'.
Proof.
  intros Hcb Hst Hl [Hh Hf].
  assert (forall c k, calls s !! c = Some k -> in_flight k = true -> False) as Hno.
  { intros c k Hc Hk. apply Hf in Hc. simpl in Hc. congruence. }
  assert (state (breaker s') = CircuitHalfOpen) as Hs'.
  { destruct Hh as [Hs Hu]. destruct Hst as
    [| |cb e cs t l1 l2 cb' e' Hx Hfn| |cb e cs c cb' k Hc Hk|cb e cs c ok a b cb' e' k Hc Hk| |];
    simpl in *; try done.
    - by apply timer_func_half in Hfn as ->.
    - revert Hk. unfold dial_start, Allow. rewrite Hcb, Hs, Hu. by intros [= <- <-].
    - by destruct (Hno _ _ Hc). }
  destruct (step_half_used r s l s' Hcb Hh Hst Hs') as [Hh' Hc']. split; [done|].
  destruct Hst; simpl in *; try done.
  - apply map_Forall_insert_2; [|done]. specialize (Hc' _ eq_refl).
    rewrite lookup_insert_eq in Hc'. by injection Hc' as ->.
  - by destruct (Hno _ _ H).
  - by destruct (Hno _ _ H).
  - by apply map_Forall_insert_2.
Qed.

(** A cancelled probe is lost for good.  With the configuration the engine
    uses, a run without resets reaches a half-open breaker whose probe was
    cancelled during its backoff and never reported; from such a state on, whatever
    happens short of a reset, the breaker stays half-open and every call is refused
    without dialing. *)
Theorem circuit_cancelled_probe_blocks :
  (exists s, steps engine_outbound (start_sys engine_config 0) abandoned_probe s /\
     LReset ∉ abandoned_probe /\ probe_lost s) /\
  (forall s ls s', probe_lost s -> steps engine_outbound s ls s' -> LReset ∉ ls ->
     probe_lost s' /\ forall c, LCall c ∈ ls -> calls s' !! c = Some (Returned BreakerOpen)).
Proof.
  split.
  - destruct (run engine_outbound (start_sys engine_config 0) abandoned_probe) as [s|] eqn:E;
      [|by vm_compute in E].
    exists s. split; [by apply run_steps|]. vm_compute in E. injection E as <-.
    split; [|split; [done|]].
    + apply (bool_decide_unpack _). by vm_compute.
    + apply map_Forall_to_list. repeat constructor.
  - intros s ls s' H Hs Hno. induction Hs as [|s ls s1 l s2 Hs IH Hl].
    { split; [done|]. set_solver. }
    destruct IH as [IH1 IH2]; [done|set_solver|].
    assert (probe_lost s2) as H2 by (apply (step_probe_lost engine_outbound s1 l s2 eq_refl Hl); [set_solver|done]).
    split; [done|]. intros c [Hc|Hc%list_elem_of_singleton]%elem_of_app; [eauto using step_calls_kept|].
    destruct (step_half_used engine_outbound s1 l s2) as [_ Hr]; try done; [apply IH1|apply H2|].
    by apply Hr.
Qed.

Lemma circuit_cooldown_respected_witness :
  calls (after (trip ++ [LTick (9 * Second); LCall 6])) !! 6%nat = Some (Returned BreakerOpen).
Proof.
  assert (steps engine_outbound (start_sys engine_config 0) before_trip (after before_trip)) as Hs
    by (apply after_steps; eexists; vm_compute; reflexivity).
  refine (proj2 (circuit_cooldown_respected engine_outbound engine_config 0 before_trip
    (after before_trip) (LDialed 5 false) (after trip) [LTick (9 * Second); LCall 6]
    (after (trip ++ [LTick (9 * Second); LCall 6])) engine_config_ok eq_refl Hs _ _ _ _ _ _ _) 6%nat _).
  - apply exec_step. vm_compute. reflexivity.
  - by vm_compute.
  - by vm_compute.
  - by vm_compute.
  - apply run_steps. vm_compute. reflexivity.
  - by vm_compute.
  - by vm_compute.
  - set_solver.
Defined.

(** The breaker has tripped and cooled down. *)
Definition cooled : list label := trip ++ [LTick (10 * Second); LExpire 0; LTimer 0].

Lemma circuit_single_probe_witness :
  calls (after (cooled ++ [LCall 6; LCall 7])) !! 6%nat = Some (Returned BreakerOpen) \/
  calls (after (cooled ++ [LCall 6; LCall 7])) !! 7%nat = Some (Returned BreakerOpen).
Proof.
  apply (circuit_single_probe engine_outbound (after cooled) [LCall 6; LCall 7]); [done| |set_solver..|done].
  apply (steps_in_snoc _ _ _ [LCall 6] (after (cooled ++ [LCall 6])));
    [apply (steps_in_snoc _ _ _ [] (after cooled)); [by constructor| |by vm_compute]| |by vm_compute];
    apply exec_step; vm_compute; reflexivity.
Defined.

Lemma circuit_probe_settles_witness :
  exists c k, calls (after (cooled ++ [LCall 6])) !! c = Some k /\ in_flight k = true.
Proof.
  apply (circuit_probe_settles engine_outbound engine_config 0 (cooled ++ [LCall 6])); [done| | |].
  - apply after_steps. eexists. vm_compute. reflexivity.
  - intros c Hc. cbn in Hc. repeat (apply elem_of_cons in Hc as [Hc|Hc]; [done|]). by apply elem_of_nil in Hc.
  - by vm_compute.
Defined.

End Circuit.
