(* ===== verification/GroupDag.v ===== *)
(** * Validation of outbound groups (src/engine/outbound_group_dag.go)

    [validateGroupDAG] is a depth-first search with three colours.  Go iterates
    over a map in an unspecified order: the order is an argument.  The recursion
    is bounded by fuel, and the number of groups is enough of it. *)

From S2P Require Import Prelude.

Module GroupDag.

Inductive Color := white | gray | black.

#[export] Instance Color_eq_dec : EqDecision Color.
Proof. solve_decision. Defined.

(** The result of a search: the colours afterwards, the edge that closes a cycle,
    or no fuel left. *)
Inductive search :=
| Finished (color : gmap string Color)
| Cycle (node member : string)
| OutOfFuel.

(** [color[node]] of a Go map: white when absent. *)
Definition color_of (color : gmap string Color) (node : string) : Color :=
  default white (color !! node).

(** The loop over the members of a group. *)
Fixpoint dfs_members (groups : gmap string (list string))
    (dfs : string -> gmap string Color -> search) (node : string) (members : list string)
    (color : gmap string Color) : search :=
  match members with
  | [] => Finished (<[node := black]> color)
  | member :: members =>
      match groups !! member with
      | None => dfs_members groups dfs node members color
      | Some _ =>
          match color_of color member with
          | gray => Cycle node member
          | white =>
              match dfs member color with
              | Finished color => dfs_members groups dfs node members color
              | stop => stop
              end
          | black => dfs_members groups dfs node members color
          end
      end
  end.

Fixpoint dfs (fuel : nat) (groups : gmap string (list string)) (node : string)
    (color : gmap string Color) : search :=
  match fuel with
  | O => OutOfFuel
  | S fuel =>
      dfs_members groups (dfs fuel groups) node (default [] (groups !! node))
        (<[node := gray]> color)
  end.

Fixpoint dfs_all (fuel : nat) (groups : gmap string (list string)) (order : list string)
    (color : gmap string Color) : search :=
  match order with
  | [] => Finished color
  | node :: order =>
      match color_of color node with
      | white =>
          match dfs fuel groups node color with
          | Finished color => dfs_all fuel groups order color
          | stop => stop
          end
      | _ => dfs_all fuel groups order color
      end
  end.

(** [order] is the order in which the runtime enumerates the groups. *)
Definition validateGroupDAG (groups : gmap string (list string)) (order : list string) : search :=
  dfs_all (size groups) groups order ∅.

Section correctness.

Context (groups : gmap string (list string)).

(** [a] has the group [b] as a member. *)
Definition edge (a b : string) : Prop :=
  exists members, groups !! a = Some members /\ b ∈ members /\ is_Some (groups !! b).

Definition is_black (c : gmap string Color) (x : string) : Prop := color_of c x = black.
Definition is_gray (c : gmap string Color) (x : string) : Prop := color_of c x = gray.

(** Finished groups only reach finished groups, and lie on no cycle. *)
Definition inv (c : gmap string Color) : Prop :=
  (forall x y, is_black c x -> edge x y -> is_black c y) /\
  (forall x, is_black c x -> ~ tc edge x x).

Definition whites (c : gmap string Color) : gset string :=
  filter (fun x => color_of c x = white) (dom groups).

Lemma color_insert c x y k :
  color_of (<[x := k]> c) y = if decide (x = y) then k else color_of c y.
Proof. unfold color_of. case_decide; [subst; by rewrite lookup_insert_eq|by rewrite lookup_insert_ne]. Qed.

Lemma whites_gray c x :
  x ∈ whites c -> size (whites (<[x := gray]> c)) < size (whites c).
Proof.
  intros Hx. apply subset_size. split.
  - intros y. unfold whites. rewrite !elem_of_filter, color_insert. case_decide; naive_solver.
  - intros Hs. apply Hs in Hx. unfold whites in Hx.
    rewrite elem_of_filter, color_insert, decide_True in Hx by done. naive_solver.
Qed.

(** [c'] comes after [c]: finished groups stay finished, the path is the same. *)
Definition extends (c c' : gmap string Color) : Prop :=
  (forall x, is_black c x -> is_black c' x) /\ (forall x, is_gray c x <-> is_gray c' x).

Lemma extends_whites c c' : extends c c' -> whites c' ⊆ whites c.
Proof.
  intros [Hb Hg] x. unfold whites. rewrite !elem_of_filter. intros [Hw ?]. split; [|done].
  destruct (color_of c x) eqn:E; [done| |].
  - apply Hg in E. unfold is_gray in E. congruence.
  - apply Hb in E. unfold is_black in E. congruence.
Qed.

Lemma inv_blacken c x :
  inv c -> is_gray c x -> (forall y, edge x y -> is_black c y) -> inv (<[x := black]> c).
Proof.
  intros [Hc Hn] Hx Hy.
  assert (forall a b, is_black c a -> rtc edge a b -> is_black c b) as Hr.
  { intros a b Ha Hab. induction Hab; eauto. }
  assert (~ tc edge x x) as Hcyc.
  { intros Ht. assert (exists y, edge x y /\ rtc edge y x) as (y & Hxy & Hyx).
    { inversion Ht as [? ? He|? z ? He Hz]; subst; [exists x|exists z; auto using tc_rtc].
      split; [done|constructor]. }
    apply Hy in Hxy. eapply Hr in Hxy; [|done]. unfold is_black, is_gray in *. congruence. }
  split.
  - intros a b. unfold is_black. rewrite !color_insert. intros Ha Hab.
    repeat case_decide; subst; try done; [by apply Hy|by apply (Hc a)].
  - intros a. unfold is_black. rewrite color_insert. case_decide; [by intros _; subst|apply Hn].
Qed.

(** What a search promises: colours are extended, a reported edge closes a cycle,
    and the fuel suffices. *)
Definition search_ok (c : gmap string Color) (node : string) (s : search) : Prop :=
  match s with
  | Finished c' => inv c' /\ extends c c' /\ is_black c' node
  | Cycle a b => edge a b /\ rtc edge b a
  | OutOfFuel => False
  end.

Lemma dfs_members_ok fuel node members c ms0 :
  (forall m c, is_Some (groups !! m) -> inv c -> color_of c m = white ->
     (forall x, is_gray c x -> rtc edge x m) -> size (whites c) <= fuel ->
     search_ok c m (dfs fuel groups m c)) ->
  groups !! node = Some ms0 -> (forall m, m ∈ members -> m ∈ ms0) ->
  (forall m, m ∈ ms0 -> is_Some (groups !! m) -> m ∈ members \/ is_black c m) ->
  inv c -> is_gray c node -> (forall x, is_gray c x -> rtc edge x node) ->
  size (whites c) <= fuel ->
  match dfs_members groups (dfs fuel groups) node members c with
  | Finished c' => inv c' /\ (forall x, is_black c x -> is_black c' x) /\ is_black c' node /\
      forall x, x <> node -> is_gray c x <-> is_gray c' x
  | Cycle a b => edge a b /\ rtc edge b a
  | OutOfFuel => False
  end.
Proof.
  intros IH Hn. revert c. induction members as [|m members IHm]; intros c Hsub Hdone Hi Hg Hp Hw; simpl.
  - assert (inv (<[node := black]> c)) as Hi'.
    { apply inv_blacken; [done..|]. intros y (ms & Hms & Hy & Hs). simplify_eq.
      destruct (Hdone y) as [?%elem_of_nil|]; done. }
    split_and!; [done| | |]; unfold is_black, is_gray.
    + intros x. rewrite color_insert. by case_decide.
    + rewrite color_insert. by rewrite decide_True.
    + intros x Hx. by rewrite color_insert, decide_False.
  - destruct (groups !! m) as [ms|] eqn:Hm.
    2: { apply IHm; try done; [set_solver|]. intros m' Hm' [? Hs].
         destruct (Hdone m') as [[->|]%elem_of_cons|]; eauto; congruence. }
    assert (edge node m) as Hedge by (exists ms0; split_and!; eauto; set_solver).
    destruct (color_of c m) eqn:Hc.
    + assert (search_ok c m (dfs fuel groups m c)) as Hs.
      { apply IH; eauto. intros x Hx. eapply rtc_r; eauto. }
      destruct (dfs fuel groups m c) as [c'|a b|]; [|done|done].
      destruct Hs as (Hi' & [Hb Hgr] & Hm').
      assert (whites c' ⊆ whites c) as Hsubw by (by apply extends_whites).
      apply subseteq_size in Hsubw.
      opose proof (IHm c' _ _ Hi' _ _ _) as P; [set_solver| |by apply Hgr| |lia|].
      * intros y Hy1 Hy2. destruct (Hdone y) as [[->|]%elem_of_cons|]; eauto.
      * intros x Hx. apply Hp. by apply Hgr.
      * destruct (dfs_members _ _ _ _ _) as [c''|a b|]; [|done..].
        destruct P as (? & ? & ? & Hgg). split_and!; try done; [eauto|].
        intros x Hx. rewrite <- (Hgg x Hx). apply Hgr.
    + split; [done|]. by apply Hp.
    + apply IHm; try done; [set_solver|]. intros m' Hm' Hs.
      destruct (Hdone m') as [[->|]%elem_of_cons|]; eauto.
Qed.

Lemma dfs_ok fuel node c :
  is_Some (groups !! node) -> inv c -> color_of c node = white ->
  (forall x, is_gray c x -> rtc edge x node) -> size (whites c) <= fuel ->
  search_ok c node (dfs fuel groups node c).
Proof.
  revert node c. induction fuel as [|fuel IH]; intros node c [ms Hms] Hi Hw Hg Hf.
  - assert (node ∈ whites c) as Hn.
    { unfold whites. rewrite elem_of_filter, elem_of_dom. split; [done|]. eauto. }
    assert (size (whites c) = 0) as Hz by lia. apply size_empty_inv in Hz. set_solver.
  - simpl. rewrite Hms. simpl.
    assert (node ∈ whites c) as Hn.
    { unfold whites. rewrite elem_of_filter, elem_of_dom. split; [done|]. eauto. }
    apply whites_gray in Hn.
    opose proof (dfs_members_ok fuel node ms (<[node := gray]> c) ms IH Hms _ _ _ _ _ _) as P;
      [done|by auto| | | |lia|].
    + destruct Hi as [Hc Hcy]. split; unfold is_black; intros x; [intros y|]; rewrite !color_insert;
        repeat case_decide; subst; try done; [|apply Hc|apply Hcy].
      intros Hx Hxy. specialize (Hc x y Hx Hxy). unfold is_black in Hc. congruence.
    + unfold is_gray. by rewrite color_insert, decide_True.
    + intros x. unfold is_gray. rewrite color_insert. case_decide; [subst; intros _; constructor|].
      intros Hx. by apply Hg.
    + destruct (dfs_members _ _ _ _ _) as [c'|a b|]; [|done..].
      destruct P as (? & Hb & Hn' & Hgr). split_and!; [done| |done]. split.
      * intros x Hx. apply Hb. unfold is_black in *. rewrite color_insert. case_decide; [|done].
        congruence.
      * intros x. destruct (decide (x = node)) as [->|Hne].
        -- unfold is_gray, is_black in *. split; congruence.
        -- rewrite <- (Hgr x Hne). unfold is_gray. by rewrite color_insert, decide_False.
Qed.

Lemma dfs_all_ok order c :
  (forall x, x ∈ order -> is_Some (groups !! x)) -> inv c -> (forall x, ~ is_gray c x) ->
  match dfs_all (size groups) groups order c with
  | Finished c' => inv c' /\ (forall x, is_black c x \/ x ∈ order -> is_black c' x)
  | Cycle a b => edge a b /\ rtc edge b a
  | OutOfFuel => False
  end.
Proof.
  revert c. induction order as [|x order IH]; intros c Ho Hi Hg; simpl; [naive_solver set_solver|].
  destruct (color_of c x) eqn:Hx.
  - opose proof (dfs_ok (size groups) x c _ Hi Hx _ _) as P; [set_solver| | |].
    + intros y Hy. by destruct (Hg y).
    + unfold whites. rewrite <- size_dom. apply subseteq_size. set_solver.
    + destruct (dfs _ _ _ _) as [c'|a b|]; [|done..]. destruct P as (Hi' & [Hb Hgr] & Hx').
      opose proof (IH c' _ Hi' _) as Q; [set_solver| |].
      * intros y Hy. apply (Hg y). by apply Hgr.
      * destruct (dfs_all _ _ _ _) as [c''|a b|]; [|done..]. destruct Q as [? Q]. split; [done|].
        intros y [Hy|[->|Hy]%elem_of_cons]; apply Q; auto.
  - by destruct (Hg x).
  - opose proof (IH c _ Hi Hg) as Q; [set_solver|].
    destruct (dfs_all _ _ _ _) as [c''|a b|]; [|done..]. destruct Q as [? Q]. split; [done|].
    intros y [Hy|[->|Hy]%elem_of_cons]; apply Q; auto.
Qed.

End correctness.

(** C37: validation accepts exactly the acyclic configurations.  Whatever order the
    runtime enumerates the groups in, the search terminates within its fuel; it
    succeeds when no group is a member of itself through other groups, and
    otherwise reports a membership that closes a cycle. *)
Theorem group_dag_valid groups order :
  (forall x, x ∈ order <-> is_Some (groups !! x)) ->
  match validateGroupDAG groups order with
  | Finished _ => forall x, ~ tc (edge groups) x x
  | Cycle a b => edge groups a b /\ rtc (edge groups) b a
  | OutOfFuel => False
  end.
Proof.
  intros Ho. opose proof (dfs_all_ok groups order ∅ _ _ _) as P.
  - intros x. apply Ho.
  - split; intros x; unfold is_black, color_of; by rewrite lookup_empty.
  - intros x. unfold is_gray, color_of. by rewrite lookup_empty.
  - unfold validateGroupDAG. destruct (dfs_all _ _ _ _) as [c|a b|]; [|done..].
    destruct P as [[_ Hc] Hb]. intros x Hx. apply (Hc x); [|done]. apply Hb. right. apply Ho.
    inversion Hx as [? ? (ms & ? & _)|? ? ? (ms & ? & _)]; eauto.
Qed.

(** Three groups in a chain, enumerated backwards. *)
Definition demo : gmap string (list string) :=
  {[ "A" := ["proxy-1"; "proxy-2"]; "B" := ["A"; "proxy-3"]; "C" := ["B"; "A"; "direct"] ]}.

Lemma group_dag_valid_witness : ~ tc (edge demo) "A" "A".
Proof.
  pose proof (group_dag_valid demo ["C"; "B"; "A"]) as H.
  destruct (validateGroupDAG demo ["C"; "B"; "A"]) eqn:E; [|by vm_compute in E..].
  apply H. intros x. rewrite !elem_of_cons, elem_of_nil.
  destruct (decide (x = "A")) as [->|HA]; [by split; auto|].
  destruct (decide (x = "B")) as [->|HB]; [by split; auto|].
  destruct (decide (x = "C")) as [->|HC]; [by split; auto|].
  unfold demo. rewrite !lookup_insert_ne, lookup_singleton_ne, is_Some_alt by done. naive_solver.
Defined.

End GroupDag.
