(* ===== verification/HealthCheck.v ===== *)
(** * Health checks and url-test selection
    (src/outbound/healthcheck/checker.go, src/engine/outbound_group_urltest.go)

    The HTTP request of a check is an input: the status code of the reply, if one
    came, and the time it took.  An outbound of a group is its position in the
    group's list. *)

From S2P Require Import Prelude GoBytes.

Local Open Scope Z_scope.

Module HealthCheck.

Definition Second : Z := 1000000000.
Definition Millisecond : Z := 1000000.

Record Config := MkConfig { URL : string; Interval : Z; Timeout : Z; Tolerance : Z }.

Record Result := MkResult { Latency : Z; Available : bool; UpdatedAt : Z }.

Record nodeState := MkNode { lastResult : Result; consecutiveFail : Z; everSucceeded : bool }.

Record Checker := MkChecker { cfg : Config; nodes : gmap string nodeState }.

Definition New (c : option Config) : Checker :=
  let c := default (MkConfig "" 0 0 0) c in
  MkChecker
    (MkConfig (if bool_decide (URL c = "") then "http://www.gstatic.com/generate_204" else URL c)
       (if Interval c =? 0 then 300 * Second else Interval c)
       (if Timeout c =? 0 then 5 * Second else Timeout c)
       (if Tolerance c =? 0 then 3 else Tolerance c)) ∅.

(** [getOrCreate] *)
Definition getOrCreate (c : Checker) (tag : string) : nodeState :=
  default (MkNode (MkResult 0 false 0) 0 false) (nodes c !! tag).

(** [Check]: [reply] is the status code, [latency] and [now] the measured times. *)
Definition Check_ (c : Checker) (tag : string) (reply : option Z) (latency now : Z)
    : Checker * Result :=
  let available :=
    match reply with Some code => (200 <=? code) && (code <? 400) | None => false end in
  let result := MkResult latency available now in
  let ns := getOrCreate c tag in
  let ns := if available then MkNode result 0 true
            else MkNode result (i64 (consecutiveFail ns + 1)) (everSucceeded ns) in
  (MkChecker (cfg c) (<[tag := ns]> (nodes c)), result).

(** The recorded result of a node, as [Results] and [Result] report it. *)
Definition report (c : Checker) (ns : nodeState) : Result :=
  MkResult (Latency (lastResult ns)) (everSucceeded ns && (consecutiveFail ns <? Tolerance (cfg c)))
    (UpdatedAt (lastResult ns)).

Definition Results (c : Checker) : gmap string Result := report c <$> nodes c.

Definition Result_of (c : Checker) (tag : string) : option Result := report c <$> nodes c !! tag.

(** ** url-test groups *)

Record urlTestState := MkURLTest { checker : Checker; selected : option nat; tolerance : Z }.

Definition newURLTestState (c : Checker) (toleranceMS : Z) : urlTestState :=
  MkURLTest c None (i64 ((if toleranceMS <=? 0 then 50 else toleranceMS) * Millisecond)).

(** The loop of [selectBest] over the members from position [i] on. *)
Fixpoint best_of (results : gmap string Result) (outbounds : list string) (i : nat)
    (best : option (nat * Z)) : option (nat * Z) :=
  match outbounds with
  | [] => best
  | tag :: outbounds =>
      best_of results outbounds (S i)
        (match results !! tag with
         | Some r =>
             if Available r then
               match best with
               | None => Some (i, Latency r)
               | Some (_, l) => if Latency r <? l then Some (i, Latency r) else best
               end
             else best
         | None => best
         end)
  end.

(** [outbounds] are the tags of the members. *)
Definition selectBest (s : urlTestState) (outbounds : list string) : urlTestState :=
  let results := Results (checker s) in
  match best_of results outbounds 0 None with
  | None => s
  | Some (bestOb, bestLatency) =>
      let switch := MkURLTest (checker s) (Some bestOb) (tolerance s) in
      match selected s ≫= (outbounds !!.) with
      | Some currentTag =>
          match results !! currentTag with
          | Some cr =>
              if Available cr && (i64 (Latency cr - bestLatency) <=? tolerance s) then s else switch
          | None => switch
          end
      | None => switch
      end
  end.

(** A round of checks, in the order in which they finish, and the selection. *)
Definition checkAll (s : urlTestState) (outbounds : list string)
    (checks : list (string * option Z * Z * Z)) : urlTestState :=
  let c := foldl (fun c '(tag, reply, latency, now) => (Check_ c tag reply latency now).1)
             (checker s) checks in
  selectBest (MkURLTest c (selected s) (tolerance s)) outbounds.

(** *** Selection *)

(** Member [i] is available with latency [l]. *)
Definition usable (results : gmap string Result) (outbounds : list string) (i : nat) (l : Z) : Prop :=
  exists tag r, outbounds !! i = Some tag /\ results !! tag = Some r /\ Available r = true /\
    Latency r = l.

(** The best of a prefix: usable, not slower than any, and the first such. *)
Definition is_best (results : gmap string Result) (outbounds : list string)
    (best : option (nat * Z)) : Prop :=
  match best with
  | None => forall i l, ~ usable results outbounds i l
  | Some (i, l) => usable results outbounds i l /\
      forall j l', usable results outbounds j l' -> l <= l' /\ (l' = l -> (i <= j)%nat)
  end.

Lemma usable_snoc results done tag i l :
  usable results (done ++ [tag]) i l <->
  usable results done i l \/
  i = length done /\ exists r, results !! tag = Some r /\ Available r = true /\ Latency r = l.
Proof.
  unfold usable. setoid_rewrite lookup_app_Some. setoid_rewrite list_lookup_singleton_Some.
  split.
  - intros (t & r & [?|[? [? <-]]] & ?); [left; by exists t, r|]. right. split; [lia|]. by exists r.
  - intros [(t & r & ? & ?)|(-> & r & ?)]; [exists t, r; auto|]. exists tag, r. split; [|done].
    right. rewrite Nat.sub_diag. auto.
Qed.

Lemma usable_lt results outbounds i l : usable results outbounds i l -> (i < length outbounds)%nat.
Proof. intros (t & r & ?%lookup_lt_Some & _). done. Qed.

Lemma best_of_spec results done rest best :
  is_best results done best ->
  is_best results (done ++ rest) (best_of results rest (length done) best).
Proof.
  revert done best. induction rest as [|tag rest IH]; intros done best H; simpl.
  { by rewrite app_nil_r. }
  rewrite cons_middle, app_assoc.
  replace (S (length done)) with (length (done ++ [tag])) by (rewrite length_app; simpl; lia).
  apply IH. clear IH.
  assert (forall i l, usable results done i l -> (i < length done)%nat) as Hlt by apply usable_lt.
  assert ((forall r, results !! tag = Some r -> Available r = false) -> is_best results (done ++ [tag]) best) as Hskip.
  { intros Hn. destruct best as [[i l]|]; simpl in *.
    - destruct H as [Hu Hb]. split; [apply usable_snoc; by left|].
      intros j l' [?|(_ & r & Hr & Ha & _)]%usable_snoc; [auto|]. rewrite Hn in Ha by done. done.
    - intros i l. rewrite usable_snoc. intros [?|(_ & r & Hr & Ha & _)]; [by eapply H|].
      rewrite Hn in Ha by done. done. }
  destruct (results !! tag) as [r|] eqn:Hr; [|by apply Hskip].
  destruct (Available r) eqn:Ha; [|apply Hskip; congruence].
  assert (forall i l, usable results (done ++ [tag]) i l <->
    usable results done i l \/ i = length done /\ Latency r = l) as Hsn.
  { intros i l. rewrite usable_snoc. split.
    - intros [?|(-> & r' & Hr' & _ & <-)]; [by left|]. right. simplify_eq. done.
    - intros [?|[-> <-]]; [by left|]. right. split; [done|]. by exists r. }
  destruct best as [[i l]|].
  - destruct H as [Hu Hb]. destruct (Latency r <? l) eqn:Hl; zb.
    + split; [apply Hsn; by right|]. intros j l' [Hj|[-> <-]]%Hsn; [|lia]. apply Hb in Hj. lia.
    + split; [apply Hsn; by left|]. intros j l' [Hj|[-> <-]]%Hsn; [by apply Hb|].
      apply Hlt in Hu. lia.
  - split; [apply Hsn; by right|]. intros j l' [Hj|[-> <-]]%Hsn; [by apply H in Hj|lia].
Qed.

Lemma best_of_all results outbounds : is_best results outbounds (best_of results outbounds 0 None).
Proof.
  apply (best_of_spec results [] outbounds None). intros i l (t & r & Hi & _).
  by rewrite lookup_nil in Hi.
Qed.

(** The selection points into the group. *)
Lemma selectBest_lt s outbounds i :
  selected (selectBest s outbounds) = Some i ->
  selected s = Some i \/ (i < length outbounds)%nat.
Proof.
  unfold selectBest. pose proof (best_of_all (Results (checker s)) outbounds) as Hb.
  destruct (best_of _ _ _ _) as [[b best]|]; [|by left]. destruct Hb as [Hu%usable_lt _].
  repeat case_match; simpl; intros ?; simplify_eq; auto.
Qed.

(** Latencies are durations: they fit in 63 bits. *)
Definition latencies_ok (results : gmap string Result) : Prop :=
  map_Forall (fun _ r => 0 <= Latency r < 2 ^ 63) results.

(** What [selectBest] does. *)
Lemma selectBest_spec s outbounds :
  latencies_ok (Results (checker s)) ->
  let results := Results (checker s) in
  let s' := selectBest s outbounds in
  checker s' = checker s /\ tolerance s' = tolerance s /\
  ((selected s' = selected s /\ forall i l, ~ usable results outbounds i l) \/
   exists i best, usable results outbounds i best /\
     (forall j l, usable results outbounds j l -> best <= l /\ (l = best -> (i <= j)%nat)) /\
     ((selected s' = selected s /\ exists cur l, selected s = Some cur /\
         usable results outbounds cur l /\ l - best <= tolerance s) \/
      (selected s' = Some i /\ forall cur l, selected s = Some cur ->
         usable results outbounds cur l -> tolerance s < l - best))).
Proof.
  intros Hl results s'. pose proof (best_of_all results outbounds) as Hb.
  unfold s', selectBest. fold results. destruct (best_of results outbounds 0 None) as [[i best]|].
  2: { split_and!; [done..|]. left. done. }
  destruct Hb as [Hu Hb].
  assert (forall tag r, results !! tag = Some r -> i64 (Latency r - best) = Latency r - best) as Hi.
  { intros tag r Hr. destruct Hu as (t0 & r0 & _ & Hr0 & _ & <-).
    apply Hl in Hr, Hr0. simpl in *. apply i64_small. lia. }
  destruct (selected s ≫= (outbounds !!.)) as [tag|] eqn:Hc.
  - apply bind_Some in Hc as (cur & Hcur & Ht).
    assert (forall l, usable results outbounds cur l -> exists r, results !! tag = Some r /\
      Available r = true /\ Latency r = l) as Hdet.
    { intros l (t & r & ? & Hr & ?). simplify_eq. by exists r. }
    destruct (results !! tag) as [cr|] eqn:Hr.
    + rewrite (Hi tag cr Hr). destruct (Available cr && _) eqn:Hd.
      * rewrite andb_true_iff in Hd. destruct Hd as [Ha Hd]. zb. split_and!; [done..|]. right.
        exists i, best. split_and!; [done|by apply Hb|]. left. split; [done|].
        exists cur, (Latency cr). split_and!; [done| |done]. by exists tag, cr.
      * split_and!; [done..|]. right. exists i, best. split_and!; [done|by apply Hb|]. right.
        split; [done|]. intros cur' l ? Hul. simplify_eq. destruct (Hdet _ Hul) as (r & ? & Ha & <-).
        simplify_eq. rewrite Ha in Hd. simpl in Hd. zb. lia.
    + split_and!; [done..|]. right. exists i, best. split_and!; [done|by apply Hb|]. right.
      split; [done|]. intros cur' l ? Hul. simplify_eq. by destruct (Hdet _ Hul) as (r & ? & _).
  - split_and!; [done..|]. right. exists i, best. split_and!; [done|by apply Hb|]. right.
    split; [done|]. intros cur l Hcur (t & r & Ht & _). rewrite Hcur in Hc. simpl in Hc. congruence.
Qed.

(** The url-test selection.  When no member is available the selection is
    kept.  Otherwise the selection afterwards is the current one if it is
    available and at most the tolerance slower than the fastest available member,
    and else the first of the fastest available members. *)
Theorem urltest_selects s outbounds :
  latencies_ok (Results (checker s)) ->
  let results := Results (checker s) in
  let s' := selectBest s outbounds in
  checker s' = checker s /\ tolerance s' = tolerance s /\
  ((selected s' = selected s /\ forall i l, ~ usable results outbounds i l) \/
   exists i best, usable results outbounds i best /\
     (forall j l, usable results outbounds j l -> best <= l /\ (l = best -> (i <= j)%nat)) /\
     ((selected s' = selected s /\ exists cur l, selected s = Some cur /\
         usable results outbounds cur l /\ l - best <= tolerance s) \/
      (selected s' = Some i /\ forall cur l, selected s = Some cur ->
         usable results outbounds cur l -> tolerance s < l - best))).
Proof. apply selectBest_spec. Qed.

(** Two members with 80 and 20 ms; the selection moves to the second. *)
Definition demo_state : urlTestState :=
  checkAll (newURLTestState (New None) 0) ["a"; "b"]
    [("a", Some 204, 80 * Millisecond, 1); ("b", Some 204, 20 * Millisecond, 2)].

Lemma urltest_selects_witness :
  exists i, selected (selectBest demo_state ["a"; "b"]) = Some i.
Proof.
  destruct (urltest_selects demo_state ["a"; "b"]) as (_ & _ & [[_ H]|(i & best & _ & _ & H)]).
  - apply (bool_decide_unpack _). by vm_compute.
  - destruct (H 0%nat (80 * Millisecond)). by eexists "a", _.
  - destruct H as [[_ (cur & l & Hc & _ & _)]|[H _]]; [|eauto]. by eexists.
Defined.

(** A failed check can win the selection.  Take a node that succeeded once and
    has not reached its tolerance of failures.  If its next check fails, and fails
    faster than every other member answers by more than the tolerance, the node is
    selected, because the time to the failure is recorded as its latency. *)
Theorem urltest_selects_failed s outbounds i tag latency now :
  let c := checker s in
  let s1 := MkURLTest (Check_ c tag None latency now).1 (selected s) (tolerance s) in
  latencies_ok (Results (checker s1)) -> 0 <= tolerance s -> outbounds !! i = Some tag ->
  everSucceeded (getOrCreate c tag) = true ->
  0 <= consecutiveFail (getOrCreate c tag) < Tolerance (cfg c) - 1 -> Tolerance (cfg c) < 2 ^ 63 ->
  (forall j t r, outbounds !! j = Some t -> j <> i -> Results (checker s1) !! t = Some r ->
     latency + tolerance s < Latency r) ->
  selected (selectBest s1 outbounds) = Some i.
Proof.
  intros c s1 Hl Ht Hi He Hf Htol Hother. set (results := Results (checker s1)) in *.
  assert (results !! tag = Some (MkResult latency true now)) as Hr.
  { unfold results, Results. rewrite lookup_fmap. simpl. rewrite lookup_insert_eq. simpl.
    unfold report. simpl. rewrite He, i64_small by lia. simpl. f_equal. f_equal.
    apply Z.ltb_lt. unfold c in *. lia. }
  assert (usable results outbounds i latency) as Hu by (by exists tag, (MkResult latency true now)).
  assert (forall j l, usable results outbounds j l -> j = i \/ latency + tolerance s < l) as Hj.
  { intros j l (t & r & Hjt & Hrt & _ & <-). destruct (decide (j = i)); [by left|].
    right. by eapply Hother. }
  destruct (selectBest_spec s1 outbounds Hl) as (_ & _ & [[_ Hn]|(b & best & Hb & Hmin & H)]).
  { by destruct (Hn i latency). }
  fold results in Hb, Hmin, H. destruct (Hmin i latency Hu) as [Hle _].
  destruct (Hj b best Hb) as [->|]; [|lia].
  destruct H as [[-> (cur & l & -> & Hcur & Hd)]|[-> _]]; [|done].
  simpl in Hd. destruct (Hj cur l Hcur) as [->|]; [done|].
  destruct Hb as (t & r & Hbt & Hrb & _ & <-). simplify_eq. simpl in Hd. lia.
Qed.

(** The faster member's server starts to refuse connections at once. *)
Lemma urltest_selects_failed_witness :
  selected (selectBest (MkURLTest (Check_ (checker demo_state) "a" None (1 * Millisecond) 3).1
    (selected demo_state) (10 * Millisecond)) ["a"; "b"]) = Some 0%nat.
Proof.
  apply (urltest_selects_failed (MkURLTest (checker demo_state) (selected demo_state)
    (10 * Millisecond)) ["a"; "b"] 0 "a" (1 * Millisecond) 3);
    [|by vm_compute|done|by vm_compute..|].
  - apply (bool_decide_unpack _). by vm_compute.
  - intros [|[|j]] t r; [done| |done]. intros [= <-] _ Hr. vm_compute in Hr. by injection Hr as <-.
Defined.

End HealthCheck.
