(* ===== verification/Quality.v ===== *)
(** * Quality ranking of outbounds (src/engine/outbound_quality.go)

    [float64] is IEEE 754 binary64, computed by the Standard Library's
    specification of it.  The draws of [rand.Shuffle] are an argument. *)

From Stdlib Require Import Floats.SpecFloat Sorting.Sorted.
From S2P Require Import Prelude GoBytes.

Local Open Scope Z_scope.

Module Quality.

Definition Second : Z := 1000000000.
Definition Millisecond : Z := 1000000.

(** ** float64 *)

Definition float64 := spec_float.
Definition of_Z (z : Z) : float64 := binary_normalize 53 1024 z 0 false.
Definition fadd : float64 -> float64 -> float64 := SFadd 53 1024.
Definition fsub : float64 -> float64 -> float64 := SFsub 53 1024.
Definition fmul : float64 -> float64 -> float64 := SFmul 53 1024.
Definition fsqrt : float64 -> float64 := SFsqrt 53 1024.

(** [d.Milliseconds()] *)
Definition Milliseconds (d : Z) : Z := Z.quot d Millisecond.

Record QualityConfig := MkQuality { MaxLatency : Z; MaxLossRate : float64; Tolerance : Z }.

Record qualityEntry := MkEntry { tag : string; latency : Z; loss : float64; index : nat }.

Definition defaultQualityToleranceMS : Z := 30.

Definition qualityScore (latency : Z) (loss : float64) : float64 :=
  let ms := of_Z (Milliseconds latency) in
  if SFleb loss (of_Z 0) then ms
  else fadd ms (fmul (of_Z 5000) (fsqrt loss)).

Definition score (e : qualityEntry) : float64 := qualityScore (latency e) (loss e).

Definition less (a b : qualityEntry) : bool := SFltb (score a) (score b).

(** [sort.SliceStable]: the insertion sort of the library (groups have fewer than
    its block size of 20 members).  [insert x sorted] moves [x] left past the
    entries it is less than. *)
Fixpoint insert_right (x : qualityEntry) (rev_sorted : list qualityEntry) : list qualityEntry :=
  match rev_sorted with
  | [] => [x]
  | y :: ys => if less x y then y :: insert_right x ys else x :: y :: ys
  end.

Definition SliceStable (l : list qualityEntry) : list qualityEntry :=
  rev (foldl (fun acc x => insert_right x acc) [] l).

(** [rand.Shuffle(n, swap)]: for [i] from [n-1] down to 1, swap [i] with a draw
    below [i+1]. *)
Definition swap {A} (i j : nat) (l : list A) : list A :=
  match l !! i, l !! j with
  | Some a, Some b => <[j := a]> (<[i := b]> l)
  | _, _ => l
  end.

Fixpoint Shuffle_from {A} (i : nat) (draws : list nat) (l : list A) : list A :=
  match i with
  | O => l
  | S i' => Shuffle_from i' (tail draws) (swap i (default 0%nat (head draws) mod S i) l)
  end.

Definition Shuffle {A} (draws : list nat) (l : list A) : list A :=
  Shuffle_from (pred (length l)) draws l.

(** The length of the run of entries within [tolMS] of the best score. *)
Fixpoint bucket_len (best tolMS : float64) (l : list qualityEntry) : nat :=
  match l with
  | [] => 0
  | e :: l => if SFltb tolMS (fsub (score e) best) then 0 else S (bucket_len best tolMS l)
  end.

Definition rankByQuality (entries : list qualityEntry) (cfg : QualityConfig) (draws : list nat)
    : list qualityEntry :=
  let ranked := SliceStable entries in
  match ranked with
  | [] | [_] => ranked
  | best :: others =>
      if Tolerance cfg <? 0 then ranked
      else
        let ms := of_Z (Milliseconds (Tolerance cfg)) in
        let tolMS := if SFeqb ms (of_Z 0) then of_Z defaultQualityToleranceMS else ms in
        let bucketEnd := S (bucket_len (score best) tolMS others) in
        if (1 <? bucketEnd)%nat
        then Shuffle draws (take bucketEnd ranked) ++ drop bucketEnd ranked
        else ranked
  end.

Definition exceeds (cfg : QualityConfig) (e : qualityEntry) : bool :=
  ((MaxLatency cfg >? 0) && (latency e >? MaxLatency cfg))
  || (SFltb (of_Z 0) (MaxLossRate cfg) && SFltb (MaxLossRate cfg) (loss e)).

Definition filterByQuality (entries : list qualityEntry) (cfg : QualityConfig)
    : list qualityEntry :=
  match entries with
  | [] => entries
  | _ =>
      match List.filter (fun e => negb (exceeds cfg e)) entries with
      | [] => entries
      | filtered => filtered
      end
  end.

(** ** Ranking *)

Lemma swap_perm {A} i j (l : list A) : swap i j l ≡ₚ l.
Proof.
  unfold swap. destruct (l !! i) as [a|] eqn:Hi; [|done]. destruct (l !! j) as [b|] eqn:Hj; [|done].
  by apply Permutation_insert_swap.
Qed.

Lemma Shuffle_perm {A} draws (l : list A) : Shuffle draws l ≡ₚ l.
Proof.
  unfold Shuffle. generalize (pred (length l)) as i. intros i. revert draws l.
  induction i as [|i IH]; intros draws l; [done|]. cbn [Shuffle_from]. by rewrite IH, swap_perm.
Qed.

Lemma insert_right_perm x l : insert_right x l ≡ₚ x :: l.
Proof.
  induction l as [|y l IH]; [done|]. simpl. case_match; [|done]. rewrite IH. constructor.
Qed.

Lemma SliceStable_perm l : SliceStable l ≡ₚ l.
Proof.
  unfold SliceStable. rewrite <- Permutation_rev.
  assert (forall acc, foldl (fun acc x => insert_right x acc) acc l ≡ₚ acc ++ l) as H.
  { induction l as [|x l IH]; intros acc; simpl; [by rewrite app_nil_r|].
    rewrite IH, insert_right_perm. apply Permutation_middle. }
  by rewrite H.
Qed.

Lemma rank_perm entries cfg draws : rankByQuality entries cfg draws ≡ₚ entries.
Proof.
  unfold rankByQuality. rewrite <- (SliceStable_perm entries) at 2.
  destruct (SliceStable entries) as [|a [|b l]]; [done..|]. case_match; [done|].
  cbn zeta. case_match; [|done]. rewrite Shuffle_perm. by rewrite take_drop.
Qed.

Lemma SFltb_asym a b : SFltb a b = true -> SFltb b a = false.
Proof.
  unfold SFltb, SFcompare. destruct a as [[]|[]| |[] m e], b as [[]|[]| |[] m' e']; try done;
    rewrite (Z.compare_antisym e e'); destruct (Z.compare e e') eqn:E; try done;
    simpl; change (Pos.compare_cont Eq) with Pos.compare; rewrite (Pos.compare_antisym m m');
    by destruct (Pos.compare m m').
Qed.

(** Sorted from right to left: no entry is less than its left neighbour. *)
Definition rev_sorted : list qualityEntry -> Prop := Sorted (fun a b => less a b = false).

Lemma insert_right_sorted x l : rev_sorted l -> rev_sorted (insert_right x l).
Proof.
  unfold rev_sorted. induction l as [|y l IH]; intros Hs; simpl; [by repeat constructor|].
  apply Sorted_inv in Hs as [Hs Hy]. destruct (less x y) eqn:E; [|by repeat constructor].
  constructor; [by apply IH|]. destruct l as [|z l]; simpl.
  - constructor. by apply SFltb_asym.
  - destruct (less x z); constructor; [by inversion Hy|by apply SFltb_asym].
Qed.

Lemma SliceStable_sorted l : rev_sorted (rev (SliceStable l)).
Proof.
  unfold SliceStable. rewrite rev_involutive.
  assert (forall acc, rev_sorted acc -> rev_sorted (foldl (fun acc x => insert_right x acc) acc l)) as H.
  { induction l as [|x l IH]; intros acc Ha; [done|]. by apply IH, insert_right_sorted. }
  apply H. constructor.
Qed.

End Quality.
