(* ===== verification/Groups.v ===== *)
(** * Outbound groups (src/engine/outbound_group.go, outbound_group_select.go,
    outbound_group_urltest.go, and the second pass of startInbounds in
    engine_inbound.go)

    [adapter.Outbound] is a record with a tag and a dial operation on the world.
    The mutable fields of groups live in the world under the group's number, so a
    group that is a member of two groups is shared; a connection is the tag of the
    outbound that made it.  Outbounds that are not groups are leaves, whose dials
    succeed or fail as the environment decides. *)

From Stdlib Require Import Floats.SpecFloat.
From S2P Require Import Prelude GoBytes HealthCheck Quality.

Local Open Scope Z_scope.

Module Groups.

Record ProbeSnapshot := MkProbe { p_Latency : Z; p_Loss : Quality.float64; p_Available : bool }.

(** ** The select strategy *)

(** An outbound of a group is its position in the group's list. *)
Record selectState := MkSelect { sel_selected : option nat; sel_members : gmap string nat }.

Definition newSelectState (outbounds : list string) : selectState :=
  MkSelect (if decide (outbounds = []) then None else Some 0%nat)
    (foldl (fun m '(i, tag) => <[tag := i]> m) ∅ (imap pair outbounds)).

Inductive select_err := NotFound (tag : string) | NotSelectGroup.

Definition Select (s : selectState) (tag : string) : res select_err selectState :=
  match sel_members s !! tag with
  | None => Err (NotFound tag)
  | Some ob => Ok (MkSelect (Some ob) (sel_members s))
  end.

(** ** Groups *)

Record GroupState := MkGroup {
  counter : Z;
  urlTest : option HealthCheck.urlTestState;
  select_ : option selectState
}.

(** The world a dial runs in: the groups' state, the probe results ([None] when the
    getter is nil), the draws of the shuffles to come, and the dials so far. *)
Record World := MkWorld {
  groups : gmap nat GroupState;
  probes : option (gmap string ProbeSnapshot);
  draws : list (list nat);
  attempts : list string
}.

Definition group_state (w : World) (g : nat) : GroupState :=
  default (MkGroup 0 None None) (groups w !! g).

Inductive group_err :=
| LeafFailed (tag : string)
| NoMembers (tag : string)
| AllFailed (tag : string) (n : nat) (last : option group_err)
| QualityFailed (tag : string) (n : nat) (last : option group_err)
| NoneAvailable (tag : string)
| NoneSelected (tag : string).

(** [adapter.Outbound] *)
Record outbound := MkOutbound {
  Tag : string;
  DialContext : World -> World * res group_err string
}.

(** Try the outbounds at the given positions in turn; the last error if all fail. *)
Fixpoint try_at (outbounds : list outbound) (idxs : list nat) (lastErr : option group_err)
    (w : World) : World * res (option group_err) string :=
  match idxs with
  | [] => (w, Err lastErr)
  | i :: idxs =>
      match outbounds !! i with
      | None => (w, Panic)
      | Some ob =>
          match DialContext ob w with
          | (w, Ok conn) => (w, Ok conn)
          | (w, Err e) => try_at outbounds idxs (Some e) w
          | (w, Panic) => (w, Panic)
          end
      end
  end.

Definition wrap_last (f : option group_err -> group_err)
    (r : World * res (option group_err) string) : World * res group_err string :=
  (r.1, wrap_err f r.2).

Definition dialFailover (tag : string) (outbounds : list outbound) (w : World)
    : World * res group_err string :=
  wrap_last (AllFailed tag (length outbounds)) (try_at outbounds (seq 0 (length outbounds)) None w).

(** The positions visited by the round-robin loop. *)
Definition round_robin (n start : nat) : list nat :=
  map (fun i => (start + i) mod n)%nat (seq 0 n).

Definition dialLoadBalance (g : nat) (tag : string) (outbounds : list outbound) (w : World)
    : World * res group_err string :=
  let n := length outbounds in
  let st := group_state w g in
  let next := u64 (counter st + 1) in
  let idx := u64 (next - 1) in
  let start := idx mod Z.of_nat n in
  let w := MkWorld (<[g := MkGroup next (urlTest st) (select_ st)]> (groups w)) (probes w) (draws w)
             (attempts w) in
  wrap_last (AllFailed tag n) (try_at outbounds (round_robin n (Z.to_nat start)) None w).

(** The entries of [dialQuality], from the probe results. *)
Definition quality_entries (probes : option (gmap string ProbeSnapshot)) (tags : list string)
    : list Quality.qualityEntry :=
  imap (fun i tag =>
    match default ∅ probes !! tag with
    | Some ps =>
        if p_Available ps then Quality.MkEntry tag (p_Latency ps) (p_Loss ps) i
        else Quality.MkEntry tag Quality.Second (Quality.of_Z 1) i
    | None => Quality.MkEntry tag Quality.Second (Quality.of_Z 1) i
    end) tags.

Definition dialQuality (tag : string) (qc : Quality.QualityConfig) (outbounds : list outbound)
    (w : World) : World * res group_err string :=
  let entries := Quality.filterByQuality (quality_entries (probes w) (map Tag outbounds)) qc in
  let entries := Quality.rankByQuality entries qc (default [] (head (draws w))) in
  let w := MkWorld (groups w) (probes w) (tail (draws w)) (attempts w) in
  wrap_last (fun last =>
      match last with
      | Some _ => QualityFailed tag (length entries) last
      | None => NoneAvailable tag
      end)
    (try_at outbounds (map Quality.index entries) None w).

Definition dialURLTest (g : nat) (tag : string) (outbounds : list outbound) (w : World)
    : World * res group_err string :=
  match urlTest (group_state w g) ≫= HealthCheck.selected with
  | None => dialFailover tag outbounds w
  | Some i =>
      match outbounds !! i with
      | None => (w, Panic)
      | Some sel =>
          match DialContext sel w with
          | (w, Ok conn) => (w, Ok conn)
          | (w, Err _) => dialFailover tag outbounds w
          | (w, Panic) => (w, Panic)
          end
      end
  end.

Definition dialSelect (g : nat) (tag : string) (outbounds : list outbound) (w : World)
    : World * res group_err string :=
  match select_ (group_state w g) with
  | None => dialFailover tag outbounds w
  | Some s =>
      match sel_selected s with
      | None => (w, Err (NoneSelected tag))
      | Some i =>
          match outbounds !! i with
          | None => (w, Panic)
          | Some sel => DialContext sel w
          end
      end
  end.

(** [OutboundGroup.DialContext] *)
Definition group_dial (g : nat) (tag strategy : string) (qc : Quality.QualityConfig)
    (outbounds : list outbound) (w : World) : World * res group_err string :=
  match outbounds with
  | [] => (w, Err (NoMembers tag))
  | _ =>
      if bool_decide (strategy = "loadbalance") then dialLoadBalance g tag outbounds w
      else if bool_decide (strategy = "quality") then dialQuality tag qc outbounds w
      else if bool_decide (strategy = "url-test") then dialURLTest g tag outbounds w
      else if bool_decide (strategy = "select") then dialSelect g tag outbounds w
      else dialFailover tag outbounds w
  end.

(** [SelectOutbound] *)
Definition SelectOutbound (g : nat) (tag : string) (w : World) : res select_err World :=
  let st := group_state w g in
  match select_ st with
  | None => Err NotSelectGroup
  | Some s =>
      s ← Select s tag;
      Ok (MkWorld (<[g := MkGroup (counter st) (urlTest st) (Some s)]> (groups w)) (probes w)
            (draws w) (attempts w))
  end.

(** ** Building outbounds *)

(** The outbounds of the engine: leaves, and groups of outbounds built before. *)
Inductive tree :=
| Leaf (tag : string)
| Group (g : nat) (tag strategy : string) (qc : Quality.QualityConfig) (members : list tree).

Section dialing.

(** Whether a leaf's dial succeeds, after the dials so far. *)
Context (up : list string -> string -> bool).

Definition dial_leaf (tag : string) (w : World) : World * res group_err string :=
  (MkWorld (groups w) (probes w) (draws w) (attempts w ++ [tag]),
   if up (attempts w) tag then Ok tag else Err (LeafFailed tag)).

Fixpoint outbound_of (t : tree) : outbound :=
  match t with
  | Leaf tag => MkOutbound tag (dial_leaf tag)
  | Group g tag strategy qc members =>
      MkOutbound tag (group_dial g tag strategy qc (map outbound_of members))
  end.

End dialing.

(** A group of the configuration, parsed. *)
Record GroupConfig := MkGroupConfig {
  g_Tag : string; g_Strategy : string; g_Outbounds : list string;
  g_Quality : Quality.QualityConfig;
  g_HealthCheck : option HealthCheck.Config; g_ToleranceMS : Z
}.

Inductive build_err := MemberNotFound (group member : string).

Fixpoint find_members (group : string) (outbounds : gmap string tree) (tags : list string)
    : res build_err (list tree) :=
  match tags with
  | [] => Ok []
  | member :: tags =>
      match outbounds !! member with
      | None => Err (MemberNotFound group member)
      | Some ob => obs ← find_members group outbounds tags; Ok (ob :: obs)
      end
  end.

Definition tree_tag (t : tree) : string :=
  match t with Leaf tag => tag | Group _ tag _ _ _ => tag end.

(** The second pass over the outbounds of the configuration, group by group; [n] is
    the number of the next group. *)
Fixpoint build_groups (cfgs : list GroupConfig) (n : nat) (outbounds : gmap string tree)
    (states : gmap nat GroupState) : res build_err (gmap string tree * gmap nat GroupState) :=
  match cfgs with
  | [] => Ok (outbounds, states)
  | cfg :: cfgs =>
      members ← find_members (g_Tag cfg) outbounds (g_Outbounds cfg);
      let grp := Group n (g_Tag cfg) (g_Strategy cfg) (g_Quality cfg) members in
      let st :=
        if bool_decide (g_Strategy cfg = "url-test") then
          MkGroup 0 (Some (HealthCheck.newURLTestState (HealthCheck.New (g_HealthCheck cfg))
                             (g_ToleranceMS cfg))) None
        else if bool_decide (g_Strategy cfg = "select") then
          MkGroup 0 None (Some (newSelectState (map tree_tag members)))
        else MkGroup 0 None None in
      build_groups cfgs (S n) (<[g_Tag cfg := grp]> outbounds) (<[n := st]> states)
  end.

(** ** What an outbound promises *)

(** Worlds with the same selections and probe results. *)
Definition same (w w' : World) : Prop :=
  probes w' = probes w /\
  forall g, urlTest (group_state w' g) = urlTest (group_state w g) /\
            select_ (group_state w' g) = select_ (group_state w g).

#[export] Instance same_equiv : Equivalence same.
Proof.
  split.
  - by split.
  - intros w w' [Hp Hg]. split; [done|]. intros g. by destruct (Hg g).
  - intros w1 w2 w3 [Hp Hg] [Hp' Hg']. split; [congruence|]. intros g.
    destruct (Hg g), (Hg' g). split; congruence.
Qed.

(** The promise of an outbound to the group it is a member of: in a world where
    [P] holds, a dial returns a connection that [good] allows, or fails when there
    is none; it does not change selections or probes. *)
Class Lawful (ob : outbound) (P : World -> Prop) (good : World -> string -> Prop) := {
  law_dial w : P w ->
    let '(w', r) := DialContext ob w in
    same w w' /\
    match r with
    | Ok c => good w c
    | Err _ => forall c, ~ good w c
    | Panic => False
    end;
  law_P :: Proper (same ==> iff) P;
  law_good :: Proper (same ==> eq ==> iff) good
}.

Section members.

Context (outbounds : list outbound) (P : nat -> World -> Prop) (good : nat -> World -> string -> Prop).
Context (Hlaw : forall i ob, outbounds !! i = Some ob -> Lawful ob (P i) (good i)).

Lemma try_at_ok idxs last w :
  (forall i, i ∈ idxs -> (i < length outbounds)%nat /\ P i w) ->
  let '(w', r) := try_at outbounds idxs last w in
  same w w' /\
  match r with
  | Ok c => exists i, i ∈ idxs /\ good i w c
  | Err _ => forall i, i ∈ idxs -> forall c, ~ good i w c
  | Panic => False
  end.
Proof.
  revert last w. induction idxs as [|i idxs IH]; intros last w Hi; simpl.
  { split; [done|]. set_solver. }
  destruct (Hi i) as [Hlt HP]; [set_solver|].
  destruct (outbounds !! i) as [ob|] eqn:Hob; [|apply lookup_ge_None in Hob; lia].
  pose proof (Hlaw i ob Hob) as L. pose proof (law_dial w HP) as D.
  destruct (DialContext ob w) as [w1 [c|e|]]; destruct D as [Hs D].
  - split; [done|]. exists i. set_solver.
  - specialize (IH (Some e) w1). destruct (try_at outbounds idxs (Some e) w1) as [w2 r].
    destruct IH as [Hs2 IH].
    { intros j Hj. destruct (Hi j) as [Hlt' HP']; [set_solver|]. split; [done|].
      destruct (outbounds !! j) as [obj|] eqn:Hobj; [|apply lookup_ge_None in Hobj; lia].
      by rewrite <- (law_P (Lawful := Hlaw j obj Hobj) w w1 Hs). }
    assert (forall j c, j ∈ idxs -> good j w c <-> good j w1 c) as Hgood.
    { intros j c Hj. destruct (Hi j) as [Hlt' _]; [set_solver|].
      destruct (outbounds !! j) as [obj|] eqn:Hobj; [|apply lookup_ge_None in Hobj; lia].
      by apply (law_good (Lawful := Hlaw j obj Hobj)). }
    split; [by etrans|]. destruct r as [c|e'|]; [|intros j|done].
    + destruct IH as (j & Hj & Hc). exists j. split; [set_solver|]. by apply Hgood.
    + intros [->|Hj]%elem_of_cons c; [done|]. rewrite Hgood by done. by apply IH.
  - done.
Qed.

(** The same after wrapping the error, from a world that differs in what dials do
    not look at. *)
Lemma try_wrap_ok f idxs w w0 :
  same w0 w -> (forall i, i ∈ idxs -> (i < length outbounds)%nat /\ P i w0) ->
  let '(w', r) := wrap_last f (try_at outbounds idxs None w) in
  same w0 w' /\
  match r with
  | Ok c => exists i, i ∈ idxs /\ good i w0 c
  | Err _ => forall i, i ∈ idxs -> forall c, ~ good i w0 c
  | Panic => False
  end.
Proof.
  intros Hs Hi.
  assert (forall i, i ∈ idxs -> (P i w0 <-> P i w) /\ forall c, good i w0 c <-> good i w c) as Heq.
  { intros i Hin. destruct (Hi i Hin) as [Hlt _].
    destruct (outbounds !! i) as [ob|] eqn:Hob; [|apply lookup_ge_None in Hob; lia].
    pose proof (Hlaw i ob Hob) as L. split; [by apply law_P|]. intros c. by apply law_good. }
  pose proof (try_at_ok idxs None w) as H. unfold wrap_last.
  destruct (try_at outbounds idxs None w) as [w' r]. destruct H as [Hs' H].
  { intros i Hin. destruct (Hi i Hin). split; [done|]. by apply (Heq i Hin). }
  simpl. split; [by etrans|]. destruct r as [c|e|]; simpl; [|intros i Hin c|done].
  - destruct H as (i & Hin & Hc). exists i. split; [done|]. by apply (Heq i Hin).
  - rewrite (proj2 (Heq i Hin)). by apply H.
Qed.

End members.

(** ** Groups keep the promise *)

(** The members a group may use, by strategy: for quality those that pass the
    thresholds (all of them when none does), for select the selected one, and else
    every member. *)
Definition candidate (w : World) (g : nat) (strategy : string) (qc : Quality.QualityConfig)
    (tags : list string) (i : nat) : Prop :=
  if bool_decide (strategy = "quality") then
    i ∈ map Quality.index (Quality.filterByQuality (quality_entries (probes w) tags) qc)
  else
    match select_ (group_state w g) with
    | Some s =>
        if bool_decide (strategy = "select") then sel_selected s = Some i
        else (i < length tags)%nat
    | None => (i < length tags)%nat
    end.

(** Selections point into the group. *)
Definition selections_ok (w : World) (g : nat) (n : nat) : Prop :=
  (forall i, urlTest (group_state w g) ≫= HealthCheck.selected = Some i -> (i < n)%nat) /\
  (forall i, select_ (group_state w g) ≫= sel_selected = Some i -> (i < n)%nat).

Lemma quality_index_lt probes tags qc i :
  i ∈ map Quality.index (Quality.filterByQuality (quality_entries probes tags) qc) ->
  (i < length tags)%nat.
Proof.
  intros H.
  assert (i ∈ map Quality.index (quality_entries probes tags)) as Hi.
  { revert H. rewrite !elem_of_map. intros (e & -> & He). exists e. split; [done|].
    unfold Quality.filterByQuality in He. destruct (quality_entries probes tags) as [|e0 es]; [done|].
    destruct (List.filter _ _) as [|f fs] eqn:Hf; [done|]. rewrite <- Hf in He.
    apply list_elem_of_In, List.filter_In in He as [He _]. by apply list_elem_of_In. }
  apply elem_of_map in Hi as (e & -> & He). apply elem_of_lookup_imap in He as (j & t & -> & Ht).
  apply lookup_lt_Some in Ht. repeat case_match; done.
Qed.

Lemma round_robin_elem n start i : i ∈ round_robin n start <-> (i < n)%nat.
Proof.
  unfold round_robin. rewrite elem_of_map. split.
  - intros (k & -> & Hk%elem_of_seq). apply Nat.mod_upper_bound. lia.
  - intros Hi. set (d := (start mod n)%nat). assert (d < n)%nat by (apply Nat.mod_upper_bound; lia).
    assert (start = n * (start / n) + d)%nat as Hst by (apply Nat.div_mod_eq).
    exists (if (d <=? i)%nat then i - d else n - (d - i))%nat. rewrite elem_of_seq.
    destruct (Nat.leb_spec d i); (split; [|lia]).
    + replace (start + (i - d))%nat with (i + (start / n) * n)%nat by lia.
      rewrite Nat.Div0.mod_add, Nat.mod_small; lia.
    + replace (start + (n - (d - i)))%nat with (i + (start / n + 1) * n)%nat by lia.
      rewrite Nat.Div0.mod_add, Nat.mod_small; lia.
Qed.

Lemma same_insert_counter w g next ds at_ :
  same w (MkWorld (<[g := MkGroup next (urlTest (group_state w g)) (select_ (group_state w g))]>
                     (groups w)) (probes w) ds at_).
Proof.
  split; [done|]. intros g'. unfold group_state. simpl.
  destruct (decide (g = g')) as [->|]; [by rewrite lookup_insert_eq|by rewrite lookup_insert_ne].
Qed.

Section group.

Context (g : nat) (tag strategy : string) (qc : Quality.QualityConfig) (outbounds : list outbound).
Context (P : nat -> World -> Prop) (good : nat -> World -> string -> Prop).
Context (Hlaw : forall i ob, outbounds !! i = Some ob -> Lawful ob (P i) (good i)).

Definition group_P (w : World) : Prop :=
  selections_ok w g (length outbounds) /\ forall i, (i < length outbounds)%nat -> P i w.

Definition group_good (w : World) (c : string) : Prop :=
  exists i, (i < length outbounds)%nat /\
    candidate w g strategy qc (map Tag outbounds) i /\ good i w c.

Lemma lawful_at i :
  (i < length outbounds)%nat -> exists ob, outbounds !! i = Some ob /\ Lawful ob (P i) (good i).
Proof. intros [ob Hob]%lookup_lt_is_Some. eauto. Qed.

#[local] Instance group_P_proper : Proper (same ==> iff) group_P.
Proof.
  intros w w' Hs. unfold group_P, selections_ok. destruct Hs as [Hp Hg].
  destruct (Hg g) as [-> ->]. split; intros [Hsel H]; (split; [done|]); intros i Hi;
    destruct (lawful_at i Hi) as (ob & _ & L); specialize (H i Hi);
    by eapply (law_P (Lawful := L) w w').
Qed.

#[local] Instance group_good_proper : Proper (same ==> eq ==> iff) group_good.
Proof.
  intros w w' Hs c ? <-. unfold group_good, candidate. destruct Hs as [Hp Hg]. rewrite Hp.
  destruct (Hg g) as [_ ->].
  split; intros (i & Hi & Hc & H); exists i; (split; [done|]); (split; [done|]);
    destruct (lawful_at i Hi) as (ob & _ & L); by eapply (law_good (Lawful := L) w w').
Qed.

(** A strategy that tries some members in turn. *)
Lemma try_group_ok f idxs w w0 :
  group_P w0 -> same w0 w ->
  (forall i, i ∈ idxs <-> (i < length outbounds)%nat /\
     candidate w0 g strategy qc (map Tag outbounds) i) ->
  let '(w', r) := wrap_last f (try_at outbounds idxs None w) in
  same w0 w' /\
  match r with
  | Ok c => group_good w0 c
  | Err _ => forall c, ~ group_good w0 c
  | Panic => False
  end.
Proof.
  intros [_ HP] Hs Hidx. pose proof (try_wrap_ok outbounds P good Hlaw f idxs w w0 Hs) as H.
  destruct (wrap_last f _) as [w' r]. destruct H as [Hs' H].
  { intros i Hi. apply Hidx in Hi as [Hi _]. auto. }
  split; [done|]. destruct r as [c|e|]; [|intros c|done].
  - destruct H as (i & Hi & Hc). apply Hidx in Hi as [? ?]. by exists i.
  - intros (i & Hi & Hc & Hg). eapply H; [|done]. by apply Hidx.
Qed.

Lemma failover_ok w w0 :
  group_P w0 -> same w0 w ->
  (forall i, (i < length outbounds)%nat -> candidate w0 g strategy qc (map Tag outbounds) i) ->
  let '(w', r) := dialFailover tag outbounds w in
  same w0 w' /\
  match r with
  | Ok c => group_good w0 c
  | Err _ => forall c, ~ group_good w0 c
  | Panic => False
  end.
Proof.
  intros HP Hs Hc. apply try_group_ok; [done..|]. intros i. rewrite elem_of_seq.
  split; [|lia]. intros. split; [lia|]. apply Hc. lia.
Qed.

#[export] Instance group_lawful : Lawful (MkOutbound tag (group_dial g tag strategy qc outbounds))
  group_P group_good.
Proof.
  split; [|apply _..]. intros w HP. simpl. unfold group_dial.
  destruct (decide (outbounds = [])) as [He|He].
  { rewrite He. split; [done|]. intros c (i & Hi & _). rewrite He in Hi. simpl in Hi. lia. }
  assert (forall A (x y : A), match outbounds with [] => x | _ => y end = y) as ->
    by (by destruct outbounds).
  assert (length (map Tag outbounds) = length outbounds) as Hlen by apply length_map.
  assert (forall i, strategy <> "quality" -> (strategy <> "select" \/ select_ (group_state w g) = None) ->
    candidate w g strategy qc (map Tag outbounds) i <-> (i < length outbounds)%nat) as Hall.
  { intros i Hq Hsel. unfold candidate. rewrite bool_decide_eq_false_2, Hlen by done.
    destruct Hsel as [Hsel | ->]; [|done]. rewrite bool_decide_eq_false_2 by done. by case_match. }
  case_bool_decide as Hlb; [|case_bool_decide as Hq; [|
    case_bool_decide as Hu; [|case_bool_decide as Hsel]]].
  - apply try_group_ok; [done|apply same_insert_counter|]. intros i.
    rewrite round_robin_elem, Hall by (rewrite Hlb; auto). tauto.
  - apply try_group_ok; [done|done|]. intros i. unfold candidate. rewrite Hq. simpl.
    rewrite (Quality.rank_perm _ _ _). split; [|by intros [_ ?]]. intros Hi. split; [|done].
    apply quality_index_lt in Hi. lia.
  - assert (forall i, (i < length outbounds)%nat ->
      candidate w g strategy qc (map Tag outbounds) i) as Hcand
      by (intros i; rewrite Hall by (rewrite Hu; auto); done).
    unfold dialURLTest. destruct (urlTest (group_state w g) ≫= HealthCheck.selected) as [i|] eqn:Hi;
      [|by apply failover_ok].
    pose proof HP as [[Hsel _] HP']. apply Hsel in Hi. destruct (lawful_at i Hi) as (ob & Hob & L).
    rewrite Hob. pose proof (law_dial (Lawful := L) w (HP' i Hi)) as D.
    destruct (DialContext ob w) as [w1 [c|e|]]; destruct D as [Hs D]; [|by apply failover_ok|done].
    split; [done|]. exists i. auto.
  - unfold dialSelect. destruct (select_ (group_state w g)) as [s|] eqn:Hs.
    + assert (forall i, candidate w g strategy qc (map Tag outbounds) i <-> sel_selected s = Some i)
        as Hcand by (intros i; unfold candidate; by rewrite Hsel, Hs).
      destruct (sel_selected s) as [i|] eqn:Hi.
      * destruct HP as [[_ Hsel'] HP]. rewrite Hs in Hsel'. apply Hsel' in Hi as Hlt.
        destruct (lawful_at i Hlt) as (ob & Hob & L). rewrite Hob.
        pose proof (law_dial (Lawful := L) w (HP i Hlt)) as D.
        destruct (DialContext ob w) as [w1 [c|e|]]; destruct D as [Hsame D]; [| |done].
        -- split; [done|]. exists i. split; [done|]. split; [by apply Hcand|done].
        -- split; [done|]. intros c (j & Hj & Hc & Hg). apply Hcand in Hc. simplify_eq. by eapply D.
      * split; [done|]. intros c (j & Hj & Hc & Hg). by apply Hcand in Hc.
    + apply failover_ok; [done..|]. intros i. rewrite Hall by (rewrite Hsel; auto). done.
  - apply failover_ok; [done..|]. intros i.
    rewrite Hall by auto. done.
Qed.

End group.

(** ** Trees of outbounds *)

Section nested_ind.

Context (Q : tree -> Prop) (Hleaf : forall tag, Q (Leaf tag)).
Context (Hgroup : forall g tag strategy qc members,
  Forall Q members -> Q (Group g tag strategy qc members)).

Fixpoint tree_nested_ind (t : tree) : Q t :=
  match t with
  | Leaf tag => Hleaf tag
  | Group g tag strategy qc members =>
      Hgroup g tag strategy qc members
        ((fix all (ms : list tree) : Forall Q ms :=
            match ms with
            | [] => Forall_nil_2 Q
            | m :: ms => Forall_cons_2 Q m ms (tree_nested_ind m) (all ms)
            end) members)
  end.

End nested_ind.

(** Every group's selections point into the group. *)
Inductive wf_tree (w : World) : tree -> Prop :=
| wf_Leaf tag : wf_tree w (Leaf tag)
| wf_Group g tag strategy qc members :
    selections_ok w g (length members) ->
    (forall i m, members !! i = Some m -> wf_tree w m) ->
    wf_tree w (Group g tag strategy qc members).

(** The leaves that an outbound may connect through, when the leaves of [up] work. *)
Inductive connects (up : string -> bool) (w : World) : tree -> string -> Prop :=
| connects_Leaf tag : up tag = true -> connects up w (Leaf tag) tag
| connects_Group g tag strategy qc members i m c :
    members !! i = Some m -> candidate w g strategy qc (map tree_tag members) i ->
    connects up w m c -> connects up w (Group g tag strategy qc members) c.

Lemma Lawful_iff ob (P P' : World -> Prop) (good good' : World -> string -> Prop) :
  Lawful ob P good -> (forall w, P w <-> P' w) -> (forall w c, good w c <-> good' w c) ->
  Lawful ob P' good'.
Proof.
  intros L HP Hg. split.
  - intros w Hw. apply HP in Hw. pose proof (law_dial w Hw) as D.
    destruct (DialContext ob w) as [w' [c|e|]]; destruct D as [Hs D]; (split; [done|]).
    + by apply Hg.
    + intros c. rewrite <- Hg. apply D.
    + done.
  - intros w w' Hs. rewrite <- !HP. by apply law_P.
  - intros w w' Hs c ? <-. rewrite <- !Hg. by apply law_good.
Qed.

Lemma tag_outbound_of up t : Tag (outbound_of up t) = tree_tag t.
Proof. by destruct t. Qed.

#[export] Instance tree_lawful up t :
  Lawful (outbound_of (fun _ => up) t) (fun w => wf_tree w t) (fun w c => connects up w t c).
Proof.
  induction t as [tag|g tag strategy qc members IH] using tree_nested_ind.
  - split.
    + intros w _. simpl. split; [by split|]. destruct (up tag) eqn:E; [by constructor|].
      intros c Hc. inversion Hc. congruence.
    + intros w w' _. split; constructor.
    + intros w w' _ c ? <-. split; inversion 1; by constructor.
  - pose (P i w := forall m, members !! i = Some m -> wf_tree w m).
    pose (good i w c := exists m, members !! i = Some m /\ connects up w m c).
    eapply (Lawful_iff _ (group_P g (map (outbound_of (fun _ => up)) members) P) _
      (group_good g strategy qc (map (outbound_of (fun _ => up)) members) good)).
    + apply group_lawful. intros i ob. rewrite lookup_map. intros (m & Hm & ->)%fmap_Some.
      pose proof (Forall_lookup_1 _ _ _ _ IH Hm) as L.
      eapply (Lawful_iff _ _ _ _ _ L); unfold P, good.
      * intros w. split; [intros ? ? ?; by simplify_eq|by eauto].
      * intros w c. split; [by eauto|intros (m' & ? & ?); by simplify_eq].
    + intros w. unfold group_P, P. rewrite length_map. split.
      * intros [Hs H]. constructor; [done|]. intros i m Hm. eapply H; [|done].
        by eapply lookup_lt_Some.
      * inversion 1; subst. eauto.
    + intros w c. unfold group_good, good. rewrite length_map, map_map.
      rewrite (map_ext _ _ (tag_outbound_of (fun _ => up))). split.
      * intros (i & Hi & Hc & m & Hm & Hg). by econstructor.
      * inversion 1; subst. exists i. split; [by eapply lookup_lt_Some|]. eauto.
Qed.

(** ** The groups of a running engine *)

(** Where the group with number [g] occurs. *)
Inductive subtree : tree -> tree -> Prop :=
| subtree_refl t : subtree t t
| subtree_member t g tag strategy qc members i m :
    members !! i = Some m -> subtree t m -> subtree t (Group g tag strategy qc members).

(** What happens to the groups: a dial through an outbound, a manual selection, and
    a round of health checks of a group. *)
Inductive group_step (up : string -> bool) (outbounds : gmap string tree) : World -> World -> Prop :=
| step_dial w t : (exists tag, outbounds !! tag = Some t) ->
    group_step up outbounds w (DialContext (outbound_of (fun _ => up) t) w).1
| step_select w w' g tag : SelectOutbound g tag w = Ok w' -> group_step up outbounds w w'
| step_check w g tag strategy qc members t u checks :
    (exists k, outbounds !! k = Some t) -> subtree (Group g tag strategy qc members) t ->
    urlTest (group_state w g) = Some u ->
    group_step up outbounds w
      (MkWorld (<[g := MkGroup (counter (group_state w g))
                   (Some (HealthCheck.checkAll u (map tree_tag members) checks))
                   (select_ (group_state w g))]> (groups w)) (probes w) (draws w) (attempts w))
| step_probe w p ds : group_step up outbounds w (MkWorld (groups w) p ds (attempts w)).

(** The outbounds before the second pass: leaves. *)
Definition leaves_only (outbounds : gmap string tree) : Prop :=
  map_Forall (fun _ t => exists tag, t = Leaf tag) outbounds.

(** The number of members of each group, by the group's number. *)
Definition sized (sizes : gmap nat nat) (t : tree) : Prop :=
  forall g tag strategy qc members,
    subtree (Group g tag strategy qc members) t -> sizes !! g = Some (length members).

Definition state_ok (sizes : gmap nat nat) (w : World) : Prop :=
  forall g n, sizes !! g = Some n -> selections_ok w g n /\
    forall s tag i, select_ (group_state w g) = Some s -> sel_members s !! tag = Some i -> (i < n)%nat.

Lemma sized_wf sizes w t : sized sizes t -> state_ok sizes w -> wf_tree w t.
Proof.
  intros Hs Hok. induction t as [tag|g tag strategy qc members IH] using tree_nested_ind; [constructor|].
  constructor.
  - apply (Hok g). eapply Hs. constructor.
  - intros i m Hm. apply (Forall_lookup_1 _ _ _ _ IH Hm). intros g' tag' st' qc' ms' Hsub.
    eapply Hs. by econstructor.
Qed.

Lemma state_ok_same sizes w w' : same w w' -> state_ok sizes w -> state_ok sizes w'.
Proof.
  intros [_ Hg] Hok g n Hn. destruct (Hg g) as [Hu Hsel]. destruct (Hok g n Hn) as [Hso Hm].
  unfold selections_ok. rewrite Hu, Hsel. done.
Qed.

Lemma group_state_insert w g st p ds a g' :
  group_state (MkWorld (<[g := st]> (groups w)) p ds a) g' =
  if decide (g = g') then st else group_state w g'.
Proof.
  unfold group_state. simpl. case_decide; [subst; by rewrite lookup_insert_eq|by rewrite lookup_insert_ne].
Qed.

Lemma group_step_ok up outbounds sizes w w' :
  map_Forall (fun _ => sized sizes) outbounds -> group_step up outbounds w w' ->
  state_ok sizes w -> state_ok sizes w'.
Proof.
  intros Ho Hst Hok. destruct Hst as
    [w t [k Hk]|w w' g tag Hsel|w g tag strategy qc members t u checks [k Hk] Hsub Hu|w p ds].
  - apply Ho in Hk. pose proof (sized_wf sizes w t Hk Hok) as Hwf.
    pose proof (law_dial (Lawful := tree_lawful up t) w Hwf) as D.
    destruct (DialContext (outbound_of (fun _ => up) t) w) as [w' r]. destruct D as [Hs _].
    by eapply state_ok_same.
  - unfold SelectOutbound in Hsel. destruct (select_ (group_state w g)) as [s|] eqn:Hs; [|done].
    unfold Select in Hsel. destruct (sel_members s !! tag) as [i|] eqn:Hi; [|done]. injection Hsel as <-.
    intros g' n Hn. unfold selections_ok. rewrite group_state_insert. destruct (Hok g' n Hn) as [Hso Hm].
    case_decide; [subst g'|done]. simpl. split; [split; [apply Hso|]|].
    + intros j [= <-]. by eapply Hm.
    + intros s' tag' j [= <-]. simpl. by eapply Hm.
  - apply Ho in Hk. apply Hk in Hsub as Hsz. intros g' n Hn. unfold selections_ok.
    rewrite group_state_insert. destruct (Hok g' n Hn) as [Hso Hm].
    case_decide; [subst g'|done]. simpl. split; [split; [|apply Hso]|done].
    intros i Hi. apply HealthCheck.selectBest_lt in Hi as [Hi|Hi]; simpl in Hi.
    + apply (proj1 Hso). by rewrite Hu.
    + rewrite length_map in Hi. congruence.
  - intros g n Hn. by destruct (Hok g n Hn).
Qed.

Lemma newSelectState_lt tags tag i :
  sel_members (newSelectState tags) !! tag = Some i -> (i < length tags)%nat.
Proof.
  simpl. assert (forall (l : list (nat * string)) (m : gmap string nat), (forall t j, m !! t = Some j -> (j < length tags)%nat) ->
    (forall j t, (j, t) ∈ l -> (j < length tags)%nat) ->
    foldl (fun m '(i, tag) => <[tag := i]> m) m l !! tag = Some i -> (i < length tags)%nat) as H.
  { intros l. induction l as [|[j t] l IH]; intros m Hm Hl; simpl; [apply Hm|].
    apply IH; [|set_solver]. intros t' j'. rewrite lookup_insert_Some. set_solver. }
  apply H; [set_solver|]. intros j t Hj. apply elem_of_lookup_imap in Hj as (j' & t' & [= -> ->] & Ht).
  by eapply lookup_lt_Some.
Qed.

Lemma find_members_Forall Q group outbounds tags ms :
  map_Forall (fun _ => Q) outbounds -> find_members group outbounds tags = Ok ms -> Forall Q ms.
Proof.
  intros HQ. revert ms. induction tags as [|t tags IH]; intros ms; simpl; [by intros [= <-]|].
  destruct (outbounds !! t) as [ob|] eqn:Hob; [|done].
  destruct (find_members group outbounds tags) as [obs|e|]; [|done..]. intros [= <-].
  constructor; [by apply HQ in Hob|by apply IH].
Qed.

Lemma sized_Group sizes g tag strategy qc members :
  sizes !! g = Some (length members) -> Forall (sized sizes) members ->
  sized sizes (Group g tag strategy qc members).
Proof.
  intros Hg Hm g' tag' st' qc' ms' Hsub. inversion Hsub as [|? ? ? ? ? ? i m Hi Hsub']; subst; [done|].
  by eapply (Forall_lookup_1 _ _ _ _ Hm Hi).
Qed.

Lemma sized_insert sizes n k t : (n ∉ dom sizes) -> sized sizes t -> sized (<[n := k]> sizes) t.
Proof.
  intros Hn Hs g tag st qc ms Hsub. apply Hs in Hsub. rewrite lookup_insert_ne; [done|].
  intros ->. apply Hn, elem_of_dom. eauto.
Qed.

Lemma build_groups_ok cfgs n outbounds states sizes outbounds' states' p ds a :
  build_groups cfgs n outbounds states = Ok (outbounds', states') ->
  map_Forall (fun _ => sized sizes) outbounds -> (forall g, g ∈ dom sizes -> (g < n)%nat) ->
  state_ok sizes (MkWorld states p ds a) ->
  exists sizes', map_Forall (fun _ => sized sizes') outbounds' /\
    state_ok sizes' (MkWorld states' p ds a).
Proof.
  revert n outbounds states sizes. induction cfgs as [|cfg cfgs IH]; intros n outbounds states sizes; cbn [build_groups].
  { intros [= <- <-]. eauto. }
  destruct (find_members _ _ _) as [members|e|] eqn:Hm; [|done..]. cbn [mbind res_bind].
  intros Hb Ho Hd Hok.
  assert (n ∉ dom sizes) as Hn by (intros ?%Hd; lia).
  eapply (IH _ _ _ (<[n := length members]> sizes)) in Hb; [done|..].
  - apply map_Forall_insert_2.
    + apply sized_Group; [by rewrite lookup_insert_eq|].
      eapply Forall_impl; [by eapply find_members_Forall|]. intros t. by apply sized_insert.
    + intros k t Hk. apply sized_insert; [done|]. by apply (Ho k).
  - intros g. rewrite dom_insert. intros [->%elem_of_singleton|Hg%Hd]%elem_of_union; lia.
  - intros g k Hk. pose proof (group_state_insert (MkWorld states p ds a) n) as Hgs. simpl in Hgs.
    unfold selections_ok. rewrite Hgs. destruct (decide (n = g)) as [<-|Heq].
    + rewrite lookup_insert_eq in Hk. injection Hk as <-.
      repeat case_match; simpl; (split; [split|]); try done.
      * intros i Hi. case_decide; [done|]. injection Hi as <-. destruct members; [done|simpl; lia].
      * intros s tag i [= <-]. intros Hi. apply (newSelectState_lt (map tree_tag members)) in Hi.
        by rewrite length_map in Hi.
    + rewrite lookup_insert_ne in Hk by done. by apply Hok.
Qed.

(** C18: dialing through groups.  Take the groups that the engine builds from any
    configuration, and any sequence of dials, manual selections, probe updates and
    rounds of health checks.  A dial through any outbound never panics; it returns
    a connection of a working leaf that the groups on the way may use, and fails
    only when there is none. *)
Theorem groups_dial_correct up outbounds0 cfgs outbounds states p ds w tag t :
  leaves_only outbounds0 -> build_groups cfgs 0 outbounds0 ∅ = Ok (outbounds, states) ->
  rtc (group_step up outbounds) (MkWorld states p ds []) w -> outbounds !! tag = Some t ->
  match (DialContext (outbound_of (fun _ => up) t) w).2 with
  | Ok c => connects up w t c
  | Err _ => forall c, ~ connects up w t c
  | Panic => False
  end.
Proof.
  intros Hl Hb Hs Ht.
  destruct (build_groups_ok cfgs 0 outbounds0 ∅ ∅ _ _ p ds [] Hb) as (sizes & Ho & Hok).
  - intros k t' [tg ->]%Hl g ? ? ? ? Hsub. inversion Hsub.
  - set_solver.
  - intros g n Hn. by rewrite lookup_empty in Hn.
  - assert (state_ok sizes w) as Hw.
    { clear Ht Hb. remember (MkWorld states p ds []) as w0 eqn:E. clear E.
      induction Hs as [|w0 w1 w2 Hst _ IH]; [done|]. apply IH. by eapply group_step_ok. }
    apply Ho in Ht. pose proof (law_dial (Lawful := tree_lawful up t) w (sized_wf _ _ _ Ht Hw)) as D.
    by destruct (DialContext _ w) as [w' r], D.
Qed.

(** *** Order of attempts *)

(** Dial the tags in turn until one works: the dials made, and the tag that worked. *)
Fixpoint first_up (up : string -> bool) (tags : list string) : list string * option string :=
  match tags with
  | [] => ([], None)
  | t :: tags =>
      if up t then ([t], Some t) else let '(dialed, r) := first_up up tags in (t :: dialed, r)
  end.

Lemma try_leaves up leaves idxs last w :
  (forall i, i ∈ idxs -> (i < length leaves)%nat) ->
  let '(dialed, r) := first_up up (omap (leaves !!.) idxs) in
  let '(w', r') := try_at (map (outbound_of (fun _ => up)) (map Leaf leaves)) idxs last w in
  attempts w' = attempts w ++ dialed /\ groups w' = groups w /\
  match r with Some t => r' = Ok t | None => exists e, r' = Err e end.
Proof.
  revert last w. induction idxs as [|i idxs IH]; intros last w Hi.
  { simpl. rewrite app_nil_r. eauto. }
  rewrite omap_cons. cbn [try_at]. assert (i < length leaves)%nat as [t Ht]%lookup_lt_is_Some by (apply Hi; set_solver).
  rewrite !lookup_map, Ht. cbn [fmap option_fmap option_map outbound_of DialContext dial_leaf first_up].
  destruct (up t) eqn:Hup; [done|].
  set (w1 := MkWorld _ _ _ _). specialize (IH (Some (LeafFailed t)) w1).
  destruct (first_up up (omap _ idxs)) as [dialed r].
  destruct (try_at _ idxs _ _) as [w' r']. destruct IH as (Ha & Hg & Hr); [set_solver|].
  split; [|done]. rewrite Ha. unfold w1. cbn. by rewrite <- app_assoc.
Qed.

(** The members in the order in which a round-robin dial visits them. *)
Definition rotated (leaves : list string) (start : nat) : list string :=
  omap (leaves !!.) (round_robin (length leaves) start).

Lemma omap_lookup_seq {A} (l : list A) : omap (l !!.) (seq 0 (length l)) = l.
Proof.
  assert (forall (k : list A) i, drop i l = k -> omap (l !!.) (seq i (length k)) = k) as H.
  { intros k. induction k as [|x k IH]; intros i Hd; [done|]. simpl.
    assert (l !! i = Some x) as -> by (rewrite <- (Nat.add_0_r i), <- lookup_drop; by rewrite Hd).
    f_equal. apply IH. replace (S i) with (i + 1)%nat by lia. rewrite <- drop_drop. by rewrite Hd. }
  by apply (H l 0%nat).
Qed.

Lemma tags_nonempty leaves (A : Type) (x y : A) up :
  leaves <> [] -> match map (outbound_of up) (map Leaf leaves) with [] => x | _ => y end = y.
Proof. by destruct leaves. Qed.

(** The order of attempts.  A failover group of leaves dials them in the
    configured order and stops at the first that works.  A round-robin group does
    the same from the member its counter points to, wrapping around, and moves its
    counter by one, modulo 2^64, whatever the outcome. *)
Theorem group_dial_order up g tag qc leaves w :
  leaves <> [] -> 0 <= counter (group_state w g) < 2 ^ 64 ->
  let members := map Leaf leaves in
  let c := counter (group_state w g) in
  (let '(w', r) := DialContext (outbound_of (fun _ => up) (Group g tag "failover" qc members)) w in
   let '(dialed, first) := first_up up leaves in
   attempts w' = attempts w ++ dialed /\ counter (group_state w' g) = c /\
   match first with Some t => r = Ok t | None => exists e, r = Err e end) /\
  (let '(w', r) := DialContext (outbound_of (fun _ => up) (Group g tag "loadbalance" qc members)) w in
   let '(dialed, first) := first_up up (rotated leaves (Z.to_nat (c mod Z.of_nat (length leaves)))) in
   attempts w' = attempts w ++ dialed /\ counter (group_state w' g) = (c + 1) mod 2 ^ 64 /\
   match first with Some t => r = Ok t | None => exists e, r = Err e end).
Proof.
  intros Hne Hc members c. cbn [outbound_of DialContext]. unfold group_dial.
  unfold members. rewrite !tags_nonempty by done. cbn [bool_decide decide_rel]. split.
  - change (bool_decide ("failover" = _)) with false. cbv iota.
    unfold dialFailover, wrap_last. rewrite !length_map.
    pose proof (try_leaves up leaves (seq 0 (length leaves)) None w) as H.
    rewrite omap_lookup_seq in H. destruct (first_up up leaves) as [dialed r].
    destruct (try_at _ _ _ _) as [w' r']. destruct H as (Ha & Hg & Hr).
    { intros i Hi%elem_of_seq. lia. }
    cbn. split; [done|]. split; [unfold group_state; by rewrite Hg|].
    destruct r; [by subst r'|]. destruct Hr as [e ->]. by eexists.
  - change (bool_decide ("loadbalance" = "loadbalance")) with true. cbv iota.
    unfold dialLoadBalance, wrap_last. rewrite !length_map. fold c.
    replace (u64 (u64 (c + 1) - 1)) with c
      by (unfold u64; rewrite Zminus_mod_idemp_l, Z.add_simpl_r, Z.mod_small by done; done).
    set (w1 := MkWorld _ _ _ _). set (start := Z.to_nat _).
    pose proof (try_leaves up leaves (round_robin (length leaves) start) None w1) as H.
    fold (rotated leaves start) in H. destruct (first_up up (rotated leaves start)) as [dialed r].
    destruct (try_at _ _ _ _) as [w' r']. destruct H as (Ha & Hg & Hr).
    { intros i. by rewrite round_robin_elem. }
    cbn. split; [done|]. split.
    { unfold group_state. rewrite Hg. cbn. by rewrite lookup_insert_eq. }
    destruct r; [by subst r'|]. destruct Hr as [e ->]. by eexists.
Qed.

(** A select group over a round-robin group of two leaves, of which one works. *)
Definition demo_qc : Quality.QualityConfig := Quality.MkQuality 0 (Quality.of_Z 0) 0.
Definition demo_leaves : gmap string tree := {[ "a" := Leaf "a"; "b" := Leaf "b" ]}.
Definition demo_cfgs : list GroupConfig :=
  [MkGroupConfig "lb" "loadbalance" ["a"; "b"] demo_qc None 0;
   MkGroupConfig "pick" "select" ["lb"; "a"] demo_qc None 0].
Definition demo_up (t : string) : bool := bool_decide (t = "b").
Definition demo_lb : tree := Group 0 "lb" "loadbalance" demo_qc [Leaf "a"; Leaf "b"].
Definition demo_pick : tree := Group 1 "pick" "select" demo_qc [demo_lb; Leaf "a"].
Definition demo_states : gmap nat GroupState :=
  {[ 0%nat := MkGroup 0 None None;
     1%nat := MkGroup 0 None (Some (newSelectState ["lb"; "a"])) ]}.

Lemma groups_dial_correct_witness :
  connects demo_up (MkWorld demo_states None [] []) demo_pick "b".
Proof.
  apply (groups_dial_correct demo_up demo_leaves demo_cfgs
    (<["pick" := demo_pick]> (<["lb" := demo_lb]> demo_leaves)) demo_states None []
    (MkWorld demo_states None [] []) "pick" demo_pick).
  - intros k t Hk. unfold demo_leaves in Hk.
    apply lookup_insert_Some in Hk as [[_ <-]|[_ Hk]]; [eauto|].
    apply lookup_singleton_Some in Hk as [_ <-]. eauto.
  - by vm_compute.
  - constructor.
  - by rewrite lookup_insert_eq.
Defined.

Lemma group_dial_order_witness :
  (DialContext (outbound_of (fun _ => demo_up) demo_lb) (MkWorld demo_states None [] [])).2 = Ok "b".
Proof.
  pose proof (group_dial_order demo_up 0 "lb" demo_qc ["a"; "b"] (MkWorld demo_states None [] [])) as H.
  destruct H as [_ H]; [done|by vm_compute|]. fold demo_lb in H. cbn [map] in H. fold demo_lb in H.
  destruct (DialContext _ _) as [w' r]. cbn in H. by destruct H as (_ & _ & ->).
Defined.

End Groups.
