(* ===== verification/Varint.v ===== *)
(** * QUIC variable-length integers (src/quicfork/quicvarint/varint.go)

    The codec every frame and packet header is built on: [Parse], [Read],
    [Append], [AppendWithLen] and [Len].  Values are [uint64]; [Append],
    [AppendWithLen] and [Len] panic outside the 62-bit range, as the source
    does. *)

From S2P Require Import Prelude GoBytes.
Local Open Scope Z_scope.

Module Varint.

Definition maxVarInt1 : Z := 63.
Definition maxVarInt2 : Z := 16383.
Definition maxVarInt4 : Z := 1073741823.
Definition maxVarInt8 : Z := 4611686018427387903.

(** [r.ReadByte()] *)
Definition ReadByte (r : bytes) : res io_err (Z * bytes) :=
  match r with
  | [] => Err EOF
  | b :: r => Ok (Z_of_byte b, r)
  end.

Definition Read (r : bytes) : res io_err (Z * bytes) :=
  '(firstByte, r) ← ReadByte r;
  let l := Z.shiftl 1 (Z.shiftr (Z.land firstByte 0xc0) 6) in
  let b1 := Z.land firstByte (0xff - 0xc0) in
  if l =? 1 then Ok (b1, r) else
  '(b2, r) ← ReadByte r;
  if l =? 2 then Ok (u64 (b2 + u64 (Z.shiftl b1 8)), r) else
  '(b3, r) ← ReadByte r;
  '(b4, r) ← ReadByte r;
  if l =? 4 then
    Ok (u64 (b4 + u64 (Z.shiftl b3 8) + u64 (Z.shiftl b2 16) + u64 (Z.shiftl b1 24)), r) else
  '(b5, r) ← ReadByte r;
  '(b6, r) ← ReadByte r;
  '(b7, r) ← ReadByte r;
  '(b8, r) ← ReadByte r;
  Ok (u64 (b8 + u64 (Z.shiftl b7 8) + u64 (Z.shiftl b6 16) + u64 (Z.shiftl b5 24)
           + u64 (Z.shiftl b4 32) + u64 (Z.shiftl b3 40) + u64 (Z.shiftl b2 48)
           + u64 (Z.shiftl b1 56)), r).

(** [binary.BigEndian.Uint64] *)
Definition get64 {E} (bs : bytes) : res E Z :=
  if blen bs <? 8 then Panic else Ok (be_value 0 (take 8 bs)).

(** The value and the number of bytes consumed. *)
Definition Parse (b : bytes) : res io_err (Z * Z) :=
  if blen b =? 0 then Err EOF else
  first ← go_index b 0;
  let k := Z.shiftr first 6 in
  if k =? 0 then Ok (Z.land first 63, 1)
  else if k =? 1 then
    if blen b <? 2 then Err ErrUnexpectedEOF else
    b1 ← go_index b 1;
    Ok (Z.lor b1 (u64 (Z.shiftl (Z.land first 63) 8)), 2)
  else if k =? 2 then
    if blen b <? 4 then Err ErrUnexpectedEOF else
    b3 ← go_index b 3; b2 ← go_index b 2; b1 ← go_index b 1;
    Ok (Z.lor (Z.lor (Z.lor b3 (u64 (Z.shiftl b2 8))) (u64 (Z.shiftl b1 16)))
          (u64 (Z.shiftl (Z.land first 63) 24)), 4)
  else if k =? 3 then
    if blen b <? 8 then Err ErrUnexpectedEOF else
    v ← get64 b;
    Ok (Z.land v 0x3fffffffffffffff, 8)
  else Panic.

Definition Append {E} (b : bytes) (i : Z) : res E bytes :=
  if i <=? maxVarInt1 then Ok (b ++ [byte_of_Z i])
  else if i <=? maxVarInt2 then
    Ok (b ++ [byte_of_Z (Z.lor (u8 (Z.shiftr i 8)) 0x40); byte_of_Z i])
  else if i <=? maxVarInt4 then
    Ok (b ++ [byte_of_Z (Z.lor (u8 (Z.shiftr i 24)) 0x80); byte_of_Z (Z.shiftr i 16);
              byte_of_Z (Z.shiftr i 8); byte_of_Z i])
  else if i <=? maxVarInt8 then
    Ok (b ++ [byte_of_Z (Z.lor (u8 (Z.shiftr i 56)) 0xc0); byte_of_Z (Z.shiftr i 48);
              byte_of_Z (Z.shiftr i 40); byte_of_Z (Z.shiftr i 32);
              byte_of_Z (Z.shiftr i 24); byte_of_Z (Z.shiftr i 16);
              byte_of_Z (Z.shiftr i 8); byte_of_Z i])
  else Panic.

Definition Len {E} (i : Z) : res E Z :=
  if i <=? maxVarInt1 then Ok 1
  else if i <=? maxVarInt2 then Ok 2
  else if i <=? maxVarInt4 then Ok 4
  else if i <=? maxVarInt8 then Ok 8
  else Panic.

Definition AppendWithLen {E} (b : bytes) (i : Z) (length : Z) : res E bytes :=
  if negb (length =? 1) && negb (length =? 2) && negb (length =? 4) && negb (length =? 8)
  then Panic else
  l ← Len i;
  if l =? length then Append b i
  else if length <? l then Panic
  else
    let b := if length =? 2 then b ++ [byte_of_Z 0x40]
             else if length =? 4 then b ++ [byte_of_Z 0x80]
             else if length =? 8 then b ++ [byte_of_Z 0xc0] else b in
    let b := b ++ replicate (Z.to_nat (length - l - 1)) (byte_of_Z 0) in
    Ok (b ++ map (fun j => byte_of_Z (Z.shiftr i (8 * (l - 1 - Z.of_nat j)))) (seq 0 (Z.to_nat l))).

(** ** The value an encoding denotes

    An encoding of [n] bytes is the big-endian number the bytes spell, without
    the two bits of its length. *)

Definition tag_len (first : byte) : Z := 2 ^ (Z_of_byte first / 64).

Definition denotes (n : Z) (bs : bytes) : Z := be_value 0 bs mod 2 ^ (8 * n - 2).

Lemma testbit_high a n k : 0 <= a < 2 ^ n -> n <= k -> Z.testbit a k = false.
Proof.
  intros Ha Hk. destruct (decide (a = 0)) as [->|Hz]; [apply Z.bits_0|].
  apply Z.bits_above_log2; [lia|]. apply Z.log2_lt_pow2; [lia|].
  eapply Z.lt_le_trans; [apply Ha|]. apply Z.pow_le_mono_r; lia.
Qed.

Lemma land_shiftl a c n : 0 <= n -> 0 <= a < 2 ^ n -> Z.land a (Z.shiftl c n) = 0.
Proof.
  intros Hn Ha. apply Z.bits_inj'. intros k Hk. rewrite Z.land_spec, Z.bits_0.
  destruct (Z.ltb_spec k n).
  - rewrite Z.shiftl_spec_low by done. apply andb_false_r.
  - by rewrite (testbit_high a n).
Qed.

Lemma lor_shiftl a c n : 0 <= n -> 0 <= a < 2 ^ n -> Z.lor a (Z.shiftl c n) = a + c * 2 ^ n.
Proof.
  intros Hn Ha. pose proof (land_shiftl a c n Hn Ha) as Hl.
  rewrite <- Z.lxor_lor, <- Z.add_nocarry_lxor by done. by rewrite Z.shiftl_mul_pow2.
Qed.

Lemma byte_split x : 0 <= x < 256 ->
  Z.land x 63 = x mod 64 /\ Z.shiftr x 6 = x / 64 /\ Z.shiftr (Z.land x 0xc0) 6 = x / 64.
Proof.
  intros. split_and!.
  - change 63 with (Z.ones 6). by rewrite Z.land_ones.
  - by rewrite Z.shiftr_div_pow2.
  - change (x / 64) with (x / 2 ^ 6). rewrite <- Z.shiftr_div_pow2 by lia. apply Z.bits_inj'. intros k Hk.
    rewrite !Z.shiftr_spec, Z.land_spec by lia.
    change 0xc0 with (Z.shiftl (Z.ones 2) 6). rewrite Z.shiftl_spec by lia.
    destruct (Z.ltb_spec (k + 6) 8).
    + rewrite Z.ones_spec_low by lia. apply andb_true_r.
    + rewrite (testbit_high x 8 (k + 6)) by lia. done.
Qed.

Lemma u64_shiftl x n : 0 <= n <= 56 -> 0 <= x < 256 -> u64 (Z.shiftl x n) = x * 2 ^ n.
Proof.
  intros Hn Hx. rewrite Z.shiftl_mul_pow2 by lia. apply Z.mod_small.
  pose proof (Z.pow_pos_nonneg 2 n). assert (2 ^ n <= 2 ^ 56) by (apply Z.pow_le_mono_r; lia).
  change (2 ^ 64) with (256 * 2 ^ 56). nia.
Qed.

Lemma lor_byte a x n : 0 <= n <= 56 -> 0 <= x < 256 -> 0 <= a < 2 ^ n ->
  Z.lor a (u64 (Z.shiftl x n)) = a + x * 2 ^ n.
Proof.
  intros. rewrite u64_shiftl by done. rewrite <- Z.shiftl_mul_pow2 by lia.
  rewrite lor_shiftl by lia. by rewrite Z.shiftl_mul_pow2 by lia.
Qed.

Ltac byte_ranges :=
  repeat match goal with
  | |- context [Z_of_byte ?b] =>
      lazymatch goal with
      | H : 0 <= Z_of_byte b < 256 |- _ => fail
      | _ => pose proof (Z_of_byte_range b)
      end
  end.

Ltac with_bytes b n :=
  lazymatch n with
  | 0%nat => idtac
  | S ?n => destruct b as [|? b]; [exfalso; rewrite ?blen_cons, ?blen_nil in *; lia|with_bytes b n]
  end.

Ltac indices :=
  repeat match goal with
  | |- context [go_index ?l ?i] =>
      let r := eval hnf in (go_index (E:=io_err) l i) in
      change (go_index (E:=io_err) l i) with r; cbn [mbind res_bind]
  end.

Lemma Parse_spec b :
  Parse b = match b with
            | [] => Err EOF
            | f :: _ => if blen b <? tag_len f then Err ErrUnexpectedEOF
                        else Ok (denotes (tag_len f) (take (Z.to_nat (tag_len f)) b), tag_len f)
            end.
Proof.
  destruct b as [|f b]; [done|]. unfold Parse, tag_len.
  pose proof (Z_of_byte_range f) as Hf. destruct (byte_split _ Hf) as (H1 & H2 & _).
  pose proof (blen_nonneg b).
  rewrite (proj2 (Z.eqb_neq (blen (f :: b)) 0)) by (rewrite blen_cons; lia).
  change (go_index (f :: b) 0) with (Ok (E:=io_err) (Z_of_byte f)). cbn [mbind res_bind].
  rewrite H1, H2. unfold denotes.
  assert (Hk : Z_of_byte f / 64 = 0 \/ Z_of_byte f / 64 = 1 \/ Z_of_byte f / 64 = 2 \/
               Z_of_byte f / 64 = 3) by dlia.
  destruct Hk as [Hk|[Hk|[Hk|Hk]]]; rewrite Hk; cbn [Z.eqb Pos.eqb];
    change (2 ^ 0) with 1; change (2 ^ 1) with 2; change (2 ^ 2) with 4; change (2 ^ 3) with 8.
  - rewrite (proj2 (Z.ltb_ge _ 1)) by (rewrite blen_cons; lia).
    simpl. do 2 f_equal.
  - destruct (Z.ltb_spec (blen (f :: b)) 2); [done|]. with_bytes b 1%nat. indices.
    byte_ranges. rewrite lor_byte by dlia. change (Z.to_nat 2) with 2%nat. cbn [be_value firstn]; rewrite take_0; cbn [be_value].
    change (2 ^ (8 * 2 - 2)) with 16384. change (2 ^ 8) with 256. do 2 f_equal. dlia.
  - destruct (Z.ltb_spec (blen (f :: b)) 4); [done|]. with_bytes b 3%nat. indices.
    byte_ranges. rewrite (lor_byte _ _ 8), (lor_byte _ _ 16), (lor_byte _ _ 24) by dlia. change (Z.to_nat 4) with 4%nat. cbn [be_value firstn]; rewrite take_0; cbn [be_value].
    change (2 ^ (8 * 4 - 2)) with 1073741824. change (2 ^ 8) with 256.
    change (2 ^ 16) with 65536. change (2 ^ 24) with 16777216. do 2 f_equal. dlia.
  - destruct (Z.ltb_spec (blen (f :: b)) 8) as [|H8]; [done|]. unfold get64.
    rewrite (proj2 (Z.ltb_ge _ _) H8). cbn [mbind res_bind].
    change 0x3fffffffffffffff with (Z.ones 62). by rewrite Z.land_ones.
Qed.

(** A reader of [n] bytes more, or one that ends earlier. *)
Ltac read_bytes b n :=
  lazymatch n with
  | 0%nat => idtac
  | S ?n => destruct b as [|? b]; [reflexivity|read_bytes b n]
  end.

Ltac read_full n :=
  rewrite (proj2 (Z.ltb_ge _ n)) by (unfold blen; cbn [length]; lia);
  let k := eval vm_compute in (Z.to_nat n) in change (Z.to_nat n) with k;
  cbn [firstn skipn ReadByte mbind res_bind be_value]; rewrite take_0, drop_0;
  cbn [be_value]; byte_ranges; rewrite !u64_shiftl by lia;
  do 2 f_equal; unfold u64; rewrite Z.mod_small by lia.

Lemma Read_spec r :
  Read r = match r with
           | [] => Err EOF
           | f :: _ => if blen r <? tag_len f then Err EOF
                       else Ok (denotes (tag_len f) (take (Z.to_nat (tag_len f)) r),
                                drop (Z.to_nat (tag_len f)) r)
           end.
Proof.
  destruct r as [|f b]; [done|]. unfold Read, tag_len. cbn [ReadByte mbind res_bind].
  pose proof (Z_of_byte_range f) as Hf. destruct (byte_split _ Hf) as (H1 & _ & H2).
  change (0xff - 0xc0) with 63. rewrite H1, H2. unfold denotes. pose proof (blen_nonneg b).
  assert (Hk : Z_of_byte f / 64 = 0 \/ Z_of_byte f / 64 = 1 \/ Z_of_byte f / 64 = 2 \/
               Z_of_byte f / 64 = 3) by dlia.
  assert (Hm : 0 <= Z_of_byte f mod 64 < 64) by (apply Z.mod_pos_bound; lia).
  assert (Hfm : Z_of_byte f = 64 * (Z_of_byte f / 64) + Z_of_byte f mod 64) by dlia.
  destruct Hk as [Hk|[Hk|[Hk|Hk]]]; rewrite Hk in Hfm |- *; generalize dependent (Z_of_byte f mod 64);
    intros m _ Hm Hfm;
    [change (Z.shiftl 1 0) with 1; change (2 ^ 0) with 1
    |change (Z.shiftl 1 1) with 2; change (2 ^ 1) with 2
    |change (Z.shiftl 1 2) with 4; change (2 ^ 2) with 4
    |change (Z.shiftl 1 3) with 8; change (2 ^ 3) with 8]; cbn [Z.eqb Pos.eqb].
  - rewrite (proj2 (Z.ltb_ge _ 1)) by (rewrite blen_cons; lia).
    change (Z.to_nat 1) with 1%nat. cbn [firstn skipn be_value]. rewrite take_0, drop_0.
    cbn [be_value]. do 2 f_equal. change (2 ^ _) with 64. dlia.
  - read_bytes b 1%nat. read_full 2. change (2 ^ (8 * 2 - 2)) with (2 ^ 14). dlia.
  - read_bytes b 3%nat. read_full 4. change (2 ^ (8 * 4 - 2)) with (2 ^ 30). dlia.
  - read_bytes b 7%nat. read_full 8. change (2 ^ (8 * 8 - 2)) with (2 ^ 62). dlia.
Qed.

(** ** Encodings *)

(** [bs] is the encoding of [i] in [n] bytes. *)
Definition encodes (n i : Z) (bs : bytes) : Prop :=
  exists t, 0 <= t <= 3 /\ n = 2 ^ t /\ blen bs = n /\ 0 <= i < 2 ^ (8 * n - 2) /\
            be_value 0 bs = i + t * 2 ^ (8 * n - 2).

Lemma be_value_acc acc bs : be_value acc bs = acc * 256 ^ blen bs + be_value 0 bs.
Proof.
  revert acc. induction bs as [|b bs IH]; intros acc; [rewrite blen_nil; cbn [be_value]; lia|].
  cbn [be_value]. rewrite IH, (IH (0 * 256 + _)), blen_cons.
  rewrite Z.pow_add_r by (pose proof (blen_nonneg bs); lia). ring.
Qed.

Lemma encodes_tag n i f bs : encodes n i (f :: bs) -> tag_len f = n.
Proof.
  intros (t & Ht & -> & Hl & Hi & Hv). unfold tag_len. f_equal.
  rewrite blen_cons in Hl. cbn [be_value] in Hv. rewrite be_value_acc in Hv.
  assert (Hb : blen bs = 2 ^ t - 1) by lia. rewrite Hb in Hv.
  pose proof (be_value_range 0 bs ltac:(lia)) as Hr. fold (blen bs) in Hr. rewrite Hb in Hr.
  assert (H256 : 256 ^ (2 ^ t - 1) = 2 ^ (8 * (2 ^ t - 1))).
  { change 256 with (2 ^ 8). rewrite <- Z.pow_mul_r by lia. done. }
  rewrite H256 in *. replace (8 * 2 ^ t - 2) with (6 + 8 * (2 ^ t - 1)) in * by lia.
  assert (1 <= 2 ^ t) by (pose proof (Z.pow_pos_nonneg 2 t); lia).
  rewrite Z.pow_add_r in * by lia. change (2 ^ 6) with 64 in *.
  pose proof (Z.pow_pos_nonneg 2 (8 * (2 ^ t - 1)) ltac:(lia) ltac:(lia)).
  symmetry. apply (Z.div_unique_pos _ _ _ (Z_of_byte f - 64 * t)); nia.
Qed.

Lemma encodes_denotes n i bs : encodes n i bs -> denotes n bs = i.
Proof.
  intros (t & Ht & -> & Hl & Hi & Hv). unfold denotes. rewrite Hv, Z.mod_add by lia.
  by apply Z.mod_small.
Qed.

Lemma encodes_Parse n i bs rest : encodes n i bs -> Parse (bs ++ rest) = Ok (i, n).
Proof.
  intros He. pose proof He as (t & Ht & Hn & Hl & _). rewrite Parse_spec.
  destruct bs as [|f bs]; [rewrite blen_nil in Hl; pose proof (Z.pow_pos_nonneg 2 t); lia|].
  cbn [app]. change (f :: bs ++ rest) with ((f :: bs) ++ rest).
  rewrite (encodes_tag n i f bs He). rewrite blen_app, (proj2 (Z.ltb_ge _ _))
    by (pose proof (blen_nonneg rest); lia).
  rewrite take_app_length' by (unfold blen in Hl; lia). by rewrite (encodes_denotes n i).
Qed.

Lemma encodes_Read n i bs rest : encodes n i bs -> Read (bs ++ rest) = Ok (i, rest).
Proof.
  intros He. pose proof He as (t & Ht & Hn & Hl & _). rewrite Read_spec.
  destruct bs as [|f bs]; [rewrite blen_nil in Hl; pose proof (Z.pow_pos_nonneg 2 t); lia|].
  cbn [app]. change (f :: bs ++ rest) with ((f :: bs) ++ rest).
  rewrite (encodes_tag n i f bs He). rewrite blen_app, (proj2 (Z.ltb_ge _ _))
    by (pose proof (blen_nonneg rest); lia).
  rewrite take_app_length', drop_app_length' by (unfold blen in Hl; lia).
  by rewrite (encodes_denotes n i).
Qed.

(** The [k] low bytes of [i], the highest first. *)
Fixpoint low_bytes (k : nat) (i : Z) : bytes :=
  match k with
  | O => []
  | S k => byte_of_Z (Z.shiftr i (8 * Z.of_nat k)) :: low_bytes k i
  end.

Lemma blen_low_bytes k i : blen (low_bytes k i) = Z.of_nat k.
Proof. induction k as [|k IH]; [done|]. cbn [low_bytes]. rewrite blen_cons. lia. Qed.

Lemma be_low_bytes k i : 0 <= i -> be_value 0 (low_bytes k i) = i mod 256 ^ Z.of_nat k.
Proof.
  intros Hi. induction k as [|k IH]; [cbn; by rewrite Z.mod_1_r|].
  cbn [low_bytes be_value]. rewrite be_value_acc, IH, blen_low_bytes, Z_of_byte_of_Z.
  unfold u8. rewrite Z.shiftr_div_pow2, Z.pow_mul_r by lia. change (2 ^ 8) with 256.
  rewrite (Nat2Z.inj_succ k), Z.pow_succ_r, (Z.mul_comm 256) by lia.
  rewrite Z.rem_mul_r by (try apply Z.pow_nonzero; lia). lia.
Qed.

Lemma low_bytes_map k i :
  map (fun j => byte_of_Z (Z.shiftr i (8 * (Z.of_nat k - 1 - Z.of_nat j)))) (seq 0 k) = low_bytes k i.
Proof.
  induction k as [|k IH]; [done|]. cbn [seq map low_bytes]. f_equal; [do 2 f_equal; lia|].
  rewrite <- IH, <- seq_shift, map_map. apply map_ext. intros j. do 2 f_equal. lia.
Qed.

(** A tag byte in front of the low bytes is an encoding. *)
Lemma encodes_tagged t k i :
  0 <= t <= 3 -> 2 ^ t = Z.of_nat (S k) -> 0 <= i < 2 ^ (8 * 2 ^ t - 2) ->
  encodes (2 ^ t) i
    (byte_of_Z (Z.lor (u8 (Z.shiftr i (8 * Z.of_nat k))) (64 * t)) :: low_bytes k i).
Proof.
  intros Ht Hk Hi. exists t. split_and!; try lia; try done.
  - rewrite blen_cons, blen_low_bytes. lia.
  - cbn [be_value]. rewrite be_value_acc, be_low_bytes, blen_low_bytes by lia.
    rewrite Hk in *. replace (8 * Z.of_nat (S k) - 2) with (6 + 8 * Z.of_nat k) in * by lia.
    rewrite Z.pow_add_r in * by lia. change (2 ^ 6) with 64 in *.
    rewrite (Z.pow_mul_r 2 8) in * by lia. change (2 ^ 8) with 256 in *.
    set (B := 256 ^ Z.of_nat k) in *. assert (0 < B) by (apply Z.pow_pos_nonneg; lia).
    rewrite Z.shiftr_div_pow2, Z.pow_mul_r by lia. change (2 ^ 8) with 256. fold B.
    assert (0 <= i / B < 64) by (split; [apply Z.div_pos|apply Z.div_lt_upper_bound]; lia).
    rewrite u8_small by lia. replace (64 * t) with (Z.shiftl t 6) by (rewrite Z.shiftl_mul_pow2; lia).
    rewrite lor_shiftl by lia. change (2 ^ 6) with 64.
    rewrite byte_of_Z_small by lia. pose proof (Z.div_mod i B). lia.
Qed.

(** ** The encoders *)

(** The bytes [Append] adds. *)
Definition venc (i : Z) : bytes :=
  match Append (E:=io_err) [] i with Ok bs => bs | _ => [] end.

Definition vrange (i : Z) : Prop := 0 <= i <= maxVarInt8.

#[export] Instance vrange_dec i : Decision (vrange i).
Proof. unfold vrange. apply _. Defined.

Lemma Append_cases i : vrange i ->
  exists t, 0 <= t <= 3 /\ (forall E, Len (E:=E) i = Ok (2 ^ t)) /\ encodes (2 ^ t) i (venc i) /\
    (forall E b, Append (E:=E) b i = Ok (b ++ venc i)) /\
    (forall u, 0 <= u <= 3 -> i < 2 ^ (8 * 2 ^ u - 2) -> t <= u).
Proof.
  unfold vrange, venc, Append, Len, maxVarInt1, maxVarInt2, maxVarInt4, maxVarInt8. intros Hi.
  assert (Hmin : forall t u, 0 <= u <= 3 -> 2 ^ (8 * 2 ^ (t - 1) - 2) <= i -> 1 <= t <= 3 ->
    i < 2 ^ (8 * 2 ^ u - 2) -> t <= u).
  { intros t u Hu Hlo Ht Hhi. destruct (Z.le_gt_cases t u) as [|Hlt]; [done|exfalso].
    assert (2 ^ (8 * 2 ^ u - 2) <= 2 ^ (8 * 2 ^ (t - 1) - 2)); [|lia].
    apply Z.pow_le_mono_r; [lia|]. assert (2 ^ u <= 2 ^ (t - 1)) by (apply Z.pow_le_mono_r; lia). lia. }
  destruct (Z.leb_spec i 63); [|destruct (Z.leb_spec i 16383); [|destruct (Z.leb_spec i 1073741823);
    [|rewrite (proj2 (Z.leb_le i _)) by lia]]].
  - exists 0. split_and!; try done; [|lia].
    exists 0. split_and!; try done; try (change (2 ^ _) with 64; lia).
    cbn [app be_value]. rewrite byte_of_Z_small by lia. lia.
  - exists 1. split_and!; try done; [|intros; apply Hmin; try done; change (2 ^ (8 * 2 ^ (1 - 1) - 2)) with 64; lia].
    apply (encodes_tagged 1 1); [done..|]. change (2 ^ (8 * 2 ^ 1 - 2)) with 16384. lia.
  - exists 2. split_and!; try done; [|intros; apply Hmin; try done; change (2 ^ (8 * 2 ^ (2 - 1) - 2)) with 16384; lia].
    apply (encodes_tagged 2 3); [done..|]. change (2 ^ (8 * 2 ^ 2 - 2)) with 1073741824. lia.
  - exists 3. split_and!; try done; [|intros; apply Hmin; try done; change (2 ^ (8 * 2 ^ (3 - 1) - 2)) with 1073741824; lia].
    apply (encodes_tagged 3 7); [done..|]. change (2 ^ (8 * 2 ^ 3 - 2)) with 4611686018427387904. lia.
Qed.

Lemma Append_venc E b i : vrange i -> Append (E:=E) b i = Ok (b ++ venc i).
Proof. intros H. destruct (Append_cases i H) as (t & _ & _ & _ & Ha & _). apply Ha. Qed.

Lemma Len_venc E i : vrange i -> Len (E:=E) i = Ok (blen (venc i)).
Proof.
  intros H. destruct (Append_cases i H) as (t & _ & Hl & (u & _ & Ht & -> & _) & _). apply Hl.
Qed.

Lemma Parse_venc i rest : vrange i -> Parse (venc i ++ rest) = Ok (i, blen (venc i)).
Proof.
  intros H. destruct (Append_cases i H) as (t & _ & _ & He & _).
  rewrite (encodes_Parse _ _ _ rest He). destruct He as (u & _ & _ & -> & _). done.
Qed.

Lemma blen_venc i : vrange i -> 1 <= blen (venc i) <= 8.
Proof.
  intros H. destruct (Append_cases i H) as (t & Ht & _ & (u & _ & _ & -> & _) & _).
  change 1 with (2 ^ 0) at 1. change 8 with (2 ^ 3). split; apply Z.pow_le_mono_r; lia.
Qed.

Lemma be_value_zeros k acc : be_value acc (replicate k (byte_of_Z 0)) = acc * 256 ^ Z.of_nat k.
Proof.
  revert acc. induction k as [|k IH]; intros acc; [cbn; lia|]. cbn [replicate be_value].
  rewrite IH, Nat2Z.inj_succ, Z.pow_succ_r by lia. change (Z_of_byte (byte_of_Z 0)) with 0. lia.
Qed.

(** A value of few bytes behind a tag byte and zeros. *)
Lemma encodes_padded t u i :
  0 <= t < u -> u <= 3 -> 0 <= i < 2 ^ (8 * 2 ^ t - 2) ->
  encodes (2 ^ u) i
    ((byte_of_Z (64 * u) :: replicate (Z.to_nat (2 ^ u - 2 ^ t - 1)) (byte_of_Z 0))
     ++ low_bytes (Z.to_nat (2 ^ t)) i).
Proof.
  intros Ht Hu Hi.
  assert (H2 : 2 ^ t + 1 <= 2 ^ u).
  { assert (2 ^ (t + 1) <= 2 ^ u) by (apply Z.pow_le_mono_r; lia).
    rewrite Z.pow_add_r in * by lia. pose proof (Z.pow_pos_nonneg 2 t). lia. }
  assert (H1 : 1 <= 2 ^ t) by (pose proof (Z.pow_pos_nonneg 2 t); lia).
  assert (Hmono : forall a b, a <= b -> 2 ^ a <= 2 ^ b) by (intros; by apply Z.pow_le_mono_r).
  exists u. split_and!; try lia.
  - rewrite blen_app, blen_cons, blen_low_bytes. unfold blen. rewrite length_replicate. lia.
  - eapply Z.lt_le_trans; [apply Hi|]. apply Hmono. lia.
  - rewrite be_value_app. cbn [be_value]. rewrite be_value_zeros, byte_of_Z_small by lia.
    rewrite be_value_acc, be_low_bytes, blen_low_bytes, !Z2Nat.id by lia.
    rewrite Z.mod_small.
    + change 256 with (2 ^ 8). rewrite <- !Z.pow_mul_r by lia.
      replace (0 * 2 ^ 8 + 64 * u) with (u * 2 ^ 6) by lia.
      rewrite <- !Z.mul_assoc, <- !Z.pow_add_r by lia.
      replace (6 + (8 * (2 ^ u - 2 ^ t - 1) + 8 * 2 ^ t)) with (8 * 2 ^ u - 2) by lia. lia.
    + change 256 with (2 ^ 8). rewrite <- Z.pow_mul_r by lia.
      pose proof (Hmono (8 * 2 ^ t - 2) (8 * 2 ^ t)). lia.
Qed.

Lemma AppendWithLen_enc E b i u :
  0 <= u <= 3 -> 0 <= i < 2 ^ (8 * 2 ^ u - 2) ->
  exists bs, AppendWithLen (E:=E) b i (2 ^ u) = Ok (b ++ bs) /\ encodes (2 ^ u) i bs.
Proof.
  intros Hu Hi.
  assert (Hr : vrange i).
  { split; [lia|]. assert (2 ^ (8 * 2 ^ u - 2) <= 2 ^ 62); [|unfold maxVarInt8; lia].
    assert (2 ^ u <= 2 ^ 3) by (apply Z.pow_le_mono_r; lia). apply Z.pow_le_mono_r; lia. }
  destruct (Append_cases i Hr) as (t & Ht & Hl & He & Ha & Hmin). specialize (Hmin u Hu (proj2 Hi)).
  unfold AppendWithLen. rewrite Hl. cbn [mbind res_bind].
  assert (Hg : negb (2 ^ u =? 1) && negb (2 ^ u =? 2) && negb (2 ^ u =? 4) && negb (2 ^ u =? 8) = false).
  { assert (u = 0 \/ u = 1 \/ u = 2 \/ u = 3) as [->|[->|[->| ->]]] by lia; done. }
  rewrite Hg. clear Hg. destruct (Z.eqb_spec (2 ^ t) (2 ^ u)) as [Heq|Hne].
  { exists (venc i). rewrite Ha, <- Heq. done. }
  assert (Htu : t < u) by (destruct (decide (t = u)) as [->|]; [done|lia]).
  rewrite (proj2 (Z.ltb_ge (2 ^ u) (2 ^ t))) by (apply Z.pow_le_mono_r; lia).
  pose proof He as (w & Hw & Hwt & _ & Hi' & _).
  pose proof (encodes_padded t u i ltac:(lia) ltac:(lia) Hi') as Hp.
  eexists. split; [|exact Hp]. f_equal.
  rewrite <- (low_bytes_map (Z.to_nat (2 ^ t)) i).
  rewrite Z2Nat.id by (apply Z.pow_nonneg; lia). rewrite app_assoc. f_equal.
  assert (u = 1 \/ u = 2 \/ u = 3) as [->|[->| ->]] by lia; cbn [Z.pow Z.eqb];
    simpl; by rewrite <- app_assoc.
Qed.

(** ** The decoders *)

Lemma tag_len_cases f : exists u, 0 <= u <= 3 /\ tag_len f = 2 ^ u.
Proof. exists (Z_of_byte f / 64). pose proof (Z_of_byte_range f). split; [dlia|done]. Qed.

Lemma denotes_range u bs : 0 <= u <= 3 -> 0 <= denotes (2 ^ u) bs < 2 ^ (8 * 2 ^ u - 2).
Proof.
  intros Hu. apply Z.mod_pos_bound, Z.pow_pos_nonneg; [lia|].
  pose proof (Z.pow_pos_nonneg 2 u). lia.
Qed.

Lemma Parse_Ok b v l : Parse b = Ok (v, l) ->
  exists u, 0 <= u <= 3 /\ l = 2 ^ u /\ 1 <= l <= blen b /\ 0 <= v < 2 ^ (8 * 2 ^ u - 2).
Proof.
  rewrite Parse_spec. destruct b as [|f b]; [done|]. destruct (tag_len_cases f) as (u & Hu & ->).
  case_match eqn:Hb; [done|]. zb. intros [= <- <-]. exists u.
  pose proof (denotes_range u (take (Z.to_nat (2 ^ u)) (f :: b)) Hu).
  pose proof (Z.pow_pos_nonneg 2 u). split_and!; lia.
Qed.

Lemma Parse_range b v l : Parse b = Ok (v, l) -> 1 <= l <= blen b /\ vrange v.
Proof.
  intros (u & Hu & -> & Hl & Hv)%Parse_Ok. split; [done|]. split; [lia|].
  assert (2 ^ (8 * 2 ^ u - 2) <= 2 ^ 62); [|unfold maxVarInt8; lia].
  assert (2 ^ u <= 2 ^ 3) by (apply Z.pow_le_mono_r; lia). apply Z.pow_le_mono_r; lia.
Qed.

Lemma Parse_no_panic b : no_panic (Parse b).
Proof. unfold no_panic. rewrite Parse_spec. destruct b; [done|]. by case_match. Qed.

(** C28: every 62-bit value written with any of the four lengths that hold it is read back, by
    [Parse] and by [Read] and whatever follows it; [Append] chooses the shortest of these lengths,
    the one [Len] announces. *)
Theorem varint_roundtrip E (u i : Z) (b rest : bytes) :
  0 <= u <= 3 -> 0 <= i < 2 ^ (8 * 2 ^ u - 2) ->
  (exists bs, AppendWithLen (E:=E) b i (2 ^ u) = Ok (b ++ bs) /\ blen bs = 2 ^ u /\
     Parse (bs ++ rest) = Ok (i, 2 ^ u) /\ Read (bs ++ rest) = Ok (i, rest)) /\
  (exists bs l, Append (E:=E) b i = Ok (b ++ bs) /\ Len (E:=E) i = Ok l /\ blen bs = l /\ l <= 2 ^ u /\
     Parse (bs ++ rest) = Ok (i, l) /\ Read (bs ++ rest) = Ok (i, rest)).
Proof.
  intros Hu Hi. destruct (AppendWithLen_enc E b i u Hu Hi) as (bs & Ha & He). split.
  - exists bs. split_and!; [done| |by apply encodes_Parse|by eapply encodes_Read].
    by destruct He as (? & ? & ? & ? & ?).
  - pose proof (Parse_range _ _ _ (encodes_Parse _ _ _ [] He)) as [_ Hr].
    destruct (Append_cases i Hr) as (t & Ht & Hl & He' & Ha' & Hmin).
    exists (venc i), (2 ^ t). split_and!; [done|done| | |by apply encodes_Parse|by eapply encodes_Read].
    + by destruct He' as (? & ? & ? & ? & ?).
    + apply Z.pow_le_mono_r; [lia|]. apply Hmin; lia.
Qed.

Lemma varint_roundtrip_witness :
  exists bs, AppendWithLen (E:=io_err) [Byte.x01] 37 (2 ^ 2) = Ok ([Byte.x01] ++ bs) /\
    Parse (bs ++ [Byte.x07]) = Ok (37, 4).
Proof.
  destruct (varint_roundtrip io_err 2 37 [Byte.x01] [Byte.x07]) as [(bs & H1 & _ & H2 & _) _];
    [lia|split; [lia|by vm_compute]|]. exists bs. by split.
Defined.

(** On every input [Parse] and [Read] agree: both succeed, with the same 62-bit value and
    consuming the same bytes, or both report the end of the data; neither panics.  No
    encoding that is read is shorter than the one [Append] writes. *)
Theorem varint_decoders_agree (b : bytes) :
  match Parse b with
  | Ok (v, l) => Read b = Ok (v, drop (Z.to_nat l) b) /\ 1 <= l <= blen b /\ vrange v /\
                 blen (venc v) <= l
  | Err e => Read b = Err EOF /\ (e = EOF <-> b = [])
  | Panic => False
  end.
Proof.
  destruct (Parse b) as [[v l]|e|] eqn:HP.
  - pose proof (Parse_range _ _ _ HP) as [Hl Hv]. split_and!; try apply Hl; try done.
    + rewrite Read_spec. rewrite Parse_spec in HP. destruct b as [|f b]; [done|].
      case_match; [done|]. by injection HP as <- <-.
    + destruct (Parse_Ok _ _ _ HP) as (u & Hu & -> & _ & Hi).
      destruct (Append_cases v Hv) as (t & Ht & _ & (w & _ & _ & -> & _) & _ & Hmin).
      apply Z.pow_le_mono_r; [lia|]. apply Hmin; lia.
  - rewrite Read_spec. rewrite Parse_spec in HP. destruct b as [|f b]; [by simplify_eq; split|].
    case_match; [|done]. simplify_eq. by split.
  - by apply Parse_no_panic in HP.
Qed.

End Varint.
