(* ===== verification/Wire.v ===== *)
(** * What QUIC frame codecs share (src/quicfork/internal/wire)

    The frame types, the errors of the parsers, the step every parser repeats
    (parse a varint, advance the slice), and the interface [LawfulCodec] that
    each frame implements (AckFrame.v, Frames.v) and the frame parser relies on
    (FrameParser.v). *)

From S2P Require Import Prelude GoBytes Varint.
Local Open Scope Z_scope.

Module Wire.

Export Varint(venc, vrange).

(** ** Frame types (frame_type.go) *)

Definition FrameTypePing : Z := 0x1.
Definition FrameTypeAck : Z := 0x2.
Definition FrameTypeAckECN : Z := 0x3.
Definition FrameTypeResetStream : Z := 0x4.
Definition FrameTypeStopSending : Z := 0x5.
Definition FrameTypeCrypto : Z := 0x6.
Definition FrameTypeNewToken : Z := 0x7.
Definition FrameTypeMaxData : Z := 0x10.
Definition FrameTypeMaxStreamData : Z := 0x11.
Definition FrameTypeBidiMaxStreams : Z := 0x12.
Definition FrameTypeUniMaxStreams : Z := 0x13.
Definition FrameTypeDataBlocked : Z := 0x14.
Definition FrameTypeStreamDataBlocked : Z := 0x15.
Definition FrameTypeBidiStreamBlocked : Z := 0x16.
Definition FrameTypeUniStreamBlocked : Z := 0x17.
Definition FrameTypeNewConnectionID : Z := 0x18.
Definition FrameTypeRetireConnectionID : Z := 0x19.
Definition FrameTypePathChallenge : Z := 0x1a.
Definition FrameTypePathResponse : Z := 0x1b.
Definition FrameTypeConnectionClose : Z := 0x1c.
Definition FrameTypeApplicationClose : Z := 0x1d.
Definition FrameTypeHandshakeDone : Z := 0x1e.
Definition FrameTypeResetStreamAt : Z := 0x24.
Definition FrameTypeAckFrequency : Z := 0xaf.
Definition FrameTypeImmediateAck : Z := 0x1f.
Definition FrameTypeDatagramNoLength : Z := 0x30.
Definition FrameTypeDatagramWithLength : Z := 0x31.

Definition IsStreamFrameType (t : Z) : bool := (0x8 <=? t) && (t <=? 0xf).
Definition isValidRFC9000 (t : Z) : bool := t <=? 0x1e.
Definition IsAckFrameType (t : Z) : bool := (t =? FrameTypeAck) || (t =? FrameTypeAckECN).
Definition IsDatagramFrameType (t : Z) : bool :=
  (t =? FrameTypeDatagramNoLength) || (t =? FrameTypeDatagramWithLength).

(** ** Errors *)

Inductive werr :=
| WIO (e : io_err)
| errUnknownFrameType
| errFirstAckRange                        (* "invalid first ACK range" *)
| errInvalidAckRanges
| errStreamCount (n : Z)                  (* "%d exceeds the maximum stream count" *)
| errRetirePriorTo (ret seq : Z)
| errZeroConnID
| ErrInvalidConnectionIDLen
| errEmptyToken
| errReliableSize (reliable final : Z)
| errStreamOverflow
| errEmptyStreamFrame
| errConnIDLen (n : Z).

Definition replaceUnexpectedEOF (e : werr) : werr :=
  match e with WIO ErrUnexpectedEOF => WIO EOF | _ => e end.

(** ** The step of the parsers *)

(** [v, l, err := quicvarint.Parse(b); if err != nil { return replaceUnexpectedEOF(err) }] *)
Definition vparse (b : bytes) : res werr (Z * Z) :=
  wrap_err (fun e => replaceUnexpectedEOF (WIO e)) (Varint.Parse b).

(** The same followed by [b = b[l:]]. *)
Definition next (b : bytes) : res werr (Z * bytes) :=
  '(v, l) ← vparse b;
  b' ← go_slice b l (blen b);
  Ok (v, b').

Lemma go_slice_from E b l : 0 <= l <= blen b -> go_slice (E:=E) b l (blen b) = Ok (drop (Z.to_nat l) b).
Proof.
  intros. rewrite go_slice_Ok by lia. rewrite take_ge; [done|].
  rewrite length_drop. unfold blen in *. lia.
Qed.

Lemma vparse_venc i rest : vrange i -> vparse (venc i ++ rest) = Ok (i, blen (venc i)).
Proof. intros Hi. unfold vparse. by rewrite Varint.Parse_venc. Qed.

Lemma next_venc i rest : vrange i -> next (venc i ++ rest) = Ok (i, rest).
Proof.
  intros Hi. unfold next. rewrite vparse_venc by done. cbn [mbind res_bind].
  pose proof (Varint.blen_venc i Hi). pose proof (blen_nonneg rest).
  rewrite go_slice_from by (rewrite blen_app; lia). cbn [mbind res_bind].
  unfold blen. by rewrite Nat2Z.id, drop_app_length.
Qed.

(** The outcomes of both: the end of the data, or a 62-bit value and a proper
    suffix. *)
Lemma vparse_cases b :
  vparse b = Err (WIO EOF) \/
  exists v l, vparse b = Ok (v, l) /\ vrange v /\ 1 <= l <= blen b.
Proof.
  unfold vparse. destruct (Varint.Parse b) as [[v l]|e|] eqn:HP.
  - right. apply Varint.Parse_range in HP as [Hl Hv]. by exists v, l.
  - left. by destruct e.
  - by apply Varint.Parse_no_panic in HP.
Qed.

Lemma next_cases b :
  next b = Err (WIO EOF) \/
  exists v p b', next b = Ok (v, b') /\ vrange v /\ b = p ++ b' /\ 1 <= blen p.
Proof.
  unfold next. destruct (vparse_cases b) as [->|(v & l & -> & Hv & Hl)]; [by left|right].
  cbn [mbind res_bind]. rewrite go_slice_from by lia.
  exists v, (take (Z.to_nat l) b), (drop (Z.to_nat l) b).
  split_and!; [done|apply Hv..|by rewrite take_drop|]. unfold blen in *. rewrite length_take. lia.
Qed.

Lemma i64_v v : vrange v -> i64 v = v.
Proof. intros Hv. apply i64_small. unfold vrange, Varint.maxVarInt8 in Hv. lia. Qed.

Lemma u64_v v : vrange v -> u64 v = v.
Proof. intros Hv. apply Z.mod_small. unfold vrange, Varint.maxVarInt8 in Hv. lia. Qed.

Lemma venc_byte t : 0 <= t < 64 -> venc t = [byte_of_Z t].
Proof.
  intros. unfold venc, Varint.Append. rewrite (proj2 (Z.leb_le t _)); [done|].
  unfold Varint.maxVarInt1. lia.
Qed.

(** ** The interface of a frame codec *)

Class Codec (F : Type) := {
  frame_type : F -> Z;
  Append : bytes -> F -> res werr bytes;
  Length : F -> res werr Z;
  (** The parser of the bytes after the frame type, which it is given. *)
  parse : Z -> bytes -> res werr (F * Z);
  (** The frames that can be sent. *)
  encodable : F -> Prop;
  (** The frame says where it ends; else it takes the rest of the packet. *)
  delimited : F -> bool;
  (** What the receiver sees of the frame. *)
  received : F -> F }.

Class LawfulCodec (F : Type) {C : Codec F} : Prop := {
  (** An encodable frame is written as its type and a body, its length is the
      one announced, and the parser reads it back. *)
  codec_roundtrip f : encodable f ->
    vrange (frame_type f) /\
    exists body,
      (forall b, Append b f = Ok (b ++ venc (frame_type f) ++ body)) /\
      Length f = Ok (blen (venc (frame_type f) ++ body)) /\
      (forall rest, delimited f = true \/ rest = [] ->
        parse (frame_type f) (body ++ rest) = Ok (received f, blen body));
  (** The parser never panics and never consumes more than it was given. *)
  codec_safe t b :
    match parse t b with
    | Ok (_, n) => 0 <= n <= blen b
    | Err _ => True
    | Panic => False
    end }.

(** ** Automation of the instances *)

Ltac unfold_types :=
  unfold FrameTypePing, FrameTypeAck, FrameTypeAckECN, FrameTypeResetStream, FrameTypeStopSending,
    FrameTypeCrypto, FrameTypeNewToken, FrameTypeMaxData, FrameTypeMaxStreamData,
    FrameTypeBidiMaxStreams, FrameTypeUniMaxStreams, FrameTypeDataBlocked,
    FrameTypeStreamDataBlocked, FrameTypeBidiStreamBlocked, FrameTypeUniStreamBlocked,
    FrameTypeNewConnectionID, FrameTypeRetireConnectionID, FrameTypePathChallenge,
    FrameTypePathResponse, FrameTypeConnectionClose, FrameTypeApplicationClose,
    FrameTypeHandshakeDone, FrameTypeResetStreamAt, FrameTypeAckFrequency,
    FrameTypeImmediateAck, FrameTypeDatagramNoLength, FrameTypeDatagramWithLength in *.

Ltac solve_v :=
  solve [assumption
        |unfold_types; unfold vrange, Varint.maxVarInt8 in *;
         repeat match goal with |- context [blen ?b] => lazymatch goal with
           | H : 0 <= blen b |- _ => fail
           | _ => pose proof (blen_nonneg b) end end; lia].

Ltac i64_small_v := match goal with |- context [i64 ?v] => rewrite (i64_v v) by solve_v end.
Ltac u64_small_v := match goal with |- context [u64 ?v] => rewrite (u64_v v) by solve_v end.
Ltac type_bytes :=
  repeat match goal with |- context [venc ?t] => rewrite (venc_byte t) by (unfold_types; lia) end.

(** Write, measure and read back the fields. *)
Ltac codec_append :=
  cbn [mbind res_bind];
  repeat (first [u64_small_v|rewrite Varint.Append_venc by solve_v]; cbn [mbind res_bind]);
  type_bytes; rewrite <- ?app_assoc; rewrite ?app_nil_r; reflexivity.
Ltac codec_length :=
  cbn [mbind res_bind];
  repeat (first [u64_small_v|rewrite Varint.Len_venc by solve_v]; cbn [mbind res_bind]);
  type_bytes; f_equal; repeat rewrite ?blen_app, ?blen_cons, ?blen_nil; lia.
Ltac codec_parse :=
  cbn [mbind res_bind];
  rewrite <- ?app_assoc;
  repeat (first [rewrite next_venc by solve_v|rewrite vparse_venc by solve_v|i64_small_v];
          cbn [mbind res_bind]).

Lemma Ok_pair {E A} (a a' : A) (n n' : Z) : a = a' -> n = n' -> Ok (E:=E) (a, n) = Ok (a', n').
Proof. by intros -> ->. Qed.

Ltac codec_done :=
  apply Ok_pair; [f_equal; try lia; try done|repeat rewrite ?blen_app, ?blen_cons, ?blen_nil; lia].
Ltac codec_all :=
  split_and!; [intros b; codec_append|codec_length|intros rest _; codec_parse; codec_done].

(** Run a parser on arbitrary bytes. *)
Ltac codec_step :=
  match goal with
  | |- context [next ?b] =>
      let v := fresh "v" in let p := fresh "p" in let b' := fresh "b" in
      let Hv := fresh "Hv" in let Hp := fresh "Hp" in
      destruct (next_cases b) as [->|(v & p & b' & -> & Hv & -> & Hp)]; cbn [mbind res_bind]; [exact I|]
  | |- context [vparse ?b] =>
      let v := fresh "v" in let l := fresh "l" in let Hv := fresh "Hv" in let Hl := fresh "Hl" in
      destruct (vparse_cases b) as [->|(v & l & -> & Hv & Hl)]; cbn [mbind res_bind]; [exact I|]
  | |- context [if ?a <? ?b then _ else _] =>
      let H := fresh "Hc" in destruct (a <? b) eqn:H; cbn [mbind res_bind]; try exact I
  | |- context [if ?a =? ?b then _ else _] =>
      let H := fresh "Hc" in destruct (a =? b) eqn:H; cbn [mbind res_bind]; try exact I
  end.
Ltac codec_bounds :=
  repeat codec_step; zb; rewrite ?i64_v in * by solve_v;
  rewrite ?blen_app in *; unfold vrange in *;
  repeat match goal with |- context [blen ?b] => lazymatch goal with
    | H : 0 <= blen b |- _ => fail | _ => pose proof (blen_nonneg b) end end; lia.

End Wire.
