(* ===== verification/AckFrame.v ===== *)
(** * ACK frames (src/quicfork/internal/wire/ack_frame.go, ack_range.go)

    Parsing, writing, measuring, truncating and querying ACK frames.  Packet
    numbers are below 2^62, so their [int64] arithmetic does not overflow and is
    written on [Z]; durations are nanoseconds of a [time.Duration]. *)

From S2P Require Import Prelude GoBytes Varint Wire.
Local Open Scope Z_scope.

Module Ack.
Import Wire.

Definition MaxNumAckRanges : Z := 64.
Definition AckDelayExponent : Z := 3.

Record AckRange := mkRange { Smallest : Z; Largest : Z }.
Definition AckRange_Len (r : AckRange) : Z := Largest r - Smallest r + 1.

Record AckFrame := mkAck {
  AckRanges : list AckRange; DelayTime : Z; ECT0 : Z; ECT1 : Z; ECNCE : Z }.

Definition Reset (f : AckFrame) : AckFrame := mkAck [] 0 0 0 0.

(** [f.AckRanges[i]] *)
Definition range_at (f : AckFrame) (i : nat) : res werr AckRange :=
  match AckRanges f !! i with Some r => Ok r | None => Panic end.

(** ** Validation *)

Fixpoint ranges_consistent (last : AckRange) (l : list AckRange) : bool :=
  match l with
  | [] => true
  | r :: l =>
      if Smallest last <=? Smallest r then false
      else if Smallest last <=? Largest r + 1 then false
      else ranges_consistent r l
  end.

Definition validateAckRanges (f : AckFrame) : bool :=
  match AckRanges f with
  | [] => false
  | r :: l => forallb (fun r => negb (Largest r <? Smallest r)) (AckRanges f) && ranges_consistent r l
  end.

(** ** Parsing *)

(** The loop over the further ranges.  Every round consumes bytes or fails, so
    one round more than there are bytes is enough. *)
Fixpoint ack_blocks (fuel : nat) (num : Z) (b : bytes) (smallest : Z) (ranges : list AckRange)
    : res werr (bytes * list AckRange) :=
  if num <=? 0 then Ok (b, ranges) else
  match fuel with
  | O => Panic
  | S fuel =>
      '(gap, b) ← next b;
      if smallest <? gap + 2 then Err errInvalidAckRanges else
      let largest := smallest - gap - 2 in
      '(ackBlock, b) ← next b;
      if largest <? ackBlock then Err errInvalidAckRanges else
      let smallest := largest - ackBlock in
      ack_blocks fuel (num - 1) b smallest (ranges ++ [mkRange smallest largest])
  end.

Definition delay_of (delay exponent : Z) : Z :=
  let d := i64 (i64 (u64 (Z.shiftl delay exponent)) * 1000) in
  if d <? 0 then 2 ^ 63 - 1 else d.

Definition parseAckFrame (frame : AckFrame) (typ exponent : Z) (b : bytes) : res werr (AckFrame * Z) :=
  let ecn := typ =? FrameTypeAckECN in
  '(largestAcked, b1) ← next b;
  '(delay, b2) ← next b1;
  '(numBlocks, b3) ← next b2;
  '(ackBlock, b4) ← next b3;
  if largestAcked <? ackBlock then Err errFirstAckRange else
  let smallest := largestAcked - ackBlock in
  '(b5, ranges) ← ack_blocks (S (length b4)) numBlocks b4 smallest
                    (AckRanges frame ++ [mkRange smallest largestAcked]);
  let frame := mkAck ranges (delay_of delay exponent) (ECT0 frame) (ECT1 frame) (ECNCE frame) in
  if negb (validateAckRanges frame) then Err errInvalidAckRanges else
  if ecn then
    '(ect0, b6) ← next b5;
    '(ect1, b7) ← next b6;
    '(ecnce, b8) ← next b7;
    Ok (mkAck ranges (DelayTime frame) ect0 ect1 ecnce, blen b - blen b8)
  else Ok (frame, blen b - blen b5).

(** ** Writing *)

Definition encodeAckDelay (delay : Z) : Z := u64 (Z.quot delay (1000 * Z.shiftl 1 AckDelayExponent)).

Definition LargestAcked (f : AckFrame) : res werr Z := r ← range_at f 0; Ok (Largest r).

(** The gap to the range before and the length of a range. *)
Definition encodeAckRange (f : AckFrame) (i : nat) : res werr (Z * Z) :=
  match i with
  | O => r ← range_at f 0; Ok (0, u64 (Largest r - Smallest r))
  | S j =>
      last ← range_at f j; r ← range_at f i;
      Ok (u64 (Smallest last - Largest r - 2), u64 (Largest r - Smallest r))
  end.

Definition hasECN (f : AckFrame) : bool := (0 <? ECT0 f) || (0 <? ECT1 f) || (0 <? ECNCE f).

(** [min(len(f.AckRanges), protocol.MaxNumAckRanges)] *)
Definition num_ranges (f : AckFrame) : nat := Nat.min (length (AckRanges f)) (Z.to_nat MaxNumAckRanges).

(** The loop over the ranges [i, ..., i + k - 1]. *)
Fixpoint append_ranges (f : AckFrame) (i k : nat) (b : bytes) : res werr bytes :=
  match k with
  | O => Ok b
  | S k =>
      '(gap, len) ← encodeAckRange f i;
      b ← Varint.Append b gap;
      b ← Varint.Append b len;
      append_ranges f (S i) k b
  end.

Definition AppendAckFrame (b : bytes) (f : AckFrame) : res werr bytes :=
  let b := b ++ [byte_of_Z (if hasECN f then FrameTypeAckECN else FrameTypeAck)] in
  la ← LargestAcked f;
  b ← Varint.Append b (u64 la);
  b ← Varint.Append b (encodeAckDelay (DelayTime f));
  let numRanges := num_ranges f in
  b ← Varint.Append b (u64 (Z.of_nat numRanges - 1));
  '(_, firstRange) ← encodeAckRange f 0;
  b ← Varint.Append b firstRange;
  b ← append_ranges f 1 (numRanges - 1) b;
  if hasECN f then
    b ← Varint.Append b (ECT0 f);
    b ← Varint.Append b (ECT1 f);
    Varint.Append b (ECNCE f)
  else Ok b.

Definition ecn_len (f : AckFrame) : res werr Z :=
  if hasECN f then
    l0 ← Varint.Len (ECT0 f); l1 ← Varint.Len (ECT1 f); l2 ← Varint.Len (ECNCE f); Ok (l0 + l1 + l2)
  else Ok 0.

(** The length of range [i]. *)
Definition range_len (f : AckFrame) (i : nat) : res werr Z :=
  '(gap, len) ← encodeAckRange f i;
  l1 ← Varint.Len gap; l2 ← Varint.Len len; Ok (l1 + l2).

Fixpoint length_ranges (f : AckFrame) (i k : nat) (length : Z) : res werr Z :=
  match k with
  | O => Ok length
  | S k => l ← range_len f i; length_ranges f (S i) k (length + l)
  end.

(** The length of everything but the further ranges. *)
Definition fixed_len (f : AckFrame) : res werr Z :=
  la ← LargestAcked f;
  l1 ← Varint.Len (u64 la);
  l2 ← Varint.Len (encodeAckDelay (DelayTime f));
  '(_, first) ← encodeAckRange f 0;
  l3 ← Varint.Len first;
  Ok (1 + l1 + l2 + 1 + l3).

Definition LengthAckFrame (f : AckFrame) : res werr Z :=
  length ← fixed_len f;
  length ← length_ranges f 1 (num_ranges f - 1) length;
  e ← ecn_len f;
  Ok (length + e).

(** ** Truncation *)

Fixpoint fit_ranges (f : AckFrame) (maxSize : Z) (i k : nat) (length : Z) : res werr nat :=
  match k with
  | O => Ok i
  | S k =>
      l ← range_len f i;
      if maxSize <? length + l then Ok i else fit_ranges f maxSize (S i) k (length + l)
  end.

Definition numEncodableAckRanges (f : AckFrame) (maxSize : Z) : res werr nat :=
  let length := 1 + 8 + 8 + 1 + 8 + (if hasECN f then 8 + 8 + 8 else 0) in
  let numRanges := num_ranges f in
  let length := length + 2 * 8 * (Z.of_nat numRanges - 1) in
  if length <=? maxSize then Ok numRanges else
  length ← fixed_len f;
  e ← ecn_len f;
  fit_ranges f maxSize 1 (numRanges - 1) (length + e).

Definition Truncate (f : AckFrame) (maxSize : Z) : res werr AckFrame :=
  n ← numEncodableAckRanges f maxSize;
  if (length (AckRanges f) <? n)%nat then Panic else
  Ok (mkAck (take n (AckRanges f)) (DelayTime f) (ECT0 f) (ECT1 f) (ECNCE f)).

(** ** Queries *)

Definition HasMissingRanges (f : AckFrame) : bool := (1 <? length (AckRanges f))%nat.

Definition LowestAcked (f : AckFrame) : res werr Z :=
  match length (AckRanges f) with
  | O => Panic
  | S n => r ← range_at f n; Ok (Smallest r)
  end.

Definition AcksPacket (f : AckFrame) (p : Z) : res werr bool :=
  lo ← LowestAcked f;
  hi ← LargestAcked f;
  if (p <? lo) || (hi <? p) then Ok false else
  let i := Search (length (AckRanges f)) (fun i =>
    match AckRanges f !! i with Some r => Smallest r <=? p | None => true end) in
  r ← range_at f i;
  Ok (p <=? Largest r).

(** ** Well-formed ranges

    Descending, disjoint and not adjacent, below [bound]. *)
Fixpoint ranges_ok (bound : Z) (l : list AckRange) : Prop :=
  match l with
  | [] => True
  | r :: l => 0 <= Smallest r <= Largest r /\ Largest r <= bound /\ ranges_ok (Smallest r - 2) l
  end.

Lemma ranges_ok_mono b b' l : b <= b' -> ranges_ok b l -> ranges_ok b' l.
Proof. destruct l as [|r l]; [done|]. intros Hb (H1 & H2 & H3). split_and!; try done; lia. Qed.

Lemma ranges_ok_consistent last l :
  ranges_ok (Smallest last - 2) l ->
  ranges_consistent last l = true /\ forallb (fun r => negb (Largest r <? Smallest r)) l = true.
Proof.
  revert last. induction l as [|r l IH]; intros last; [done|]. cbn. intros (H1 & H2 & H3).
  destruct (IH r H3) as [-> ->].
  rewrite (proj2 (Z.leb_gt (Smallest last) (Smallest r))), (proj2 (Z.leb_gt _ (Largest r + 1))) by lia.
  by rewrite (proj2 (Z.ltb_ge _ _)) by lia.
Qed.

Lemma ranges_ok_validate f b : AckRanges f <> [] -> ranges_ok b (AckRanges f) -> validateAckRanges f = true.
Proof.
  unfold validateAckRanges. destruct (AckRanges f) as [|r l]; [done|]. intros _ (H1 & H2 & H3).
  destruct (ranges_ok_consistent r l H3) as [-> ?]. cbn [forallb].
  rewrite (proj2 (Z.ltb_ge (Largest r) _)) by lia. cbn [negb andb]. by rewrite andb_true_r.
Qed.

Lemma ranges_ok_take b l n : ranges_ok b l -> ranges_ok b (take n l).
Proof.
  revert b n. induction l as [|r l IH]; intros b [|n]; try done.
  intros (H1 & H2 & H3). split_and!; try done; try lia. by apply IH.
Qed.

(** ** The bytes of the further ranges *)

Fixpoint ranges_enc (s : Z) (l : list AckRange) : bytes :=
  match l with
  | [] => []
  | r :: l => venc (s - Largest r - 2) ++ venc (Largest r - Smallest r) ++ ranges_enc (Smallest r) l
  end.

Lemma encodeAckRange_S f pre last r l :
  AckRanges f = pre ++ last :: r :: l -> 0 <= Smallest r <= Largest r ->
  Largest r <= Smallest last - 2 -> vrange (Smallest last) ->
  encodeAckRange f (S (length pre)) = Ok (Smallest last - Largest r - 2, Largest r - Smallest r) /\
  vrange (Smallest last - Largest r - 2) /\ vrange (Largest r - Smallest r) /\ vrange (Smallest r).
Proof.
  intros Hf H1 H2 Hv. unfold encodeAckRange, range_at. rewrite Hf.
  rewrite (list_lookup_middle pre (r :: l) last (length pre)) by done. cbn [mbind res_bind].
  replace (pre ++ last :: r :: l) with ((pre ++ [last]) ++ r :: l) by (by rewrite <- app_assoc).
  rewrite list_lookup_middle by (rewrite length_app; simpl; lia). cbn [mbind res_bind].
  rewrite !u64_v by solve_v. split_and!; try done; solve_v.
Qed.

Lemma append_ranges_ok f l pre last post b :
  AckRanges f = pre ++ last :: l ++ post -> ranges_ok (Smallest last - 2) l -> vrange (Smallest last) ->
  append_ranges f (S (length pre)) (length l) b = Ok (b ++ ranges_enc (Smallest last) l).
Proof.
  revert pre last b. induction l as [|r l IH]; intros pre last b Hf Hl Hv; [by rewrite app_nil_r|].
  cbn [append_ranges length ranges_enc].
  destruct (encodeAckRange_S f pre last r (l ++ post)) as (He & Hg & Hn & Hs);
    [done|apply Hl|apply Hl|done|].
  rewrite He. cbn [mbind res_bind]. rewrite Varint.Append_venc by done. cbn [mbind res_bind].
  rewrite Varint.Append_venc by done. cbn [mbind res_bind].
  replace (S (length pre)) with (length (pre ++ [last])) by (rewrite length_app; simpl; lia).
  rewrite (IH (pre ++ [last]) r); [by rewrite <- !app_assoc|by rewrite <- app_assoc|apply Hl|done].
Qed.

Lemma length_ranges_ok f l pre last post n :
  AckRanges f = pre ++ last :: l ++ post -> ranges_ok (Smallest last - 2) l -> vrange (Smallest last) ->
  length_ranges f (S (length pre)) (length l) n = Ok (n + blen (ranges_enc (Smallest last) l)).
Proof.
  revert pre last n. induction l as [|r l IH]; intros pre last n Hf Hl Hv;
    [cbn [length_ranges length ranges_enc]; by rewrite blen_nil, Z.add_0_r|].
  cbn [length_ranges length ranges_enc]. unfold range_len.
  destruct (encodeAckRange_S f pre last r (l ++ post)) as (He & Hg & Hn & Hs);
    [done|apply Hl|apply Hl|done|].
  rewrite He. cbn [mbind res_bind]. rewrite !Varint.Len_venc by done. cbn [mbind res_bind].
  replace (S (length pre)) with (length (pre ++ [last])) by (rewrite length_app; simpl; lia).
  rewrite (IH (pre ++ [last]) r); [|by rewrite <- app_assoc|apply Hl|done].
  rewrite !blen_app. f_equal. lia.
Qed.

Lemma ack_blocks_ok l s fuel rest acc :
  ranges_ok (s - 2) l -> vrange s -> (length l < fuel)%nat ->
  ack_blocks fuel (Z.of_nat (length l)) (ranges_enc s l ++ rest) s acc = Ok (rest, acc ++ l).
Proof.
  revert s fuel acc. induction l as [|r l IH]; intros s [|fuel] acc Hl Hv Hf; try (simpl in Hf; lia).
  { cbn [length ranges_enc ack_blocks]. by rewrite app_nil_r. }
  cbn [length] in Hf |- *. destruct Hl as (H1 & H2 & H3). cbn [ack_blocks ranges_enc].
  rewrite (proj2 (Z.leb_gt _ 0)) by lia. rewrite <- !app_assoc.
  rewrite next_venc by solve_v. cbn [mbind res_bind]. rewrite (proj2 (Z.ltb_ge s _)) by lia.
  rewrite next_venc by solve_v. cbn [mbind res_bind]. rewrite (proj2 (Z.ltb_ge _ (Largest r - _))) by lia.
  replace (s - (s - Largest r - 2) - 2 - (Largest r - Smallest r)) with (Smallest r) by lia.
  replace (s - (s - Largest r - 2) - 2) with (Largest r) by lia.
  replace (Z.of_nat (S (length l)) - 1) with (Z.of_nat (length l)) by lia.
  rewrite IH; [|done|solve_v|lia]. rewrite <- app_assoc. by destruct r.
Qed.

(** Enough rounds: the loop ends within the data, whatever the count says. *)
Lemma ack_blocks_safe fuel num b s acc :
  (length b < fuel)%nat ->
  match ack_blocks fuel num b s acc with
  | Ok (b', _) => exists p, b = p ++ b'
  | Err _ => True
  | Panic => False
  end.
Proof.
  revert num b s acc. induction fuel as [|fuel IH]; intros num b s acc Hf; [lia|]. cbn [ack_blocks].
  destruct (num <=? 0); [by exists []|].
  destruct (next_cases b) as [->|(g & p & b1 & -> & _ & -> & Hp)]; [done|]. cbn [mbind res_bind].
  destruct (s <? g + 2); [done|].
  destruct (next_cases b1) as [->|(a & p1 & b2 & -> & _ & -> & Hp1)]; [done|]. cbn [mbind res_bind].
  destruct (_ <? a); [done|].
  specialize (IH (num - 1) b2 (s - g - 2 - a) (acc ++ [mkRange (s - g - 2 - a) (s - g - 2)])).
  destruct (ack_blocks _ _ _ _ _) as [[b' ?]| |]; [|done|].
  - destruct IH as [q ->]; [unfold blen in *; rewrite !length_app in *; lia|]. exists (p ++ p1 ++ q). by rewrite <- !app_assoc.
  - apply IH. unfold blen in *. rewrite !length_app in Hf. lia.
Qed.

Lemma parse_ack_safe frame t e b :
  match parseAckFrame frame t e b with
  | Ok (_, n) => 0 <= n <= blen b
  | Err _ => True
  | Panic => False
  end.
Proof.
  unfold parseAckFrame. do 4 codec_step.
  codec_step.
  match goal with |- context [ack_blocks ?k ?n ?b ?s ?acc] =>
    pose proof (ack_blocks_safe k n b s acc ltac:(lia)) as Hs;
    destruct (ack_blocks k n b s acc) as [[b' rs]| |]; [|done|done] end.
  destruct Hs as [q ->].
  cbn [mbind res_bind]. destruct (negb _); [done|].
  destruct (t =? FrameTypeAckECN); codec_bounds.
Qed.

(** ** The codec *)

Definition ack_ok (f : AckFrame) : Prop :=
  AckRanges f <> [] /\ ranges_ok Varint.maxVarInt8 (AckRanges f) /\ 0 <= DelayTime f < 2 ^ 63 /\
  vrange (ECT0 f) /\ vrange (ECT1 f) /\ vrange (ECNCE f).

(** The receiver sees the delay in units of 8 microseconds and at most 64 ranges. *)
#[export] Instance Ack_codec : Codec AckFrame := {
  frame_type f := if hasECN f then FrameTypeAckECN else FrameTypeAck;
  Append := AppendAckFrame; Length := LengthAckFrame;
  parse t := parseAckFrame (mkAck [] 0 0 0 0) t AckDelayExponent;
  encodable := ack_ok; delimited _ := true;
  received f := mkAck (take 64 (AckRanges f)) (DelayTime f / 8000 * 8000) (ECT0 f) (ECT1 f) (ECNCE f) }.

Lemma delay_roundtrip d : 0 <= d < 2 ^ 63 ->
  vrange (encodeAckDelay d) /\ delay_of (encodeAckDelay d) AckDelayExponent = d / 8000 * 8000.
Proof.
  intros Hd. unfold encodeAckDelay, delay_of, AckDelayExponent.
  change (1000 * Z.shiftl 1 3) with 8000. rewrite Z.quot_div_nonneg by lia.
  assert (Hq : 0 <= d / 8000 /\ d / 8000 * 8000 <= d) by dlia.
  assert (Hv : vrange (d / 8000)) by solve_v. rewrite (u64_v _ Hv). split; [done|].
  rewrite Z.shiftl_mul_pow2 by lia. change (2 ^ 3) with 8.
  assert (vrange (d / 8000 * 8)) as Hv8 by solve_v. rewrite (u64_v _ Hv8), (i64_v _ Hv8).
  rewrite i64_small by lia. rewrite (proj2 (Z.ltb_ge _ 0)) by lia. lia.
Qed.

Lemma ranges_enc_long s l : ranges_ok (s - 2) l -> vrange s -> (length l <= length (ranges_enc s l))%nat.
Proof.
  revert s. induction l as [|r l IH]; intros s; [done|]. intros (H1 & H2 & H3) Hv.
  cbn [length ranges_enc]. rewrite !length_app. specialize (IH (Smallest r) H3 ltac:(solve_v)).
  pose proof (Varint.blen_venc (s - Largest r - 2) ltac:(solve_v)). unfold blen in *. lia.
Qed.

Definition ecn_enc (f : AckFrame) : bytes :=
  if hasECN f then venc (ECT0 f) ++ venc (ECT1 f) ++ venc (ECNCE f) else [].

Definition ack_body (f : AckFrame) (r : AckRange) (l : list AckRange) : bytes :=
  venc (Largest r) ++ venc (encodeAckDelay (DelayTime f)) ++ venc (Z.of_nat (length l)) ++
  venc (Largest r - Smallest r) ++ ranges_enc (Smallest r) l ++ ecn_enc f.

(** The ranges that are written: the first and at most 63 further ones. *)
Lemma num_ranges_cons f r l : AckRanges f = r :: l ->
  (num_ranges f = S (length (take 63 l)) /\ length (take 63 l) <= 63)%nat.
Proof.
  intros Hf. unfold num_ranges, MaxNumAckRanges. rewrite Hf, length_take.
  change (Z.to_nat 64) with 64%nat. cbn [length]. lia.
Qed.

Section written.
Context (f : AckFrame) (r : AckRange) (l : list AckRange).
Context (Hf : AckRanges f = r :: l) (Hok : ack_ok f).

Local Definition ws : list AckRange := take 63 l.

Lemma written_facts :
  0 <= Smallest r <= Largest r /\ vrange (Largest r) /\ vrange (Smallest r) /\
  vrange (Largest r - Smallest r) /\ ranges_ok (Smallest r - 2) ws /\
  vrange (Z.of_nat (length ws)) /\ num_ranges f = S (length ws) /\
  blen (venc (Z.of_nat (length ws))) = 1 /\ AckRanges f = [] ++ r :: ws ++ drop 63 l.
Proof using Hf Hok.
  destruct Hok as (_ & Hr & _). rewrite Hf in Hr. destruct Hr as (H1 & H2 & H3).
  destruct (num_ranges_cons f r l Hf) as [Hn Hl]. unfold ws.
  unfold Varint.maxVarInt8 in H2.
  split_and!; try solve_v; try done; try lia.
  - by apply ranges_ok_take.
  - rewrite venc_byte by lia. done.
  - rewrite Hf. cbn [app]. by rewrite take_drop.
Qed.

Lemma append_written b :
  AppendAckFrame b f = Ok (b ++ venc (if hasECN f then FrameTypeAckECN else FrameTypeAck) ++ ack_body f r ws).
Proof using Hf Hok.
  destruct written_facts as (H1 & Hv1 & Hv2 & Hv3 & Hrs & Hvn & Hn & _ & Hsplit).
  pose proof Hok as (_ & _ & Hd & He0 & He1 & He2).
  destruct (delay_roundtrip _ Hd) as [Hvd _].
  unfold AppendAckFrame, LargestAcked, encodeAckRange, range_at. rewrite Hn, Hf. cbn [lookup list_lookup mbind res_bind].
  rewrite (u64_v (Largest r)), Varint.Append_venc by done. cbn [mbind res_bind].
  rewrite Varint.Append_venc by done. cbn [mbind res_bind].
  replace (Z.of_nat (S (length ws)) - 1) with (Z.of_nat (length ws)) by lia.
  rewrite (u64_v (Z.of_nat _)), Varint.Append_venc by done. cbn [mbind res_bind].
  rewrite (u64_v (Largest r - _)), Varint.Append_venc by done. cbn [mbind res_bind].
  rewrite Nat.sub_succ, Nat.sub_0_r.
  rewrite (append_ranges_ok f ws [] r (drop 63 l)) by done. cbn [mbind res_bind].
  unfold ack_body, ecn_enc. destruct (hasECN f); codec_append.
Qed.

Lemma length_written :
  LengthAckFrame f = Ok (blen (venc (if hasECN f then FrameTypeAckECN else FrameTypeAck) ++ ack_body f r ws)).
Proof using Hf Hok.
  destruct written_facts as (H1 & Hv1 & Hv2 & Hv3 & Hrs & Hvn & Hn & Hb & Hsplit).
  pose proof Hok as (_ & _ & Hd & He0 & He1 & He2).
  destruct (delay_roundtrip _ Hd) as [Hvd _].
  unfold LengthAckFrame, fixed_len, LargestAcked, encodeAckRange, range_at.
  rewrite Hn, Hf. cbn [lookup list_lookup mbind res_bind].
  rewrite !u64_v, !Varint.Len_venc by done. cbn [mbind res_bind].
  rewrite Nat.sub_succ, Nat.sub_0_r.
  rewrite (length_ranges_ok f ws [] r (drop 63 l)) by done. cbn [mbind res_bind].
  unfold ack_body, ecn_enc, ecn_len. destruct (hasECN f); codec_length.
Qed.

Lemma parse_written rest :
  parseAckFrame (mkAck [] 0 0 0 0) (if hasECN f then FrameTypeAckECN else FrameTypeAck)
    AckDelayExponent (ack_body f r ws ++ rest)
  = Ok (mkAck (r :: ws) (DelayTime f / 8000 * 8000) (ECT0 f) (ECT1 f) (ECNCE f), blen (ack_body f r ws)).
Proof using Hf Hok.
  destruct written_facts as (H1 & Hv1 & Hv2 & Hv3 & Hrs & Hvn & Hn & Hb & Hsplit).
  pose proof Hok as (_ & _ & Hd & He0 & He1 & He2).
  destruct (delay_roundtrip _ Hd) as [Hvd Hdd]. rewrite <- Hdd.
  unfold parseAckFrame, ack_body. codec_parse. rewrite (proj2 (Z.ltb_ge (Largest r) _)) by lia.
  cbn [AckRanges app]. replace (Largest r - (Largest r - Smallest r)) with (Smallest r) by lia.
  replace (mkRange (Smallest r) (Largest r)) with r by (by destruct r).
  rewrite ack_blocks_ok; [|done|done|rewrite !length_app; pose proof (ranges_enc_long _ _ Hrs Hv2); lia].
  cbn [mbind res_bind app]. rewrite (ranges_ok_validate _ Varint.maxVarInt8);
    [|done|cbn [AckRanges ranges_ok]; split_and!; [lia|lia|apply Hv1|done]]. cbn [negb].
  unfold ecn_enc. cbn [ECT0 ECT1 ECNCE DelayTime]. destruct (hasECN f) eqn:He.
  - change (FrameTypeAckECN =? FrameTypeAckECN) with true. codec_parse. codec_done.
  - change (FrameTypeAck =? FrameTypeAckECN) with false. unfold hasECN in He.
    apply orb_false_elim in He as [[E0 E1]%orb_false_elim E2]. zb. unfold vrange in He0, He1, He2.
    codec_done.
Qed.
End written.

#[export] Instance Ack_lawful : LawfulCodec AckFrame.
Proof.
  constructor; cbn [frame_type Append Length parse encodable delimited received Ack_codec].
  - intros f Hok. split; [by destruct (hasECN f); solve_v|].
    destruct (AckRanges f) as [|r l] eqn:Hf; [by destruct Hok|].
    exists (ack_body f r (ws l)). split_and!.
    + intros b. by apply append_written.
    + by apply length_written.
    + intros rest _. by apply (parse_written f r l).
  - intros t b. apply parse_ack_safe.
Qed.

(** ** Queries *)

Lemma ranges_lookup b l i j ri rj :
  ranges_ok b l -> l !! i = Some ri -> l !! j = Some rj ->
  0 <= Smallest ri <= Largest ri /\ Largest ri <= b /\ ((i < j)%nat -> Largest rj <= Smallest ri - 2).
Proof.
  revert b i j ri rj. induction l as [|r l IH]; intros b i j ri rj; [done|]. intros (H1 & H2 & H3) Hi Hj.
  destruct i as [|i], j as [|j]; simplify_eq/=.
  - split_and!; lia.
  - destruct (IH _ j j rj rj H3 Hj Hj) as (? & ? & _). split_and!; lia.
  - destruct (IH _ i i ri ri H3 Hi Hi) as (? & ? & _). split_and!; lia.
  - destruct (IH _ i j ri rj H3 Hi Hj) as (? & ? & Ho). split_and!; lia.
Qed.

Lemma existsb_range (l : list AckRange) p i r b :
  ranges_ok b l -> l !! i = Some r -> Smallest r <= p ->
  (forall j rj, (j < i)%nat -> l !! j = Some rj -> p < Smallest rj) ->
  existsb (fun r => (Smallest r <=? p) && (p <=? Largest r)) l = (p <=? Largest r).
Proof.
  intros Hok Hi Hp Hlo. destruct (Z.leb_spec p (Largest r)) as [Hl|Hl].
  - apply existsb_exists. exists r. split; [by apply list_elem_of_In, (list_elem_of_lookup_2 _ i)|].
    by rewrite (proj2 (Z.leb_le _ _) Hp), (proj2 (Z.leb_le _ _) Hl).
  - apply not_true_is_false. intros (x & Hx & Hc)%existsb_exists.
    apply list_elem_of_In, list_elem_of_lookup_1 in Hx as [j Hj].
    apply andb_prop in Hc as [H1 H2]. zb.
    destruct (Nat.lt_trichotomy i j) as [Hij|[->|Hij]].
    + destruct (ranges_lookup _ _ i j r x Hok Hi Hj) as (_ & _ & Ho). specialize (Ho Hij). lia.
    + simplify_eq. lia.
    + specialize (Hlo j x Hij Hj). lia.
Qed.

(** Outside of the lowest and the largest packet number nothing is acknowledged. *)
Lemma existsb_outside (l : list AckRange) p b r0 n rl :
  ranges_ok b l -> l !! 0%nat = Some r0 -> length l = S n -> l !! n = Some rl ->
  p < Smallest rl \/ Largest r0 < p ->
  existsb (fun r => (Smallest r <=? p) && (p <=? Largest r)) l = false.
Proof.
  intros Hok H0 Hlen Hl Hout. apply not_true_is_false. intros (x & Hx & Hc)%existsb_exists.
  apply list_elem_of_In, list_elem_of_lookup_1 in Hx as [j Hj]. apply andb_prop in Hc as [H1 H2].
  pose proof (lookup_lt_Some _ _ _ Hj) as Hlt. zb.
  destruct (ranges_lookup _ _ 0 j r0 x Hok H0 Hj) as (Hr0 & _ & Ho1).
  destruct (ranges_lookup _ _ j n x rl Hok Hj Hl) as (Hx & _ & Ho2).
  destruct (ranges_lookup _ _ n n rl rl Hok Hl Hl) as (Hrl & _).
  destruct Hout as [Ho|Ho].
  - destruct (decide (j = n)) as [->|]; [simplify_eq; lia|]. specialize (Ho2 ltac:(lia)). lia.
  - destruct j as [|j]; [simplify_eq; lia|]. specialize (Ho1 ltac:(lia)). lia.
Qed.

Lemma smallest_mono l b p i j ri rj :
  ranges_ok b l -> l !! i = Some ri -> l !! j = Some rj -> (i <= j)%nat ->
  Smallest ri <= p -> Smallest rj <= p.
Proof.
  intros Hok Hi Hj Hij Hp. destruct (decide (i = j)) as [->|]; [by simplify_eq|].
  destruct (ranges_lookup _ _ i j ri rj Hok Hi Hj) as (? & _ & Ho).
  destruct (ranges_lookup _ _ j j rj rj Hok Hj Hj) as (? & _). specialize (Ho ltac:(lia)). lia.
Qed.

Lemma AcksPacket_spec f p : ack_ok f ->
  AcksPacket f p = Ok (existsb (fun r => (Smallest r <=? p) && (p <=? Largest r)) (AckRanges f)).
Proof.
  intros (Hne & Hok & _). unfold AcksPacket, LowestAcked, LargestAcked, range_at.
  destruct (length (AckRanges f)) as [|n] eqn:Hlen; [by apply nil_length_inv in Hlen|].
  destruct (lookup_lt_is_Some_2 (AckRanges f) n) as [rl Hl]; [lia|].
  destruct (lookup_lt_is_Some_2 (AckRanges f) 0) as [r0 H0]; [lia|].
  rewrite Hl, H0. cbn [mbind res_bind].
  destruct (Z.ltb_spec p (Smallest rl)); [by erewrite existsb_outside by eauto|].
  destruct (Z.ltb_spec (Largest r0) p); [by erewrite existsb_outside by eauto|]. cbn [orb].
  set (P := fun i : nat => _). destruct (Search_spec (S n) P) as (Hle & Hlo & Hhi).
  { intros a b Hab. unfold P.
    destruct (AckRanges f !! a) as [ra|] eqn:Ha; [|apply lookup_ge_None in Ha; lia].
    destruct (AckRanges f !! b) as [rb|] eqn:Hb; [|done]. intros Hs. zb. apply Z.leb_le.
    by apply (smallest_mono _ _ _ a b ra rb Hok Ha Hb); [lia|]. }
  set (i := Search (S n) P) in *. assert (Hin : (i < S n)%nat).
  { destruct (Nat.lt_ge_cases i (S n)) as [|Hge]; [done|].
    specialize (Hlo n ltac:(lia)). unfold P in Hlo. rewrite Hl in Hlo. zb. lia. }
  specialize (Hhi i ltac:(lia)).
  destruct (lookup_lt_is_Some_2 (AckRanges f) i) as [r Hr]; [lia|]. rewrite Hr. cbn [mbind res_bind].
  f_equal. symmetry. unfold P in Hhi. rewrite Hr in Hhi. zb.
  apply (existsb_range _ _ i r _ Hok Hr Hhi). intros j rj Hj Hrj. specialize (Hlo j Hj).
  unfold P in Hlo. rewrite Hrj in Hlo. by zb.
Qed.

(** ** Truncation *)

(** The frame with its first [n] ranges. *)
Definition first_ranges (f : AckFrame) (n : nat) : AckFrame :=
  mkAck (take n (AckRanges f)) (DelayTime f) (ECT0 f) (ECT1 f) (ECNCE f).

(** The length without the further ranges. *)
Definition base_len (f : AckFrame) (r : AckRange) : Z :=
  1 + blen (venc (Largest r)) + blen (venc (encodeAckDelay (DelayTime f))) + 1 +
  blen (venc (Largest r - Smallest r)) + blen (ecn_enc f).

Lemma first_ranges_ok f n : ack_ok f -> (0 < n)%nat -> ack_ok (first_ranges f n).
Proof.
  intros (Hne & Hr & Hrest) Hn. split_and!; try apply Hrest; cbn [AckRanges first_ranges].
  - destruct (AckRanges f); [done|]. by destruct n; [lia|].
  - by apply ranges_ok_take.
Qed.

Lemma length_first_ranges f r l n : ack_ok f -> AckRanges f = r :: l -> (n < 64)%nat ->
  LengthAckFrame (first_ranges f (S n)) = Ok (base_len f r + blen (ranges_enc (Smallest r) (take n l))).
Proof.
  intros Hok Hf Hn. pose proof (first_ranges_ok f (S n) Hok ltac:(lia)) as Hok'.
  assert (Hf' : AckRanges (first_ranges f (S n)) = r :: take n l)
    by (cbn [AckRanges first_ranges]; by rewrite Hf).
  rewrite (length_written _ _ _ Hf' Hok').
  destruct (written_facts _ _ _ Hf' Hok') as (_ & _ & _ & _ & _ & _ & _ & Hb & _).
  unfold ack_body, base_len, ws in *. rewrite take_take, Nat.min_r in * by lia.
  rewrite !blen_app, Hb. unfold ecn_enc, hasECN. cbn [ECT0 ECT1 ECNCE DelayTime first_ranges].
  f_equal. assert (forall c : bool, blen (venc (if c then FrameTypeAckECN else FrameTypeAck)) = 1) as ->
    by (by intros []). lia.
Qed.

Lemma fit_ranges_spec f maxSize l pre last post n :
  AckRanges f = pre ++ last :: l ++ post -> ranges_ok (Smallest last - 2) l -> vrange (Smallest last) ->
  n <= maxSize ->
  exists j, fit_ranges f maxSize (S (length pre)) (length l) n = Ok (S (length pre) + j)%nat /\
    (j <= length l)%nat /\ n + blen (ranges_enc (Smallest last) (take j l)) <= maxSize /\
    ((j < length l)%nat -> maxSize < n + blen (ranges_enc (Smallest last) (take (S j) l))).
Proof.
  revert pre last n. induction l as [|r l IH]; intros pre last n Hf Hl Hv Hn.
  { exists 0%nat. cbn [fit_ranges length]. rewrite Nat.add_0_r, take_0. cbn [ranges_enc].
    rewrite blen_nil. split_and!; try done; lia. }
  cbn [fit_ranges length]. unfold range_len. pose proof Hl as (H1 & H2 & H3).
  destruct (encodeAckRange_S f pre last r (l ++ post)) as (He & Hg & Hw & Hs); [done..|].
  rewrite He. cbn [mbind res_bind]. rewrite !Varint.Len_venc by done. cbn [mbind res_bind].
  destruct (Z.ltb_spec maxSize (n + (blen (venc (Smallest last - Largest r - 2)) + blen (venc (Largest r - Smallest r)))))
    as [Hover|Hfit].
  - exists 0%nat. rewrite Nat.add_0_r, take_0. cbn [take ranges_enc]. rewrite take_0. cbn [ranges_enc].
    rewrite !blen_app, blen_nil. split_and!; try done; lia.
  - replace (S (length pre)) with (length (pre ++ [last])) by (rewrite length_app; simpl; lia).
    destruct (IH (pre ++ [last]) r _ ltac:(by rewrite <- app_assoc) H3 Hs Hfit) as (j & -> & Hj & Hle & Hgt).
    exists (S j). split_and!; [f_equal; rewrite length_app; simpl; lia|lia|..]; cbn [take ranges_enc];
      rewrite !blen_app; [lia|]. intros Hj'. specialize (Hgt ltac:(lia)). cbn [take ranges_enc] in Hgt. lia.
Qed.

Lemma ranges_enc_short s l : ranges_ok (s - 2) l -> vrange s ->
  blen (ranges_enc s l) <= 16 * Z.of_nat (length l).
Proof.
  revert s. induction l as [|r l IH]; intros s; [done|]. intros (H1 & H2 & H3) Hv.
  cbn [length ranges_enc]. rewrite !blen_app. specialize (IH (Smallest r) H3 ltac:(solve_v)).
  pose proof (Varint.blen_venc (s - Largest r - 2) ltac:(solve_v)).
  pose proof (Varint.blen_venc (Largest r - Smallest r) ltac:(solve_v)). lia.
Qed.

Lemma numEncodable_spec f r l maxSize :
  ack_ok f -> AckRanges f = r :: l -> base_len f r <= maxSize ->
  exists n, numEncodableAckRanges f maxSize = Ok (S n) /\ (n <= length (ws l))%nat /\
    base_len f r + blen (ranges_enc (Smallest r) (take n (ws l))) <= maxSize /\
    ((n < length (ws l))%nat -> maxSize < base_len f r + blen (ranges_enc (Smallest r) (take (S n) (ws l)))).
Proof.
  intros Hok Hf Hbase. pose proof Hok as (_ & _ & Hd & He0 & He1 & He2).
  destruct (delay_roundtrip _ Hd) as [Hvd _].
  destruct (written_facts f r l Hf Hok) as (H1 & Hv1 & Hv2 & Hv3 & Hrs & Hvn & Hn & Hb & Hsplit).
  assert (He : ecn_len f = Ok (blen (ecn_enc f)) /\ blen (ecn_enc f) <= if hasECN f then 24 else 0).
  { unfold ecn_len, ecn_enc. destruct (hasECN f); [|done]. rewrite !Varint.Len_venc by done.
    pose proof (Varint.blen_venc _ He0). pose proof (Varint.blen_venc _ He1).
    pose proof (Varint.blen_venc _ He2). rewrite !blen_app. cbn [mbind res_bind]. split; [by rewrite Z.add_assoc|lia]. }
  destruct He as [He Hel]. unfold numEncodableAckRanges. rewrite Hn.
  match goal with |- context [?a <=? maxSize] => destruct (Z.leb_spec a maxSize) end.
  - exists (length (ws l)). rewrite take_ge by lia. split_and!; [done|lia| |intros; lia].
    pose proof (ranges_enc_short _ _ Hrs Hv2). unfold base_len.
    pose proof (Varint.blen_venc _ Hv1). pose proof (Varint.blen_venc _ Hvd).
    pose proof (Varint.blen_venc _ Hv3). destruct (hasECN f); lia.
  - unfold fixed_len, LargestAcked, encodeAckRange, range_at. rewrite Hf. cbn [lookup list_lookup mbind res_bind].
    rewrite !u64_v, !Varint.Len_venc by done. cbn [mbind res_bind]. rewrite He. cbn [mbind res_bind].
    rewrite Nat.sub_succ, Nat.sub_0_r.
    destruct (fit_ranges_spec f maxSize (ws l) [] r (drop 63 l) (base_len f r)) as (j & Hj & Hrest);
      [done..|]. exists j. split; [|done]. exact Hj.
Qed.

(** [Truncate] leaves a non-empty prefix of at most 64 ranges that fits the size, and as many
    ranges as fit: one more would exceed it.  [AcksPacket] and [validateAckRanges] answer for the
    packets of the ranges. *)
Theorem ack_truncate_correct (f : AckFrame) (maxSize l1 p : Z) :
  ack_ok f -> LengthAckFrame (first_ranges f 1) = Ok l1 -> l1 <= maxSize ->
  validateAckRanges f = true /\
  AcksPacket f p = Ok (existsb (fun r => (Smallest r <=? p) && (p <=? Largest r)) (AckRanges f)) /\
  exists n len, Truncate f maxSize = Ok (first_ranges f n) /\ (1 <= n <= num_ranges f)%nat /\
    LengthAckFrame (first_ranges f n) = Ok len /\ len <= maxSize /\
    ((n < num_ranges f)%nat ->
       exists len', LengthAckFrame (first_ranges f (S n)) = Ok len' /\ maxSize < len').
Proof.
  intros Hok Hl1 Hfit. pose proof Hok as (Hne & Hr & _).
  split; [by eapply ranges_ok_validate|]. split; [by apply AcksPacket_spec|].
  destruct (AckRanges f) as [|r l] eqn:Hf; [done|].
  rewrite (length_first_ranges f r l 0) in Hl1 by (done || lia). rewrite take_0 in Hl1.
  injection Hl1 as <-. cbn [ranges_enc] in Hfit. rewrite blen_nil, Z.add_0_r in Hfit.
  destruct (num_ranges_cons f r l Hf) as [Hn Hw]. fold (ws l) in Hn, Hw.
  destruct (numEncodable_spec f r l maxSize Hok Hf Hfit) as (n & Hnum & Hle & Hlen & Hmax).
  assert (Htake : forall k, (k <= length (ws l))%nat -> take k (ws l) = take k l).
  { intros k Hk. unfold ws in *. rewrite take_take. f_equal. lia. }
  exists (S n), (base_len f r + blen (ranges_enc (Smallest r) (take n (ws l)))).
  unfold Truncate. rewrite Hnum. cbn [mbind res_bind].
  assert (length (ws l) <= length l)%nat by (unfold ws; rewrite length_take; lia).
  rewrite (proj2 (Nat.ltb_ge _ _)) by (rewrite Hf; simpl; lia).
  rewrite Hn. split_and!; try done; [lia..| |].
  - rewrite (length_first_ranges f r l n) by (done || lia). by rewrite Htake by lia.
  - intros Hlt. eexists. rewrite (length_first_ranges f r l (S n)) by (done || lia).
    rewrite <- (Htake (S n)) by lia. split; [done|]. apply Hmax. lia.
Qed.

Lemma ack_truncate_correct_witness :
  let f := mkAck [mkRange 90 100; mkRange 10 20; mkRange 0 3] 16000 0 0 1 in
  exists n len, Truncate f 12 = Ok (first_ranges f n) /\ LengthAckFrame (first_ranges f n) = Ok len /\ len <= 12.
Proof.
  destruct (ack_truncate_correct (mkAck [mkRange 90 100; mkRange 10 20; mkRange 0 3] 16000 0 0 1) 12 9 15)
    as (_ & _ & n & len & Ht & _ & Hl & Hle & _).
  - split_and!; try done; cbn; unfold Varint.maxVarInt8; lia.
  - by vm_compute.
  - lia.
  - by exists n, len.
Defined.

(** The delay of an ACK is replaced by the maximum only when its overflow happens to be negative: a
    delay of 2^61 units becomes zero. *)
Theorem ack_delay_wraps :
  parseAckFrame (Reset (mkAck [] 0 0 0 0)) FrameTypeAck AckDelayExponent
    (venc 0 ++ venc (2 ^ 61) ++ venc 0 ++ venc 0)
  = Ok (mkAck [mkRange 0 0] 0 0 0 0, 11).
Proof. by vm_compute. Qed.

End Ack.
