(* ===== verification/Frames.v ===== *)
(** * The QUIC frames (src/quicfork/internal/wire/*_frame.go)

    Every frame except ACK (AckFrame.v): its record, its parser, [Append] and
    [Length], the splitting of STREAM and CRYPTO frames, and the instances of
    [LawfulCodec].  The [protocol.Version] argument is unused in the source and
    left out.  A byte slice made with [make] and filled with [copy] is
    [make_copy].  A length that was compared with the length of a slice is an
    [int] already, so its conversion is left out. *)

From S2P Require Import Prelude GoBytes Varint Wire.
Local Open Scope Z_scope.

Module Frames.
Import Wire.

Definition MaxByteCount : Z := 2 ^ 62 - 1.
Definition MaxStreamCount : Z := 2 ^ 60.
Definition MaxPacketBufferSize : Z := 1452.
Definition MinStreamFrameBufferSize : Z := 128.
Definition MaxConnIDLen : Z := 20.

(** [d := make([]byte, n); copy(d, b)] *)
Definition make_copy (n : Z) (b : bytes) : bytes := go_copy (go_make n) 0 (Z.to_nat n) b.

Inductive StreamType := StreamTypeUni | StreamTypeBidi.

(** ** Frames with integer fields *)

Record MaxDataFrame := mkMaxData { MaximumData : Z }.

Definition parseMaxDataFrame (b : bytes) : res werr (MaxDataFrame * Z) :=
  '(byteOffset, l) ← vparse b;
  Ok (mkMaxData (i64 byteOffset), l).
Definition AppendMaxDataFrame (b : bytes) (f : MaxDataFrame) : res werr bytes :=
  Varint.Append (b ++ [byte_of_Z FrameTypeMaxData]) (u64 (MaximumData f)).
Definition LengthMaxDataFrame (f : MaxDataFrame) : res werr Z :=
  l ← Varint.Len (u64 (MaximumData f)); Ok (1 + l).

Record DataBlockedFrame := mkDataBlocked { db_MaximumData : Z }.

Definition parseDataBlockedFrame (b : bytes) : res werr (DataBlockedFrame * Z) :=
  '(offset, l) ← vparse b;
  Ok (mkDataBlocked (i64 offset), l).
Definition AppendDataBlockedFrame (b : bytes) (f : DataBlockedFrame) : res werr bytes :=
  Varint.Append (b ++ [byte_of_Z FrameTypeDataBlocked]) (u64 (db_MaximumData f)).
Definition LengthDataBlockedFrame (f : DataBlockedFrame) : res werr Z :=
  l ← Varint.Len (u64 (db_MaximumData f)); Ok (1 + l).

Record RetireConnectionIDFrame := mkRetireConnectionID { rc_SequenceNumber : Z }.

Definition parseRetireConnectionIDFrame (b : bytes) : res werr (RetireConnectionIDFrame * Z) :=
  '(seq, l) ← vparse b;
  Ok (mkRetireConnectionID seq, l).
Definition AppendRetireConnectionIDFrame (b : bytes) (f : RetireConnectionIDFrame) : res werr bytes :=
  Varint.Append (b ++ [byte_of_Z FrameTypeRetireConnectionID]) (rc_SequenceNumber f).
Definition LengthRetireConnectionIDFrame (f : RetireConnectionIDFrame) : res werr Z :=
  l ← Varint.Len (rc_SequenceNumber f); Ok (1 + l).

Record MaxStreamDataFrame := mkMaxStreamData { ms_StreamID : Z; MaximumStreamData : Z }.

Definition parseMaxStreamDataFrame (b : bytes) : res werr (MaxStreamDataFrame * Z) :=
  '(sid, b1) ← next b;
  '(offset, b2) ← next b1;
  Ok (mkMaxStreamData (i64 sid) (i64 offset), blen b - blen b2).
Definition AppendMaxStreamDataFrame (b : bytes) (f : MaxStreamDataFrame) : res werr bytes :=
  b ← Varint.Append (b ++ [byte_of_Z FrameTypeMaxStreamData]) (u64 (ms_StreamID f));
  Varint.Append b (u64 (MaximumStreamData f)).
Definition LengthMaxStreamDataFrame (f : MaxStreamDataFrame) : res werr Z :=
  l1 ← Varint.Len (u64 (ms_StreamID f)); l2 ← Varint.Len (u64 (MaximumStreamData f));
  Ok (1 + (l1 + l2)).

Record StreamDataBlockedFrame := mkStreamDataBlocked { sb_StreamID : Z; sb_MaximumStreamData : Z }.

(** The consumed length adds the last varint instead of advancing the slice. *)
Definition parseStreamDataBlockedFrame (b : bytes) : res werr (StreamDataBlockedFrame * Z) :=
  '(sid, b1) ← next b;
  '(offset, l) ← vparse b1;
  Ok (mkStreamDataBlocked (i64 sid) (i64 offset), blen b - blen b1 + l).
Definition AppendStreamDataBlockedFrame (b : bytes) (f : StreamDataBlockedFrame) : res werr bytes :=
  b ← Varint.Append (b ++ [byte_of_Z 0x15]) (u64 (sb_StreamID f));
  Varint.Append b (u64 (sb_MaximumStreamData f)).
Definition LengthStreamDataBlockedFrame (f : StreamDataBlockedFrame) : res werr Z :=
  l1 ← Varint.Len (u64 (sb_StreamID f)); l2 ← Varint.Len (u64 (sb_MaximumStreamData f));
  Ok (1 + (l1 + l2)).

Record StopSendingFrame := mkStopSending { ss_StreamID : Z; ss_ErrorCode : Z }.

Definition parseStopSendingFrame (b : bytes) : res werr (StopSendingFrame * Z) :=
  '(streamID, b1) ← next b;
  '(errorCode, b2) ← next b1;
  Ok (mkStopSending (i64 streamID) errorCode, blen b - blen b2).
Definition AppendStopSendingFrame (b : bytes) (f : StopSendingFrame) : res werr bytes :=
  b ← Varint.Append (b ++ [byte_of_Z FrameTypeStopSending]) (u64 (ss_StreamID f));
  Varint.Append b (ss_ErrorCode f).
Definition LengthStopSendingFrame (f : StopSendingFrame) : res werr Z :=
  l1 ← Varint.Len (u64 (ss_StreamID f)); l2 ← Varint.Len (ss_ErrorCode f);
  Ok (1 + (l1 + l2)).

Record MaxStreamsFrame := mkMaxStreams { mst_Type : StreamType; MaxStreamNum : Z }.

(** [f.Type] stays the zero value [StreamTypeUni] for another frame type. *)
Definition parseMaxStreamsFrame (typ : Z) (b : bytes) : res werr (MaxStreamsFrame * Z) :=
  let t := if typ =? FrameTypeBidiMaxStreams then StreamTypeBidi else StreamTypeUni in
  '(streamID, l) ← vparse b;
  let num := i64 streamID in
  if MaxStreamCount <? num then Err (errStreamCount num) else
  Ok (mkMaxStreams t num, l).
Definition AppendMaxStreamsFrame (b : bytes) (f : MaxStreamsFrame) : res werr bytes :=
  let b := b ++ [byte_of_Z match mst_Type f with
                           | StreamTypeBidi => FrameTypeBidiMaxStreams
                           | StreamTypeUni => FrameTypeUniMaxStreams
                           end] in
  Varint.Append b (u64 (MaxStreamNum f)).
Definition LengthMaxStreamsFrame (f : MaxStreamsFrame) : res werr Z :=
  l ← Varint.Len (u64 (MaxStreamNum f)); Ok (1 + l).

Record StreamsBlockedFrame := mkStreamsBlocked { stb_Type : StreamType; StreamLimit : Z }.

Definition parseStreamsBlockedFrame (typ : Z) (b : bytes) : res werr (StreamsBlockedFrame * Z) :=
  let t := if typ =? FrameTypeBidiStreamBlocked then StreamTypeBidi else StreamTypeUni in
  '(streamLimit, l) ← vparse b;
  let limit := i64 streamLimit in
  if MaxStreamCount <? limit then Err (errStreamCount limit) else
  Ok (mkStreamsBlocked t limit, l).
Definition AppendStreamsBlockedFrame (b : bytes) (f : StreamsBlockedFrame) : res werr bytes :=
  let b := b ++ [byte_of_Z match stb_Type f with
                           | StreamTypeBidi => FrameTypeBidiStreamBlocked
                           | StreamTypeUni => FrameTypeUniStreamBlocked
                           end] in
  Varint.Append b (u64 (StreamLimit f)).
Definition LengthStreamsBlockedFrame (f : StreamsBlockedFrame) : res werr Z :=
  l ← Varint.Len (u64 (StreamLimit f)); Ok (1 + l).

Record ResetStreamFrame := mkResetStream {
  rs_StreamID : Z; rs_ErrorCode : Z; FinalSize : Z; ReliableSize : Z }.

Definition parseResetStreamFrame (isResetStreamAt : bool) (b : bytes)
    : res werr (ResetStreamFrame * Z) :=
  '(streamID, b1) ← next b;
  '(errorCode, b2) ← next b1;
  '(finalSize, b3) ← next b2;
  '(reliableSize, b4) ← (if isResetStreamAt then next b3 else Ok (0, b3));
  if finalSize <? reliableSize then Err (errReliableSize reliableSize finalSize) else
  Ok (mkResetStream (i64 streamID) errorCode (i64 finalSize) (i64 reliableSize), blen b - blen b4).
Definition AppendResetStreamFrame (b : bytes) (f : ResetStreamFrame) : res werr bytes :=
  b ← Varint.Append b (if ReliableSize f =? 0 then FrameTypeResetStream else FrameTypeResetStreamAt);
  b ← Varint.Append b (u64 (rs_StreamID f));
  b ← Varint.Append b (rs_ErrorCode f);
  b ← Varint.Append b (u64 (FinalSize f));
  if 0 <? ReliableSize f then Varint.Append b (u64 (ReliableSize f)) else Ok b.
Definition LengthResetStreamFrame (f : ResetStreamFrame) : res werr Z :=
  size ← (if 0 <? ReliableSize f then l ← Varint.Len (u64 (ReliableSize f)); Ok (1 + l) else Ok 1);
  l1 ← Varint.Len (u64 (rs_StreamID f)); l2 ← Varint.Len (rs_ErrorCode f);
  l3 ← Varint.Len (u64 (FinalSize f));
  Ok (size + l1 + l2 + l3).

Record AckFrequencyFrame := mkAckFrequency {
  af_SequenceNumber : Z; AckElicitingThreshold : Z; RequestMaxAckDelay : Z; ReorderingThreshold : Z }.

(** [RequestMaxAckDelay] is a [time.Duration] in nanoseconds. *)
Definition parseAckFrequencyFrame (b : bytes) : res werr (AckFrequencyFrame * Z) :=
  '(seq, b1) ← next b;
  '(aeth, b2) ← next b1;
  '(mad, b3) ← next b2;
  let maxAckDelay := i64 (i64 mad * 1000) in
  let maxAckDelay := if maxAckDelay <? 0 then 2 ^ 63 - 1 else maxAckDelay in
  '(rth, b4) ← next b3;
  Ok (mkAckFrequency seq aeth maxAckDelay (i64 rth), blen b - blen b4).
Definition AppendAckFrequencyFrame (b : bytes) (f : AckFrequencyFrame) : res werr bytes :=
  b ← Varint.Append b FrameTypeAckFrequency;
  b ← Varint.Append b (af_SequenceNumber f);
  b ← Varint.Append b (AckElicitingThreshold f);
  b ← Varint.Append b (u64 (Z.quot (RequestMaxAckDelay f) 1000));
  Varint.Append b (u64 (ReorderingThreshold f)).
Definition LengthAckFrequencyFrame (f : AckFrequencyFrame) : res werr Z :=
  l1 ← Varint.Len (af_SequenceNumber f); l2 ← Varint.Len (AckElicitingThreshold f);
  l3 ← Varint.Len (u64 (Z.quot (RequestMaxAckDelay f) 1000));
  l4 ← Varint.Len (u64 (ReorderingThreshold f));
  Ok (2 + l1 + l2 + l3 + l4).

(** ** Frames without fields *)

Definition AppendPingFrame (b : bytes) : res werr bytes := Ok (b ++ [byte_of_Z FrameTypePing]).
Definition LengthPingFrame : res werr Z := Ok 1.
Definition AppendHandshakeDoneFrame (b : bytes) : res werr bytes :=
  Ok (b ++ [byte_of_Z FrameTypeHandshakeDone]).
Definition LengthHandshakeDoneFrame : res werr Z := Ok 1.
Definition AppendImmediateAckFrame (b : bytes) : res werr bytes := Varint.Append b FrameTypeImmediateAck.
Definition LengthImmediateAckFrame : res werr Z := Varint.Len FrameTypeImmediateAck.

(** ** Frames with data *)

Record PathChallengeFrame := mkPathChallenge { pc_Data : bytes }.

(** [copy(f.Data[:], b)] into an array of 8 bytes. *)
Definition parsePathChallengeFrame (b : bytes) : res werr (PathChallengeFrame * Z) :=
  if blen b <? 8 then Err (WIO EOF) else Ok (mkPathChallenge (make_copy 8 b), 8).
Definition AppendPathChallengeFrame (b : bytes) (f : PathChallengeFrame) : res werr bytes :=
  Ok (b ++ [byte_of_Z FrameTypePathChallenge] ++ pc_Data f).
Definition LengthPathChallengeFrame (f : PathChallengeFrame) : res werr Z := Ok (1 + 8).

Record PathResponseFrame := mkPathResponse { pr_Data : bytes }.

Definition parsePathResponseFrame (b : bytes) : res werr (PathResponseFrame * Z) :=
  if blen b <? 8 then Err (WIO EOF) else Ok (mkPathResponse (make_copy 8 b), 8).
Definition AppendPathResponseFrame (b : bytes) (f : PathResponseFrame) : res werr bytes :=
  Ok (b ++ [byte_of_Z FrameTypePathResponse] ++ pr_Data f).
Definition LengthPathResponseFrame (f : PathResponseFrame) : res werr Z := Ok (1 + 8).

Record NewTokenFrame := mkNewToken { Token : bytes }.

Definition parseNewTokenFrame (b : bytes) : res werr (NewTokenFrame * Z) :=
  '(tokenLen, l) ← vparse b;
  b' ← go_slice b l (blen b);
  if tokenLen =? 0 then Err errEmptyToken else
  if blen b' <? tokenLen then Err (WIO EOF) else
  Ok (mkNewToken (make_copy tokenLen b'), l + i64 tokenLen).
Definition AppendNewTokenFrame (b : bytes) (f : NewTokenFrame) : res werr bytes :=
  b ← Varint.Append (b ++ [byte_of_Z FrameTypeNewToken]) (blen (Token f));
  Ok (b ++ Token f).
Definition LengthNewTokenFrame (f : NewTokenFrame) : res werr Z :=
  l ← Varint.Len (blen (Token f)); Ok (1 + (l + blen (Token f))).

Record ConnectionCloseFrame := mkConnectionClose {
  IsApplicationError : bool; cc_ErrorCode : Z; cc_FrameType : Z; ReasonPhrase : string }.

Definition parseConnectionCloseFrame (typ : Z) (b : bytes) : res werr (ConnectionCloseFrame * Z) :=
  let app := typ =? FrameTypeApplicationClose in
  '(ec, b1) ← next b;
  '(ft, b2) ← (if negb app then next b1 else Ok (0, b1));
  '(reasonPhraseLen, b3) ← next b2;
  if blen b3 <? i64 reasonPhraseLen then Err (WIO EOF) else
  Ok (mkConnectionClose app ec ft (bytes_str (make_copy reasonPhraseLen b3)),
      blen b - blen b3 + i64 reasonPhraseLen).
Definition AppendConnectionCloseFrame (b : bytes) (f : ConnectionCloseFrame) : res werr bytes :=
  let reason := str_bytes (ReasonPhrase f) in
  let b := b ++ [byte_of_Z (if IsApplicationError f then FrameTypeApplicationClose
                            else FrameTypeConnectionClose)] in
  b ← Varint.Append b (cc_ErrorCode f);
  b ← (if negb (IsApplicationError f) then Varint.Append b (cc_FrameType f) else Ok b);
  b ← Varint.Append b (blen reason);
  Ok (b ++ reason).
Definition LengthConnectionCloseFrame (f : ConnectionCloseFrame) : res werr Z :=
  let reason := str_bytes (ReasonPhrase f) in
  l1 ← Varint.Len (cc_ErrorCode f); l2 ← Varint.Len (blen reason);
  let length := 1 + (l1 + l2) + blen reason in
  if negb (IsApplicationError f) then l3 ← Varint.Len (cc_FrameType f); Ok (length + l3) else Ok length.

(** A [ConnectionID] is the bytes it holds. *)
Definition ParseConnectionID (b : bytes) : res werr bytes :=
  if 20 <? blen b then Panic else Ok b.

Record NewConnectionIDFrame := mkNewConnectionID {
  nc_SequenceNumber : Z; RetirePriorTo : Z; ConnectionID : bytes; StatelessResetToken : bytes }.

Definition parseNewConnectionIDFrame (b : bytes) : res werr (NewConnectionIDFrame * Z) :=
  '(seq, b1) ← next b;
  '(ret, b2) ← next b1;
  if seq <? ret then Err (errRetirePriorTo ret seq) else
  if blen b2 =? 0 then Err (WIO EOF) else
  connIDLen ← go_index b2 0;
  b3 ← go_slice b2 1 (blen b2);
  if connIDLen =? 0 then Err errZeroConnID else
  if MaxConnIDLen <? connIDLen then Err ErrInvalidConnectionIDLen else
  if blen b3 <? connIDLen then Err (WIO EOF) else
  idb ← go_slice b3 0 connIDLen;
  id ← ParseConnectionID idb;
  b4 ← go_slice b3 connIDLen (blen b3);
  if blen b4 <? 16 then Err (WIO EOF) else
  Ok (mkNewConnectionID seq ret id (make_copy 16 b4), blen b - blen b4 + 16).
Definition AppendNewConnectionIDFrame (b : bytes) (f : NewConnectionIDFrame) : res werr bytes :=
  b ← Varint.Append (b ++ [byte_of_Z FrameTypeNewConnectionID]) (nc_SequenceNumber f);
  b ← Varint.Append b (RetirePriorTo f);
  let connIDLen := blen (ConnectionID f) in
  if MaxConnIDLen <? connIDLen then Err (errConnIDLen connIDLen) else
  Ok (b ++ [byte_of_Z connIDLen] ++ ConnectionID f ++ StatelessResetToken f).
Definition LengthNewConnectionIDFrame (f : NewConnectionIDFrame) : res werr Z :=
  l1 ← Varint.Len (nc_SequenceNumber f); l2 ← Varint.Len (RetirePriorTo f);
  Ok (1 + (l1 + l2 + 1 + blen (ConnectionID f)) + 16).

Record CryptoFrame := mkCrypto { cr_Offset : Z; cr_Data : bytes }.

Definition parseCryptoFrame (b : bytes) : res werr (CryptoFrame * Z) :=
  '(offset, b1) ← next b;
  '(dataLen, b2) ← next b1;
  if blen b2 <? dataLen then Err (WIO EOF) else
  let data := if negb (dataLen =? 0) then make_copy dataLen b2 else [] in
  Ok (mkCrypto (i64 offset) data, blen b - blen b2 + i64 dataLen).
Definition AppendCryptoFrame (b : bytes) (f : CryptoFrame) : res werr bytes :=
  b ← Varint.Append (b ++ [byte_of_Z FrameTypeCrypto]) (u64 (cr_Offset f));
  b ← Varint.Append b (blen (cr_Data f));
  Ok (b ++ cr_Data f).
Definition LengthCryptoFrame (f : CryptoFrame) : res werr Z :=
  l1 ← Varint.Len (u64 (cr_Offset f)); l2 ← Varint.Len (blen (cr_Data f));
  Ok (1 + l1 + l2 + blen (cr_Data f)).
Definition MaxDataLenCryptoFrame (f : CryptoFrame) (maxSize : Z) : res werr Z :=
  l ← Varint.Len (u64 (cr_Offset f));
  let headerLen := 1 + l + 1 in
  if maxSize <? headerLen then Ok 0 else
  let maxDataLen := maxSize - headerLen in
  k ← Varint.Len (u64 maxDataLen);
  Ok (if negb (k =? 1) then maxDataLen - 1 else maxDataLen).

(** [f.MaybeSplitOffFrame(maxSize)]: the frame split off ([None]: nil), whether
    splitting was required, and [f] afterwards. *)
Definition SplitCryptoFrame (f : CryptoFrame) (maxSize : Z)
    : res werr (option CryptoFrame * bool * CryptoFrame) :=
  len ← LengthCryptoFrame f;
  if len <=? maxSize then Ok (None, false, f) else
  n ← MaxDataLenCryptoFrame f maxSize;
  if n =? 0 then Ok (None, true, f) else
  let newLen := blen (cr_Data f) - n in
  if newLen <? 0 then Panic else
  tail ← go_slice (cr_Data f) n (blen (cr_Data f));
  head ← go_slice (cr_Data f) 0 n;
  Ok (Some (mkCrypto (cr_Offset f) head), true,
      mkCrypto (i64 (cr_Offset f + n)) (make_copy newLen tail)).

Record DatagramFrame := mkDatagram { dg_DataLenPresent : bool; dg_Data : bytes }.

Definition parseDatagramFrame (typ : Z) (b : bytes) : res werr (DatagramFrame * Z) :=
  let dataLenPresent := 0 <? Z.land typ 1 in
  '(length, b') ← (if dataLenPresent then
                     '(length, b') ← next b;
                     if blen b' <? length then Err (WIO EOF) else Ok (length, b')
                   else Ok (blen b, b));
  Ok (mkDatagram dataLenPresent (make_copy length b'), blen b - blen b' + length).
Definition AppendDatagramFrame (b : bytes) (f : DatagramFrame) : res werr bytes :=
  let typ := if dg_DataLenPresent f then Z.lxor 0x30 1 else 0x30 in
  let b := b ++ [byte_of_Z typ] in
  b ← (if dg_DataLenPresent f then Varint.Append b (blen (dg_Data f)) else Ok b);
  Ok (b ++ dg_Data f).
Definition LengthDatagramFrame (f : DatagramFrame) : res werr Z :=
  let length := 1 + blen (dg_Data f) in
  if dg_DataLenPresent f then l ← Varint.Len (blen (dg_Data f)); Ok (length + l) else Ok length.
Definition MaxDataLenDatagramFrame (f : DatagramFrame) (maxSize : Z) : res werr Z :=
  let headerLen := if dg_DataLenPresent f then 2 else 1 in
  if maxSize <? headerLen then Ok 0 else
  let maxDataLen := maxSize - headerLen in
  if dg_DataLenPresent f then
    k ← Varint.Len (u64 maxDataLen);
    Ok (if negb (k =? 1) then maxDataLen - 1 else maxDataLen)
  else Ok maxDataLen.

(** ** STREAM frames *)

Record StreamFrame := mkStream {
  StreamID : Z; Offset : Z; Data : bytes; Fin : bool; DataLenPresent : bool; fromPool : bool }.

(** The buffer of a pooled frame has the capacity of a packet (pool.go). *)
Definition ParseStreamFrame (typ : Z) (b : bytes) : res werr (StreamFrame * Z) :=
  let hasOffset := 0 <? Z.land typ 4 in
  let fin := 0 <? Z.land typ 1 in
  let hasDataLen := 0 <? Z.land typ 2 in
  '(streamID, b1) ← next b;
  '(offset, b2) ← (if hasOffset then next b1 else Ok (0, b1));
  '(dataLen, b3) ← (if hasDataLen then
                      '(dataLen, b3) ← next b2;
                      if blen b3 <? dataLen then Err (WIO EOF) else Ok (dataLen, b3)
                    else Ok (blen b2, b2));
  let pooled := negb (dataLen <? MinStreamFrameBufferSize) in
  if pooled && (MaxPacketBufferSize <? dataLen) then Err (WIO EOF) else
  let frame := mkStream (i64 streamID) (i64 offset) (make_copy dataLen b3) fin hasDataLen pooled in
  if MaxByteCount <? i64 (Offset frame + blen (Data frame)) then Err errStreamOverflow else
  Ok (frame, blen b - blen b3 + dataLen).

(** The type byte of a STREAM frame. *)
Definition stream_type (f : StreamFrame) : Z :=
  let typ := 0x8 in
  let typ := if Fin f then Z.lxor typ 1 else typ in
  let typ := if DataLenPresent f then Z.lxor typ 2 else typ in
  if negb (Offset f =? 0) then Z.lxor typ 4 else typ.

Definition AppendStreamFrame (b : bytes) (f : StreamFrame) : res werr bytes :=
  if (blen (Data f) =? 0) && negb (Fin f) then Err errEmptyStreamFrame else
  let hasOffset := negb (Offset f =? 0) in
  let b := b ++ [byte_of_Z (stream_type f)] in
  b ← Varint.Append b (u64 (StreamID f));
  b ← (if hasOffset then Varint.Append b (u64 (Offset f)) else Ok b);
  b ← (if DataLenPresent f then Varint.Append b (blen (Data f)) else Ok b);
  Ok (b ++ Data f).
Definition LengthStreamFrame (f : StreamFrame) : res werr Z :=
  l1 ← Varint.Len (u64 (StreamID f));
  l2 ← (if negb (Offset f =? 0) then Varint.Len (u64 (Offset f)) else Ok 0);
  l3 ← (if DataLenPresent f then Varint.Len (blen (Data f)) else Ok 0);
  Ok (1 + l1 + l2 + l3 + blen (Data f)).
Definition MaxDataLenStreamFrame (f : StreamFrame) (maxSize : Z) : res werr Z :=
  l1 ← Varint.Len (u64 (StreamID f));
  l2 ← (if negb (Offset f =? 0) then Varint.Len (u64 (Offset f)) else Ok 0);
  let headerLen := 1 + l1 + l2 in
  let headerLen := if DataLenPresent f then headerLen + 1 else headerLen in
  if maxSize <? headerLen then Ok 0 else
  let maxDataLen := maxSize - headerLen in
  if DataLenPresent f then
    k ← Varint.Len (u64 maxDataLen);
    Ok (if negb (k =? 1) then maxDataLen - 1 else maxDataLen)
  else Ok maxDataLen.

(** [f.MaybeSplitOffFrame(maxSize)]: the data slices are swapped with those of a
    pooled frame, whose buffer has the capacity of a packet; reslicing it beyond
    that panics. *)
Definition SplitStreamFrame (f : StreamFrame) (maxSize : Z)
    : res werr (option StreamFrame * bool * StreamFrame) :=
  len ← LengthStreamFrame f;
  if len <=? maxSize then Ok (None, false, f) else
  n ← MaxDataLenStreamFrame f maxSize;
  if n =? 0 then Ok (None, true, f) else
  let rest := blen (Data f) - n in
  if (rest <? 0) || (MaxPacketBufferSize <? rest) then Panic else
  tail ← go_slice (Data f) n (blen (Data f));
  head ← go_slice (Data f) 0 n;
  Ok (Some (mkStream (StreamID f) (Offset f) head false (DataLenPresent f) (fromPool f)), true,
      mkStream (StreamID f) (i64 (Offset f + n)) (make_copy rest tail) (Fin f) (DataLenPresent f) true).

(** ** The codecs *)

Lemma make_copy_app d rest : make_copy (blen d) (d ++ rest) = d.
Proof.
  unfold make_copy, go_copy, go_make, blen. rewrite !Nat2Z.id, length_app, Nat.sub_0_r, Nat.min_l by lia.
  rewrite take_0, take_app_length, drop_ge by (rewrite length_replicate; lia). by rewrite app_nil_r.
Qed.

Lemma make_copy_take n b : 0 <= n <= blen b -> make_copy n b = take (Z.to_nat n) b.
Proof.
  intros. rewrite <- (take_drop (Z.to_nat n) b) at 1.
  replace n with (blen (take (Z.to_nat n) b)) at 1 by (unfold blen in *; rewrite length_take; lia).
  apply make_copy_app.
Qed.

Lemma make_copy_app' n d rest : n = blen d -> make_copy n (d ++ rest) = d.
Proof. intros ->. apply make_copy_app. Qed.

Lemma blen_make_copy n b : 0 <= n <= blen b -> blen (make_copy n b) = n.
Proof. intros. rewrite make_copy_take by done. unfold blen in *. rewrite length_take. lia. Qed.

Ltac lawful C := constructor; cbn [frame_type Append Length parse encodable delimited received C].

#[export] Instance MaxData_codec : Codec MaxDataFrame := {
  frame_type _ := FrameTypeMaxData; Append := AppendMaxDataFrame; Length := LengthMaxDataFrame;
  parse _ := parseMaxDataFrame; encodable f := vrange (MaximumData f);
  delimited _ := true; received f := f }.
#[export] Instance MaxData_lawful : LawfulCodec MaxDataFrame.
Proof.
  lawful MaxData_codec; unfold AppendMaxDataFrame, LengthMaxDataFrame, parseMaxDataFrame.
  - intros [m] Hm; simpl in *. split; [solve_v|]. exists (venc m). codec_all.
  - intros _ b. codec_bounds.
Qed.

#[export] Instance DataBlocked_codec : Codec DataBlockedFrame := {
  frame_type _ := FrameTypeDataBlocked; Append := AppendDataBlockedFrame;
  Length := LengthDataBlockedFrame; parse _ := parseDataBlockedFrame;
  encodable f := vrange (db_MaximumData f); delimited _ := true; received f := f }.
#[export] Instance DataBlocked_lawful : LawfulCodec DataBlockedFrame.
Proof.
  lawful DataBlocked_codec; unfold AppendDataBlockedFrame, LengthDataBlockedFrame, parseDataBlockedFrame.
  - intros [m] Hm; simpl in *. split; [solve_v|]. exists (venc m). codec_all.
  - intros _ b. codec_bounds.
Qed.

#[export] Instance RetireConnectionID_codec : Codec RetireConnectionIDFrame := {
  frame_type _ := FrameTypeRetireConnectionID; Append := AppendRetireConnectionIDFrame;
  Length := LengthRetireConnectionIDFrame; parse _ := parseRetireConnectionIDFrame;
  encodable f := vrange (rc_SequenceNumber f); delimited _ := true; received f := f }.
#[export] Instance RetireConnectionID_lawful : LawfulCodec RetireConnectionIDFrame.
Proof.
  lawful RetireConnectionID_codec;
    unfold AppendRetireConnectionIDFrame, LengthRetireConnectionIDFrame, parseRetireConnectionIDFrame.
  - intros [m] Hm; simpl in *. split; [solve_v|]. exists (venc m). codec_all.
  - intros _ b. codec_bounds.
Qed.

#[export] Instance MaxStreamData_codec : Codec MaxStreamDataFrame := {
  frame_type _ := FrameTypeMaxStreamData; Append := AppendMaxStreamDataFrame;
  Length := LengthMaxStreamDataFrame; parse _ := parseMaxStreamDataFrame;
  encodable f := vrange (ms_StreamID f) /\ vrange (MaximumStreamData f);
  delimited _ := true; received f := f }.
#[export] Instance MaxStreamData_lawful : LawfulCodec MaxStreamDataFrame.
Proof.
  lawful MaxStreamData_codec;
    unfold AppendMaxStreamDataFrame, LengthMaxStreamDataFrame, parseMaxStreamDataFrame.
  - intros [i m] [Hi Hm]; simpl in *. split; [solve_v|]. exists (venc i ++ venc m). codec_all.
  - intros _ b. codec_bounds.
Qed.

#[export] Instance StreamDataBlocked_codec : Codec StreamDataBlockedFrame := {
  frame_type _ := FrameTypeStreamDataBlocked; Append := AppendStreamDataBlockedFrame;
  Length := LengthStreamDataBlockedFrame; parse _ := parseStreamDataBlockedFrame;
  encodable f := vrange (sb_StreamID f) /\ vrange (sb_MaximumStreamData f);
  delimited _ := true; received f := f }.
#[export] Instance StreamDataBlocked_lawful : LawfulCodec StreamDataBlockedFrame.
Proof.
  lawful StreamDataBlocked_codec;
    unfold AppendStreamDataBlockedFrame, LengthStreamDataBlockedFrame, parseStreamDataBlockedFrame.
  - intros [i m] [Hi Hm]; simpl in *. split; [solve_v|]. exists (venc i ++ venc m). codec_all.
  - intros _ b. codec_bounds.
Qed.

#[export] Instance StopSending_codec : Codec StopSendingFrame := {
  frame_type _ := FrameTypeStopSending; Append := AppendStopSendingFrame;
  Length := LengthStopSendingFrame; parse _ := parseStopSendingFrame;
  encodable f := vrange (ss_StreamID f) /\ vrange (ss_ErrorCode f);
  delimited _ := true; received f := f }.
#[export] Instance StopSending_lawful : LawfulCodec StopSendingFrame.
Proof.
  lawful StopSending_codec; unfold AppendStopSendingFrame, LengthStopSendingFrame, parseStopSendingFrame.
  - intros [i m] [Hi Hm]; simpl in *. split; [solve_v|]. exists (venc i ++ venc m). codec_all.
  - intros _ b. codec_bounds.
Qed.

#[export] Instance MaxStreams_codec : Codec MaxStreamsFrame := {
  frame_type f := match mst_Type f with StreamTypeBidi => FrameTypeBidiMaxStreams
                                      | StreamTypeUni => FrameTypeUniMaxStreams end;
  Append := AppendMaxStreamsFrame; Length := LengthMaxStreamsFrame; parse := parseMaxStreamsFrame;
  encodable f := 0 <= MaxStreamNum f <= MaxStreamCount; delimited _ := true; received f := f }.
#[export] Instance MaxStreams_lawful : LawfulCodec MaxStreamsFrame.
Proof.
  lawful MaxStreams_codec;
    unfold AppendMaxStreamsFrame, LengthMaxStreamsFrame, parseMaxStreamsFrame.
  - intros [t m] Hm; simpl in *. unfold MaxStreamCount in *. split; [by destruct t; solve_v|].
    exists (venc m). split_and!; [intros b; destruct t; codec_append|destruct t; codec_length|].
    intros rest _. codec_parse. rewrite (proj2 (Z.ltb_ge _ m)) by lia. destruct t; codec_done.
  - intros t b. codec_bounds.
Qed.

#[export] Instance StreamsBlocked_codec : Codec StreamsBlockedFrame := {
  frame_type f := match stb_Type f with StreamTypeBidi => FrameTypeBidiStreamBlocked
                                      | StreamTypeUni => FrameTypeUniStreamBlocked end;
  Append := AppendStreamsBlockedFrame; Length := LengthStreamsBlockedFrame;
  parse := parseStreamsBlockedFrame;
  encodable f := 0 <= StreamLimit f <= MaxStreamCount; delimited _ := true; received f := f }.
#[export] Instance StreamsBlocked_lawful : LawfulCodec StreamsBlockedFrame.
Proof.
  lawful StreamsBlocked_codec;
    unfold AppendStreamsBlockedFrame, LengthStreamsBlockedFrame, parseStreamsBlockedFrame.
  - intros [t m] Hm; simpl in *. unfold MaxStreamCount in *. split; [by destruct t; solve_v|].
    exists (venc m). split_and!; [intros b; destruct t; codec_append|destruct t; codec_length|].
    intros rest _. codec_parse. rewrite (proj2 (Z.ltb_ge _ m)) by lia. destruct t; codec_done.
  - intros t b. codec_bounds.
Qed.

#[export] Instance ResetStream_codec : Codec ResetStreamFrame := {
  frame_type f := if ReliableSize f =? 0 then FrameTypeResetStream else FrameTypeResetStreamAt;
  Append := AppendResetStreamFrame; Length := LengthResetStreamFrame;
  parse t := parseResetStreamFrame (t =? FrameTypeResetStreamAt);
  encodable f := vrange (rs_StreamID f) /\ vrange (rs_ErrorCode f) /\ vrange (FinalSize f) /\
                 0 <= ReliableSize f <= FinalSize f;
  delimited _ := true; received f := f }.
#[export] Instance ResetStream_lawful : LawfulCodec ResetStreamFrame.
Proof.
  lawful ResetStream_codec;
    unfold AppendResetStreamFrame, LengthResetStreamFrame, parseResetStreamFrame.
  - intros [i e s r] (Hi & He & Hs & Hr);
      cbn [rs_StreamID rs_ErrorCode FinalSize ReliableSize] in *.
    assert (vrange r) by solve_v.
    destruct (Z.eqb_spec r 0) as [->|Hr0]; (split; [solve_v|]).
    + exists (venc i ++ venc e ++ venc s). change (0 <? 0) with false. cbn [mbind res_bind].
      split_and!; [intros b; codec_append|codec_length|].
      change (FrameTypeResetStream =? FrameTypeResetStreamAt) with false.
      intros rest _; codec_parse.
      rewrite (proj2 (Z.ltb_ge s 0)) by solve_v. codec_parse. codec_done.
    + exists (venc i ++ venc e ++ venc s ++ venc r). rewrite !(proj2 (Z.ltb_lt 0 r)) by lia.
      split_and!; [intros b; codec_append|codec_length|].
      change (FrameTypeResetStreamAt =? FrameTypeResetStreamAt) with true.
      intros rest _; codec_parse.
      rewrite (proj2 (Z.ltb_ge s r)) by lia. codec_parse. codec_done.
  - intros t b. codec_bounds.
Qed.

#[export] Instance AckFrequency_codec : Codec AckFrequencyFrame := {
  frame_type _ := FrameTypeAckFrequency; Append := AppendAckFrequencyFrame;
  Length := LengthAckFrequencyFrame; parse _ := parseAckFrequencyFrame;
  encodable f := vrange (af_SequenceNumber f) /\ vrange (AckElicitingThreshold f) /\
                 0 <= RequestMaxAckDelay f < 2 ^ 63 /\ vrange (ReorderingThreshold f);
  delimited _ := true;
  received f := mkAckFrequency (af_SequenceNumber f) (AckElicitingThreshold f)
                  (RequestMaxAckDelay f / 1000 * 1000) (ReorderingThreshold f) }.
#[export] Instance AckFrequency_lawful : LawfulCodec AckFrequencyFrame.
Proof.
  lawful AckFrequency_codec;
    unfold AppendAckFrequencyFrame, LengthAckFrequencyFrame, parseAckFrequencyFrame.
  - intros [s t d r] (Hs & Ht & Hd & Hr);
      cbn [af_SequenceNumber AckElicitingThreshold RequestMaxAckDelay ReorderingThreshold] in *.
    rewrite Z.quot_div_nonneg by lia. assert (Hd' : 0 <= d / 1000 * 1000 <= d) by dlia.
    assert (vrange (d / 1000)) by solve_v. split; [solve_v|].
    exists (venc s ++ venc t ++ venc (d / 1000) ++ venc r).
    assert (blen (venc FrameTypeAckFrequency) = 2) by done.
    split_and!; [intros b; codec_append|codec_length|].
    intros rest _. codec_parse. rewrite !i64_small by lia.
    rewrite (proj2 (Z.ltb_ge _ 0)) by lia. codec_done.
  - intros t b. repeat codec_step; codec_bounds.
Qed.

#[export] Instance PathChallenge_codec : Codec PathChallengeFrame := {
  frame_type _ := FrameTypePathChallenge; Append := AppendPathChallengeFrame;
  Length := LengthPathChallengeFrame; parse _ := parsePathChallengeFrame;
  encodable f := blen (pc_Data f) = 8; delimited _ := true; received f := f }.
#[export] Instance PathChallenge_lawful : LawfulCodec PathChallengeFrame.
Proof.
  lawful PathChallenge_codec;
    unfold AppendPathChallengeFrame, LengthPathChallengeFrame, parsePathChallengeFrame.
  - intros [d] Hd; cbn [pc_Data] in *. split; [solve_v|]. exists d.
    split_and!; [intros b; codec_append|codec_length|]. intros rest _.
    rewrite blen_app, (proj2 (Z.ltb_ge _ 8)) by (pose proof (blen_nonneg rest); lia).
    rewrite make_copy_app' by lia. codec_done.
  - intros t b. codec_bounds.
Qed.

#[export] Instance PathResponse_codec : Codec PathResponseFrame := {
  frame_type _ := FrameTypePathResponse; Append := AppendPathResponseFrame;
  Length := LengthPathResponseFrame; parse _ := parsePathResponseFrame;
  encodable f := blen (pr_Data f) = 8; delimited _ := true; received f := f }.
#[export] Instance PathResponse_lawful : LawfulCodec PathResponseFrame.
Proof.
  lawful PathResponse_codec;
    unfold AppendPathResponseFrame, LengthPathResponseFrame, parsePathResponseFrame.
  - intros [d] Hd; cbn [pr_Data] in *. split; [solve_v|]. exists d.
    split_and!; [intros b; codec_append|codec_length|]. intros rest _.
    rewrite blen_app, (proj2 (Z.ltb_ge _ 8)) by (pose proof (blen_nonneg rest); lia).
    rewrite make_copy_app' by lia. codec_done.
  - intros t b. codec_bounds.
Qed.

(** The bytes of a field of announced length are there. *)
Ltac data_at d rest :=
  rewrite ?blen_app, (proj2 (Z.ltb_ge (blen d + blen rest) _)) by (pose proof (blen_nonneg rest); lia);
  cbn [mbind res_bind]; rewrite ?make_copy_app.

#[export] Instance NewToken_codec : Codec NewTokenFrame := {
  frame_type _ := FrameTypeNewToken; Append := AppendNewTokenFrame; Length := LengthNewTokenFrame;
  parse _ := parseNewTokenFrame; encodable f := Token f <> [] /\ vrange (blen (Token f));
  delimited _ := true; received f := f }.
#[export] Instance NewToken_lawful : LawfulCodec NewTokenFrame.
Proof.
  lawful NewToken_codec; unfold AppendNewTokenFrame, LengthNewTokenFrame, parseNewTokenFrame.
  - intros [d] [Hne Hd]; cbn [Token] in *. split; [solve_v|]. exists (venc (blen d) ++ d).
    split_and!; [intros b; codec_append|codec_length|]. intros rest _. codec_parse.
    pose proof (blen_nonneg (venc (blen d))). pose proof (blen_nonneg (d ++ rest)).
    rewrite go_slice_from by (rewrite blen_app; lia). cbn [mbind res_bind].
    rewrite drop_app_length' by (unfold blen; lia).
    rewrite (proj2 (Z.eqb_neq (blen d) 0)) by (destruct d; [done|rewrite blen_cons; pose proof (blen_nonneg d); lia]).
    data_at d rest. codec_parse. codec_done.
  - intros t b. codec_step. rewrite go_slice_from by lia. cbn [mbind res_bind].
    repeat codec_step. zb. rewrite i64_v by done. unfold vrange in *.
    unfold blen in *. rewrite length_drop in *. lia.
Qed.

#[export] Instance ConnectionClose_codec : Codec ConnectionCloseFrame := {
  frame_type f := if IsApplicationError f then FrameTypeApplicationClose else FrameTypeConnectionClose;
  Append := AppendConnectionCloseFrame; Length := LengthConnectionCloseFrame;
  parse := parseConnectionCloseFrame;
  encodable f := vrange (cc_ErrorCode f) /\ vrange (cc_FrameType f) /\
                 (IsApplicationError f = true -> cc_FrameType f = 0) /\
                 vrange (blen (str_bytes (ReasonPhrase f)));
  delimited _ := true; received f := f }.
#[export] Instance ConnectionClose_lawful : LawfulCodec ConnectionCloseFrame.
Proof.
  lawful ConnectionClose_codec;
    unfold AppendConnectionCloseFrame, LengthConnectionCloseFrame, parseConnectionCloseFrame.
  - intros [a e t r] (He & Ht & Ha & Hr);
      cbn [IsApplicationError cc_ErrorCode cc_FrameType ReasonPhrase] in *.
    split; [by destruct a; solve_v|]. set (d := str_bytes r) in *.
    destruct a; cbn [negb].
    + exists (venc e ++ venc (blen d) ++ d).
      split_and!; [intros b; codec_append|codec_length|]. intros rest _.
      change (FrameTypeApplicationClose =? FrameTypeApplicationClose) with true. cbn [negb].
      codec_parse. data_at d rest. rewrite Ha by done. unfold d. rewrite bytes_str_bytes. codec_done.
    + exists (venc e ++ venc t ++ venc (blen d) ++ d).
      split_and!; [intros b; codec_append|codec_length|]. intros rest _.
      change (FrameTypeConnectionClose =? FrameTypeApplicationClose) with false. cbn [negb].
      codec_parse. data_at d rest. unfold d. rewrite bytes_str_bytes. codec_done.
  - intros t b. destruct (t =? FrameTypeApplicationClose); cbn [negb]; codec_bounds.
Qed.

#[export] Instance NewConnectionID_codec : Codec NewConnectionIDFrame := {
  frame_type _ := FrameTypeNewConnectionID; Append := AppendNewConnectionIDFrame;
  Length := LengthNewConnectionIDFrame; parse _ := parseNewConnectionIDFrame;
  encodable f := vrange (nc_SequenceNumber f) /\ 0 <= RetirePriorTo f <= nc_SequenceNumber f /\
                 1 <= blen (ConnectionID f) <= 20 /\ blen (StatelessResetToken f) = 16;
  delimited _ := true; received f := f }.
#[export] Instance NewConnectionID_lawful : LawfulCodec NewConnectionIDFrame.
Proof.
  lawful NewConnectionID_codec;
    unfold AppendNewConnectionIDFrame, LengthNewConnectionIDFrame, parseNewConnectionIDFrame, MaxConnIDLen.
  - intros [s r c k] (Hs & Hr & Hc & Hk);
      cbn [nc_SequenceNumber RetirePriorTo ConnectionID StatelessResetToken] in *.
    assert (vrange r) by solve_v. split; [solve_v|].
    exists (venc s ++ venc r ++ [byte_of_Z (blen c)] ++ c ++ k).
    rewrite (proj2 (Z.ltb_ge 20 _)) by lia.
    split_and!; [intros b; codec_append|codec_length|]. intros rest _. codec_parse.
    rewrite (proj2 (Z.ltb_ge s r)) by lia. cbn [app].
    set (t := c ++ k ++ rest). set (n := byte_of_Z (blen c)).
    assert (Hlen : blen t = blen c + blen k + blen rest) by (unfold t; rewrite !blen_app; lia).
    pose proof (blen_nonneg rest).
    rewrite (proj2 (Z.eqb_neq (blen (n :: t)) 0)) by (rewrite blen_cons; lia).
    change (go_index (n :: t) 0) with (Ok (E:=werr) (Z_of_byte n)). cbn [mbind res_bind].
    rewrite go_slice_from by (rewrite blen_cons; lia). cbn [mbind res_bind].
    change (drop (Z.to_nat 1) (n :: t)) with t. unfold n. rewrite byte_of_Z_small by lia.
    rewrite (proj2 (Z.eqb_neq (blen c) 0)), (proj2 (Z.ltb_ge 20 (blen c))),
      (proj2 (Z.ltb_ge (blen t) (blen c))) by lia.
    rewrite (go_slice_at _ [] c (k ++ rest) t 0 (blen c)); [|done|done|lia]. cbn [mbind res_bind].
    unfold ParseConnectionID. rewrite (proj2 (Z.ltb_ge 20 (blen c))) by lia. cbn [mbind res_bind].
    rewrite go_slice_from by lia. cbn [mbind res_bind]. unfold t at 1 2.
    rewrite drop_app_length' by (unfold blen; lia).
    rewrite blen_app, (proj2 (Z.ltb_ge _ 16)) by lia.
    unfold t. rewrite drop_app_length' by (unfold blen; lia). rewrite make_copy_app' by done.
    codec_done.
  - intros t b. do 4 codec_step. zb. destruct b as [|c b]; [done|].
    change (go_index (c :: b) 0) with (Ok (E:=werr) (Z_of_byte c)). cbn [mbind res_bind].
    pose proof (blen_nonneg b). pose proof (Z_of_byte_range c).
    rewrite go_slice_from by (rewrite blen_cons; lia). cbn [mbind res_bind].
    change (drop (Z.to_nat 1) (c :: b)) with b. do 3 codec_step. zb.
    rewrite (go_slice_Ok _ b 0) by lia. cbn [mbind res_bind]. unfold ParseConnectionID.
    set (id := take _ _). assert (blen id = Z_of_byte c)
      by (unfold id, blen in *; rewrite length_take, length_drop; lia).
    rewrite (proj2 (Z.ltb_ge 20 _)) by lia. cbn [mbind res_bind].
    rewrite go_slice_from by lia. cbn [mbind res_bind]. codec_step. zb.
    rewrite !blen_app, blen_cons. pose proof (blen_nonneg (drop (Z.to_nat (Z_of_byte c)) b)).
    assert (blen (drop (Z.to_nat (Z_of_byte c)) b) <= blen b)
      by (unfold blen; rewrite length_drop; lia). lia.
Qed.

#[export] Instance Crypto_codec : Codec CryptoFrame := {
  frame_type _ := FrameTypeCrypto; Append := AppendCryptoFrame; Length := LengthCryptoFrame;
  parse _ := parseCryptoFrame;
  encodable f := vrange (cr_Offset f) /\ vrange (blen (cr_Data f));
  delimited _ := true; received f := f }.
#[export] Instance Crypto_lawful : LawfulCodec CryptoFrame.
Proof.
  lawful Crypto_codec; unfold AppendCryptoFrame, LengthCryptoFrame, parseCryptoFrame.
  - intros [o d] [Ho Hd]; cbn [cr_Offset cr_Data] in *. split; [solve_v|].
    exists (venc o ++ venc (blen d) ++ d).
    split_and!; [intros b; codec_append|codec_length|]. intros rest _. codec_parse.
    data_at d rest. destruct (Z.eqb_spec (blen d) 0) as [H0|]; cbn [negb]; codec_done.
    by destruct d; [|rewrite blen_cons in H0; pose proof (blen_nonneg d); lia].
  - intros t b. codec_bounds.
Qed.

#[export] Instance Datagram_codec : Codec DatagramFrame := {
  frame_type f := if dg_DataLenPresent f then FrameTypeDatagramWithLength else FrameTypeDatagramNoLength;
  Append := AppendDatagramFrame; Length := LengthDatagramFrame; parse := parseDatagramFrame;
  encodable f := vrange (blen (dg_Data f)); delimited := dg_DataLenPresent; received f := f }.
#[export] Instance Datagram_lawful : LawfulCodec DatagramFrame.
Proof.
  lawful Datagram_codec; unfold AppendDatagramFrame, LengthDatagramFrame, parseDatagramFrame.
  - intros [p d] Hd; cbn [dg_DataLenPresent dg_Data] in *. destruct p; (split; [solve_v|]).
    + exists (venc (blen d) ++ d). change (Z.lxor 0x30 1) with FrameTypeDatagramWithLength.
      change (0 <? Z.land FrameTypeDatagramWithLength 1) with true.
      split_and!; [intros b; codec_append|codec_length|]. intros rest _. codec_parse.
      data_at d rest. codec_done.
    + exists d. change (0 <? Z.land FrameTypeDatagramNoLength 1) with false.
      split_and!; [intros b; codec_append|codec_length|]. intros rest [?| ->]; [done|].
      cbn [mbind res_bind]. rewrite app_nil_r. rewrite <- (app_nil_r d) at 2.
      rewrite make_copy_app. codec_parse. codec_done.
  - intros t b. destruct (0 <? Z.land t 1); [codec_bounds|]. cbn [mbind res_bind].
    pose proof (blen_nonneg b). lia.
Qed.

(** What [Append] writes of a STREAM frame behind its type. *)
Definition stream_body (f : StreamFrame) : bytes :=
  venc (StreamID f) ++ (if Offset f =? 0 then [] else venc (Offset f)) ++
  (if DataLenPresent f then venc (blen (Data f)) else []) ++ Data f.

Definition stream_ok (f : StreamFrame) : Prop :=
  vrange (StreamID f) /\ 0 <= Offset f /\ Offset f + blen (Data f) <= MaxByteCount /\
  blen (Data f) <= MaxPacketBufferSize /\ (Data f = [] -> Fin f = true).

#[export] Instance Stream_codec : Codec StreamFrame := {
  frame_type := stream_type; Append := AppendStreamFrame; Length := LengthStreamFrame;
  parse := ParseStreamFrame; encodable := stream_ok; delimited := DataLenPresent;
  received f := mkStream (StreamID f) (Offset f) (Data f) (Fin f) (DataLenPresent f)
                  (MinStreamFrameBufferSize <=? blen (Data f)) }.

Lemma stream_type_bits f :
  8 <= stream_type f < 16 /\
  (0 <? Z.land (stream_type f) 4) = negb (Offset f =? 0) /\
  (0 <? Z.land (stream_type f) 1) = Fin f /\
  (0 <? Z.land (stream_type f) 2) = DataLenPresent f.
Proof.
  unfold stream_type. destruct (Fin f), (DataLenPresent f), (Offset f =? 0); done.
Qed.

(** The optional fields of a STREAM frame. *)
Lemma stream_offset f rest : vrange (Offset f) ->
  (if negb (Offset f =? 0) then next ((if Offset f =? 0 then [] else venc (Offset f)) ++ rest)
   else Ok (0, (if Offset f =? 0 then [] else venc (Offset f)) ++ rest))
  = Ok (Offset f, rest).
Proof. intros. destruct (Z.eqb_spec (Offset f) 0) as [->|]; [done|]. by apply next_venc. Qed.

Lemma stream_data_len f rest :
  vrange (blen (Data f)) -> DataLenPresent f = true \/ rest = [] ->
  let b := (if DataLenPresent f then venc (blen (Data f)) else []) ++ Data f ++ rest in
  (if DataLenPresent f then
     '(dataLen, b3) ← next b; if blen b3 <? dataLen then Err (WIO EOF) else Ok (dataLen, b3)
   else Ok (blen b, b)) = Ok (blen (Data f), Data f ++ rest).
Proof.
  intros Hv Hr b. unfold b. pose proof (blen_nonneg rest). destruct (DataLenPresent f).
  - rewrite next_venc by done. cbn [mbind res_bind].
    by rewrite blen_app, (proj2 (Z.ltb_ge _ (blen (Data f)))) by lia.
  - destruct Hr as [|Hr]; [done|]. by rewrite Hr, !app_nil_r.
Qed.

#[export] Instance Stream_lawful : LawfulCodec StreamFrame.
Proof.
  lawful Stream_codec.
  - intros f (Hi & Ho & Hm & Hp & Hf). destruct (stream_type_bits f) as (Ht & H4 & H1 & H2).
    pose proof (blen_nonneg (Data f)). unfold MaxByteCount, MaxPacketBufferSize in *.
    assert (vrange (Offset f) /\ vrange (blen (Data f))) as [? ?] by (split; solve_v).
    split; [solve_v|]. exists (stream_body f).
    unfold AppendStreamFrame, LengthStreamFrame, ParseStreamFrame, stream_body.
    split_and!.
    + intros b. assert ((blen (Data f) =? 0) && negb (Fin f) = false) as ->.
      { destruct (Z.eqb_spec (blen (Data f)) 0) as [Hz|]; [|done].
        rewrite Hf; [done|]. destruct (Data f) as [|x d]; [done|].
        rewrite blen_cons in Hz. pose proof (blen_nonneg d). lia. }
      destruct (Offset f =? 0), (DataLenPresent f); cbn [negb]; codec_append.
    + destruct (Offset f =? 0), (DataLenPresent f); cbn [negb]; codec_length.
    + intros rest Hrest. rewrite H4, H1, H2. codec_parse.
      rewrite (stream_offset f) by done. cbn [mbind res_bind].
      rewrite (stream_data_len f) by done. cbn [mbind res_bind].
      unfold MinStreamFrameBufferSize, MaxPacketBufferSize, MaxByteCount. rewrite (proj2 (Z.ltb_ge 1452 _)) by lia.
      rewrite andb_false_r, make_copy_app. cbn [Offset Data]. codec_parse.
      rewrite (proj2 (Z.ltb_ge (2 ^ 62 - 1) _)) by lia.
      rewrite (Z.leb_antisym _ 128). codec_done.
  - intros t b. unfold ParseStreamFrame. codec_step.
    destruct (0 <? Z.land t 4), (0 <? Z.land t 2); cbn [mbind res_bind]; repeat codec_step.
    all: destruct (negb _ && _); [exact I|]; try exact I.
    all: zb; rewrite ?blen_app in *; unfold vrange in *.
    all: repeat match goal with |- context [blen ?b] => lazymatch goal with
      | H : 0 <= blen b |- _ => fail | _ => pose proof (blen_nonneg b) end end; lia.
Qed.

(** ** Splitting *)

Lemma venc_len n : 0 <= n -> blen (venc n) = if n <=? 63 then 1 else if n <=? 16383 then 2 else
  if n <=? 1073741823 then 4 else if n <=? 4611686018427387903 then 8 else 0.
Proof.
  intros. unfold venc, Varint.Append, Varint.maxVarInt1, Varint.maxVarInt2, Varint.maxVarInt4,
    Varint.maxVarInt8. split_ifs.
Qed.

(** The room for data behind a header of [h] bytes and, with [lp], a length
    field that is first taken to be one byte. *)
Definition room (lp : bool) (h maxSize : Z) : Z :=
  let m := maxSize - (h + if lp then 1 else 0) in
  if m <? 0 then 0 else if lp then if negb (blen (venc m) =? 1) then m - 1 else m else m.

(** For packets of at most 16384 bytes: it fits, it is less than data that did
    not fit, and it is zero only when no byte fits. *)
Lemma room_spec (lp : bool) (h maxSize D : Z) :
  0 <= h -> 0 <= D -> maxSize <= 16384 ->
  maxSize < h + (if lp then blen (venc D) else 0) + D ->
  0 <= room lp h maxSize /\
  (room lp h maxSize = 0 -> maxSize < h + (if lp then 1 else 0) + 1) /\
  (room lp h maxSize <> 0 -> room lp h maxSize < D /\
     h + (if lp then blen (venc (room lp h maxSize)) else 0) + room lp h maxSize <= maxSize).
Proof.
  intros Hh HD Hs Hfit. unfold room. destruct lp.
  - rewrite venc_len in Hfit by lia. destruct (Z.ltb_spec (maxSize - (h + 1)) 0); [lia|].
    rewrite (venc_len (maxSize - (h + 1))) by lia.
    destruct (Z.leb_spec (maxSize - (h + 1)) 63), (Z.leb_spec (maxSize - (h + 1)) 16383); try lia;
      cbn [Z.eqb Pos.eqb negb]; rewrite venc_len by lia; split_ifs; zb; lia.
  - destruct (Z.ltb_spec (maxSize - (h + 0)) 0); lia.
Qed.

(** The length of the header without the length field. *)
Definition stream_hdr (f : StreamFrame) : Z :=
  1 + blen (venc (StreamID f)) + if Offset f =? 0 then 0 else blen (venc (Offset f)).

Lemma stream_length f d fin pool :
  vrange (StreamID f) -> vrange (Offset f) -> vrange (blen d) ->
  LengthStreamFrame (mkStream (StreamID f) (Offset f) d fin (DataLenPresent f) pool)
  = Ok (stream_hdr f + (if DataLenPresent f then blen (venc (blen d)) else 0) + blen d).
Proof.
  intros. unfold LengthStreamFrame, stream_hdr. cbn [StreamID Offset Data DataLenPresent].
  destruct (Offset f =? 0), (DataLenPresent f); cbn [negb]; codec_length.
Qed.

Lemma stream_max_data f maxSize :
  vrange (StreamID f) -> vrange (Offset f) -> maxSize <= 16384 ->
  MaxDataLenStreamFrame f maxSize = Ok (room (DataLenPresent f) (stream_hdr f) maxSize).
Proof.
  intros Hi Ho Hs. unfold MaxDataLenStreamFrame, room, stream_hdr.
  pose proof (Varint.blen_venc _ Hi). pose proof (Varint.blen_venc _ Ho).
  destruct (Offset f =? 0), (DataLenPresent f); cbn [negb mbind res_bind];
    repeat (first [u64_small_v|rewrite Varint.Len_venc by solve_v]; cbn [mbind res_bind]);
    rewrite ?Z.add_0_r;
    (match goal with |- context [maxSize <? ?h] =>
       destruct (Z.ltb_spec maxSize h), (Z.ltb_spec (maxSize - h) 0); try lia; [done|] end);
    repeat (first [u64_small_v|rewrite Varint.Len_venc by solve_v]; cbn [mbind res_bind]); done.
Qed.

(** Cutting the data in two. *)
Lemma cut_data d n : 0 < n < blen d ->
  go_slice (E:=werr) d n (blen d) = Ok (drop (Z.to_nat n) d) /\
  go_slice (E:=werr) d 0 n = Ok (take (Z.to_nat n) d) /\
  make_copy (blen d - n) (drop (Z.to_nat n) d) = drop (Z.to_nat n) d /\
  blen (take (Z.to_nat n) d) = n /\ take (Z.to_nat n) d <> [] /\ drop (Z.to_nat n) d <> [].
Proof.
  intros Hn. assert (Ht : blen (take (Z.to_nat n) d) = n) by (unfold blen in *; rewrite length_take; lia).
  assert (Hd : blen (drop (Z.to_nat n) d) = blen d - n) by (unfold blen in *; rewrite length_drop; lia).
  split_and!.
  - apply go_slice_from. lia.
  - rewrite go_slice_Ok by lia. rewrite drop_0. do 3 f_equal. lia.
  - rewrite <- Hd. rewrite <- (app_nil_r (drop _ _)) at 2. apply make_copy_app.
  - done.
  - intros He. rewrite He, blen_nil in Ht. lia.
  - intros He. rewrite He, blen_nil in Hd. lia.
Qed.

Lemma split_spec (f : StreamFrame) (maxSize : Z) :
  stream_ok f -> 0 <= maxSize <= 16384 ->
  exists len, LengthStreamFrame f = Ok len /\
  match SplitStreamFrame f maxSize with
  | Ok (None, required, f') => f' = f /\
      if required then forall x pool, exists l,
        LengthStreamFrame (mkStream (StreamID f) (Offset f) [x] false (DataLenPresent f) pool) = Ok l /\
        maxSize < l
      else len <= maxSize
  | Ok (Some g, required, f') =>
      required = true /\ maxSize < len /\
      Data g ++ Data f' = Data f /\ Data g <> [] /\ Data f' <> [] /\
      Offset g = Offset f /\ Offset f' = Offset f + blen (Data g) /\
      StreamID g = StreamID f /\ StreamID f' = StreamID f /\ Fin g = false /\ Fin f' = Fin f /\
      DataLenPresent g = DataLenPresent f /\ DataLenPresent f' = DataLenPresent f /\
      exists glen, LengthStreamFrame g = Ok glen /\ glen <= maxSize
  | _ => False
  end.
Proof.
  intros (Hi & Ho & Hm & Hp & Hf) Hs. unfold MaxByteCount in Hm.
  pose proof (blen_nonneg (Data f)). unfold MaxPacketBufferSize in Hp.
  assert (vrange (Offset f) /\ vrange (blen (Data f))) as [Ho' Hd] by (split; solve_v).
  pose proof (stream_length f (Data f) (Fin f) (fromPool f) Hi Ho' Hd) as HL.
  replace (mkStream _ _ _ _ _ _) with f in HL by (by destruct f).
  set (len := stream_hdr f + _ + _) in HL. exists len. split; [done|].
  unfold SplitStreamFrame, MaxPacketBufferSize. rewrite HL. cbn [mbind res_bind].
  destruct (Z.leb_spec len maxSize) as [|Hlen]; [done|].
  rewrite stream_max_data by (done || lia). cbn [mbind res_bind].
  assert (Hh : 2 <= stream_hdr f).
  { unfold stream_hdr. pose proof (Varint.blen_venc _ Hi). pose proof (Varint.blen_venc _ Ho').
    destruct (Offset f =? 0); lia. }
  destruct (room_spec (DataLenPresent f) (stream_hdr f) maxSize (blen (Data f))) as (Hn & Hn0 & Hn1);
    [lia..|]. set (n := room _ _ _) in *.
  destruct (Z.eqb_spec n 0) as [Hz|Hz].
  { split; [done|]. intros x pool. eexists. split; [apply stream_length; rewrite ?blen_cons, ?blen_nil; solve_v|].
    specialize (Hn0 Hz). change (blen [x]) with 1. by change (blen (venc 1)) with 1. }
  destruct (Hn1 Hz) as [HnD Hfit]. rewrite (proj2 (Z.ltb_ge _ 0)), (proj2 (Z.ltb_ge 1452 _)) by lia.
  cbn [orb]. destruct (cut_data (Data f) n) as (Hc & Hc1 & Hcm & Hc2 & Hc3 & Hc4); [lia|].
  rewrite Hc. cbn [mbind res_bind]. rewrite Hc1, Hcm. cbn [mbind res_bind Data Offset StreamID Fin DataLenPresent].
  rewrite Hc2, i64_v by solve_v. split_and!; try done; [apply take_drop|].
  eexists. split; [apply stream_length; rewrite ?Hc2; solve_v|]. by rewrite Hc2.
Qed.

(** [StreamFrame.MaybeSplitOffFrame]: a frame that fits is left alone; else the frame split off
    fits, carries a non-empty proper prefix of the data at the old offset and no FIN, and the rest
    keeps the remaining data at the advanced offset with the FIN.  Nothing is split off when not
    even one byte of data would fit. *)
Theorem stream_split_correct (f : StreamFrame) (maxSize : Z) :
  stream_ok f -> 0 <= maxSize <= 16384 ->
  exists len, LengthStreamFrame f = Ok len /\
  match SplitStreamFrame f maxSize with
  | Ok (None, required, f') => f' = f /\
      if required then forall x pool, exists l,
        LengthStreamFrame (mkStream (StreamID f) (Offset f) [x] false (DataLenPresent f) pool) = Ok l /\
        maxSize < l
      else len <= maxSize
  | Ok (Some g, required, f') =>
      required = true /\ maxSize < len /\
      Data g ++ Data f' = Data f /\ Data g <> [] /\ Data f' <> [] /\
      Offset g = Offset f /\ Offset f' = Offset f + blen (Data g) /\
      StreamID g = StreamID f /\ StreamID f' = StreamID f /\ Fin g = false /\ Fin f' = Fin f /\
      DataLenPresent g = DataLenPresent f /\ DataLenPresent f' = DataLenPresent f /\
      exists glen, LengthStreamFrame g = Ok glen /\ glen <= maxSize
  | _ => False
  end.
Proof. apply split_spec. Qed.

Lemma stream_split_correct_witness :
  let f := mkStream 4 0 (replicate 100 Byte.x2a) true true false in
  stream_ok f /\ exists len, LengthStreamFrame f = Ok len /\ 50 < len.
Proof.
  set (f := mkStream _ _ _ _ _ _). assert (Hf : stream_ok f).
  { split_and!; [by split|done..]. }
  split; [done|]. destruct (stream_split_correct f 50 Hf ltac:(lia)) as (len & HL & _).
  exists len. split; [done|]. vm_compute in HL. by injection HL as <-.
Defined.

Lemma crypto_length o d : vrange o -> vrange (blen d) ->
  LengthCryptoFrame (mkCrypto o d) = Ok (1 + blen (venc o) + blen (venc (blen d)) + blen d).
Proof. intros. unfold LengthCryptoFrame. cbn [cr_Offset cr_Data]. codec_length. Qed.

(** The same for [CryptoFrame.MaybeSplitOffFrame]. *)
Theorem crypto_split_correct (f : CryptoFrame) (maxSize : Z) :
  0 <= cr_Offset f -> cr_Offset f + blen (cr_Data f) <= MaxByteCount -> 0 <= maxSize <= 16384 ->
  match SplitCryptoFrame f maxSize with
  | Ok (None, false, f') => f' = f /\ exists l, LengthCryptoFrame f = Ok l /\ l <= maxSize
  | Ok (None, true, f') => f' = f /\ maxSize < 1 + blen (venc (cr_Offset f)) + 1 + 1
  | Ok (Some g, required, f') =>
      required = true /\ cr_Data g ++ cr_Data f' = cr_Data f /\ cr_Data g <> [] /\ cr_Data f' <> [] /\
      cr_Offset g = cr_Offset f /\ cr_Offset f' = cr_Offset f + blen (cr_Data g) /\
      exists l, LengthCryptoFrame g = Ok l /\ l <= maxSize
  | _ => False
  end.
Proof.
  destruct f as [o d]; cbn [cr_Offset cr_Data]. unfold MaxByteCount. intros Ho Hm Hs.
  pose proof (blen_nonneg d). assert (vrange o /\ vrange (blen d)) as [Ho' Hd] by (split; solve_v).
  unfold SplitCryptoFrame. rewrite crypto_length by done. cbn [mbind res_bind].
  destruct (Z.leb_spec (1 + blen (venc o) + blen (venc (blen d)) + blen d) maxSize) as [|Hlen].
  { split; [done|]. eexists. by split. }
  set (h := 1 + blen (venc o)) in *.
  assert (Hh : 2 <= h) by (unfold h; pose proof (Varint.blen_venc _ Ho'); lia).
  assert (MaxDataLenCryptoFrame (mkCrypto o d) maxSize = Ok (room true h maxSize)) as ->.
  { unfold MaxDataLenCryptoFrame, room. cbn [cr_Offset]. rewrite u64_v, Varint.Len_venc by done.
    cbn [mbind res_bind]. fold h.
    destruct (Z.ltb_spec maxSize (h + 1)), (Z.ltb_spec (maxSize - (h + 1)) 0); try lia; [done|].
    rewrite u64_v, Varint.Len_venc by solve_v. done. }
  destruct (room_spec true h maxSize (blen d)) as (Hn & Hn0 & Hn1); [lia..|].
  cbn [mbind res_bind cr_Data cr_Offset]. set (n := room _ _ _) in *.
  destruct (Z.eqb_spec n 0) as [Hz|Hz]; [split; [done|]; specialize (Hn0 Hz); lia|]. destruct (Hn1 Hz) as [HnD Hfit].
  rewrite (proj2 (Z.ltb_ge _ 0)) by lia.
  destruct (cut_data d n) as (Hc & Hc1 & Hcm & Hc2 & Hc3 & Hc4); [lia|].
  rewrite Hc. cbn [mbind res_bind]. rewrite Hc1, Hcm. cbn [mbind res_bind cr_Data cr_Offset].
  rewrite Hc2, i64_v by solve_v. split_and!; try done; [apply take_drop|].
  eexists. split; [apply crypto_length; rewrite ?Hc2; solve_v|]. rewrite Hc2. lia.
Qed.

End Frames.
