(* ===== verification/FrameParser.v ===== *)
(** * The frame parser and the frames of a packet
    (src/quicfork/internal/wire/frame_parser.go, frame.go, frame_type.go,
    internal/ackhandler/ack_eliciting.go, connection.go: handleFrames)

    [FrameParser] chooses the codec of a frame by its type; [handleFrames] runs
    over the payload of a packet and hands each frame to the connection.  What
    the connection does with a frame is an argument of the model: a function on
    a state that may return an error.  The theorems hold for all such functions
    and rely on the codecs only through [LawfulCodec]. *)

From S2P Require Import Prelude GoBytes Varint Wire AckFrame Frames.
Local Open Scope Z_scope.

Module FrameParser.
Import Wire Ack Frames.

(** ** Frames *)

Inductive Frame :=
| FPing | FHandshakeDone | FImmediateAck
| FAck (f : AckFrame) | FResetStream (f : ResetStreamFrame) | FStopSending (f : StopSendingFrame)
| FCrypto (f : CryptoFrame) | FNewToken (f : NewTokenFrame) | FStream (f : StreamFrame)
| FMaxData (f : MaxDataFrame) | FMaxStreamData (f : MaxStreamDataFrame) | FMaxStreams (f : MaxStreamsFrame)
| FDataBlocked (f : DataBlockedFrame) | FStreamDataBlocked (f : StreamDataBlockedFrame)
| FStreamsBlocked (f : StreamsBlockedFrame) | FNewConnectionID (f : NewConnectionIDFrame)
| FRetireConnectionID (f : RetireConnectionIDFrame) | FPathChallenge (f : PathChallengeFrame)
| FPathResponse (f : PathResponseFrame) | FConnectionClose (f : ConnectionCloseFrame)
| FAckFrequency (f : AckFrequencyFrame) | FDatagram (f : DatagramFrame).

(** [f.Append(b)] and [f.Length()] of the interface. *)
Definition AppendFrame (b : bytes) (f : Frame) : res werr bytes :=
  match f with
  | FPing => AppendPingFrame b
  | FHandshakeDone => AppendHandshakeDoneFrame b
  | FImmediateAck => AppendImmediateAckFrame b
  | FAck f => Append b f | FResetStream f => Append b f | FStopSending f => Append b f
  | FCrypto f => Append b f | FNewToken f => Append b f | FStream f => Append b f
  | FMaxData f => Append b f | FMaxStreamData f => Append b f | FMaxStreams f => Append b f
  | FDataBlocked f => Append b f | FStreamDataBlocked f => Append b f
  | FStreamsBlocked f => Append b f | FNewConnectionID f => Append b f
  | FRetireConnectionID f => Append b f | FPathChallenge f => Append b f
  | FPathResponse f => Append b f | FConnectionClose f => Append b f
  | FAckFrequency f => Append b f | FDatagram f => Append b f
  end.

Definition LengthFrame (f : Frame) : res werr Z :=
  match f with
  | FPing => LengthPingFrame
  | FHandshakeDone => LengthHandshakeDoneFrame
  | FImmediateAck => LengthImmediateAckFrame
  | FAck f => Length f | FResetStream f => Length f | FStopSending f => Length f
  | FCrypto f => Length f | FNewToken f => Length f | FStream f => Length f
  | FMaxData f => Length f | FMaxStreamData f => Length f | FMaxStreams f => Length f
  | FDataBlocked f => Length f | FStreamDataBlocked f => Length f
  | FStreamsBlocked f => Length f | FNewConnectionID f => Length f
  | FRetireConnectionID f => Length f | FPathChallenge f => Length f
  | FPathResponse f => Length f | FConnectionClose f => Length f
  | FAckFrequency f => Length f | FDatagram f => Length f
  end.

Definition IsProbingFrameType (t : Z) : bool :=
  (t =? FrameTypePathChallenge) || (t =? FrameTypePathResponse) || (t =? FrameTypeNewConnectionID).

Definition IsProbingFrame (f : Frame) : bool :=
  match f with FPathChallenge _ | FPathResponse _ | FNewConnectionID _ => true | _ => false end.

Definition IsFrameTypeAckEliciting (t : Z) : bool :=
  negb ((t =? FrameTypeAck) || (t =? FrameTypeAckECN) ||
        (t =? FrameTypeConnectionClose) || (t =? FrameTypeApplicationClose)).

Definition IsFrameAckEliciting (f : Frame) : bool :=
  match f with FAck _ | FConnectionClose _ => false | _ => true end.

Fixpoint HasAckElicitingFrames (fs : list Frame) : bool :=
  match fs with
  | [] => false
  | f :: fs => if IsFrameAckEliciting f then true else HasAckElicitingFrames fs
  end.

(** ** Encryption levels *)

Inductive EncryptionLevel := EncryptionInitial | EncryptionHandshake | Encryption0RTT | Encryption1RTT.

Definition isAllowedAtEncLevel (t : Z) (encLevel : EncryptionLevel) : bool :=
  match encLevel with
  | EncryptionInitial | EncryptionHandshake =>
      (t =? FrameTypeCrypto) || (t =? FrameTypeAck) || (t =? FrameTypeAckECN) ||
      (t =? FrameTypeConnectionClose) || (t =? FrameTypePing)
  | Encryption0RTT =>
      negb ((t =? FrameTypeCrypto) || (t =? FrameTypeAck) || (t =? FrameTypeAckECN) ||
            (t =? FrameTypeConnectionClose) || (t =? FrameTypeNewToken) ||
            (t =? FrameTypePathResponse) || (t =? FrameTypeRetireConnectionID))
  | Encryption1RTT => true
  end.

(** ** The parser *)

(** [io.EOF], or a [qerr.TransportError] with code FRAME_ENCODING_ERROR. *)
Inductive cause := CVarint (e : io_err) | CUnknown | CNotAllowed | CFrame (e : werr).
Inductive perr := PEOF | FrameEncodingError (FrameType : Z) (why : cause).

(** The parser's single ACK frame is reset before each use; it is not part of
    the state here. *)
Record FrameParser := mkParser {
  ackDelayExponent : Z; supportsDatagrams : bool; supportsResetStreamAt : bool;
  supportsAckFrequency : bool }.

Definition NewFrameParser (datagrams resetStreamAt ackFrequency : bool) : FrameParser :=
  mkParser 0 datagrams resetStreamAt ackFrequency.

Definition SetAckDelayExponent (p : FrameParser) (exp : Z) : FrameParser :=
  mkParser exp (supportsDatagrams p) (supportsResetStreamAt p) (supportsAckFrequency p).

Definition valid_type (p : FrameParser) (ft : Z) : bool :=
  isValidRFC9000 ft || (supportsDatagrams p && IsDatagramFrameType ft) ||
  (supportsResetStreamAt p && (ft =? FrameTypeResetStreamAt)) ||
  (supportsAckFrequency p && ((ft =? FrameTypeAckFrequency) || (ft =? FrameTypeImmediateAck))).

(** The loop consumes at least a byte per round: one round more than there are
    bytes is enough. *)
Fixpoint parse_type (fuel : nat) (p : FrameParser) (encLevel : EncryptionLevel) (parsed : Z) (b : bytes)
    : res perr (Z * Z) :=
  match fuel with
  | O => Panic
  | S fuel =>
      if blen b =? 0 then Err PEOF else
      '(typ, l) ← wrap_err (fun e => FrameEncodingError 0 (CVarint e)) (Varint.Parse b);
      b ← go_slice b l (blen b);
      let parsed := parsed + l in
      if typ =? 0 then parse_type fuel p encLevel parsed b
      else if negb (valid_type p typ) then Err (FrameEncodingError typ CUnknown)
      else if negb (isAllowedAtEncLevel typ encLevel) then Err (FrameEncodingError typ CNotAllowed)
      else Ok (typ, parsed)
  end.

Definition ParseType (p : FrameParser) (b : bytes) (encLevel : EncryptionLevel) : res perr (Z * Z) :=
  parse_type (S (length b)) p encLevel 0 b.

Definition frame_err (ft : Z) (e : werr) : perr := FrameEncodingError ft (CFrame e).

Definition ParseStreamFrame (ft : Z) (data : bytes) : res perr (StreamFrame * Z) :=
  wrap_err (frame_err ft) (Frames.ParseStreamFrame ft data).

Definition ParseAckFrame (p : FrameParser) (ft : Z) (data : bytes) (encLevel : EncryptionLevel)
    : res perr (AckFrame * Z) :=
  let exponent := match encLevel with Encryption1RTT => ackDelayExponent p | _ => 3 end in
  wrap_err (frame_err ft) (parseAckFrame (Reset (mkAck [] 0 0 0 0)) ft exponent data).

Definition ParseDatagramFrame (ft : Z) (data : bytes) : res perr (DatagramFrame * Z) :=
  wrap_err (frame_err ft) (parseDatagramFrame ft data).

Definition with_frame {F} (C : F -> Frame) (m : res werr (F * Z)) : res werr (Frame * Z) :=
  (fun '(f, l) => (C f, l)) <$> m.

Definition ParseLessCommonFrame (ft : Z) (data : bytes) : res perr (Frame * Z) :=
  wrap_err (frame_err ft)
    (if ft =? FrameTypePing then Ok (FPing, 0)
     else if ft =? FrameTypeResetStream then with_frame FResetStream (parseResetStreamFrame false data)
     else if ft =? FrameTypeStopSending then with_frame FStopSending (parseStopSendingFrame data)
     else if ft =? FrameTypeCrypto then with_frame FCrypto (parseCryptoFrame data)
     else if ft =? FrameTypeNewToken then with_frame FNewToken (parseNewTokenFrame data)
     else if ft =? FrameTypeMaxData then with_frame FMaxData (parseMaxDataFrame data)
     else if ft =? FrameTypeMaxStreamData then with_frame FMaxStreamData (parseMaxStreamDataFrame data)
     else if (ft =? FrameTypeBidiMaxStreams) || (ft =? FrameTypeUniMaxStreams) then
       with_frame FMaxStreams (parseMaxStreamsFrame ft data)
     else if ft =? FrameTypeDataBlocked then with_frame FDataBlocked (parseDataBlockedFrame data)
     else if ft =? FrameTypeStreamDataBlocked then
       with_frame FStreamDataBlocked (parseStreamDataBlockedFrame data)
     else if (ft =? FrameTypeBidiStreamBlocked) || (ft =? FrameTypeUniStreamBlocked) then
       with_frame FStreamsBlocked (parseStreamsBlockedFrame ft data)
     else if ft =? FrameTypeNewConnectionID then with_frame FNewConnectionID (parseNewConnectionIDFrame data)
     else if ft =? FrameTypeRetireConnectionID then
       with_frame FRetireConnectionID (parseRetireConnectionIDFrame data)
     else if ft =? FrameTypePathChallenge then with_frame FPathChallenge (parsePathChallengeFrame data)
     else if ft =? FrameTypePathResponse then with_frame FPathResponse (parsePathResponseFrame data)
     else if (ft =? FrameTypeConnectionClose) || (ft =? FrameTypeApplicationClose) then
       with_frame FConnectionClose (parseConnectionCloseFrame ft data)
     else if ft =? FrameTypeHandshakeDone then Ok (FHandshakeDone, 0)
     else if ft =? FrameTypeResetStreamAt then with_frame FResetStream (parseResetStreamFrame true data)
     else if ft =? FrameTypeAckFrequency then with_frame FAckFrequency (parseAckFrequencyFrame data)
     else if ft =? FrameTypeImmediateAck then Ok (FImmediateAck, 0)
     else Err errUnknownFrameType).

(** ** The frames of a packet *)

(** The branches of [handleFrames]: STREAM, ACK, DATAGRAM, the rest. *)
Definition parse_any (p : FrameParser) (encLevel : EncryptionLevel) (ft : Z) (data : bytes)
    : res perr (Frame * Z) :=
  if IsStreamFrameType ft then (fun '(f, l) => (FStream f, l)) <$> ParseStreamFrame ft data
  else if IsAckFrameType ft then (fun '(f, l) => (FAck f, l)) <$> ParseAckFrame p ft data encLevel
  else if IsDatagramFrameType ft then (fun '(f, l) => (FDatagram f, l)) <$> ParseDatagramFrame ft data
  else ParseLessCommonFrame ft data.

Section handle.
Context {S E : Type}.
(** The connection's handler of a frame: it may change the state and fail. *)
Context (handle : S -> Frame -> S * option E).
(** [handleHandshakeComplete], when the handshake completed in this packet. *)
Context (handshakeComplete : S -> bool) (complete : S -> S * option E).

(** A frame could not be parsed, or could not be handled. *)
Inductive herr := HParse (e : perr) | HHandle (e : E).

(** What the loop accumulates. *)
Record acc := Acc {
  a_state : S; a_ackEliciting : bool; a_nonProbing : bool; a_challenge : option PathChallengeFrame;
  a_frames : list Frame; a_err : option E }.

Definition handle_frame (log : bool) (a : acc) (ft : Z) (f : Frame) : acc + (S * E) :=
  let eliciting := a_ackEliciting a || IsFrameTypeAckEliciting ft in
  let nonProbing := a_nonProbing a || negb (IsProbingFrameType ft) in
  let frames := if log then a_frames a ++ [f] else a_frames a in
  match a_err a with
  | Some e => inl (Acc (a_state a) eliciting nonProbing (a_challenge a) frames (Some e))
  | None =>
      let '(s, err) := handle (a_state a) f in
      let challenge := match f with FPathChallenge c => Some c | _ => a_challenge a end in
      match err with
      | Some e => if log then inl (Acc s eliciting nonProbing challenge frames (Some e)) else inr (s, e)
      | None => inl (Acc s eliciting nonProbing challenge frames None)
      end
  end.

(** The loop, with the state of the connection whatever the outcome.  Each
    round consumes a byte: one round more than there are bytes is enough. *)
Fixpoint frames_loop (fuel : nat) (p : FrameParser) (encLevel : EncryptionLevel) (log : bool)
    (a : acc) (data : bytes) : res (S * herr) acc :=
  match fuel with
  | O => Panic
  | Datatypes.S fuel =>
      if blen data <=? 0 then Ok a else
      match ParseType p data encLevel with
      | Panic => Panic
      | Err PEOF => Ok a
      | Err e => Err (a_state a, HParse e)
      | Ok (ft, l) =>
          data ← go_slice data l (blen data);
          '(f, l) ← wrap_err (fun e => (a_state a, HParse e)) (parse_any p encLevel ft data);
          data ← go_slice data l (blen data);
          match handle_frame log a ft f with
          | inl a => frames_loop fuel p encLevel log a data
          | inr (s, e) => Err (s, HHandle e)
          end
      end
  end.

Definition handleFrames (p : FrameParser) (encLevel : EncryptionLevel) (log : bool) (s : S) (data : bytes)
    : res (S * herr) (S * (bool * bool * option PathChallengeFrame) * list Frame) :=
  let handshakeWasComplete := handshakeComplete s in
  a ← frames_loop (Datatypes.S (length data)) p encLevel log (Acc s false false None [] None) data;
  match a_err a with
  | Some e => Err (a_state a, HHandle e)
  | None =>
      let result s := (s, (a_ackEliciting a, a_nonProbing a, a_challenge a), a_frames a) in
      if negb handshakeWasComplete && handshakeComplete (a_state a) then
        match complete (a_state a) with
        | (s, Some e) => Err (s, HHandle e)
        | (s, None) => Ok (result s)
        end
      else Ok (result (a_state a))
  end.
End handle.

(** ** Round trip of a frame *)

Definition ftype (f : Frame) : Z :=
  match f with
  | FPing => FrameTypePing | FHandshakeDone => FrameTypeHandshakeDone | FImmediateAck => FrameTypeImmediateAck
  | FAck f => frame_type f | FResetStream f => frame_type f | FStopSending f => frame_type f
  | FCrypto f => frame_type f | FNewToken f => frame_type f | FStream f => frame_type f
  | FMaxData f => frame_type f | FMaxStreamData f => frame_type f | FMaxStreams f => frame_type f
  | FDataBlocked f => frame_type f | FStreamDataBlocked f => frame_type f
  | FStreamsBlocked f => frame_type f | FNewConnectionID f => frame_type f
  | FRetireConnectionID f => frame_type f | FPathChallenge f => frame_type f
  | FPathResponse f => frame_type f | FConnectionClose f => frame_type f
  | FAckFrequency f => frame_type f | FDatagram f => frame_type f
  end.

(** The frames that can be sent. *)
Definition fencodable (f : Frame) : Prop :=
  match f with
  | FPing | FHandshakeDone | FImmediateAck => True
  | FAck f => encodable f | FResetStream f => encodable f | FStopSending f => encodable f
  | FCrypto f => encodable f | FNewToken f => encodable f | FStream f => encodable f
  | FMaxData f => encodable f | FMaxStreamData f => encodable f | FMaxStreams f => encodable f
  | FDataBlocked f => encodable f | FStreamDataBlocked f => encodable f
  | FStreamsBlocked f => encodable f | FNewConnectionID f => encodable f
  | FRetireConnectionID f => encodable f | FPathChallenge f => encodable f
  | FPathResponse f => encodable f | FConnectionClose f => encodable f
  | FAckFrequency f => encodable f | FDatagram f => encodable f
  end.

(** STREAM and DATAGRAM frames without a length take the rest of the packet. *)
Definition fdelimited (f : Frame) : bool :=
  match f with FStream f => DataLenPresent f | FDatagram f => dg_DataLenPresent f | _ => true end.

(** What the receiver sees: delays are rounded, ACKs have at most 64 ranges, and
    a STREAM frame knows where its buffer came from. *)
Definition freceived (f : Frame) : Frame :=
  match f with
  | FAck f => FAck (received f)
  | FStream f => FStream (received f)
  | FAckFrequency f => FAckFrequency (received f)
  | _ => f
  end.

(** ACKs are read with the exponent they are written with. *)
Definition exponent_agrees (p : FrameParser) (encLevel : EncryptionLevel) : Prop :=
  encLevel = Encryption1RTT -> ackDelayExponent p = AckDelayExponent.

(** The parser of [F], as [ParseLessCommonFrame] calls it. *)
Lemma via_codec {F} {C : Codec F} {L : LawfulCodec F} (K : F -> Frame) (f : F) :
  encodable f -> frame_type f <> 0 ->
  (forall p encLevel data, exponent_agrees p encLevel -> parse_any p encLevel (frame_type f) data =
     wrap_err (frame_err (frame_type f)) (with_frame K (parse (frame_type f) data))) ->
  vrange (frame_type f) /\ frame_type f <> 0 /\ exists body,
    (forall b, Append b f = Ok (b ++ venc (frame_type f) ++ body)) /\
    Length f = Ok (blen (venc (frame_type f) ++ body)) /\
    (forall p encLevel rest, exponent_agrees p encLevel -> delimited f = true \/ rest = [] ->
       parse_any p encLevel (frame_type f) (body ++ rest) = Ok (K (received f), blen body)).
Proof.
  intros He Hne Hd. destruct (codec_roundtrip f He) as (Hv & body & Ha & Hl & Hp).
  split_and!; try done. exists body. split_and!; try done.
  intros p encLevel rest Hx Hr. by rewrite Hd, Hp.
Qed.

Lemma with_wrap {F E} (K : F -> Frame) (g : werr -> E) (m : res werr (F * Z)) :
  (fun '(f, l) => (K f, l)) <$> wrap_err g m = wrap_err g (with_frame K m).
Proof. by destruct m. Qed.

Lemma frame_roundtrip f : fencodable f ->
  vrange (ftype f) /\ ftype f <> 0 /\ exists body,
    (forall b, AppendFrame b f = Ok (b ++ venc (ftype f) ++ body)) /\
    LengthFrame f = Ok (blen (venc (ftype f) ++ body)) /\
    (forall p encLevel rest, exponent_agrees p encLevel -> fdelimited f = true \/ rest = [] ->
       parse_any p encLevel (ftype f) (body ++ rest) = Ok (freceived f, blen body)).
Proof.
  destruct f as [| | |f|f|f|f|f|f|f|f|f|f|f|f|f|f|f|f|f|f|f]; intros He; cbn in He.
  1-3: cbn [ftype]; split; [solve_v|]; split; [done|]; exists []; split_and!; done.
  - refine (via_codec FAck f He _ _); [by cbn; destruct (hasECN f)|].
    intros p e data Hx. cbn [frame_type Ack_codec parse]. rewrite <- with_wrap.
    destruct (hasECN f), e; unfold parse_any, ParseAckFrame; try rewrite (Hx eq_refl); done.
  - refine (via_codec FResetStream f He _ _); [by cbn; destruct (_ =? 0)|].
    intros p e data Hx. cbn. destruct (_ =? 0); done.
  - by refine (via_codec FStopSending f He _ _).
  - by refine (via_codec FCrypto f He _ _).
  - by refine (via_codec FNewToken f He _ _).
  - destruct (stream_type_bits f) as [Ht _].
    refine (via_codec FStream f He _ _); [cbn; lia|]. intros p e data Hx. cbn [frame_type Stream_codec parse].
    unfold parse_any, IsStreamFrameType. rewrite !(proj2 (Z.leb_le _ _)) by lia. cbn [andb].
    apply with_wrap.
  - by refine (via_codec FMaxData f He _ _).
  - by refine (via_codec FMaxStreamData f He _ _).
  - refine (via_codec FMaxStreams f He _ _); [by cbn; destruct (mst_Type f)|].
    intros p e data Hx. cbn. by destruct (mst_Type f).
  - by refine (via_codec FDataBlocked f He _ _).
  - by refine (via_codec FStreamDataBlocked f He _ _).
  - refine (via_codec FStreamsBlocked f He _ _); [by cbn; destruct (stb_Type f)|].
    intros p e data Hx. cbn. by destruct (stb_Type f).
  - by refine (via_codec FNewConnectionID f He _ _).
  - by refine (via_codec FRetireConnectionID f He _ _).
  - by refine (via_codec FPathChallenge f He _ _).
  - by refine (via_codec FPathResponse f He _ _).
  - refine (via_codec FConnectionClose f He _ _); [by cbn; destruct (IsApplicationError f)|].
    intros p e data Hx. cbn. by destruct (IsApplicationError f).
  - by refine (via_codec FAckFrequency f He _ _).
  - refine (via_codec FDatagram f He _ _); [by cbn; destruct (dg_DataLenPresent f)|].
    intros p e data Hx. cbn [frame_type Datagram_codec parse]. rewrite <- with_wrap.
    by destruct (dg_DataLenPresent f).
Qed.

(** ** The type of the next frame *)

Definition padding (n : nat) : bytes := replicate n (byte_of_Z 0).

Lemma parse_type_step fuel p e parsed t rest : vrange t ->
  parse_type (S fuel) p e parsed (venc t ++ rest) =
  let parsed := parsed + blen (venc t) in
  if t =? 0 then parse_type fuel p e parsed rest
  else if negb (valid_type p t) then Err (FrameEncodingError t CUnknown)
  else if negb (isAllowedAtEncLevel t e) then Err (FrameEncodingError t CNotAllowed)
  else Ok (t, parsed).
Proof.
  intros Ht. pose proof (Varint.blen_venc t Ht). pose proof (blen_nonneg rest). cbn [parse_type].
  rewrite (proj2 (Z.eqb_neq (blen (venc t ++ rest)) 0)) by (rewrite blen_app; lia).
  rewrite Varint.Parse_venc by done. cbn [wrap_err mbind res_bind].
  rewrite go_slice_from by (rewrite blen_app; lia). cbn [mbind res_bind].
  by rewrite drop_app_length' by (unfold blen; lia).
Qed.

Lemma parse_type_padding n fuel p e parsed b :
  parse_type (n + fuel) p e parsed (padding n ++ b) = parse_type fuel p e (parsed + Z.of_nat n) b.
Proof.
  revert parsed. induction n as [|n IH]; intros parsed; [by rewrite Z.add_0_r|].
  change (padding (S n) ++ b) with (venc 0 ++ padding n ++ b). cbn [plus].
  rewrite parse_type_step by solve_v. change (0 =? 0) with true. cbv zeta iota. rewrite IH.
  f_equal. change (blen (venc 0)) with 1. lia.
Qed.

Lemma ParseType_frame n p e t rest :
  vrange t -> t <> 0 -> valid_type p t = true -> isAllowedAtEncLevel t e = true ->
  ParseType p (padding n ++ venc t ++ rest) e = Ok (t, Z.of_nat n + blen (venc t)).
Proof.
  intros Ht Hne Hv Ha. unfold ParseType. rewrite length_app. unfold padding at 1. rewrite length_replicate.
  replace (S (n + length (venc t ++ rest))) with (n + S (length (venc t ++ rest)))%nat by lia.
  rewrite parse_type_padding, parse_type_step by done. cbv zeta.
  by rewrite (proj2 (Z.eqb_neq t 0) Hne), Hv, Ha.
Qed.

Lemma ParseType_padding n p e : ParseType p (padding n) e = Err PEOF.
Proof.
  unfold ParseType. rewrite <- (app_nil_r (padding n)) at 2. unfold padding at 1. rewrite length_replicate.
  replace (S n) with (n + 1)%nat by lia. by rewrite parse_type_padding.
Qed.

(** Any input. *)
Lemma parse_type_safe fuel p e parsed b :
  (length b < fuel)%nat -> 0 <= parsed ->
  match parse_type fuel p e parsed b with
  | Ok (_, l) => parsed < l <= parsed + blen b
  | Err _ => True
  | Panic => False
  end.
Proof.
  revert parsed b. induction fuel as [|fuel IH]; intros parsed b Hf Hp; [lia|]. cbn [parse_type].
  destruct (blen b =? 0); [done|]. destruct (Varint.Parse b) as [[t l]|?|] eqn:HP; [|done|];
    [|by apply Varint.Parse_no_panic in HP].
  apply Varint.Parse_range in HP as [Hl _]. cbn [wrap_err mbind res_bind].
  rewrite go_slice_from by lia. cbn [mbind res_bind].
  assert (Hd : blen (drop (Z.to_nat l) b) = blen b - l) by (unfold blen in *; rewrite length_drop; lia).
  destruct (t =? 0).
  2:{ destruct (negb (valid_type p t)); [done|]. destruct (negb (isAllowedAtEncLevel t e)); [done|]. lia. }
  specialize (IH (parsed + l) (drop (Z.to_nat l) b)).
  rewrite length_drop in IH. unfold blen in *. specialize (IH ltac:(lia) ltac:(lia)).
  destruct (parse_type _ _ _ _ _) as [[]| |]; [|done|done]. lia.
Qed.

Lemma parse_any_safe p e t b :
  match parse_any p e t b with
  | Ok (_, n) => 0 <= n <= blen b
  | Err _ => True
  | Panic => False
  end.
Proof.
  pose proof (blen_nonneg b).
  assert (Hwrap : forall {F} {C : Codec F} {L : LawfulCodec F} (K : F -> Frame) g t',
    match wrap_err (E':=perr) g (with_frame K (parse t' b)) with
    | Ok (_, n) => 0 <= n <= blen b | Err _ => True | Panic => False end).
  { intros F C L K g t'. pose proof (codec_safe t' b). by destruct (parse t' b) as [[]| |]. }
  unfold parse_any. destruct (IsStreamFrameType t).
  { unfold ParseStreamFrame. rewrite with_wrap. exact (Hwrap StreamFrame _ _ FStream _ t). }
  destruct (IsAckFrameType t).
  { unfold ParseAckFrame. match goal with |- context [parseAckFrame ?f ?t ?x ?b] =>
      pose proof (parse_ack_safe f t x b); by destruct (parseAckFrame f t x b) as [[]| |] end. }
  destruct (IsDatagramFrameType t).
  { unfold ParseDatagramFrame. rewrite with_wrap. exact (Hwrap DatagramFrame _ _ FDatagram _ t). }
  unfold ParseLessCommonFrame.
  repeat match goal with |- context [if ?c then _ else _] => destruct c end;
    first [exact I|cbn; lia
          |exact (Hwrap ResetStreamFrame _ _ FResetStream _ FrameTypeResetStream)
          |exact (Hwrap ResetStreamFrame _ _ FResetStream _ FrameTypeResetStreamAt)
          |exact (Hwrap StopSendingFrame _ _ FStopSending _ t)
          |exact (Hwrap CryptoFrame _ _ FCrypto _ t)
          |exact (Hwrap NewTokenFrame _ _ FNewToken _ t)
          |exact (Hwrap MaxDataFrame _ _ FMaxData _ t)
          |exact (Hwrap MaxStreamDataFrame _ _ FMaxStreamData _ t)
          |exact (Hwrap MaxStreamsFrame _ _ FMaxStreams _ t)
          |exact (Hwrap DataBlockedFrame _ _ FDataBlocked _ t)
          |exact (Hwrap StreamDataBlockedFrame _ _ FStreamDataBlocked _ t)
          |exact (Hwrap StreamsBlockedFrame _ _ FStreamsBlocked _ t)
          |exact (Hwrap NewConnectionIDFrame _ _ FNewConnectionID _ t)
          |exact (Hwrap RetireConnectionIDFrame _ _ FRetireConnectionID _ t)
          |exact (Hwrap PathChallengeFrame _ _ FPathChallenge _ t)
          |exact (Hwrap PathResponseFrame _ _ FPathResponse _ t)
          |exact (Hwrap ConnectionCloseFrame _ _ FConnectionClose _ t)
          |exact (Hwrap AckFrequencyFrame _ _ FAckFrequency _ t)].
Qed.

(** ** Payloads *)

(** The payload a packet packer writes: frames, each behind any amount of
    padding, and padding at the end; only the last frame may lack a length, and
    nothing follows it then. *)
Inductive payload : list Frame -> bytes -> Prop :=
| payload_end n : payload [] (padding n)
| payload_frame n f fs b b' :
    AppendFrame [] f = Ok b -> payload fs b' -> fdelimited f = true \/ fs = [] /\ b' = [] ->
    payload (f :: fs) (padding n ++ b ++ b').

(** The frames a sender may put into a packet of this level. *)
Definition sendable (p : FrameParser) (e : EncryptionLevel) (f : Frame) : Prop :=
  fencodable f /\ valid_type p (ftype f) = true /\ isAllowedAtEncLevel (ftype f) e = true.

Definition last_challenge (fs : list Frame) : option PathChallengeFrame :=
  fold_left (fun c f => match f with FPathChallenge c => Some c | _ => c end) fs None.

Lemma classified f :
  IsFrameTypeAckEliciting (ftype f) = IsFrameAckEliciting f /\
  IsProbingFrameType (ftype f) = IsProbingFrame f.
Proof.
  destruct f as [| | |f|f|f|f|f|f|f|f|f|f|f|f|f|f|f|f|f|f|f]; try (by split); cbn.
  - by destruct (hasECN f).
  - by destruct (_ =? 0).
  - unfold stream_type. by destruct (Fin f), (DataLenPresent f), (Offset f =? 0).
  - by destruct (mst_Type f).
  - by destruct (stb_Type f).
  - by destruct (IsApplicationError f).
  - by destruct (dg_DataLenPresent f).
Qed.

Section packets.
Context {S E : Type} (handle : S -> Frame -> S * option E).
Context (handshakeComplete : S -> bool) (complete : S -> S * option E).

(** What a packet with these frames should do: handle them in order until one
    fails. *)
Fixpoint run (s : S) (fs : list Frame) : S * option E :=
  match fs with
  | [] => (s, None)
  | f :: fs => match handle s f with (s, None) => run s fs | (s, Some e) => (s, Some e) end
  end.

Fixpoint process (log : bool) (a : @acc S E) (fs : list Frame) : @acc S E + (S * E) :=
  match fs with
  | [] => inl a
  | f :: fs =>
      match handle_frame handle log a (ftype f) (freceived f) with
      | inl a => process log a fs
      | inr r => inr r
      end
  end.

Lemma frames_loop_payload p e log fs data : payload fs data ->
  Forall (sendable p e) fs -> exponent_agrees p e ->
  forall fuel a, (length data < fuel)%nat ->
  frames_loop handle fuel p e log a data =
  match process log a fs with inl a => Ok a | inr (s, err) => Err (s, HHandle err) end.
Proof.
  induction 1 as [n|n f fs b b' Hb Hpay IH Hlast]; intros Hfs Hx [|fuel] a Hfuel; try (simpl in Hfuel; lia);
    cbn [frames_loop process].
  { destruct (Z.leb_spec (blen (padding n)) 0); [done|]. by rewrite ParseType_padding. }
  apply Forall_cons in Hfs as [(He & Hv & Ha) Hfs].
  destruct (frame_roundtrip f He) as (Ht & Hne & body & Happ & _ & Hparse).
  rewrite Happ in Hb. injection Hb as <-. cbn [app]. rewrite <- app_assoc.
  pose proof (Varint.blen_venc _ Ht) as Hvt. pose proof (blen_nonneg body).
  pose proof (blen_nonneg b'). pose proof (blen_nonneg (padding n)).
  rewrite (proj2 (Z.leb_gt _ 0)) by (rewrite !blen_app; lia).
  rewrite ParseType_frame by done.
  assert (Hn : blen (padding n) = Z.of_nat n) by (unfold blen, padding; by rewrite length_replicate).
  rewrite <- Hn, <- blen_app, app_assoc, go_slice_from by (rewrite !blen_app; lia).
  cbn [mbind res_bind]. rewrite drop_app_length' by (unfold blen; lia).
  rewrite Hparse by (done || by destruct Hlast as [|[_ ->]]; [left|right]). cbn [wrap_err mbind res_bind].
  rewrite go_slice_from by (rewrite blen_app; lia). cbn [mbind res_bind].
  rewrite drop_app_length' by (unfold blen; lia).
  destruct (handle_frame _ _ _ _ _) as [a'|[s err]]; [|done]. apply IH; [done..|].
  rewrite !length_app in Hfuel. unfold blen in Hvt. lia.
Qed.

(** The flags, the challenge and the log when no handler fails. *)
Lemma process_ok log fs s el np c frs s' :
  run s (map freceived fs) = (s', None) ->
  process log (Acc s el np c frs None) fs =
  inl (Acc s' (el || HasAckElicitingFrames fs) (np || existsb (fun f => negb (IsProbingFrame f)) fs)
         (fold_left (fun c f => match f with FPathChallenge c => Some c | _ => c end) fs c)
         (if log then frs ++ map freceived fs else frs) None).
Proof using.
  revert s el np c frs. induction fs as [|f fs IH]; intros s el np c frs; cbn [run map process].
  { intros [= ->]. cbn. rewrite !orb_false_r, app_nil_r. by destruct log. }
  destruct (handle s (freceived f)) as [s1 [err|]] eqn:Hh; [done|]. intros Hrun.
  unfold handle_frame. cbn [a_err a_state a_ackEliciting a_nonProbing a_challenge a_frames]. rewrite Hh.
  destruct (classified f) as [-> ->]. rewrite (IH _ _ _ _ _ Hrun). f_equal. f_equal.
  - rewrite <- orb_assoc. by destruct f.
  - by rewrite <- orb_assoc.
  - cbn [fold_left]. by destruct f.
  - destruct log; [|done]. by rewrite <- app_assoc.
Qed.

(** Once a handler failed, the rest is only parsed. *)
Lemma process_skip log fs a err : a_err a = Some err ->
  exists a', process log a fs = inl a' /\ a_err a' = Some err /\ a_state a' = a_state a.
Proof using.
  revert a. induction fs as [|f fs IH]; intros a Ha; cbn [process]; [by exists a|].
  unfold handle_frame. rewrite Ha. destruct (IH (Acc (a_state a)
    (a_ackEliciting a || IsFrameTypeAckEliciting (ftype f)) (a_nonProbing a || negb (IsProbingFrameType (ftype f)))
    (a_challenge a) (if log then a_frames a ++ [freceived f] else a_frames a) (Some err)))
    as (a' & H1 & H2 & H3); [done|]. by exists a'.
Qed.

Lemma process_err log fs s el np c frs s' err :
  run s (map freceived fs) = (s', Some err) ->
  match process log (Acc s el np c frs None) fs with
  | inl a => a_err a = Some err /\ a_state a = s'
  | inr r => r = (s', err)
  end.
Proof using.
  revert s el np c frs. induction fs as [|f fs IH]; intros s el np c frs; cbn [run map process]; [done|].
  unfold handle_frame. cbn [a_err a_state a_ackEliciting a_nonProbing a_challenge a_frames].
  destruct (handle s (freceived f)) as [s1 [err1|]] eqn:Hh; [|apply IH]. intros [= <- <-].
  destruct log; [|done].
  edestruct (process_skip true fs) as (a' & -> & H2 & H3); [reflexivity|]. by rewrite H2, H3.
Qed.

(** C20: the payload of a packet, written frame by frame with [Append] and padded at will, of encodable
    frames that are allowed at the encryption level and of which only the last may lack its length,
    is read back by [handleFrames] as the frames a receiver sees, in the same order: the same
    frames, but with ACK delays cut to multiples of 8 us, at most the 64 highest ranges of an ACK
    and ACK_FREQUENCY delays cut to microseconds ([freceived]).  This needs a parser that was told
    the ack delay exponent of the sender.  Each frame is handed to the connection until one is
    refused, whose error is returned; otherwise the packet is reported as ack-eliciting and
    non-probing exactly when one of its frames is, together with its last path challenge.
    Tracing does not change the outcome. *)
Theorem packet_frames_handled p e log s fs data :
  payload fs data -> Forall (sendable p e) fs -> exponent_agrees p e ->
  handleFrames handle handshakeComplete complete p e log s data =
  match run s (map freceived fs) with
  | (s', Some err) => Err (s', HHandle err)
  | (s', None) =>
      let result s := (s, (HasAckElicitingFrames fs, existsb (fun f => negb (IsProbingFrame f)) fs,
                           last_challenge fs), if log then map freceived fs else []) in
      if negb (handshakeComplete s) && handshakeComplete s' then
        match complete s' with
        | (s2, Some err) => Err (s2, HHandle err)
        | (s2, None) => Ok (result s2)
        end
      else Ok (result s')
  end.
Proof using.
  intros Hp Hfs Hx. unfold handleFrames. rewrite (frames_loop_payload p e log fs data Hp Hfs Hx) by lia.
  destruct (run s (map freceived fs)) as [s' [err|]] eqn:Hrun.
  - pose proof (process_err log fs s false false None [] s' err Hrun) as H.
    destruct (process _ _ _) as [a|r]; [destruct H as [H1 H2]; cbn [mbind res_bind]; by rewrite H1, H2|by subst r].
  - rewrite (process_ok log fs s false false None [] s' Hrun). cbn [mbind res_bind].
    by destruct log.
Qed.

(** On any bytes [handleFrames] ends and does not panic. *)
Theorem packet_frames_total p e log s data :
  no_panic (handleFrames handle handshakeComplete complete p e log s data).
Proof using.
  assert (Hloop : forall fuel a d, (length d < fuel)%nat -> no_panic (frames_loop handle fuel p e log a d)).
  { induction fuel as [|fuel IH]; intros a d Hf; [lia|]. cbn [frames_loop]. unfold no_panic.
    destruct (blen d <=? 0); [done|]. pose proof (parse_type_safe (Datatypes.S (length d)) p e 0 d ltac:(lia) ltac:(lia)) as Ht.
    fold (ParseType p d e) in Ht. destruct (ParseType p d e) as [[ft l]|[|]|]; [|done..].
    rewrite go_slice_from by lia. cbn [mbind res_bind].
    pose proof (parse_any_safe p e ft (drop (Z.to_nat l) d)) as Ha.
    destruct (parse_any p e ft _) as [[f l']| |]; [|done..]. cbn [wrap_err mbind res_bind].
    rewrite go_slice_from by lia. cbn [mbind res_bind].
    destruct (handle_frame _ _ _ _ _) as [a'|[]]; [|done]. apply IH.
    rewrite !length_drop. unfold blen in *. lia. }
  unfold handleFrames. specialize (Hloop (Datatypes.S (length data)) (Acc s false false None [] None) data ltac:(lia)).
  unfold no_panic in *. destruct (frames_loop _ _ _ _ _ _ _) as [a| |]; [|done..]. cbn [mbind res_bind].
  destruct (a_err a); [done|]. destruct (_ && _); [|done]. by destruct (complete _) as [? []].
Qed.
End packets.

Lemma packet_frames_handled_witness :
  let fs := [FPing; FMaxData (mkMaxData 1000); FStream (mkStream 4 0 [Byte.x61] true false false)] in
  exists data, payload fs data /\
    handleFrames (E:=unit) (fun s f => (s ++ [f], None)) (fun _ => true) (fun s => (s, None))
      (SetAckDelayExponent (NewFrameParser true true false) 3) Encryption1RTT true [] data
    = Ok (map freceived fs, (true, true, None), map freceived fs).
Proof.
  intros fs.
  set (d := venc FrameTypePing ++ padding 2 ++ (venc FrameTypeMaxData ++ venc 1000) ++ padding 0 ++
    [byte_of_Z 9; byte_of_Z 4; Byte.x61] ++ []).
  exists d. assert (Hp : payload fs d).
  { apply (payload_frame 0); [done| |by left].
    apply (payload_frame 2); [done| |by left].
    apply (payload_frame 0 _ [] _ []); [done|apply (payload_end 0)|by right]. }
  split; [exact Hp|].
  rewrite (packet_frames_handled (E:=unit) (fun s f => (s ++ [f], None)) (fun _ => true) (fun s => (s, None))
    _ Encryption1RTT true [] fs d Hp); [done| |done].
  repeat constructor; cbn; unfold MaxByteCount, MaxPacketBufferSize, Varint.maxVarInt8; try lia; done.
Defined.

End FrameParser.
