(* ===== verification/PacketNumber.v ===== *)
(** * Packet numbers and stream IDs
    (src/quicfork/internal/protocol/packet_number.go, stream.go)

    Packet numbers are sent truncated to 1 to 4 bytes and completed by the
    receiver from the largest one it has seen.  Stream IDs carry the initiator
    and the direction in their two low bits. *)

From S2P Require Import Prelude GoBytes.
Local Open Scope Z_scope.

Module PacketNumber.

Definition InvalidPacketNumber : Z := -1.

Definition DecodePacketNumber (length largest truncated : Z) : Z :=
  let expected := largest + 1 in
  let win := Z.shiftl 1 (u8 (length * 8)) in
  let hwin := Z.quot win 2 in
  let mask := win - 1 in
  let candidate := Z.lor (Z.land expected (Z.lnot mask)) truncated in
  if (candidate <=? expected - hwin) && (candidate <? Z.shiftl 1 62 - win) then candidate + win
  else if (expected + hwin <? candidate) && (win <=? candidate) then candidate - win
  else candidate.

Definition PacketNumberLengthForHeader (pn largestAcked : Z) : Z :=
  let numUnacked := if largestAcked =? InvalidPacketNumber then pn + 1 else pn - largestAcked in
  if numUnacked <? Z.shiftl 1 (16 - 1) then 2
  else if numUnacked <? Z.shiftl 1 (24 - 1) then 3
  else 4.

(** ** Decoding *)

(** The low bits of [x] replaced by [t]. *)
Lemma replace_low x t n : 0 <= n -> 0 <= t < 2 ^ n ->
  Z.lor (Z.land x (Z.lnot (2 ^ n - 1))) t = x / 2 ^ n * 2 ^ n + t.
Proof.
  intros Hn Ht. replace (2 ^ n - 1) with (Z.ones n) by (rewrite Z.ones_equiv; lia).
  rewrite <- Z.ldiff_land, Z.ldiff_ones_r by done. rewrite Z.shiftr_div_pow2 by done.
  rewrite Z.lor_comm.
  assert (Hl : Z.land t (Z.shiftl (x / 2 ^ n) n) = 0).
  { apply Z.bits_inj'. intros k Hk. rewrite Z.land_spec, Z.bits_0.
    destruct (Z.ltb_spec k n).
    - rewrite Z.shiftl_spec_low by done. apply andb_false_r.
    - rewrite <- (Z.mod_small t (2 ^ n)) by done.
      by rewrite Z.mod_pow2_bits_high by lia. }
  rewrite <- Z.lxor_lor, <- Z.add_nocarry_lxor by done. rewrite Z.shiftl_mul_pow2 by done. lia.
Qed.

(** Completion finds the number congruent to the truncated one in the window
    around the expected number. *)
Lemma decode_window w e pn cand :
  0 < w -> Z.even w = true -> 0 <= e -> 0 <= pn < 2 ^ 62 -> w <= 2 ^ 32 ->
  e - w / 2 < pn <= e + w / 2 ->
  cand = e / w * w + pn mod w ->
  (if (cand <=? e - w / 2) && (cand <? 2 ^ 62 - w) then cand + w
   else if (e + w / 2 <? cand) && (w <=? cand) then cand - w else cand) = pn.
Proof.
  intros Hw Hev He Hpn Hw32 Hwin Hc.
  assert (H2 : w = 2 * (w / 2)) by (rewrite <- Z.div2_div; apply Zeven_bool_iff in Hev; by apply Zeven_div2).
  set (h := w / 2) in *. pose proof (Z.div_mod e w ltac:(lia)) as Hde. pose proof (Z.mod_pos_bound e w Hw).
  pose proof (Z.div_mod pn w ltac:(lia)) as Hdp. pose proof (Z.mod_pos_bound pn w Hw).
  assert (Hq : pn / w = e / w - 1 \/ pn / w = e / w \/ pn / w = e / w + 1) by nia.
  assert (Hrel : pn = cand + (pn / w - e / w) * w) by nia.
  destruct Hq as [Hq|[Hq|Hq]]; rewrite Hq in Hrel.
  - assert (Hcp : cand = pn + w) by nia.
    rewrite (proj2 (Z.leb_gt _ _)) by lia. cbn [andb].
    rewrite (proj2 (Z.ltb_lt _ _)), (proj2 (Z.leb_le _ _)) by lia. cbn [andb]. lia.
  - assert (Hcp : cand = pn) by nia. rewrite (proj2 (Z.leb_gt _ _)) by lia. cbn [andb].
    rewrite (proj2 (Z.ltb_ge _ _)) by lia. cbn [andb]. lia.
  - assert (Hcp : cand = pn - w) by nia.
    rewrite (proj2 (Z.leb_le _ _)), (proj2 (Z.ltb_lt _ _)) by lia. cbn [andb]. lia.
Qed.

Lemma decode_spec l largest pn :
  1 <= l <= 4 -> -1 <= largest -> 0 <= pn < 2 ^ 62 ->
  largest + 1 - 2 ^ (8 * l - 1) < pn <= largest + 1 + 2 ^ (8 * l - 1) ->
  DecodePacketNumber l largest (pn mod 2 ^ (8 * l)) = pn.
Proof.
  intros Hl Hlg Hpn Hw. unfold DecodePacketNumber. rewrite u8_small by lia.
  rewrite (Z.shiftl_mul_pow2 1 (l * 8)), Z.mul_1_l, (Z.mul_comm l 8) by lia.
  assert (H2 : 2 ^ (8 * l) = 2 * 2 ^ (8 * l - 1)) by (rewrite <- Z.pow_succ_r by lia; f_equal; lia).
  assert (Hp : 0 < 2 ^ (8 * l)) by (apply Z.pow_pos_nonneg; lia).
  assert (Hh : 2 ^ (8 * l) / 2 = 2 ^ (8 * l - 1)) by (rewrite H2, Z.mul_comm; by apply Z.div_mul).
  rewrite Z.quot_div_nonneg by lia. rewrite replace_low by (try apply Z.mod_pos_bound; lia).
  change (Z.shiftl 1 62) with (2 ^ 62).
  apply (decode_window (2 ^ (8 * l)) (largest + 1) pn); try done; try lia.
  - rewrite H2. by rewrite Z.even_mul.
  - apply Z.pow_le_mono_r; lia.
Qed.

(** C40: a packet number truncated to the length the sender chose for it is completed to the same
    number, by a receiver that has received any packet from the largest one it acknowledged to the
    one before it (or nothing yet), as long as fewer than 2^31 packets are outstanding. *)
Theorem packet_number_roundtrip (pn largestAcked largest : Z) :
  0 <= pn < 2 ^ 62 -> -1 <= largestAcked <= largest -> largest < pn ->
  pn - largestAcked < 2 ^ 31 ->
  let l := PacketNumberLengthForHeader pn largestAcked in
  2 <= l <= 4 /\ DecodePacketNumber l largest (pn mod 2 ^ (8 * l)) = pn.
Proof.
  intros Hpn Ha Hl Hun l. subst l. unfold PacketNumberLengthForHeader, InvalidPacketNumber.
  change (Z.shiftl 1 (16 - 1)) with (2 ^ 15). change (Z.shiftl 1 (24 - 1)) with (2 ^ 23).
  assert ((if largestAcked =? -1 then pn + 1 else pn - largestAcked) = pn - largestAcked) as ->
    by (destruct (Z.eqb_spec largestAcked (-1)); lia).
  destruct (Z.ltb_spec (pn - largestAcked) (2 ^ 15)); [|destruct (Z.ltb_spec (pn - largestAcked) (2 ^ 23))];
    (split; [lia|]); apply decode_spec; try lia.
Qed.

Lemma packet_number_roundtrip_witness :
  PacketNumberLengthForHeader 100000 50000 = 3 /\ DecodePacketNumber 3 60000 (100000 mod 2 ^ 24) = 100000.
Proof.
  split; [done|]. apply (packet_number_roundtrip 100000 50000 60000); lia.
Defined.

(** ** Stream IDs *)

Inductive StreamType := StreamTypeUni | StreamTypeBidi.
Inductive Perspective := PerspectiveServer | PerspectiveClient.

Definition InvalidStreamID : Z := -1.

Definition StreamNum_StreamID (s : Z) (stype : StreamType) (pers : Perspective) : Z :=
  if s =? 0 then InvalidStreamID else
  let first := match stype, pers with
               | StreamTypeBidi, PerspectiveClient => 0
               | StreamTypeBidi, PerspectiveServer => 1
               | StreamTypeUni, PerspectiveClient => 2
               | StreamTypeUni, PerspectiveServer => 3
               end in
  first + 4 * (s - 1).

(** Go's [%] and [/] truncate towards zero. *)
Definition InitiatedBy (s : Z) : Perspective :=
  if Z.rem s 2 =? 0 then PerspectiveClient else PerspectiveServer.

Definition Type_ (s : Z) : StreamType := if 2 <=? Z.rem s 4 then StreamTypeUni else StreamTypeBidi.

Definition StreamID_StreamNum (s : Z) : Z := Z.quot s 4 + 1.

(** The number, the direction and the initiator of a stream are recovered from its ID, and
    conversely every ID is that of its number, direction and initiator. *)
Theorem stream_id_bijection (n id : Z) (t : StreamType) (p : Perspective) :
  1 <= n -> 0 <= id ->
  (let s := StreamNum_StreamID n t p in
   StreamID_StreamNum s = n /\ Type_ s = t /\ InitiatedBy s = p /\ 0 <= s) /\
  StreamNum_StreamID (StreamID_StreamNum id) (Type_ id) (InitiatedBy id) = id.
Proof.
  intros Hn Hid. unfold StreamNum_StreamID, StreamID_StreamNum, Type_, InitiatedBy. split.
  - rewrite (proj2 (Z.eqb_neq n 0)) by lia. destruct t, p; cbv zeta;
    rewrite Z.quot_div_nonneg, !Z.rem_mod_nonneg by lia;
    split_and!; try dlia; case_match; zb; try done; dlia.
  - rewrite Z.quot_div_nonneg, !Z.rem_mod_nonneg by lia.
    rewrite (proj2 (Z.eqb_neq _ 0)) by dlia.
    destruct (Z.leb_spec 2 (id mod 4)), (Z.eqb_spec (id mod 2) 0); dlia.
Qed.

Lemma stream_id_bijection_witness :
  StreamNum_StreamID 3 StreamTypeBidi PerspectiveServer = 9 /\
  StreamID_StreamNum (StreamNum_StreamID 3 StreamTypeBidi PerspectiveServer) = 3.
Proof.
  destruct (stream_id_bijection 3 9 StreamTypeBidi PerspectiveServer) as [(H & _) _]; [lia..|].
  by split.
Defined.

End PacketNumber.
