(* ===== verification/ReceivedPackets.v ===== *)
(** * Received packets and the ACKs for them
    (src/quicfork/internal/ackhandler/received_packet_history.go,
    received_packet_tracker.go, received_packet_handler.go)

    The history of received packet numbers as ranges, the trackers that decide
    when to acknowledge, and the handler of the three packet number spaces.
    Times are [monotime.Time] values in nanoseconds, zero meaning "not set". *)

From Stdlib Require Import ZifyBool.
From S2P Require Import Prelude GoBytes Varint Wire AckFrame FrameParser.
Local Open Scope Z_scope.

Module History.

Definition InvalidPacketNumber : Z := -1.
Definition MaxNumAckRanges : nat := 64.

Record interval := mkInterval { Start : Z; End_ : Z }.

Record receivedPacketHistory := mkHistory { ranges : list interval; deletedBelow : Z }.

Definition newReceivedPacketHistory : receivedPacketHistory := mkHistory [] InvalidPacketNumber.

(** The loop of [addToRanges] runs from the last range down; the list is the
    slice in this order.  Behind the first range a new one is created. *)
Fixpoint add_loop (p : Z) (l : list interval) : list interval * bool :=
  match l with
  | [] => ([mkInterval p p], true)
  | r :: l =>
      if (Start r <=? p) && (p <=? End_ r) then (r :: l, false)
      else if End_ r =? p - 1 then (mkInterval (Start r) p :: l, true)
      else if Start r =? p + 1 then
        match l with
        | prev :: l' =>
            if End_ prev + 1 =? p then (mkInterval (Start prev) (End_ r) :: l', true)
            else (mkInterval p (End_ r) :: l, true)
        | [] => ([mkInterval p (End_ r)], true)
        end
      else if End_ r <? p then (mkInterval p p :: r :: l, true)
      else let '(l, isNew) := add_loop p l in (r :: l, isNew)
  end.

Definition addToRanges (rs : list interval) (p : Z) : list interval * bool :=
  let '(l, isNew) := add_loop p (rev rs) in (rev l, isNew).

Definition ReceivedPacket (h : receivedPacketHistory) (p : Z) : receivedPacketHistory * bool :=
  if p <? deletedBelow h then (h, false) else
  let '(rs, isNew) := addToRanges (ranges h) p in
  let rs := if (MaxNumAckRanges <? length rs)%nat then drop (length rs - MaxNumAckRanges) rs else rs in
  (mkHistory rs (deletedBelow h), isNew).

(** The loop of [DeleteBelow] from the first range up. *)
Fixpoint delete_loop (p : Z) (l : list interval) : list interval :=
  match l with
  | [] => []
  | r :: l =>
      if End_ r <? p then delete_loop p l
      else if (Start r <? p) && (p <=? End_ r) then mkInterval p (End_ r) :: l
      else r :: l
  end.

Definition DeleteBelow (h : receivedPacketHistory) (p : Z) : receivedPacketHistory :=
  if p <? deletedBelow h then h else mkHistory (delete_loop p (ranges h)) p.

Definition Backward (h : receivedPacketHistory) : list interval := rev (ranges h).

Fixpoint missing_loop (deletedBelow p : Z) (l : list interval) : Z :=
  match l with
  | [] => p
  | r :: l =>
      if (Start r <=? p) && (p <=? End_ r) then
        let highest := Start r - 1 in
        if negb (deletedBelow =? InvalidPacketNumber) && (highest <? deletedBelow)
        then InvalidPacketNumber else highest
      else match l with
           | prev :: _ => if (End_ prev <? p) && (p <=? Start r) then p else missing_loop deletedBelow p l
           | [] => p
           end
  end.

Definition HighestMissingUpTo (h : receivedPacketHistory) (p : Z) : Z :=
  match rev (ranges h) with
  | [] => InvalidPacketNumber
  | top :: l =>
      if negb (deletedBelow h =? InvalidPacketNumber) && (p <? deletedBelow h) then InvalidPacketNumber
      else missing_loop (deletedBelow h) (Z.min (End_ top) p) (top :: l)
  end.

Fixpoint duplicate_loop (p : Z) (l : list interval) : bool :=
  match l with
  | [] => false
  | r :: l =>
      if End_ r <? p then false
      else if (p <=? End_ r) && (Start r <=? p) then true
      else duplicate_loop p l
  end.

Definition IsPotentiallyDuplicate (h : receivedPacketHistory) (p : Z) : bool :=
  if p <? deletedBelow h then true else duplicate_loop p (rev (ranges h)).

(** ** Well-formed histories *)

(** Descending, disjoint, not adjacent, from 0 up to [bound]. *)
Fixpoint desc_ok (bound : Z) (l : list interval) : Prop :=
  match l with
  | [] => True
  | r :: l => 0 <= Start r <= End_ r /\ End_ r <= bound /\ desc_ok (Start r - 2) l
  end.

Definition contains (l : list interval) (q : Z) : bool :=
  existsb (fun r => (Start r <=? q) && (q <=? End_ r)) l.

Lemma contains_cons r l q : contains (r :: l) q = ((Start r <=? q) && (q <=? End_ r)) || contains l q.
Proof. done. Qed.

Lemma contains_app l l' q : contains (l ++ l') q = contains l q || contains l' q.
Proof. apply existsb_app. Qed.

Lemma contains_rev l q : contains (rev l) q = contains l q.
Proof.
  induction l as [|r l IH]; [done|]. cbn [rev]. rewrite contains_app, IH, !contains_cons.
  change (contains [] q) with false. by rewrite orb_false_r, orb_comm.
Qed.

Lemma desc_contains bound l q : desc_ok bound l -> contains l q = true -> 0 <= q <= bound.
Proof.
  revert bound. induction l as [|r l IH]; intros bound; [done|]. intros (H1 & H2 & H3).
  rewrite contains_cons. specialize (IH _ H3). lia.
Qed.

Lemma desc_mono b b' l : b <= b' -> desc_ok b l -> desc_ok b' l.
Proof. destruct l as [|r l]; [done|]. intros Hb (H1 & H2 & H3). split_and!; try done; lia. Qed.

Lemma desc_take n b l : desc_ok b l -> desc_ok b (take n l).
Proof.
  revert n b. induction l as [|r l IH]; intros [|n] b; try done.
  intros (H1 & H2 & H3). split_and!; try done; try lia. by apply IH.
Qed.

(** ** Adding a packet *)

Lemma add_loop_spec p l bound : desc_ok bound l -> 0 <= p <= bound ->
  desc_ok bound (add_loop p l).1 /\ (add_loop p l).2 = negb (contains l p) /\
  forall q, contains (add_loop p l).1 q = contains l q || (q =? p).
Proof.
  revert bound. induction l as [|r l IH]; intros bound Hok Hp; cbn [add_loop].
  { cbn. split_and!; [lia..|done|lia]. }
  pose proof Hok as (H1 & H2 & H3).
  pose proof (fun q => desc_contains _ _ q H3) as Hb.
  repeat case_match; cbn [fst snd]; simplify_eq.
  all: try (split_and!; [split_and!; cbn; try done; lia|rewrite ?contains_cons; specialize (Hb p); lia
            |intros q; rewrite ?contains_cons; cbn; specialize (Hb q); lia]).
  - destruct H3 as (G1 & G2 & G3). pose proof (fun q => desc_contains _ _ q G3) as Hc.
    split_and!; [cbn; split_and!; try done; lia|rewrite ?contains_cons; specialize (Hc p); lia|].
    intros q. rewrite ?contains_cons. cbn. specialize (Hc q). lia.
  - destruct H3 as (G1 & G2 & G3). pose proof (fun q => desc_contains _ _ q G3) as Hc.
    split_and!; [cbn; split_and!; try done; lia|rewrite ?contains_cons; specialize (Hc p); lia|].
    intros q. rewrite ?contains_cons. cbn. specialize (Hc q). lia.
  - split_and!; [cbn; split_and!; try done; try lia|rewrite ?contains_cons; specialize (Hb p); lia|].
    intros q. rewrite ?contains_cons. cbn. specialize (Hb q). lia.
  - destruct (IH (Start r - 2) H3 ltac:(lia)) as (I1 & I2 & I3).
    cbn [fst snd] in *.
    split_and!; [done..|rewrite contains_cons, I2; lia|].
    intros q. rewrite !contains_cons, I3. lia.
Qed.

(** ** The other operations *)

Lemma desc_snoc b l r :
  desc_ok b (l ++ [r]) <->
  desc_ok b l /\ 0 <= Start r <= End_ r /\ End_ r <= b /\ Forall (fun x => End_ r + 2 <= Start x) l.
Proof.
  revert b. induction l as [|x l IH]; intros b; cbn [app desc_ok].
  - rewrite Forall_nil. tauto.
  - rewrite IH, Forall_cons. split; [intros (? & ? & ? & ? & ? & ?)|intros ((? & ? & ?) & ? & ? & ? & ?)];
      split_and!; try done; lia.
Qed.

Lemma contains_above l lo q : Forall (fun x => lo <= Start x) l -> contains l q = true -> lo <= q.
Proof.
  induction 1 as [|x l Hx _ IH]; [done|]. rewrite contains_cons. intros H.
  destruct (contains l q); [by apply IH|lia].
Qed.

Lemma delete_loop_spec b p l : desc_ok b (rev l) ->
  desc_ok b (rev (delete_loop p l)) /\ (length (delete_loop p l) <= length l)%nat /\
  forall q, contains (delete_loop p l) q = contains l q && (p <=? q).
Proof.
  induction l as [|r l IH]; [done|]. cbn [rev delete_loop]. rewrite desc_snoc. intros (Hl & H1 & H2 & Hall).
  assert (Hab : forall q, contains l q = true -> End_ r + 2 <= q).
  { intros q Hq. rewrite <- contains_rev in Hq. by eapply contains_above. }
  destruct (IH Hl) as (I1 & I2 & I3). destruct (Z.ltb_spec (End_ r) p).
  { split_and!; [done|cbn; lia|]. intros q. rewrite I3, contains_cons. lia. }
  destruct (Z.ltb_spec (Start r) p); cbn [andb]; [rewrite (proj2 (Z.leb_le p _)) by lia|].
  - cbn [rev]. rewrite desc_snoc. split_and!; try done; try (cbn; lia).
    intros q. rewrite !contains_cons. cbn. specialize (Hab q). lia.
  - cbn [rev]. rewrite desc_snoc. split_and!; try done; try (cbn; lia). intros q. rewrite !contains_cons.
    specialize (Hab q). lia.
Qed.

Lemma duplicate_loop_spec b p l : desc_ok b l -> duplicate_loop p l = contains l p.
Proof.
  revert b. induction l as [|r l IH]; intros b; [done|]. intros (H1 & H2 & H3).
  cbn [duplicate_loop]. rewrite contains_cons, (IH _ H3). pose proof (desc_contains _ _ p H3).
  destruct (End_ r <? p) eqn:?, ((p <=? End_ r) && (Start r <=? p)) eqn:?; lia.
Qed.

Lemma missing_loop_spec b d p l : desc_ok b l -> l <> [] ->
  (contains l p = false /\ missing_loop d p l = p) \/
  exists r, r ∈ l /\ Start r <= p <= End_ r /\
    missing_loop d p l = if negb (d =? InvalidPacketNumber) && (Start r - 1 <? d)
                         then InvalidPacketNumber else Start r - 1.
Proof.
  revert b. induction l as [|r l IH]; intros b; [done|]. intros (H1 & H2 & H3) _. cbn [missing_loop].
  rewrite contains_cons. destruct ((Start r <=? p) && (p <=? End_ r)) eqn:Hin.
  { right. exists r. split_and!; [set_solver|lia..|done]. }
  destruct l as [|x l]; [by left|]. pose proof H3 as (G1 & G2 & G3).
  destruct ((End_ x <? p) && (p <=? Start r)) eqn:Hgap.
  - left. split; [|done]. rewrite contains_cons. pose proof (desc_contains _ _ p G3). lia.
  - destruct (IH _ H3) as [[Hc ->]|(y & Hy & Hr & ->)]; [done|left; by rewrite Hc|].
    right. exists y. split_and!; [set_solver|lia..|done].
Qed.

(** ** Histories *)

Definition hist_ok (h : receivedPacketHistory) : Prop :=
  desc_ok Varint.maxVarInt8 (rev (ranges h)) /\ (length (ranges h) <= MaxNumAckRanges)%nat /\
  (forall q, contains (ranges h) q = true -> deletedBelow h <= q).

Lemma new_ok : hist_ok newReceivedPacketHistory.
Proof. split_and!; [done|cbn; lia|done]. Qed.

Lemma add_loop_length p l : (length (add_loop p l).1 <= S (length l))%nat.
Proof.
  induction l as [|r l IH]; cbn [add_loop length]; [cbn; lia|].
  repeat case_match; simplify_eq; cbn in *; lia.
Qed.

(** What [ReceivedPacket] does: it answers whether the number is neither below
    the limit nor recorded, and records it; only the ranges beyond the 64
    highest are forgotten. *)
Lemma received_spec h p : hist_ok h -> 0 <= p <= Varint.maxVarInt8 ->
  let '(h', isNew) := ReceivedPacket h p in
  hist_ok h' /\ deletedBelow h' = deletedBelow h /\
  isNew = negb (p <? deletedBelow h) && negb (contains (ranges h) p) /\
  (forall q, contains (ranges h') q = true -> contains (ranges h) q || (q =? p) = true) /\
  ((length (ranges h) < MaxNumAckRanges)%nat -> deletedBelow h <= p ->
     forall q, contains (ranges h') q = contains (ranges h) q || (q =? p)).
Proof.
  intros (Hd & Hlen & Hlow) Hp. unfold ReceivedPacket. destruct (Z.ltb_spec p (deletedBelow h)).
  { split_and!; [done..| |]; [intros q ->; done|lia]. }
  unfold addToRanges. destruct (add_loop_spec p _ _ Hd Hp) as (A1 & A2 & A3).
  assert (Alen : (length (add_loop p (rev (ranges h))).1 <= S (length (ranges h)))%nat).
  { rewrite <- (length_rev (ranges h)). apply add_loop_length. }
  destruct (add_loop p (rev (ranges h))) as [l isNew]; cbn [fst snd] in *.
  rewrite contains_rev in A2. cbn [negb andb]. rewrite length_rev.
  assert (Hsub : forall q, contains (rev l) q = contains (ranges h) q || (q =? p))
    by (intros q; by rewrite contains_rev, A3, contains_rev).
  destruct (Nat.ltb_spec MaxNumAckRanges (length l)) as [Hover|Hfit]; cbn [ranges deletedBelow].
  - assert (Hdrop : drop (length l - MaxNumAckRanges) (rev l) = rev (take MaxNumAckRanges l)).
    { rewrite <- (take_drop MaxNumAckRanges l) at 2. rewrite rev_app_distr.
      rewrite drop_app_length'; [done|]. by rewrite length_rev, length_drop. }
    rewrite Hdrop.
    assert (Hin : forall q, contains (rev (take MaxNumAckRanges l)) q = true ->
      contains (ranges h) q || (q =? p) = true).
    { intros q Hq. rewrite <- Hsub, contains_rev, <- (take_drop MaxNumAckRanges l), contains_app.
      rewrite contains_rev in Hq. by rewrite Hq. }
    split_and!; [split_and!| | | |]; cbn [ranges deletedBelow]; try done.
    + rewrite rev_involutive. by apply desc_take.
    + rewrite length_rev, length_take. lia.
    + intros q Hq. specialize (Hin q Hq). apply orb_prop in Hin as [Hq'|Hq']; [by apply Hlow|lia].
    + intros Hlt. lia.
  - split_and!; [split_and!| | | |]; cbn [ranges deletedBelow]; try done.
    + by rewrite rev_involutive.
    + by rewrite length_rev.
    + intros q Hq. rewrite Hsub in Hq. apply orb_prop in Hq as [Hq'|Hq']; [by apply Hlow|lia].
    + intros q Hq. by rewrite <- Hsub.
Qed.

Lemma delete_spec h p : hist_ok h ->
  let h' := DeleteBelow h p in
  hist_ok h' /\ deletedBelow h' = Z.max (deletedBelow h) p /\
  forall q, contains (ranges h') q = contains (ranges h) q && (deletedBelow h' <=? q).
Proof.
  intros (Hd & Hlen & Hlow). unfold DeleteBelow. cbv zeta. destruct (Z.ltb_spec p (deletedBelow h)).
  { split_and!; [done|lia|]. intros q. specialize (Hlow q). lia. }
  destruct (delete_loop_spec _ p _ Hd) as (D1 & D2 & D3).
  split_and!; [split_and!| |]; cbn [ranges deletedBelow]; try done; [lia| |lia].
  intros q. rewrite D3. lia.
Qed.

Lemma duplicate_spec h p : hist_ok h ->
  IsPotentiallyDuplicate h p = (p <? deletedBelow h) || contains (ranges h) p.
Proof.
  intros (Hd & _). unfold IsPotentiallyDuplicate. rewrite (duplicate_loop_spec _ _ _ Hd), contains_rev.
  by destruct (p <? deletedBelow h).
Qed.

(** The numbers up to [p] that are missing: not below the limit, not recorded, and below one that is. *)
Definition missing (h : receivedPacketHistory) (p x : Z) : Prop :=
  0 <= x <= p /\ deletedBelow h <= x /\ contains (ranges h) x = false /\ exists q, x < q /\ contains (ranges h) q = true.

(** [m] is the largest of the numbers in [P], or -1 if there is none. *)
Definition largest_of (P : Z -> Prop) (m : Z) : Prop :=
  (m = InvalidPacketNumber /\ forall x, ~ P x) \/ (P m /\ forall x, P x -> x <= m).

Lemma contains_elem l q r : r ∈ l -> Start r <= q <= End_ r -> contains l q = true.
Proof. intros Hr Hq. apply existsb_exists. exists r. split; [by apply list_elem_of_In|lia]. Qed.

Lemma desc_elem b l r : desc_ok b l -> r ∈ l -> 0 <= Start r <= End_ r.
Proof.
  revert b. induction l as [|y l IH]; intros b; [by intros _ ?%elem_of_nil|]. intros (H1 & H2 & H3).
  rewrite elem_of_cons. intros [->|Hr]; [done|by eapply IH].
Qed.

Lemma desc_before b l r : desc_ok b l -> r ∈ l -> contains l (Start r - 1) = false.
Proof.
  revert b. induction l as [|y l IH]; intros b; [by intros _ ?%elem_of_nil|]. intros (H1 & H2 & H3).
  rewrite elem_of_cons, contains_cons. pose proof (desc_contains _ _ (Start r - 1) H3) as Hc. intros [->|Hr].
  - destruct (contains l (Start y - 1)); [specialize (Hc eq_refl)|]; lia.
  - rewrite (IH _ H3 Hr). pose proof (desc_elem _ _ _ H3 Hr).
    pose proof (desc_contains _ _ _ H3 (contains_elem l (Start r) r Hr ltac:(lia))). lia.
Qed.

Lemma highest_missing_spec h p : hist_ok h -> -1 <= deletedBelow h -> 0 <= p -> largest_of (missing h p) (HighestMissingUpTo h p).
Proof.
  intros (Hd & _ & Hlow) Hdb Hp. unfold HighestMissingUpTo, largest_of, missing, InvalidPacketNumber. setoid_rewrite <- contains_rev.
  setoid_rewrite <- contains_rev in Hlow. destruct (rev (ranges h)) as [|top l] eqn:El; [left; split; [done|by intros x (_ & _ & _ & ? & _ & ?)]|].
  destruct (negb _ && _) eqn:E0; [left; split; [done|lia]|]. apply andb_false_iff in E0. set (L := top :: l) in *.
  assert (Htop : contains L (End_ top) = true) by (destruct Hd; apply (contains_elem L _ top); [left|lia]).
  assert (Hmax : forall q, contains L q = true -> q <= End_ top).
  { intros q. destruct Hd as (H1 & H2 & H3). unfold L. rewrite contains_cons. pose proof (desc_contains _ _ q H3). lia. }
  pose proof (Hlow _ Htop) as Hlt. set (p' := Z.min (End_ top) p).
  destruct (missing_loop_spec _ (deletedBelow h) p' L Hd) as [[Hc ->]|(r & Hr & Hin & ->)]; [done| |].
  - right. assert (End_ top <> p') by congruence. split; [split_and!; try done; try lia; exists (End_ top); split; [lia|done]|].
    intros x (? & _ & _ & q & ? & Hq). specialize (Hmax q Hq). lia.
  - assert (Hx : forall x, 0 <= x <= p /\ deletedBelow h <= x /\ contains L x = false /\ (exists q, x < q /\ contains L q = true) -> x <= Start r - 1).
    { intros x (? & _ & Hn & q & ? & Hq). specialize (Hmax q Hq). destruct (decide (Start r <= x)); [|lia].
      rewrite (contains_elem L x r Hr) in Hn; [done|lia]. }
    pose proof (desc_before _ _ _ Hd Hr) as Hb. pose proof (desc_elem _ _ _ Hd Hr) as Hs. unfold InvalidPacketNumber.
    destruct (negb _ && _) eqn:E1; [left; split; [done|intros x Hm; specialize (Hx x Hm); lia]|].
    destruct (decide (Start r = 0)) as [E|Hs0]; [left; split; [lia|intros x Hm; specialize (Hx x Hm); lia]|].
    right. split; [|done]. split_and!; try done; try lia. exists p'. split; [lia|]. by apply (contains_elem L _ r).
Qed.

(** ** Sequences of operations *)

Inductive op := Recv (p : Z) | Delete (p : Z).

Definition exec_op (h : receivedPacketHistory) (o : op) : receivedPacketHistory :=
  match o with Recv p => (ReceivedPacket h p).1 | Delete p => DeleteBelow h p end.

Definition exec (ops : list op) : receivedPacketHistory := fold_left exec_op ops newReceivedPacketHistory.

Definition op_ok (o : op) : Prop := match o with Recv p => 0 <= p <= Varint.maxVarInt8 | Delete _ => True end.

Lemma exec_snoc ops o : exec (ops ++ [o]) = exec_op (exec ops) o.
Proof. unfold exec. by rewrite fold_left_app. Qed.

Lemma exec_ok ops : Forall op_ok ops -> hist_ok (exec ops).
Proof.
  induction ops as [|o ops IH] using rev_ind; [intros; apply new_ok|].
  rewrite Forall_app, Forall_singleton, exec_snoc. intros [Hops Ho]. specialize (IH Hops).
  destruct o as [p|p]; cbn [exec_op].
  - pose proof (received_spec _ p IH Ho) as Hs. destruct (ReceivedPacket _ p) as [h' b]. apply Hs.
  - by apply delete_spec.
Qed.

(** The numbers received and the limit below which they are forgotten. *)
Definition seen (ops : list op) (q : Z) : bool :=
  existsb (fun o => match o with Recv p => q =? p | Delete _ => false end) ops.

Definition limit (ops : list op) : Z :=
  fold_left (fun d o => match o with Recv _ => d | Delete p => Z.max d p end) ops InvalidPacketNumber.

Lemma limit_low ops : -1 <= limit ops.
Proof. unfold limit. induction ops as [|[p|p] ops IH] using rev_ind; rewrite ?fold_left_app; cbn; [done|done|lia]. Qed.

(** At no time there are 64 ranges before a packet is recorded. *)
Definition never_full (ops : list op) : Prop :=
  forall pre o post, ops = pre ++ o :: post -> (length (ranges (exec pre)) < MaxNumAckRanges)%nat.

Lemma exec_contains ops : Forall op_ok ops -> never_full ops ->
  deletedBelow (exec ops) = limit ops /\
  forall q, contains (ranges (exec ops)) q = seen ops q && (limit ops <=? q).
Proof.
  induction ops as [|o ops IH] using rev_ind; [done|]. rewrite Forall_app, Forall_singleton.
  intros [Hops Ho] Hfull. destruct (IH Hops) as [Hd Hc].
  { intros pre o' post ->. apply (Hfull pre o' (post ++ [o])). by rewrite <- app_assoc. }
  pose proof (Hfull ops o [] eq_refl) as Hlt. pose proof (exec_ok ops Hops) as Hok.
  rewrite exec_snoc. unfold seen, limit in *. rewrite fold_left_app.
  destruct o as [p|p]; cbn [exec_op fold_left].
  - pose proof (received_spec _ p Hok Ho) as Hs. destruct (ReceivedPacket (exec ops) p) as [h' b] eqn:Hr.
    destruct Hs as (_ & Hd' & _ & _ & Hall). cbn [fst]. rewrite Hd', Hd. split; [done|].
    intros q. rewrite existsb_app. cbn [existsb]. rewrite orb_false_r.
    destruct (Z.le_gt_cases (deletedBelow (exec ops)) p) as [Hle|Hgt].
    + rewrite Hall, Hc by done. rewrite Hd in Hle. lia.
    + unfold ReceivedPacket in Hr. rewrite (proj2 (Z.ltb_lt _ _) Hgt) in Hr. injection Hr as <- _.
      rewrite Hc, <- Hd. lia.
  - destruct (delete_spec (exec ops) p Hok) as (_ & Hd' & Hall). rewrite Hd', Hd. split; [done|].
    intros q. rewrite Hall, Hc, Hd', Hd, existsb_app. cbn [existsb]. lia.
Qed.

(** C21: as long as the numbers held form fewer than 64 ranges whenever a packet arrives
    or numbers are forgotten, the history is exact.  A packet is reported as new, and not
    as a potential duplicate, exactly when its number was not received before and is not
    below the limit up to which numbers were forgotten; and [HighestMissingUpTo] is the
    largest number up to [p] that is not below the limit, was not received and is below
    one that was, or -1 if there is none. *)
Theorem history_exact (ops : list op) (p : Z) :
  Forall op_ok ops -> never_full ops -> 0 <= p <= Varint.maxVarInt8 ->
  (ReceivedPacket (exec ops) p).2 = negb (IsPotentiallyDuplicate (exec ops) p) /\
  IsPotentiallyDuplicate (exec ops) p = (p <? limit ops) || seen ops p /\
  largest_of (fun x => 0 <= x <= p /\ limit ops <= x /\ seen ops x = false /\ exists q, x < q /\ seen ops q = true)
    (HighestMissingUpTo (exec ops) p).
Proof.
  intros Hops Hfull Hp. pose proof (exec_ok ops Hops) as Hok.
  destruct (exec_contains ops Hops Hfull) as [Hd Hc]. rewrite (duplicate_spec _ _ Hok), Hd, Hc. split_and!.
  - pose proof (received_spec _ p Hok Hp) as Hs. destruct (ReceivedPacket (exec ops) p) as [h' b].
    destruct Hs as (_ & _ & -> & _). cbn [snd]. rewrite Hd, Hc. lia.
  - lia.
  - pose proof (highest_missing_spec (exec ops) p Hok) as Hm. rewrite Hd in Hm. specialize (Hm (limit_low ops) ltac:(lia)).
    assert (Heq : forall x, missing (exec ops) p x <->
      0 <= x <= p /\ limit ops <= x /\ seen ops x = false /\ exists q, x < q /\ seen ops q = true).
    { intros x. unfold missing. rewrite Hd, Hc. setoid_rewrite Hc. split; intros (H1 & H2 & H3 & q & H4 & H5);
        (split_and!; [lia..|exists q; split; lia]). }
    unfold largest_of in *. setoid_rewrite Heq in Hm. exact Hm.
Qed.

Lemma history_exact_witness :
  IsPotentiallyDuplicate (exec [Recv 3; Recv 7; Delete 4]) 6 = false /\
  IsPotentiallyDuplicate (exec [Recv 3; Recv 7; Delete 4]) 7 = true /\
  largest_of (fun x => 0 <= x <= 5 /\ limit [Recv 3; Recv 7; Delete 4] <= x /\ seen [Recv 3; Recv 7; Delete 4] x = false /\
    exists q, x < q /\ seen [Recv 3; Recv 7; Delete 4] q = true) 5.
Proof.
  assert (Hops : Forall op_ok [Recv 3; Recv 7; Delete 4]) by (repeat constructor; by vm_compute).
  assert (Hfull : never_full [Recv 3; Recv 7; Delete 4]).
  { intros pre o post H. unfold MaxNumAckRanges.
    destruct pre as [|? [|? [|? pre]]]; cbn [app] in H; simplify_eq; try (vm_compute; lia).
    by destruct pre. }
  split_and!.
  - by rewrite (proj1 (proj2 (history_exact _ 6 Hops Hfull ltac:(unfold Varint.maxVarInt8; lia)))).
  - by rewrite (proj1 (proj2 (history_exact _ 7 Hops Hfull ltac:(unfold Varint.maxVarInt8; lia)))).
  - exact (proj2 (proj2 (history_exact _ 5 Hops Hfull ltac:(unfold Varint.maxVarInt8; lia)))).
Defined.

(** When a 65th range appears, the lowest one is forgotten without raising the limit: a packet
    that was received is reported as new again. *)
Theorem history_forgets_duplicates :
  let ops := map (fun k => Recv (2 * Z.of_nat k)) (seq 0 65) in
  seen ops 0 = true /\ limit ops = InvalidPacketNumber /\
  IsPotentiallyDuplicate (exec ops) 0 = false /\ (ReceivedPacket (exec ops) 0).2 = true.
Proof. by vm_compute. Qed.

End History.

Module Tracker.
Import Wire Ack History.

Inductive ECN := ECNUnsupported | ECNNon | ECN_ECT1 | ECN_ECT0 | ECN_CE.

(** ** The Initial and Handshake spaces *)

Record receivedPacketTracker := mkTracker {
  ect0 : Z; ect1 : Z; ecnce : Z; packetHistory : receivedPacketHistory;
  lastAck : option AckFrame; hasNewAck : bool }.

Definition newReceivedPacketTracker : receivedPacketTracker :=
  mkTracker 0 0 0 newReceivedPacketHistory None false.

(** The errors of the package: a number that was received before, and a 0-RTT
    number above a 1-RTT one. *)
Inductive terr := errOldPacket (pn : Z) | err0RTTAfter1RTT (pn lowest : Z).

Definition tr_ReceivedPacket (t : receivedPacketTracker) (pn : Z) (ecn : ECN) (ackEliciting : bool)
    : res terr receivedPacketTracker :=
  let '(h, isNew) := History.ReceivedPacket (packetHistory t) pn in
  if negb isNew then Err (errOldPacket pn) else
  let c0 := match ecn with ECN_ECT0 => u64 (ect0 t + 1) | _ => ect0 t end in
  let c1 := match ecn with ECN_ECT1 => u64 (ect1 t + 1) | _ => ect1 t end in
  let ce := match ecn with ECN_CE => u64 (ecnce t + 1) | _ => ecnce t end in
  Ok (mkTracker c0 c1 ce h (lastAck t) (if ackEliciting then true else hasNewAck t)).

Definition GetAckFrame (t : receivedPacketTracker) : option AckFrame * receivedPacketTracker :=
  if negb (hasNewAck t) then (None, t) else
  let ack := mkAck (map (fun r => mkRange (Start r) (End_ r)) (Backward (packetHistory t))) 0
               (ect0 t) (ect1 t) (ecnce t) in
  (Some ack, mkTracker (ect0 t) (ect1 t) (ecnce t) (packetHistory t) (Some ack) false).

Definition tr_IsPotentiallyDuplicate (t : receivedPacketTracker) (pn : Z) : bool :=
  History.IsPotentiallyDuplicate (packetHistory t) pn.

(** ** The application data space *)

Definition packetsBeforeAck : Z := 2.
Definition reorderingThreshold : Z := 1.
Definition MaxAckDelay : Z := 25 * 1000000.

Record appDataTracker := mkApp {
  base : receivedPacketTracker; largestObservedRcvdTime : Z; largestObserved : Z; ignoreBelow : Z;
  maxAckDelay : Z; ackQueued : bool; ackElicitingPacketsReceivedSinceLastAck : Z; ackAlarm : Z }.

Definition newAppDataReceivedPacketTracker : appDataTracker :=
  mkApp newReceivedPacketTracker 0 0 0 MaxAckDelay false 0 0.

Definition IgnoreBelow (h : appDataTracker) (pn : Z) : appDataTracker :=
  if pn <=? ignoreBelow h then h else
  let t := base h in
  mkApp (mkTracker (ect0 t) (ect1 t) (ecnce t) (DeleteBelow (packetHistory t) pn) (lastAck t) (hasNewAck t))
    (largestObservedRcvdTime h) (largestObserved h) pn (maxAckDelay h) (ackQueued h)
    (ackElicitingPacketsReceivedSinceLastAck h) (ackAlarm h).

(** The last ACK frame is consulted; one without ranges would panic. *)
Definition isMissing (h : appDataTracker) (p : Z) : res terr bool :=
  match lastAck (base h) with
  | None => Ok false
  | Some a =>
      if p <? ignoreBelow h then Ok false else
      match LargestAcked a with
      | Ok la =>
          if p <? la then
            match AcksPacket a p with Ok acked => Ok (negb acked) | _ => Panic end
          else Ok false
      | _ => Panic
      end
  end.

Definition hasNewMissingPackets (h : appDataTracker) : res terr bool :=
  match lastAck (base h) with
  | None => Ok false
  | Some a =>
      if largestObserved h <? reorderingThreshold then Ok false else
      let highestMissing :=
        HighestMissingUpTo (packetHistory (base h)) (largestObserved h - reorderingThreshold) in
      if highestMissing =? InvalidPacketNumber then Ok false else
      match LargestAcked a with
      | Ok la =>
          if highestMissing <? la then Ok false
          else Ok (la - reorderingThreshold <? highestMissing)
      | _ => Panic
      end
  end.

Definition shouldQueueACK (h : appDataTracker) (ecn : ECN) (wasMissing : bool) : res terr bool :=
  if wasMissing then Ok true
  else if packetsBeforeAck <=? ackElicitingPacketsReceivedSinceLastAck h then Ok true
  else
    m ← hasNewMissingPackets h;
    if (m : bool) then Ok true else Ok (match ecn with ECN_CE => true | _ => false end).

Definition app_ReceivedPacket (h : appDataTracker) (pn : Z) (ecn : ECN) (rcvTime : Z) (ackEliciting : bool)
    : res terr appDataTracker :=
  t ← tr_ReceivedPacket (base h) pn ecn ackEliciting;
  let '(rt, lo) := if largestObserved h <=? pn then (rcvTime, pn)
                   else (largestObservedRcvdTime h, largestObserved h) in
  let count := ackElicitingPacketsReceivedSinceLastAck h in
  if negb ackEliciting then
    Ok (mkApp t rt lo (ignoreBelow h) (maxAckDelay h) (ackQueued h) count (ackAlarm h))
  else
    let h := mkApp t rt lo (ignoreBelow h) (maxAckDelay h) (ackQueued h) (count + 1) (ackAlarm h) in
    missing ← isMissing h pn;
    queue ← (if negb (ackQueued h) then shouldQueueACK h ecn missing else Ok false);
    let '(queued, alarm) := if (queue : bool) then (true, 0) else (ackQueued h, ackAlarm h) in
    let alarm := if negb queued then rcvTime + maxAckDelay h else alarm in
    Ok (mkApp t rt lo (ignoreBelow h) (maxAckDelay h) queued (count + 1) alarm).

Definition app_GetAckFrame (h : appDataTracker) (now : Z) (onlyIfQueued : bool)
    : option AckFrame * appDataTracker :=
  if onlyIfQueued && negb (ackQueued h) && ((ackAlarm h =? 0) || (now <? ackAlarm h)) then (None, h) else
  match GetAckFrame (base h) with
  | (None, _) => (None, h)
  | (Some ack, t) =>
      let ack := mkAck (AckRanges ack) (Z.max 0 (now - largestObservedRcvdTime h)) (ECT0 ack) (ECT1 ack)
                   (ECNCE ack) in
      let t := mkTracker (ect0 t) (ect1 t) (ecnce t) (packetHistory t) (Some ack) (hasNewAck t) in
      (Some ack, mkApp t (largestObservedRcvdTime h) (largestObserved h) (ignoreBelow h) (maxAckDelay h)
                   false 0 0)
  end.

(** The frame that was handed out is the tracker's own: the packet packer may
    truncate it. *)
Definition truncate_last (h : appDataTracker) (n : nat) : appDataTracker :=
  let t := base h in
  mkApp (mkTracker (ect0 t) (ect1 t) (ecnce t) (packetHistory t)
           ((fun a => first_ranges a n) <$> lastAck t) (hasNewAck t))
    (largestObservedRcvdTime h) (largestObserved h) (ignoreBelow h) (maxAckDelay h) (ackQueued h)
    (ackElicitingPacketsReceivedSinceLastAck h) (ackAlarm h).

(** ** The three packet number spaces *)

Record ReceivedPacketHandler := mkHandler {
  initialPackets : option receivedPacketTracker; handshakePackets : option receivedPacketTracker;
  appDataPackets : appDataTracker; lowest1RTTPacket : Z }.

Definition NewReceivedPacketHandler : ReceivedPacketHandler :=
  mkHandler (Some newReceivedPacketTracker) (Some newReceivedPacketTracker)
    newAppDataReceivedPacketTracker InvalidPacketNumber.

Section handler.
Import FrameParser.

(** The Initial tracker is used without a check: nil would panic. *)
Definition h_ReceivedPacket (h : ReceivedPacketHandler) (pn : Z) (ecn : ECN) (encLevel : EncryptionLevel)
    (rcvTime : Z) (ackEliciting : bool) : res terr ReceivedPacketHandler :=
  match encLevel with
  | EncryptionInitial =>
      match initialPackets h with
      | None => Panic
      | Some t =>
          t ← tr_ReceivedPacket t pn ecn ackEliciting;
          Ok (mkHandler (Some t) (handshakePackets h) (appDataPackets h) (lowest1RTTPacket h))
      end
  | EncryptionHandshake =>
      match handshakePackets h with
      | None => Ok h
      | Some t =>
          t ← tr_ReceivedPacket t pn ecn ackEliciting;
          Ok (mkHandler (initialPackets h) (Some t) (appDataPackets h) (lowest1RTTPacket h))
      end
  | Encryption0RTT =>
      if negb (lowest1RTTPacket h =? InvalidPacketNumber) && (lowest1RTTPacket h <? pn)
      then Err (err0RTTAfter1RTT pn (lowest1RTTPacket h)) else
      a ← app_ReceivedPacket (appDataPackets h) pn ecn rcvTime ackEliciting;
      Ok (mkHandler (initialPackets h) (handshakePackets h) a (lowest1RTTPacket h))
  | Encryption1RTT =>
      let low := if (lowest1RTTPacket h =? InvalidPacketNumber) || (pn <? lowest1RTTPacket h)
                 then pn else lowest1RTTPacket h in
      a ← app_ReceivedPacket (appDataPackets h) pn ecn rcvTime ackEliciting;
      Ok (mkHandler (initialPackets h) (handshakePackets h) a low)
  end.

Definition IgnorePacketsBelow (h : ReceivedPacketHandler) (pn : Z) : ReceivedPacketHandler :=
  mkHandler (initialPackets h) (handshakePackets h) (IgnoreBelow (appDataPackets h) pn) (lowest1RTTPacket h).

Definition DropPackets (h : ReceivedPacketHandler) (encLevel : EncryptionLevel)
    : res terr ReceivedPacketHandler :=
  match encLevel with
  | EncryptionInitial => Ok (mkHandler None (handshakePackets h) (appDataPackets h) (lowest1RTTPacket h))
  | EncryptionHandshake => Ok (mkHandler (initialPackets h) None (appDataPackets h) (lowest1RTTPacket h))
  | Encryption0RTT => Ok h
  | Encryption1RTT => Panic
  end.

Definition h_GetAckFrame (h : ReceivedPacketHandler) (encLevel : EncryptionLevel) (now : Z) (onlyIfQueued : bool)
    : option AckFrame * ReceivedPacketHandler :=
  match encLevel with
  | EncryptionInitial =>
      match initialPackets h with
      | None => (None, h)
      | Some t => let '(a, t) := GetAckFrame t in
                  (a, mkHandler (Some t) (handshakePackets h) (appDataPackets h) (lowest1RTTPacket h))
      end
  | EncryptionHandshake =>
      match handshakePackets h with
      | None => (None, h)
      | Some t => let '(a, t) := GetAckFrame t in
                  (a, mkHandler (initialPackets h) (Some t) (appDataPackets h) (lowest1RTTPacket h))
      end
  | Encryption1RTT =>
      let '(a, t) := app_GetAckFrame (appDataPackets h) now onlyIfQueued in
      (a, mkHandler (initialPackets h) (handshakePackets h) t (lowest1RTTPacket h))
  | Encryption0RTT => (None, h)
  end.

Definition h_IsPotentiallyDuplicate (h : ReceivedPacketHandler) (pn : Z) (encLevel : EncryptionLevel)
    : res terr bool :=
  match encLevel with
  | EncryptionInitial =>
      match initialPackets h with Some t => Ok (tr_IsPotentiallyDuplicate t pn) | None => Panic end
  | EncryptionHandshake =>
      match handshakePackets h with Some t => Ok (tr_IsPotentiallyDuplicate t pn) | None => Panic end
  | _ => Ok (tr_IsPotentiallyDuplicate (base (appDataPackets h)) pn)
  end.
End handler.

(** ** Runs of the application data tracker *)

(** What happened: a packet was processed, a limit was set, an ACK was asked for
    (and sent, or not), the last ACK was truncated. *)
Inductive event :=
| EvRecv (pn rcvTime : Z) (ackEliciting : bool)
| EvIgnore (pn : Z)
| EvGet (sent : bool)
| EvTruncate (n : nat).

Inductive run : list event -> appDataTracker -> Prop :=
| run_new : run [] newAppDataReceivedPacketTracker
| run_recv evs h pn ecn t el h' :
    run evs h -> vrange pn -> 0 < t < 2 ^ 62 -> app_ReceivedPacket h pn ecn t el = Ok h' ->
    run (evs ++ [EvRecv pn t el]) h'
| run_ignore evs h pn : run evs h -> run (evs ++ [EvIgnore pn]) (IgnoreBelow h pn)
| run_get evs h now q a h' :
    run evs h -> app_GetAckFrame h now q = (a, h') -> run (evs ++ [EvGet (bool_decide (is_Some a))]) h'
| run_truncate evs h n : run evs h -> (1 <= n)%nat -> run (evs ++ [EvTruncate n]) (truncate_last h n).

(** When the first ack-eliciting packet arrived that no ACK was sent for yet. *)
Definition waiting_step (w : option Z) (e : event) : option Z :=
  match e with
  | EvRecv _ t true => match w with Some t0 => Some t0 | None => Some t end
  | EvGet true => None
  | _ => w
  end.
Definition waiting (evs : list event) : option Z := fold_left waiting_step evs None.

Definition received (evs : list event) (q : Z) : bool :=
  existsb (fun e => match e with EvRecv pn _ _ => q =? pn | _ => false end) evs.

(** Either an ACK is queued or its alarm is set for the first packet waiting. *)
Definition timely (w : option Z) (h : appDataTracker) : Prop :=
  maxAckDelay h = MaxAckDelay /\ 0 <= largestObservedRcvdTime h < 2 ^ 62 /\
  match w with
  | None => hasNewAck (base h) = false /\ ackQueued h = false /\
            ackElicitingPacketsReceivedSinceLastAck h = 0
  | Some t => hasNewAck (base h) = true /\ 0 < t /\ 1 <= ackElicitingPacketsReceivedSinceLastAck h /\
              (ackQueued h = true \/ ackAlarm h = t + MaxAckDelay)
  end.

Lemma waiting_snoc evs e : waiting (evs ++ [e]) = waiting_step (waiting evs) e.
Proof. unfold waiting. by rewrite fold_left_app. Qed.

Lemma tracker_received_flags t pn ecn el t' : tr_ReceivedPacket t pn ecn el = Ok t' ->
  hasNewAck t' = el || hasNewAck t /\ lastAck t' = lastAck t /\
  packetHistory t' = (History.ReceivedPacket (packetHistory t) pn).1.
Proof.
  unfold tr_ReceivedPacket. destruct (History.ReceivedPacket _ _) as [h b]. destruct b; cbn [negb]; [|done].
  intros [= <-]. by destruct el.
Qed.

Lemma timely_recv w h pn ecn t el h' :
  timely w h -> 0 < t < 2 ^ 62 -> app_ReceivedPacket h pn ecn t el = Ok h' ->
  timely (waiting_step w (EvRecv pn t el)) h'.
Proof.
  intros (Hm & Ht & Hw) Hr. unfold app_ReceivedPacket.
  destruct (tr_ReceivedPacket (base h) pn ecn el) as [tr| |] eqn:Hb; [|done..]. cbn [mbind res_bind].
  destruct (tracker_received_flags _ _ _ _ _ Hb) as (Hn & _ & _).
  set (pr := if largestObserved h <=? pn then _ else _).
  assert (Hpr : 0 <= pr.1 < 2 ^ 62) by (unfold pr; destruct (_ <=? _); cbn; lia).
  destruct pr as [rt lo]. cbn [fst] in Hpr. destruct el; cbn [negb].
  - destruct (isMissing _ pn) as [missing| |]; [|done..]. cbn [mbind res_bind ackQueued].
    destruct (ackQueued h) eqn:Hq; cbn [negb].
    + cbn [mbind res_bind negb]. intros [= <-].
      destruct w as [t0|]; cbn [waiting_step]; [|by destruct Hw as (_ & ? & _)].
      destruct Hw as (_ & ? & ? & _). split_and!; try done; cbn; lia || by left.
    + destruct (shouldQueueACK _ ecn missing) as [q| |] eqn:Hs; [|done..]. cbn [mbind res_bind].
      destruct q; cbn [negb]; intros [= <-].
      * destruct w as [t0|]; cbn [waiting_step]; [destruct Hw as (_ & ? & ? & _)|destruct Hw as (_ & _ & Hz)];
          split_and!; try done; cbn; lia || by left.
      * assert (Hc : ackElicitingPacketsReceivedSinceLastAck h + 1 < packetsBeforeAck).
        { unfold shouldQueueACK in Hs. destruct missing; [done|]. cbn in Hs.
          destruct (Z.leb_spec packetsBeforeAck (ackElicitingPacketsReceivedSinceLastAck h + 1)); [done|lia]. }
        unfold packetsBeforeAck in Hc. destruct w as [t0|]; cbn [waiting_step].
        -- destruct Hw as (_ & _ & ? & _). lia.
        -- destruct Hw as (_ & _ & Hz). split_and!; try done; cbn; lia.
  - intros [= <-]. cbn [waiting_step]. split_and!; try done; try (cbn; lia).
    destruct w; cbn in *; by rewrite Hn.
Qed.

Lemma timely_get w h now q a h' :
  timely w h -> app_GetAckFrame h now q = (a, h') ->
  timely (waiting_step w (EvGet (bool_decide (is_Some a)))) h'.
Proof.
  intros (Hm & Ht & Hw). unfold app_GetAckFrame. destruct (_ && _ && _).
  { intros [= <- <-]. by rewrite bool_decide_eq_false_2 by (by intros []). }
  unfold GetAckFrame. destruct (hasNewAck (base h)) eqn:Hn; cbn [negb].
  - intros [= <- <-]. rewrite bool_decide_eq_true_2 by eauto. cbn. split_and!; try done; apply Ht.
  - intros [= <- <-]. rewrite bool_decide_eq_false_2 by (by intros []).
    destruct w; [by destruct Hw|]. cbn [waiting_step]. split_and!; try done; apply Ht || apply Hw.
Qed.

Lemma run_timely evs h : run evs h -> timely (waiting evs) h.
Proof.
  induction 1 as [|evs h pn ecn t el h' _ IH _ Ht Hr|evs h pn _ IH|evs h now q a h' _ IH Hg|evs h n _ IH _];
    rewrite ?waiting_snoc.
  - by split_and!; cbn.
  - by eapply timely_recv.
  - unfold IgnoreBelow. destruct (_ <=? _); [done|]. done.
  - by eapply timely_get.
  - done.
Qed.

(** C25: a packet that asks for an acknowledgement gets one in time: as soon as 25 milliseconds have
    passed since the first such packet that is not acknowledged, an ACK frame is returned, even if
    only queued ACKs are asked for. *)
Theorem ack_sent_in_time (evs : list event) (h : appDataTracker) (t now : Z) :
  run evs h -> waiting evs = Some t -> t + MaxAckDelay <= now ->
  exists ack h', app_GetAckFrame h now true = (Some ack, h') /\ waiting (evs ++ [EvGet true]) = None.
Proof.
  intros Hrun Hw Hnow. pose proof (run_timely _ _ Hrun) as (_ & _ & Hi). rewrite Hw in Hi.
  destruct Hi as (Hn & Ht & _ & Hq). rewrite waiting_snoc. unfold app_GetAckFrame, GetAckFrame.
  assert (true && negb (ackQueued h) && ((ackAlarm h =? 0) || (now <? ackAlarm h)) = false) as ->.
  { unfold MaxAckDelay in *. destruct (ackQueued h); [done|]. destruct Hq as [|Hq]; [done|]. lia. }
  rewrite Hn. cbn [negb]. by eexists _, _.
Qed.

Lemma ack_sent_in_time_witness :
  exists h, run [EvRecv 7 100 true] h /\
  exists ack h', app_GetAckFrame h (100 + MaxAckDelay) true = (Some ack, h').
Proof.
  assert (Hr : run ([] ++ [EvRecv 7 100 true])
    (mkApp (mkTracker 0 0 0 (mkHistory [mkInterval 7 7] (-1)) None true) 100 7 0 MaxAckDelay false 1 (100 + MaxAckDelay))).
  { eapply (run_recv _ _ _ ECNNon); [apply run_new|split; by vm_compute|lia|by vm_compute]. }
  eexists. split; [exact Hr|].
  destruct (ack_sent_in_time _ _ 100 (100 + MaxAckDelay) Hr) as (ack & h' & H & _); [done|lia|]. eauto.
Defined.

(** ** What is acknowledged *)

(** The history of a run is that of its packets and limits. *)
Definition tracks (evs : list event) (ops : list op) (h : appDataTracker) : Prop :=
  packetHistory (base h) = exec ops /\ Forall op_ok ops /\ (forall q, seen ops q = received evs q) /\
  0 <= ect0 (base h) <= Z.of_nat (length evs) /\ 0 <= ect1 (base h) <= Z.of_nat (length evs) /\
  0 <= ecnce (base h) <= Z.of_nat (length evs).

Lemma received_snoc evs e q :
  received (evs ++ [e]) q = received evs q || match e with EvRecv pn _ _ => q =? pn | _ => false end.
Proof. unfold received. rewrite existsb_app. cbn. by rewrite orb_false_r. Qed.

Lemma seen_snoc ops o q :
  seen (ops ++ [o]) q = seen ops q || match o with Recv p => q =? p | _ => false end.
Proof. unfold seen. rewrite existsb_app. cbn. by rewrite orb_false_r. Qed.

Lemma tracks_recv evs ops h pn ecn t el h' :
  tracks evs ops h -> Z.of_nat (length evs) < 2 ^ 62 -> vrange pn ->
  app_ReceivedPacket h pn ecn t el = Ok h' -> tracks (evs ++ [EvRecv pn t el]) (ops ++ [Recv pn]) h'.
Proof.
  intros (Hh & Hops & Hseen & H0 & H1 & H2) Hlen Hpn Hr.
  assert (Hb : tr_ReceivedPacket (base h) pn ecn el = Ok (base h')).
  { revert Hr. unfold app_ReceivedPacket. destruct (tr_ReceivedPacket (base h) pn ecn el) as [tr| |]; [|done..].
    cbn [mbind res_bind]. destruct (if largestObserved h <=? pn then _ else _) as [rt lo].
    destruct el; cbn [negb]; [|by intros [= <-]].
    destruct (isMissing _ pn) as [m| |]; [|done..]. cbn [mbind res_bind].
    destruct (if negb _ then _ else _) as [q| |]; [|done..]. cbn [mbind res_bind].
    destruct (if q then _ else _) as [qd al]. by intros [= <-]. }
  destruct (tracker_received_flags _ _ _ _ _ Hb) as (_ & _ & Hh').
  assert (Hcnt : ect0 (base h) <= ect0 (base h') <= ect0 (base h) + 1 /\
                 ect1 (base h) <= ect1 (base h') <= ect1 (base h) + 1 /\
                 ecnce (base h) <= ecnce (base h') <= ecnce (base h) + 1).
  { revert Hb. unfold tr_ReceivedPacket. destruct (History.ReceivedPacket _ _) as [hh b]. destruct b; [|done].
    intros [= <-]. cbn. unfold u64. destruct ecn; rewrite ?Z.mod_small by lia; lia. }
  unfold tracks. rewrite length_app. cbn [length].
  split_and!; try lia.
  - rewrite Hh', Hh, exec_snoc. done.
  - by rewrite Forall_app, Forall_singleton.
  - intros q. by rewrite seen_snoc, received_snoc, Hseen.
Qed.

Lemma run_tracks evs h : run evs h -> Z.of_nat (length evs) < 2 ^ 62 -> exists ops, tracks evs ops h.
Proof.
  assert (Hmono : forall evs e ops h, tracks evs ops h -> match e with EvRecv _ _ _ => False | _ => True end ->
    tracks (evs ++ [e]) ops h).
  { intros evs' e ops h' (Hh & Hops & Hseen & H0 & H1 & H2) He. unfold tracks. rewrite length_app. cbn [length].
    split_and!; try done; try lia. intros q. rewrite received_snoc, Hseen. destruct e; try done; by rewrite orb_false_r. }
  induction 1 as [|evs h pn ecn t el h' _ IH Hpn _ Hr|evs h pn _ IH|evs h now q a h' _ IH Hg|evs h n _ IH _];
    rewrite ?length_app; cbn [length]; intros Hlen.
  - exists []. split_and!; try done; cbn; lia.
  - destruct IH as [ops Ho]; [lia|]. exists (ops ++ [Recv pn]). eapply tracks_recv; [done|lia|done..].
  - destruct IH as [ops Ho]; [lia|]. unfold IgnoreBelow. destruct (_ <=? _); [eauto|].
    exists (ops ++ [Delete pn]). pose proof Ho as (Hh & Hops & Hseen & H0 & H1 & H2).
    apply Hmono; [|done]. split_and!; try done; try (cbn; lia).
    + cbn. by rewrite Hh, exec_snoc.
    + by rewrite Forall_app, Forall_singleton.
    + intros q. by rewrite seen_snoc, orb_false_r, Hseen.
  - destruct IH as [ops Ho]; [lia|]. exists ops. apply Hmono; [|done].
    revert Hg. unfold app_GetAckFrame. destruct (_ && _ && _); [by intros [= <- <-]|].
    unfold GetAckFrame. destruct (hasNewAck (base h)); cbn [negb]; by intros [= <- <-].
  - destruct IH as [ops Ho]; [lia|]. exists ops. by apply Hmono.
Qed.

Lemma contains_seen ops q : Forall op_ok ops -> contains (ranges (exec ops)) q = true -> seen ops q = true.
Proof.
  induction ops as [|o ops IH] using rev_ind; [done|]. rewrite Forall_app, Forall_singleton.
  intros [Hops Ho]. pose proof (exec_ok ops Hops) as Hok. rewrite exec_snoc, seen_snoc.
  destruct o as [p|p]; cbn [exec_op].
  - pose proof (received_spec _ p Hok Ho) as Hs. destruct (History.ReceivedPacket _ p) as [h' b].
    destruct Hs as (_ & _ & _ & Hs & _). cbn [fst]. intros Hq. specialize (Hs q Hq).
    destruct (contains (ranges (exec ops)) q) eqn:Hc; [by rewrite IH|]. cbn [orb] in Hs. by rewrite Hs, orb_true_r.
  - destruct (delete_spec (exec ops) p Hok) as (_ & _ & Hs). rewrite Hs. intros [Hq _]%andb_prop. by rewrite IH.
Qed.

Lemma desc_ranges b l : desc_ok b l -> ranges_ok b (map (fun r => mkRange (Start r) (End_ r)) l).
Proof. revert b. induction l as [|r l IH]; intros b; [done|]. intros (H1 & H2 & H3). cbn. split_and!; [lia..|]. by apply IH. Qed.

Lemma contains_ranges l q :
  existsb (fun r => (Smallest r <=? q) && (q <=? Largest r)) (map (fun r => mkRange (Start r) (End_ r)) l)
  = contains l q.
Proof. unfold contains. by induction l as [|r l IH]; [|cbn; rewrite IH]. Qed.

(** An ACK frame that reports anything can be sent, and the peer that parses it finds exactly the
    recorded packet numbers acknowledged: only packets that were received, and, as long as their
    numbers form fewer than 64 ranges, all of them above the limit. *)
Theorem ack_frame_reports_received (evs : list event) (h h' : appDataTracker) (now : Z) (q : bool) (a : AckFrame) :
  run evs h -> Z.of_nat (length evs) < 2 ^ 62 -> 0 <= now < 2 ^ 63 ->
  app_GetAckFrame h now q = (Some a, h') -> ranges (packetHistory (base h)) <> [] ->
  exists body g ops,
    AppendAckFrame [] a = Ok (venc (frame_type a) ++ body) /\
    parseAckFrame (Reset (mkAck [] 0 0 0 0)) (frame_type a) AckDelayExponent body = Ok (g, blen body) /\
    packetHistory (base h) = exec ops /\ (forall p, seen ops p = received evs p) /\
    (forall p, AcksPacket g p = Ok true -> received evs p = true) /\
    (never_full ops -> forall p, AcksPacket g p = Ok (received evs p && (limit ops <=? p))).
Proof.
  intros Hrun Hlen Hnow Hget Hne. destruct (run_tracks evs h Hrun Hlen) as (ops & Hh & Hops & Hseen & H0 & H1 & H2).
  destruct (run_timely evs h Hrun) as (_ & Ht & _). pose proof (exec_ok ops Hops) as (Hdesc & Hnum & _).
  assert (Ha : a = mkAck (map (fun r => mkRange (Start r) (End_ r)) (rev (ranges (exec ops))))
    (Z.max 0 (now - largestObservedRcvdTime h)) (ect0 (base h)) (ect1 (base h)) (ecnce (base h))).
  { revert Hget. unfold app_GetAckFrame, GetAckFrame, Backward. rewrite Hh.
    destruct (_ && _ && _); [done|]. destruct (hasNewAck (base h)); cbn [negb]; [|done]. by intros [= <- _]. }
  assert (Hok : ack_ok a).
  { rewrite Ha. split_and!; cbn; try solve_v; try lia.
    - rewrite Hh in Hne. intros Hm%map_eq_nil. apply Hne. by rewrite <- (rev_involutive (ranges _)), Hm.
    - by apply desc_ranges. }
  destruct (codec_roundtrip (LawfulCodec:=Ack_lawful) a Hok) as (_ & body & Happ & _ & Hparse).
  exists body, (Wire.received a), ops. specialize (Hparse [] (or_intror eq_refl)). rewrite app_nil_r in Hparse.
  assert (Hg : forall p, AcksPacket (Wire.received a) p = Ok (contains (ranges (exec ops)) p)).
  { intros p. assert (Hr : AckRanges (Wire.received a) = map (fun r => mkRange (Start r) (End_ r)) (rev (ranges (exec ops)))).
    { rewrite Ha. cbn [Wire.received Ack_codec AckRanges]. apply take_ge. rewrite length_map, length_rev. exact Hnum. }
    rewrite AcksPacket_spec, Hr, contains_ranges, contains_rev; [done|].
    destruct Hok as (? & ? & ? & ? & ? & ?). split_and!; rewrite ?Hr; try done.
    - rewrite Hh in Hne. intros Hm%map_eq_nil. apply Hne. by rewrite <- (rev_involutive (ranges _)), Hm.
    - by apply desc_ranges.
    - cbn. dlia.
    - cbn. dlia. }
  split_and!; [exact (Happ [])|exact Hparse|done|done| |].
  - intros p. rewrite Hg. intros [= Hp]. rewrite <- Hseen. by apply contains_seen.
  - intros Hfull p. rewrite Hg. destruct (exec_contains ops Hops Hfull) as [_ ->]. by rewrite Hseen.
Qed.

Lemma ack_frame_reports_received_witness :
  exists h a h', run [EvRecv 7 100 true] h /\ app_GetAckFrame h 200 false = (Some a, h') /\
  exists body g, AppendAckFrame [] a = Ok (venc (frame_type a) ++ body) /\
    (forall p, AcksPacket g p = Ok true -> received [EvRecv 7 100 true] p = true).
Proof.
  assert (Hr : run ([] ++ [EvRecv 7 100 true])
    (mkApp (mkTracker 0 0 0 (mkHistory [mkInterval 7 7] (-1)) None true) 100 7 0 MaxAckDelay false 1 (100 + MaxAckDelay))).
  { eapply (run_recv _ _ _ ECNNon); [apply run_new|split; by vm_compute|lia|by vm_compute]. }
  set (h := mkApp _ _ _ _ _ _ _ _) in Hr.
  assert (exists a h', app_GetAckFrame h 200 false = (Some a, h')) as (a & h' & Hg) by (eexists _, _; reflexivity).
  exists h, a, h'. split; [exact Hr|]. split; [exact Hg|].
  destruct (ack_frame_reports_received _ _ h' 200 false a Hr) as (body & g & ops & H1 & _ & _ & _ & H2 & _);
    [cbn; lia|lia|exact Hg|done|]. exists body, g. split; [exact H1|exact H2].
Defined.

End Tracker.
