(* ===== verification/FlowControl.v ===== *)
(** * Flow control of streams and the connection
    (src/quicfork/internal/flowcontrol)

    A stream controller and the connection controller it charges.  Byte counts
    are below 2^62, so sums of two do not overflow [int64].  The products of a
    window size with 3/4 and 3/2 are exact in [float64] for sizes below 2^51 and
    are written on integers; the auto-tuning comparison is computed with binary64
    numbers.  The smoothed RTT and the answers of [allowWindowIncrease] are
    arguments. *)

From Stdlib Require Import Floats.SpecFloat ZifyBool.
From stdpp Require Import gmap.
From S2P Require Import Prelude GoBytes Quality.
Local Open Scope Z_scope.

Module FlowControl.

Record baseFlowController := mkBase {
  bytesSent : Z; sendWindow : Z; lastBlockedAt : Z;
  bytesRead : Z; highestReceived : Z; receiveWindow : Z; receiveWindowSize : Z; maxReceiveWindowSize : Z;
  epochStartTime : Z; epochStartOffset : Z }.

(** ** Sending *)

Definition SendWindowSize (c : baseFlowController) : Z :=
  if sendWindow c <? bytesSent c then 0 else sendWindow c - bytesSent c.

Definition IsNewlyBlocked (c : baseFlowController) : bool * Z * baseFlowController :=
  if negb (SendWindowSize c =? 0) || (sendWindow c =? lastBlockedAt c) then (false, 0, c)
  else (true, sendWindow c,
        mkBase (bytesSent c) (sendWindow c) (sendWindow c) (bytesRead c) (highestReceived c)
          (receiveWindow c) (receiveWindowSize c) (maxReceiveWindowSize c) (epochStartTime c) (epochStartOffset c)).

Definition AddBytesSent (c : baseFlowController) (n : Z) : baseFlowController :=
  mkBase (bytesSent c + n) (sendWindow c) (lastBlockedAt c) (bytesRead c) (highestReceived c)
    (receiveWindow c) (receiveWindowSize c) (maxReceiveWindowSize c) (epochStartTime c) (epochStartOffset c).

Definition UpdateSendWindow (c : baseFlowController) (offset : Z) : bool * baseFlowController :=
  if sendWindow c <? offset then
    (true, mkBase (bytesSent c) offset (lastBlockedAt c) (bytesRead c) (highestReceived c)
       (receiveWindow c) (receiveWindowSize c) (maxReceiveWindowSize c) (epochStartTime c) (epochStartOffset c))
  else (false, c).

(** ** Receiving *)

Definition with_recv (c : baseFlowController) (read highest window size start offset : Z) : baseFlowController :=
  mkBase (bytesSent c) (sendWindow c) (lastBlockedAt c) read highest window size (maxReceiveWindowSize c)
    start offset.

Definition addBytesRead (c : baseFlowController) (n : Z) : baseFlowController :=
  with_recv c (bytesRead c + n) (highestReceived c) (receiveWindow c) (receiveWindowSize c)
    (epochStartTime c) (epochStartOffset c).

(** [ByteCount(float64(size) * (1 - WindowUpdateThreshold))] *)
Definition update_threshold (size : Z) : Z := Z.quot (3 * size) 4.

Definition hasWindowUpdate (c : baseFlowController) : bool :=
  receiveWindow c - bytesRead c <=? update_threshold (receiveWindowSize c).

Definition startNewAutoTuningEpoch (c : baseFlowController) (now : Z) : baseFlowController :=
  with_recv c (bytesRead c) (highestReceived c) (receiveWindow c) (receiveWindowSize c) now (bytesRead c).

(** [time.Duration(f)]: truncation towards zero of a finite number. *)
Definition duration_of (f : Quality.float64) : Z :=
  match f with
  | S754_finite s m e =>
      let z := if 0 <=? e then Z.shiftl (Zpos m) e else Z.shiftr (Zpos m) (- e) in
      if s then - z else z
  | _ => 0
  end.

(** [now.Sub(c.epochStartTime) < time.Duration(4*fraction*float64(rtt))] *)
Definition consumed_fast (elapsed bytesReadInEpoch size rtt : Z) : bool :=
  let fraction := SFdiv 53 1024 (Quality.of_Z bytesReadInEpoch) (Quality.of_Z size) in
  elapsed <? duration_of (Quality.fmul (Quality.fmul (Quality.of_Z 4) fraction) (Quality.of_Z rtt)).

Section tuning.
(** The smoothed RTT, and whether [allowWindowIncrease] (if there is one)
    agrees to an increase. *)
Context (rtt : Z) (allow : Z -> bool).

Definition maybeAdjustWindowSize (c : baseFlowController) (now : Z) : baseFlowController :=
  let bytesReadInEpoch := bytesRead c - epochStartOffset c in
  if bytesReadInEpoch <=? Z.quot (receiveWindowSize c) 2 then c
  else if rtt =? 0 then c
  else
    let size :=
      if consumed_fast (now - epochStartTime c) bytesReadInEpoch (receiveWindowSize c) rtt then
        let newSize := Z.min (2 * receiveWindowSize c) (maxReceiveWindowSize c) in
        if (receiveWindowSize c <? newSize) && allow (newSize - receiveWindowSize c)
        then newSize else receiveWindowSize c
      else receiveWindowSize c in
    startNewAutoTuningEpoch
      (with_recv c (bytesRead c) (highestReceived c) (receiveWindow c) size
         (epochStartTime c) (epochStartOffset c)) now.

Definition getWindowUpdate (c : baseFlowController) (now : Z) : Z * baseFlowController :=
  if negb (hasWindowUpdate c) then (0, c) else
  let c := maybeAdjustWindowSize c now in
  let w := bytesRead c + receiveWindowSize c in
  (w, with_recv c (bytesRead c) (highestReceived c) w (receiveWindowSize c)
        (epochStartTime c) (epochStartOffset c)).

(** [EnsureMinimumWindowSize] of the connection. *)
Definition EnsureMinimumWindowSize (c : baseFlowController) (inc now : Z) : baseFlowController :=
  if inc <=? receiveWindowSize c then c else
  let newSize := Z.min inc (maxReceiveWindowSize c) in
  let delta := newSize - receiveWindowSize c in
  let size := if (0 <? delta) && allow delta then newSize else receiveWindowSize c in
  startNewAutoTuningEpoch
    (with_recv c (bytesRead c) (highestReceived c) (receiveWindow c) size
       (epochStartTime c) (epochStartOffset c)) now.
End tuning.

Definition checkFlowControlViolation (c : baseFlowController) : bool := receiveWindow c <? highestReceived c.

(** ** The connection *)

Inductive ferr :=
| errInconsistentFinal | errBeyondFinal | errFinalBelow      (* FINAL_SIZE_ERROR *)
| errStreamFlow | errConnFlow                                (* FLOW_CONTROL_ERROR *)
| errResetAfterRead.

Definition NewConnectionFlowController (window maxWindow : Z) : baseFlowController :=
  mkBase 0 0 0 0 0 window window maxWindow 0 0.

Definition IncrementHighestReceived (c : baseFlowController) (increment now : Z)
    : baseFlowController * option ferr :=
  let c := if highestReceived c =? 0 then startNewAutoTuningEpoch c now else c in
  let c := with_recv c (bytesRead c) (highestReceived c + increment) (receiveWindow c) (receiveWindowSize c)
             (epochStartTime c) (epochStartOffset c) in
  (c, if checkFlowControlViolation c then Some errConnFlow else None).

Definition conn_AddBytesRead (c : baseFlowController) (n : Z) : bool * baseFlowController :=
  let c := addBytesRead c n in (hasWindowUpdate c, c).

Definition Reset (c : baseFlowController) : baseFlowController * option ferr :=
  if (0 <? bytesRead c) || (0 <? highestReceived c) || negb (epochStartTime c =? 0) then (c, Some errResetAfterRead)
  else (mkBase 0 0 0 (bytesRead c) (highestReceived c) (receiveWindow c) (receiveWindowSize c)
          (maxReceiveWindowSize c) (epochStartTime c) (epochStartOffset c), None).

(** ** Streams *)

Record streamFlowController := mkStreamFC { fc : baseFlowController; receivedFinalOffset : bool }.

Definition NewStreamFlowController (window maxWindow initialSendWindow : Z) : streamFlowController :=
  mkStreamFC (mkBase 0 initialSendWindow 0 0 0 window window maxWindow 0 0) false.

(** The stream, the connection and the error, if any. *)
Definition UpdateHighestReceived (s : streamFlowController) (conn : baseFlowController)
    (offset : Z) (final : bool) (now : Z) : streamFlowController * baseFlowController * option ferr :=
  let c := fc s in
  if receivedFinalOffset s && final && negb (offset =? highestReceived c)
  then (s, conn, Some errInconsistentFinal)
  else if receivedFinalOffset s && (highestReceived c <? offset) then (s, conn, Some errBeyondFinal)
  else
    let fin := receivedFinalOffset s || final in
    if offset =? highestReceived c then (mkStreamFC c fin, conn, None)
    else if offset <? highestReceived c then
      (mkStreamFC c fin, conn, if final then Some errFinalBelow else None)
    else
      let c := if highestReceived c =? 0 then startNewAutoTuningEpoch c now else c in
      let increment := offset - highestReceived c in
      let c := with_recv c (bytesRead c) offset (receiveWindow c) (receiveWindowSize c)
                 (epochStartTime c) (epochStartOffset c) in
      if checkFlowControlViolation c then (mkStreamFC c fin, conn, Some errStreamFlow)
      else
        let '(conn, err) := IncrementHighestReceived conn increment now in
        (mkStreamFC c fin, conn, err).

Definition shouldQueueWindowUpdate (s : streamFlowController) : bool :=
  negb (receivedFinalOffset s) && hasWindowUpdate (fc s).

Definition stream_AddBytesRead (s : streamFlowController) (conn : baseFlowController) (n : Z)
    : streamFlowController * baseFlowController * (bool * bool) :=
  let s := mkStreamFC (addBytesRead (fc s) n) (receivedFinalOffset s) in
  let '(hasConn, conn) := conn_AddBytesRead conn n in
  (s, conn, (shouldQueueWindowUpdate s, hasConn)).

Definition Abandon (s : streamFlowController) (conn : baseFlowController)
    : streamFlowController * baseFlowController :=
  let c := fc s in
  let unread := highestReceived c - bytesRead c in
  let s := mkStreamFC (with_recv c (highestReceived c) (highestReceived c) (receiveWindow c)
                         (receiveWindowSize c) (epochStartTime c) (epochStartOffset c)) (receivedFinalOffset s) in
  (s, if 0 <? unread then (conn_AddBytesRead conn unread).2 else conn).

Definition stream_AddBytesSent (s : streamFlowController) (conn : baseFlowController) (n : Z)
    : streamFlowController * baseFlowController :=
  (mkStreamFC (AddBytesSent (fc s) n) (receivedFinalOffset s), AddBytesSent conn n).

Definition stream_SendWindowSize (s : streamFlowController) (conn : baseFlowController) : Z :=
  Z.min (SendWindowSize (fc s)) (SendWindowSize conn).

(** [ByteCount(float64(size) * ConnectionFlowControlMultiplier)] *)
Definition conn_minimum (size : Z) : Z := Z.quot (3 * size) 2.

(** The streams of a connection never ask before increasing; the connection
    does. *)
Definition GetWindowUpdate (rtt : Z) (allow : Z -> bool) (s : streamFlowController) (conn : baseFlowController)
    (now : Z) : Z * streamFlowController * baseFlowController :=
  if receivedFinalOffset s then (0, s, conn) else
  let old := receiveWindowSize (fc s) in
  let '(offset, c) := getWindowUpdate rtt (fun _ => true) (fc s) now in
  let conn := if old <? receiveWindowSize c
              then EnsureMinimumWindowSize allow conn (conn_minimum (receiveWindowSize c)) now else conn in
  (offset, mkStreamFC c (receivedFinalOffset s), conn).

Definition conn_GetWindowUpdate (rtt : Z) (allow : Z -> bool) (conn : baseFlowController) (now : Z)
    : Z * baseFlowController := getWindowUpdate rtt allow conn now.

(** ** A connection with its streams

    Streams stay in the map when they are finished: their bytes keep counting. *)

Record system := mkSystem { conn : baseFlowController; streams : gmap Z streamFlowController }.

Inductive event :=
| Open (id window maxWindow initialSendWindow : Z)
| Receive (id offset : Z) (final : bool) (now : Z)
| ReadBytes (id n : Z)
| AbandonStream (id : Z)
| StreamUpdate (id rtt now : Z) (allow : Z -> bool)
| ConnUpdate (rtt now : Z) (allow : Z -> bool)
| Send (id n : Z)
| MaxStreamData (id offset : Z)
| MaxData (offset : Z)
| Blocked (id : Z)
| ConnBlocked
| Rejected0RTT.

Definition put (st : system) (id : Z) (s : streamFlowController) (c : baseFlowController) : system :=
  mkSystem c (<[id := s]> (streams st)).

(** An event of the connection; [None] when the callers do not issue it in this
    state (data that has not arrived is not read, sends stay in the window,
    streams are opened once) or when it closes the connection with an error. *)
Definition exec (st : system) (e : event) : option system :=
  match e with
  | Open id w mw sw =>
      if decide (streams st !! id = None) then
        if (0 <=? w) && (w <=? mw) && (0 <=? sw)
        then Some (put st id (NewStreamFlowController w mw sw) (conn st)) else None
      else None
  | Receive id offset final now =>
      s ← streams st !! id;
      match UpdateHighestReceived s (conn st) offset final now with
      | (s', c', None) => Some (put st id s' c')
      | (_, _, Some _) => None
      end
  | ReadBytes id n =>
      s ← streams st !! id;
      if (0 <=? n) && (n <=? highestReceived (fc s) - bytesRead (fc s)) then
        let '(s', c', _) := stream_AddBytesRead s (conn st) n in Some (put st id s' c')
      else None
  | AbandonStream id =>
      s ← streams st !! id; let '(s', c') := Abandon s (conn st) in Some (put st id s' c')
  | StreamUpdate id rtt now allow =>
      s ← streams st !! id;
      let '(_, s', c') := GetWindowUpdate rtt allow s (conn st) now in Some (put st id s' c')
  | ConnUpdate rtt now allow =>
      Some (mkSystem (conn_GetWindowUpdate rtt allow (conn st) now).2 (streams st))
  | Send id n =>
      s ← streams st !! id;
      if (0 <=? n) && (n <=? stream_SendWindowSize s (conn st)) then
        let '(s', c') := stream_AddBytesSent s (conn st) n in Some (put st id s' c')
      else None
  | MaxStreamData id offset =>
      s ← streams st !! id;
      Some (put st id (mkStreamFC (UpdateSendWindow (fc s) offset).2 (receivedFinalOffset s)) (conn st))
  | MaxData offset => Some (mkSystem (UpdateSendWindow (conn st) offset).2 (streams st))
  | Blocked id =>
      s ← streams st !! id;
      Some (put st id (mkStreamFC (IsNewlyBlocked (fc s)).2 (receivedFinalOffset s)) (conn st))
  | ConnBlocked => Some (mkSystem (IsNewlyBlocked (conn st)).2 (streams st))
  | Rejected0RTT =>
      match Reset (conn st) with
      | (c', None) => Some (mkSystem c' ∅)
      | (_, Some _) => None
      end
  end.

Fixpoint exec_all (st : system) (es : list event) : option system :=
  match es with [] => Some st | e :: es => st' ← exec st e; exec_all st' es end.

Definition start (window maxWindow : Z) : system := mkSystem (NewConnectionFlowController window maxWindow) ∅.

(** The sum of a counter over the streams. *)
Definition total (f : baseFlowController -> Z) (m : gmap Z streamFlowController) : Z :=
  map_fold (fun _ s acc => f (fc s) + acc) 0 m.

(** One controller: nothing is read before it arrives, nothing arrives beyond the
    window, the window extends at most its size beyond what was read, and nothing
    is sent beyond the peer's window. *)
Definition sound (c : baseFlowController) : Prop :=
  0 <= bytesRead c <= highestReceived c /\ highestReceived c <= receiveWindow c /\
  receiveWindow c <= bytesRead c + receiveWindowSize c /\
  0 <= receiveWindowSize c <= maxReceiveWindowSize c /\
  0 <= bytesSent c <= sendWindow c.

Definition balanced (st : system) : Prop :=
  bytesRead (conn st) = total bytesRead (streams st) /\
  highestReceived (conn st) = total highestReceived (streams st) /\
  bytesSent (conn st) = total bytesSent (streams st).

Definition inv (st : system) : Prop :=
  sound (conn st) /\ map_Forall (fun _ s => sound (fc s)) (streams st) /\ balanced st.

(** The windows [c'] grants and is granted are at least those of [c]. *)
Definition grows (c c' : baseFlowController) : Prop :=
  receiveWindow c <= receiveWindow c' /\ receiveWindowSize c <= receiveWindowSize c' /\
  maxReceiveWindowSize c' = maxReceiveWindowSize c.

(** ** Sums over the streams *)

Lemma total_empty f : total f ∅ = 0.
Proof. reflexivity. Qed.

Lemma total_fresh f m id s : m !! id = None -> total f (<[id:=s]> m) = f (fc s) + total f m.
Proof.
  intros H. unfold total. rewrite map_fold_insert_L; [reflexivity| |done]. intros; lia.
Qed.

Lemma total_insert f m id s s' :
  m !! id = Some s -> total f (<[id:=s']> m) = total f m - f (fc s) + f (fc s').
Proof.
  intros H. rewrite <- (insert_delete_eq m), (total_fresh _ _ _ s') by apply lookup_delete_eq.
  rewrite <- (insert_delete_id m id s H) at 2. rewrite (total_fresh _ _ _ s) by apply lookup_delete_eq. lia.
Qed.

Lemma total_le f g m :
  map_Forall (fun _ s => f (fc s) <= g (fc s)) m -> total f m <= total g m.
Proof.
  induction m as [|id s m Hm IH] using map_ind; intros H; [done|].
  rewrite !total_fresh by done. apply map_Forall_insert in H as [Hs Hr]; [|done]. specialize (IH Hr). lia.
Qed.

(** ** One controller at a time *)

Ltac unfold_fc := unfold sound, grows, with_recv, startNewAutoTuningEpoch, addBytesRead, checkFlowControlViolation in *.

Lemma threshold_le size : 0 <= size -> update_threshold size <= size.
Proof. intros. unfold update_threshold. rewrite Z.quot_div_nonneg by lia. dlia. Qed.

(** What an operation on the window size leaves alone. *)
Definition same_counts (c c' : baseFlowController) : Prop :=
  bytesRead c' = bytesRead c /\ highestReceived c' = highestReceived c /\
  bytesSent c' = bytesSent c /\ sendWindow c' = sendWindow c.

Lemma adjust_spec rtt allow c now :
  sound c -> let c' := maybeAdjustWindowSize rtt allow c now in
  same_counts c c' /\ receiveWindow c' = receiveWindow c /\ grows c c' /\
  receiveWindowSize c' <= maxReceiveWindowSize c.
Proof.
  intros H. unfold maybeAdjustWindowSize, same_counts. unfold_fc.
  repeat case_match; cbn; lia.
Qed.

Lemma window_update_spec rtt allow c now :
  sound c -> let c' := (getWindowUpdate rtt allow c now).2 in
  sound c' /\ same_counts c c' /\ grows c c'.
Proof.
  intros H. unfold getWindowUpdate. case_match eqn:E; [cbn; unfold same_counts; unfold_fc; lia|].
  pose proof (adjust_spec rtt allow c now H) as Ha. cbn zeta in Ha.
  set (c' := maybeAdjustWindowSize rtt allow c now) in *. clearbody c'.
  apply negb_false_iff in E. unfold hasWindowUpdate in E.
  pose proof (threshold_le (receiveWindowSize c)). unfold same_counts in *. unfold_fc. cbn. lia.
Qed.

Lemma ensure_minimum_spec allow c inc now :
  sound c -> let c' := EnsureMinimumWindowSize allow c inc now in
  sound c' /\ same_counts c c' /\ grows c c'.
Proof.
  intros H. unfold EnsureMinimumWindowSize, same_counts. unfold_fc. repeat case_match; cbn; lia.
Qed.

Lemma receive_window_same s c offset final now s' c' e :
  UpdateHighestReceived s c offset final now = (s', c', e) ->
  receiveWindow (fc s') = receiveWindow (fc s) /\ receiveWindow c' = receiveWindow c.
Proof.
  unfold UpdateHighestReceived, IncrementHighestReceived. unfold_fc.
  repeat case_match; intros; simplify_eq; done.
Qed.

(** What a receive does to the stream and, by the same amount, to the connection. *)
Lemma receive_spec s c offset final now s' c' :
  sound (fc s) -> sound c -> UpdateHighestReceived s c offset final now = (s', c', None) ->
  (sound (fc s') /\ grows (fc s) (fc s')) /\ (sound c' /\ grows c c') /\
  (bytesRead (fc s') = bytesRead (fc s) /\ bytesRead c' = bytesRead c /\
   bytesSent (fc s') = bytesSent (fc s) /\ bytesSent c' = bytesSent c) /\
  highestReceived (fc s') = Z.max (highestReceived (fc s)) offset /\
  highestReceived c' - highestReceived c = highestReceived (fc s') - highestReceived (fc s).
Proof.
  intros Hs Hc. unfold UpdateHighestReceived, IncrementHighestReceived. unfold_fc. cbn.
  destruct (receivedFinalOffset s && final && _) eqn:E1; [done|].
  destruct (receivedFinalOffset s && (_ <? _)) eqn:E2; [done|].
  destruct (offset =? _) eqn:E3; [intros [= <- <-]; cbn; lia|].
  destruct (offset <? _) eqn:E4; [destruct final; [done|]; intros [= <- <-]; cbn; lia|].
  destruct (highestReceived (fc s) =? 0) eqn:?, (highestReceived c =? 0) eqn:?; cbn in *;
    (destruct (receiveWindow (fc s) <? _) eqn:E5; [done|]; destruct (receiveWindow c <? _) eqn:E6; [done|];
     intros [= <- <-]; cbn; lia).
Qed.

Lemma stream_update_spec rtt allow s c now :
  sound (fc s) -> sound c ->
  let r := GetWindowUpdate rtt allow s c now in
  (sound (fc r.1.2) /\ grows (fc s) (fc r.1.2)) /\ (sound r.2 /\ grows c r.2) /\
  same_counts (fc s) (fc r.1.2) /\ same_counts c r.2.
Proof.
  intros Hs Hc. unfold GetWindowUpdate.
  case_match; [cbn; unfold same_counts; unfold_fc; lia|].
  pose proof (window_update_spec rtt (fun _ => true) (fc s) now Hs) as Hw. cbn zeta in Hw.
  destruct (getWindowUpdate _ _ _ _) as [w c1]. cbn in *.
  case_match; [|unfold same_counts in *; unfold_fc; lia].
  destruct (ensure_minimum_spec allow c (conn_minimum (receiveWindowSize c1)) now Hc) as (? & ? & ?). tauto.
Qed.

(** ** The system *)

Lemma inv_start w mw : 0 <= w <= mw -> inv (start w mw).
Proof.
  intros H. split; [|split]; [unfold sound; cbn; lia|apply map_Forall_empty|].
  unfold balanced. cbn. rewrite !total_empty. done.
Qed.

(** Replacing a stream and the connection together keeps the invariant when both
    counters move by the same amount. *)
Lemma inv_put st id s s' c' :
  inv st -> streams st !! id = Some s -> sound (fc s') -> sound c' ->
  bytesRead c' - bytesRead (conn st) = bytesRead (fc s') - bytesRead (fc s) ->
  highestReceived c' - highestReceived (conn st) = highestReceived (fc s') - highestReceived (fc s) ->
  bytesSent c' - bytesSent (conn st) = bytesSent (fc s') - bytesSent (fc s) ->
  inv (put st id s' c').
Proof.
  intros (Hc & Hm & Hr & Hh & Hb) Hs Hs' Hc' Er Eh Eb.
  split; [done|]. split; [by apply map_Forall_insert_2|].
  unfold balanced, put. cbn. rewrite !(total_insert _ _ _ _ _ Hs). lia.
Qed.

(** Every stream of [st] is still there with windows at least as large. *)
Definition extends (st st' : system) : Prop :=
  grows (conn st) (conn st') /\
  forall id s, streams st !! id = Some s ->
    exists s', streams st' !! id = Some s' /\ grows (fc s) (fc s').

Lemma grows_refl c : grows c c.
Proof. unfold grows. lia. Qed.

Lemma grows_trans a b c : grows a b -> grows b c -> grows a c.
Proof. unfold grows. lia. Qed.

Lemma extends_put st id s s' c' :
  streams st !! id = Some s -> grows (fc s) (fc s') -> grows (conn st) c' -> extends st (put st id s' c').
Proof.
  intros Hs Hg Hc. split; [done|]. intros i t Ht. cbn. destruct (decide (i = id)) as [->|].
  - rewrite lookup_insert_eq. naive_solver.
  - rewrite lookup_insert_ne by done. exists t. split; [done|apply grows_refl].
Qed.

Lemma extends_conn st c' : grows (conn st) c' -> extends st (mkSystem c' (streams st)).
Proof. split; [done|]. intros i t Ht. exists t. split; [done|apply grows_refl]. Qed.

Lemma stream_sound st id s : inv st -> streams st !! id = Some s -> sound (fc s).
Proof. intros (_ & Hm & _). apply Hm. Qed.

(** What a stream has not read yet, the connection has not read either. *)
Lemma unread_le st id s :
  inv st -> streams st !! id = Some s ->
  highestReceived (fc s) - bytesRead (fc s) <= highestReceived (conn st) - bytesRead (conn st).
Proof.
  intros (_ & Hm & Hr & Hh & _) Hs. rewrite Hr, Hh.
  rewrite <- (insert_delete_id (streams st) id s Hs), !total_fresh by apply lookup_delete_eq.
  assert (total bytesRead (delete id (streams st)) <= total highestReceived (delete id (streams st))); [|lia].
  apply total_le. eapply map_Forall_delete, map_Forall_impl; [exact Hm|]. unfold sound. cbn. intros; lia.
Qed.

(** The common case: one stream and the connection change. *)
Lemma step_put st id s s' c' :
  inv st -> streams st !! id = Some s ->
  (sound (fc s') /\ grows (fc s) (fc s')) -> (sound c' /\ grows (conn st) c') ->
  bytesRead c' - bytesRead (conn st) = bytesRead (fc s') - bytesRead (fc s) ->
  highestReceived c' - highestReceived (conn st) = highestReceived (fc s') - highestReceived (fc s) ->
  bytesSent c' - bytesSent (conn st) = bytesSent (fc s') - bytesSent (fc s) ->
  inv (put st id s' c') /\ extends st (put st id s' c').
Proof. intros ? ? [] [] ? ? ?. split; [by eapply inv_put|by eapply extends_put]. Qed.

Lemma step_conn st c' :
  inv st -> sound c' -> grows (conn st) c' -> bytesRead c' = bytesRead (conn st) ->
  highestReceived c' = highestReceived (conn st) -> bytesSent c' = bytesSent (conn st) ->
  inv (mkSystem c' (streams st)) /\ extends st (mkSystem c' (streams st)).
Proof.
  intros (Hc & Hm & Hr & Hh & Hb) Hs Hg Er Eh Eb. split; [|by apply extends_conn].
  split; [done|]. split; [done|]. unfold balanced. cbn. lia.
Qed.

Lemma step_open st id s :
  inv st -> streams st !! id = None -> bytesRead (fc s) = 0 -> highestReceived (fc s) = 0 ->
  bytesSent (fc s) = 0 -> sound (fc s) ->
  inv (put st id s (conn st)) /\ extends st (put st id s (conn st)).
Proof.
  intros (Hc & Hm & Hr & Hh & Hb) Hn E1 E2 E3 Hs. split; [split; [done|split]|split].
  - by apply map_Forall_insert_2.
  - unfold balanced. cbn. rewrite !total_fresh by done. lia.
  - apply grows_refl.
  - intros i t Ht. exists t. cbn. rewrite lookup_insert_ne by congruence. split; [done|apply grows_refl].
Qed.

Definition not_reset (e : event) : Prop := match e with Rejected0RTT => False | _ => True end.

Lemma exec_put st e st' :
  inv st -> exec st e = Some st' -> not_reset e -> inv st' /\ extends st st'.
Proof.
  intros Hi He Hn. pose proof Hi as (Hc & Hm & Hb).
  destruct e as [id w mw sw|id offset final now|id n|id|id rtt now allow|rtt now allow|id n|id offset|offset|id| |];
    cbn [exec] in He; try done.
  all: try (apply bind_Some in He as (s & Hs & He); pose proof (stream_sound _ _ _ Hi Hs) as Hsd).
  - case_decide; [|done]. destruct (_ && _) eqn:E; [|done]. injection He as <-.
    by apply step_open; [..|unfold sound; cbn; lia].
  - destruct (UpdateHighestReceived _ _ _ _ _) as [[s' c'] [|]] eqn:E; [done|]. injection He as <-.
    pose proof (receive_spec _ _ _ _ _ _ _ Hsd Hc E). eapply step_put; eauto; try tauto; lia.
  - destruct (_ && _) eqn:E; [|done]. injection He as <-. pose proof (unread_le _ _ _ Hi Hs).
    eapply step_put; eauto; unfold_fc; cbn; lia.
  - injection He as <-. pose proof (unread_le _ _ _ Hi Hs).
    eapply step_put; eauto; unfold_fc; cbn; try case_match; cbn; lia.
  - destruct (GetWindowUpdate _ _ _ _ _) as [[w s'] c'] eqn:E. injection He as <-.
    pose proof (stream_update_spec rtt allow s (conn st) now Hsd Hc) as Hu. rewrite E in Hu.
    unfold same_counts in Hu. cbn in Hu. eapply step_put; eauto; try tauto; lia.
  - injection He as <-. pose proof (window_update_spec rtt allow (conn st) now Hc) as (? & (? & ? & ? & ?) & ?).
    by apply step_conn.
  - destruct (_ && _) eqn:E; [|done]. injection He as <-. unfold stream_SendWindowSize, SendWindowSize in E.
    eapply step_put; eauto; unfold_fc; cbn; repeat case_match; lia.
  - injection He as <-. eapply step_put; eauto; unfold_fc; unfold UpdateSendWindow; try case_match; cbn; lia.
  - injection He as <-. apply step_conn; try done; unfold_fc; unfold UpdateSendWindow; try case_match; cbn; lia.
  - injection He as <-. eapply step_put; eauto; unfold_fc; unfold IsNewlyBlocked; try case_match; cbn; lia.
  - injection He as <-. apply step_conn; try done; unfold_fc; unfold IsNewlyBlocked; try case_match; cbn; lia.
Qed.

Lemma exec_inv st e st' : inv st -> exec st e = Some st' -> inv st'.
Proof.
  intros Hi He. assert (e = Rejected0RTT \/ not_reset e) as [->|Hne] by (destruct e; cbn; auto).
  - cbn in He. unfold Reset in He. destruct (_ || _ || _) eqn:E; [done|]. injection He as <-.
    destruct Hi as (Hc & _ & _). unfold sound in Hc.
    split; [|split]; [unfold sound; cbn; lia|apply map_Forall_empty|].
    unfold balanced. cbn. rewrite !total_empty. lia.
  - by apply (exec_put st e st' Hi He).
Qed.

Lemma exec_all_inv st es st' : inv st -> exec_all st es = Some st' -> inv st'.
Proof.
  revert st. induction es as [|e es IH]; intros st Hi He; cbn in He; [by injection He as <-|].
  apply bind_Some in He as (st1 & H1 & H2). eauto using exec_inv.
Qed.

Lemma extends_refl st : extends st st.
Proof. split; [apply grows_refl|]. intros id s Hs. exists s. split; [done|apply grows_refl]. Qed.

Lemma extends_trans a b c : extends a b -> extends b c -> extends a c.
Proof.
  intros [Hc1 H1] [Hc2 H2]. split; [by eapply grows_trans|]. intros id s Hs.
  destruct (H1 id s Hs) as (s1 & Hs1 & Hg1). destruct (H2 id s1 Hs1) as (s2 & Hs2 & Hg2).
  exists s2. split; [done|by eapply grows_trans].
Qed.

Lemma exec_all_extends st es st' :
  inv st -> exec_all st es = Some st' -> Forall not_reset es -> extends st st'.
Proof.
  revert st. induction es as [|e es IH]; intros st Hi He Hn; cbn in He; [injection He as <-; apply extends_refl|].
  apply bind_Some in He as (st1 & H1 & H2). apply Forall_cons in Hn as [Hn Hns].
  destruct (exec_put st e st1 Hi H1 Hn). eapply extends_trans; [done|]. by apply IH.
Qed.

(** The error of a frame is one of flow control only beyond a window. *)
Lemma no_flow_error s c offset final now err :
  offset <= receiveWindow (fc s) -> highestReceived c + (offset - highestReceived (fc s)) <= receiveWindow c ->
  (UpdateHighestReceived s c offset final now).2 = Some err -> err <> errStreamFlow /\ err <> errConnFlow.
Proof.
  intros H1 H2. unfold UpdateHighestReceived, IncrementHighestReceived. unfold_fc.
  destruct (receivedFinalOffset s && final && _); [by intros [= <-]|].
  destruct (receivedFinalOffset s && (_ <? _)); [by intros [= <-]|].
  destruct (offset =? _) eqn:E3; [done|].
  destruct (offset <? _) eqn:E4; [destruct final; [by intros [= <-]|done]|].
  destruct (highestReceived (fc s) =? 0), (highestReceived c =? 0); cbn;
    (destruct (receiveWindow (fc s) <? _) eqn:E5; [lia|]; cbn;
     destruct (receiveWindow c <? _) eqn:E6; [lia|done]).
Qed.

(** What happens to the final size of a stream in one event. *)
Lemma exec_final st e st' id s :
  inv st -> exec st e = Some st' -> not_reset e -> streams st !! id = Some s -> receivedFinalOffset s = true ->
  exists s', streams st' !! id = Some s' /\ receivedFinalOffset s' = true /\
             highestReceived (fc s') = highestReceived (fc s).
Proof.
  intros Hi He Hn Hs Hf.
  assert (Hput : forall i t t' c', streams st !! i = Some t -> receivedFinalOffset t' = receivedFinalOffset t ->
            highestReceived (fc t') = highestReceived (fc t) ->
            exists s', streams (put st i t' c') !! id = Some s' /\ receivedFinalOffset s' = true /\
             highestReceived (fc s') = highestReceived (fc s)).
  { intros i t t' c' Ht E1 E2. cbn. destruct (decide (i = id)) as [->|].
    - rewrite lookup_insert_eq. exists t'. simplify_eq. naive_solver.
    - rewrite lookup_insert_ne by done. by exists s. }
  destruct e as [i w mw sw|i offset final now|i n|i|i rtt now allow|rtt now allow|i n|i offset|offset|i| |];
    cbn [exec] in He; try done.
  all: try (apply bind_Some in He as (t & Ht & He); pose proof (stream_sound _ _ _ Hi Ht) as Hsd).
  all: try (injection He as <-; by exists s).
  - case_decide; [|done]. destruct (_ && _); [|done]. injection He as <-. exists s. cbn.
    rewrite lookup_insert_ne by congruence. done.
  - destruct (UpdateHighestReceived _ _ _ _ _) as [[t' c'] [|]] eqn:E; [done|]. injection He as <-.
    destruct (decide (i = id)) as [->|Hne]; [|exists s; cbn; by rewrite lookup_insert_ne by done].
    simplify_eq. exists t'. cbn. rewrite lookup_insert_eq. split; [done|].
    pose proof (receive_spec _ _ _ _ _ _ _ Hsd (proj1 Hi) E) as (_ & _ & _ & Hh & _).
    revert E. unfold UpdateHighestReceived. rewrite Hf. cbn [andb orb].
    destruct (final && _); [done|]. destruct (_ <? offset) eqn:Eo; [done|].
    repeat case_match; intros; simplify_eq; cbn in *; split; done || lia.
  - destruct (_ && _); [|done]. injection He as <-. by eapply Hput.
  - injection He as <-. by eapply Hput.
  - destruct (GetWindowUpdate _ _ _ _ _) as [[w t'] c'] eqn:E. injection He as <-.
    pose proof (stream_update_spec rtt allow t (conn st) now Hsd (proj1 Hi)) as (_ & _ & Hu & _).
    rewrite E in Hu. eapply Hput; [done| |apply Hu].
    unfold GetWindowUpdate in E. repeat case_match; by simplify_eq.
  - destruct (_ && _); [|done]. injection He as <-. by eapply Hput.
  - injection He as <-. eapply Hput; [done|done|]. unfold UpdateSendWindow. by case_match.
  - injection He as <-. eapply Hput; [done|done|]. unfold IsNewlyBlocked. by case_match.
Qed.

(** When a frame is accepted: it agrees with the final size, and what is new in it
    fits the windows of the stream and of the connection. *)
Lemma accepted_spec s c offset final now :
  (UpdateHighestReceived s c offset final now).2 = None <->
  (final = true -> highestReceived (fc s) <= offset) /\
  (receivedFinalOffset s = true -> offset <= highestReceived (fc s)) /\
  (highestReceived (fc s) < offset -> offset <= receiveWindow (fc s) /\
     highestReceived c + (offset - highestReceived (fc s)) <= receiveWindow c).
Proof.
  unfold UpdateHighestReceived, IncrementHighestReceived. unfold_fc.
  destruct (receivedFinalOffset s && final && _) eqn:E1; [split; [done|lia]|].
  destruct (receivedFinalOffset s && (_ <? _)) eqn:E2; [split; [done|lia]|].
  destruct (offset =? _) eqn:E3; [split; [lia|done]|].
  destruct (offset <? _) eqn:E4; [destruct final; (split; [done || lia|done || lia])|].
  destruct (highestReceived (fc s) =? 0) eqn:?, (highestReceived c =? 0) eqn:?; cbn in *;
    (destruct (receiveWindow (fc s) <? _) eqn:E5; [split; [done|lia]|]; cbn;
     destruct (receiveWindow c <? _) eqn:E6; (split; [done || lia|done || lia])).
Qed.

(** C9: the accounting of a connection.  Take any sequence of events in which a
    stream reads only bytes that have arrived and sends only what [SendWindowSize]
    allows at that moment (the conditions of [ReadBytes] and [Send] in [exec]; the
    comment of [SendWindowSize] speaks of senders that break the second one).  Then
    the connection counts exactly the bytes its streams count (read, received and
    sent); on every controller what was read is at most what arrived, which is at
    most the window granted; unread data is bounded by the maximum window size; and
    all streams together sent at most what the peer granted the connection.  A frame
    is accepted exactly if it agrees with the final size of its stream and what it
    adds fits the windows of the stream and of the connection. *)
Theorem flow_control_invariant w mw es st :
  0 <= w <= mw -> exec_all (start w mw) es = Some st ->
  (bytesRead (conn st) = total bytesRead (streams st) /\
   highestReceived (conn st) = total highestReceived (streams st) /\
   bytesSent (conn st) = total bytesSent (streams st)) /\
  (forall c, c = conn st \/ (exists id s, streams st !! id = Some s /\ c = fc s) ->
    bytesRead c <= highestReceived c <= receiveWindow c /\
    highestReceived c - bytesRead c <= maxReceiveWindowSize c /\
    bytesSent c <= sendWindow c) /\
  forall id s offset final now, streams st !! id = Some s ->
    (UpdateHighestReceived s (conn st) offset final now).2 = None <->
    (final = true -> highestReceived (fc s) <= offset) /\
    (receivedFinalOffset s = true -> offset <= highestReceived (fc s)) /\
    (highestReceived (fc s) < offset -> offset <= receiveWindow (fc s) /\
       total highestReceived (streams st) + (offset - highestReceived (fc s)) <= receiveWindow (conn st)).
Proof.
  intros Hw He. pose proof (exec_all_inv _ _ _ (inv_start w mw Hw) He) as Hi.
  split; [apply Hi|]. split.
  - intros c Hc. assert (sound c) as Hs. { destruct Hc as [->|(id & s & Hs & ->)]; [apply Hi|by eapply stream_sound]. }
    unfold sound in Hs. lia.
  - intros id s offset final now Hs. destruct Hi as (_ & _ & _ & <- & _). apply accepted_spec.
Qed.

(** A stream that receives, reads, is granted more, and sends. *)
Definition session : list event :=
  [MaxData 100; Open 4 100 400 50; Receive 4 60 false 5; ReadBytes 4 40; ConnUpdate 10 6 (fun _ => true);
   StreamUpdate 4 1000000 7 (fun _ => true); Send 4 30; Receive 4 130 false 8].

Lemma flow_control_invariant_witness :
  exists st, exec_all (start 200 4000) session = Some st /\
    highestReceived (conn st) = total highestReceived (streams st) /\ bytesSent (conn st) <= sendWindow (conn st).
Proof.
  destruct (exec_all (start 200 4000) session) as [st|] eqn:E; [|vm_compute in E; discriminate].
  exists st. split; [reflexivity|].
  destruct (flow_control_invariant 200 4000 session st ltac:(lia) E) as ((_ & H & _) & Hc & _).
  split; [exact H|]. apply (Hc (conn st)). left. reflexivity.
Defined.

(** Credit is honoured and enforced.  A window granted to the peer is never
    taken back: data within the stream's and the connection's windows of some
    moment is not refused by flow control at any later moment; and data beyond
    the windows of the moment it arrives is always refused. *)
Theorem flow_credit_honoured w mw es0 st es st' id s s' offset final now :
  0 <= w <= mw -> exec_all (start w mw) es0 = Some st ->
  exec_all st es = Some st' -> Forall not_reset es ->
  streams st !! id = Some s -> streams st' !! id = Some s' ->
  let total' := highestReceived (conn st') + (offset - highestReceived (fc s')) in
  let err := (UpdateHighestReceived s' (conn st') offset final now).2 in
  (offset <= receiveWindow (fc s) -> total' <= receiveWindow (conn st) ->
   err <> Some errStreamFlow /\ err <> Some errConnFlow) /\
  (receiveWindow (fc s') < offset -> err <> None) /\
  (highestReceived (fc s') < offset -> receiveWindow (conn st') < total' -> err <> None).
Proof.
  intros Hw He0 He Hn Hs Hs' total' err.
  pose proof (exec_all_inv _ _ _ (inv_start w mw Hw) He0) as Hi.
  pose proof (exec_all_inv _ _ _ Hi He) as Hi'.
  destruct (exec_all_extends _ _ _ Hi He Hn) as [Hgc Hgs].
  destruct (Hgs id s Hs) as (s1 & Hs1 & Hg). simplify_eq.
  pose proof (stream_sound _ _ _ Hi' Hs') as Hsd. split.
  - intros H1 H2. subst err.
    pose proof (no_flow_error s' (conn st') offset final now) as Hnf. unfold grows in *.
    destruct (UpdateHighestReceived _ _ _ _ _).2 as [err|]; [|done].
    destruct (Hnf err) as [? ?]; [lia|lia|done|]. split; congruence.
  - assert (err = None -> Z.max (highestReceived (fc s')) offset <= receiveWindow (fc s') /\
              highestReceived (conn st') + (Z.max (highestReceived (fc s')) offset - highestReceived (fc s'))
              <= receiveWindow (conn st')) as Hno; [|split; [intros ? Hx; specialize (Hno Hx); lia|intros ? ? Hx; specialize (Hno Hx); lia]].
    subst err. destruct (UpdateHighestReceived _ _ _ _ _) as [[t c] e] eqn:E. cbn. intros ->.
    pose proof (receive_spec _ _ _ _ _ _ _ Hsd (proj1 Hi') E) as ([Ht Hgt] & [Hc Hgc'] & Hr & Hm & Hd).
    apply receive_window_same in E as [E1 E2]. unfold sound in *. lia.
Qed.

Lemma flow_credit_honoured_witness :
  exists st s', exec_all (start 200 4000) session = Some st /\ streams st !! 4 = Some s' /\
    (UpdateHighestReceived s' (conn st) 140 true 9).2 <> Some errStreamFlow /\
    (UpdateHighestReceived s' (conn st) 100000 true 9).2 <> None.
Proof.
  destruct (exec_all (start 200 4000) session) as [st|] eqn:E; [|vm_compute in E; discriminate].
  destruct (streams st !! 4) as [s|] eqn:Es;
    [|exfalso; vm_compute in E; injection E as <-; vm_compute in Es; discriminate].
  exists st, s. split; [reflexivity|]. split; [exact Es|].
  assert (140 <= receiveWindow (fc s) < 100000 /\
          highestReceived (conn st) + (140 - highestReceived (fc s)) <= receiveWindow (conn st)) as [Hw Ht].
  { vm_compute in E. injection E as <-. vm_compute in Es. injection Es as <-. vm_compute.
    repeat split; discriminate. }
  split.
  - destruct (flow_credit_honoured 200 4000 session st [] st 4 s s 140 true 9) as [H _];
      [lia|exact E|reflexivity|constructor|exact Es|exact Es|]. apply H; [lia|exact Ht].
  - destruct (flow_credit_honoured 200 4000 session st [] st 4 s s 100000 true 9) as (_ & H & _);
      [lia|exact E|reflexivity|constructor|exact Es|exact Es|]. apply H. lia.
Defined.

(** The final size of a stream is final: once a frame with the final offset
    was accepted, no later event changes the highest offset of the stream. *)
Theorem final_size_fixed w mw es0 st es st' id s :
  0 <= w <= mw -> exec_all (start w mw) es0 = Some st ->
  streams st !! id = Some s -> receivedFinalOffset s = true ->
  exec_all st es = Some st' -> Forall not_reset es ->
  exists s', streams st' !! id = Some s' /\ receivedFinalOffset s' = true /\
             highestReceived (fc s') = highestReceived (fc s).
Proof.
  intros Hw He0 Hs Hf He Hn.
  pose proof (exec_all_inv _ _ _ (inv_start w mw Hw) He0) as Hi. clear He0.
  revert st s Hi Hs Hf He. induction Hn as [|e es Hne Hn IH]; intros st s Hi Hs Hf He; cbn in He.
  - injection He as <-. by exists s.
  - apply bind_Some in He as (st1 & H1 & H2).
    destruct (exec_final _ _ _ _ _ Hi H1 Hne Hs Hf) as (s1 & Hs1 & Hf1 & <-).
    apply (IH st1 s1); [by eapply exec_inv|done..].
Qed.

Lemma final_size_fixed_witness :
  exists st st' s', exec_all (start 200 4000) (session ++ [Receive 4 140 true 9]) = Some st /\
    exec_all st [Receive 4 120 false 10; AbandonStream 4] = Some st' /\
    streams st' !! 4 = Some s' /\ highestReceived (fc s') = 140.
Proof.
  destruct (exec_all (start 200 4000) (session ++ [Receive 4 140 true 9])) as [st|] eqn:E;
    [|vm_compute in E; discriminate].
  pose proof E as E0. vm_compute in E0. injection E0 as E0.
  destruct (exec_all st [Receive 4 120 false 10; AbandonStream 4]) as [st'|] eqn:E';
    [|exfalso; rewrite <- E0 in E'; vm_compute in E'; discriminate].
  destruct (streams st !! 4) as [s|] eqn:Es; [|exfalso; rewrite <- E0 in Es; vm_compute in Es; discriminate].
  assert (receivedFinalOffset s = true /\ highestReceived (fc s) = 140) as [Hf Hh].
  { rewrite <- E0 in Es. vm_compute in Es. injection Es as <-. split; reflexivity. }
  destruct (final_size_fixed 200 4000 _ st _ st' 4 s ltac:(lia) E Es Hf E') as (s' & Hs' & _ & H).
  { repeat constructor. }
  exists st, st', s'. rewrite H. repeat split; assumption.
Defined.

End FlowControl.
