(* ===== verification/FrameSorter.v ===== *)
(** * The frame sorter (src/quicfork/frame_sorter.go)

    The sorter puts the data of stream and crypto frames back in order.  It keeps
    the list of gaps of the stream and a map from offsets to queued frames.  List
    elements are identified, within one call of [push], by their position when the
    call starts.  A [doneCb] is an identifier; the callbacks a call invokes are
    part of its result. *)

From Stdlib Require Import ZifyBool.
From stdpp Require Import gmap sorting.
From S2P Require Import Prelude GoBytes Frames.
Local Open Scope Z_scope.

Module FrameSorter.
Notation MaxByteCount := Frames.MaxByteCount.
Notation MinStreamFrameBufferSize := Frames.MinStreamFrameBufferSize.

Record byteInterval := mkGap { Start : Z; End_ : Z }.

Definition cb : Type := option nat.

Record frameSorterEntry := mkEntry { Data : list Byte.byte; DoneCb : cb }.

Record frameSorter := mkSorter { queue : gmap Z frameSorterEntry; readPos : Z; gaps : list byteInterval }.

Definition newFrameSorter : frameSorter := mkSorter ∅ 0 [mkGap 0 MaxByteCount].

Definition MaxStreamFrameSorterGaps : Z := 1000.

Inductive serr := errDuplicateStreamData | errTooManyGaps | errTooLittleData.

Definition call (c : cb) : list nat := match c with Some i => [i] | None => [] end.

(** ** Elements of the list of gaps *)

Definition element : Type := nat * byteInterval.

Definition Remove (e : nat) (l : list element) : list element := filter (fun x => x.1 <> e) l.

Definition set_value (e : nat) (v : byteInterval) (l : list element) : list element :=
  map (fun x => if decide (x.1 = e) then (e, v) else x) l.

Fixpoint InsertAfter (e : nat) (v : element) (l : list element) : list element :=
  match l with
  | [] => []
  | x :: l => if decide (x.1 = e) then x :: v :: l else x :: InsertAfter e v l
  end.

(** The gap, whether the offset lies in it, the element before it and the
    elements after it. *)
Fixpoint findStartGap (prev : option element) (l : list element) (offset : Z)
    : option (element * bool * option element * list element) :=
  match l with
  | [] => None
  | g :: r =>
      if (Start g.2 <=? offset) && (offset <=? End_ g.2) then Some (g, true, prev, r)
      else if offset <? Start g.2 then Some (g, false, prev, r)
      else findStartGap (Some g) r offset
  end.

(** From the start gap on; the gap returned may be the one before the start gap,
    or none. *)
Fixpoint findEndGap (prev : option element) (l : list element) (offset : Z) : option (option element * bool) :=
  match l with
  | [] => None
  | g :: r =>
      if (Start g.2 <=? offset) && (offset <? End_ g.2) then Some (Some g, true)
      else if offset <? Start g.2 then Some (prev, false)
      else findEndGap (Some g) r offset
  end.

(** ** Deleting queued frames *)

Fixpoint deleteConsecutive (fuel : nat) (q : gmap Z frameSorterEntry) (pos : Z)
    : gmap Z frameSorterEntry * list nat :=
  match q !! pos with
  | None => (q, [])
  | Some old =>
      match fuel with
      | O => (q, [])
      | S fuel =>
          let '(q', calls) := deleteConsecutive fuel (delete pos q) (pos + blen (Data old)) in
          (q', call (DoneCb old) ++ calls)
      end
  end.

Inductive replaced := Duplicate | Cut (pos : Z) | Kept.

(** The loop over the frames the new one replaces: the queue, the callbacks,
    whether a frame was replaced, and whether the new frame is a duplicate or is
    cut at a position. *)
Fixpoint replace_loop (fuel : nat) (q : gmap Z frameSorterEntry) (pos end_ : Z) (has : bool)
    : gmap Z frameSorterEntry * list nat * bool * replaced :=
  match q !! pos with
  | None => (q, [], has, Kept)
  | Some old =>
      let oldLen := blen (Data old) in
      if (oldLen <? end_ - pos) || (has && (end_ - pos =? oldLen)) then
        match fuel with
        | O => (q, [], has, Kept)
        | S fuel =>
            let '(q', calls, has', r) := replace_loop fuel (delete pos q) (pos + oldLen) end_ true in
            (q', call (DoneCb old) ++ calls, has', r)
        end
      else if negb has then (q, [], has, Duplicate) else (q, [], has, Cut pos)
  end.

(** The loop over the gaps between the start gap and the end gap. *)
Fixpoint middle_loop (q : gmap Z frameSorterEntry) (l after : list element) (endGapStart : Z)
    : res serr (gmap Z frameSorterEntry * list nat * list element) :=
  match after with
  | [] => Panic
  | g :: after =>
      if End_ g.2 <? endGapStart then
        let '(q, calls) := deleteConsecutive (S (size q)) q (End_ g.2) in
        '(q, calls', l) ← middle_loop q (Remove g.1 l) after endGapStart;
        mret (q, calls ++ calls', l)
      else mret (q, [], l)
  end.

(** ** [push] *)

Section push.
Context (s : frameSorter).

(** From line 162 on: [data] is copied if it was cut to a small piece, and
    queued at [start]. *)
Definition finish (q : gmap Z frameSorterEntry) (start : Z) (data : list Byte.byte) (doneCb : cb) (wasCut : bool)
    (calls : list nat) (gs : list byteInterval) : res serr (frameSorter * list nat * option serr) :=
  let copied := wasCut && (blen data <? MinStreamFrameBufferSize) in
  let calls := calls ++ (if copied then call doneCb else []) in
  let doneCb := if copied then None else doneCb in
  if MaxStreamFrameSorterGaps <? Z.of_nat (length gs)
  then mret (mkSorter q (readPos s) gs, calls, Some errTooManyGaps)
  else mret (mkSorter (<[start := mkEntry data doneCb]> q) (readPos s) gs, calls, None).

(** From line 114 on: the frame [data] at [start, end), the gaps it was found
    in, and the result of the replacement loop. *)
Definition push_gaps (q : gmap Z frameSorterEntry) (calls : list nat) (data : list Byte.byte) (start end_ : Z)
    (doneCb : cb) (sg eg : element) (after : list element) (startsInGap endsInGap has wasCut : bool)
    : res serr (frameSorter * list nat * option serr) :=
  let l := imap pair (gaps s) in
  let same := bool_decide (sg.1 = eg.1) in
  let startGapEnd := End_ sg.2 in
  let endGapStart := Start eg.2 in
  let endGapEnd := End_ eg.2 in
  let trim := negb startsInGap && negb has in
  data ← (if trim then go_slice data (Start sg.2 - start) (blen data) else mret data);
  let start := if trim then Start sg.2 else start in
  let wasCut := wasCut || trim in
  let '(l, adjusted) :=
    if start <=? Start sg.2 then
      if End_ sg.2 <=? end_ then (Remove sg.1 l, false)
      else (set_value sg.1 (mkGap end_ (End_ sg.2)) l, false)
    else if negb has then (set_value sg.1 (mkGap (Start sg.2) start) l, true)
    else (l, false) in
  '(q, calls', l) ←
    (if same then mret (q, [], l) else
     let '(q, c1) := deleteConsecutive (S (size q)) q startGapEnd in
     '(q, c2, l) ← middle_loop q l after endGapStart;
     mret (q, c1 ++ c2, l));
  let trimEnd := negb endsInGap && negb (start =? endGapEnd) && (endGapEnd <? end_) in
  data ← (if trimEnd then go_slice data 0 (endGapEnd - start) else mret data);
  let end_ := if trimEnd then endGapEnd else end_ in
  let wasCut := wasCut || trimEnd in
  let l :=
    if end_ =? endGapEnd then if same then l else Remove eg.1 l
    else if same && adjusted then InsertAfter sg.1 (length (gaps s), mkGap end_ startGapEnd) l
    else if same then l else set_value eg.1 (mkGap end_ endGapEnd) l in
  finish q start data doneCb wasCut (calls ++ calls') (l.*2).

Definition push (data : list Byte.byte) (offset : Z) (doneCb : cb)
    : res serr (frameSorter * list nat * option serr) :=
  let duplicate := mret (s, [], Some errDuplicateStreamData) in
  if blen data =? 0 then duplicate else
  let start := offset in
  let end_ := offset + blen data in
  match gaps s with
  | [] => Panic
  | front :: _ =>
      if end_ <=? Start front then duplicate else
      match findStartGap None (imap pair (gaps s)) start with
      | None => Panic
      | Some (sg, startsInGap, prev, after) =>
          match findEndGap prev (sg :: after) end_ with
          | None | Some (None, _) => Panic
          | Some (Some eg, endsInGap) =>
              let same := bool_decide (sg.1 = eg.1) in
              if (same && (end_ <=? Start sg.2)) ||
                 (negb same && (Start eg.2 <=? End_ sg.2) && (end_ <=? Start sg.2))
              then duplicate
              else
                let '(q, calls, has, r) := replace_loop (S (size (queue s))) (queue s) start end_ false in
                match r with
                | Duplicate => duplicate
                | Cut pos =>
                    data ← go_slice data 0 (pos - start);
                    push_gaps q calls data start pos doneCb sg eg after startsInGap endsInGap has true
                | Kept => push_gaps q calls data start end_ doneCb sg eg after startsInGap endsInGap has false
                end
          end
      end
  end.

Definition Push (data : list Byte.byte) (offset : Z) (doneCb : cb)
    : res serr (frameSorter * list nat * option serr) :=
  '(s', calls, err) ← push data offset doneCb;
  match err with
  | Some errDuplicateStreamData => mret (s', calls ++ call doneCb, None)
  | _ => mret (s', calls, err)
  end.

(** The offset, the data ([None] when there is none) and its callback. *)
Definition Pop : res serr (frameSorter * (Z * option (list Byte.byte) * cb)) :=
  match queue s !! readPos s with
  | None => mret (s, (readPos s, None, None))
  | Some entry =>
      let pos := readPos s + blen (Data entry) in
      match gaps s with
      | [] => Panic
      | front :: _ =>
          if End_ front <=? pos then Panic
          else mret (mkSorter (delete (readPos s) (queue s)) pos (gaps s),
                     (readPos s, Some (Data entry), DoneCb entry))
      end
  end.

Definition HasMoreData : bool := bool_decide (0 < size (queue s))%nat.

(** The check of [Peek], and its copy. *)
Fixpoint peek_check (fuel : nat) (pos : Z) (remaining : Z) : bool :=
  if remaining <=? 0 then true else
  match fuel with
  | O => false
  | S fuel =>
      match queue s !! pos with
      | None => false
      | Some e =>
          if remaining <=? blen (Data e) then true
          else peek_check fuel (pos + blen (Data e)) (remaining - blen (Data e))
      end
  end.

Fixpoint peek_copy (fuel : nat) (pos : Z) (n : nat) : list Byte.byte :=
  match fuel with
  | O => []
  | S fuel =>
      match n with
      | O => []
      | _ =>
          let d := default [] (Data <$> queue s !! pos) in
          let c := take n d in
          c ++ peek_copy fuel (pos + blen d) (n - length c)
      end
  end.

(** [p] of length [n]. *)
Definition Peek (offset : Z) (n : nat) : res serr (list Byte.byte) :=
  if bool_decide (n = 0)%nat then mret []
  else if peek_check n offset (Z.of_nat n)
  then mret (peek_copy n offset n)
  else Err errTooLittleData.
End push.

(** ** Gaps as sets of offsets *)

Definition in_gap (g : byteInterval) (x : Z) : Prop := Start g <= x < End_ g.
Definition in_gaps (l : list byteInterval) (x : Z) : Prop := exists g, g ∈ l /\ in_gap g x.

(** Gaps are non-empty, in order, apart from each other, and the last one never
    ends. *)
Definition gwf (l : list byteInterval) : Prop :=
  Forall (fun g => 0 <= Start g < End_ g) l /\
  StronglySorted (fun a b => End_ a < Start b) l /\
  exists l0 g, l = l0 ++ [g] /\ End_ g = MaxByteCount.

Lemma in_gaps_app l1 l2 x : in_gaps (l1 ++ l2) x <-> in_gaps l1 x \/ in_gaps l2 x.
Proof. unfold in_gaps. setoid_rewrite elem_of_app. naive_solver. Qed.

Lemma in_gaps_cons g l x : in_gaps (g :: l) x <-> in_gap g x \/ in_gaps l x.
Proof. unfold in_gaps. setoid_rewrite elem_of_cons. naive_solver. Qed.

Lemma in_gaps_nil x : in_gaps [] x <-> False.
Proof. unfold in_gaps. setoid_rewrite elem_of_nil. naive_solver. Qed.

Lemma gwf_app l1 l2 :
  gwf (l1 ++ l2) -> l2 <> [] ->
  Forall (fun g => 0 <= Start g < End_ g) l1 /\ StronglySorted (fun a b => End_ a < Start b) l1 /\ gwf l2 /\
  (forall a b, a ∈ l1 -> b ∈ l2 -> End_ a < Start b).
Proof.
  intros (HF & HS & l0 & g & Hl & Hg) Hne. apply Forall_app in HF as [HF1 HF2].
  apply StronglySorted_app in HS as (HS & HS1 & HS2).
  split; [done|]. split; [done|]. split; [|done]. split; [done|]. split; [done|].
  destruct (exists_last Hne) as (l2' & g' & ->). exists l2', g'. split; [done|].
  rewrite app_assoc in Hl. apply app_inj_tail in Hl as [_ ->]. done.
Qed.

Lemma gwf_cons g l :
  gwf (g :: l) -> 0 <= Start g < End_ g /\ (forall b, b ∈ l -> End_ g < Start b) /\
  (l <> [] -> gwf l) /\ (l = [] -> End_ g = MaxByteCount).
Proof.
  intros H. pose proof H as (HF & HS & l0 & g' & Hl & Hg).
  apply Forall_cons in HF as [HF _]. split; [done|]. split; [|split].
  - apply StronglySorted_cons in HS as [HS _]. rewrite Forall_forall in HS. done.
  - intros Hne. apply (gwf_app [g] l) in H; [|done]. apply H.
  - intros ->. destruct l0 as [|? [|]]; simplify_eq/=; done.
Qed.

(** In a well-formed list, what surrounds a gap. *)
Lemma gwf_mid L g R :
  gwf (L ++ g :: R) -> 0 <= Start g < End_ g /\ (forall a, a ∈ L -> 0 <= Start a < End_ a /\ End_ a < Start g) /\
  (forall b, b ∈ R -> End_ g < Start b /\ Start b < End_ b) /\ (R = [] -> End_ g = MaxByteCount).
Proof.
  intros H. pose proof H as (HF & _ & _). rewrite Forall_forall in HF.
  apply gwf_app in H as (HF1 & HS1 & H2 & Ho); [|done].
  apply gwf_cons in H2 as (Hg & HR & _ & Hlast). split; [done|]. split; [|split; [|done]].
  - intros a Ha. rewrite Forall_forall in HF1. split; [by apply HF1|]. apply Ho; [done|]. set_solver.
  - intros b Hb. split; [by apply HR|]. apply HF. set_solver.
Qed.

Lemma gwf_max l g : gwf l -> g ∈ l -> End_ g <= MaxByteCount.
Proof.
  intros (HF & HS & l0 & g0 & -> & H0) Hg. apply elem_of_app in Hg as [Hg|Hg].
  - apply StronglySorted_app in HS as (HS & _ & _). specialize (HS g g0 Hg ltac:(set_solver)).
    rewrite Forall_forall in HF. specialize (HF g0 ltac:(set_solver)). lia.
  - apply list_elem_of_singleton in Hg as ->. lia.
Qed.

(** The part of [sg .. eg] that is left when [a, b) is filled. *)
Definition rest (sg eg : byteInterval) (a b : Z) : list byteInterval :=
  (if Start sg <? a then [mkGap (Start sg) a] else []) ++ (if b <? End_ eg then [mkGap b (End_ eg)] else []).

Lemma elem_of_rest sg eg a b g :
  g ∈ rest sg eg a b <-> (Start sg < a /\ g = mkGap (Start sg) a) \/ (b < End_ eg /\ g = mkGap b (End_ eg)).
Proof.
  unfold rest. rewrite elem_of_app.
  destruct (_ <? a) eqn:E1, (b <? _) eqn:E2; rewrite ?list_elem_of_singleton, ?elem_of_nil; naive_solver lia.
Qed.

Lemma length_rest sg eg a b : (length (rest sg eg a b) <= 2)%nat.
Proof. unfold rest. rewrite length_app. repeat case_match; cbn; lia. Qed.

Lemma sorted_head l g x :
  StronglySorted (fun a b => End_ a < Start b) l -> head l = Some g -> x ∈ l -> x = g \/ End_ g < Start x.
Proof.
  intros HS Hh Hx. destruct l as [|g' l]; simplify_eq/=. apply StronglySorted_cons in HS as [HF _].
  rewrite Forall_forall in HF. apply elem_of_cons in Hx as [->|Hx]; [by left|right; by apply HF].
Qed.

Lemma sorted_last l g x :
  StronglySorted (fun a b => End_ a < Start b) l -> last l = Some g -> x ∈ l -> x = g \/ End_ x < Start g.
Proof.
  intros HS Hh Hx. apply last_Some in Hh as [l' ->]. apply StronglySorted_app in HS as (HS & _ & _).
  apply elem_of_app in Hx as [Hx|Hx]; [right; apply HS; set_solver|left; set_solver].
Qed.

Lemma head_elem {A} (l : list A) x : head l = Some x -> x ∈ l.
Proof. destruct l; intros; simplify_eq/=; left. Qed.

Lemma last_elem {A} (l : list A) x : last l = Some x -> x ∈ l.
Proof. intros [l' ->]%last_Some. set_solver. Qed.

(** Filling [a, b), which begins in or before [sg] and ends in or after [eg]. *)
Section fill.
Context (L X R : list byteInterval) (sg eg : byteInterval) (a b : Z).
Context (Hwf : gwf (L ++ X ++ R)) (Hhead : head X = Some sg) (Hlast : last X = Some eg).
Context (Hab : a < b < MaxByteCount) (Ha : a <= End_ sg) (Hb : Start eg <= b).
Context (HL : forall g, g ∈ L -> End_ g < a) (HR : forall g, g ∈ R -> b < Start g).

Lemma fill_parts :
  (forall g, g ∈ L ++ X ++ R -> 0 <= Start g < End_ g) /\
  StronglySorted (fun a b => End_ a < Start b) X /\
  StronglySorted (fun a b => End_ a < Start b) L /\ StronglySorted (fun a b => End_ a < Start b) R /\
  (forall x y, x ∈ L -> y ∈ X \/ y ∈ R -> End_ x < Start y) /\ (forall x y, x ∈ X -> y ∈ R -> End_ x < Start y).
Proof.
  destruct Hwf as (HF & HS & _). rewrite Forall_forall in HF. split; [done|].
  apply StronglySorted_app in HS as (H1 & HSL & HS). apply StronglySorted_app in HS as (H2 & HSX & HSR).
  repeat split; try done. intros x y Hx Hy. apply H1; [done|]. rewrite elem_of_app. tauto.
Qed.

Lemma gwf_fill : gwf (L ++ rest sg eg a b ++ R).
Proof.
  destruct fill_parts as (HF & HSX & HSL & HSR & H1 & H2).
  pose proof (head_elem _ _ Hhead) as Hsg. pose proof (last_elem _ _ Hlast) as Heg.
  pose proof (HF sg ltac:(set_solver)). pose proof (HF eg ltac:(set_solver)).
  assert (Hse : sg = eg \/ End_ sg < Start eg) by (destruct (sorted_head _ _ _ HSX Hhead Heg); naive_solver).
  split; [|split].
  - rewrite !Forall_app. repeat split; rewrite Forall_forall; intros g Hg; [apply HF; set_solver| |apply HF; set_solver].
    apply elem_of_rest in Hg as [[? ->]|[? ->]]; cbn; destruct Hse; subst; lia.
  - apply StronglySorted_app. split; [|split; [done|apply StronglySorted_app; split; [|split; [|done]]]].
    + intros x y Hx Hy. apply elem_of_app in Hy as [Hy|Hy]; [|by apply H1; [|right]].
      specialize (HL x Hx). pose proof (H1 x sg Hx ltac:(by left)).
      apply elem_of_rest in Hy as [[? ->]|[? ->]]; cbn; lia.
    + intros x y Hx Hy. specialize (HR y Hy). pose proof (H2 sg y Hsg Hy). pose proof (H2 eg y Heg Hy).
      apply elem_of_rest in Hx as [[? ->]|[? ->]]; cbn; lia.
    + unfold rest. destruct (_ <? a) eqn:?, (b <? _) eqn:?; repeat constructor; cbn; lia.
  - destruct Hwf as (_ & _ & l0 & g & Hl & Hg). destruct (decide (R = [])) as [->|Hne].
    + apply last_Some in Hlast as [X' ->]. rewrite app_nil_r, app_assoc in Hl. apply app_inj_tail in Hl as [_ <-].
      exists (L ++ (if Start sg <? a then [mkGap (Start sg) a] else [])), (mkGap b MaxByteCount).
      unfold rest. rewrite Hg, (proj2 (Z.ltb_lt b _)) by lia. rewrite app_nil_r, app_assoc. done.
    + destruct (exists_last Hne) as (R' & g' & ->). rewrite !app_assoc in Hl. apply app_inj_tail in Hl as [_ ->].
      exists (L ++ rest sg eg a b ++ R'), g. rewrite !app_assoc. done.
Qed.

Lemma in_gaps_fill x : in_gaps (L ++ rest sg eg a b ++ R) x <-> in_gaps (L ++ X ++ R) x /\ ~ (a <= x < b).
Proof.
  destruct fill_parts as (HF & HSX & _). rewrite !in_gaps_app.
  assert (in_gaps L x -> x < a) by (intros (g & Hg & ?); specialize (HL g Hg); unfold in_gap in *; lia).
  assert (in_gaps R x -> b <= x) by (intros (g & Hg & ?); specialize (HR g Hg); unfold in_gap in *; lia).
  assert (in_gaps (rest sg eg a b) x <-> in_gaps X x /\ ~ (a <= x < b)); [|intuition lia].
  split.
  - intros (g & Hg & Hx). apply elem_of_rest in Hg as [[? ->]|[? ->]]; unfold in_gap in Hx; cbn in Hx.
    + split; [|lia]. exists sg. split; [by apply head_elem|unfold in_gap; lia].
    + split; [|lia]. exists eg. split; [by apply last_elem|unfold in_gap; lia].
  - intros ((g & Hg & Hx) & Hn). unfold in_gap in Hx.
    destruct (decide (x < a)).
    + destruct (sorted_head _ _ _ HSX Hhead Hg) as [->|]; [|lia].
      exists (mkGap (Start sg) a). split; [apply elem_of_rest; left|unfold in_gap; cbn]; split; [lia|done|lia|lia].
    + destruct (sorted_last _ _ _ HSX Hlast Hg) as [->|]; [|lia].
      exists (mkGap b (End_ eg)). split; [apply elem_of_rest; right|unfold in_gap; cbn]; split; [lia|done|lia|lia].
Qed.
End fill.

(** ** The queue *)

Notation fqueue := (gmap Z frameSorterEntry).

Definition elen (e : frameSorterEntry) : Z := blen (Data e).

(** Queued frames are non-empty and do not overlap. *)
Definition sep (q : fqueue) : Prop :=
  (forall p e, q !! p = Some e -> 0 < elen e) /\
  (forall p p' e e', q !! p = Some e -> q !! p' = Some e' -> p < p' -> p + elen e <= p').

(** The queue without the frames that start in [a, b). *)
Definition outside (a b : Z) (q : fqueue) : fqueue := filter (fun kv => ~ (a <= kv.1 < b)) q.

Definition no_keys (q : fqueue) (a b : Z) : Prop := forall k, a <= k < b -> q !! k = None.

(** The callbacks of the queued frames. *)
Definition cbs (q : fqueue) : list nat := map_to_list q ≫= fun kv => call (DoneCb kv.2).

Lemma lookup_outside a b q k : outside a b q !! k = if decide (a <= k < b) then None else q !! k.
Proof.
  unfold outside. destruct (decide (a <= k < b)) as [H|H].
  - apply map_lookup_filter_None_2. right. cbn. intros e _ Hn. by apply Hn.
  - destruct (q !! k) as [e|] eqn:E.
    + by apply map_lookup_filter_Some_2.
    + apply map_lookup_filter_None_2. by left.
Qed.

Lemma outside_empty a b q : b <= a -> outside a b q = q.
Proof. intros H. apply map_eq. intros k. rewrite lookup_outside. case_decide; [lia|done]. Qed.

Lemma outside_outside a b c q : a <= b <= c -> outside b c (outside a b q) = outside a c q.
Proof. intros H. apply map_eq. intros k. rewrite !lookup_outside. repeat case_decide; done || lia. Qed.

Lemma outside_no_keys a b c q : b <= c -> no_keys q b c -> outside a b q = outside a c q.
Proof.
  intros H Hk. apply map_eq. intros k. rewrite !lookup_outside. repeat case_decide; try (done || lia).
  apply Hk. lia.
Qed.

Lemma outside_no_keys_l a b c q : a <= b -> no_keys q a b -> outside b c q = outside a c q.
Proof.
  intros H Hk. apply map_eq. intros k. rewrite !lookup_outside. repeat case_decide; try (done || lia).
  apply Hk. lia.
Qed.

Lemma outside_gap a b c d q :
  a <= c <= d -> b <= d -> no_keys q b c -> outside c d (outside a b q) = outside a d q.
Proof.
  intros H1 H2 Hk. apply map_eq. intros k. rewrite !lookup_outside. repeat case_decide; try (done || lia).
  apply Hk. lia.
Qed.

Lemma sep_sub q q' : (forall k e, q' !! k = Some e -> q !! k = Some e) -> sep q -> sep q'.
Proof. intros H [H1 H2]. split; eauto. Qed.

Lemma sep_delete q p : sep q -> sep (delete p q).
Proof. apply sep_sub. intros k e H. by apply lookup_delete_Some in H as [_ H]. Qed.

Lemma sep_outside q a b : sep q -> sep (outside a b q).
Proof. apply sep_sub. intros k e. rewrite lookup_outside. by case_decide. Qed.

Lemma cbs_insert q p e : q !! p = None -> cbs (<[p := e]> q) ≡ₚ call (DoneCb e) ++ cbs q.
Proof. intros H. unfold cbs. rewrite map_to_list_insert by done. done. Qed.

Lemma cbs_delete q p e : q !! p = Some e -> cbs q ≡ₚ call (DoneCb e) ++ cbs (delete p q).
Proof.
  intros H. rewrite <- (cbs_insert (delete p q) p e) by apply lookup_delete_eq.
  by rewrite insert_delete_id.
Qed.

(** Frames that follow each other from [a] to [b]. *)
Inductive chain (q : fqueue) (b : Z) : Z -> Prop :=
| chain_nil : chain q b b
| chain_cons a e : q !! a = Some e -> chain q b (a + elen e) -> chain q b a.

Lemma chain_le q b a : sep q -> chain q b a -> a <= b.
Proof. intros [Hs _]. induction 1 as [|a e He _ IH]; [lia|]. specialize (Hs _ _ He). lia. Qed.

(** A chain is not affected by changes before it. *)
Lemma chain_mono q q' b a : sep q -> (forall k, a <= k -> q' !! k = q !! k) -> chain q b a -> chain q' b a.
Proof.
  intros Hs Hq Hc. revert Hq. induction Hc as [|a e He _ IH]; intros Hq; [constructor|].
  pose proof (proj1 Hs _ _ He). apply (chain_cons _ _ _ e); [rewrite Hq by lia; done|].
  apply IH. intros k Hk. apply Hq. lia.
Qed.

Lemma outside_delete q p e b :
  sep q -> q !! p = Some e -> p + elen e <= b -> outside (p + elen e) b (delete p q) = outside p b q.
Proof.
  intros [Hs Hd] He Hb. pose proof (Hs _ _ He). apply map_eq. intros k. rewrite !lookup_outside.
  destruct (decide (k = p)) as [->|Hne]; [rewrite lookup_delete_eq; repeat case_decide; done || lia|].
  rewrite lookup_delete_ne by done. repeat case_decide; try (done || lia).
  destruct (q !! k) as [e'|] eqn:Ek; [|done]. specialize (Hd _ _ _ _ He Ek). lia.
Qed.

Lemma size_delete_lt (q : fqueue) p e fuel :
  q !! p = Some e -> (size q <= S fuel)%nat -> (size (delete p q) <= fuel)%nat.
Proof. intros H Hf. rewrite map_size_delete_Some by eauto. lia. Qed.

Lemma size_pos (q : fqueue) p e : q !! p = Some e -> (size q <> 0)%nat.
Proof. intros H H0. apply map_size_empty_iff in H0 as ->. done. Qed.

(** The frame at the head of a chain taken out. *)
Lemma chain_uncons q b a e :
  sep q -> q !! b = None -> q !! a = Some e -> chain q b a ->
  chain (delete a q) b (a + elen e) /\ a + elen e <= b /\ delete a q !! b = None.
Proof.
  intros Hs Hb He Hc. pose proof (proj1 Hs _ _ He) as Hp. inversion Hc as [|a' e' He' Hc']; subst; [congruence|].
  rewrite He in He'. injection He' as ->. split; [|split].
  - eapply chain_mono; [exact Hs| |done]. intros k Hk. rewrite lookup_delete_ne by lia. done.
  - by eapply chain_le.
  - rewrite lookup_delete_ne; [done|congruence].
Qed.

Lemma deleteConsecutive_spec fuel q a b :
  sep q -> (size q <= fuel)%nat -> chain q b a -> q !! b = None ->
  exists calls, deleteConsecutive fuel q a = (outside a b q, calls) /\ cbs q ≡ₚ calls ++ cbs (outside a b q).
Proof.
  revert q a. induction fuel as [|fuel IH]; intros q a Hs Hf Hc Hb.
  all: destruct (q !! a) as [e|] eqn:He;
    [|inversion Hc as [|? e' He']; subst; [|congruence]; exists []; cbn; rewrite He, outside_empty by lia; done].
  { apply size_pos in He. lia. }
  destruct (chain_uncons _ _ _ _ Hs Hb He Hc) as (Hc' & Hle & Hb').
  destruct (IH (delete a q) (a + elen e)) as (calls & Hd & Hp);
    [by apply sep_delete|by eapply size_delete_lt|done|done|].
  exists (call (DoneCb e) ++ calls). cbn. rewrite He. unfold elen in Hd at 1. rewrite Hd.
  rewrite (outside_delete q a e b) in * by done. split; [done|].
  rewrite (cbs_delete q a e He), Hp, app_assoc. done.
Qed.

(** The replacement loop along a chain that ends at [lim]. *)
Lemma replace_loop_spec fuel q a lim end_ has :
  sep q -> (size q <= fuel)%nat -> chain q lim a -> q !! lim = None -> a <= end_ -> (has = false -> a < end_) ->
  let '(q', calls, has', r) := replace_loop fuel q a end_ has in
  match r with
  | Duplicate => has = false /\ end_ <= lim /\ a < lim
  | Cut p => has' = true /\ a <= p <= end_ /\ end_ < lim /\ (has = false -> a < p) /\
             q' = outside a p q /\ (exists e, q !! p = Some e) /\ cbs q ≡ₚ calls ++ cbs q'
  | Kept => lim <= end_ /\ q' = outside a lim q /\ has' = has || (a <? lim) /\ cbs q ≡ₚ calls ++ cbs q'
  end.
Proof.
  revert q a has. induction fuel as [|fuel IH]; intros q a has Hs Hf Hc Hb Ha Hh.
  all: destruct (q !! a) as [e|] eqn:He;
    [|inversion Hc as [|? e' He']; subst; [|congruence]; cbn; rewrite He, outside_empty by lia;
      repeat split; try done; lia].
  { apply size_pos in He. lia. }
  pose proof (proj1 Hs _ _ He) as Hpos.
  destruct (chain_uncons _ _ _ _ Hs Hb He Hc) as (Hc' & Hle & Hb').
  cbn. rewrite He. change (blen (Data e)) with (elen e).
  destruct ((elen e <? end_ - a) || has && (end_ - a =? elen e)) eqn:Ec.
  - specialize (IH (delete a q) (a + elen e) true). destruct (replace_loop _ _ _ _ _) as [[[q' calls] has'] r].
    assert (Hp' := IH (sep_delete _ _ Hs) (size_delete_lt _ _ _ _ He Hf) Hc' Hb' ltac:(lia) ltac:(done)).
    destruct r as [|p|].
    + by destruct Hp' as [? _].
    + destruct Hp' as (-> & Hp1 & Hp2 & _ & -> & (e' & He') & Hp). rewrite (outside_delete q a e p) in * by (done || lia).
      repeat split; try done; try lia.
      * exists e'. by apply lookup_delete_Some in He' as [_ ?].
      * rewrite (cbs_delete q a e He), Hp, app_assoc. done.
    + destruct Hp' as (Hl & -> & -> & Hp). rewrite (outside_delete q a e lim) in * by (done || lia).
      repeat split; try done; try lia. rewrite (cbs_delete q a e He), Hp, app_assoc. done.
  - destruct has; cbn.
    + repeat split; try lia; [by rewrite outside_empty by lia|by exists e|done].
    + repeat split; try lia.
Qed.

(** ** The invariant of the sorter *)

(** [d] is what the stream [str] holds from [p] on. *)
Definition agrees (str : Z -> Byte.byte) (p : Z) (d : list Byte.byte) : Prop :=
  forall i b, d !! i = Some b -> str (p + Z.of_nat i) = b.

Definition within (q : fqueue) (x : Z) : Prop := exists p e, q !! p = Some e /\ p <= x < p + elen e.

(** Gaps lie at or after the read position; a queued frame lies between the gaps,
    holds the bytes of the stream, and every byte that arrived and was not read is
    queued. *)
Record inv (str : Z -> Byte.byte) (s : frameSorter) : Prop := mkInv {
  inv_gaps : gwf (gaps s);
  inv_read : 0 <= readPos s;
  inv_after : forall x, in_gaps (gaps s) x -> readPos s <= x;
  inv_sep : sep (queue s);
  inv_entry : forall p e, queue s !! p = Some e ->
    readPos s <= p /\ p + elen e <= MaxByteCount /\ agrees str p (Data e) /\
    forall x, p <= x < p + elen e -> ~ in_gaps (gaps s) x;
  inv_complete : forall x, readPos s <= x < MaxByteCount -> ~ in_gaps (gaps s) x -> within (queue s) x }.

Section invariant.
Context (str : Z -> Byte.byte) (s : frameSorter) (Hi : inv str s).

Lemma no_key_in_gap x : in_gaps (gaps s) x -> queue s !! x = None.
Proof.
  intros Hx. destruct (queue s !! x) as [e|] eqn:He; [|done].
  destruct (inv_entry _ _ Hi _ _ He) as (_ & _ & _ & Hn).
  pose proof (proj1 (inv_sep _ _ Hi) _ _ He). exfalso. apply (Hn x); [lia|done].
Qed.

(** A frame holds the byte after a frame or after a gap at its first place. *)
Lemma entry_starts x :
  readPos s <= x < MaxByteCount -> ~ in_gaps (gaps s) x ->
  in_gaps (gaps s) (x - 1) \/ (exists p e, queue s !! p = Some e /\ p + elen e = x) ->
  exists e, queue s !! x = Some e.
Proof.
  intros Hx Hn Hprev. destruct (inv_complete _ _ Hi x Hx Hn) as (p & e & He & Hp).
  destruct (decide (p = x)) as [->|Hne]; [by exists e|exfalso].
  destruct Hprev as [Hg|(p' & e' & He' & Hp')].
  - destruct (inv_entry _ _ Hi _ _ He) as (_ & _ & _ & Hg'). apply (Hg' (x - 1)); [lia|done].
  - destruct (inv_sep _ _ Hi) as [Hpos Hd]. pose proof (Hpos _ _ He'). pose proof (Hpos _ _ He).
    destruct (Z.lt_trichotomy p p') as [?|[->|?]].
    + specialize (Hd _ _ _ _ He He'). lia.
    + simplify_eq. lia.
    + specialize (Hd _ _ _ _ He' He). lia.
Qed.

(** Between a frame and the next gap the frames follow each other. *)
Lemma chain_to_gap a b :
  readPos s <= a <= b -> b < MaxByteCount -> (forall x, a <= x < b -> ~ in_gaps (gaps s) x) ->
  in_gaps (gaps s) b -> a = b \/ (exists e, queue s !! a = Some e) ->
  chain (queue s) b a.
Proof.
  intros Ha Hb Hn Hg Hst. remember (Z.to_nat (b - a)) as n eqn:En.
  revert a Ha Hn Hst En. induction n as [n IH] using lt_wf_ind. intros a Ha Hn Hst En.
  destruct Hst as [->|[e He]]; [constructor|].
  pose proof (proj1 (inv_sep _ _ Hi) _ _ He) as Hpos.
  destruct (inv_entry _ _ Hi _ _ He) as (_ & _ & _ & Hng).
  assert (a + elen e <= b).
  { destruct (decide (a + elen e <= b)); [done|]. exfalso. apply (Hng b); [lia|done]. }
  apply (chain_cons _ _ _ e He). apply (IH (Z.to_nat (b - (a + elen e)))); [lia|lia| | |done].
  - intros x Hx. apply Hn. lia.
  - destruct (decide (a + elen e = b)); [by left|right]. apply entry_starts; [lia|apply Hn; lia|].
    right. eauto.
Qed.
End invariant.

(** ** Elements *)

Lemma NoDup_drop_mid {A} (l1 l2 : list A) x : NoDup (l1 ++ x :: l2) -> NoDup (l1 ++ l2).
Proof. rewrite !NoDup_app, NoDup_cons. intros (H1 & H2 & _ & H3). split; [done|]. split; [set_solver|done]. Qed.

Section elements.
Context (L R : list element) (x : element) (Hnd : NoDup (L ++ x :: R).*1).

Lemma elements_ne y : y ∈ L \/ y ∈ R -> y.1 <> x.1.
Proof.
  rewrite fmap_app in Hnd. cbn in Hnd. apply NoDup_app in Hnd as (_ & H1 & H2).
  apply NoDup_cons in H2 as [H2 _]. intros [Hy|Hy] E.
  - apply (H1 x.1); [rewrite <- E; by apply list_elem_of_fmap_2|left].
  - apply H2. rewrite <- E. by apply list_elem_of_fmap_2.
Qed.

Lemma Remove_mid : Remove x.1 (L ++ x :: R) = L ++ R.
Proof.
  unfold Remove. rewrite filter_app, filter_cons_False by (intros H; by apply H).
  rewrite !filter_all; [done|..]; apply Forall_forall; intros y Hy; apply elements_ne; auto.
Qed.

Lemma set_value_mid v : set_value x.1 v (L ++ x :: R) = L ++ (x.1, v) :: R.
Proof.
  unfold set_value. rewrite map_app. cbn. rewrite decide_True by done.
  assert (Hid : forall l, (forall y, y ∈ l -> y.1 <> x.1) ->
            map (fun y => if decide (y.1 = x.1) then (x.1, v) else y) l = l).
  { intros l Hl. rewrite <- (map_id l) at 2. apply map_ext_in. intros y Hy. rewrite decide_False; [done|].
    apply Hl. by apply list_elem_of_In. }
  rewrite !Hid; [done|..]; intros y Hy; apply elements_ne; auto.
Qed.

Lemma InsertAfter_mid v : InsertAfter x.1 v (L ++ x :: R) = L ++ x :: v :: R.
Proof.
  assert (H : forall y, y ∈ L -> y.1 <> x.1) by (intros y Hy; apply elements_ne; auto). clear Hnd.
  induction L as [|y l IH]; cbn; [by rewrite decide_True|].
  rewrite decide_False by (apply H; left). f_equal. apply IH. intros z Hz. apply H. by right.
Qed.
End elements.

(** ** Finding the gaps *)

Definition last_or {A} (l : list A) (d : option A) : option A :=
  match last l with Some x => Some x | None => d end.

Lemma last_or_cons {A} (x : A) l d : last_or (x :: l) d = last_or l (Some x).
Proof. unfold last_or. rewrite last_cons. by destruct (last l). Qed.

Lemma findStartGap_spec prev l off :
  (exists g, g ∈ l /\ off <= End_ g.2) -> (forall g, g ∈ l -> Start g.2 < End_ g.2) ->
  exists pre g after, l = pre ++ g :: after /\
    findStartGap prev l off = Some (g, Start g.2 <=? off, last_or pre prev, after) /\
    (forall a, a ∈ pre -> End_ a.2 < off) /\ off <= End_ g.2.
Proof.
  revert prev. induction l as [|g l IH]; intros prev (g0 & Hg0 & H0) Hlt; [set_solver|]. cbn.
  pose proof (Hlt g ltac:(left)). destruct (off <=? End_ g.2) eqn:E1.
  - exists [], g, l. split; [done|]. split; [|split; [set_solver|lia]].
    destruct (Start g.2 <=? off) eqn:E2; cbn; [done|]. rewrite (proj2 (Z.ltb_lt _ _)) by lia. done.
  - destruct (IH (Some g)) as (pre & g' & after & -> & Hf & Hpre & Hg').
    { exists g0. apply elem_of_cons in Hg0 as [->|]; [lia|done]. }
    { intros x Hx. apply Hlt. by right. }
    exists (g :: pre), g', after. split; [done|]. split; [|split; [|done]].
    + rewrite last_or_cons, <- Hf, andb_false_r. rewrite (proj2 (Z.ltb_ge _ _)) by lia. done.
    + intros a [->|Ha]%elem_of_cons; [lia|by apply Hpre].
Qed.

Lemma findEndGap_spec prev l off :
  (exists g, g ∈ l /\ off < End_ g.2) -> (forall g, g ∈ l -> Start g.2 < End_ g.2) ->
  exists pre h post, l = pre ++ h :: post /\ (forall a, a ∈ pre -> End_ a.2 <= off) /\ off < End_ h.2 /\
    findEndGap prev l off = Some (if Start h.2 <=? off then (Some h, true) else (last_or pre prev, false)).
Proof.
  intros He Hlt. revert prev He Hlt. induction l as [|g l IH]; intros prev (g0 & Hg0 & H0) Hlt; [set_solver|]. cbn.
  pose proof (Hlt g ltac:(left)).
  destruct (off <? End_ g.2) eqn:E1.
  - exists [], g, l. split; [done|]. split; [set_solver|]. split; [lia|].
    destruct (Start g.2 <=? off) eqn:E2; cbn; [done|]. rewrite (proj2 (Z.ltb_lt _ _)) by lia. done.
  - destruct (IH (Some g)) as (pre & h & post & -> & Hpre & Hh & Hf).
    { exists g0. apply elem_of_cons in Hg0 as [->|]; [lia|done]. }
    { intros x Hx. apply Hlt. by right. }
    exists (g :: pre), h, post. split; [done|]. split; [|split; [done|]].
    + intros a [->|Ha]%elem_of_cons; [lia|by apply Hpre].
    + rewrite last_or_cons, <- Hf, andb_false_r. rewrite (proj2 (Z.ltb_ge _ _)) by lia. done.
Qed.

(** ** The gaps in the middle *)

Definition next_start (M : list element) (z : Z) : Z := match M with [] => z | g :: _ => Start g.2 end.

(** No frame starts in a gap of [M], and after each of them the frames follow each
    other up to the next gap. *)
Fixpoint mid_ok (q : fqueue) (M : list element) (z : Z) : Prop :=
  match M with
  | [] => True
  | g :: M =>
      Start g.2 < End_ g.2 /\ no_keys q (Start g.2) (End_ g.2) /\
      chain q (next_start M z) (End_ g.2) /\ q !! next_start M z = None /\ mid_ok q M z
  end.

Lemma next_start_le q M z : sep q -> mid_ok q M z -> next_start M z <= z.
Proof.
  intros Hs. induction M as [|g M IH]; cbn; [lia|]. intros (H & _ & Hc & _ & Hm).
  specialize (IH Hm). apply chain_le in Hc; [lia|done].
Qed.

Lemma mid_ok_mono q q' M z :
  sep q -> (forall k, next_start M z <= k -> q' !! k = q !! k) -> mid_ok q M z -> mid_ok q' M z.
Proof.
  intros Hs. induction M as [|g M IH]; cbn; [done|]. intros Hq (H & Hk & Hc & Hn & Hm).
  pose proof (chain_le _ _ _ Hs Hc). split; [done|]. split; [|split; [|split]].
  - intros k Hkk. rewrite Hq by lia. by apply Hk.
  - eapply chain_mono; [exact Hs| |done]. intros k Hkk. apply Hq. lia.
  - rewrite Hq by lia. done.
  - apply IH; [|done]. intros k Hkk. apply Hq. lia.
Qed.

Lemma middle_loop_spec (M : list element) q (L : list element) (eg : element) (R : list element) :
  sep q -> NoDup (L ++ M ++ eg :: R).*1 -> mid_ok q M (Start eg.2) ->
  (forall g, g ∈ M -> End_ g.2 < Start eg.2) -> Start eg.2 < End_ eg.2 ->
  exists calls,
    middle_loop q (L ++ M ++ eg :: R) (M ++ eg :: R) (Start eg.2)
    = Ok (outside (next_start M (Start eg.2)) (Start eg.2) q, calls, L ++ eg :: R) /\
    cbs q ≡ₚ calls ++ cbs (outside (next_start M (Start eg.2)) (Start eg.2) q).
Proof.
  revert q. induction M as [|g M IH]; intros q Hs Hnd Hm HM Heg; cbn [middle_loop app next_start].
  - rewrite (proj2 (Z.ltb_ge _ _)) by lia. exists []. rewrite outside_empty by lia. done.
  - destruct Hm as (Hg & Hk & Hc & Hn & Hm). rewrite (proj2 (Z.ltb_lt _ _)) by (apply HM; left).
    destruct (deleteConsecutive_spec (S (size q)) q _ _ Hs ltac:(lia) Hc Hn) as (c1 & -> & Hp1).
    pose proof (chain_le _ _ _ Hs Hc). pose proof (next_start_le _ _ _ Hs Hm).
    set (nx := next_start M (Start eg.2)) in *. set (q1 := outside (End_ g.2) nx q) in *.
    cbn in Hnd. rewrite Remove_mid by done. cbv beta iota.
    destruct (IH q1) as (c2 & -> & Hp2).
    + by apply sep_outside.
    + rewrite fmap_app in Hnd |- *. cbn in Hnd. by eapply NoDup_drop_mid.
    + apply (mid_ok_mono q); [done| |done]. intros k Hkk. unfold q1. rewrite lookup_outside, decide_False by (unfold nx; lia).
      done.
    + intros g' Hg'. apply HM. by right.
    + done.
    + cbn. exists (c1 ++ c2). unfold q1 in *. rewrite outside_outside in * by (unfold nx; lia).
      rewrite (outside_no_keys_l (Start g.2) (End_ g.2) (Start eg.2)) in * by (done || lia). split; [done|].
      rewrite Hp1, Hp2, app_assoc. done.
Qed.

Section between.
Context (str : Z -> Byte.byte) (s : frameSorter) (Hi : inv str s).

Lemma gap_in A g B x : gaps s = A ++ g :: B -> in_gap g x -> in_gaps (gaps s) x.
Proof. intros -> Hx. exists g. split; [set_solver|done]. Qed.

(** Between two neighbouring gaps there is none. *)
Lemma not_in_between A g h B x :
  gaps s = A ++ g :: h :: B -> End_ g <= x < Start h -> ~ in_gaps (gaps s) x.
Proof.
  intros Hg Hx (g' & Hin & Hx'). pose proof (inv_gaps _ _ Hi) as Hwf. rewrite Hg in Hwf, Hin.
  pose proof (gwf_mid _ _ _ Hwf) as (? & HA & HB & _).
  rewrite cons_middle, app_assoc in Hwf. pose proof (gwf_mid _ _ _ Hwf) as (? & _ & HB' & _).
  unfold in_gap in Hx'. apply elem_of_app in Hin as [Hin|Hin]; [specialize (HA _ Hin); lia|].
  apply elem_of_cons in Hin as [->|Hin]; [lia|]. apply elem_of_cons in Hin as [->|Hin]; [lia|].
  specialize (HB' _ Hin). lia.
Qed.

Lemma chain_between A g h B :
  gaps s = A ++ g :: h :: B ->
  chain (queue s) (Start h) (End_ g) /\ queue s !! Start h = None /\ End_ g < Start h.
Proof.
  intros Hg. pose proof (inv_gaps _ _ Hi) as Hwf. rewrite Hg in Hwf.
  pose proof (gwf_mid _ _ _ Hwf) as (Hgg & _ & HB & _). destruct (HB h) as [Hgh Hh]; [left|].
  assert (in_gaps (gaps s) (End_ g - 1)) as Hlast by (apply (gap_in A g (h :: B)); [done|unfold in_gap; lia]).
  assert (in_gaps (gaps s) (Start h)) as Hst.
  { apply (gap_in (A ++ [g]) h B); [by rewrite <- app_assoc|unfold in_gap; lia]. }
  pose proof (inv_after _ _ Hi _ Hlast).
  assert (Start h < MaxByteCount). { pose proof (gwf_max _ h Hwf ltac:(set_solver)). lia. }
  split; [|split; [by eapply no_key_in_gap|done]].
  apply (chain_to_gap str s Hi); [lia|done| |done|right].
  - intros x Hx. eapply not_in_between; [done|lia].
  - apply (entry_starts str s Hi); [lia| |by left]. eapply not_in_between; [done|lia].
Qed.

Lemma mid_from (M : list element) (eg : element) A B :
  gaps s = A ++ M.*2 ++ eg.2 :: B -> mid_ok (queue s) M (Start eg.2).
Proof.
  revert A. induction M as [|g M IH]; intros A Hg; cbn; [done|].
  assert (Hg' : gaps s = A ++ g.2 :: M.*2 ++ eg.2 :: B) by done.
  pose proof (inv_gaps _ _ Hi) as Hwf. rewrite Hg' in Hwf. pose proof (gwf_mid _ _ _ Hwf) as (Hlt & _).
  assert (chain (queue s) (next_start M (Start eg.2)) (End_ g.2) /\ queue s !! next_start M (Start eg.2) = None)
    as [Hc Hn] by (destruct M as [|h M]; destruct (chain_between _ _ _ _ Hg') as (? & ? & _); done).
  split; [lia|]. split; [|split; [done|split; [done|]]].
  - intros k Hk. eapply no_key_in_gap; [done|]. by eapply gap_in.
  - apply (IH (A ++ [g.2])). rewrite Hg', <- app_assoc. done.
Qed.
End between.

(** ** [push_gaps] *)

Lemma slice_agrees str p (d : list Byte.byte) a b :
  0 <= a <= b -> b <= blen d -> agrees str p d ->
  exists d', go_slice (E:=serr) d a b = Ok d' /\ blen d' = b - a /\ agrees str (p + a) d'.
Proof.
  intros Ha Hb Hd. rewrite go_slice_Ok by lia. eexists. split; [done|]. unfold blen in *. split.
  - rewrite length_take, length_drop. lia.
  - intros i x Hx. apply lookup_take_Some in Hx as [Hx _]. rewrite lookup_drop in Hx. apply Hd in Hx as <-.
    f_equal. lia.
Qed.

Section push_gaps.
Context (str : Z -> Byte.byte) (s : frameSorter) (q : fqueue) (calls : list nat) (data : list Byte.byte)
  (start end_ : Z) (doneCb : cb) (sg : element) (startsInGap endsInGap has wasCut : bool) (L : list element).
Context (Hd : agrees str start data) (Hlen : blen data = end_ - start).
Context (Hsg : Start sg.2 < End_ sg.2) (Hend : Start sg.2 < end_).

(** Where the frame starts after it was trimmed. *)
Definition start' : Z := if negb startsInGap && negb has then Start sg.2 else start.

Context (Hstart : start <= start').

Lemma trim_data :
  exists d, (if negb startsInGap && negb has then go_slice data (Start sg.2 - start) (blen data) else mret data)
            = Ok (E:=serr) d /\ blen d = end_ - start' /\ agrees str start' d.
Proof.
  unfold start' in *. destruct (_ && _); [|by eauto].
  destruct (slice_agrees str start data (Start sg.2 - start) (blen data)) as (d & Hd1 & Hd2 & Hd3); [lia|lia|done|].
  exists d. split; [done|]. split; [lia|]. by replace (Start sg.2) with (start + (Start sg.2 - start)) by lia.
Qed.

(** One gap, filled from [start'] up to its end at most; or a frame that only
    replaces others, right after the gap. *)
Lemma push_gaps_same (R : list element) :
  imap pair (gaps s) = L ++ sg :: R -> NoDup (imap pair (gaps s)).*1 ->
  (start' < End_ sg.2 /\ (has = true -> start' <= Start sg.2) /\ endsInGap = (end_ <? End_ sg.2)) \/
  (has = true /\ start' = End_ sg.2 /\ End_ sg.2 < end_) ->
  let end' := if start' <? End_ sg.2 then Z.min end_ (End_ sg.2) else end_ in
  exists d cut, blen d = end' - start' /\ agrees str start' d /\
    push_gaps s q calls data start end_ doneCb sg sg R startsInGap endsInGap has wasCut
    = finish s q start' d doneCb cut (calls ++ []) (L.*2 ++ rest sg.2 sg.2 start' end' ++ R.*2).
Proof.
  intros Hl Hnd Hcase end'. destruct trim_data as (d & Hd1 & Hd2 & Hd3).
  unfold push_gaps. rewrite Hd1. cbn [mbind res_bind]. fold start'. rewrite Hl in *. clear Hd1.
  rewrite bool_decide_true by done.
  set (trimEnd := negb endsInGap && negb (start' =? End_ sg.2) && (End_ sg.2 <? end_)).
  assert (Ht : trimEnd = (start' <? End_ sg.2) && (End_ sg.2 <? end_)) by (unfold trimEnd; lia).
  assert (exists d', (if trimEnd then go_slice d 0 (End_ sg.2 - start') else mret d) = Ok (E:=serr) d' /\
            blen d' = end' - start' /\ agrees str start' d') as (d' & Hd1 & Hd2' & Hd3').
  { rewrite Ht. unfold end'. destruct (start' <? End_ sg.2) eqn:E1, (End_ sg.2 <? end_) eqn:E2; cbn [andb].
    1: destruct (slice_agrees str start' d 0 (End_ sg.2 - start')) as (d' & ? & ? & Hx); [lia|lia|done|];
       exists d'; rewrite Z.add_0_r in Hx; repeat split; try done; lia.
    all: exists d; repeat split; try done; lia. }
  exists d', (wasCut || negb startsInGap && negb has || trimEnd). split; [done|]. split; [done|].
  assert (Hend' : (if trimEnd then End_ sg.2 else end_) = end')
    by (rewrite Ht; unfold end'; destruct (start' <? _) eqn:?, (_ <? end_) eqn:?; cbn; lia).
  unfold rest. pose proof (fun v => InsertAfter_mid L R (sg.1, v)) as HI. cbn [fst] in HI.
  destruct (start' <=? Start sg.2) eqn:E1; [destruct (End_ sg.2 <=? end_) eqn:E2|destruct has].
  1: rewrite Remove_mid by done. 2,4: rewrite set_value_mid by done.
  all: cbn [negb mbind res_bind mret res_ret]; rewrite Hd1, Hend'; cbn [mbind res_bind andb];
    rewrite ?HI by (rewrite fmap_app in Hnd |- *; exact Hnd); f_equal; clear HI Hnd Hl Hd1 Hend' Hd2 Hd2'; subst end' trimEnd;
    repeat (case_match; try (discriminate || lia)); rewrite ?fmap_app; cbn; repeat f_equal; try lia.
  destruct sg as [? []]; cbn in *. repeat f_equal; lia.
Qed.

(** Several gaps: the frames between them go. *)
Lemma push_gaps_apart (M : list element) (eg : element) (R : list element) :
  let nx := next_start M (Start eg.2) in
  imap pair (gaps s) = L ++ sg :: M ++ eg :: R -> NoDup (imap pair (gaps s)).*1 ->
  sep q -> q !! nx = None -> chain q nx (End_ sg.2) \/ (End_ sg.2 <= nx /\ no_keys q (End_ sg.2) nx) ->
  mid_ok q M (Start eg.2) -> (forall g, g ∈ M -> End_ g.2 < Start eg.2) -> Start eg.2 < End_ eg.2 ->
  End_ sg.2 < Start eg.2 <= end_ -> start' <= End_ sg.2 ->
  (if has then start' <= Start sg.2 \/ start' = End_ sg.2 else start' < End_ sg.2) ->
  endsInGap = (end_ <? End_ eg.2) ->
  let end' := Z.min end_ (End_ eg.2) in
  let q' := outside (End_ sg.2) (Start eg.2) q in
  exists d cut calls', blen d = end' - start' /\ agrees str start' d /\ cbs q ≡ₚ calls' ++ cbs q' /\
    push_gaps s q calls data start end_ doneCb sg eg (M ++ eg :: R) startsInGap endsInGap has wasCut
    = finish s q' start' d doneCb cut (calls ++ calls') (L.*2 ++ rest sg.2 eg.2 start' end' ++ R.*2).
Proof.
  intros nx Hl Hnd Hs Hn Hc Hm HM Heg Hse Hst Hhas Hin end' q'.
  destruct trim_data as (d & Hd1 & Hd2 & Hd3).
  unfold push_gaps. rewrite Hd1. cbn [mbind res_bind]. fold start'. rewrite Hl in *. clear Hd1.
  assert (sg.1 <> eg.1) as Hne.
  { intros E. apply (elements_ne L (M ++ eg :: R) sg Hnd eg); [right; set_solver|done]. }
  rewrite bool_decide_false by done. cbn [negb].
  assert (Hnx : End_ sg.2 <= nx <= Start eg.2).
  { pose proof (next_start_le _ _ _ Hs Hm). destruct Hc as [Hc|[? _]]; [|done].
    pose proof (chain_le _ _ _ Hs Hc). done. }
  assert (exists c1, deleteConsecutive (S (size q)) q (End_ sg.2) = (outside (End_ sg.2) nx q, c1) /\
            cbs q ≡ₚ c1 ++ cbs (outside (End_ sg.2) nx q)) as (c1 & -> & Hp1).
  { destruct Hc as [Hc|[Hle Hk]]; [apply deleteConsecutive_spec; done || lia|].
    assert (q !! End_ sg.2 = None) as Hz by (destruct (decide (End_ sg.2 = nx)) as [->|]; [done|apply Hk; lia]).
    exists []. cbn. rewrite Hz. rewrite <- (outside_no_keys (End_ sg.2) (End_ sg.2) nx) by done.
    rewrite outside_empty by lia. done. }
  set (L1 := L ++ (if Start sg.2 <? start' then [(sg.1, mkGap (Start sg.2) start')] else []) : list element).
  match goal with |- context [let '(_, _) := ?t in _] => assert (exists adj, t = (L1 ++ M ++ eg :: R, adj)) as [adj ->] end.
  { unfold L1. rewrite Remove_mid, set_value_mid, set_value_mid by done. rewrite <- app_assoc.
    destruct (start' <=? _) eqn:E1, (_ <? start') eqn:E2, (End_ sg.2 <=? end_) eqn:E3; try lia; [by eexists|].
    destruct has; cbn; [|by eexists]. exists false. do 2 f_equal. cbn. f_equal.
    destruct sg as [? []]; cbn in *. do 2 f_equal. lia. }
  assert (NoDup (L1 ++ M ++ eg :: R).*1) as Hnd1.
  { unfold L1. rewrite fmap_app in Hnd. cbn in Hnd. rewrite fmap_app in Hnd. rewrite <- app_assoc, !fmap_app.
    destruct (_ <? start'); cbn; [exact Hnd|by eapply NoDup_drop_mid]. }
  destruct (middle_loop_spec M (outside (End_ sg.2) nx q) L1 eg R) as (c2 & -> & Hp2); [by apply sep_outside|done| |done|done|].
  { apply (mid_ok_mono q); [done| |done]. intros k Hk. rewrite lookup_outside, decide_False by (fold nx in Hk; lia). done. }
  fold nx in Hp2. fold nx. rewrite outside_outside in Hp2 |- * by lia. fold q' in Hp2 |- *.
  cbn [mbind res_bind mret res_ret].
  set (trimEnd := negb endsInGap && negb (start' =? End_ eg.2) && (End_ eg.2 <? end_)).
  assert (Ht : trimEnd = (End_ eg.2 <? end_)) by (unfold trimEnd; lia).
  assert (exists d', (if trimEnd then go_slice d 0 (End_ eg.2 - start') else mret d) = Ok (E:=serr) d' /\
            blen d' = end' - start' /\ agrees str start' d') as (d' & -> & Hd2' & Hd3').
  { rewrite Ht. unfold end'. destruct (End_ eg.2 <? end_) eqn:E2.
    1: destruct (slice_agrees str start' d 0 (End_ eg.2 - start')) as (d' & ? & ? & Hx); [lia|lia|done|];
       exists d'; rewrite Z.add_0_r in Hx; repeat split; try done; lia.
    all: exists d; repeat split; try done; lia. }
  exists d', (wasCut || negb startsInGap && negb has || trimEnd), (c1 ++ c2).
  split; [done|]. split; [done|]. split; [rewrite Hp1, Hp2; by rewrite app_assoc|].
  cbn [mbind res_bind]. f_equal. cbn [andb].
  assert (NoDup (L1 ++ eg :: R).*1) as Hnd2.
  { rewrite !fmap_app in *. apply NoDup_app in Hnd1 as (? & Hx & HM2). apply NoDup_app in HM2 as (_ & _ & ?).
    apply NoDup_app. set_solver. }
  rewrite Remove_mid, set_value_mid by done. unfold rest, L1. rewrite Ht. unfold end'.
  repeat (case_match; try lia); rewrite ?fmap_app, <- ?app_assoc; cbn; repeat f_equal; lia.
Qed.
End push_gaps.

(** ** [push] *)

Section place.
Context (str : Z -> Byte.byte) (s : frameSorter) (Hi : inv str s).

(** No queued frame lies across [x]. *)
Definition clean (x : Z) : Prop :=
  in_gaps (gaps s) x \/ in_gaps (gaps s) (x - 1) \/ exists e, queue s !! x = Some e.

Lemma clean_spec x p e : clean x -> queue s !! p = Some e -> p < x -> p + elen e <= x.
Proof.
  intros Hx He Hp. destruct (decide (p + elen e <= x)); [done|exfalso].
  destruct (inv_entry _ _ Hi _ _ He) as (_ & _ & _ & Hn). destruct Hx as [Hx|[Hx|[e' He']]].
  - apply (Hn x); [lia|done].
  - apply (Hn (x - 1)); [lia|done].
  - pose proof (proj2 (inv_sep _ _ Hi) _ _ _ _ He He' Hp). lia.
Qed.

Context (a b : Z) (d : list Byte.byte) (gs : list byteInterval).
Context (Hab : readPos s <= a < b) (Hmax : b < MaxByteCount) (Hd : agrees str a d) (Hlen : blen d = b - a).
Context (Hca : clean a) (Hcb : clean b) (Hgs : gwf gs).
Context (Hin : forall x, in_gaps gs x <-> in_gaps (gaps s) x /\ ~ (a <= x < b)).

Definition placed (c : cb) : frameSorter := mkSorter (<[a := mkEntry d c]> (outside a b (queue s))) (readPos s) gs.

Lemma placed_lookup c p e :
  queue (placed c) !! p = Some e ->
  (p = a /\ e = mkEntry d c) \/ (queue s !! p = Some e /\ (p < a /\ p + elen e <= a \/ b <= p)).
Proof.
  cbn. intros H. apply lookup_insert_Some in H as [[<- <-]|[Hne H]]; [by left|right].
  rewrite lookup_outside in H. case_decide; [done|]. split; [done|].
  destruct (decide (p < a)); [left|right; lia]. split; [done|]. by apply clean_spec.
Qed.

Lemma placed_inv c : inv str (placed c).
Proof.
  pose proof (inv_sep _ _ Hi) as [Hpos Hsep]. assert (elen (mkEntry d c) = b - a) as Hl by done.
  split; [done|apply Hi| | | |].
  - intros x Hx. apply Hin in Hx as [Hx _]. by apply (inv_after _ _ Hi).
  - split.
    + intros p e He. apply placed_lookup in He as [[-> ->]|[He _]]; [lia|by eapply Hpos].
    + intros p p' e e' He He' Hp.
      apply placed_lookup in He as [[-> ->]|[He H]]; apply placed_lookup in He' as [[-> ->]|[He' H']]; try lia.
      by eapply Hsep.
  - intros p e He. apply placed_lookup in He as [[-> ->]|[He H]].
    + split; [cbn; lia|]. split; [lia|]. split; [done|]. intros x Hx. cbn. rewrite Hin. lia.
    + destruct (inv_entry _ _ Hi _ _ He) as (H1 & H2 & H3 & H4). repeat split; try done.
      intros x Hx. cbn. rewrite Hin. intros [? _]. by apply (H4 x).
  - intros x Hx Hn. destruct (decide (a <= x < b)) as [Hx'|Hx'].
    { exists a, (mkEntry d c). cbn. rewrite lookup_insert_eq. split; [done|]. lia. }
    destruct (inv_complete _ _ Hi x Hx) as (p & e & He & Hp). { intros Hg. apply Hn, Hin. done. }
    exists p, e. split; [|done]. cbn. pose proof (clean_spec b p e Hcb He).
    destruct (decide (p = a)) as [->|]; [lia|]. rewrite lookup_insert_ne by done.
    rewrite lookup_outside, decide_False by lia. done.
Qed.

Lemma placed_cbs c calls :
  cbs (queue s) ≡ₚ calls ++ cbs (outside a b (queue s)) ->
  call c ++ cbs (queue s) ≡ₚ calls ++ cbs (queue (placed c)).
Proof.
  intros Hp. cbn. rewrite cbs_insert by (rewrite lookup_outside, decide_True by lia; done).
  cbn [DoneCb]. rewrite Hp, !app_assoc, (Permutation_app_comm (call c)). done.
Qed.
End place.

(** What [push] promises for a frame of the stream. *)
Definition push_post (str : Z -> Byte.byte) (s : frameSorter) (data : list Byte.byte) (offset : Z) (doneCb : cb)
    (s' : frameSorter) (calls : list nat) (err : option serr) : Prop :=
  match err with
  | None =>
      inv str s' /\ readPos s' = readPos s /\
      (forall x, in_gaps (gaps s') x <-> in_gaps (gaps s) x /\ ~ (offset <= x < offset + blen data)) /\
      call doneCb ++ cbs (queue s) ≡ₚ calls ++ cbs (queue s') /\
      (length (gaps s') <= S (length (gaps s)))%nat
  | Some errDuplicateStreamData =>
      s' = s /\ calls = [] /\ forall x, offset <= x < offset + blen data -> ~ in_gaps (gaps s) x
  | Some errTooManyGaps =>
      MaxStreamFrameSorterGaps < Z.of_nat (length (gaps s')) /\ (length (gaps s') <= S (length (gaps s)))%nat /\
      gwf (gaps s') /\
      (forall x, in_gaps (gaps s') x <-> in_gaps (gaps s) x /\ ~ (offset <= x < offset + blen data))
  | Some errTooLittleData => False
  end.

Lemma finish_post str s data offset doneCb a b d gs cut calls :
  inv str s -> readPos s <= a < b -> b < MaxByteCount -> agrees str a d -> blen d = b - a ->
  clean s a -> clean s b -> gwf gs ->
  (forall x, in_gaps gs x <-> in_gaps (gaps s) x /\ ~ (a <= x < b)) ->
  cbs (queue s) ≡ₚ calls ++ cbs (outside a b (queue s)) ->
  offset <= a -> b <= offset + blen data ->
  (forall x, offset <= x < offset + blen data -> ~ (a <= x < b) -> ~ in_gaps (gaps s) x) ->
  (length gs <= S (length (gaps s)))%nat ->
  exists s' calls' err, finish s (outside a b (queue s)) a d doneCb cut calls gs = Ok (s', calls', err) /\
    push_post str s data offset doneCb s' calls' err.
Proof.
  intros Hi Hab Hmax Hd Hlen Hca Hcb Hgs Hin Hp Ha Hb Hrest Hlg. unfold finish.
  assert (forall x, in_gaps gs x <-> in_gaps (gaps s) x /\ ~ (offset <= x < offset + blen data)) as Hin'.
  { intros x. rewrite Hin. split; [|naive_solver lia]. intros [H1 H2]. split; [done|]. intros H3. by apply (Hrest x). }
  destruct (_ <? _) eqn:E; do 3 eexists; (split; [done|]); cbn [push_post gaps].
  { split; [lia|]. done. }
  split; [by apply placed_inv with (a := a) (b := b)|]. split; [done|]. split; [done|]. split; [|done].
  destruct (cut && _); [|rewrite app_nil_r; by apply (placed_cbs s a b)].
  pose proof (placed_cbs s a b d gs Hab None calls Hp) as H. cbn [call] in H.
  change (mkSorter _ _ _) with (placed s a b d gs None).
  rewrite <- app_assoc. cbn in H |- *. rewrite H, !app_assoc. f_equiv. apply Permutation_app_comm.
Qed.

Lemma imap_pair_snd {A} (l : list A) : (imap pair l).*2 = l.
Proof. rewrite fmap_imap. apply list_eq. intros i. rewrite list_lookup_imap. by destruct (l !! i). Qed.

Lemma imap_pair_NoDup {A} (l : list A) : NoDup (imap pair l).*1.
Proof.
  rewrite fmap_imap. apply NoDup_alt. intros i j x Hi Hj. rewrite list_lookup_imap in Hi, Hj.
  destruct (l !! i), (l !! j); cbn in *; congruence.
Qed.

Section push_proof.
Context (str : Z -> Byte.byte) (s : frameSorter) (Hi : inv str s).
Context (data : list Byte.byte) (offset : Z) (doneCb : cb).
Context (Hoff : 0 <= offset) (Hdata : agrees str offset data) (Hpos : 0 < blen data).

Notation end_ := (offset + blen data).

Context (Hmax : end_ < MaxByteCount).
Context (L : list element) (sg : element) (after : list element).
Context (Hl : imap pair (gaps s) = L ++ sg :: after).
Context (HL : forall g, g ∈ L -> End_ g.2 < offset) (Hsg : offset <= End_ sg.2) (Hend : Start sg.2 < end_).

Lemma gaps_split : gaps s = L.*2 ++ sg.2 :: after.*2.
Proof. rewrite <- (imap_pair_snd (gaps s)), Hl, fmap_app. done. Qed.

Lemma sg_wf : 0 <= Start sg.2 < End_ sg.2.
Proof. pose proof (inv_gaps _ _ Hi) as H. rewrite gaps_split in H. by apply gwf_mid in H as [? _]. Qed.

Lemma L_vals g : g ∈ L.*2 -> End_ g < offset.
Proof. intros (e & -> & He)%list_elem_of_fmap. by apply HL. Qed.

Lemma sg_in x : Start sg.2 <= x < End_ sg.2 -> in_gaps (gaps s) x.
Proof. intros Hx. eapply (gap_in _ _ Hi); [exact gaps_split|done]. Qed.

(** An offset from [offset] on in a gap is in [sg] or in a later gap. *)
Lemma in_gaps_from x : in_gaps (gaps s) x -> offset <= x -> in_gap sg.2 x \/ in_gaps (after.*2) x.
Proof.
  rewrite gaps_split, in_gaps_app, in_gaps_cons. intros [(g & Hg & Hx)|H] Ho; [|done].
  apply L_vals in Hg. unfold in_gap in Hx. lia.
Qed.

Lemma read_le_sg : readPos s <= Start sg.2.
Proof. apply (inv_after _ _ Hi), sg_in. pose proof sg_wf. lia. Qed.

Lemma after_later g : g ∈ after.*2 -> End_ sg.2 < Start g /\ Start g < End_ g.
Proof. pose proof (inv_gaps _ _ Hi) as H. rewrite gaps_split in H. apply gwf_mid in H. by apply H. Qed.

Lemma not_in_before x : offset <= x < Start sg.2 -> ~ in_gaps (gaps s) x.
Proof.
  intros Hx Hg. pose proof sg_wf as Hw. apply in_gaps_from in Hg as [H|(g & Hg & H)]; [unfold in_gap in H; lia| |lia].
  apply after_later in Hg. unfold in_gap in H. lia.
Qed.

(** The replacement loop when the frame starts before the end of the gap. *)
Lemma replace_before :
  offset < End_ sg.2 ->
  exists has calls,
    let st := start' offset sg (Start sg.2 <=? offset) has in
    replace_loop (S (size (queue s))) (queue s) offset end_ false
    = (outside st (Start sg.2) (queue s), calls, has, Kept) /\
    cbs (queue s) ≡ₚ calls ++ cbs (outside st (Start sg.2) (queue s)) /\
    clean s st /\ readPos s <= st /\ offset <= st < End_ sg.2 /\ (has = true -> st <= Start sg.2) /\
    (forall x, offset <= x < st -> ~ in_gaps (gaps s) x).
Proof.
  intros Ho. pose proof sg_wf. pose proof read_le_sg. pose proof (inv_sep _ _ Hi) as Hs. unfold start'.
  destruct (queue s !! offset) as [e|] eqn:He.
  - assert (offset < Start sg.2).
    { destruct (decide (offset < Start sg.2)); [done|].
      rewrite (no_key_in_gap str s Hi) in He; [done|]. apply sg_in. lia. }
    assert (Hn : queue s !! Start sg.2 = None) by (apply (no_key_in_gap str s Hi), sg_in; lia).
    destruct (inv_entry _ _ Hi _ _ He) as (Hr & _).
    assert (chain (queue s) (Start sg.2) offset) as Hc.
    { apply (chain_to_gap str s Hi); [lia|lia| |apply sg_in; lia|right; by eexists].
      intros x Hx. by apply not_in_before. }
    pose proof (replace_loop_spec (S (size (queue s))) _ _ _ end_ false Hs ltac:(lia) Hc Hn ltac:(lia) ltac:(lia)) as Hr'.
    destruct (replace_loop _ _ _ _ _) as [[[q' calls] has] r]. destruct r as [|p|]; [lia|lia|].
    destruct Hr' as (_ & -> & -> & Hp). rewrite (proj2 (Z.ltb_lt offset _)) in * by lia.
    exists true, calls. cbn [orb negb andb]. rewrite andb_false_r. repeat split; try done; try lia.
    right; right. by eexists.
  - exists false, []. cbn [replace_loop negb]. rewrite He, andb_true_r.
    destruct (Start sg.2 <=? offset) eqn:E; cbn [negb]; rewrite outside_empty by lia;
      repeat split; try done; try lia; try (left; apply sg_in; lia).
    intros x Hx. by apply not_in_before.
Qed.

(** One gap, and the frame starts before its end. *)
Lemma push_one_gap has calls :
  let st := start' offset sg (Start sg.2 <=? offset) has in
  offset < End_ sg.2 -> (forall g, g ∈ after -> end_ < Start g.2) ->
  cbs (queue s) ≡ₚ calls ++ cbs (outside st (Start sg.2) (queue s)) ->
  clean s st -> readPos s <= st -> offset <= st < End_ sg.2 -> (has = true -> st <= Start sg.2) ->
  (forall x, offset <= x < st -> ~ in_gaps (gaps s) x) ->
  exists s' calls' err,
    push_gaps s (outside st (Start sg.2) (queue s)) calls data offset end_ doneCb sg sg after
      (Start sg.2 <=? offset) (end_ <? End_ sg.2) has false = Ok (s', calls', err) /\
    push_post str s data offset doneCb s' calls' err.
Proof.
  intros st Ho Ha Hp Hc Hr Hst Hhas Hn. pose proof sg_wf.
  destruct (push_gaps_same str s (outside st (Start sg.2) (queue s)) calls data offset end_ doneCb sg
              (Start sg.2 <=? offset) (end_ <? End_ sg.2) has false L) with (R := after) as (d & cut & Hd1 & Hd2 & ->);
    [done|lia|lia|lia|fold st; lia|done|apply imap_pair_NoDup|left; fold st; naive_solver|].
  fold st in Hd1, Hd2 |- *. rewrite (proj2 (Z.ltb_lt st _)) in * by lia. set (b := Z.min end_ (End_ sg.2)) in *.
  assert (st < end_) by (unfold st, start'; destruct (_ && _); lia).
  assert (Hb : Start sg.2 < b /\ st < b /\ b <= end_ /\ b <= End_ sg.2) by (unfold b; lia).
  pose proof (inv_gaps _ _ Hi) as Hwf. rewrite gaps_split in Hwf.
  assert (Hfill : forall g, g ∈ after.*2 -> b < Start g).
  { intros g (e & -> & He)%list_elem_of_fmap. specialize (Ha e He). lia. }
  assert (HL' : forall g, g ∈ L.*2 -> End_ g < st) by (intros g Hg%L_vals; lia).
  rewrite (outside_no_keys st (Start sg.2) b) in * by
    (lia || intros k Hk; apply (no_key_in_gap str s Hi), sg_in; lia).
  rewrite app_nil_r. eapply (finish_post str s data offset doneCb st b); try done; try lia.
  - unfold clean. destruct (decide (b = End_ sg.2)) as [->|]; [right; left|left]; apply sg_in; lia.
  - apply (gwf_fill L.*2 [sg.2]); done || lia.
  - intros x. rewrite gaps_split. apply (in_gaps_fill L.*2 [sg.2]); done || lia.
  - intros x Hx Hx' Hg. pose proof Hg as Hg'. apply in_gaps_from in Hg as [Hg|(g & Hg & Hgx)]; [| |lia].
    + unfold in_gap in Hg. apply (Hn x); [unfold b in *; lia|done].
    + apply list_elem_of_fmap in Hg as (e & -> & He). specialize (Ha e He). unfold in_gap in Hgx. lia.
  - rewrite gaps_split, !length_app. pose proof (length_rest sg.2 sg.2 st b). cbn. lia.
Qed.

(** Several gaps, up to [eg]. *)
Lemma push_gaps_several has calls (M : list element) (eg : element) (R : list element) u :
  let st := start' offset sg (Start sg.2 <=? offset) has in
  let q := outside st u (queue s) in
  let nx := next_start M (Start eg.2) in
  after = M ++ eg :: R -> Start eg.2 <= end_ -> (forall g, g ∈ R -> end_ < Start g.2) ->
  (u = Start sg.2 \/ (u = nx /\ st = End_ sg.2)) ->
  cbs (queue s) ≡ₚ calls ++ cbs q ->
  clean s st -> readPos s <= st -> offset <= st <= End_ sg.2 ->
  (if has then st <= Start sg.2 \/ st = End_ sg.2 else st < End_ sg.2) ->
  (forall x, offset <= x < st -> ~ in_gaps (gaps s) x) ->
  exists s' calls' err,
    push_gaps s q calls data offset end_ doneCb sg eg after
      (Start sg.2 <=? offset) (end_ <? End_ eg.2) has false = Ok (s', calls', err) /\
    push_post str s data offset doneCb s' calls' err.
Proof.
  intros st q nx Hafter Heg HR Hu Hp Hc Hr Hst Hhas Hn. pose proof sg_wf. pose proof (inv_sep _ _ Hi) as Hs.
  pose proof gaps_split as Hsplit. rewrite Hafter, fmap_app in Hsplit. cbn in Hsplit.
  pose proof (inv_gaps _ _ Hi) as Hwf.
  assert (mid_ok (queue s) M (Start eg.2)) as Hm.
  { apply (mid_from str s Hi M eg (L.*2 ++ [sg.2]) R.*2). rewrite Hsplit, <- app_assoc. done. }
  assert (chain (queue s) nx (End_ sg.2) /\ queue s !! nx = None /\ End_ sg.2 < nx) as (Hch & Hnx & Hlt).
  { unfold nx. destruct M; eapply (chain_between str s Hi); exact Hsplit. }
  pose proof (next_start_le _ _ _ Hs Hm) as Hnle. fold nx in Hnle.
  assert (Hk : no_keys (queue s) (Start sg.2) (End_ sg.2)).
  { intros k Hk. apply (no_key_in_gap str s Hi), sg_in. lia. }
  assert (Hegw : Start eg.2 < End_ eg.2 /\ forall g, g ∈ M -> End_ g.2 < Start eg.2).
  { rewrite Hsplit, app_comm_cons, app_assoc in Hwf. apply gwf_mid in Hwf as (Hx & Hy & _).
    split; [lia|]. intros g Hg. apply Hy. set_solver. }
  assert (Hq : forall k, u <= k -> q !! k = queue s !! k).
  { intros k Hku. unfold q. rewrite lookup_outside, decide_False by lia. done. }
  assert (u <= nx) by lia.
  destruct (push_gaps_apart str s q calls data offset end_ doneCb sg (Start sg.2 <=? offset) (end_ <? End_ eg.2)
              has false L) with (M := M) (eg := eg) (R := R) as (d & cut & calls' & Hd1 & Hd2 & Hp' & Hpg).
  1-5: done || lia || (fold st; lia).
  1: by rewrite Hl, Hafter.
  1: apply imap_pair_NoDup.
  1: by apply sep_outside.
  1: fold nx; rewrite Hq by lia; done.
  { fold nx. destruct Hu as [->|[-> Hst']].
    - left. eapply chain_mono; [exact Hs| |exact Hch]. intros k Hkk. apply Hq. lia.
    - right. split; [lia|]. intros k Hkk. unfold q. rewrite lookup_outside, decide_True by lia. done. }
  { eapply mid_ok_mono; [exact Hs| |exact Hm]. intros k Hkk. apply Hq. fold nx in Hkk. lia. }
  1-6: fold st; first [apply Hegw|done|lia|destruct has; lia].
  fold st in Hd1, Hd2, Hpg. rewrite Hafter, Hpg. clear Hpg. set (b := Z.min end_ (End_ eg.2)) in *.
  assert (Hb : Start eg.2 <= b /\ b <= end_ /\ b <= End_ eg.2) by (unfold b; lia).
  assert (outside (End_ sg.2) (Start eg.2) q = outside st b (queue s)) as Hq'.
  { unfold q. rewrite outside_gap; [|lia|lia|destruct Hu as [->|[-> ?]]; [done|intros k ?; lia]].
    apply outside_no_keys; [lia|]. intros k Hkk. apply (no_key_in_gap str s Hi).
    exists eg.2. split; [rewrite Hsplit; set_solver|unfold in_gap; lia]. }
  rewrite Hq' in *. set (X := sg.2 :: M.*2 ++ [eg.2]).
  assert (HX : gaps s = L.*2 ++ X ++ R.*2) by (unfold X; cbn; rewrite Hsplit, <- app_assoc; done).
  assert (Hlast : last X = Some eg.2) by (unfold X; rewrite app_comm_cons; apply last_snoc).
  assert (HL' : forall g, g ∈ L.*2 -> End_ g < st) by (intros g Hg%L_vals; lia).
  assert (HR' : forall g, g ∈ R.*2 -> b < Start g).
  { intros g (e & -> & He)%list_elem_of_fmap. specialize (HR e He). lia. }
  rewrite HX in Hwf.
  eapply (finish_post str s data offset doneCb st b); try done; try lia.
  - unfold clean. destruct (decide (b = End_ eg.2)) as [->|]; [right; left|left];
      exists eg.2; (split; [rewrite Hsplit; set_solver|unfold in_gap; lia]).
  - apply (gwf_fill L.*2 X); done || lia.
  - intros x. rewrite HX. apply (in_gaps_fill L.*2 X); done || lia.
  - rewrite Hp, Hp', app_assoc. done.
  - intros x Hx Hx' Hg. destruct (decide (x < st)); [by apply (Hn x); [lia|]|].
    rewrite HX, !in_gaps_app in Hg. destruct Hg as [(g & Hg & Hgx)|[(g & Hg & Hgx)|(g & Hg & Hgx)]]; unfold in_gap in Hgx.
    + specialize (HL' g Hg). lia.
    + apply gwf_app in Hwf as (_ & _ & (_ & HSX & _) & _); [|done].
      apply StronglySorted_app in HSX as (_ & HSX & _). destruct (sorted_last _ _ _ HSX Hlast Hg) as [->|]; lia.
    + apply list_elem_of_fmap in Hg as (e & -> & He). specialize (HR e He). lia.
  - rewrite HX, !length_app. pose proof (length_rest sg.2 eg.2 st b). unfold X. cbn. lia.
Qed.

Lemma start_after has : offset = End_ sg.2 -> start' offset sg (Start sg.2 <=? offset) has = offset.
Proof. intros E. unfold start'. pose proof sg_wf. rewrite (proj2 (Z.leb_le _ _)) by lia. done. Qed.

(** The frame starts right after the gap: a frame is queued there, and others
    follow it up to the next gap. *)
Lemma chain_after :
  offset = End_ sg.2 -> exists h B, after = h :: B /\ chain (queue s) (Start h.2) offset /\
    queue s !! Start h.2 = None /\ offset < Start h.2 /\ readPos s <= offset /\ clean s offset /\
    forall x, offset <= x < Start h.2 -> ~ in_gaps (gaps s) x.
Proof.
  intros E. pose proof sg_wf. pose proof read_le_sg. pose proof gaps_split as Hsplit. destruct after as [|h B].
  { pose proof (inv_gaps _ _ Hi) as Hwf. rewrite Hsplit in Hwf. apply gwf_mid in Hwf as (_ & _ & _ & Hm).
    specialize (Hm eq_refl). lia. }
  exists h, B. destruct (chain_between str s Hi _ _ _ _ Hsplit) as (Hc & Hn & Hlt). rewrite E.
  repeat split; try done; try lia.
  - right; left. apply (gap_in _ _ Hi L.*2 sg.2 (h :: B).*2); [done|unfold in_gap; lia].
  - intros x Hx. eapply (not_in_between str s Hi); [exact Hsplit|lia].
Qed.

Lemma push_after_one :
  offset = End_ sg.2 -> (forall g, g ∈ after -> end_ < Start g.2) ->
  exists s' calls' err,
    (let '(q, calls, has, r) := replace_loop (S (size (queue s))) (queue s) offset end_ false in
     match r with
     | Duplicate => mret (s, [], Some errDuplicateStreamData)
     | Cut pos =>
         data ← go_slice data 0 (pos - offset);
         push_gaps s q calls data offset pos doneCb sg sg after (Start sg.2 <=? offset) (end_ <? End_ sg.2) has true
     | Kept => push_gaps s q calls data offset end_ doneCb sg sg after (Start sg.2 <=? offset) (end_ <? End_ sg.2) has false
     end) = Ok (s', calls', err) /\ push_post str s data offset doneCb s' calls' err.
Proof.
  intros E Ha. pose proof sg_wf. destruct (chain_after E) as (h & B & Hafter & Hc & Hn & Hlt & Hr & Hcl & Hng).
  assert (end_ < Start h.2) by (apply Ha; rewrite Hafter; left).
  pose proof (replace_loop_spec (S (size (queue s))) _ _ _ end_ false (inv_sep _ _ Hi) ltac:(lia) Hc Hn ltac:(lia) ltac:(lia)) as Hrl.
  destruct (replace_loop _ _ _ _ _) as [[[q calls] has] r]. destruct r as [|p|]; [| |lia].
  { do 3 eexists. split; [done|]. cbn. repeat split. intros x Hx. apply Hng. lia. }
  destruct Hrl as (-> & Hp & _ & Hp' & -> & [e He] & Hcbs). specialize (Hp' eq_refl).
  destruct (slice_agrees str offset data 0 (p - offset)) as (d & -> & Hd1 & Hd2); [lia|lia|done|].
  rewrite Z.add_0_r in Hd2. cbn [mbind res_bind].
  destruct (push_gaps_same str s (outside offset p (queue s)) calls d offset p doneCb sg
              (Start sg.2 <=? offset) (end_ <? End_ sg.2) true true L) with (R := after) as (d' & cut & Hd1' & Hd2' & ->);
    [done|lia|lia|lia|rewrite start_after by done; lia|done|apply imap_pair_NoDup|right; rewrite start_after by done; lia|].
  rewrite start_after in * by done. rewrite (proj2 (Z.ltb_ge offset _)) in * by lia.
  rewrite app_nil_r. pose proof (inv_gaps _ _ Hi) as Hwf. rewrite gaps_split in Hwf.
  assert (HR' : forall g, g ∈ after.*2 -> p < Start g).
  { intros g (x & -> & Hx)%list_elem_of_fmap. specialize (Ha x Hx). lia. }
  pose proof L_vals as HL'.
  eapply (finish_post str s data offset doneCb offset p); try done; try lia.
  - right; right. by eexists.
  - apply (gwf_fill L.*2 [sg.2]); done || lia.
  - intros x. rewrite gaps_split. apply (in_gaps_fill L.*2 [sg.2]); done || lia.
  - intros x Hx _. apply Hng. lia.
  - rewrite gaps_split, !length_app. pose proof (length_rest sg.2 sg.2 offset p). cbn. lia.
Qed.

Lemma push_after_several (M : list element) (eg : element) (R : list element) :
  offset = End_ sg.2 -> after = M ++ eg :: R -> Start eg.2 <= end_ -> (forall g, g ∈ R -> end_ < Start g.2) ->
  exists s' calls' err,
    (let '(q, calls, has, r) := replace_loop (S (size (queue s))) (queue s) offset end_ false in
     match r with
     | Duplicate => mret (s, [], Some errDuplicateStreamData)
     | Cut pos =>
         data ← go_slice data 0 (pos - offset);
         push_gaps s q calls data offset pos doneCb sg eg after (Start sg.2 <=? offset) (end_ <? End_ eg.2) has true
     | Kept => push_gaps s q calls data offset end_ doneCb sg eg after (Start sg.2 <=? offset) (end_ <? End_ eg.2) has false
     end) = Ok (s', calls', err) /\ push_post str s data offset doneCb s' calls' err.
Proof.
  intros E Ha Heg HR. pose proof sg_wf.
  destruct (chain_after E) as (h & B & Hafter & Hc & Hn & Hlt & Hr & Hcl & Hng).
  assert (Hnx : next_start M (Start eg.2) = Start h.2) by (rewrite Hafter in Ha; destruct M; simplify_eq/=; done).
  assert (Start h.2 <= Start eg.2).
  { rewrite <- Hnx. apply (next_start_le (queue s)); [apply Hi|].
    apply (mid_from str s Hi M eg (L.*2 ++ [sg.2]) R.*2). rewrite gaps_split, Ha, fmap_app, <- app_assoc. done. }
  pose proof (replace_loop_spec (S (size (queue s))) _ _ _ end_ false (inv_sep _ _ Hi) ltac:(lia) Hc Hn ltac:(lia) ltac:(lia)) as Hrl.
  destruct (replace_loop _ _ _ _ _) as [[[q calls] has] r]. destruct r as [|p|]; [|lia|].
  { do 3 eexists. split; [done|]. cbn. repeat split. intros x Hx. apply Hng. lia. }
  destruct Hrl as (Hle & -> & Hhas & Hcbs). rewrite (proj2 (Z.ltb_lt _ _)) in Hhas by lia. cbn in Hhas. subst has.
  pose proof (start_after true E) as Est.
  destruct (push_gaps_several true calls M eg R (Start h.2)) as (s' & calls' & err & Hok & Hpost);
    rewrite ?Est; try done; try lia.
  rewrite Est in Hok. eauto.
Qed.
End push_proof.

Lemma findEndGap_cases (L : list element) (sg : element) (after : list element) off :
  gwf ((L ++ sg :: after).*2) -> off < MaxByteCount ->
  let r := findEndGap (last_or L None) (sg :: after) off in
  (off < Start sg.2 /\ r = Some (last L, false)) \/
  (r = Some (Some sg, off <? End_ sg.2) /\ Start sg.2 <= off /\ forall g, g ∈ after -> off < Start g.2) \/
  (exists M eg R, after = M ++ eg :: R /\ r = Some (Some eg, off <? End_ eg.2) /\ End_ sg.2 <= off /\
     Start eg.2 <= off /\ forall g, g ∈ R -> off < Start g.2).
Proof.
  intros Hwf Hmax r. subst r. rewrite fmap_app in Hwf. cbn in Hwf.
  apply gwf_app in Hwf as (_ & _ & Hwf & _); [|done]. change (sg.2 :: after.*2) with ((sg :: after).*2) in Hwf.
  destruct (findEndGap_spec (last_or L None) (sg :: after) off) as (pre & h & post & Hl & Hpre & Hh & ->).
  { destruct Hwf as (_ & _ & l0 & g & Hg & Hge). assert (g ∈ (sg :: after).*2) as Hin by (rewrite Hg; set_solver).
    apply list_elem_of_fmap in Hin as (e & -> & He). exists e. split; [done|lia]. }
  { intros g Hg. destruct Hwf as (HF & _). rewrite Forall_forall in HF.
    apply (HF g.2), list_elem_of_fmap_2, Hg. }
  rewrite Hl, fmap_app in Hwf. cbn in Hwf. apply gwf_mid in Hwf as (Hw & HwL & HwR & _).
  assert (Hpost : forall g, g ∈ post -> off < Start g.2).
  { intros g Hg. destruct (HwR g.2); [by apply list_elem_of_fmap_2|lia]. }
  destruct pre as [|sg' pre]; simplify_eq/=.
  - destruct (Start h.2 <=? off) eqn:E.
    + right; left. rewrite (proj2 (Z.ltb_lt _ _)) by lia. split; [done|]. split; [lia|done].
    + left. split; [lia|]. unfold last_or. cbn. by destruct (last L).
  - right. destruct (Start h.2 <=? off) eqn:E.
    + right. exists pre, h, post. rewrite (proj2 (Z.ltb_lt _ _)) by lia.
      specialize (Hpre sg' ltac:(left)). repeat split; done || lia.
    + rewrite last_or_cons. destruct pre as [|eg M _] using rev_ind.
      * left. specialize (Hpre sg' ltac:(left)). pose proof (HwL sg'.2 ltac:(set_solver)). cbn.
        rewrite (proj2 (Z.ltb_ge _ _)) by lia. split; [done|]. split; [lia|].
        intros g [->|Hg]%elem_of_cons; [lia|by apply Hpost].
      * right. exists M, eg, (h :: post). unfold last_or. rewrite last_snoc, <- app_assoc.
        pose proof (Hpre sg' ltac:(left)). pose proof (Hpre eg ltac:(set_solver)).
        pose proof (HwL eg.2 ltac:(rewrite fmap_app; set_solver)).
        rewrite (proj2 (Z.ltb_ge _ _)) by lia. repeat split; try done; try lia.
        intros g [->|Hg]%elem_of_cons; [lia|by apply Hpost].
Qed.

Lemma duplicate_post str s data offset doneCb :
  (forall x, offset <= x < offset + blen data -> ~ in_gaps (gaps s) x) ->
  exists s' calls err, mret (s, [], Some errDuplicateStreamData) = Ok (E:=serr) (s', calls, err) /\
    push_post str s data offset doneCb s' calls err.
Proof. intros H. do 3 eexists. split; [done|]. cbn. auto. Qed.

(** [push] never panics on the data of a stream, and keeps its promise. *)
Lemma push_spec str s data offset doneCb :
  inv str s -> 0 <= offset -> agrees str offset data -> offset + blen data < MaxByteCount ->
  exists s' calls err, push s data offset doneCb = Ok (s', calls, err) /\
    push_post str s data offset doneCb s' calls err.
Proof.
  intros Hi Hoff Hdata Hmax. unfold push. pose proof (blen_nonneg data).
  destruct (blen data =? 0) eqn:E0; [apply duplicate_post; intros; lia|].
  pose proof (inv_gaps _ _ Hi) as Hwf. destruct (gaps s) as [|front gs] eqn:Eg.
  { destruct Hwf as (_ & _ & [|] & ? & ? & _); done. }
  destruct (_ <=? Start front) eqn:E1.
  { apply duplicate_post. rewrite Eg. intros x Hx (g & Hg & Hgx). unfold in_gap in Hgx. apply gwf_cons in Hwf as (? & Hw & _).
    apply elem_of_cons in Hg as [->|Hg]; [lia|]. specialize (Hw g Hg). lia. }
  rewrite <- Eg in Hwf |- *. set (l := imap pair (gaps s)).
  assert (Hwl : gwf (l.*2)) by (unfold l; by rewrite imap_pair_snd).
  destruct (findStartGap_spec None l offset) as (L & sg & after & Hl & -> & HL & Hsg).
  { destruct Hwl as (_ & _ & l0 & g & Hg & Hge). assert (g ∈ l.*2) as Hin by (rewrite Hg; set_solver).
    apply list_elem_of_fmap in Hin as (e & -> & He). exists e. split; [done|lia]. }
  { intros g Hg. destruct Hwl as (HF & _). rewrite Forall_forall in HF. apply (HF g.2), list_elem_of_fmap_2, Hg. }
  rewrite Hl in Hwl. pose proof (imap_pair_NoDup (gaps s)) as Hnd. fold l in Hnd. rewrite Hl in Hnd.
  destruct (findEndGap_cases L sg after (offset + blen data) Hwl Hmax)
    as [(Hlt & ->)|[(-> & Hle & Ha)|(M & eg & R & Ha & -> & Hle & Heg & HR)]].
  - assert (Hno : forall x, offset <= x < offset + blen data -> ~ in_gaps (gaps s) x).
    { intros x Hx. eapply (not_in_before str s Hi); done || lia. }
    destruct (last L) as [p|] eqn:Elast.
    + apply last_Some in Elast as [L' ->]. assert (sg.1 <> p.1) as Hne.
      { intros E. apply (elements_ne _ _ _ Hnd p); [left; set_solver|done]. }
      rewrite fmap_app in Hwl. apply gwf_mid in Hwl as (? & Hw & _). destruct (Hw p.2); [rewrite fmap_app; set_solver|].
      rewrite bool_decide_false by done. cbn [negb andb orb].
      rewrite (proj2 (Z.leb_le (Start p.2) _)), (proj2 (Z.leb_le _ (Start sg.2))) by lia. by apply duplicate_post.
    + apply last_None in Elast as ->. unfold l in Hl. rewrite Eg in Hl. cbn in Hl. simplify_eq/=. lia.
  - rewrite bool_decide_true by done. cbn [negb andb orb]. rewrite orb_false_r.
    destruct (_ <=? Start sg.2) eqn:E2.
    { apply duplicate_post. intros x Hx. eapply (not_in_before str s Hi); done || lia. }
    destruct (decide (offset = End_ sg.2)) as [E|Hne].
    { eapply (push_after_one str s Hi data offset doneCb); done || lia. }
    destruct (replace_before str s Hi data offset) with (L := L) (sg := sg) (after := after)
      as (has & calls & -> & ?); [done || lia..|].
    eapply (push_one_gap str s Hi data offset doneCb); try (done || lia); tauto.
  - assert (sg.1 <> eg.1) as Hne.
    { intros E. apply (elements_ne _ _ _ Hnd eg); [right; rewrite Ha; set_solver|done]. }
    assert (Start sg.2 < End_ sg.2 < Start eg.2).
    { rewrite fmap_app in Hwl. apply gwf_mid in Hwl as (? & _ & Hw & _).
      destruct (Hw eg.2); [apply list_elem_of_fmap_2; rewrite Ha; set_solver|lia]. }
    rewrite bool_decide_false by done. cbn [negb andb orb].
    rewrite (proj2 (Z.leb_gt (Start eg.2) _)) by lia. cbn [andb].
    destruct (decide (offset = End_ sg.2)) as [E|Hne'].
    { eapply (push_after_several str s Hi data offset doneCb); done || lia. }
    destruct (replace_before str s Hi data offset) with (L := L) (sg := sg) (after := after)
      as (has & calls & -> & Hp & Hc & Hr & Hst & Hhas & Hn); [done || lia..|].
    eapply (push_gaps_several str s Hi data offset doneCb); try (done || lia).
Qed.

(** ** [Pop] and [Peek] *)

(** The [n] bytes of the stream from [p] on. *)
Definition stream (str : Z -> Byte.byte) (p : Z) (n : nat) : list Byte.byte :=
  map (fun i => str (p + Z.of_nat i)) (seq 0 n).

Lemma agrees_stream str p d : agrees str p d <-> d = stream str p (length d).
Proof.
  unfold agrees, stream. split.
  - intros H. apply list_eq. intros i. rewrite lookup_map.
    destruct (d !! i) as [b|] eqn:E.
    + pose proof (lookup_lt_Some _ _ _ E). rewrite lookup_seq_lt by done. cbn. by rewrite (H _ _ E).
    + apply lookup_ge_None in E. by rewrite lookup_seq_ge by done.
  - intros Hd i b Hb. rewrite Hd, lookup_map in Hb.
    destruct (seq 0 (length d) !! i) as [j|] eqn:E; simplify_eq/=. apply lookup_seq in E as [-> _]. done.
Qed.

Lemma stream_app str p n m : stream str p (n + m) = stream str p n ++ stream str (p + Z.of_nat n) m.
Proof.
  unfold stream. rewrite seq_app, map_app. f_equal. replace (0 + n)%nat with (n + 0)%nat by lia.
  rewrite <- fmap_add_seq. change (fmap (Nat.add n) ?l) with (map (Nat.add n) l).
  rewrite map_map. apply map_ext. intros i. f_equal. lia.
Qed.

Lemma length_stream str p n : length (stream str p n) = n.
Proof. unfold stream. by rewrite length_map, length_seq. Qed.

#[export] Instance in_gaps_dec l x : Decision (in_gaps l x).
Proof.
  refine (cast_if (decide (Exists (fun g => Start g <= x < End_ g) l))); unfold in_gaps, in_gap;
    rewrite Exists_exists in *; done.
Defined.

Lemma read_lt_max str s : inv str s -> readPos s < MaxByteCount.
Proof.
  intros Hi. pose proof (inv_gaps _ _ Hi) as Hwf. pose proof Hwf as (HF & _ & l0 & g & Hg & _).
  assert (g ∈ gaps s) as Hin by (rewrite Hg; set_solver). pose proof (gwf_max _ _ Hwf Hin).
  rewrite Forall_forall in HF. specialize (HF g Hin).
  assert (readPos s <= Start g); [|lia]. apply (inv_after _ _ Hi). exists g. split; [done|unfold in_gap; lia].
Qed.

Lemma pop_spec str s :
  inv str s ->
  (exists s' d c, Pop s = Ok (s', (readPos s, Some d, c)) /\ 0 < blen d /\ agrees str (readPos s) d /\
     inv str s' /\ gaps s' = gaps s /\ readPos s' = readPos s + blen d /\
     cbs (queue s) ≡ₚ call c ++ cbs (queue s')) \/
  (Pop s = Ok (s, (readPos s, None, None)) /\ in_gaps (gaps s) (readPos s)).
Proof.
  intros Hi. unfold Pop. pose proof (inv_gaps _ _ Hi) as Hwf.
  destruct (gaps s) as [|front gs] eqn:Eg; [destruct Hwf as (_ & _ & [|] & ? & ? & _); done|].
  apply gwf_cons in Hwf as (Hf & Hw & _).
  destruct (queue s !! readPos s) as [e|] eqn:He.
  - left. destruct (inv_entry _ _ Hi _ _ He) as (_ & Hm & Ha & Hn). pose proof (proj1 (inv_sep _ _ Hi) _ _ He) as Hpos.
    assert (Hfr : in_gaps (gaps s) (Start front)) by (rewrite Eg; exists front; split; [left|unfold in_gap; lia]).
    pose proof (inv_after _ _ Hi _ Hfr). change (blen (Data e)) with (elen e).
    rewrite (proj2 (Z.leb_gt _ _)); cycle 1.
    { destruct (decide (readPos s + elen e <= Start front)); [lia|]. exfalso. apply (Hn (Start front)); [lia|done]. }
    do 3 eexists. split; [done|]. split; [done|]. split; [done|]. split; [|split; [done|split; [done|by apply cbs_delete]]].
    rewrite <- Eg. split; cbn; [apply Hi|pose proof (inv_read _ _ Hi); lia| |by apply sep_delete, Hi| |].
    + intros x Hx. pose proof (inv_after _ _ Hi x Hx).
      destruct (decide (readPos s + elen e <= x)); [done|]. exfalso. apply (Hn x); [lia|done].
    + intros p e' He'. apply lookup_delete_Some in He' as [Hne He'].
      destruct (inv_entry _ _ Hi _ _ He') as (? & ? & ? & ?). repeat split; try done.
      pose proof (proj2 (inv_sep _ _ Hi) _ _ _ _ He He'). lia.
    + intros x Hx Hg. destruct (inv_complete _ _ Hi x) as (p & e' & He' & Hp); [lia|done|].
      exists p, e'. split; [|done]. rewrite lookup_delete_ne; [done|]. intros <-. simplify_eq. lia.
  - right. split; [done|]. rewrite <- Eg. apply dec_stable. intros Hg.
    pose proof (read_lt_max str s Hi).
    destruct (inv_complete _ _ Hi (readPos s)) as (p & e & He' & Hp); [lia|done|].
    destruct (inv_entry _ _ Hi _ _ He') as (? & _). assert (p = readPos s) as -> by lia. congruence.
Qed.

(** The bytes from a frame on, taken frame by frame. *)
Lemma peek_copy_spec str s fuel pos n :
  inv str s -> (n <= fuel)%nat -> peek_check s fuel pos (Z.of_nat n) = true ->
  peek_copy s fuel pos n = stream str pos n.
Proof.
  intros Hi. revert pos n. induction fuel as [|fuel IH]; intros pos n Hf Hc; cbn [peek_check peek_copy] in *.
  { by assert (n = 0)%nat as -> by lia. }
  destruct n as [|n]; [done|]. rewrite (proj2 (Z.leb_gt _ _)) in Hc by lia. set (m := S n) in *.
  destruct (queue s !! pos) as [e|] eqn:He; [|done]. cbn [default fmap option_fmap option_map id].
  destruct (inv_entry _ _ Hi _ _ He) as (_ & _ & Ha & _). pose proof (proj1 (inv_sep _ _ Hi) _ _ He) as Hp.
  apply agrees_stream in Ha. unfold elen, blen in *. destruct (Z.of_nat m <=? Z.of_nat (length (Data e))) eqn:E.
  - rewrite length_take, Nat.min_l by lia. replace (m - m)%nat with 0%nat by lia.
    assert (peek_copy s fuel (pos + Z.of_nat (length (Data e))) 0 = []) as -> by (by destruct fuel).
    rewrite app_nil_r, Ha. replace (length (Data e)) with (m + (length (Data e) - m))%nat by lia.
    rewrite stream_app, take_app_length' by (symmetry; apply length_stream). done.
  - rewrite take_ge by lia. rewrite IH; [|lia|by rewrite Nat2Z.inj_sub by lia].
    rewrite Ha at 1. rewrite <- stream_app. f_equal. lia.
Qed.

Lemma peek_check_spec str s fuel pos n :
  inv str s -> (n <= fuel)%nat -> (n = 0)%nat \/ (exists e, queue s !! pos = Some e) ->
  peek_check s fuel pos (Z.of_nat n) = true <->
  (forall x, pos <= x < pos + Z.of_nat n -> x < MaxByteCount /\ ~ in_gaps (gaps s) x).
Proof.
  intros Hi. revert pos n. induction fuel as [|fuel IH]; intros pos n Hf Hst; cbn.
  { assert (n = 0)%nat as -> by lia. cbn. split; [intros _ x Hx; lia|done]. }
  destruct (decide (n = 0)%nat) as [->|Hn]; [cbn; split; [intros _ x Hx; lia|done]|].
  destruct Hst as [?|[e He]]; [done|]. rewrite (proj2 (Z.leb_gt _ _)) by lia. rewrite He.
  destruct (inv_entry _ _ Hi _ _ He) as (Hr & Hm & _ & Hg). pose proof (proj1 (inv_sep _ _ Hi) _ _ He) as Hp.
  unfold elen in *. destruct (_ <=? _) eqn:E.
  { split; [|done]. intros _ x Hx. split; [lia|]. apply Hg. lia. }
  set (m := (n - length (Data e))%nat).
  replace (Z.of_nat n - blen (Data e)) with (Z.of_nat m) by (unfold m, blen in *; lia).
  assert (Hdec : (forall x, pos <= x < pos + Z.of_nat n -> x < MaxByteCount /\ ~ in_gaps (gaps s) x) <->
                 (forall x, pos + blen (Data e) <= x < pos + blen (Data e) + Z.of_nat m ->
                    x < MaxByteCount /\ ~ in_gaps (gaps s) x)).
  { split; intros H x Hx; [apply H; unfold m, blen in *; lia|].
    destruct (decide (x < pos + blen (Data e))); [split; [lia|apply Hg; lia]|].
    apply H. unfold m, blen in *. lia. }
  rewrite Hdec. destruct (decide (exists e', queue s !! (pos + blen (Data e)) = Some e')) as [He'|He'].
  - apply IH; [unfold m, blen in *; lia|by right].
  - assert (queue s !! (pos + blen (Data e)) = None) as Hnone by (by apply eq_None_not_Some).
    split; [destruct fuel; cbn; rewrite ?Hnone, (proj2 (Z.leb_gt _ _)) by (unfold m, blen in *; lia); done|].
    intros H. exfalso. apply He'. destruct (H (pos + blen (Data e))) as [H1 H2]; [unfold m, blen in *; lia|].
    apply (entry_starts str s Hi); [lia|done|]. right. by exists pos, e.
Qed.

(** ** Runs *)

Inductive op := OpPush (data : list Byte.byte) (offset : Z) (doneCb : cb) | OpPop.

(** The sorter, the bytes read, the callbacks called and those handed to the
    reader. *)
Record run := mkRun { sorter : frameSorter; out : list Byte.byte; called : list nat; handed : list nat }.

Definition run_step (r : run) (o : op) : res serr run :=
  match o with
  | OpPush d offset c =>
      '(s', calls, err) ← Push (sorter r) d offset c;
      match err with
      | None => mret (mkRun s' (out r) (called r ++ calls) (handed r))
      | Some e => Err e
      end
  | OpPop =>
      '(s', (_, d, c)) ← Pop (sorter r);
      mret (mkRun s' (out r ++ default [] d) (called r) (handed r ++ call c))
  end.

Fixpoint run_steps (r : run) (os : list op) : res serr run :=
  match os with [] => mret r | o :: os => r ← run_step r o; run_steps r os end.

Definition start_run : run := mkRun newFrameSorter [] [] [].

(** The offsets and the callbacks of the frames pushed. *)
Definition pushed (os : list op) (x : Z) : Prop :=
  exists d offset c, OpPush d offset c ∈ os /\ offset <= x < offset + blen d.

Definition pushed_cbs (os : list op) : list nat :=
  os ≫= fun o => match o with OpPush _ _ c => call c | OpPop => [] end.

Definition pushes (os : list op) : nat :=
  sum_list_with (fun o => match o with OpPush _ _ _ => 1 | OpPop => 0 end)%nat os.

(** Frames of the stream [str]. *)
Definition from_stream (str : Z -> Byte.byte) (os : list op) : Prop :=
  forall d offset c, OpPush d offset c ∈ os -> 0 <= offset /\ offset + blen d < MaxByteCount /\ agrees str offset d.

(** What holds after the operations [os]. *)
Definition run_ok (str : Z -> Byte.byte) (os : list op) (r : run) : Prop :=
  inv str (sorter r) /\ out r = stream str 0 (Z.to_nat (readPos (sorter r))) /\
  (forall x, 0 <= x < MaxByteCount -> in_gaps (gaps (sorter r)) x <-> ~ pushed os x) /\
  pushed_cbs os ≡ₚ called r ++ handed r ++ cbs (queue (sorter r)) /\
  (length (gaps (sorter r)) <= S (pushes os))%nat.

Lemma pushed_snoc os d offset c x :
  pushed (os ++ [OpPush d offset c]) x <-> pushed os x \/ offset <= x < offset + blen d.
Proof.
  unfold pushed. setoid_rewrite elem_of_app. setoid_rewrite list_elem_of_singleton. split.
  - intros (d' & o' & c' & [H|H] & Hx); simplify_eq; eauto 10.
  - intros [(d' & o' & c' & H & Hx)|Hx]; eauto 10.
Qed.

Lemma pushed_pop os x : pushed (os ++ [OpPop]) x <-> pushed os x.
Proof.
  unfold pushed. setoid_rewrite elem_of_app. setoid_rewrite list_elem_of_singleton. naive_solver.
Qed.

Lemma pushed_cbs_snoc os o : pushed_cbs (os ++ [o]) = pushed_cbs os ++ pushed_cbs [o].
Proof. unfold pushed_cbs. by rewrite bind_app. Qed.

Lemma pushes_app os os' : pushes (os ++ os') = (pushes os + pushes os')%nat.
Proof. unfold pushes. by rewrite sum_list_with_app. Qed.

Lemma start_run_ok str : run_ok str [] start_run.
Proof.
  assert (Hin : forall x, in_gaps [mkGap 0 MaxByteCount] x <-> 0 <= x < MaxByteCount).
  { intros x. rewrite in_gaps_cons, in_gaps_nil. unfold in_gap. cbn. tauto. }
  split; [split|split; [done|split; [|split; [done|cbn; lia]]]]; cbn.
  - split; [|split]; [repeat constructor; cbn; unfold Frames.MaxByteCount; lia|repeat constructor|].
    by exists [], (mkGap 0 MaxByteCount).
  - done.
  - intros x. rewrite Hin. lia.
  - split; intros *; by rewrite lookup_empty.
  - intros p e. by rewrite lookup_empty.
  - intros x Hx Hn. exfalso. by apply Hn, Hin.
  - intros x Hx. rewrite Hin. split; [|done]. intros _ (d & o & c & H & _). by apply elem_of_nil in H.
Qed.

Lemma push_step str os r d offset c :
  run_ok str os r -> from_stream str [OpPush d offset c] ->
  match run_step r (OpPush d offset c) with
  | Ok r' => run_ok str (os ++ [OpPush d offset c]) r'
  | Err e => e = errTooManyGaps /\ MaxStreamFrameSorterGaps <= Z.of_nat (S (pushes os))
  | Panic => False
  end.
Proof.
  intros (Hi & Ho & Hg & Hc & Hlen) Hs. destruct (Hs d offset c) as (H0 & Hm & Ha); [left|].
  destruct (push_spec str (sorter r) d offset c Hi H0 Ha Hm) as (s' & calls & err & Hp & Hpost).
  cbn. unfold Push. rewrite Hp. cbn [mbind res_bind].
  destruct err as [[]|]; cbn in Hpost |- *; [|split; [done|lia]|done|].
  - destruct Hpost as (-> & -> & Hn). split; [done|]. split; [done|]. split; [|split; [|rewrite pushes_app; cbn; lia]].
    + intros x Hx. cbn. rewrite pushed_snoc, Hg by done. split; [|tauto].
      intros Hnp [?|Hx']; [done|]. apply (Hn x Hx'). by apply Hg.
    + cbn. rewrite pushed_cbs_snoc, Hc. cbn. rewrite app_nil_r, <- !app_assoc.
      f_equiv. rewrite app_assoc. apply Permutation_app_comm.
  - destruct Hpost as (Hi' & Hr & Hn & Hp' & Hl'). split; [done|]. split; [cbn; by rewrite Hr|].
    split; [|split; [|rewrite pushes_app; cbn; lia]].
    + intros x Hx. cbn. rewrite pushed_snoc, Hn, Hg by done. tauto.
    + cbn. rewrite pushed_cbs_snoc, Hc. cbn. rewrite app_nil_r, <- !app_assoc.
      f_equiv. rewrite (Permutation_app_comm (cbs _) (call c)), Hp'.
      by rewrite !app_assoc, (Permutation_app_comm (handed r)).
Qed.

Lemma pop_step str os r :
  run_ok str os r -> exists r', run_step r OpPop = Ok r' /\ run_ok str (os ++ [OpPop]) r'.
Proof.
  intros (Hi & Ho & Hg & Hc & Hlen). cbn.
  destruct (pop_spec str (sorter r) Hi) as [(s' & d & c & -> & Hd & Ha & Hi' & Hg' & Hr & Hp)|[-> Hn]]; cbn;
    eexists; (split; [done|]); (split; [done|]); cbn; setoid_rewrite pushed_pop; rewrite pushed_cbs_snoc, app_nil_r, pushes_app, Nat.add_0_r.
  - rewrite Hg'. split; [|split; [done|split; [|done]]].
    + apply agrees_stream in Ha. pose proof (inv_read _ _ Hi). unfold blen in *.
      rewrite Hr, Ho, Z2Nat.inj_add, stream_app, Z2Nat.id, Z.add_0_l, Nat2Z.id, <- Ha by lia. done.
    + rewrite Hc, Hp, <- !app_assoc. done.
  - rewrite app_nil_r. cbn. rewrite app_nil_r. done.
Qed.

Lemma run_steps_ok str os r os' :
  run_ok str os r -> from_stream str os' ->
  match run_steps r os' with
  | Ok r' => run_ok str (os ++ os') r'
  | Err e => e = errTooManyGaps /\ MaxStreamFrameSorterGaps <= Z.of_nat (pushes (os ++ os'))
  | Panic => False
  end.
Proof.
  revert os r. induction os' as [|o os' IH]; intros os r Hr Hs; cbn [run_steps].
  { by rewrite app_nil_r. }
  assert (Hs' : from_stream str os') by (intros d offset c H; apply (Hs d offset c); by right).
  destruct o as [d offset c|].
  - assert (Hs1 : from_stream str [OpPush d offset c]).
    { intros ? ? ? H%list_elem_of_singleton. simplify_eq. apply (Hs _ _ c). left. }
    pose proof (push_step str os r d offset c Hr Hs1) as H.
    destruct (run_step r _) as [r'|e|]; [| |done]; [specialize (IH _ _ H Hs'); by rewrite <- app_assoc in IH|].
    rewrite pushes_app. cbn [mbind res_bind]. change (pushes (_ :: os')) with (1 + pushes os')%nat. destruct H; split; [done|lia].
  - destruct (pop_step str os r Hr) as (r' & -> & H). specialize (IH _ _ H Hs'). by rewrite <- app_assoc in IH.
Qed.

(** C4: the sorter delivers the stream.  Take any sequence of pushes and reads in
    which every piece pushed is a part of one stream and ends below the largest
    offset, 2^62 - 1 (a piece that ends exactly there makes findEndGap panic).
    Whatever the order, the overlaps and the duplicates, nothing panics, and a push
    fails only with "too many gaps", which takes at least 1000 pushes.  If no push
    failed: the bytes read are the beginning of the stream; the next byte can be read
    if and only if it was pushed; [Peek] at the start of a held piece returns the
    bytes asked for if all of them were pushed; and every callback was called, was
    handed to the reader or is still held, once. *)
Theorem frame_sorter_delivers str os :
  from_stream str os ->
  match run_steps start_run os with
  | Ok r =>
      let s := sorter r in
      out r = stream str 0 (Z.to_nat (readPos s)) /\
      (queue s !! readPos s = None <-> ~ pushed os (readPos s)) /\
      (forall p n, (exists e, queue s !! p = Some e) ->
         (forall x, p <= x < p + Z.of_nat n -> x < MaxByteCount /\ pushed os x) -> Peek s p n = Ok (stream str p n)) /\
      pushed_cbs os ≡ₚ called r ++ handed r ++ cbs (queue s)
  | Err e => e = errTooManyGaps /\ MaxStreamFrameSorterGaps <= Z.of_nat (pushes os)
  | Panic => False
  end.
Proof.
  intros Hs. pose proof (run_steps_ok str [] start_run os (start_run_ok str) Hs) as H. cbn [app] in H.
  destruct (run_steps start_run os) as [r|e|]; [|done|done]. destruct H as (Hi & Ho & Hg & Hc & _).
  split; [done|]. split; [|split; [|done]].
  - pose proof (read_lt_max _ _ Hi). rewrite <- Hg by (pose proof (inv_read _ _ Hi); lia).
    split; [|by apply (no_key_in_gap str)]. intros Hq.
    destruct (pop_spec str (sorter r) Hi) as [(? & ? & ? & Hp & _)|[_ ?]]; [|done]. unfold Pop in Hp. by rewrite Hq in Hp.
  - intros p n [e He] Hp. unfold Peek. destruct (inv_entry _ _ Hi _ _ He) as (Hr & _). pose proof (inv_read _ _ Hi).
    destruct (bool_decide (n = 0)%nat) eqn:En; [apply bool_decide_eq_true in En as ->; done|].
    apply bool_decide_eq_false in En.
    assert (peek_check (sorter r) n p (Z.of_nat n) = true) as Hck.
    { apply (peek_check_spec str); [done|done|right; eauto|]. intros x Hx. destruct (Hp x Hx) as [Hm Hpu].
      split; [done|]. rewrite Hg by lia. intros Hn. by apply Hn. }
    rewrite Hck. cbn. f_equal. by apply peek_copy_spec.
Qed.

Lemma frame_sorter_delivers_witness :
  let str := fun x => byte_of_Z (x + 65) in
  let os := [OpPush (stream str 4 4) 4 (Some 1%nat); OpPush (stream str 10 2) 10 (Some 2%nat);
             OpPush (stream str 2 10) 2 (Some 3%nat); OpPop; OpPush (stream str 0 3) 0 (Some 4%nat); OpPop; OpPop] in
  match run_steps start_run os with
  | Ok r => out r = stream str 0 (Z.to_nat (readPos (sorter r)))
  | _ => False
  end.
Proof.
  intros str os. assert (Hs : from_stream str os).
  { intros d offset c H. apply list_elem_of_In in H. unfold os in H. cbn [In] in H.
    repeat destruct H as [H|H]; try discriminate H; try contradiction; injection H as <- <- <-;
      (split; [lia|split; [vm_compute; reflexivity|apply agrees_stream; reflexivity]]). }
  pose proof (frame_sorter_delivers str os Hs) as H.
  destruct (run_steps start_run os) as [r|e|] eqn:E; [apply H|vm_compute in E; discriminate E|exact H].
Defined.

End FrameSorter.
