(* ===== verification/CryptoStream.v ===== *)
(** * Crypto streams (src/quicfork/crypto_stream.go, crypto_stream_manager.go, sni.go)

    The handshake data of an encryption level.  Received CRYPTO frames go through
    the frame sorter; data to send is cut into CRYPTO frames.  The stream of a
    client's Initial packets cuts the server name and the ECH extension out of the
    ClientHello and sends them last.  Positions stay far below 2^62, so that no
    sum overflows. *)

From Stdlib Require Import ZifyBool.
From stdpp Require Import gmap.
From S2P Require Import Prelude GoBytes Varint Wire Frames FrameSorter FrameParser.
Local Open Scope Z_scope.

(** ** Finding the server name and the ECH extension *)

Module Sni.

Inductive snierr := ErrUnexpectedEOF | ErrNotClientHello | ErrMultipleSNI | ErrNoHostName | ErrMultipleECH.

Definition extTypeSNI : Z := 0.
Definition extTypeECH : Z := 65037. (* 0xfe0d *)

(** [binary.BigEndian.Uint16(data[pos:])] *)
Definition uint16_at (data : bytes) (pos : Z) : res snierr Z :=
  d ← go_slice data pos (blen data); get16 d.

(** The loop over the server names: the position and the length found. *)
Fixpoint name_loop (fuel : nat) (sniData : bytes) (base nameListLen listPos sniPos sniLen : Z)
    : res snierr (Z * Z) :=
  match fuel with
  | O => Panic
  | S fuel =>
      if listPos + 3 <=? nameListLen + 2 then
        nameType ← go_index sniData listPos;
        sniLen ← uint16_at sniData (listPos + 1);
        if blen sniData <? listPos + 3 + sniLen then Err ErrUnexpectedEOF
        else if nameType =? 0 then mret (base + listPos + 3, sniLen)
        else name_loop fuel sniData base nameListLen (listPos + 3 + sniLen) sniPos sniLen
      else mret (sniPos, sniLen)
  end.

(** One extension. *)
Definition extension (extensions : bytes) (extensionsStart extPos extType extLen : Z) (st : Z * Z * Z)
    : res snierr (Z * Z * Z) :=
  let '(sniPos, sniLen, echPos) := st in
  if extType =? extTypeSNI then
    if negb (sniPos =? -1) then Err ErrMultipleSNI else
    sniData ← go_slice extensions (extPos + 4) (extPos + 4 + extLen);
    if blen sniData <? 2 then Err ErrUnexpectedEOF else
    nameListLen ← uint16_at sniData 0;
    if negb (blen sniData =? 2 + nameListLen) then Err ErrUnexpectedEOF else
    '(sniPos, sniLen) ← name_loop (S (length sniData)) sniData (extensionsStart + extPos + 4) nameListLen 2 sniPos sniLen;
    if sniPos =? 0 then Err ErrNoHostName else mret (sniPos, sniLen, echPos)
  else if extType =? extTypeECH then
    if negb (echPos =? -1) then Err ErrMultipleECH else mret (sniPos, sniLen, extensionsStart + extPos)
  else mret st.

Fixpoint ext_loop (fuel : nat) (extensions : bytes) (extensionsStart extPos : Z) (st : Z * Z * Z)
    : res snierr (Z * Z * Z) :=
  match fuel with
  | O => Panic
  | S fuel =>
      let extensionsLen := blen extensions in
      if extPos + 4 <=? extensionsLen then
        extType ← uint16_at extensions extPos;
        extLen ← uint16_at extensions (extPos + 2);
        if extensionsLen <? extPos + 4 + extLen then Err ErrUnexpectedEOF else
        st ← extension extensions extensionsStart extPos extType extLen st;
        let '(sniPos, _, echPos) := st in
        if negb (sniPos =? -1) && negb (echPos =? -1) then mret st
        else ext_loop fuel extensions extensionsStart (extPos + 4 + extLen) st
      else mret st
  end.

(** [if parsePos+n > len(data) { return io.ErrUnexpectedEOF }; parsePos += n] *)
Definition skip (data : bytes) (parsePos n : Z) : res snierr Z :=
  if blen data <? parsePos + n then Err ErrUnexpectedEOF else mret (parsePos + n).

(** The position of the extensions and their length. *)
Definition hello_extensions (data : bytes) : res snierr (Z * Z) :=
  parsePos ← skip data 4 2;
  parsePos ← skip data parsePos 32;
  p ← skip data parsePos 1; sessionIDLen ← go_index data parsePos;
  parsePos ← skip data p sessionIDLen;
  p ← skip data parsePos 2; cipherSuitesLen ← uint16_at data parsePos;
  parsePos ← skip data p cipherSuitesLen;
  p ← skip data parsePos 1; compressionMethodsLen ← go_index data parsePos;
  parsePos ← skip data p compressionMethodsLen;
  p ← skip data parsePos 2; extensionsLen ← uint16_at data parsePos;
  _ ← skip data p extensionsLen;
  mret (p, extensionsLen).

(** The position and length of the server name and the position of the ECH
    extension, -1 where there is none. *)
Definition findSNIAndECH (data : bytes) : res snierr (Z * Z * Z) :=
  if blen data <? 4 then Err ErrUnexpectedEOF else
  b0 ← go_index data 0;
  if negb (b0 =? 1) then Err ErrNotClientHello else
  b1 ← go_index data 1; b2 ← go_index data 2; b3 ← go_index data 3;
  let handshakeLen := Z.lor (Z.lor (Z.shiftl b1 16) (Z.shiftl b2 8)) b3 in
  if negb (blen data =? 4 + handshakeLen) then Err ErrUnexpectedEOF else
  '(extensionsStart, extensionsLen) ← hello_extensions data;
  extensions ← go_slice data extensionsStart (extensionsStart + extensionsLen);
  ext_loop (S (length extensions)) extensions extensionsStart 0 (-1, 0, -1).

(** ** The positions found lie in the message *)

Lemma slice_tail (d : bytes) p :
  0 <= p <= blen d -> go_slice (E:=snierr) d p (blen d) = Ok (drop (Z.to_nat p) d).
Proof.
  intros H. rewrite go_slice_Ok by lia. f_equal. apply take_ge. rewrite length_drop. unfold blen in *. lia.
Qed.

Lemma uint16_at_Ok d p : 0 <= p -> p + 2 <= blen d -> exists v, uint16_at d p = Ok v /\ 0 <= v < 65536.
Proof.
  intros H0 H2. unfold uint16_at. rewrite slice_tail by lia. cbn [mbind res_bind].
  apply get16_Ok. unfold blen in *. rewrite length_drop. lia.
Qed.

Definition in_name (n sniPos sniLen : Z) : Prop :=
  0 <= sniLen /\ (sniPos = -1 \/ 4 <= sniPos) /\ sniPos + sniLen <= n.

Lemma name_loop_spec fuel d base nl lp sl n :
  blen d = 2 + nl -> 0 <= lp <= blen d -> 4 <= base -> base + blen d <= n -> blen d - lp < Z.of_nat fuel ->
  in_name n (-1) sl ->
  match name_loop fuel d base nl lp (-1) sl with
  | Ok (sp', sl') => in_name n sp' sl'
  | Err _ => True
  | Panic => False
  end.
Proof.
  intros Hd. revert lp sl. induction fuel as [|fuel IH]; intros lp sl Hlp Hb Hn Hf Hin; cbn [name_loop]; [lia|].
  destruct (lp + 3 <=? nl + 2) eqn:E; [|done].
  destruct (go_index_Ok snierr d lp) as (ty & -> & _); [lia|]. cbn [mbind res_bind].
  destruct (uint16_at_Ok d (lp + 1)) as (v & -> & Hv); [lia|lia|]. cbn [mbind res_bind].
  destruct (blen d <? lp + 3 + v) eqn:E2; [done|]. unfold in_name in *.
  destruct (ty =? 0); [cbn; lia|]. apply IH; lia.
Qed.

(** What is known of the positions while the extensions are read. *)
Definition found (n : Z) (st : Z * Z * Z) : Prop :=
  let '(sp, sl, ep) := st in in_name n sp sl /\ (ep = -1 \/ 4 <= ep /\ ep + 4 <= n).

Lemma extension_spec exts start pos ty len st n :
  0 <= pos -> 0 <= len -> pos + 4 + len <= blen exts -> 4 <= start -> start + blen exts <= n -> found n st ->
  match extension exts start pos ty len st with
  | Ok st' => found n st'
  | Err _ => True
  | Panic => False
  end.
Proof.
  destruct st as [[sp sl] ep]. intros Hp Hl Hb Hs Hn [Hi He]. unfold extension.
  destruct (ty =? extTypeSNI).
  - destruct (negb (sp =? -1)) eqn:E1; [done|]. assert (sp = -1) as -> by lia. rewrite go_slice_Ok by lia. cbn [mbind res_bind].
    set (d := take _ _). assert (Hd : blen d = len).
    { unfold d, blen in *. rewrite length_take, length_drop. lia. }
    destruct (blen d <? 2) eqn:E2; [done|]. destruct (uint16_at_Ok d 0) as (nl & -> & Hnl); [lia|lia|].
    cbn [mbind res_bind]. destruct (negb (blen d =? 2 + nl)) eqn:E3; [done|].
    pose proof (name_loop_spec (S (length d)) d (start + pos + 4) nl 2 sl n) as Hloop.
    destruct (name_loop _ _ _ _ _ _ _) as [[sp' sl']|e|]; cbn; [|done|apply Hloop; (done || (unfold blen in *; lia))].
    destruct (sp' =? 0); [done|]. split; [apply Hloop; (done || (unfold blen in *; lia))|done].
  - destruct (ty =? extTypeECH); [|done]. destruct (negb (ep =? -1)); [done|]. cbn. split; [done|lia].
Qed.

Lemma ext_loop_spec fuel exts start pos st n :
  0 <= pos <= blen exts -> blen exts - pos < Z.of_nat fuel -> 4 <= start -> start + blen exts <= n -> found n st ->
  match ext_loop fuel exts start pos st with
  | Ok st' => found n st'
  | Err _ => True
  | Panic => False
  end.
Proof.
  revert pos st. induction fuel as [|fuel IH]; intros pos st Hp Hf Hs Hn Hst; cbn [ext_loop]; [lia|].
  destruct (pos + 4 <=? blen exts) eqn:E; [|done].
  destruct (uint16_at_Ok exts pos) as (ty & -> & _); [lia|lia|]. cbn [mbind res_bind].
  destruct (uint16_at_Ok exts (pos + 2)) as (len & -> & Hlen); [lia|lia|]. cbn [mbind res_bind].
  destruct (_ <? pos + 4 + len) eqn:E2; [done|].
  pose proof (extension_spec exts start pos ty len st n ltac:(lia) ltac:(lia) ltac:(lia) Hs Hn Hst) as He.
  destruct (extension _ _ _ _ _ _) as [st'|e|]; cbn; [|done|done].
  destruct st' as [[sp sl] ep]. destruct (_ && _); [done|]. apply IH; try done; lia.
Qed.

Lemma skip_spec d p n :
  match skip d p n with Ok q => q = p + n /\ p + n <= blen d | Err _ => True | Panic => False end.
Proof. unfold skip. destruct (_ <? _) eqn:E; [done|]. cbn. lia. Qed.

Ltac skip_step :=
  match goal with |- context [skip ?d ?p ?n ≫= _] =>
    pose proof (skip_spec d p n); destruct (skip d p n) as [?|?|]; cbn [mbind res_bind]; [|done|done];
    match goal with H : _ = _ /\ _ |- _ => destruct H as [-> ?] end
  end.

Lemma hello_extensions_spec d :
  match hello_extensions d with
  | Ok (p, n) => 4 <= p /\ 0 <= n /\ p + n <= blen d
  | Err _ => True
  | Panic => False
  end.
Proof.
  unfold hello_extensions. skip_step. skip_step. skip_step.
  destruct (go_index_Ok snierr d (4 + 2 + 32)) as (a & -> & Ha); [lia|]. cbn [mbind res_bind]. skip_step. skip_step.
  match goal with |- context [uint16_at d ?p] => destruct (uint16_at_Ok d p) as (b & -> & Hb); [lia|lia|] end.
  cbn [mbind res_bind]. skip_step. skip_step.
  match goal with |- context [go_index d ?p] => destruct (go_index_Ok snierr d p) as (c & -> & Hc); [lia|] end.
  cbn [mbind res_bind]. skip_step. skip_step.
  match goal with |- context [uint16_at d ?p] => destruct (uint16_at_Ok d p) as (e & -> & He); [lia|lia|] end.
  cbn [mbind res_bind]. skip_step. cbn. lia.
Qed.

(** [findSNIAndECH] never panics, and what it finds lies in the message. *)
Lemma findSNIAndECH_spec d :
  match findSNIAndECH d with
  | Ok st => 4 <= blen d /\ found (blen d) st
  | Err _ => True
  | Panic => False
  end.
Proof.
  unfold findSNIAndECH. destruct (blen d <? 4) eqn:E; [done|].
  destruct (go_index_Ok snierr d 0) as (b0 & -> & _); [lia|]. cbn [mbind res_bind]. destruct (negb _); [done|].
  destruct (go_index_Ok snierr d 1) as (b1 & -> & _); [lia|]. cbn [mbind res_bind].
  destruct (go_index_Ok snierr d 2) as (b2 & -> & _); [lia|]. cbn [mbind res_bind].
  destruct (go_index_Ok snierr d 3) as (b3 & -> & _); [lia|]. cbn [mbind res_bind]. destruct (negb _); [done|].
  pose proof (hello_extensions_spec d) as Hx. destruct (hello_extensions d) as [[p n]|e|]; cbn [mbind res_bind]; [|done|done].
  rewrite go_slice_Ok by lia. cbn [mbind res_bind]. set (x := take _ _).
  assert (Hl : blen x = n). { unfold x, blen in *. rewrite length_take, length_drop. lia. }
  pose proof (ext_loop_spec (S (length x)) x p 0 (-1, 0, -1) (blen d)) as He.
  destruct (ext_loop _ _ _ _ _) as [st|e|]; [|done|]; [split; [lia|]|];
    (apply He; [lia|unfold blen in *; lia|lia|lia|split; [unfold in_name; lia|by left]]).
Qed.

(** A message followed by more bytes is not complete. *)
Lemma findSNIAndECH_more d p st :
  findSNIAndECH d = Ok st -> p <> [] -> findSNIAndECH (d ++ p) = Err ErrUnexpectedEOF.
Proof.
  intros H Hp. pose proof (findSNIAndECH_spec d) as Hs. rewrite H in Hs. destruct Hs as [Hl _].
  assert (Hi : forall i, 0 <= i < 4 -> go_index (E:=snierr) (d ++ p) i = go_index d i).
  { intros i Hi. unfold go_index. destruct (i <? 0); [done|]. rewrite lookup_app_l; [done|]. unfold blen in Hl. lia. }
  assert (0 < blen p) by (destruct p; [done|unfold blen; cbn; lia]).
  unfold findSNIAndECH in *. rewrite blen_app, !Hi by lia.
  rewrite (proj2 (Z.ltb_ge (blen d) 4)) in H by lia. rewrite (proj2 (Z.ltb_ge _ 4)) by lia.
  destruct (go_index d 0) as [b0|e|]; cbn [mbind res_bind] in *; [|done|done]. destruct (negb _); [done|].
  destruct (go_index d 1) as [b1|e|]; cbn [mbind res_bind] in *; [|done|done].
  destruct (go_index d 2) as [b2|e|]; cbn [mbind res_bind] in *; [|done|done].
  destruct (go_index d 3) as [b3|e|]; cbn [mbind res_bind] in *; [|done|done].
  destruct (negb (blen d =? _)) eqn:E; [done|]. rewrite (proj2 (Z.eqb_neq _ _)) by lia. done.
Qed.

End Sni.

(** ** The streams *)

Module CryptoStream.
Import Wire.

Definition MaxCryptoStreamOffset : Z := 16 * 1024.
Definition InvalidByteCount : Z := -1.

Inductive cerr :=
| errOffset                       (* CRYPTO_BUFFER_EXCEEDED *)
| errLevelChanged | errMoreData   (* PROTOCOL_VIOLATION *)
| errEncLevel
| errSorter (e : FrameSorter.serr)
| errWire (e : werr).

Record baseCryptoStream := mkBaseStream {
  queue : FrameSorter.frameSorter;
  highestOffset : Z; finished : bool;
  writeOffset : Z; writeBuf : bytes }.

Definition newCryptoStream : baseCryptoStream := mkBaseStream FrameSorter.newFrameSorter 0 false 0 [].

Definition HandleCryptoFrame (s : baseCryptoStream) (f : Frames.CryptoFrame) : res cerr baseCryptoStream :=
  let highest := Frames.cr_Offset f + blen (Frames.cr_Data f) in
  if MaxCryptoStreamOffset <? highest then Err errOffset
  else if finished s then if highestOffset s <? highest then Err errLevelChanged else Ok s
  else
    '(q, _, err) ← wrap_err errSorter (FrameSorter.Push (queue s) (Frames.cr_Data f) (Frames.cr_Offset f) None);
    match err with
    | Some e => Err (errSorter e)
    | None => Ok (mkBaseStream q (Z.max (highestOffset s) highest) (finished s) (writeOffset s) (writeBuf s))
    end.

(** The data ([None]: nil) and the stream afterwards. *)
Definition GetCryptoData (s : baseCryptoStream) : res cerr (option bytes * baseCryptoStream) :=
  '(q, (_, data, _)) ← wrap_err errSorter (FrameSorter.Pop (queue s));
  Ok (data, mkBaseStream q (highestOffset s) (finished s) (writeOffset s) (writeBuf s)).

Definition Finish (s : baseCryptoStream) : res cerr baseCryptoStream :=
  if FrameSorter.HasMoreData (queue s) then Err errMoreData
  else Ok (mkBaseStream (queue s) (highestOffset s) true (writeOffset s) (writeBuf s)).

Definition with_write (s : baseCryptoStream) (offset : Z) (buf : bytes) : baseCryptoStream :=
  mkBaseStream (queue s) (highestOffset s) (finished s) offset buf.

Definition Write (s : baseCryptoStream) (p : bytes) : baseCryptoStream := with_write s (writeOffset s) (writeBuf s ++ p).

Definition HasData (s : baseCryptoStream) : bool := 0 <? blen (writeBuf s).

Definition PopCryptoFrame (s : baseCryptoStream) (maxLen : Z) : res cerr (option Frames.CryptoFrame * baseCryptoStream) :=
  m ← wrap_err errWire (Frames.MaxDataLenCryptoFrame (Frames.mkCrypto (writeOffset s) []) maxLen);
  let n := Z.min m (blen (writeBuf s)) in
  if n <=? 0 then Ok (None, s) else
  data ← go_slice (writeBuf s) 0 n;
  buf ← go_slice (writeBuf s) n (blen (writeBuf s));
  Ok (Some (Frames.mkCrypto (writeOffset s) data), with_write s (writeOffset s + n) buf).

(** ** The stream of Initial packets *)

Record clientHelloCut := mkCut { start : Z; end_ : Z }.

Definition noCut : clientHelloCut := mkCut InvalidByteCount InvalidByteCount.

Record initialCryptoStream := mkInitial {
  base : baseCryptoStream; scramble : bool; send_end : Z; cuts : clientHelloCut * clientHelloCut }.

(** [isClient] and whether scrambling is disabled in the environment. *)
Definition newInitialCryptoStream (isClient disabled : bool) : initialCryptoStream :=
  mkInitial newCryptoStream (isClient && negb disabled) 0 (noCut, noCut).

Definition initial_HasData (s : initialCryptoStream) : bool :=
  if scramble s && (writeOffset (base s) =? 0) && (start (cuts s).1 =? InvalidByteCount) then false
  else HasData (base s).

(** The comparison given to [slices.SortFunc]; two elements are sorted by one
    comparison of the second with the first. *)
Definition cmp_cuts (a b : clientHelloCut) : Z :=
  if start a =? InvalidByteCount then 1 else if start b <? start a then 1 else -1.

Definition sort_cuts (c : clientHelloCut * clientHelloCut) : clientHelloCut * clientHelloCut :=
  if cmp_cuts c.2 c.1 <? 0 then (c.2, c.1) else c.

(** The error of the parser is returned; the data is kept. *)
Definition initial_Write (s : initialCryptoStream) (p : bytes) : res cerr (initialCryptoStream * option Sni.snierr) :=
  let s := mkInitial (Write (base s) p) (scramble s) (send_end s) (cuts s) in
  if negb (scramble s) then Ok (s, None)
  else if start (cuts s).1 =? InvalidByteCount then
    match Sni.findSNIAndECH (writeBuf (base s)) with
    | Err Sni.ErrUnexpectedEOF => Ok (s, None)
    | Err e => Ok (s, Some e)
    | Panic => Panic
    | Ok (sniPos, sniLen, echPos) =>
        if (sniPos =? -1) && (echPos =? -1) then Ok (mkInitial (base s) false (send_end s) (cuts s), None)
        else
          let e := blen (writeBuf (base s)) in
          let c0 := mkCut (sniPos + Z.quot sniLen 2) (sniPos + sniLen) in
          let c1 := if 0 <? echPos then mkCut (echPos + 1) (Z.min (echPos + 1 + 16) e) else (cuts s).2 in
          Ok (mkInitial (base s) (scramble s) e (sort_cuts (c0, c1)), None)
    end
  else Ok (s, None).

(** The loop over the cuts that are still to be sent: the cuts, the frame, and
    whether there are cuts left; [None]: the call returns nil. *)
Fixpoint cut_loop (maxLen : Z) (buf : bytes) (cs : list clientHelloCut) (f : option Frames.CryptoFrame) (foundCuts : bool)
    : res cerr (option (list clientHelloCut * option Frames.CryptoFrame * bool)) :=
  match cs with
  | [] => Ok (Some ([], f, foundCuts))
  | c :: cs =>
      if start c =? InvalidByteCount then
        r ← cut_loop maxLen buf cs f foundCuts;
        Ok (option_map (fun '(cs, f, b) => (c :: cs, f, b)) r)
      else
        match f with
        | Some _ => Ok (Some (c :: cs, f, true))
        | None =>
            m ← wrap_err errWire (Frames.MaxDataLenCryptoFrame (Frames.mkCrypto (start c) []) maxLen);
            let n := Z.min m (end_ c - start c) in
            if n <=? 0 then Ok None else
            data ← go_slice buf (start c) (start c + n);
            let f := Some (Frames.mkCrypto (start c) data) in
            let done := start c + n =? end_ c in
            r ← cut_loop maxLen buf cs f (negb done);
            Ok (option_map (fun '(cs, f, b) => ((if done then noCut else mkCut (start c + n) (end_ c)) :: cs, f, b)) r)
        end
  end.

(** The first cut after the write position. *)
Definition next_cut (offset : Z) (cs : list clientHelloCut) : clientHelloCut :=
  default noCut (head (filter (fun c => start c <> InvalidByteCount /\ offset < start c) cs)).

Definition initial_PopCryptoFrame (s : initialCryptoStream) (maxLen : Z)
    : res cerr (option Frames.CryptoFrame * initialCryptoStream) :=
  let b := base s in
  if negb (scramble s) then
    '(f, b) ← PopCryptoFrame b maxLen; Ok (f, mkInitial b (scramble s) (send_end s) (cuts s))
  else if writeOffset b =? send_end s then
    r ← cut_loop maxLen (writeBuf b) [(cuts s).1; (cuts s).2] None false;
    match r with
    | None => Ok (None, s)
    | Some (cs, f, foundCuts) =>
        let cs := (default noCut (cs !! 0%nat), default noCut (cs !! 1%nat)) in
        if negb foundCuts then
          buf ← go_slice (writeBuf b) (send_end s) (blen (writeBuf b));
          Ok (f, mkInitial (with_write b (writeOffset b) buf) false InvalidByteCount cs)
        else Ok (f, mkInitial b (scramble s) (send_end s) cs)
    end
  else
    let nextCut := next_cut (writeOffset b) [(cuts s).1; (cuts s).2] in
    let maxOffset := if start nextCut =? InvalidByteCount then send_end s else start nextCut in
    m ← wrap_err errWire (Frames.MaxDataLenCryptoFrame (Frames.mkCrypto (writeOffset b) []) maxLen);
    let n := Z.min m (maxOffset - writeOffset b) in
    if n <=? 0 then Ok (None, s) else
    data ← go_slice (writeBuf b) (writeOffset b) (writeOffset b + n);
    let offset := writeOffset b + n in
    let offset := if offset =? start nextCut then end_ nextCut else offset in
    Ok (Some (Frames.mkCrypto (writeOffset b) data),
        mkInitial (with_write b offset (writeBuf b)) (scramble s) (send_end s) (cuts s)).

(** ** The streams of a connection *)

Record cryptoStreamManager := mkManager {
  initialStream : initialCryptoStream; handshakeStream : baseCryptoStream; oneRTTStream : baseCryptoStream }.

Definition newCryptoStreamManager := mkManager.

Definition on_initial (s : initialCryptoStream) (b : baseCryptoStream) : initialCryptoStream :=
  mkInitial b (scramble s) (send_end s) (cuts s).

Definition manager_HandleCryptoFrame (m : cryptoStreamManager) (f : Frames.CryptoFrame)
    (encLevel : FrameParser.EncryptionLevel) : res cerr cryptoStreamManager :=
  match encLevel with
  | FrameParser.EncryptionInitial =>
      b ← HandleCryptoFrame (base (initialStream m)) f;
      Ok (mkManager (on_initial (initialStream m) b) (handshakeStream m) (oneRTTStream m))
  | FrameParser.EncryptionHandshake =>
      b ← HandleCryptoFrame (handshakeStream m) f; Ok (mkManager (initialStream m) b (oneRTTStream m))
  | FrameParser.Encryption1RTT =>
      b ← HandleCryptoFrame (oneRTTStream m) f; Ok (mkManager (initialStream m) (handshakeStream m) b)
  | _ => Err errEncLevel
  end.

Definition manager_GetCryptoData (m : cryptoStreamManager) (encLevel : FrameParser.EncryptionLevel)
    : res cerr (option bytes * cryptoStreamManager) :=
  match encLevel with
  | FrameParser.EncryptionInitial =>
      '(d, b) ← GetCryptoData (base (initialStream m));
      Ok (d, mkManager (on_initial (initialStream m) b) (handshakeStream m) (oneRTTStream m))
  | FrameParser.EncryptionHandshake =>
      '(d, b) ← GetCryptoData (handshakeStream m); Ok (d, mkManager (initialStream m) b (oneRTTStream m))
  | FrameParser.Encryption1RTT =>
      '(d, b) ← GetCryptoData (oneRTTStream m); Ok (d, mkManager (initialStream m) (handshakeStream m) b)
  | _ => Panic
  end.

Definition GetPostHandshakeData (m : cryptoStreamManager) (maxSize : Z)
    : res cerr (option Frames.CryptoFrame * cryptoStreamManager) :=
  if negb (HasData (oneRTTStream m)) then Ok (None, m) else
  '(f, b) ← PopCryptoFrame (oneRTTStream m) maxSize;
  Ok (f, mkManager (initialStream m) (handshakeStream m) b).

Definition Drop (m : cryptoStreamManager) (encLevel : FrameParser.EncryptionLevel) : res cerr cryptoStreamManager :=
  match encLevel with
  | FrameParser.EncryptionInitial =>
      b ← Finish (base (initialStream m));
      Ok (mkManager (on_initial (initialStream m) b) (handshakeStream m) (oneRTTStream m))
  | FrameParser.EncryptionHandshake =>
      b ← Finish (handshakeStream m); Ok (mkManager (initialStream m) b (oneRTTStream m))
  | _ => Panic
  end.

(** What a connection does with a CRYPTO frame: the messages handed to the TLS
    stack, which is taken to accept them. *)
Fixpoint read_messages (fuel : nat) (s : baseCryptoStream) : res cerr (list bytes * baseCryptoStream) :=
  match fuel with
  | O => Panic
  | S fuel =>
      '(data, s) ← GetCryptoData s;
      match data with
      | None => Ok ([], s)
      | Some d => '(ms, s) ← read_messages fuel s; Ok (d :: ms, s)
      end
  end.

Definition handleCryptoFrame (s : baseCryptoStream) (f : Frames.CryptoFrame) : res cerr (list bytes * baseCryptoStream) :=
  s ← HandleCryptoFrame s f; read_messages (S (size (FrameSorter.queue (queue s)))) s.

Fixpoint receive (s : baseCryptoStream) (fs : list Frames.CryptoFrame) : res cerr (list bytes * baseCryptoStream) :=
  match fs with
  | [] => Ok ([], s)
  | f :: fs => '(ms, s) ← handleCryptoFrame s f; '(ms', s) ← receive s fs; Ok (ms ++ ms', s)
  end.

(** ** Frames of a stream of bytes *)

Definition str_of (total : bytes) (x : Z) : Byte.byte := default Byte.x00 (total !! Z.to_nat x).

(** The frame carries a non-empty part of [total]. *)
Definition part (total : bytes) (f : Frames.CryptoFrame) : Prop :=
  0 < blen (Frames.cr_Data f) /\ 0 <= Frames.cr_Offset f /\
  Frames.cr_Offset f + blen (Frames.cr_Data f) <= blen total /\
  FrameSorter.agrees (str_of total) (Frames.cr_Offset f) (Frames.cr_Data f).

Definition carries (f : Frames.CryptoFrame) (x : Z) : Prop :=
  Frames.cr_Offset f <= x < Frames.cr_Offset f + blen (Frames.cr_Data f).

Definition covered (fs : list Frames.CryptoFrame) (x : Z) : Prop := exists f, f ∈ fs /\ carries f x.

Lemma str_of_stream total : FrameSorter.stream (str_of total) 0 (length total) = total.
Proof.
  symmetry. apply FrameSorter.agrees_stream. intros i b Hb. unfold str_of.
  replace (Z.to_nat (0 + Z.of_nat i)) with i by lia. by rewrite Hb.
Qed.

Lemma part_app total p f : part total f -> part (total ++ p) f.
Proof.
  intros (H1 & H2 & H3 & H4). pose proof (blen_nonneg p). split; [done|]. split; [done|].
  split; [rewrite blen_app; lia|]. intros i b Hb. rewrite <- (H4 i b Hb). unfold str_of.
  rewrite lookup_app_l; [done|]. apply lookup_lt_Some in Hb. unfold blen in *. lia.
Qed.

Lemma covered_app fs fs' x : covered (fs ++ fs') x <-> covered fs x \/ covered fs' x.
Proof. unfold covered. setoid_rewrite elem_of_app. naive_solver. Qed.

Lemma slice_part total a n :
  0 <= a -> 0 < n -> a + n <= blen total ->
  exists d, go_slice (E:=cerr) total a (a + n) = Ok d /\ blen d = n /\ part total (Frames.mkCrypto a d).
Proof.
  intros Ha Hn Hl. rewrite go_slice_Ok by lia. eexists. split; [done|].
  assert (blen (take (Z.to_nat (a + n - a)) (drop (Z.to_nat a) total)) = n) as Hd.
  { unfold blen in *. rewrite length_take, length_drop. lia. }
  split; [done|]. split; [cbn; lia|]. split; [cbn; lia|]. split; [cbn in *; lia|]. cbn.
  intros i b Hb. apply lookup_take_Some in Hb as [Hb _]. rewrite lookup_drop in Hb. unfold str_of.
  replace (Z.to_nat (a + Z.of_nat i)) with (Z.to_nat a + i)%nat by lia. by rewrite Hb.
Qed.

Lemma max_data_len o maxLen :
  0 <= o < 2 ^ 62 -> 0 <= maxLen < 2 ^ 62 ->
  exists m, Frames.MaxDataLenCryptoFrame (Frames.mkCrypto o []) maxLen = Ok m /\ 0 <= m /\ (11 <= maxLen -> 1 <= m).
Proof.
  intros Ho Hm. unfold Frames.MaxDataLenCryptoFrame. cbn [Frames.cr_Offset].
  assert (Varint.vrange o) as Ho' by (unfold Varint.vrange, Varint.maxVarInt8; lia).
  rewrite u64_v, Varint.Len_venc by done. cbn [mbind res_bind]. pose proof (Varint.blen_venc _ Ho') as Hl.
  destruct (maxLen <? _) eqn:E; [exists 0; split; [done|lia]|].
  set (d := maxLen - _). assert (Varint.vrange d) as Hd' by (unfold Varint.vrange, Varint.maxVarInt8, d; lia).
  rewrite u64_v, Varint.Len_venc by done. cbn [mbind res_bind]. eexists. split; [done|].
  assert (d < 64 -> blen (Varint.venc d) = 1) as H1.
  { intros Hd. unfold Varint.venc, Varint.Append, Varint.maxVarInt1. rewrite (proj2 (Z.leb_le d 63)) by lia. done. }
  destruct (negb _) eqn:E2; unfold d in *; lia.
Qed.

(** ** Sending *)

(** What the packer does for one frame: it asks for one only when there is data. *)
Definition pack_frame (s : initialCryptoStream) (maxLen : Z) : res cerr (option Frames.CryptoFrame * initialCryptoStream) :=
  if initial_HasData s then initial_PopCryptoFrame s maxLen else Ok (None, s).

Inductive send_op := SWrite (p : bytes) | SPack (maxLen : Z).

(** The stream afterwards and the frames sent. *)
Fixpoint send_steps (s : initialCryptoStream) (ops : list send_op) : res cerr (initialCryptoStream * list Frames.CryptoFrame) :=
  match ops with
  | [] => Ok (s, [])
  | SWrite p :: ops => '(s, _) ← initial_Write s p; send_steps s ops
  | SPack maxLen :: ops =>
      '(f, s) ← pack_frame s maxLen; '(s, fs) ← send_steps s ops; Ok (s, option_list f ++ fs)
  end.

Definition written (ops : list send_op) : bytes := ops ≫= fun o => match o with SWrite p => p | SPack _ => [] end.

Definition op_ok (o : send_op) : Prop :=
  match o with SWrite p => p <> [] | SPack maxLen => 0 <= maxLen < 2 ^ 62 end.

Definition cut_ok (e : Z) (c : clientHelloCut) : Prop :=
  start c = InvalidByteCount \/ 0 <= start c <= end_ c /\ end_ c <= e.

Definition in_cut (c : clientHelloCut) (x : Z) : Prop := start c <> InvalidByteCount /\ start c <= x < end_ c.

(** The phases of the stream after [total] was written and [fs] was sent: the
    plain one; the one before a ClientHello is complete; and the one in which a
    ClientHello is sent around its cuts. *)
Inductive sending (total : bytes) (fs : list Frames.CryptoFrame) (s : initialCryptoStream) : Prop :=
| sending_plain :
    scramble s = false -> 0 <= writeOffset (base s) <= blen total ->
    writeBuf (base s) = drop (Z.to_nat (writeOffset (base s))) total ->
    (forall x, 0 <= x < writeOffset (base s) -> covered fs x) -> sending total fs s
| sending_wait e :
    scramble s = true -> send_end s = 0 -> cuts s = (noCut, noCut) -> writeOffset (base s) = 0 ->
    writeBuf (base s) = total -> Sni.findSNIAndECH total = Err e -> sending total fs s
| sending_cuts st :
    scramble s = true -> 0 <= send_end s <= blen total -> writeBuf (base s) = total ->
    Sni.findSNIAndECH (take (Z.to_nat (send_end s)) total) = Ok st ->
    0 <= writeOffset (base s) <= send_end s ->
    cut_ok (send_end s) (cuts s).1 -> cut_ok (send_end s) (cuts s).2 ->
    (writeOffset (base s) = 0 -> start (cuts s).1 = InvalidByteCount -> st.1.1 = -1) ->
    (forall x, 0 <= x < writeOffset (base s) -> covered fs x \/ in_cut (cuts s).1 x \/ in_cut (cuts s).2 x) ->
    sending total fs s.

Lemma new_sending c d : sending [] [] (newInitialCryptoStream c d).
Proof.
  destruct (c && negb d) eqn:E.
  - by eapply sending_wait.
  - apply sending_plain; [done..|]. cbn. intros x Hx. lia.
Qed.

Lemma sort_cuts_spec sp sl ep e c1 :
  Sni.found e (sp, sl, ep) -> sp <> -1 \/ ep <> -1 -> c1 = noCut ->
  let c := sort_cuts (mkCut (sp + Z.quot sl 2) (sp + sl), if 0 <? ep then mkCut (ep + 1) (Z.min (ep + 1 + 16) e) else c1) in
  cut_ok e c.1 /\ cut_ok e c.2 /\ (start c.1 = InvalidByteCount -> sp = -1).
Proof.
  unfold InvalidByteCount, cut_ok. intros [Hn He] Hf ->. unfold Sni.in_name in Hn.
  assert (0 <= Z.quot sl 2 <= sl) by (split; [apply Z.quot_pos; lia|apply Z.quot_le_upper_bound; lia]).
  set (c0 := mkCut _ (_ + sl)). set (c1 := if 0 <? ep then _ else _).
  assert (cut_ok e c0 /\ (start c0 = -1 -> sp = -1)) as [H0 H0'].
  { unfold cut_ok, InvalidByteCount. cbn. lia. }
  assert (cut_ok e c1) as H1. { unfold c1. destruct (0 <? ep) eqn:E; [right; cbn; lia|by left]. }
  unfold sort_cuts. cbn. destruct (_ <? 0) eqn:E; cbn; [|done]. split; [done|]. split; [done|].
  intros Hc. unfold cmp_cuts, InvalidByteCount in E. rewrite Hc in E. cbn in E. lia.
Qed.

Lemma write_sending total fs s p :
  p <> [] -> sending total fs s ->
  exists s' err, initial_Write s p = Ok (s', err) /\ sending (total ++ p) fs s'.
Proof.
  intros Hp. pose proof (blen_nonneg p). unfold initial_Write. cbn. intros [Hs Ho Hb Hc|e Hs He Hc Ho Hb Hf|st Hs He Hb Hf Ho H1 H2 H0 Hc]; rewrite Hs; cbn.
  - eexists _, _. split; [done|]. apply sending_plain; cbn; [done|rewrite blen_app; lia| |done].
    rewrite Hb, drop_app_le; [done|]. unfold blen in *. lia.
  - rewrite Hc, Hb. cbn. pose proof (Sni.findSNIAndECH_spec (total ++ p)) as Hx.
    destruct (Sni.findSNIAndECH (total ++ p)) as [[[sp sl] ep]|e'|] eqn:Ef; [| |done].
    2:{ destruct e'; (eexists _, _; split; [done|]; eapply sending_wait; cbn; (done || by rewrite ?Hb)). }
    destruct Hx as [Hl Hx]. destruct (_ && _) eqn:E.
    + eexists _, _. split; [done|]. apply sending_plain; cbn; [done|rewrite Ho, blen_app; pose proof (blen_nonneg total); lia| |intros; lia].
      by rewrite Ho, Hb.
    + eexists _, _. split; [done|]. pose proof (sort_cuts_spec sp sl ep _ noCut Hx ltac:(lia) eq_refl) as (Hc1 & Hc2 & Hc3).
      eapply (sending_cuts _ _ _ (sp, sl, ep)); cbn [base scramble send_end cuts writeOffset writeBuf Write with_write];
        rewrite ?Ho, ?Hb; try done; [lia| |lia|intros; lia].
      rewrite take_ge; [done|]. unfold blen. lia.
  - assert (Hrest : sending (total ++ p) fs (mkInitial (Write (base s) p) true (send_end s) (cuts s))).
    { eapply (sending_cuts _ _ _ st); cbn; rewrite ?Hb; try done; [rewrite blen_app; lia|].
      rewrite take_app_le; [done|]. unfold blen in *. lia. }
    destruct (_ =? InvalidByteCount); [|by eexists _, _].
    rewrite Hb. replace (total ++ p) with (take (Z.to_nat (send_end s)) total ++ (drop (Z.to_nat (send_end s)) total ++ p))
      by (by rewrite app_assoc, take_drop).
    rewrite (Sni.findSNIAndECH_more _ _ _ Hf) by (intros [_ ?]%app_nil; done).
    eexists _, _. split; [done|]. by rewrite app_assoc, take_drop.
Qed.

(** ** Popping *)

Definition proper (c : clientHelloCut) : Prop := start c = InvalidByteCount \/ start c < end_ c.

Definition cut_len (c : clientHelloCut) : Z := if start c =? InvalidByteCount then 0 else end_ c - start c.

Definition cuts_len (cs : list clientHelloCut) : Z := foldr (fun c n => cut_len c + n) 0 cs.

Lemma cuts_len_cons c cs : cuts_len (c :: cs) = cut_len c + cuts_len cs.
Proof. done. Qed.

Definition in_cuts (cs : list clientHelloCut) (x : Z) : Prop := Exists (fun c => in_cut c x) cs.

Lemma cut_loop_rest maxLen buf cs g b :
  exists b', cut_loop maxLen buf cs (Some g) b = Ok (Some (cs, Some g, b')) /\
    (b' = false -> b = false /\ Forall (fun c => start c = InvalidByteCount) cs).
Proof.
  induction cs as [|c cs (b' & IH & Hb)]; cbn.
  { exists b. split; [done|]. intros ->. done. }
  destruct (_ =? _) eqn:E; [|exists true; done]. rewrite IH. cbn. exists b'. split; [done|].
  intros H. destruct (Hb H) as [-> Hf]. split; [done|]. constructor; [lia|done].
Qed.

(** The loop sends a part of the first cut, if there is one. *)
Lemma cut_loop_spec maxLen buf e cs :
  0 <= maxLen < 2 ^ 62 -> e <= blen buf -> blen buf < 2 ^ 62 -> Forall (cut_ok e) cs ->
  cut_loop maxLen buf cs None false = Ok None /\ ~ (11 <= maxLen /\ Forall proper cs) \/
  exists cs' f b, cut_loop maxLen buf cs None false = Ok (Some (cs', f, b)) /\
    length cs' = length cs /\ Forall (cut_ok e) cs' /\ (Forall proper cs -> Forall proper cs') /\
    (forall g, f = Some g -> part buf g) /\
    (forall x, in_cuts cs x -> in_cuts cs' x \/ exists g, f = Some g /\ carries g x) /\
    (b = false -> Forall (fun c => start c = InvalidByteCount) cs') /\
    (b = true -> cuts_len cs' < cuts_len cs).
Proof.
  intros Hm He Hb. unfold in_cuts. induction 1 as [|c cs Hc Hcs IH]; cbn [cut_loop].
  { right. eexists [], None, false. split; [done|]. split_and!; try done; try (intros; by constructor). }
  destruct (_ =? InvalidByteCount) eqn:E.
  - destruct IH as [[-> Hn]|(cs' & f & b & -> & Hl & Hok & Hpr & Hf & Hx & Hd & Hlen)]; cbn [mbind res_bind option_map].
    { left. split; [done|]. intros [? [_ ?]%Forall_cons]. by apply Hn. }
    right. eexists (c :: cs'), f, b. split; [done|]. split; [cbn; lia|]. split; [by constructor|].
    split; [intros [? ?]%Forall_cons; by constructor; [|apply Hpr]|]. split; [done|].
    split; [|split; [intros H; constructor; [lia|by apply Hd]|rewrite !cuts_len_cons; intros H; specialize (Hlen H); lia]].
    intros x [H|H]%Exists_cons; [destruct H as [H _]; lia|]. destruct (Hx x H); [left; by right|by right].
  - destruct Hc as [Hc|[Hc Hce]]; [lia|].
    destruct (max_data_len (start c) maxLen) as (m & -> & Hm0 & Hm1); [lia|done|]. cbn [wrap_err mbind res_bind].
    set (n := Z.min m _). assert (Hn : n <= end_ c - start c) by (unfold n; lia). destruct (n <=? 0) eqn:En.
    { left. split; [done|]. intros [H11 [[Hp|Hp] _]%Forall_cons]; unfold n in En; lia. }
    destruct (slice_part buf (start c) n) as (d & -> & Hd & Hpart); [lia|lia|unfold n; lia|]. cbn [mbind res_bind].
    destruct (cut_loop_rest maxLen buf cs (Frames.mkCrypto (start c) d) (negb (start c + n =? end_ c))) as (b' & -> & Hb').
    cbn [mbind res_bind option_map]. right. eexists _, _, b'. split; [done|]. split; [done|].
    set (c' := if start c + n =? end_ c then noCut else _).
    assert (cut_ok e c' /\ (proper c') /\ cut_len c' = end_ c - start c - n /\
            (forall x, in_cut c x -> in_cut c' x \/ start c <= x < start c + n)) as (Hc1 & Hc2 & Hc3 & Hc4).
    { unfold c', cut_ok, proper, cut_len, in_cut, noCut, InvalidByteCount in *. destruct (_ =? end_ c) eqn:Ed; cbn; [|destruct (start c + n =? -1) eqn:Ee];
        (split; [lia|]); (split; [lia|]); (split; [lia|]); intros x Hx; lia. }
    split; [by constructor|]. split; [intros [_ ?]%Forall_cons; by constructor|]. split; [intros g [= <-]; done|].
    split; [|split].
    + intros x [H|H]%Exists_cons; [|left; by right]. destruct (Hc4 x H); [left; by left|].
      right. eexists. split; [done|]. unfold carries. cbn. lia.
    + intros H. destruct (Hb' H) as [Hnd Hf]. constructor; [|done]. apply negb_false_iff in Hnd. unfold c'. by rewrite Hnd.
    + intros _. rewrite !cuts_len_cons, Hc3. unfold cut_len. rewrite E. lia.
Qed.

(** What is left to send, at most. *)
Definition work (s : initialCryptoStream) : Z :=
  blen (writeBuf (base s)) +
  if scramble s then cuts_len [(cuts s).1; (cuts s).2] + 1 - writeOffset (base s) else 0.

Definition proper_cuts (s : initialCryptoStream) : Prop := Forall proper [(cuts s).1; (cuts s).2].

(** A pop sends a part of what was written, and when there is room for a byte and
    no cut is empty it makes progress. *)
Definition pop_post (total : bytes) (fs : list Frames.CryptoFrame) (s : initialCryptoStream) (maxLen : Z)
    (r : res cerr (option Frames.CryptoFrame * initialCryptoStream)) : Prop :=
  exists f s', r = Ok (f, s') /\ (forall g, f = Some g -> part total g) /\ sending total (fs ++ option_list f) s' /\
    (11 <= maxLen -> proper_cuts s -> initial_HasData s = true -> proper_cuts s' /\ work s' < work s).

Lemma covered_snoc fs fs' x : covered fs x -> covered (fs ++ fs') x.
Proof. intros. apply covered_app. by left. Qed.

Lemma covered_last fs f x : carries f x -> covered (fs ++ [f]) x.
Proof. intros. apply covered_app. right. exists f. split; [by left|done]. Qed.

Lemma pop_plain total fs s maxLen :
  0 <= maxLen < 2 ^ 62 -> blen total < 2 ^ 62 -> sending total fs s -> scramble s = false ->
  pop_post total fs s maxLen (initial_PopCryptoFrame s maxLen).
Proof.
  intros Hm Ht [Hs Ho Hb Hc|e Hs|st Hs]; rewrite Hs; try done. intros _. unfold initial_PopCryptoFrame, PopCryptoFrame.
  rewrite Hs. cbn [negb]. destruct (max_data_len (writeOffset (base s)) maxLen) as (m & -> & Hm0 & Hm1); [lia|done|].
  cbn [wrap_err mbind res_bind]. set (o := writeOffset (base s)) in *.
  assert (Hl : blen (writeBuf (base s)) = blen total - o). { rewrite Hb. unfold blen in *. rewrite length_drop. lia. }
  set (n := Z.min m _). destruct (n <=? 0) eqn:En.
  { eexists None, _. split; [done|]. split; [done|]. rewrite app_nil_r. split; [by apply sending_plain|].
    intros H1 H2. unfold initial_HasData, HasData. cbn. rewrite Hs. cbn. unfold n in En. lia. }
  assert (Hd : go_slice (E:=cerr) (writeBuf (base s)) 0 n = go_slice total o (o + n)).
  { rewrite !go_slice_Ok by (unfold n; lia). f_equal. rewrite Hb. cbn. f_equal. lia. }
  destruct (slice_part total o n) as (d & Hd' & Hdl & Hp); [lia|lia|unfold n; lia|]. rewrite Hd, Hd'. cbn [mbind res_bind].
  rewrite go_slice_Ok by (unfold n; lia). cbn [mbind res_bind]. eexists _, _. split; [done|].
  split; [by intros g [= <-]|].
  assert (Hbuf : take (Z.to_nat (blen (writeBuf (base s)) - n)) (drop (Z.to_nat n) (writeBuf (base s))) = drop (Z.to_nat (o + n)) total).
  { rewrite Hb, drop_drop, take_ge; [f_equal; lia|]. rewrite length_drop. rewrite Hb in Hl. unfold blen in *. rewrite length_drop in *. lia. }
  split.
  - apply sending_plain; cbn; [done|unfold n; lia|done|]. intros x Hx. destruct (decide (x < o)); [by apply covered_snoc, Hc; lia|].
    apply covered_last. unfold carries. cbn. lia.
  - intros _ Hpr _. split; [done|]. unfold work. cbn. rewrite Hs, Hbuf. fold o. rewrite Hl. unfold blen in *.
    rewrite length_drop. lia.
Qed.

Lemma pop_wait total fs s maxLen :
  sending total fs s -> scramble s = true -> send_end s = 0 ->
  pop_post total fs s maxLen (initial_PopCryptoFrame s maxLen).
Proof.
  intros [Hs Ho Hb Hc|e Hs He Hc Ho Hb Hf|st Hs He Hb Hf Ho H1 H2 H0 Hc] Hs' He'; [congruence| |].
  2:{ exfalso. rewrite He' in Hf. pose proof (Sni.findSNIAndECH_spec []) as Hx. cbn in Hf. done. }
  unfold initial_PopCryptoFrame. rewrite Hs, Ho, He, Hc. cbn. pose proof (blen_nonneg (writeBuf (base s))).
  rewrite go_slice_Ok by lia. cbn. rewrite drop_0, take_ge by (unfold blen; lia).
  eexists None, _. split; [done|]. split; [done|]. rewrite app_nil_r.
  split; [apply sending_plain; cbn; rewrite ?Ho, ?Hb in *; (done || lia)|].
  intros _ _. unfold initial_HasData. by rewrite Hs, Ho, Hc.
Qed.

Lemma pop_skipped total fs s maxLen :
  0 <= maxLen < 2 ^ 62 -> blen total < 2 ^ 62 -> sending total fs s -> scramble s = true -> send_end s <> 0 ->
  writeOffset (base s) = send_end s -> pop_post total fs s maxLen (initial_PopCryptoFrame s maxLen).
Proof.
  intros Hm Ht [Hs|e Hs He|st Hs He Hb Hf Ho H1 H2 H0 Hc] Hs' He' Hoe; [congruence..|].
  unfold initial_PopCryptoFrame. rewrite Hs, Hoe, Z.eqb_refl. cbn [negb]. rewrite Hb.
  destruct (cut_loop_spec maxLen total (send_end s) [(cuts s).1; (cuts s).2] Hm ltac:(lia) Ht)
    as [[-> Hn]|(cs & f & b & -> & Hl & Hok & Hpr & Hpart & Hx & Hd & Hlen)]; [by rewrite !Forall_cons| |]; cbn [mbind res_bind].
  { eexists None, _. split; [done|]. split; [done|]. rewrite app_nil_r. split; [by eapply sending_cuts|].
    intros H11 Hp. exfalso. by apply Hn. }
  destruct cs as [|c1 [|c2 [|c3 cs]]]; try discriminate Hl. cbn [lookup list_lookup default from_option id].
  assert (Hcov : forall x, 0 <= x < writeOffset (base s) -> covered (fs ++ option_list f) x \/ in_cuts [c1; c2] x).
  { intros y Hy. destruct (Hc y Hy) as [?|Hcut]; [left; by apply covered_snoc|].
    destruct (Hx y) as [?|(g & -> & Hg)]; [|by right|left; by apply covered_last].
    unfold in_cuts. rewrite !Exists_cons, Exists_nil. tauto. }
  apply Forall_cons in Hok as [Hk1 [Hk2 _]%Forall_cons]. destruct b; cbn [negb].
  - eexists _, _. split; [done|]. split; [done|]. split.
    + eapply (sending_cuts _ _ _ st); cbn [base scramble send_end cuts fst snd]; try done; [intros; lia|].
      intros y Hy. destruct (Hcov y Hy) as [?|Hcut]; [by left|]. unfold in_cuts in Hcut.
      rewrite !Exists_cons, Exists_nil in Hcut. tauto.
    + intros _ Hp _. unfold proper_cuts, work. cbn [base scramble cuts fst snd]. split; [by apply Hpr|]. rewrite Hs. cbv iota. specialize (Hlen eq_refl). lia.
  - rewrite go_slice_Ok by lia. cbn [mbind res_bind]. eexists _, _. split; [done|]. split; [done|].
    apply Forall_cons in Hd as [Hd1 [Hd2 _]%Forall_cons]; [|done]. rewrite take_ge by (rewrite length_drop; unfold blen; lia).
    split.
    + apply sending_plain; cbn [base scramble send_end cuts fst snd with_write writeOffset writeBuf]; [done|lia|done|].
      intros y Hy. rewrite <- Hoe in Hy. destruct (Hcov y Hy) as [?|Hcut]; [done|]. exfalso. unfold in_cuts in Hcut.
      rewrite !Exists_cons, Exists_nil in Hcut. unfold in_cut in Hcut. tauto.
    + intros _ Hp _. unfold proper_cuts, work. cbn [base scramble cuts fst snd with_write writeBuf]. split; [by apply Hpr|]. rewrite Hs, Hb, Hoe. cbv iota.
      assert (0 <= cuts_len [(cuts s).1; (cuts s).2]).
      { rewrite !cuts_len_cons. unfold cut_ok, cut_len in *. cbn. destruct (start (cuts s).1 =? _) eqn:?, (start (cuts s).2 =? _) eqn:?; lia. }
      unfold blen in *. rewrite length_drop. lia.
Qed.

Lemma next_cut_spec e o cs :
  Forall (cut_ok e) cs ->
  next_cut o cs = noCut \/ next_cut o cs ∈ cs /\ o < start (next_cut o cs) <= end_ (next_cut o cs) /\ end_ (next_cut o cs) <= e.
Proof.
  unfold next_cut. intros Hf. destruct (filter _ cs) as [|c l] eqn:E; [by left|]. right. cbn.
  assert (c ∈ filter (fun c => start c <> InvalidByteCount /\ o < start c) cs) as Hc by (rewrite E; left).
  apply list_elem_of_filter in Hc as [[H1 H2] H3]. split; [done|]. rewrite Forall_forall in Hf.
  destruct (Hf c H3) as [?|[? ?]]; [done|]. lia.
Qed.

Lemma pop_around total fs s maxLen :
  0 <= maxLen < 2 ^ 62 -> blen total < 2 ^ 62 -> sending total fs s -> scramble s = true -> send_end s <> 0 ->
  writeOffset (base s) <> send_end s -> pop_post total fs s maxLen (initial_PopCryptoFrame s maxLen).
Proof.
  intros Hm Ht [Hs|e Hs He|st Hs He Hb Hf Ho H1 H2 H0 Hc] Hs' He' Hoe; [congruence..|].
  unfold initial_PopCryptoFrame. rewrite Hs, (proj2 (Z.eqb_neq _ _) Hoe). cbn [negb]. set (o := writeOffset (base s)) in *.
  set (nc := next_cut _ _). pose proof (next_cut_spec (send_end s) o [(cuts s).1; (cuts s).2]) as Hnc. fold nc in Hnc.
  rewrite !Forall_cons in Hnc. specialize (Hnc (conj H1 (conj H2 (Forall_nil_2 _)))).
  set (mo := if _ =? InvalidByteCount then send_end s else _).
  assert (Hmo : o < mo <= send_end s /\ (start nc = mo -> nc ∈ [(cuts s).1; (cuts s).2] /\ mo <= end_ nc <= send_end s)).
  { unfold mo. destruct Hnc as [->|(Hin & Hn1 & Hn2)]; [cbn; unfold InvalidByteCount; lia|].
    rewrite (proj2 (Z.eqb_neq _ _)) by (unfold InvalidByteCount; lia). split; [lia|]. intros _. split; [done|lia]. }
  destruct (max_data_len o maxLen) as (m & -> & Hm0 & Hm1); [lia|done|]. cbn [wrap_err mbind res_bind].
  set (n := Z.min m _). assert (Hn : n <= mo - o) by (unfold n; lia). rewrite Hb. destruct (n <=? 0) eqn:En.
  { eexists None, _. split; [done|]. split; [done|]. rewrite app_nil_r. split; [by eapply sending_cuts|]. unfold n in En. lia. }
  destruct (slice_part total o n) as (d & -> & Hd & Hpart); [lia..|]. cbn [mbind res_bind]. eexists _, _. split; [done|].
  set (o' := if _ =? start nc then _ else _).
  assert (Ho' : o + n <= o' <= send_end s /\ (o' = o + n \/ start nc = o + n /\ o' = end_ nc /\ nc ∈ [(cuts s).1; (cuts s).2])).
  { unfold o'. destruct (o + n =? start nc) eqn:E; [|lia]. destruct Hnc as [Hnc|(Hin & Hn1 & Hn2)]; [|split; [lia|]; right; split; [lia|done]].
    rewrite Hnc in E. cbn in E. unfold InvalidByteCount in E. lia. }
  split; [by intros g [= <-]|]. split.
  - eapply (sending_cuts _ _ _ st); cbn [base scramble send_end cuts with_write writeOffset writeBuf]; try done; [lia..|].
    intros x Hx. destruct (decide (x < o)) as [Hlt|Hge].
    { destruct (Hc x) as [?|?]; [lia|left; by apply covered_snoc|by right]. }
    destruct (decide (x < o + n)); [left; apply covered_last; unfold carries; cbn; lia|]. right.
    destruct Ho' as [_ [?|(Hn1 & Hn2 & Hin)]]; [lia|]. assert (in_cut nc x) by (unfold in_cut, InvalidByteCount; lia).
    apply elem_of_cons in Hin as [Hin|Hin]; [left; by rewrite <- Hin|].
    apply list_elem_of_singleton in Hin. right. by rewrite <- Hin.
  - intros _ Hp _. split; [done|]. unfold work. cbn [base scramble cuts with_write writeOffset writeBuf]. rewrite Hs, ?Hb. fold o. cbv iota. lia.
Qed.

Lemma pop_sending total fs s maxLen :
  0 <= maxLen < 2 ^ 62 -> blen total < 2 ^ 62 -> sending total fs s ->
  pop_post total fs s maxLen (initial_PopCryptoFrame s maxLen).
Proof.
  intros Hm Ht Hs. destruct (scramble s) eqn:Es; [|by apply pop_plain].
  destruct (decide (send_end s = 0)); [by apply pop_wait|].
  destruct (decide (writeOffset (base s) = send_end s)); [by apply pop_skipped|by apply pop_around].
Qed.

(** ** Sequences of writes and packets *)

Lemma pack_sending total fs s maxLen :
  0 <= maxLen < 2 ^ 62 -> blen total < 2 ^ 62 -> sending total fs s ->
  pop_post total fs s maxLen (pack_frame s maxLen).
Proof.
  intros Hm Ht Hs. unfold pack_frame. destruct (initial_HasData s) eqn:E; [by apply pop_sending|].
  eexists None, s. split; [done|]. split; [done|]. rewrite app_nil_r, E. done.
Qed.

Lemma send_steps_ok total fs s ops :
  Forall op_ok ops -> blen (total ++ written ops) < 2 ^ 62 -> sending total fs s ->
  exists s' fs', send_steps s ops = Ok (s', fs') /\ Forall (part (total ++ written ops)) fs' /\
    sending (total ++ written ops) (fs ++ fs') s'.
Proof.
  intros Hok. revert total fs s. induction Hok as [|o ops Ho Hok IH]; intros total fs s Hl Hs; cbn [send_steps].
  { eexists s, []. by rewrite !app_nil_r. }
  destruct o as [p|maxLen]; cbn in Ho, Hl |- *.
  - destruct (write_sending total fs s p Ho Hs) as (s1 & err & -> & Hs1). cbn. rewrite app_assoc in Hl |- *. by apply IH.
  - destruct (pack_sending total fs s maxLen) as (f & s1 & -> & Hp & Hs1 & _); [done|rewrite blen_app in Hl; pose proof (blen_nonneg (written ops)); unfold written in *; lia|done|].
    cbn. destruct (IH total _ s1 Hl Hs1) as (s' & fs' & -> & Hf & Hs'). cbn. eexists _, _. split; [done|].
    rewrite app_assoc. split; [|done]. apply Forall_app. split; [|done].
    destruct f as [f|]; cbn; [|done]. constructor; [|done]. by apply part_app, Hp.
Qed.

Lemma sending_done total fs s :
  sending total fs s -> initial_HasData s = false ->
  (forall x, 0 <= x < blen total -> covered fs x) \/
  scramble s = true /\ writeOffset (base s) = 0 /\
  ((send_end s = 0 /\ exists e, Sni.findSNIAndECH total = Err e) \/
   (send_end s <> 0 /\ exists st, Sni.findSNIAndECH (take (Z.to_nat (send_end s)) total) = Ok st /\ st.1.1 = -1)).
Proof.
  unfold initial_HasData, HasData. intros [Hs Ho Hb Hc|e Hs He Hc Ho Hb Hf|st Hs He Hb Hf Ho H1 H2 H0 Hc]; rewrite Hs; cbn [andb].
  - intros Hz. left. intros x Hx. apply Hc. rewrite Hb in Hz. unfold blen in *. rewrite length_drop in Hz. lia.
  - intros _. right. split_and!; [done..|]. left. split; [done|]. by exists e.
  - destruct (_ && _) eqn:E; intros Hz; [|rewrite Hb in Hz; left; intros x Hx; lia].
    right. split_and!; [done|lia|]. right. split; [|exists st; split; [done|apply H0; lia]].
    intros Hz0. rewrite Hz0 in Hf. pose proof (Sni.findSNIAndECH_spec []) as Hx. by cbn in Hf.
Qed.

(** *** What the stream holds back *)

(** No beginning that was written was a complete ClientHello. *)
Definition no_hello (ops : list send_op) : Prop :=
  forall pre post, ops = pre ++ post -> written pre <> [] -> exists e, Sni.findSNIAndECH (written pre) = Err e.

(** The beginning of length [n] that was written is a ClientHello with a name or an ECH extension. *)
Definition hello_of (ops : list send_op) (n : Z) : Prop :=
  exists pre post st, ops = pre ++ post /\ written pre = take (Z.to_nat n) (written ops) /\
    Sni.findSNIAndECH (written pre) = Ok st /\ ~ (st.1.1 = -1 /\ st.2 = -1).

(** Where the stream is after [ops], as far as it may hold data back. *)
Record phase (scrambles : bool) (ops : list send_op) (fs : list Frames.CryptoFrame) (s : initialCryptoStream) : Prop := {
  ph_sending : sending (written ops) fs s;
  ph_scramble : scramble s = true -> scrambles = true;
  ph_wait : scramble s = true -> send_end s = 0 -> fs = [] /\ no_hello ops;
  ph_cuts : scramble s = true -> send_end s <> 0 -> (writeOffset (base s) = 0 -> fs = []) /\ hello_of ops (send_end s) }.

Lemma written_snoc ops o : written (ops ++ [o]) = written ops ++ match o with SWrite p => p | SPack _ => [] end.
Proof. unfold written. rewrite bind_app. cbn. by rewrite app_nil_r. Qed.

Lemma no_hello_snoc ops o :
  no_hello ops -> (written (ops ++ [o]) <> [] -> exists e, Sni.findSNIAndECH (written (ops ++ [o])) = Err e) -> no_hello (ops ++ [o]).
Proof.
  intros Hn Ho pre post Heq. destruct post as [|x post _] using rev_ind; [rewrite app_nil_r in Heq; subst pre; exact Ho|].
  rewrite app_assoc in Heq. apply app_inj_tail in Heq as [-> _]. by apply (Hn pre post).
Qed.

Lemma hello_of_snoc ops o n : 0 <= n <= blen (written ops) -> hello_of ops n -> hello_of (ops ++ [o]) n.
Proof.
  intros Hn (pre & post & st & -> & Hw & Hf). exists pre, (post ++ [o]), st. rewrite app_assoc. split; [done|]. split; [|done].
  rewrite written_snoc, take_app_le; [done|]. unfold blen in Hn. lia.
Qed.

Lemma write_phase b ops fs s p s' err :
  p <> [] -> phase b ops fs s -> initial_Write s p = Ok (s', err) -> phase b (ops ++ [SWrite p]) fs s'.
Proof.
  intros Hp [Hs Hb Hw Hc] H. destruct (write_sending (written ops) fs s p Hp Hs) as (s1 & err1 & H1 & Hs1). rewrite H in H1. injection H1 as <- <-.
  unfold initial_Write in H. cbn [scramble cuts base send_end] in H. destruct (scramble s) eqn:Es; cbn [negb] in H.
  2:{ injection H as <- _. split; [by rewrite written_snoc|done..]. }
  specialize (Hb eq_refl). destruct (decide (send_end s = 0)) as [E0|E0].
  - destruct (Hw eq_refl E0) as [-> Hn]. destruct Hs as [?|e _ _ Hcut Ho Hbuf Hf|st _ ? _ Hf]; [congruence| |rewrite E0 in Hf; pose proof (Sni.findSNIAndECH_spec []); by cbn in Hf].
    rewrite Hcut in H. cbn in H. rewrite Hbuf in H.
    destruct (Sni.findSNIAndECH (written ops ++ p)) as [[[sp sl] ep]|e'|] eqn:Ef; [| |done].
    + destruct (_ && _) eqn:Eb; injection H as <- _; (split; [by rewrite written_snoc| | |]); cbn; try done.
      * intros _ Hz. rewrite blen_app in Hz. pose proof (blen_nonneg (written ops)). destruct p; [done|]. unfold blen in *. cbn in Hz. lia.
      * intros _ _. split; [done|]. exists (ops ++ [SWrite p]), [], (sp, sl, ep). rewrite app_nil_r, written_snoc.
        split; [done|]. rewrite take_ge by (unfold blen; lia). split; [done|]. split; [done|]. cbn. lia.
    + assert (Hs' : s' = mkInitial (Write (base s) p) true (send_end s) (noCut, noCut)) by (destruct e'; by injection H as <- _).
      subst s'. split; [by rewrite written_snoc|done| |done]. intros _ _. split; [done|]. apply no_hello_snoc; [done|].
      intros _. exists e'. by rewrite written_snoc.
  - destruct (Hc eq_refl E0) as [Hfs Hh]. destruct Hs as [?|e _ He|st _ He Hbuf Hf Ho]; [congruence|congruence|].
    assert (Hs' : s' = mkInitial (Write (base s) p) true (send_end s) (cuts s)).
    { destruct (_ =? InvalidByteCount); [|by injection H as <- _]. cbn in H. rewrite Hbuf in H.
      rewrite <- (take_drop (Z.to_nat (send_end s)) (written ops)), <- app_assoc, (Sni.findSNIAndECH_more _ _ _ Hf) in H
        by (intros [_ ?]%app_nil; done). by injection H as <- _. }
    subst s'. split; [by rewrite written_snoc|done|done|]. cbn. intros _ _. split; [done|]. by apply hello_of_snoc.
Qed.

Lemma pack_phase b ops fs s maxLen f s' :
  0 <= maxLen < 2 ^ 62 -> blen (written ops) < 2 ^ 62 -> phase b ops fs s -> pack_frame s maxLen = Ok (f, s') ->
  phase b (ops ++ [SPack maxLen]) (fs ++ option_list f) s'.
Proof.
  intros Hm Hl [Hs Hb Hw Hc] H. destruct (pack_sending _ fs s maxLen Hm Hl Hs) as (f1 & s1 & H1 & _ & Hs1 & _). rewrite H in H1. injection H1 as <- <-.
  assert (Hwr : written (ops ++ [SPack maxLen]) = written ops) by (by rewrite written_snoc, app_nil_r).
  assert (Hsame : f = None -> s' = s -> phase b (ops ++ [SPack maxLen]) (fs ++ option_list f) s').
  { intros -> ->. rewrite app_nil_r. split; [by rewrite Hwr|done| |].
    - intros E1 E2. destruct (Hw E1 E2) as [-> Hn]. split; [done|]. apply no_hello_snoc; [done|]. rewrite Hwr. apply (Hn ops []). by rewrite app_nil_r.
    - intros E1 E2. destruct (Hc E1 E2) as [Hf Hh]. split; [done|]. apply hello_of_snoc; [|done]. destruct Hs as [?|? ? ?|]; [congruence..|lia]. }
  unfold pack_frame in H. destruct (initial_HasData s) eqn:Eh; [|by injection H as <- <-; apply Hsame].
  unfold initial_PopCryptoFrame in H. destruct (scramble s) eqn:Es; cbn [negb] in H.
  2:{ destruct (PopCryptoFrame _ _) as [[g c]| |]; [|done..]. injection H as <- <-. split; [by rewrite Hwr|done..]. }
  destruct Hs as [?|e _ He Hcut Ho|st _ He Hbuf Hf Ho K1 K2]; [congruence| |].
  { unfold initial_HasData in Eh. rewrite Es, Ho, Hcut in Eh. done. }
  assert (E0 : send_end s <> 0) by (intros E0; rewrite E0 in Hf; pose proof (Sni.findSNIAndECH_spec []); by cbn in Hf).
  destruct (Hc eq_refl E0) as [Hfs Hh]. assert (Hh' : hello_of (ops ++ [SPack maxLen]) (send_end s)) by (by apply hello_of_snoc).
  destruct (Z.eqb_spec (writeOffset (base s)) (send_end s)) as [Ee|Ee].
  - destruct (cut_loop _ _ _ _ _) as [[[[cs g] found]|]| |]; cbn [mbind res_bind] in H; [|by injection H as <- <-; apply Hsame|done..].
    destruct found; cbn [negb] in H; [injection H as <- <-|destruct (go_slice _ _ _); [|done..]; by injection H as <- <-; split; [rewrite Hwr|..]].
    split; [by rewrite Hwr|done|done|]. cbn. intros _ _. split; [congruence|done].
  - set (nc := next_cut _ _) in H. destruct (wrap_err _ _) as [m| |]; [|done..]. cbn [mbind res_bind] in H.
    destruct (_ <=? 0) eqn:En; [by injection H as <- <-; apply Hsame|]. destruct (go_slice _ _ _) as [d| |] eqn:Ed; [|done..]. cbn [mbind res_bind] in H.
    injection H as <- <-. split; [by rewrite Hwr|done|done|]. cbn. intros _ _. split; [|done]. intros Hz. exfalso.
    pose proof (next_cut_spec (send_end s) (writeOffset (base s)) [(cuts s).1; (cuts s).2]) as Hnc. fold nc in Hnc. rewrite !Forall_cons in Hnc.
    specialize (Hnc (conj K1 (conj K2 (Forall_nil_2 _)))). destruct (_ + _ =? start nc) eqn:Eo; [|lia].
    destruct Hnc as [Hnc|(_ & ? & _)]; [rewrite Hnc in Eo; cbn in Eo; unfold InvalidByteCount in Eo; lia|lia].
Qed.

Lemma written_mono ops ops' : blen (written ops) <= blen (written (ops ++ ops')).
Proof. unfold written. rewrite bind_app, blen_app. pose proof (blen_nonneg (ops' ≫= fun o => match o with SWrite p => p | SPack _ => [] end)). lia. Qed.

Lemma send_steps_phase b ops fs s ops' s' fs' :
  Forall op_ok ops' -> blen (written (ops ++ ops')) < 2 ^ 62 -> phase b ops fs s ->
  send_steps s ops' = Ok (s', fs') -> phase b (ops ++ ops') (fs ++ fs') s'.
Proof.
  intros Hok. revert ops fs s s' fs'. induction Hok as [|o ops' Ho Hok IH]; intros ops fs s s' fs' Hl Hs H; cbn [send_steps] in H.
  { injection H as <- <-. by rewrite !app_nil_r. }
  replace (ops ++ o :: ops') with ((ops ++ [o]) ++ ops') in Hl |- * by (by rewrite <- app_assoc).
  destruct o as [p|m].
  - destruct (initial_Write s p) as [[s1 err]| |] eqn:E; [|done..]. eapply IH; [done| |exact H]. by eapply write_phase.
  - destruct (pack_frame s m) as [[f s1]| |] eqn:E; [|done..]. cbn [mbind res_bind] in H.
    destruct (send_steps s1 ops') as [[s2 fs2]| |] eqn:E2; [|done..]. injection H as <- <-. rewrite app_assoc. eapply IH; [done| |exact E2].
    eapply pack_phase; [done| |done|done]. pose proof (written_mono ops ([SPack m] ++ ops')). rewrite app_assoc in *. lia.
Qed.

(** C34: the stream of Initial packets sends what was written, and nothing else.
    Whatever is written to it (less than 2^62 bytes, in non-empty writes) and whenever
    packets of whatever size ask for frames, it does not panic, and every frame carries
    a non-empty part of the bytes written at its offset.  When the stream says that it
    has no data, every byte written was sent, also those written after the ClientHello;
    or it is the scrambling stream of a client that has sent nothing at all, because no
    beginning that was written was accepted as a complete ClientHello, or because the
    one that was has an ECH extension but no host name. *)
Theorem crypto_stream_sends_parts client disabled ops :
  Forall op_ok ops -> blen (written ops) < 2 ^ 62 ->
  exists s fs, send_steps (newInitialCryptoStream client disabled) ops = Ok (s, fs) /\ Forall (part (written ops)) fs /\
    (initial_HasData s = false ->
     (forall x, 0 <= x < blen (written ops) -> covered fs x) \/
     client && negb disabled = true /\ fs = [] /\
     (no_hello ops \/ exists pre post l ep, ops = pre ++ post /\ Sni.findSNIAndECH (written pre) = Ok (-1, l, ep) /\ ep <> -1)).
Proof.
  intros Hok Hl. destruct (send_steps_ok [] [] (newInitialCryptoStream client disabled) ops) as (s & fs & Hs & Hp & Hse);
    [done|done|apply new_sending|]. exists s, fs. split; [done|]. split; [done|]. intros Hd.
  assert (Hph : phase (client && negb disabled) ops fs s).
  { apply (send_steps_phase _ [] [] (newInitialCryptoStream client disabled)); [done..| |done]. split; [apply new_sending|done|..].
    - intros _ _. split; [done|]. by intros [] [] ?.
    - by intros _ []. }
  destruct (sending_done _ _ _ Hse Hd) as [?|(Hsc & Hw & [[E _]|(E & st & Hst & Hn)])]; [by left|right..]; (split; [by apply (ph_scramble _ _ _ _ Hph)|]).
  - destruct (ph_wait _ _ _ _ Hph Hsc E). auto.
  - destruct (ph_cuts _ _ _ _ Hph Hsc E) as [Hf (pre & post & st' & -> & Hpre & Hst' & Hne)]. split; [by apply Hf|]. right.
    cbn [app] in Hst. rewrite <- Hpre, Hst' in Hst. injection Hst as <-. destruct st' as [[sp sl] ep]. cbn in Hn, Hne. subst sp.
    exists pre, post, sl, ep. split_and!; [done|done|]. tauto.
Qed.

(** A ClientHello with the extensions given. *)
Definition sample_hello (exts : list Z) : bytes :=
  let body := [3; 3] ++ repeat 7 32 ++ [0; 0; 2; 19; 1; 1; 0] ++ [0; Z.of_nat (length exts)] ++ exts in
  map byte_of_Z ([1; 0; 0; Z.of_nat (length body)] ++ body).

(** The name a.example, then an ECH extension. *)
Definition sample_exts : list Z :=
  [0; 0; 0; 14; 0; 12; 0; 0; 9; 97; 46; 101; 120; 97; 109; 112; 108; 101; 254; 13; 0; 20] ++ repeat 5 20.

Lemma crypto_stream_sends_parts_witness :
  let ops := [SWrite (take 20 (sample_hello sample_exts)); SPack 50; SWrite (drop 20 (sample_hello sample_exts)); SPack 50; SPack 30] in
  exists s fs, send_steps (newInitialCryptoStream true false) ops = Ok (s, fs) /\ Forall (part (written ops)) fs.
Proof.
  destruct (crypto_stream_sends_parts true false
    [SWrite (take 20 (sample_hello sample_exts)); SPack 50; SWrite (drop 20 (sample_hello sample_exts)); SPack 50; SPack 30])
    as (s & fs & H1 & H2 & _); [|vm_compute; reflexivity|exists s, fs; split; [exact H1|exact H2]].
  repeat constructor; cbn; (lia || discriminate).
Defined.

(** ** Sending a whole ClientHello *)

Lemma cut_len_nonneg c : proper c -> 0 <= cut_len c.
Proof. unfold proper, cut_len. destruct (_ =? _) eqn:E; lia. Qed.

Lemma work_nonneg total fs s : sending total fs s -> proper_cuts s -> 0 <= work s.
Proof.
  unfold proper_cuts, work. rewrite !Forall_cons, !cuts_len_cons. intros Hs (H1%cut_len_nonneg & H2%cut_len_nonneg & _).
  pose proof (blen_nonneg (writeBuf (base s))). cbn [cuts_len foldr].
  destruct Hs as [Hs|e Hs He Hc Ho|st Hs He Hb Hf Ho]; rewrite Hs; [lia..|]. rewrite Hb. lia.
Qed.

Lemma send_packs total fs s maxLens :
  blen total < 2 ^ 62 -> Forall (fun m => 11 <= m < 2 ^ 62) maxLens -> sending total fs s -> proper_cuts s ->
  work s <= Z.of_nat (length maxLens) ->
  exists s' fs', send_steps s (map SPack maxLens) = Ok (s', fs') /\ Forall (part total) fs' /\
    sending total (fs ++ fs') s' /\ initial_HasData s' = false.
Proof.
  intros Ht Hm. revert fs s. induction Hm as [|m ms Hm Hms IH]; intros fs s Hs Hp Hw; cbn in Hw |- *.
  - eexists s, []. split; [done|]. rewrite app_nil_r. split; [done|]. split; [done|].
    destruct (initial_HasData s) eqn:E; [|done]. exfalso.
    destruct (pop_sending total fs s 11) as (f & s' & _ & _ & Hs' & Hpr); [lia|done|done|].
    destruct (Hpr ltac:(lia) Hp E) as [Hp' Hw']. pose proof (work_nonneg _ _ _ Hs' Hp'). lia.
  - destruct (pack_sending total fs s m) as (f & s1 & E & Hpart & Hs1 & Hpr); [lia|done|done|]. rewrite E. cbn.
    destruct (initial_HasData s) eqn:Eh.
    + destruct (Hpr ltac:(lia) Hp eq_refl) as [Hp1 Hw1].
      destruct (IH _ s1 Hs1 Hp1 ltac:(lia)) as (s' & fs' & -> & Hf & Hs' & Hh). cbn. eexists _, _. split; [done|].
      rewrite app_assoc. split; [|done]. apply Forall_app. split; [|done]. destruct f; [|done]. constructor; [by apply Hpart|done].
    + unfold pack_frame in E. rewrite Eh in E. simplify_eq.
      assert (Hall : send_steps s1 (map SPack ms) = Ok (s1, [])).
      { clear -Eh. induction ms as [|m ms IH]; cbn; [done|]. unfold pack_frame at 1. rewrite Eh. cbn. by rewrite IH. }
      rewrite Hall. cbn. eexists _, []. split; [done|]. by rewrite app_nil_r in *.
Qed.

Lemma write_hello hello p l ep :
  Sni.findSNIAndECH hello = Ok (p, l, ep) -> p <> -1 -> 1 <= l ->
  exists s, initial_Write (newInitialCryptoStream true false) hello = Ok (s, None) /\ sending hello [] s /\ proper_cuts s /\
    work s <= 2 * blen hello + 17.
Proof.
  intros Hf Hp Hl. pose proof (Sni.findSNIAndECH_spec hello) as Hs. rewrite Hf in Hs. destruct Hs as [H4 [Hn He]].
  unfold Sni.in_name in Hn. assert (Hne : hello <> []) by (intros ->; done).
  destruct (write_sending [] [] (newInitialCryptoStream true false) hello Hne (new_sending _ _)) as (s & err & Hw & Hs).
  exists s. pose proof Hw as Hw'. unfold initial_Write in Hw. cbn [scramble newInitialCryptoStream base Write with_write newCryptoStream writeBuf app cuts noCut start fst snd andb negb] in Hw.
  rewrite Z.eqb_refl, Hf, (proj2 (Z.eqb_neq p (-1))) in Hw by done. cbn [andb] in Hw. injection Hw as <- <-.
  split; [done|]. split; [done|]. assert (0 <= Z.quot l 2 < l) by (split; [apply Z.quot_pos; lia|apply Z.quot_lt; lia]).
  unfold proper_cuts, work. rewrite !Forall_cons, !cuts_len_cons.
  cbn [base Write with_write newInitialCryptoStream newCryptoStream writeBuf writeOffset scramble cuts andb negb app].
  set (c1 := if 0 <? ep then _ else noCut). set (c0 := mkCut _ (p + l)).
  assert (H0 : proper c0 /\ cut_len c0 <= blen hello). { unfold proper, cut_len, InvalidByteCount. cbn. destruct (_ =? _); lia. }
  assert (H1 : proper c1 /\ cut_len c1 <= 16).
  { unfold c1, proper, cut_len, InvalidByteCount. destruct (0 <? ep) eqn:E; cbn; [destruct (_ =? _)|]; unfold InvalidByteCount; lia. }
  unfold sort_cuts. cbn [fst snd]. destruct H0, H1. destruct (_ <? 0); cbn [fst snd cuts_len foldr]; (split; [done|lia]).
Qed.

(** ** Receiving *)

(** What holds after the frames [fs] of [total] were handled and [out] was read. *)
Definition receiving (total : bytes) (fs : list Frames.CryptoFrame) (out : bytes) (s : baseCryptoStream) : Prop :=
  let q := queue s in
  FrameSorter.inv (str_of total) q /\ finished s = false /\
  out = FrameSorter.stream (str_of total) 0 (Z.to_nat (FrameSorter.readPos q)) /\
  (forall x, 0 <= x < Frames.MaxByteCount -> FrameSorter.in_gaps (FrameSorter.gaps q) x <-> ~ covered fs x) /\
  (length (FrameSorter.gaps q) <= S (length fs))%nat.

Lemma read_messages_spec total fs out fuel s :
  receiving total fs out s -> (size (FrameSorter.queue (queue s)) < fuel)%nat ->
  exists ms s', read_messages fuel s = Ok (ms, s') /\ receiving total fs (out ++ concat ms) s' /\
    FrameSorter.in_gaps (FrameSorter.gaps (queue s')) (FrameSorter.readPos (queue s')).
Proof.
  revert out s. induction fuel as [|fuel IH]; intros out s (Hi & Hn & Ho & Hg & Hl) Hf; [lia|]. cbn [read_messages].
  unfold GetCryptoData.
  destruct (FrameSorter.pop_spec _ _ Hi) as [(q & d & c & Hp & Hd & Ha & Hi' & Hg' & Hr & _)|[Hp Hin]]; rewrite Hp; cbn.
  - set (s1 := mkBaseStream q _ _ _ _). destruct (IH (out ++ d) s1) as (ms & s' & -> & Hs' & Hin).
    + split; [done|]. split; [done|]. cbn. rewrite Hg'. split; [|done].
      apply FrameSorter.agrees_stream in Ha. pose proof (FrameSorter.inv_read _ _ Hi). unfold blen in *.
      rewrite Hr, Ho, Z2Nat.inj_add, FrameSorter.stream_app, Z2Nat.id, Z.add_0_l, Nat2Z.id, <- Ha by lia. done.
    + unfold s1. clear IH. cbn. unfold FrameSorter.Pop in Hp. destruct (FrameSorter.queue (queue s) !! _) eqn:E; [|done].
      destruct (FrameSorter.gaps (queue s)); [done|]. destruct (_ <=? _); [done|]. injection Hp as <- _ _. cbn.
      assert (size (FrameSorter.queue (queue s)) <> 0)%nat by (intros Hz%map_size_empty_iff; rewrite Hz in E; done).
      rewrite map_size_delete_Some by done. lia.
    + cbn. eexists _, s'. split; [done|]. cbn. by rewrite <- app_assoc in Hs'.
  - eexists [], _. split; [done|]. cbn. rewrite app_nil_r. done.
Qed.

Lemma handle_spec total fs out s f :
  receiving total fs out s -> part total f -> blen total <= MaxCryptoStreamOffset -> (length fs < 999)%nat ->
  exists ms s', handleCryptoFrame s f = Ok (ms, s') /\ receiving total (fs ++ [f]) (out ++ concat ms) s' /\
    FrameSorter.in_gaps (FrameSorter.gaps (queue s')) (FrameSorter.readPos (queue s')).
Proof.
  intros (Hi & Hn & Ho & Hg & Hl) (Hf1 & Hf2 & Hf3 & Hf4) Ht Hlen. unfold handleCryptoFrame, HandleCryptoFrame.
  unfold MaxCryptoStreamOffset in *. rewrite (proj2 (Z.ltb_ge _ _)) by lia. rewrite Hn.
  destruct (FrameSorter.push_spec (str_of total) (queue s) (Frames.cr_Data f) (Frames.cr_Offset f) None Hi Hf2 Hf4)
    as (q & calls & err & Hp & Hpost); [unfold Frames.MaxByteCount; lia|].
  assert (Hcov : forall x, covered (fs ++ [f]) x <-> covered fs x \/ carries f x).
  { intros x. rewrite covered_app. unfold covered. setoid_rewrite list_elem_of_singleton. naive_solver. }
  unfold FrameSorter.Push. rewrite Hp.
  destruct err as [[]|]; cbn in Hpost; cbn [mbind res_bind wrap_err];
    [|exfalso; unfold FrameSorter.MaxStreamFrameSorterGaps in Hpost; lia|done|]; apply read_messages_spec; try lia.
  - destruct Hpost as (-> & -> & Hno). split; [done|]. split; [done|]. split; [done|]. cbn.
    split; [|rewrite length_app; cbn; lia]. intros x Hx. rewrite Hg, Hcov by done. split; [|tauto].
    intros Hnc [?|Hc]; [done|]. apply (Hno x Hc). by apply Hg.
  - destruct Hpost as (Hi' & Hr & Hno & _ & Hl'). split; [done|]. split; [done|]. cbn. rewrite Hr. split; [done|].
    split; [|rewrite length_app; cbn; lia]. intros x Hx. rewrite Hno, Hg, Hcov by done. unfold carries. tauto.
Qed.

Lemma receive_frames_spec total fs out s fs' :
  receiving total fs out s -> FrameSorter.in_gaps (FrameSorter.gaps (queue s)) (FrameSorter.readPos (queue s)) ->
  Forall (part total) fs' -> blen total <= MaxCryptoStreamOffset -> (length fs + length fs' < 1000)%nat ->
  exists ms s', receive s fs' = Ok (ms, s') /\ receiving total (fs ++ fs') (out ++ concat ms) s' /\
    FrameSorter.in_gaps (FrameSorter.gaps (queue s')) (FrameSorter.readPos (queue s')).
Proof.
  intros Hr Hin Hf Ht. revert fs out s Hr Hin. induction Hf as [|f fs' Hf Hfs IH]; intros fs out s Hr Hin Hl; cbn in Hl |- *.
  { eexists [], s. rewrite !app_nil_r. done. }
  destruct (handle_spec total fs out s f) as (ms & s1 & -> & Hr1 & Hin1); [done|done|done|lia|]. cbn.
  destruct (IH _ _ s1 Hr1 Hin1) as (ms' & s' & -> & Hr' & Hin'); [rewrite length_app; cbn; lia|]. cbn.
  eexists _, s'. split; [done|]. rewrite concat_app, app_assoc. by rewrite <- app_assoc in Hr'.
Qed.

Lemma new_receiving total : receiving total [] [] newCryptoStream.
Proof.
  destruct (FrameSorter.start_run_ok (str_of total)) as (Hi & Ho & Hg & _ & Hl).
  split; [done|]. split; [done|]. split; [done|]. split; [|done]. intros x Hx. etransitivity; [by apply Hg|].
  unfold covered, FrameSorter.pushed. setoid_rewrite elem_of_nil. naive_solver.
Qed.

(** Once every byte arrived, everything was read. *)
Lemma receiving_done total fs out s :
  receiving total fs out s -> FrameSorter.in_gaps (FrameSorter.gaps (queue s)) (FrameSorter.readPos (queue s)) ->
  Forall (part total) fs -> blen total <= MaxCryptoStreamOffset -> (forall x, 0 <= x < blen total -> covered fs x) ->
  out = total.
Proof.
  intros (Hi & _ & -> & Hg & _) Hin Hp Ht Hall. unfold MaxCryptoStreamOffset in Ht. pose proof (blen_nonneg total).
  pose proof (FrameSorter.read_lt_max _ _ Hi). pose proof (FrameSorter.inv_read _ _ Hi). set (r := FrameSorter.readPos _) in *.
  assert (Hge : ~ r < blen total). { intros Hlt. apply Hg in Hin; [|lia]. apply Hin, Hall. lia. }
  assert (Hle : ~ blen total < r).
  { intros Hlt. assert (Hn : ~ FrameSorter.in_gaps (FrameSorter.gaps (queue s)) (r - 1)).
    { intros Hx. apply (FrameSorter.inv_after _ _ Hi) in Hx. fold r in Hx. lia. }
    rewrite Hg in Hn by lia. apply Hn. intros (f & Hf & Hc). rewrite Forall_forall in Hp.
    destruct (Hp f Hf) as (_ & _ & ? & _). unfold carries in Hc. lia. }
  replace (Z.to_nat r) with (length total) by (unfold blen in *; lia). apply str_of_stream.
Qed.

(** C7: a scrambled ClientHello arrives.  Take a ClientHello of at most 16 KB with a
    non-empty host name (one with an ECH extension and no name is never sent).  A client
    that writes it at once cuts the name and the ECH extension out of it and sends the
    parts in packets that each have room for 11 bytes or more; after at most 2 n + 17 of
    them, for n bytes, it sent everything, and a server that is given its frames in any
    order and with any repetitions, fewer than 1000 in all, hands exactly the ClientHello
    to its TLS stack. *)
Theorem client_hello_delivered hello p l ep maxLens :
  Sni.findSNIAndECH hello = Ok (p, l, ep) -> p <> -1 -> 1 <= l -> blen hello <= MaxCryptoStreamOffset ->
  Forall (fun m => 11 <= m < 2 ^ 62) maxLens -> 2 * blen hello + 17 <= Z.of_nat (length maxLens) ->
  exists s fs, send_steps (newInitialCryptoStream true false) (SWrite hello :: map SPack maxLens) = Ok (s, fs) /\
    forall arrived, (forall f, f ∈ arrived <-> f ∈ fs) -> (length arrived < 1000)%nat ->
      exists ms s', receive newCryptoStream arrived = Ok (ms, s') /\ concat ms = hello.
Proof.
  intros Hf Hp Hl Hm Hms Hlen. destruct (write_hello hello p l ep Hf Hp Hl) as (s0 & Hw & Hs0 & Hp0 & Hw0).
  unfold MaxCryptoStreamOffset in Hm. destruct (send_packs hello [] s0 maxLens) as (s & fs & Hs & Hpart & Hse & Hd); [lia|done|done|done|lia|].
  exists s, fs. cbn [send_steps]. rewrite Hw. cbn [mbind res_bind]. split; [done|]. intros arrived Ha Hla.
  assert (Hpa : Forall (part hello) arrived). { rewrite Forall_forall in Hpart |- *. intros f Hin. by apply Hpart, Ha. }
  assert (Hin0 : FrameSorter.in_gaps (FrameSorter.gaps (queue newCryptoStream)) (FrameSorter.readPos (queue newCryptoStream))).
  { exists (FrameSorter.mkGap 0 Frames.MaxByteCount). split; [by left|]. done. }
  destruct (receive_frames_spec hello [] [] newCryptoStream arrived (new_receiving _)) as (ms & s' & Hr & Hrc & Hin); [done..|].
  exists ms, s'. split; [done|]. apply (receiving_done hello arrived _ s'); try done. intros x Hx.
  destruct (sending_done hello fs s Hse Hd) as [Hc|(_ & _ & [[_ [e He]]|(_ & st & Hst & Hst1)])]; [|congruence|].
  2:{ exfalso. set (n := Z.to_nat (send_end s)) in Hst. destruct (decide (length hello <= n)%nat) as [Hge|Hlt]; [rewrite take_ge, Hf in Hst by done; by injection Hst as <-|].
    rewrite <- (take_drop n hello) in Hf. rewrite (Sni.findSNIAndECH_more _ (drop n hello) _ Hst) in Hf; [done|].
    intros Hz. apply (f_equal length) in Hz. rewrite length_drop in Hz. cbn in Hz. lia. }
  destruct (Hc x Hx) as (f & Hfin & Hcar). exists f. split; [by apply Ha|done].
Qed.

Lemma client_hello_delivered_witness :
  exists s fs, send_steps (newInitialCryptoStream true false) (SWrite (sample_hello sample_exts) :: map SPack (repeat 20 250)) = Ok (s, fs) /\
    exists ms s', receive newCryptoStream (reverse fs) = Ok (ms, s') /\ concat ms = sample_hello sample_exts.
Proof.
  assert (Hf : Sni.findSNIAndECH (sample_hello sample_exts) = Ok (56, 9, 65)) by (vm_compute; reflexivity).
  destruct (client_hello_delivered (sample_hello sample_exts) 56 9 65 (repeat 20 250) Hf) as (s & fs & Hs & Hr);
    [lia|lia|vm_compute; discriminate|apply Forall_forall; intros x ->%list_elem_of_In%repeat_spec; lia|vm_compute; discriminate|].
  exists s, fs. split; [exact Hs|]. apply Hr.
  - intros f. apply elem_of_reverse.
  - assert (match send_steps (newInitialCryptoStream true false) (SWrite (sample_hello sample_exts) :: map SPack (repeat 20 250)) with
            | Ok (_, fs) => (length (reverse fs) <? 1000)%nat = true | _ => False end) as Hl by (vm_compute; reflexivity).
    rewrite Hs in Hl. by apply Nat.ltb_lt.
Defined.

(** A ClientHello with an ECH extension and no host name is never sent: the
    comparison leaves the cut that is not used first, where the stream looks for
    the cuts. *)
Theorem ech_without_name_never_sent hello ep ops :
  Sni.findSNIAndECH hello = Ok (-1, 0, ep) -> ep <> -1 -> Forall op_ok ops ->
  exists s, send_steps (newInitialCryptoStream true false) (SWrite hello :: ops) = Ok (s, []).
Proof.
  intros Hf He Hok. pose proof (Sni.findSNIAndECH_spec hello) as Hs. rewrite Hf in Hs. destruct Hs as [H4 [_ He']].
  cbn [send_steps]. unfold initial_Write. cbn [scramble newInitialCryptoStream base Write with_write newCryptoStream writeBuf app cuts noCut start fst snd andb negb].
  rewrite Z.eqb_refl, Hf, (proj2 (Z.eqb_neq ep (-1))), andb_false_r, (proj2 (Z.ltb_lt 0 ep)) by lia. cbn [mbind res_bind].
  assert (Hcuts : sort_cuts (mkCut (-1 + Z.quot 0 2) (-1 + 0), mkCut (ep + 1) (Z.min (ep + 1 + 16) (blen hello))) =
                  (noCut, mkCut (ep + 1) (Z.min (ep + 1 + 16) (blen hello)))).
  { unfold sort_cuts, cmp_cuts. cbn [fst snd start].
    rewrite (proj2 (Z.eqb_neq (ep + 1) _)), (proj2 (Z.ltb_lt (_ + _) (ep + 1))) by (unfold InvalidByteCount; change (Z.quot 0 2) with 0; lia). done. }
  rewrite Hcuts. set (s := mkInitial _ _ _ _).
  assert (Hi : scramble s = true /\ writeOffset (base s) = 0 /\ start (cuts s).1 = InvalidByteCount /\ exists r, writeBuf (base s) = hello ++ r).
  { do 3 (split; [reflexivity|]). exists []. by rewrite app_nil_r. }
  clearbody s. revert s Hi. induction Hok as [|o ops Ho Hops IH]; intros s (Hs & Hw & Hc & r & Hb); cbn [send_steps]; [by exists s|].
  destruct o as [p|m]; cbn in Ho.
  - unfold initial_Write. cbn [scramble cuts base Write with_write writeBuf]. rewrite Hs, Hc, Hb, <- app_assoc. cbn [negb].
    rewrite Z.eqb_refl, (Sni.findSNIAndECH_more _ _ _ Hf) by (intros [_ ?]%app_nil; done). cbn [mbind res_bind].
    apply IH. cbn. split_and!; [done..|]. exists (r ++ p). by rewrite Hb, app_assoc.
  - unfold pack_frame, initial_HasData. rewrite Hs, Hw, Hc. cbn. destruct (IH s) as (s' & ->); [eauto|]. by exists s'.
Qed.

Lemma ech_without_name_never_sent_witness :
  exists s, send_steps (newInitialCryptoStream true false) [SWrite (sample_hello ([254; 13; 0; 20] ++ repeat 5 20)); SPack 1200; SPack 1200] = Ok (s, []).
Proof.
  apply (ech_without_name_never_sent _ 47); [vm_compute; reflexivity|lia|repeat constructor; cbn; lia].
Defined.

End CryptoStream.
