(* ===== verification/SendStream.v ===== *)
(** * Send streams (src/quicfork/send_stream.go)

    The sending half of a stream: buffering of what the application writes,
    new and retransmitted STREAM frames, FIN, cancellation with a reliable
    prefix, and completion.  The mutex makes each operation atomic; [Write] is
    split where it waits, into its beginning and what it does when it is woken.
    The flow controller is used through an interface, which the controllers of
    FlowControl.v implement.  Contexts and the pool of frames are left out: a
    frame has one owner at any time. *)

From Stdlib Require Import ZifyBool.
From stdpp Require Import gmap.
From S2P Require Import Prelude GoBytes Varint Wire Frames FlowControl.
Local Open Scope Z_scope.

(** What a stream uses of its flow controller. *)
Class SendFlow (F : Type) := {
  SendWindowSize : F -> Z;
  AddBytesSent : F -> Z -> F;
  IsNewlyBlocked : F -> bool * F;
  UpdateSendWindow : F -> Z -> bool * F }.

(** What it relies on: there is a limit that never falls, the window is what is
    left of it at most, and only [AddBytesSent] uses it. *)
Class SendFlowLaws (F : Type) `{SendFlow F} := {
  used : F -> Z;
  limit : F -> Z;
  window_nonneg : forall c, 0 <= SendWindowSize c;
  window_le : forall c, used c <= limit c -> SendWindowSize c <= limit c - used c;
  used_sent : forall c n, used (AddBytesSent c n) = used c + n;
  limit_sent : forall c n, limit (AddBytesSent c n) = limit c;
  used_blocked : forall c, used (IsNewlyBlocked c).2 = used c;
  limit_blocked : forall c, limit (IsNewlyBlocked c).2 = limit c;
  used_update : forall c l, used (UpdateSendWindow c l).2 = used c;
  limit_update : forall c l, limit c <= limit (UpdateSendWindow c l).2 <= Z.max (limit c) l }.

(** A stream's controller with that of its connection. *)
#[export] Instance flow_control_send : SendFlow (FlowControl.streamFlowController * FlowControl.baseFlowController) := {
  SendWindowSize c := FlowControl.stream_SendWindowSize c.1 c.2;
  AddBytesSent c n := FlowControl.stream_AddBytesSent c.1 c.2 n;
  IsNewlyBlocked c :=
    let '(b, _, f) := FlowControl.IsNewlyBlocked (FlowControl.fc c.1) in
    (b, (FlowControl.mkStreamFC f (FlowControl.receivedFinalOffset c.1), c.2));
  UpdateSendWindow c l :=
    let '(b, f) := FlowControl.UpdateSendWindow (FlowControl.fc c.1) l in
    (b, (FlowControl.mkStreamFC f (FlowControl.receivedFinalOffset c.1), c.2)) }.

#[export] Instance flow_control_laws : SendFlowLaws (FlowControl.streamFlowController * FlowControl.baseFlowController).
Proof.
  refine {| used c := FlowControl.bytesSent (FlowControl.fc c.1); limit c := FlowControl.sendWindow (FlowControl.fc c.1) |};
    intros [s c]; cbn.
  - unfold FlowControl.stream_SendWindowSize, FlowControl.SendWindowSize. split_ifs; lia.
  - intros Hl. unfold FlowControl.stream_SendWindowSize, FlowControl.SendWindowSize. split_ifs; lia.
  - done.
  - done.
  - unfold FlowControl.IsNewlyBlocked. by destruct (_ || _).
  - unfold FlowControl.IsNewlyBlocked. by destruct (_ || _).
  - intros l. unfold FlowControl.UpdateSendWindow. by destruct (_ <? _).
  - intros l. unfold FlowControl.UpdateSendWindow. destruct (_ <? _) eqn:E; cbn; lia.
Defined.

Module SendStream.
Import Wire Frames.

Section stream.
Context {F : Type} {SF : SendFlow F}.

(** The causes of errors: the codes of the application and the reasons of a
    shutdown are numbers. *)
Record StreamError := mkStreamError { se_code : Z; se_remote : bool }.

(** [deadline] 0 is the zero time; [writeChan] says whether its one element is
    there. *)
Record SendStream := mkSendStream {
  numOutstandingFrames : Z;
  retransmissionQueue : list StreamFrame;
  streamID : Z;
  reliableSize : Z; writeOffset : Z;
  shutdownErr : option Z;
  resetErr : option StreamError;
  queuedResetStreamFrame : option ResetStreamFrame;
  supportsResetStreamAt : bool; finishedWriting : bool; finSent : bool;
  cancellationFlagged : bool; completed : bool;
  dataForWriting : option bytes;
  nextFrame : option StreamFrame;
  writeChan : bool;
  deadline : Z;
  flowController : F }.

Definition with_outstanding (s : SendStream) (n : Z) : SendStream :=
  mkSendStream n (retransmissionQueue s) (streamID s) (reliableSize s) (writeOffset s) (shutdownErr s) (resetErr s) (queuedResetStreamFrame s) (supportsResetStreamAt s) (finishedWriting s) (finSent s) (cancellationFlagged s) (completed s) (dataForWriting s) (nextFrame s) (writeChan s) (deadline s) (flowController s).
Definition with_queue (s : SendStream) (q : list StreamFrame) : SendStream :=
  mkSendStream (numOutstandingFrames s) q (streamID s) (reliableSize s) (writeOffset s) (shutdownErr s) (resetErr s) (queuedResetStreamFrame s) (supportsResetStreamAt s) (finishedWriting s) (finSent s) (cancellationFlagged s) (completed s) (dataForWriting s) (nextFrame s) (writeChan s) (deadline s) (flowController s).
Definition with_reliable (s : SendStream) (n : Z) : SendStream :=
  mkSendStream (numOutstandingFrames s) (retransmissionQueue s) (streamID s) n (writeOffset s) (shutdownErr s) (resetErr s) (queuedResetStreamFrame s) (supportsResetStreamAt s) (finishedWriting s) (finSent s) (cancellationFlagged s) (completed s) (dataForWriting s) (nextFrame s) (writeChan s) (deadline s) (flowController s).
Definition with_offset (s : SendStream) (n : Z) (c : F) : SendStream :=
  mkSendStream (numOutstandingFrames s) (retransmissionQueue s) (streamID s) (reliableSize s) n (shutdownErr s) (resetErr s) (queuedResetStreamFrame s) (supportsResetStreamAt s) (finishedWriting s) (finSent s) (cancellationFlagged s) (completed s) (dataForWriting s) (nextFrame s) (writeChan s) (deadline s) c.
Definition with_shutdown (s : SendStream) (e : option Z) : SendStream :=
  mkSendStream (numOutstandingFrames s) (retransmissionQueue s) (streamID s) (reliableSize s) (writeOffset s) e (resetErr s) (queuedResetStreamFrame s) (supportsResetStreamAt s) (finishedWriting s) (finSent s) (cancellationFlagged s) (completed s) (dataForWriting s) (nextFrame s) (writeChan s) (deadline s) (flowController s).
Definition with_reset (s : SendStream) (e : option StreamError) : SendStream :=
  mkSendStream (numOutstandingFrames s) (retransmissionQueue s) (streamID s) (reliableSize s) (writeOffset s) (shutdownErr s) e (queuedResetStreamFrame s) (supportsResetStreamAt s) (finishedWriting s) (finSent s) (cancellationFlagged s) (completed s) (dataForWriting s) (nextFrame s) (writeChan s) (deadline s) (flowController s).
Definition with_queued_reset (s : SendStream) (f : option ResetStreamFrame) : SendStream :=
  mkSendStream (numOutstandingFrames s) (retransmissionQueue s) (streamID s) (reliableSize s) (writeOffset s) (shutdownErr s) (resetErr s) f (supportsResetStreamAt s) (finishedWriting s) (finSent s) (cancellationFlagged s) (completed s) (dataForWriting s) (nextFrame s) (writeChan s) (deadline s) (flowController s).
Definition with_supports (s : SendStream) (b : bool) : SendStream :=
  mkSendStream (numOutstandingFrames s) (retransmissionQueue s) (streamID s) (reliableSize s) (writeOffset s) (shutdownErr s) (resetErr s) (queuedResetStreamFrame s) b (finishedWriting s) (finSent s) (cancellationFlagged s) (completed s) (dataForWriting s) (nextFrame s) (writeChan s) (deadline s) (flowController s).
Definition with_finished (s : SendStream) (b : bool) : SendStream :=
  mkSendStream (numOutstandingFrames s) (retransmissionQueue s) (streamID s) (reliableSize s) (writeOffset s) (shutdownErr s) (resetErr s) (queuedResetStreamFrame s) (supportsResetStreamAt s) b (finSent s) (cancellationFlagged s) (completed s) (dataForWriting s) (nextFrame s) (writeChan s) (deadline s) (flowController s).
Definition with_finSent (s : SendStream) (b : bool) : SendStream :=
  mkSendStream (numOutstandingFrames s) (retransmissionQueue s) (streamID s) (reliableSize s) (writeOffset s) (shutdownErr s) (resetErr s) (queuedResetStreamFrame s) (supportsResetStreamAt s) (finishedWriting s) b (cancellationFlagged s) (completed s) (dataForWriting s) (nextFrame s) (writeChan s) (deadline s) (flowController s).
Definition with_flagged (s : SendStream) (b : bool) : SendStream :=
  mkSendStream (numOutstandingFrames s) (retransmissionQueue s) (streamID s) (reliableSize s) (writeOffset s) (shutdownErr s) (resetErr s) (queuedResetStreamFrame s) (supportsResetStreamAt s) (finishedWriting s) (finSent s) b (completed s) (dataForWriting s) (nextFrame s) (writeChan s) (deadline s) (flowController s).
Definition with_completed (s : SendStream) (b : bool) : SendStream :=
  mkSendStream (numOutstandingFrames s) (retransmissionQueue s) (streamID s) (reliableSize s) (writeOffset s) (shutdownErr s) (resetErr s) (queuedResetStreamFrame s) (supportsResetStreamAt s) (finishedWriting s) (finSent s) (cancellationFlagged s) b (dataForWriting s) (nextFrame s) (writeChan s) (deadline s) (flowController s).
Definition with_data (s : SendStream) (d : option bytes) : SendStream :=
  mkSendStream (numOutstandingFrames s) (retransmissionQueue s) (streamID s) (reliableSize s) (writeOffset s) (shutdownErr s) (resetErr s) (queuedResetStreamFrame s) (supportsResetStreamAt s) (finishedWriting s) (finSent s) (cancellationFlagged s) (completed s) d (nextFrame s) (writeChan s) (deadline s) (flowController s).
Definition with_next (s : SendStream) (f : option StreamFrame) : SendStream :=
  mkSendStream (numOutstandingFrames s) (retransmissionQueue s) (streamID s) (reliableSize s) (writeOffset s) (shutdownErr s) (resetErr s) (queuedResetStreamFrame s) (supportsResetStreamAt s) (finishedWriting s) (finSent s) (cancellationFlagged s) (completed s) (dataForWriting s) f (writeChan s) (deadline s) (flowController s).
Definition with_deadline (s : SendStream) (t : Z) : SendStream :=
  mkSendStream (numOutstandingFrames s) (retransmissionQueue s) (streamID s) (reliableSize s) (writeOffset s) (shutdownErr s) (resetErr s) (queuedResetStreamFrame s) (supportsResetStreamAt s) (finishedWriting s) (finSent s) (cancellationFlagged s) (completed s) (dataForWriting s) (nextFrame s) (writeChan s) t (flowController s).
Definition with_flow (s : SendStream) (c : F) : SendStream :=
  mkSendStream (numOutstandingFrames s) (retransmissionQueue s) (streamID s) (reliableSize s) (writeOffset s) (shutdownErr s) (resetErr s) (queuedResetStreamFrame s) (supportsResetStreamAt s) (finishedWriting s) (finSent s) (cancellationFlagged s) (completed s) (dataForWriting s) (nextFrame s) (writeChan s) (deadline s) c.
Definition with_chan (s : SendStream) (b : bool) : SendStream :=
  mkSendStream (numOutstandingFrames s) (retransmissionQueue s) (streamID s) (reliableSize s) (writeOffset s) (shutdownErr s) (resetErr s) (queuedResetStreamFrame s) (supportsResetStreamAt s) (finishedWriting s) (finSent s) (cancellationFlagged s) (completed s) (dataForWriting s) (nextFrame s) b (deadline s) (flowController s).

Definition newSendStream (id : Z) (c : F) (supports : bool) : SendStream :=
  mkSendStream 0 [] id 0 0 None None None supports false false false false None None false 0 c.

(** What a stream tells its [streamSender]. *)
Inductive note := onHasStreamData | onHasStreamControlFrame | onStreamCompleted.

Definition signalWrite (s : SendStream) : SendStream := with_chan s true.

Definition dlen (s : SendStream) : Z := match dataForWriting s with Some d => blen d | None => 0 end.

Definition is_Some_b {A} (o : option A) : bool := match o with Some _ => true | None => false end.

Definition reliableOffset (s : SendStream) : Z := if supportsResetStreamAt s then reliableSize s else 0.

Definition isNewlyCompleted (s : SendStream) : bool * SendStream :=
  if completed s then (false, s)
  else if match nextFrame s with Some f => 0 <? blen (Data f) | None => false end then (false, s)
  else if (0 <? numOutstandingFrames s) || (0 <? Z.of_nat (length (retransmissionQueue s))) || is_Some_b (queuedResetStreamFrame s)
  then (false, s)
  else if finSent s then (true, with_completed s true)
  else if is_Some_b (resetErr s) && (cancellationFlagged s || finishedWriting s) then (true, with_completed s true)
  else (false, s).

Definition completed_note (b : bool) : list note := if b then [onStreamCompleted] else [].

(** ** Writing *)

Inductive werror := errShutdown (e : Z) | errReset (e : StreamError) | errClosed | errDeadline.

(** [Write] returns a count and an error, or waits. *)
Inductive wresult := WReturn (n : Z) (err : option werror) | WBlocked.

Definition canBufferStreamFrame (s : SendStream) : bool :=
  let l := match nextFrame s with Some f => blen (Data f) | None => 0 end in
  l + dlen s <=? MaxPacketBufferSize.

Definition expired (s : SendStream) (now : Z) : bool := negb (deadline s =? 0) && negb (now <? deadline s).

(** The frame the data is copied to: a frame of the pool, or the one there is.
    Reslicing a buffer of the pool beyond its capacity panics. *)
Definition buffer (s : SendStream) (d : bytes) : StreamFrame :=
  match nextFrame s with
  | None => mkStream (streamID s) (writeOffset s) d false true true
  | Some f => mkStream (StreamID f) (Offset f) (Data f ++ d) (Fin f) (DataLenPresent f) (fromPool f)
  end.

(** After the loop of [write]. *)
Definition write_end (s : SendStream) (plen n : Z) : SendStream * wresult * list note :=
  if n =? plen then (s, WReturn n None, [])
  else match shutdownErr s, resetErr s with
  | Some e, _ => (s, WReturn n (Some (errShutdown e)), [])
  | None, Some e =>
      let '(b, s) := isNewlyCompleted (with_flagged s true) in (s, WReturn n (Some (errReset e)), completed_note b)
  | None, None => (s, WReturn n None, [])
  end.

(** One iteration of the loop, up to where it waits for [writeChan]; [plen] is
    the length of the data given to [Write], [notified] says whether the sender was
    told about it before. *)
Definition write_iter (s : SendStream) (now plen : Z) (notified : bool) : SendStream * wresult * list note :=
  let notes := if notified then [] else [onHasStreamData] in
  if canBufferStreamFrame s && (0 <? dlen s) then
    (with_data (with_next s (Some (buffer s (default [] (dataForWriting s))))) None, WReturn plen None, notes)
  else
    let n := plen - dlen s in
    if expired s now then (with_data s None, WReturn n (Some errDeadline), [])
    else if negb (is_Some_b (dataForWriting s)) || is_Some_b (shutdownErr s) || is_Some_b (resetErr s)
    then write_end s plen n
    else (s, WBlocked, notes).

(** The clock is read twice. *)
Definition write (s : SendStream) (now now' : Z) (p : bytes) : SendStream * wresult * list note :=
  match resetErr s, shutdownErr s with
  | Some e, _ =>
      let '(b, s) := isNewlyCompleted (with_flagged s true) in (s, WReturn 0 (Some (errReset e)), completed_note b)
  | None, Some e => (s, WReturn 0 (Some (errShutdown e)), [])
  | None, None =>
      if finishedWriting s then (s, WReturn 0 (Some errClosed), [])
      else if expired s now then (s, WReturn 0 (Some errDeadline), [])
      else if blen p =? 0 then (s, WReturn 0 None, [])
      else write_iter (with_data s (Some p)) now' (blen p) false
  end.

(** A waiting [Write] takes the element of [writeChan]; with a deadline it may
    also be woken by its timer. *)
Definition wake (s : SendStream) (timer : bool) (now plen : Z) : SendStream * wresult * list note :=
  write_iter (if timer then s else with_chan s false) now plen true.

(** ** Frames *)

Definition getDataForWriting (s : SendStream) (f : StreamFrame) (maxBytes : Z) : res werr (StreamFrame * SendStream) :=
  let d := default [] (dataForWriting s) in
  if blen d <=? maxBytes then
    if MaxPacketBufferSize <? blen d then Panic else
    Ok (mkStream (StreamID f) (Offset f) d (Fin f) (DataLenPresent f) (fromPool f), signalWrite (with_data s None))
  else
    if MaxPacketBufferSize <? maxBytes then Panic else
    head ← go_slice d 0 maxBytes;
    rest ← go_slice d maxBytes (blen d);
    let s := with_data s (Some rest) in
    Ok (mkStream (StreamID f) (Offset f) head (Fin f) (DataLenPresent f) (fromPool f),
        if canBufferStreamFrame s then signalWrite s else s).

Definition popNewStreamFrameWithoutBuffer (s : SendStream) (f : StreamFrame) (maxBytes sendWindow : Z)
    : res werr (StreamFrame * SendStream * bool) :=
  let more (s : SendStream) := is_Some_b (dataForWriting s) || is_Some_b (nextFrame s) || finishedWriting s in
  maxDataLen ← MaxDataLenStreamFrame f maxBytes;
  if maxDataLen =? 0 then Ok (f, s, more s) else
  '(f, s) ← getDataForWriting s f (Z.min maxDataLen sendWindow);
  Ok (f, s, more s).

Definition popNewStreamFrame (s : SendStream) (maxBytes maxDataLen : Z) : res werr (option StreamFrame * SendStream * bool) :=
  match nextFrame s with
  | Some f =>
      room ← MaxDataLenStreamFrame f maxBytes;
      let n := Z.min maxDataLen room in
      if n =? 0 then Ok (None, s, true) else
      if n <? blen (Data f) then
        if MaxPacketBufferSize <? blen (Data f) - n then Panic else
        rest ← go_slice (Data f) n (blen (Data f));
        head ← go_slice (Data f) 0 n;
        Ok (Some (mkStream (StreamID f) (Offset f) head (Fin f) (DataLenPresent f) (fromPool f)),
            with_next s (Some (mkStream (streamID s) (writeOffset s + n) rest false true true)), true)
      else
        let s := signalWrite (with_next s None) in
        Ok (Some f, s, is_Some_b (dataForWriting s))
  | None =>
      '(f, s, more) ← popNewStreamFrameWithoutBuffer s (mkStream (streamID s) (writeOffset s) [] false true true) maxBytes maxDataLen;
      Ok (if (blen (Data f) =? 0) && negb (Fin f) then None else Some f, s, more)
  end.

Definition maybeGetRetransmission (s : SendStream) (f : StreamFrame) (q : list StreamFrame) (maxBytes : Z)
    : res werr (option StreamFrame * SendStream * bool) :=
  '(newFrame, needsSplit, f') ← SplitStreamFrame f maxBytes;
  if (needsSplit : bool) then Ok (newFrame, with_queue s (f' :: q), true)
  else Ok (Some f', with_queue s q, 0 <? Z.of_nat (length q)).

Definition set_fin (f : StreamFrame) (fin : bool) : StreamFrame :=
  mkStream (StreamID f) (Offset f) (Data f) fin (DataLenPresent f) (fromPool f).

(** The part after the retransmissions. *)
Definition popNew (s : SendStream) (maxBytes : Z)
    : res werr (option StreamFrame * option StreamDataBlockedFrame * SendStream * bool) :=
  if (dlen s =? 0) && negb (is_Some_b (nextFrame s)) then
    if finishedWriting s && negb (finSent s) then
      Ok (Some (mkStream (streamID s) (writeOffset s) [] true true false), None, with_finSent s true, false)
    else Ok (None, None, s, false)
  else
    let window := SendWindowSize (flowController s) in
    if window =? 0 then Ok (None, None, s, true) else
    let reliable := reliableOffset s in
    let reset := is_Some_b (resetErr s) in
    let maxDataLen := if reset && (0 <? reliable) then Z.min window (reliable - writeOffset s) else window in
    '(f, s, more) ← popNewStreamFrame s maxBytes maxDataLen;
    match f with
    | None => Ok (None, None, s, more)
    | Some f =>
        let n := blen (Data f) in
        let s := if 0 <? n then with_offset s (writeOffset s + n) (AddBytesSent (flowController s) n) else s in
        let more := if reset && (reliable <=? writeOffset s) then false else more in
        let '(blocked, s) :=
          if n =? maxDataLen then
            let '(b, c) := IsNewlyBlocked (flowController s) in
            (if b then Some (mkStreamDataBlocked (streamID s) (writeOffset s)) else None, with_flow s c)
          else (None, s) in
        let fin := finishedWriting s && negb (is_Some_b (dataForWriting s)) && negb (is_Some_b (nextFrame s)) && negb (finSent s) in
        Ok (Some (set_fin f fin), blocked, if fin then with_finSent s true else s, more)
    end.

Definition popNewOrRetransmittedStreamFrame (s : SendStream) (maxBytes : Z)
    : res werr (option StreamFrame * option StreamDataBlockedFrame * SendStream * bool) :=
  if is_Some_b (shutdownErr s) then Ok (None, None, s, false)
  else if is_Some_b (resetErr s) &&
          ((reliableOffset s =? 0) || ((reliableOffset s <=? writeOffset s) && match retransmissionQueue s with [] => true | _ => false end))
  then Ok (None, None, s, false)
  else match retransmissionQueue s with
  | [] => popNew s maxBytes
  | f :: q =>
      '(g, s', more) ← maybeGetRetransmission s f q maxBytes;
      match g with
      | None => if (more : bool) then Ok (None, None, s', true) else popNew s' maxBytes
      | Some g => Ok (Some g, None, s', true)
      end
  end.

Definition popStreamFrame (s : SendStream) (maxBytes : Z)
    : res werr (option StreamFrame * option StreamDataBlockedFrame * SendStream * bool) :=
  '(f, blocked, s, more) ← popNewOrRetransmittedStreamFrame s maxBytes;
  Ok (f, blocked, match f with Some _ => with_outstanding s (numOutstandingFrames s + 1) | None => s end, more).

(** ** Closing and cancelling *)

Definition Close (s : SendStream) : SendStream * option unit * list note :=
  if is_Some_b (shutdownErr s) || finishedWriting s then (s, None, [])
  else
    let cancelled := is_Some_b (resetErr s) in
    let s := with_finished s true in
    let '(b, s) := isNewlyCompleted (if cancelled then with_flagged s true else s) in
    (s, if cancelled then Some tt else None, completed_note b ++ if cancelled then [] else [onHasStreamData]).

Definition SetReliableBoundary (s : SendStream) : SendStream :=
  with_reliable s (writeOffset s + match nextFrame s with Some f => blen (Data f) | None => 0 end).

Definition returnFramesToPool (s : SendStream) : SendStream := with_next (with_queue s []) None.

(** The part of a frame before the reliable offset. *)
Definition truncate (r : Z) (f : StreamFrame) : StreamFrame :=
  if Offset f + blen (Data f) <=? r then f
  else mkStream (StreamID f) (Offset f) (take (Z.to_nat (r - Offset f)) (Data f)) (Fin f) (DataLenPresent f) (fromPool f).

Definition truncate_queue (r : Z) (q : list StreamFrame) : list StreamFrame :=
  truncate r <$> filter (fun f => Offset f < r) q.

Definition CancelWrite (s : SendStream) (errorCode : Z) : SendStream * list note :=
  if is_Some_b (shutdownErr s) then (s, [])
  else
    let s := with_flagged s true in
    if is_Some_b (resetErr s) then let '(b, s) := isNewlyCompleted s in (s, completed_note b)
    else
      let s := with_reset s (Some (mkStreamError errorCode false)) in
      let r := reliableOffset s in
      let s := if r =? 0 then returnFramesToPool (with_outstanding s 0) else s in
      let s := with_queued_reset s (Some (mkResetStream (streamID s) errorCode (Z.max (writeOffset s) r) r)) in
      let s :=
        if 0 <? r then
          with_queue
            (with_next s (match nextFrame s with
                          | Some f => if r <=? Offset f then None else Some (truncate r f)
                          | None => None end))
            (truncate_queue r (retransmissionQueue s))
        else s in
      (signalWrite s, [onHasStreamControlFrame]).

Definition enableResetStreamAt (s : SendStream) : SendStream := with_supports s true.

Definition updateSendWindow (s : SendStream) (l : Z) : SendStream * list note :=
  let '(updated, c) := UpdateSendWindow (flowController s) l in
  let s := with_flow s c in
  (s, if updated && (is_Some_b (dataForWriting s) || is_Some_b (nextFrame s)) then [onHasStreamData] else []).

Definition handleStopSendingFrame (s : SendStream) (errorCode : Z) : SendStream * list note :=
  if is_Some_b (shutdownErr s) then (s, [])
  else if is_Some_b (resetErr s) && (reliableOffset s =? 0) then (s, [])
  else
    let s := returnFramesToPool (with_outstanding (with_reliable s 0) 0) in
    let e := default (mkStreamError errorCode true) (resetErr s) in
    let s := with_reset s (Some e) in
    let s := with_queued_reset s (Some (mkResetStream (streamID s) (se_code e) (writeOffset s) 0)) in
    (signalWrite s, [onHasStreamControlFrame]).

Definition getControlFrame (s : SendStream) : option ResetStreamFrame * SendStream :=
  match queuedResetStreamFrame s with
  | None => (None, s)
  | Some f => (Some f, with_queued_reset (with_outstanding s (numOutstandingFrames s + 1)) None)
  end.

Definition SetWriteDeadline (s : SendStream) (t : Z) : SendStream := signalWrite (with_deadline s t).

Definition closeForShutdown (s : SendStream) (e : Z) : SendStream :=
  signalWrite
    (if negb (is_Some_b (shutdownErr s)) && negb (finishedWriting s)
     then returnFramesToPool (with_shutdown s (Some e)) else s).

(** ** Acknowledgements and losses *)

(** [s.numOutstandingFrames--] with the check for a negative number. *)
Definition outstanding_done (s : SendStream) : res werr SendStream :=
  let n := numOutstandingFrames s - 1 in
  if n <? 0 then Panic else Ok (with_outstanding s n).

Definition stream_OnAcked (s : SendStream) : res werr (SendStream * list note) :=
  if is_Some_b (resetErr s) && (reliableOffset s =? 0) then Ok (s, [])
  else
    s ← outstanding_done s;
    let '(b, s) := isNewlyCompleted s in Ok (s, completed_note b).

Definition stream_OnLost (s : SendStream) (sf : StreamFrame) : res werr (SendStream * list note) :=
  let r := reliableOffset s in
  if is_Some_b (resetErr s) && (r =? 0) then Ok (s, [])
  else
    s ← outstanding_done s;
    let reset := is_Some_b (resetErr s) && (0 <? r) in
    if reset && (r <=? Offset sf) then
      let '(b, s) := isNewlyCompleted s in Ok (s, completed_note b)
    else
      let sf := if reset then truncate r sf else sf in
      let sf := mkStream (StreamID sf) (Offset sf) (Data sf) (Fin sf) true (fromPool sf) in
      Ok (with_queue s (retransmissionQueue s ++ [sf]), [onHasStreamData]).

Definition reset_OnAcked (s : SendStream) (f : ResetStreamFrame) : res werr (SendStream * list note) :=
  if negb (ReliableSize f =? reliableOffset s) then Ok (s, [])
  else
    s ← outstanding_done s;
    let '(b, s) := isNewlyCompleted s in Ok (s, completed_note b).

Definition reset_OnLost (s : SendStream) (f : ResetStreamFrame) : SendStream * list note :=
  if negb (ReliableSize f =? reliableOffset s) then (s, [])
  else (with_outstanding (with_queued_reset s (Some f)) (numOutstandingFrames s - 1), [onHasStreamControlFrame]).

(** ** The outcomes of [popStreamFrame] *)

Context {FL : SendFlowLaws F}.

Definition next_data (s : SendStream) : bytes := match nextFrame s with Some f => Data f | None => [] end.

Definition next_ok (s : SendStream) : Prop :=
  forall f, nextFrame s = Some f ->
    StreamID f = streamID s /\ Offset f = writeOffset s /\ 0 < blen (Data f) <= MaxPacketBufferSize /\ DataLenPresent f = true.

(** There is something to send. *)
Definition to_send (s : SendStream) : Prop :=
  shutdownErr s = None /\
  match resetErr s with
  | None => retransmissionQueue s <> [] \/ nextFrame s <> None \/ dataForWriting s <> None \/ (finishedWriting s = true /\ finSent s = false)
  | Some _ => 0 < reliableOffset s /\ (retransmissionQueue s <> [] \/ writeOffset s < reliableOffset s)
  end.

(** A frame cut in two. *)
Definition cut (f g f' : StreamFrame) : Prop :=
  Data g ++ Data f' = Data f /\ Data g <> [] /\ Data f' <> [] /\ Offset g = Offset f /\ Offset f' = Offset f + blen (Data g) /\
  StreamID g = StreamID f /\ StreamID f' = StreamID f /\ Fin g = false /\ Fin f' = Fin f.

Definition with_rest (s : SendStream) (data : option bytes) (next : option StreamFrame) (chan : bool) : SendStream :=
  mkSendStream (numOutstandingFrames s) (retransmissionQueue s) (streamID s) (reliableSize s) (writeOffset s) (shutdownErr s) (resetErr s) (queuedResetStreamFrame s) (supportsResetStreamAt s) (finishedWriting s) (finSent s) (cancellationFlagged s) (completed s) data next chan (deadline s) (flowController s).

Definition after_new (s : SendStream) (n : Z) (data : option bytes) (next : option StreamFrame) (chan : bool) (c : F) (fin : bool) : SendStream :=
  mkSendStream (numOutstandingFrames s) (retransmissionQueue s) (streamID s) (reliableSize s) (writeOffset s + n) (shutdownErr s) (resetErr s) (queuedResetStreamFrame s) (supportsResetStreamAt s) (finishedWriting s) (finSent s || fin) (cancellationFlagged s) (completed s) data next chan (deadline s) c.

(** The bytes [d] taken from the buffered frame, or from the data of the [Write] in
    progress: what is left of both, and whether the writer is woken. *)
Inductive takes (s : SendStream) (d : bytes) : option bytes -> option StreamFrame -> bool -> Prop :=
| take_next f :
    nextFrame s = Some f -> Data f = d -> takes s d (dataForWriting s) None true
| take_part f rest :
    nextFrame s = Some f -> Data f = d ++ rest -> rest <> [] ->
    takes s d (dataForWriting s) (Some (mkStream (streamID s) (writeOffset s + blen d) rest false true true)) (writeChan s)
| take_data :
    nextFrame s = None -> resetErr s = None -> dataForWriting s = Some d -> takes s d None None true
| take_data_part rest :
    nextFrame s = None -> resetErr s = None -> dataForWriting s = Some (d ++ rest) -> rest <> [] ->
    takes s d (Some rest) None (writeChan s || (blen rest <=? MaxPacketBufferSize)).

Definition fin_now (s : SendStream) (data : option bytes) (next : option StreamFrame) : bool :=
  finishedWriting s && negb (is_Some_b data) && negb (is_Some_b next) && negb (finSent s).

Inductive pop_case (s : SendStream) : option StreamFrame -> SendStream -> Prop :=
| pop_none : pop_case s None s
| pop_retransmit f q :
    retransmissionQueue s = f :: q -> pop_case s (Some f) (with_queue s q)
| pop_split f q g f' :
    retransmissionQueue s = f :: q -> cut f g f' -> pop_case s (Some g) (with_queue s (f' :: q))
| pop_fin :
    resetErr s = None -> retransmissionQueue s = [] -> nextFrame s = None -> dataForWriting s = None ->
    finishedWriting s = true -> finSent s = false ->
    pop_case s (Some (mkStream (streamID s) (writeOffset s) [] true true false)) (with_finSent s true)
| pop_new d data next chan c pool :
    retransmissionQueue s = [] -> takes s d data next chan -> 0 < blen d <= MaxPacketBufferSize ->
    blen d <= SendWindowSize (flowController s) -> (resetErr s <> None -> blen d <= reliableOffset s - writeOffset s) ->
    used c = used (flowController s) + blen d -> limit c = limit (flowController s) ->
    pop_case s (Some (mkStream (streamID s) (writeOffset s) d (fin_now s data next) true pool))
      (after_new s (blen d) data next chan c (fin_now s data next)).

(** What [pop] relies on. *)
Record pop_ok (s : SendStream) : Prop := {
  po_id : Varint.vrange (streamID s);
  po_off : 0 <= writeOffset s;
  po_used : used (flowController s) = writeOffset s;
  po_limit : writeOffset s <= limit (flowController s) <= MaxByteCount;
  po_next : next_ok s;
  po_data : dataForWriting s <> Some [];
  po_queue : Forall stream_ok (retransmissionQueue s);
  po_rel : 0 <= reliableOffset s;
  po_reliable : resetErr s <> None -> shutdownErr s = None -> reliableOffset s <= writeOffset s + blen (next_data s) }.

Lemma room_nonneg lp h m : 0 <= h -> 0 <= Frames.room lp h m.
Proof.
  intros Hh. unfold Frames.room. destruct (_ <? 0) eqn:E; [lia|]. destruct lp; [|lia].
  destruct (negb _) eqn:E2; [|lia]. rewrite venc_len in E2 by lia. destruct (_ <=? 63) eqn:E3; lia.
Qed.

Lemma room_some h m : 0 <= h <= 17 -> 19 <= m -> 0 < Frames.room true h m.
Proof.
  intros Hh Hm. unfold Frames.room. destruct (_ <? 0) eqn:E; [lia|]. rewrite venc_len by lia.
  destruct (_ <=? 63) eqn:E3; cbn; [lia|]. destruct (negb _); lia.
Qed.

Lemma hdr_bounds f : Varint.vrange (StreamID f) -> Varint.vrange (Offset f) -> 2 <= stream_hdr f <= 17.
Proof.
  intros H1 H2. unfold stream_hdr. pose proof (Varint.blen_venc _ H1). pose proof (Varint.blen_venc _ H2).
  destruct (_ =? 0); lia.
Qed.

Lemma after_take (d : bytes) n : 0 < n < blen d ->
  go_slice (E:=werr) d 0 n = Ok (take (Z.to_nat n) d) /\ go_slice (E:=werr) d n (blen d) = Ok (drop (Z.to_nat n) d) /\
  blen (take (Z.to_nat n) d) = n /\ drop (Z.to_nat n) d <> [] /\ blen (drop (Z.to_nat n) d) = blen d - n.
Proof.
  intros Hn. destruct (cut_data d n Hn) as (H1 & H2 & _ & H4 & _ & H6). split_and!; try done.
  unfold blen in *. rewrite length_drop. lia.
Qed.

(** [popNewStreamFrame]: nothing when no byte fits, else a non-empty part of the data. *)
Lemma popNewStreamFrame_spec s maxBytes w :
  pop_ok s -> 0 <= maxBytes <= MaxPacketBufferSize -> 0 < w ->
  nextFrame s <> None \/ (nextFrame s = None /\ resetErr s = None /\ dataForWriting s <> None) ->
  exists f s' more, popNewStreamFrame s maxBytes w = Ok (f, s', more) /\
  match f with
  | None => s' = s /\ more = true /\ maxBytes < 19
  | Some f => exists d data next chan fin pool, takes s d data next chan /\ 0 < blen d <= MaxPacketBufferSize /\ blen d <= w /\
      f = mkStream (streamID s) (writeOffset s) d fin true pool /\
      s' = with_rest s data next chan /\ (more = false -> data = None /\ next = None)
  end.
Proof.
  intros Hs Hm Hw Hsome. pose proof (po_id _ Hs) as Hid. unfold popNewStreamFrame, MaxPacketBufferSize in *.
  assert (Hoff : Varint.vrange (writeOffset s)).
  { destruct Hs as [_ ? _ ? _ _ _ _ _]. unfold Varint.vrange, Varint.maxVarInt8, MaxByteCount in *. lia. }
  destruct (nextFrame s) as [f|] eqn:En.
  - destruct (po_next _ Hs f En) as (Hfi & Hfo & Hfl & Hfp). unfold MaxPacketBufferSize in Hfl.
    assert (Varint.vrange (StreamID f) /\ Varint.vrange (Offset f)) as [Hi Ho] by (by rewrite Hfi, Hfo).
    rewrite stream_max_data, Hfp by (done || lia). cbn [mbind res_bind]. pose proof (hdr_bounds f Hi Ho).
    pose proof (room_nonneg true (stream_hdr f) maxBytes ltac:(lia)). pose proof (room_some (stream_hdr f) maxBytes) as Hr.
    set (n := Z.min w _). destruct (n =? 0) eqn:E0.
    { eexists None, s, true. split; [done|]. split; [done|]. split; [done|]. lia. }
    destruct (n <? blen (Data f)) eqn:E1.
    + rewrite (proj2 (Z.ltb_ge 1452 _)) by lia. destruct (after_take (Data f) n) as (-> & -> & Hl & Hne & _); [lia|].
      cbn [mbind res_bind]. eexists (Some _), _, true. split; [done|].
      eexists _, _, _, _, _, _. split; [eapply (take_part _ (take (Z.to_nat n) (Data f))); [done|by rewrite take_drop|done]|].
      rewrite Hl, Hfi, Hfo. split_and!; [lia|lia|lia|done|done|done].
    + eexists (Some f), _, _. split; [done|]. eexists (Data f), _, None, true, (Fin f), (fromPool f).
      split; [by eapply take_next|]. split_and!; [lia|lia|lia| |done|].
      * destruct f. cbn in *. congruence.
      * cbn. by destruct (dataForWriting s).
  - destruct Hsome as [?|(_ & Hre & Hdn)]; [done|]. destruct (dataForWriting s) as [d|] eqn:Ed; [|done].
    assert (Hd : 0 < blen d). { destruct d; [by destruct (po_data _ Hs)|rewrite blen_cons; pose proof (blen_nonneg d); lia]. }
    unfold popNewStreamFrameWithoutBuffer. rewrite stream_max_data by (done || lia). cbn [mbind res_bind DataLenPresent].
    set (f := mkStream _ _ _ _ _ _). pose proof (hdr_bounds f Hid Hoff).
    pose proof (room_nonneg true (stream_hdr f) maxBytes ltac:(lia)). pose proof (room_some (stream_hdr f) maxBytes) as Hr.
    destruct (_ =? 0) eqn:E0.
    { cbn. rewrite Ed. eexists None, s, true. split; [done|]. split; [done|]. split; [done|]. lia. }
    assert (Hrm : Frames.room true (stream_hdr f) maxBytes <= 1452).
    { unfold Frames.room. destruct (_ <? 0); [lia|]. destruct (negb _); lia. }
    set (n := Z.min _ w). unfold getDataForWriting, MaxPacketBufferSize. rewrite Ed. cbn [default from_option id]. destruct (blen d <=? n) eqn:E1.
    + rewrite (proj2 (Z.ltb_ge 1452 _)) by lia. cbn. rewrite (proj2 (Z.eqb_neq _ _)) by lia. cbn.
      eexists (Some _), _, _. split; [done|]. eexists d, None, None, true, _, _. split; [by apply take_data|].
      split_and!; [lia|lia|lia|done| |done]. unfold with_rest, signalWrite, with_chan. cbn. by rewrite En.
    + rewrite (proj2 (Z.ltb_ge 1452 _)) by lia. destruct (after_take d n) as (-> & -> & Hl & Hne & Hl2); [lia|].
      cbn [mbind res_bind]. cbn. rewrite Hl, (proj2 (Z.eqb_neq _ _)) by lia. cbn.
      eexists (Some _), _, _. split; [done|].
      eexists (take (Z.to_nat n) d), (Some (drop (Z.to_nat n) d)), None, _, _, _.
      split; [apply take_data_part; [done|done|by rewrite take_drop|done]|]. rewrite Hl. split_and!; [lia|lia|lia|done| |].
      * set (rest := drop _ _). assert (canBufferStreamFrame (with_data s (Some rest)) = (blen rest <=? MaxPacketBufferSize)) as ->
          by (unfold canBufferStreamFrame; cbn; by rewrite En).
        destruct (blen rest <=? _); unfold with_rest, signalWrite, with_chan, with_data; cbn; by rewrite ?En, ?orb_true_r, ?orb_false_r.
      * by destruct (canBufferStreamFrame _).
Qed.

Lemma popNew_spec s maxBytes :
  pop_ok s -> 0 <= maxBytes <= MaxPacketBufferSize -> shutdownErr s = None -> retransmissionQueue s = [] ->
  (resetErr s <> None -> 0 < reliableOffset s /\ writeOffset s < reliableOffset s) ->
  exists f b s' more, popNew s maxBytes = Ok (f, b, s', more) /\ pop_case s f s' /\ (more = false -> ~ to_send s') /\
    (f = None -> more = true -> maxBytes < 19 \/ SendWindowSize (flowController s) = 0) /\
    (forall g, b = Some g -> sb_StreamID g = streamID s /\ sb_MaximumStreamData g = writeOffset s').
Proof.
  intros Hs Hm Hsh Hq Hre. unfold popNew.
  assert (Hd : (dlen s =? 0) = negb (is_Some_b (dataForWriting s))).
  { unfold dlen. pose proof (po_data _ Hs) as Hd. destruct (dataForWriting s) as [[|x d]|]; [done| |done].
    rewrite blen_cons. pose proof (blen_nonneg d). cbn. lia. }
  assert (Hrn : resetErr s <> None -> nextFrame s <> None).
  { intros Hr Hn. pose proof (po_reliable _ Hs Hr Hsh). unfold next_data in *. rewrite Hn, blen_nil in *. specialize (Hre Hr). lia. }
  rewrite Hd. destruct (negb (is_Some_b (dataForWriting s)) && negb (is_Some_b (nextFrame s))) eqn:E1.
  { apply andb_prop in E1 as [Ed En]. assert (resetErr s = None) as Er.
    { destruct (resetErr s); [|done]. exfalso. apply Hrn; [done|]. by destruct (nextFrame s). }
    assert (dataForWriting s = None /\ nextFrame s = None) as [Ed' En'] by (by destruct (dataForWriting s), (nextFrame s)).
    destruct (finishedWriting s && negb (finSent s)) eqn:Ef; eexists _, _, _, _; (split; [done|]).
    - apply andb_prop in Ef as [Ef1 Ef2%negb_true_iff]. split; [by apply pop_fin|]. split; [|done]. intros _ [_ Ht]. cbn in Ht.
      rewrite Er, Hq, En', Ed' in Ht. naive_solver.
    - split; [apply pop_none|]. split; [|done]. intros _ [_ Ht]. rewrite Er, Hq, En', Ed' in Ht.
      destruct Ht as [?|[?|[?|[Hf1 Hf2]]]]; try done. by rewrite Hf1, Hf2 in Ef. }
  destruct (SendWindowSize (flowController s) =? 0) eqn:Ew.
  { eexists _, _, _, _. split; [done|]. split; [apply pop_none|]. split; [done|]. split; [lia|done]. }
  pose proof (window_nonneg (flowController s)) as Hw0. set (w := if _ && _ then _ else _).
  assert (0 < w /\ w <= SendWindowSize (flowController s) /\ (resetErr s <> None -> w <= reliableOffset s - writeOffset s)) as (Hw1 & Hw2 & Hw3).
  { unfold w. destruct (resetErr s); cbn; [|split_and!; [lia|lia|done]]. specialize (Hre ltac:(done)).
    rewrite (proj2 (Z.ltb_lt 0 _)) by lia. split_and!; [lia..|]. lia. }
  destruct (popNewStreamFrame_spec s maxBytes w Hs Hm Hw1) as (f & s' & more & -> & Hf).
  { destruct (nextFrame s) eqn:En; [by left|right]. split; [done|]. destruct (resetErr s); [by destruct Hrn|]. split; [done|].
    destruct (dataForWriting s); [done|]. cbn in E1. done. }
  cbn [mbind res_bind]. destruct f as [f|]; cbn.
  2:{ destruct Hf as (-> & -> & Hlt). eexists _, _, _, _. split; [done|]. split; [apply pop_none|]. split; [done|]. split; [by left|done]. }
  destruct Hf as (d & data & next & chan & fin & pool & Htk & Hdl & Hdw & -> & -> & Hmore). cbn [Data].
  rewrite (proj2 (Z.ltb_lt 0 _)) by lia. unfold with_rest. cbn.
  set (c1 := AddBytesSent (flowController s) (blen d)). assert (Hu1 : used c1 = used (flowController s) + blen d) by apply used_sent.
  assert (Hl1 : limit c1 = limit (flowController s)) by apply limit_sent. change (finishedWriting s && _ && _ && _) with (fin_now s data next).
  set (bl := if blen d =? w then _ else _).
  assert (exists b c, bl = (b, with_offset (with_rest s data next chan) (writeOffset s + blen d) c) /\ used c = used c1 /\ limit c = limit c1 /\
            (forall g, b = Some g -> sb_StreamID g = streamID s /\ sb_MaximumStreamData g = writeOffset s + blen d)) as (b & c & -> & Hu & Hl & Hb).
  { unfold bl. destruct (blen d =? w); [|by eexists _, _]. destruct (IsNewlyBlocked c1) as [b c] eqn:Eb.
    pose proof (used_blocked c1). pose proof (limit_blocked c1). rewrite Eb in *. eexists _, c. split; [done|]. split; [done|].
    split; [done|]. destruct b; [|done]. by intros g [= <-]. }
  assert (Hst : (if fin_now s data next then with_finSent (with_offset (with_rest s data next chan) (writeOffset s + blen d) c) true
                 else with_offset (with_rest s data next chan) (writeOffset s + blen d) c)
                = after_new s (blen d) data next chan c (fin_now s data next)).
  { destruct (fin_now s data next); unfold after_new; cbn; by rewrite ?orb_true_r, ?orb_false_r. }
  eexists (Some (mkStream (streamID s) (writeOffset s) d (fin_now s data next) true pool)), b, (after_new s (blen d) data next chan c (fin_now s data next)), _. split; [rewrite <- Hst; reflexivity|].
  split; [by apply pop_new; try done; try lia; intros Hr; specialize (Hw3 Hr); lia|].
  split; [|split; [done|exact Hb]].
  intros Hmf [_ Ht]. unfold after_new in Ht. cbn in Ht. destruct (resetErr s) as [e|] eqn:Er; cbn in Hmf, Ht.
  - unfold reliableOffset in *. cbn in *. destruct (_ <=? _) eqn:El; [rewrite Hq in Ht; destruct Ht as [_ [?|?]]; [done|lia]|].
    destruct (Hmore Hmf) as [-> ->]. specialize (Hre ltac:(done)).
    inversion Htk as [f Hn Hdat|f rest Hn|Hn|rest Hn]; simplify_eq.
    pose proof (po_reliable _ Hs) as Hpr. rewrite Er in Hpr. specialize (Hpr ltac:(done) Hsh). unfold next_data, reliableOffset in Hpr.
    rewrite Hn in Hpr. lia.
  - destruct (Hmore Hmf) as [-> ->]. rewrite Hq in Ht. destruct Ht as [?|[?|[?|[Hf1 Hf2]]]]; try done.
    unfold fin_now in Hf2. rewrite Hf1 in Hf2. cbn in Hf2. by destruct (finSent s).
Qed.

Lemma split_case f maxBytes :
  stream_ok f -> 0 <= maxBytes <= MaxPacketBufferSize ->
  exists g b f', SplitStreamFrame f maxBytes = Ok (g, b, f') /\
  match g with
  | None => f' = f /\ (b = true -> maxBytes < 19)
  | Some g => b = true /\ cut f g f'
  end.
Proof.
  intros Hf Hm. destruct (split_spec f maxBytes Hf) as (len & Hl & Hs); [unfold MaxPacketBufferSize in Hm; lia|].
  destruct (SplitStreamFrame f maxBytes) as [[[[g|] b] f']|e|]; [| |done|done]; eexists _, _, _; (split; [done|]).
  - destruct Hs as (-> & _ & Hs). split; [done|]. unfold cut. tauto.
  - destruct Hs as [-> Hb]. split; [done|]. intros ->. destruct (Hb Byte.x00 true) as (l & Hl1 & Hlt).
    destruct Hf as (Hi & Ho & Hx & _). pose proof (blen_nonneg (Data f)).
    rewrite stream_length in Hl1 by (unfold Varint.vrange, Varint.maxVarInt8, MaxByteCount in *; rewrite ?blen_cons, ?blen_nil; lia).
    change (blen [Byte.x00]) with 1 in Hl1. change (blen (Varint.venc 1)) with 1 in Hl1.
    pose proof (hdr_bounds f Hi) as Hh. specialize (Hh ltac:(unfold Varint.vrange, Varint.maxVarInt8, MaxByteCount in *; lia)).
    destruct (DataLenPresent f); injection Hl1 as <-; lia.
Qed.

Lemma pop_stream_spec s maxBytes :
  pop_ok s -> 0 <= maxBytes <= MaxPacketBufferSize ->
  exists f b s' more, popNewOrRetransmittedStreamFrame s maxBytes = Ok (f, b, s', more) /\ pop_case s f s' /\ (more = false -> ~ to_send s') /\
    (f <> None -> shutdownErr s = None /\ (resetErr s <> None -> 0 < reliableOffset s)) /\
    (f = None -> more = true -> maxBytes < 19 \/ SendWindowSize (flowController s) = 0) /\
    (forall g, b = Some g -> sb_StreamID g = streamID s /\ sb_MaximumStreamData g = writeOffset s').
Proof.
  intros Hs Hm. unfold popNewOrRetransmittedStreamFrame. destruct (shutdownErr s) eqn:Esh; cbn.
  { eexists _, _, _, _. split; [done|]. split; [apply pop_none|]. split; [|done]. intros _ [? _]. congruence. }
  destruct (is_Some_b (resetErr s) && _) eqn:Er.
  { eexists _, _, _, _. split; [done|]. split; [apply pop_none|]. split; [|done]. intros _ [_ Ht].
    destruct (resetErr s); [|done]. cbn in Er. destruct Ht as [Ht1 Ht2]. destruct (retransmissionQueue s); destruct Ht2; [done|lia|lia|lia]. }
  assert (Hrel : resetErr s <> None -> 0 < reliableOffset s).
  { intros Hr. destruct (resetErr s); [|done]. cbn in Er. pose proof (po_rel _ Hs). lia. }
  destruct (retransmissionQueue s) as [|f q] eqn:Eq.
  { destruct (popNew_spec s maxBytes) as (f & b & s' & more & H1 & H2 & H3 & H4); try done.
    - intros Hr. destruct (resetErr s); [|done]. cbn in Er. pose proof (po_rel _ Hs). lia.
    - by exists f, b, s', more. }
  pose proof (po_queue _ Hs) as Hq. rewrite Eq in Hq. apply Forall_cons in Hq as [Hf _].
  unfold maybeGetRetransmission. destruct (split_case f maxBytes Hf Hm) as (g & b & f' & -> & Hg). cbn [mbind res_bind].
  destruct g as [g|].
  - destruct Hg as [-> Hc]. cbn. eexists _, _, _, _. split; [done|]. split; [by eapply pop_split|done].
  - destruct Hg as [-> Hb]. destruct b; cbn; eexists _, _, _, _; (split; [done|]).
    + assert (with_queue s (f :: q) = s) as -> by (rewrite <- Eq; by destruct s). split; [apply pop_none|]. split; [done|].
      split; [done|]. split; [|done]. intros _ _. left. by apply Hb.
    + split; [by eapply pop_retransmit|done].
Qed.

(** ** A stream and its surroundings *)

(** The stream; the data of the [Write] that waits; the bytes the [Write]s that
    returned accepted; the bytes sent for the first time; all frames sent, those in
    flight and those acknowledged; the RESET_STREAM frames in flight; whether the
    framer has the stream queued for data and for control frames; how often the
    completion was reported. *)
Record run := mkRun {
  st : SendStream; writer : option bytes; app : bytes; sent : bytes;
  frames : list StreamFrame; inflight : list StreamFrame; acked : list StreamFrame;
  resets : list ResetStreamFrame;
  active : bool; control : bool; reported : nat }.

Inductive event :=
| EWrite (now now' : Z) (p : bytes)
| EWake (timer : bool) (now : Z)
| EClose
| EBoundary
| ECancel (code : Z)
| EStop (code : Z)
| EEnable
| EWindow (l : Z)
| EFlow (c : F)
| EDeadline (t : Z)
| EShutdown (e : Z)
| EPop (maxBytes : Z)
| EControl
| EAck (i : nat)
| ELost (i : nat)
| EResetAck (i : nat)
| EResetLost (i : nat).

(** When the surroundings issue an event.  [Write] is not called while another
    call waits, nor [Close]; packets fit their buffers; frames in flight are
    acknowledged or lost once.  The reliable boundary is not moved and the extension
    is not enabled after the stream was reset. *)
Definition guard (r : run) (e : event) : Prop :=
  match e with
  | EWrite _ _ _ | EClose => writer r = None
  | EWake timer _ => writer r <> None /\ if timer then deadline (st r) <> 0 else writeChan (st r) = true
  | EBoundary | EEnable => resetErr (st r) = None
  | EWindow l => l <= MaxByteCount
  | EFlow c => used c = used (flowController (st r)) /\ limit c = limit (flowController (st r))
  | EPop maxBytes => 0 <= maxBytes <= MaxPacketBufferSize
  | EAck i | ELost i => (i < length (inflight r))%nat
  | EResetAck i | EResetLost i => (i < length (resets r))%nat
  | _ => True
  end.

Definition has (n : note) (ns : list note) : bool :=
  existsb (fun m => match n, m with
                    | onHasStreamData, onHasStreamData | onHasStreamControlFrame, onHasStreamControlFrame
                    | onStreamCompleted, onStreamCompleted => true
                    | _, _ => false end) ns.

(** The stream after an operation, with what it told its sender. *)
Definition update (r : run) (s : SendStream) (ns : list note) : run :=
  mkRun s (writer r) (app r) (sent r) (frames r) (inflight r) (acked r) (resets r)
    (active r || has onHasStreamData ns) (control r || has onHasStreamControlFrame ns)
    (reported r + if has onStreamCompleted ns then 1 else 0).

Definition returned (r : run) (p : bytes) (w : wresult) : run :=
  match w with
  | WReturn n _ => mkRun (st r) None (app r ++ take (Z.to_nat n) p) (sent r) (frames r) (inflight r) (acked r) (resets r)
                     (active r) (control r) (reported r)
  | WBlocked => mkRun (st r) (Some p) (app r) (sent r) (frames r) (inflight r) (acked r) (resets r)
                  (active r) (control r) (reported r)
  end.

Definition with_flight (r : run) (fl ak : list StreamFrame) (rs : list ResetStreamFrame) : run :=
  mkRun (st r) (writer r) (app r) (sent r) (frames r) fl ak rs (active r) (control r) (reported r).

Definition exec (r : run) (e : event) : res werr run :=
  let s := st r in
  match e with
  | EWrite now now' p => let '(s, w, ns) := write s now now' p in Ok (returned (update r s ns) p w)
  | EWake timer now =>
      match writer r with
      | Some p => let '(s, w, ns) := wake s timer now (blen p) in Ok (returned (update r s ns) p w)
      | None => Ok r
      end
  | EClose => let '(s, _, ns) := Close s in Ok (update r s ns)
  | EBoundary => Ok (update r (SetReliableBoundary s) [])
  | ECancel code => let '(s, ns) := CancelWrite s code in Ok (update r s ns)
  | EStop code => let '(s, ns) := handleStopSendingFrame s code in Ok (update r s ns)
  | EEnable => Ok (update r (enableResetStreamAt s) [])
  | EWindow l => let '(s, ns) := updateSendWindow s l in Ok (update r s ns)
  | EFlow c => Ok (update r (with_flow s c) [])
  | EDeadline t => Ok (update r (SetWriteDeadline s t) [])
  | EShutdown e => Ok (update r (closeForShutdown s e) [])
  | EPop maxBytes =>
      '(f, _, s', more) ← popStreamFrame s maxBytes;
      let n := Z.to_nat (writeOffset s' - writeOffset s) in
      Ok (mkRun s' (writer r) (app r) (sent r ++ match f with Some f => take n (Data f) | None => [] end)
            (frames r ++ option_list f) (inflight r ++ option_list f) (acked r) (resets r) more (control r) (reported r))
  | EControl =>
      let '(f, s) := getControlFrame s in
      Ok (mkRun s (writer r) (app r) (sent r) (frames r) (inflight r) (acked r) (resets r ++ option_list f) (active r) false (reported r))
  | EAck i =>
      match inflight r !! i with
      | Some f => '(s, ns) ← stream_OnAcked s;
          Ok (with_flight (update r s ns) (delete i (inflight r)) (acked r ++ [f]) (resets r))
      | None => Ok r
      end
  | ELost i =>
      match inflight r !! i with
      | Some f => '(s, ns) ← stream_OnLost s f;
          Ok (with_flight (update r s ns) (delete i (inflight r)) (acked r) (resets r))
      | None => Ok r
      end
  | EResetAck i =>
      match resets r !! i with
      | Some f => '(s, ns) ← reset_OnAcked s f;
          Ok (with_flight (update r s ns) (inflight r) (acked r) (delete i (resets r)))
      | None => Ok r
      end
  | EResetLost i =>
      match resets r !! i with
      | Some f => let '(s, ns) := reset_OnLost s f in
          Ok (with_flight (update r s ns) (inflight r) (acked r) (delete i (resets r)))
      | None => Ok r
      end
  end.

Definition start (id : Z) (c : F) (supports : bool) : run :=
  mkRun (newSendStream id c supports) None [] [] [] [] [] [] false false 0.

Inductive reachable (id : Z) (c : F) (supports : bool) : run -> Prop :=
| reach_start : reachable id c supports (start id c supports)
| reach_step r e r' : reachable id c supports r -> guard r e -> exec r e = Ok r' -> reachable id c supports r'.

End stream.
End SendStream.
