(* ===== verification/SendSafety.v ===== *)
(** * Send streams: what they guarantee (src/quicfork/send_stream.go)

    The invariant of a stream and its surroundings, and that every operation
    keeps it. *)

From Stdlib Require Import ZifyBool.
From stdpp Require Import gmap.
From S2P Require Import Prelude GoBytes Varint Wire Frames FlowControl SendStream.
Local Open Scope Z_scope.

Module SendSafety.
Import Wire Frames SendStream.

Section stream.
Context {F : Type} {SF : SendFlow F} {FL : SendFlowLaws F}.
Local Notation SendStream := (@SendStream.SendStream F).
Local Notation run := (@SendStream.run F).

(** ** The invariant *)

(** The bytes [d] at offset [o] of [whole]. *)
Definition piece (whole : bytes) (o : Z) (d : bytes) : Prop :=
  0 <= o /\ o + blen d <= blen whole /\ take (length d) (drop (Z.to_nat o) whole) = d.

Definition carries (f : StreamFrame) (x : Z) : Prop := Offset f <= x < Offset f + blen (Data f).

Definition covered (fs : list StreamFrame) (x : Z) : Prop := exists f, f ∈ fs /\ carries f x.

(** A frame of this stream that carries what was sent. *)
Definition frame_ok (r : run) (f : StreamFrame) : Prop :=
  StreamID f = streamID (st r) /\ stream_ok f /\ piece (sent r) (Offset f) (Data f).

Definition cur (r : run) : bytes := default [] (writer r).

Definition is_reset (s : SendStream) : Prop := resetErr s <> None.

(** The frames that are not acknowledged, and those. *)
Definition pending (r : run) : list StreamFrame := retransmissionQueue (st r) ++ inflight r.

(** The bytes sent, and those that will be although the stream was reset. *)
Definition kept (r : run) : bytes :=
  sent r ++ if is_Some_b (resetErr (st r)) && negb (is_Some_b (shutdownErr (st r)))
            then take (Z.to_nat (reliableOffset (st r) - writeOffset (st r))) (next_data (st r)) else [].

Definition counted (r : run) : nat :=
  ((if is_Some_b (resetErr (st r)) && (reliableOffset (st r) =? 0)%Z then 0 else length (inflight r)) +
   length (filter (fun f => ReliableSize f = reliableOffset (st r)) (resets r)))%nat.

Record inv (r : run) : Prop := mkInv {
  i_pop : pop_ok (st r);
  i_sent : blen (sent r) = writeOffset (st r);
  i_frames : Forall (frame_ok r) (pending r ++ acked r ++ frames r);
  i_fin : resetErr (st r) = None -> forall f, f ∈ pending r ++ acked r ++ frames r -> Fin f = true ->
    finSent (st r) = true /\ Offset f + blen (Data f) = writeOffset (st r);
  i_finSent : finSent (st r) = true -> finishedWriting (st r) = true /\ nextFrame (st r) = None /\ dataForWriting (st r) = None;
  i_finished : finishedWriting (st r) = true -> writer r = None;
  i_idle : writer r = None -> resetErr (st r) = None -> shutdownErr (st r) = None -> dataForWriting (st r) = None;
  i_content : resetErr (st r) = None -> shutdownErr (st r) = None ->
    sent r ++ next_data (st r) ++ default [] (dataForWriting (st r)) = app r ++ cur r;
  i_kept : kept r `prefix_of` app r ++ cur r;
  i_room : forall p, writer r = Some p -> dlen (st r) <= blen p /\ blen (kept r) + dlen (st r) <= blen (app r ++ p);
  i_bound : resetErr (st r) = None -> shutdownErr (st r) = None -> reliableSize (st r) <= writeOffset (st r) + blen (next_data (st r));
  i_relsize : 0 <= reliableSize (st r);
  i_count : numOutstandingFrames (st r) = Z.of_nat (counted r);
  i_noreset : resetErr (st r) = None -> resets r = [] /\ queuedResetStreamFrame (st r) = None;
  i_resets : 0 < reliableOffset (st r) -> Forall (fun f => ReliableSize f = reliableOffset (st r)) (resets r);
  i_queued : forall f, queuedResetStreamFrame (st r) = Some f -> ReliableSize f = reliableOffset (st r);
  i_final : Forall (fun f => writeOffset (st r) <= FinalSize f /\ reliableOffset (st r) <= FinalSize f)
              (resets r ++ option_list (queuedResetStreamFrame (st r)));
  i_cover : shutdownErr (st r) = None -> forall x, 0 <= x < writeOffset (st r) ->
    (is_reset (st r) -> x < reliableOffset (st r)) -> covered (pending r ++ acked r) x;
  i_fincover : resetErr (st r) = None -> shutdownErr (st r) = None -> finSent (st r) = true ->
    exists f, f ∈ pending r ++ acked r /\ Fin f = true;
  i_completed : completed (st r) = true -> resetErr (st r) = None -> shutdownErr (st r) = None ->
    finSent (st r) = true /\ pending r = [];
  i_reported : reported r = if completed (st r) then 1%nat else 0%nat;
  i_active : to_send (st r) -> active r = true;
  i_control : queuedResetStreamFrame (st r) <> None -> control r = true;
  i_wake : writer r <> None ->
    dataForWriting (st r) = None \/ shutdownErr (st r) <> None \/ is_reset (st r) \/
    (nextFrame (st r) = None /\ dlen (st r) <= MaxPacketBufferSize) -> writeChan (st r) = true }.

Lemma start_inv id c b :
  Varint.vrange id -> used c = 0 -> 0 <= limit c <= MaxByteCount -> inv (start id c b).
Proof.
  intros Hid Hu Hl. split; try done; cbn.
  - split; cbn; try done; try lia. unfold reliableOffset. cbn. by destruct b.
  - intros _ f Hf. by apply elem_of_nil in Hf.
  - intros _ x Hx. lia.
  - intros [_ Ht]. cbn in Ht. naive_solver.
Qed.

(** ** Small steps *)

Lemma flagged_inv (r : run) b : inv r -> inv (update r (with_flagged (st r) b) []).
Proof.
  intros I. destruct I as []. split; cbn; rewrite ?orb_false_r, ?Nat.add_0_r; try done.
  destruct i_pop0. by split.
Qed.

Lemma completed_inv (r : run) :
  inv r -> inv (let '(b, s) := isNewlyCompleted (st r) in update r s (completed_note b)).
Proof.
  intros I. unfold isNewlyCompleted.
  assert (Hsame : inv (update r (st r) [])).
  { destruct I. split; cbn; rewrite ?orb_false_r, ?Nat.add_0_r; done. }
  destruct (completed (st r)) eqn:Ec; [done|]. destruct (match nextFrame (st r) with Some f => 0 <? blen (Data f) | None => false end) eqn:En; [done|].
  destruct (_ || _) eqn:E; [done|].
  assert (Hdone : finSent (st r) = true \/ is_reset (st r) -> inv (update r (with_completed (st r) true) [onStreamCompleted])).
  { intros Hd. destruct I as []. split; cbn; rewrite ?orb_false_r; try done.
    - destruct i_pop0. by split.
    - intros _ Hn Hs. destruct Hd as [?|?]; [|done]. split; [done|].
      assert (numOutstandingFrames (st r) = Z.of_nat (length (inflight r))) as Hnum.
      { rewrite i_count0. unfold counted. rewrite Hn. cbn. destruct (i_noreset0 Hn) as [-> _]. cbn. lia. }
      unfold pending. cbn. destruct (retransmissionQueue (st r)); [|cbn in E; lia]. destruct (inflight r); [done|cbn in Hnum; lia].
    - rewrite i_reported0, Ec. done. }
  destruct (finSent (st r)) eqn:Ef; [apply Hdone; by left|].
  destruct (resetErr (st r)) eqn:Er; cbn; [|done]. destruct (cancellationFlagged (st r) || finishedWriting (st r)) eqn:E2; [apply Hdone; right; unfold is_reset; by rewrite Er|done].
Qed.

#[local] Arguments kept : simpl never.
#[local] Arguments counted : simpl never.
#[local] Arguments pending : simpl never.
#[local] Arguments reliableOffset : simpl never.
#[local] Arguments to_send : simpl never.

Lemma kept_none (r : run) : resetErr (st r) = None -> kept r = sent r.
Proof. intros Hn. unfold kept. rewrite Hn. apply app_nil_r. Qed.

Ltac run_simpl := cbn; rewrite ?orb_false_r, ?orb_true_r, ?Nat.add_0_r.

Lemma flow_inv (r : run) c :
  inv r -> used c = used (flowController (st r)) -> limit (flowController (st r)) <= limit c <= MaxByteCount ->
  inv (update r (with_flow (st r) c) []).
Proof.
  intros [] Hu Hl. split; run_simpl; try done. destruct i_pop0. split; cbn; try done; [congruence|lia].
Qed.

Lemma signal_inv (r : run) : inv r -> inv (update r (signalWrite (st r)) []).
Proof. intros []. split; run_simpl; try done. destruct i_pop0. by split. Qed.

Lemma deadline_inv (r : run) t : inv r -> inv (update r (with_deadline (st r) t) []).
Proof. intros []. split; run_simpl; try done. destruct i_pop0. by split. Qed.

(** More attention than needed does no harm. *)
Lemma notes_inv (r : run) ns : inv r -> has onStreamCompleted ns = false -> inv (update r (st r) ns).
Proof.
  intros [] Hn. split; cbn; rewrite ?Hn, ?Nat.add_0_r; try done.
  - intros Ht. by rewrite i_active0.
  - intros Ht. by rewrite i_control0.
Qed.

Lemma update_update (r : run) s1 n1 s2 n2 :
  has onStreamCompleted n1 = false -> update (update r s1 n1) s2 n2 = update r s2 (n1 ++ n2).
Proof.
  intros Hn. unfold update. cbn. unfold has in *. rewrite !existsb_app, Hn, !orb_assoc, Nat.add_0_r. done.
Qed.

Lemma window_inv (r : run) l ns :
  inv r -> l <= MaxByteCount -> has onStreamCompleted ns = false ->
  inv (update r (with_flow (st r) (UpdateSendWindow (flowController (st r)) l).2) ns).
Proof.
  intros I Hl Hn. pose proof (limit_update (flowController (st r)) l). pose proof (po_limit _ (i_pop _ I)).
  pose proof (flow_inv r _ I (used_update _ l) ltac:(lia)) as I1.
  pose proof (notes_inv _ ns I1 Hn) as I2. cbn [update st] in I2. unfold update in I2. cbn in I2.
  rewrite !orb_false_r, Nat.add_0_r in I2. unfold update. by rewrite Hn in *.
Qed.

Lemma enable_inv (r : run) : inv r -> resetErr (st r) = None -> inv (update r (enableResetStreamAt (st r)) []).
Proof.
  intros [] Hn. destruct (i_noreset0 Hn) as [Hr Hq]. split; run_simpl; try done.
  - destruct i_pop0. by split.
  - by rewrite kept_none in i_kept0 |- *.
  - by rewrite kept_none in i_room0 |- *.
  - rewrite i_count0. unfold counted. cbn. by rewrite Hr, Hn.
  - by rewrite Hr.
  - by rewrite Hq.
  - by rewrite Hr, Hq.
  - intros Hs x Hx _. by apply i_cover0.
  - unfold to_send in i_active0 |- *. cbn. by rewrite Hn in i_active0 |- *.
Qed.

Lemma boundary_inv (r : run) : inv r -> resetErr (st r) = None -> inv (update r (SetReliableBoundary (st r)) []).
Proof.
  intros [] Hn. destruct (i_noreset0 Hn) as [Hr Hq]. pose proof (po_off _ i_pop0).
  set (l := match nextFrame (st r) with Some f => blen (Data f) | None => 0 end).
  assert (Hl : l = blen (next_data (st r))) by (unfold l, next_data; by destruct (nextFrame (st r))).
  pose proof (blen_nonneg (next_data (st r))). split; run_simpl; try done; fold l.
  - destruct i_pop0. split; try done. unfold reliableOffset. cbn. fold l. destruct (supportsResetStreamAt _); lia.
  - by rewrite kept_none in i_kept0 |- *.
  - by rewrite kept_none in i_room0 |- *.
  - intros _ _. unfold next_data in *. cbn in *. lia.
  - lia.
  - rewrite i_count0. unfold counted. cbn. by rewrite Hr, Hn.
  - by rewrite Hr.
  - by rewrite Hq.
  - by rewrite Hr, Hq.
  - intros Hs x Hx _. by apply i_cover0.
  - unfold to_send in i_active0 |- *. cbn. by rewrite Hn in i_active0 |- *.
Qed.

Lemma shutdown_inv (r : run) e : inv r -> shutdownErr (st r) = None -> finishedWriting (st r) = false ->
  inv (update r (signalWrite (returnFramesToPool (with_shutdown (st r) (Some e)))) []).
Proof.
  intros [] Hs Hf. assert (Hpre : inflight r ++ acked r ++ frames r ⊆+ pending r ++ acked r ++ frames r).
  { unfold pending. rewrite <- app_assoc. apply submseteq_inserts_l. done. }
  split; run_simpl; try done.
  - destruct i_pop0. split; cbn; try done.
  - unfold pending in *. cbn. rewrite <- app_assoc in i_frames0. by apply Forall_app in i_frames0 as [_ ?].
  - intros Hn f Hin. apply (i_fin0 Hn). unfold pending in *. cbn in Hin. rewrite <- app_assoc, elem_of_app. by right.
  - intros Hx. by destruct (i_finSent0 Hx) as (? & _ & ?).
  - unfold kept in *. cbn. rewrite andb_false_r, app_nil_r. eapply prefix_app_l, i_kept0.
  - intros p Hp. destruct (i_room0 p Hp) as [H1 H2]. split; [done|]. unfold kept, dlen in *. cbn. rewrite andb_false_r, app_nil_r.
    rewrite blen_app in H2. match type of H2 with context [blen (if ?b then ?x else ?y)] => pose proof (blen_nonneg (if b then x else y)) end. lia.
  - intros [? _]. done.
Qed.

(** ** Writing *)

(** The run as if the writer and the framer had just been told. *)
Definition told (r : run) : run :=
  mkRun (signalWrite (st r)) (writer r) (app r) (sent r) (frames r) (inflight r) (acked r) (resets r) true (control r) (reported r).

Lemma told_inv (r : run) : inv r -> inv (told r).
Proof. intros []. split; try done. destruct i_pop0. by split. Qed.

Lemma untold_inv (r : run) :
  inv (told r) -> (to_send (st r) -> active r = true) ->
  (writer r <> None ->
     dataForWriting (st r) = None \/ shutdownErr (st r) <> None \/ is_reset (st r) \/
     (nextFrame (st r) = None /\ dlen (st r) <= MaxPacketBufferSize) -> writeChan (st r) = true) -> inv r.
Proof. intros [] Ha Hw. split; try done. destruct i_pop0. by split. Qed.

Ltac rekept Hk :=
  match type of Hk with
  | _ = ?k => match goal with |- context [kept ?x] => replace (kept x) with k by (symmetry; exact Hk) end
  end.

Lemma prefix_take_app (k a p : bytes) n : k `prefix_of` a ++ p -> blen k <= blen a + n -> 0 <= n -> k `prefix_of` a ++ take (Z.to_nat n) p.
Proof.
  intros [rest Hr] Hk Hn. exists (take (length a + Z.to_nat n - length k) rest).
  apply (f_equal (take (length a + Z.to_nat n))) in Hr. rewrite !take_app in Hr. unfold blen in Hk.
  rewrite (take_ge a), (take_ge k) in Hr by lia. rewrite <- Hr. do 2 f_equal. lia.
Qed.

(** A [Write] that returns with the data it did not pass on left behind. *)
Lemma return_inv (r : run) p :
  inv r -> writer r = Some p ->
  dataForWriting (st r) = None \/ shutdownErr (st r) <> None \/ is_reset (st r) ->
  inv (returned r p (WReturn (blen p - dlen (st r)) None)).
Proof.
  intros [] Hp Hc. destruct (i_room0 p Hp) as [Hr1 Hr2]. unfold cur in *. rewrite Hp in *. cbn in *. rewrite blen_app in Hr2.
  split; try done; cbn.
  - intros _ Hn Hs. unfold is_reset in Hc. tauto.
  - intros Hn Hs. rewrite (i_content0 Hn Hs), app_nil_r. f_equal. rewrite take_ge; [done|].
    destruct Hc as [Hc|[?|?]]; [|done|done]. unfold dlen. rewrite Hc. unfold blen. lia.
  - rewrite app_nil_r. change (kept _) with (kept r). apply prefix_take_app; [done|lia|lia].
Qed.

Lemma buffer_inv (r : run) p d :
  inv r -> writer r = Some p -> dataForWriting (st r) = Some d -> canBufferStreamFrame (st r) = true ->
  inv (returned (update r (with_data (with_next (st r) (Some (buffer (st r) d))) None) []) p (WReturn (blen p) None)).
Proof.
  intros [] Hp Hd Hb. destruct (i_room0 p Hp) as [Hr1 Hr2]. unfold cur in *. rewrite Hp in *. cbn in *. rewrite blen_app in Hr2.
  assert (Hdl : dlen (st r) = blen d) by (unfold dlen; by rewrite Hd).
  assert (Hd0 : 0 < blen d).
  { pose proof (po_data _ i_pop0) as Hx. rewrite Hd in Hx. destruct d; [done|]. rewrite blen_cons. pose proof (blen_nonneg d). lia. }
  assert (Hnd : Data (buffer (st r) d) = next_data (st r) ++ d) by (unfold buffer, next_data; by destruct (nextFrame (st r))).
  assert (Hk : kept (returned (update r (with_data (with_next (st r) (Some (buffer (st r) d))) None) []) p (WReturn (blen p) None)) = kept r).
  { unfold kept. cbn. unfold reliableOffset, next_data at 1. cbn. f_equal. destruct (resetErr (st r)) eqn:Er, (shutdownErr (st r)) eqn:Es; cbn; try done.
    rewrite Hnd, take_app_le; [done|]. pose proof (po_reliable _ i_pop0) as Hx. rewrite Er in Hx.
    specialize (Hx ltac:(done) Es). unfold reliableOffset, blen in Hx. lia. }
  assert (take (Z.to_nat (blen p)) p = p) as Htp by (apply take_ge; unfold blen; lia).
  assert (finSent (st r) = false) as Hfs.
  { destruct (finSent (st r)) eqn:E; [|done]. destruct (i_finSent0 eq_refl) as (_ & _ & ?). congruence. }
  split; run_simpl; try done.
  - pose proof (blen_nonneg d). destruct i_pop0. split; cbn; try done.
    + intros f [= <-]. unfold buffer. pose proof (po_next0) as Hx. unfold next_ok in Hx. unfold canBufferStreamFrame in Hb. cbn.
      destruct (nextFrame (st r)) as [f|]; cbn in *; [|unfold MaxPacketBufferSize in *; split_and!; (done || lia)].
      destruct (Hx f eq_refl) as (? & ? & ? & ?). rewrite blen_app. unfold MaxPacketBufferSize in *. split_and!; (done || lia).
    + intros Hr Hs. specialize (po_reliable0 Hr Hs). unfold next_data. cbn. rewrite Hnd, blen_app.
      unfold reliableOffset in *. cbn. lia.
  - intros Hx. congruence.
  - intros Hn Hs. rewrite Hnd, Htp, !app_nil_r. rewrite <- (i_content0 Hn Hs), Hd. done.
  - rekept Hk. by rewrite Htp, app_nil_r.
  - intros Hn Hs. unfold next_data. cbn. rewrite Hnd, blen_app. specialize (i_bound0 Hn Hs). lia.
  - intros [Hs Ht]. apply i_active0. split; [done|]. cbn in Ht. unfold reliableOffset in *. cbn in *.
    destruct (resetErr (st r)); [done|]. right. right. left. by rewrite Hd.
Qed.

Lemma app_take_eq (x d a p : bytes) : x ++ d = a ++ p -> blen d <= blen p -> x = a ++ take (Z.to_nat (blen p - blen d)) p.
Proof.
  intros He Hl. pose proof (f_equal length He) as Hlen. rewrite !length_app in Hlen. unfold blen in *.
  apply (f_equal (take (length x))) in He. rewrite take_app_length, take_app_ge in He by lia. rewrite He. do 2 f_equal. lia.
Qed.

(** A [Write] that gives up its data. *)
Lemma give_back_inv (r : run) p :
  inv r -> writer r = Some p ->
  inv (returned (update r (with_data (st r) None) []) p (WReturn (blen p - dlen (st r)) None)).
Proof.
  intros [] Hp. destruct (i_room0 p Hp) as [Hr1 Hr2]. unfold cur in *. rewrite Hp in *. cbn in *. rewrite blen_app in Hr2.
  assert (Hk : kept (returned (update r (with_data (st r) None) []) p (WReturn (blen p - dlen (st r)) None)) = kept r) by done.
  split; run_simpl; try done.
  - destruct i_pop0. by split.
  - intros Hx. by destruct (i_finSent0 Hx) as (? & ? & _).
  - intros Hn Hs. specialize (i_content0 Hn Hs). rewrite !app_nil_r, app_assoc in *.
    assert (dlen (st r) = blen (default [] (dataForWriting (st r)))) as Hdl by (unfold dlen; by destruct (dataForWriting (st r))).
    rewrite Hdl in *. by apply app_take_eq.
  - rekept Hk. rewrite app_nil_r. apply prefix_take_app; [done|lia|lia].
  - intros [Hs Ht]. apply i_active0. split; [done|]. cbn in Ht. unfold reliableOffset in *. cbn in *.
    destruct (resetErr (st r)); [done|]. naive_solver.
Qed.

Lemma returned_err (r : run) p n e e' : returned r p (WReturn n e) = returned r p (WReturn n e').
Proof. done. Qed.

Lemma update_nil (r : run) : update r (st r) [] = r.
Proof. destruct r. unfold update. cbn. by rewrite !orb_false_r, Nat.add_0_r. Qed.

Lemma newly_signal (s : SendStream) : isNewlyCompleted (signalWrite s) = let '(b, s') := isNewlyCompleted s in (b, signalWrite s').
Proof.
  unfold isNewlyCompleted. cbn. destruct (completed s); [done|].
  destruct (match nextFrame s with Some f => 0 <? blen (Data f) | None => false end); [done|].
  destruct (_ || is_Some_b (queuedResetStreamFrame s)); [done|]. destruct (finSent s); [done|]. by destruct (is_Some_b _ && _).
Qed.

Lemma write_end_inv (r : run) p s w ns :
  inv r -> writer r = Some p -> dataForWriting (st r) = None \/ shutdownErr (st r) <> None \/ is_reset (st r) ->
  write_end (st r) (blen p) (blen p - dlen (st r)) = (s, w, ns) -> inv (returned (update r s ns) p w).
Proof.
  intros I Hp Hc Hw. unfold write_end in Hw. pose proof (return_inv r p I Hp Hc) as I1.
  destruct (_ =? blen p); [injection Hw as <- <- <-; by rewrite update_nil|].
  destruct (shutdownErr (st r)); [injection Hw as <- <- <-; by rewrite update_nil|].
  destruct (resetErr (st r)); [|injection Hw as <- <- <-; by rewrite update_nil].
  pose proof (completed_inv _ (flagged_inv _ true I1)) as I2. cbn [returned update st] in I2.
  destruct (isNewlyCompleted _) as [b s'] in Hw, I2. injection Hw as <- <- <-.
  rewrite update_update in I2 by done. exact I2.
Qed.

Lemma write_end_signal (s : SendStream) plen n :
  write_end (signalWrite s) plen n = let '(s', w, ns) := write_end s plen n in (signalWrite s', w, ns).
Proof.
  unfold write_end. cbn. destruct (_ =? plen); [done|]. destruct (shutdownErr s); [done|]. destruct (resetErr s); [|done].
  change (with_flagged (signalWrite s) true) with (signalWrite (with_flagged s true)). rewrite newly_signal.
  by destruct (isNewlyCompleted _).
Qed.

Lemma to_send_newly (s : SendStream) : to_send (isNewlyCompleted s).2 <-> to_send s.
Proof.
  unfold isNewlyCompleted. destruct (completed s); [done|].
  destruct (match nextFrame s with Some f => 0 <? blen (Data f) | None => false end); [done|].
  destruct (_ || is_Some_b (queuedResetStreamFrame s)); [done|]. destruct (finSent s) eqn:E; [done|]. by destruct (is_Some_b _ && _).
Qed.

Lemma to_send_end (s : SendStream) plen n : to_send (write_end s plen n).1.1 <-> to_send s.
Proof.
  unfold write_end. destruct (_ =? plen); [done|]. destruct (shutdownErr s) eqn:E1; [done|]. destruct (resetErr s) eqn:E2; [|done].
  pose proof (to_send_newly (with_flagged s true)) as Ht. destruct (isNewlyCompleted _) as [b s']. cbn in *. rewrite Ht.
  unfold to_send. cbn. by rewrite E2.
Qed.

Lemma write_iter_inv (r : run) p now notified s w ns :
  inv (told r) -> writer r = Some p -> (notified = true -> to_send (st r) -> active r = true) ->
  (to_send (with_data (st r) None) -> active r = true) ->
  write_iter (st r) now (blen p) notified = (s, w, ns) -> inv (returned (update r s ns) p w).
Proof.
  intros I Hp Ha Ha0 Hw. unfold write_iter in Hw. destruct (canBufferStreamFrame (st r) && (0 <? dlen (st r))) eqn:E1.
  { apply andb_prop in E1 as [Eb Ed]. unfold dlen in Ed. destruct (dataForWriting (st r)) as [d|] eqn:Hd; [|done].
    injection Hw as <- <- <-. apply untold_inv; [destruct notified; exact (buffer_inv (told r) p d I Hp Hd Eb)| |done].
    intros [Hs Ht]. cbn. destruct notified; [|apply orb_true_r]. rewrite Ha; [done|done|]. split; [done|]. cbn in Ht.
    unfold reliableOffset in *. cbn in Ht. destruct (resetErr (st r)); [done|]. right. right. left. by rewrite Hd. }
  destruct (expired (st r) now).
  { injection Hw as <- <- <-. apply untold_inv; [exact (give_back_inv (told r) p I Hp)| |done].
    intros Ht. cbn. by rewrite Ha0. }
  destruct (negb _ || _ || _) eqn:E2.
  - assert (Hc : dataForWriting (st r) = None \/ shutdownErr (st r) <> None \/ is_reset (st r)).
    { unfold is_reset. destruct (dataForWriting (st r)), (shutdownErr (st r)), (resetErr (st r)); naive_solver. }
    destruct (write_end _ _ _) as [[s' w'] ns'] eqn:E in Hw. injection Hw as <- <- <-.
    pose proof (write_end_signal (st r) (blen p) (blen p - dlen (st r))) as Hsig. rewrite E in Hsig.
    pose proof (write_end_inv (told r) p _ _ _ I Hp Hc Hsig) as I1.
    assert (exists n e, w' = WReturn n e) as (n & e & ->).
    { unfold write_end in E. destruct (_ =? _), (shutdownErr (st r)), (resetErr (st r)); try destruct (isNewlyCompleted _); simplify_eq; eauto. }
    apply untold_inv; [exact I1| |done]. intros Ht. cbn. cbn in Ht.
    pose proof (to_send_end (st r) (blen p) (blen p - dlen (st r))) as Hts. rewrite E in Hts. cbn in Hts. apply Hts in Ht.
    rewrite Ha0; [done|]. destruct Ht as [Hs Ht]. split; [done|]. cbn. unfold reliableOffset in *. cbn.
    unfold is_reset in Hc. destruct (resetErr (st r)); [done|]. destruct (dataForWriting (st r)); [|done]. by destruct Hc as [?|[?|?]].
  - injection Hw as <- <- <-. apply untold_inv.
    + assert (told (returned (update r (st r) (if notified then [] else [onHasStreamData])) p WBlocked) = told r) as ->; [|done].
      destruct notified; unfold told, update, returned; run_simpl; by rewrite Hp.
    + intros Ht. cbn. destruct notified; [|apply orb_true_r]. by rewrite Ha.
    + cbn. intros _ Hc. exfalso. destruct (dataForWriting (st r)) as [d|] eqn:Hd; [|done].
      destruct (shutdownErr (st r)); [done|]. unfold is_reset in Hc. destruct (resetErr (st r)); [done|].
      destruct Hc as [?|[?|[?|[Hn Hl]]]]; try done. unfold canBufferStreamFrame in E1. rewrite Hn in E1.
      pose proof (po_data _ (i_pop _ I)) as Hx. cbn in Hx. rewrite Hd in Hx. unfold dlen in *. rewrite Hd in *.
      destruct d; [done|]. rewrite blen_cons in *. pose proof (blen_nonneg d). unfold MaxPacketBufferSize in *. lia.
Qed.

Lemma wake_inv (r : run) p timer now s w ns :
  inv r -> writer r = Some p -> wake (st r) timer now (blen p) = (s, w, ns) -> inv (returned (update r s ns) p w).
Proof.
  intros I Hp Hw. set (r1 := mkRun (if timer then st r else with_chan (st r) false) (writer r) (app r) (sent r) (frames r)
    (inflight r) (acked r) (resets r) (active r) (control r) (reported r)).
  assert (Ha : to_send (st r1) -> active r = true).
  { intros Ht. apply (i_active _ I). by destruct timer. }
  apply (write_iter_inv r1 p now true s w ns); [|done|done| |done].
  - pose proof (told_inv r I) as It. by destruct timer.
  - intros [Hs Ht]. apply Ha. split; [done|]. cbn in Ht. unfold reliableOffset in *. cbn in Ht.
    destruct timer; cbn in *; destruct (resetErr (st r)); naive_solver.
Qed.

Lemma write_inv (r : run) p now now' s w ns :
  inv r -> writer r = None -> write (st r) now now' p = (s, w, ns) -> inv (returned (update r s ns) p w).
Proof.
  intros I Hp Hw. unfold write in Hw.
  assert (Hret : forall r, inv r -> writer r = None -> inv (returned r p (WReturn 0 None))).
  { intros r1 [] Hn. split; try done; cbn; unfold cur in *; rewrite Hn in *; cbn in *; rewrite ?app_nil_r in *; try done. }
  destruct (resetErr (st r)) as [e|] eqn:Er.
  { pose proof (completed_inv _ (flagged_inv _ true I)) as I1. cbn [update st] in I1.
    destruct (isNewlyCompleted _) as [b s'] in Hw, I1. injection Hw as <- <- <-.
    rewrite update_update in I1 by done. by apply (Hret _ I1). }
  destruct (shutdownErr (st r)) as [e|] eqn:Es; [injection Hw as <- <- <-; rewrite update_nil; by apply (Hret r)|].
  destruct (finishedWriting (st r)) eqn:Ef; [injection Hw as <- <- <-; rewrite update_nil; by apply (Hret r)|].
  destruct (expired (st r) now); [injection Hw as <- <- <-; rewrite update_nil; by apply (Hret r)|].
  destruct (blen p =? 0) eqn:Ep; [injection Hw as <- <- <-; rewrite update_nil; by apply (Hret r)|].
  pose proof (i_idle _ I Hp Er Es) as Hd.
  set (r1 := mkRun (with_data (st r) (Some p)) (Some p) (app r) (sent r) (frames r)
    (inflight r) (acked r) (resets r) (active r) (control r) (reported r)).
  apply (write_iter_inv r1 p now' false s w ns); [|done|done| |done].
  - destruct I. unfold cur in *. rewrite Hp in *. cbn in *. rewrite ?app_nil_r in *. split; try done; cbn.
    + destruct i_pop0. split; try done. cbn. intros [= ->]. done.
    + intros Hf. destruct (i_finSent0 Hf) as (? & _). congruence.
    + congruence.
    + intros _ _. pose proof (i_content0 Er Es) as Hc. rewrite Hd in Hc. cbn in Hc. rewrite app_nil_r in Hc. rewrite <- Hc, <- app_assoc. done.
    + change (kept (told r1)) with (kept r). by apply prefix_app_r.
    + intros p0 [= <-]. unfold dlen. cbn. split; [lia|]. change (kept (told r1)) with (kept r). rewrite blen_app.
      apply prefix_length in i_kept0. unfold blen in *. lia.
  - intros [Hs Ht]. apply (i_active _ I). split; [done|]. cbn in Ht. rewrite Er in *. by rewrite Hd.
Qed.

(** ** Popping *)

(** The run after [popStreamFrame] returned [f]. *)
Definition popped (r : run) (s' : SendStream) (f : option StreamFrame) (more : bool) : run :=
  mkRun s' (writer r) (app r)
    (sent r ++ match f with Some f => take (Z.to_nat (writeOffset s' - writeOffset (st r))) (Data f) | None => [] end)
    (frames r ++ option_list f) (inflight r ++ option_list f) (acked r) (resets r) more (control r) (reported r).

Lemma piece_app w o d w' : piece w o d -> piece (w ++ w') o d.
Proof.
  intros (H1 & H2 & H3). split; [done|]. split; [rewrite blen_app; pose proof (blen_nonneg w'); lia|].
  unfold blen in *. rewrite drop_app_le, take_app_le; [done| |lia]. rewrite length_drop. lia.
Qed.

Lemma piece_last w d : piece (w ++ d) (blen w) d.
Proof.
  unfold piece, blen. rewrite length_app, Nat2Z.id, drop_app_length, take_ge by lia. split_and!; [lia..|done].
Qed.

Lemma piece_cut w o d1 d2 : piece w o (d1 ++ d2) -> piece w o d1 /\ piece w (o + blen d1) d2.
Proof.
  intros (H1 & H2 & H3). rewrite blen_app in H2. pose proof (blen_nonneg d1). pose proof (blen_nonneg d2). rewrite length_app in H3. split.
  - split; [done|]. split; [lia|]. apply (f_equal (take (length d1))) in H3. rewrite take_take, take_app_length in H3.
    by rewrite Nat.min_l in H3 by lia.
  - split; [lia|]. split; [lia|]. apply (f_equal (drop (length d1))) in H3. rewrite drop_app_length, skipn_firstn_comm, drop_drop in H3.
    rewrite <- H3 at 2. unfold blen. f_equal; [lia|f_equal; lia].
Qed.

Lemma frame_ok_app (r r' : run) f :
  frame_ok r f -> streamID (st r') = streamID (st r) -> (exists d, sent r' = sent r ++ d) -> frame_ok r' f.
Proof. intros (H1 & H2 & H3) Hi [d Hd]. unfold frame_ok. rewrite Hi, Hd. split_and!; [done|done|by apply piece_app]. Qed.

Lemma cut_ok f g f' : stream_ok f -> cut f g f' -> stream_ok g /\ stream_ok f'.
Proof.
  intros (H1 & H2 & H3 & H4 & H5) (C1 & C2 & C3 & C4 & C5 & C6 & C7 & C8 & C9). unfold stream_ok. rewrite C4, C5, C6, C7.
  rewrite <- C1, blen_app in H3, H4. pose proof (blen_nonneg (Data g)). pose proof (blen_nonneg (Data f')). split_and!; try done; lia.
Qed.

Lemma pop_none_inv (r : run) more : inv r -> (more = false -> ~ to_send (st r)) -> inv (popped r (st r) None more).
Proof.
  intros [] Hm. unfold popped. cbn [option_list]. rewrite !app_nil_r. split; try done. cbn. intros Ht. destruct more; [done|]. by destruct Hm.
Qed.

Lemma counted_push (r : run) f more s' :
  resetErr s' = resetErr (st r) -> reliableOffset s' = reliableOffset (st r) -> (resetErr (st r) <> None -> 0 < reliableOffset (st r)) ->
  counted (popped r s' (Some f) more) = S (counted r).
Proof.
  intros H1 H2 H3. unfold counted, popped. cbn. rewrite H1, H2. destruct (resetErr (st r)); cbn.
  - rewrite (proj2 (Z.eqb_neq _ _)) by (specialize (H3 ltac:(done)); lia). rewrite length_app. cbn. lia.
  - rewrite length_app. cbn. lia.
Qed.

Lemma requeue_inv (r : run) f q g f' :
  inv r -> shutdownErr (st r) = None -> (resetErr (st r) <> None -> 0 < reliableOffset (st r)) ->
  retransmissionQueue (st r) = f :: q ->
  (g = f /\ f' = [] \/ exists h, f' = [h] /\ cut f g h) ->
  inv (popped r (with_outstanding (with_queue (st r) (f' ++ q)) (numOutstandingFrames (st r) + 1)) (Some g) true).
Proof.
  intros I Hs Hrel Hq Hg. set (s' := with_outstanding _ _).
  assert (Hsent : sent (popped r s' (Some g) true) = sent r).
  { unfold popped. cbn. by rewrite Z.sub_diag, app_nil_r. }
  assert (Hfok : frame_ok r f) by (apply (Forall_forall (frame_ok r) (pending r ++ acked r ++ frames r)); [apply I|]; unfold pending; rewrite Hq; by left).
  destruct Hfok as (Hi & Hok & Hpc).
  assert (Hnew : Forall (frame_ok r) (g :: f')).
  { destruct Hg as [[-> ->]|(h & -> & Hc)]; [by apply Forall_singleton|]. destruct (cut_ok f g h Hok Hc) as [Hg Hh].
    destruct Hc as (C1 & C2 & C3 & C4 & C5 & C6 & C7 & C8 & C9). rewrite <- C1 in Hpc. apply piece_cut in Hpc as [Hp1 Hp2].
    rewrite !Forall_cons. unfold frame_ok. rewrite C4, C5, C6, C7. done. }
  assert (Hmem : forall x, x ∈ pending (popped r s' (Some g) true) -> x ∈ g :: f' \/ x ∈ pending r).
  { intros x. unfold pending, popped. cbn. rewrite Hq, !elem_of_app, !elem_of_cons. set_solver. }
  assert (Hback : forall x, x ∈ pending r -> x = f \/ x ∈ pending (popped r s' (Some g) true)).
  { intros x. unfold pending, popped. cbn. rewrite Hq, !elem_of_app, !elem_of_cons. set_solver. }
  assert (Hend : forall x, x ∈ g :: f' -> Fin x = true -> Fin f = true /\ Offset x + blen (Data x) = Offset f + blen (Data f)).
  { intros x Hx Hf. destruct Hg as [[-> ->]|(h & -> & C1 & C2 & C3 & C4 & C5 & C6 & C7 & C8 & C9)].
    - by apply list_elem_of_singleton in Hx as ->.
    - rewrite elem_of_cons, list_elem_of_singleton in Hx. destruct Hx as [-> | ->]; [congruence|].
      rewrite <- C1, C5, blen_app, <- C9. split; [done|lia]. }
  assert (Hcut : forall x, carries f x -> covered (g :: f') x).
  { intros x Hx. unfold covered, carries in *. destruct Hg as [[-> ->]|(h & -> & C1 & C2 & C3 & C4 & C5 & _)]; [exists f; split; [by left|done]|].
    rewrite <- C1, blen_app in Hx. destruct (decide (x < Offset f + blen (Data g))); [exists g|exists h]; (split; [set_solver|lia]). }
  assert (Hin : forall x, x ∈ g :: f' -> x ∈ pending (popped r s' (Some g) true)).
  { intros x. unfold pending, popped. cbn. rewrite !elem_of_app, !elem_of_cons. set_solver. }
  assert (Hall : forall x, x ∈ pending (popped r s' (Some g) true) ++ acked r ++ frames r ++ [g] -> x ∈ g :: f' \/ x ∈ pending r ++ acked r ++ frames r).
  { intros x. rewrite !elem_of_app, list_elem_of_singleton. intros [Hx|[Hx|[Hx| ->]]]; [|by right; auto..|left; by left].
    destruct (Hmem x Hx); [by left|by right; left]. }
  clear Hmem. destruct I. split; try (rewrite ?Hsent; done); cbn [popped st writer app frames inflight acked resets active control reported].
  - destruct i_pop0. split; try done. cbn. rewrite Hq in po_queue0. apply Forall_cons in po_queue0 as [_ ?]. apply Forall_app. split; [|done].
    apply Forall_cons in Hnew as [_ Hnew]. eapply Forall_impl; [exact Hnew|]. by intros x (_ & ? & _).
  - apply Forall_forall. intros x Hx. apply (frame_ok_app r); [|done|exists []; by rewrite Hsent, app_nil_r].
    rewrite Forall_forall in Hnew, i_frames0. destruct (Hall x Hx); auto.
  - intros Hn x Hx Hfx. destruct (Hall x Hx) as [H1|H1]; [|by apply (i_fin0 Hn)].
    destruct (Hend x H1 Hfx) as [Hf ->]. apply (i_fin0 Hn f); [|done]. unfold pending. rewrite Hq. by left.
  - unfold kept in *. by rewrite Hsent.
  - unfold kept in *. by rewrite Hsent.
  - rewrite counted_push by done. cbn. rewrite i_count0. lia.
  - intros _ x Hx Hre. destruct (i_cover0 Hs x Hx Hre) as (h & Hh & Hc). apply elem_of_app in Hh as [Hh|Hh].
    + destruct (Hback h Hh) as [->|Hh']; [|exists h; split; [apply elem_of_app; by left|done]].
      destruct (Hcut x Hc) as (k & Hk & Hkc). exists k. split; [apply elem_of_app; left; by apply Hin|done].
    + exists h. split; [apply elem_of_app; by right|done].
  - intros Hn _ Hf. destruct (i_fincover0 Hn Hs Hf) as (h & Hh & Hfh). apply elem_of_app in Hh as [Hh|Hh].
    + destruct (Hback h Hh) as [->|Hh']; [|exists h; split; [apply elem_of_app; by left|done]].
      destruct Hg as [[-> ->]|(k & -> & C1 & C2 & C3 & C4 & C5 & C6 & C7 & C8 & C9)].
      * exists f. split; [apply elem_of_app; left; apply Hin; by left|done].
      * exists k. split; [apply elem_of_app; left; apply Hin; right; by left|congruence].
    + exists h. split; [apply elem_of_app; by right|done].
  - intros Hc Hn _. exfalso. destruct (i_completed0 Hc Hn Hs) as [_ Hp]. unfold pending in Hp. by rewrite Hq in Hp.
Qed.

Lemma pop_fin_inv (r : run) more :
  inv r -> shutdownErr (st r) = None -> resetErr (st r) = None -> retransmissionQueue (st r) = [] -> nextFrame (st r) = None ->
  dataForWriting (st r) = None -> finishedWriting (st r) = true -> finSent (st r) = false -> (more = false -> ~ to_send (with_finSent (st r) true)) ->
  inv (popped r (with_outstanding (with_finSent (st r) true) (numOutstandingFrames (st r) + 1))
         (Some (mkStream (streamID (st r)) (writeOffset (st r)) [] true true false)) more).
Proof.
  intros I Hs Hre Hq Hn Hd Hf Hfs Hm. set (g := mkStream _ _ _ _ _ _). set (s' := with_outstanding _ _).
  assert (Hsent : sent (popped r s' (Some g) more) = sent r).
  { unfold popped. cbn. by rewrite take_nil, app_nil_r. }
  assert (Hpend : pending (popped r s' (Some g) more) = pending r ++ [g]) by (unfold pending, popped; cbn; apply app_assoc).
  assert (Hg : frame_ok r g).
  { split; [done|]. destruct I as [[]]. split; [|cbn; rewrite <- i_sent0; split; [lia|rewrite blen_nil; split; [lia|done]]].
    unfold stream_ok. cbn. rewrite blen_nil, Z.add_0_r. unfold MaxPacketBufferSize. split_and!; (done || lia). }
  assert (Hno : forall f, f ∈ pending r ++ acked r ++ frames r -> Fin f = true -> False).
  { intros f Hin Hff. destruct (i_fin _ I Hre f Hin Hff). congruence. }
  destruct I. split; try (rewrite ?Hsent; done); cbn [popped st writer app frames inflight acked resets active control reported]; rewrite ?Hpend.
  - destruct i_pop0. by split.
  - apply Forall_forall. intros x Hx. apply (frame_ok_app r); [|done|exists []; by rewrite Hsent, app_nil_r].
    rewrite Forall_forall in i_frames0. cbn in Hx. rewrite !elem_of_app, list_elem_of_singleton in Hx.
    destruct Hx as [[?| ->]|[?|[?| ->]]]; try done; apply i_frames0; rewrite !elem_of_app; auto.
  - intros _ x Hx Hfx. cbn in Hx |- *. rewrite !elem_of_app, list_elem_of_singleton in Hx.
    assert (x = g) as ->; [|cbn; rewrite blen_nil; split; [done|lia]].
    destruct Hx as [[?| ->]|[?|[?| ->]]]; try done; exfalso; apply (Hno x); rewrite ?elem_of_app; auto.
  - unfold kept in *. by rewrite Hsent.
  - unfold kept in *. by rewrite Hsent.
  - rewrite counted_push by done. cbn. rewrite i_count0. lia.
  - intros _ x Hx Hr. destruct (i_cover0 Hs x Hx Hr) as (h & Hh & Hc). exists h. split; [|done]. rewrite !elem_of_app in *. naive_solver.
  - intros _ _ _. exists g. split; [|done]. rewrite !elem_of_app, list_elem_of_singleton. auto.
  - intros Hc. destruct (i_completed0 Hc Hre Hs). congruence.
  - intros Ht. destruct more; [done|]. by destruct Hm.
Qed.

(** Taking bytes: what was left is the bytes and what is left now. *)
Lemma takes_data (s : SendStream) d data next chan :
  takes s d data next chan -> next_data s ++ default [] (dataForWriting s) =
    d ++ (match next with Some f => Data f | None => [] end) ++ default [] data.
Proof.
  unfold next_data. destruct 1 as [f Hn Hd|f rest Hn Hd Hr|Hn _ Hd|rest Hn _ Hd Hr]; rewrite Hn, ?Hd; cbn; by rewrite ?app_nil_r, ?app_assoc.
Qed.

Lemma popped_pop_ok (r : run) d data next chan c fin :
  pop_ok (st r) -> shutdownErr (st r) = None -> retransmissionQueue (st r) = [] -> takes (st r) d data next chan ->
  used c = used (flowController (st r)) + blen d -> limit c = limit (flowController (st r)) ->
  writeOffset (st r) + blen d <= limit (flowController (st r)) ->
  (resetErr (st r) <> None -> blen d <= reliableOffset (st r) - writeOffset (st r)) ->
  pop_ok (with_outstanding (after_new (st r) (blen d) data next chan c fin) (numOutstandingFrames (st r) + 1)).
Proof.
  intros [] Hs Hq Htk Hu Hl Hw Hdr. pose proof (blen_nonneg d). split; cbn; try done; try lia.
  - intros f Hf. cbn in Hf. inversion Htk as [f' Hn Hf'|f' rest Hn Hf' Hne|Hn Hx Hdd|rest Hn Hx Hdd]; simplify_eq. cbn.
    destruct (po_next0 f' Hn) as (_ & _ & Hlen & _). rewrite Hf', blen_app in Hlen.
    destruct rest as [|b rest]; [done|]. rewrite blen_cons in *. pose proof (blen_nonneg rest). split_and!; (done || lia).
  - intros [= ->]. inversion Htk; congruence.
  - intros Hr _. specialize (po_reliable0 Hr Hs). change (reliableOffset _) with (reliableOffset (st r)). unfold next_data in *. cbn.
    destruct Htk as [f' Hn Hf'|f' rest Hn Hf' Hne|Hn Hx|rest Hn Hx]; [| |done..]; rewrite Hn, Hf', ?blen_app in po_reliable0; cbn; rewrite ?blen_nil; lia.
Qed.

Lemma pop_new_inv (r : run) d data next chan c pool more :
  inv r -> shutdownErr (st r) = None -> retransmissionQueue (st r) = [] -> takes (st r) d data next chan ->
  0 < blen d <= MaxPacketBufferSize -> blen d <= SendWindowSize (flowController (st r)) ->
  (resetErr (st r) <> None -> blen d <= reliableOffset (st r) - writeOffset (st r)) ->
  (resetErr (st r) <> None -> 0 < reliableOffset (st r)) ->
  used c = used (flowController (st r)) + blen d -> limit c = limit (flowController (st r)) ->
  let fin := fin_now (st r) data next in
  let s' := after_new (st r) (blen d) data next chan c fin in
  (more = false -> ~ to_send s') ->
  inv (popped r (with_outstanding s' (numOutstandingFrames s' + 1))
         (Some (mkStream (streamID (st r)) (writeOffset (st r)) d fin true pool)) more).
Proof.
  intros I Hs Hq Htk Hd Hw Hdr Hrel Hu Hl fin s' Hm. set (g := mkStream _ _ _ _ _ _). set (s2 := with_outstanding _ _).
  assert (Hsent : sent (popped r s2 (Some g) more) = sent r ++ d).
  { unfold popped. cbn. f_equal. rewrite Z.add_simpl_l. apply take_ge. unfold blen. llia. }
  assert (Hpend : pending (popped r s2 (Some g) more) = pending r ++ [g]) by (unfold pending, popped; cbn; apply app_assoc).
  pose proof (takes_data _ _ _ _ _ Htk) as Htd. change (match next with Some f => Data f | None => [] end) with (next_data s2) in Htd.
  assert (Hfs : finSent (st r) = false).
  { destruct (finSent (st r)) eqn:E; [|done]. destruct (i_finSent _ I E) as (_ & Hn & Hdn).
    destruct Htk as [f Hn'|f rest Hn'|Hn' _ Hd'|rest Hn' _ Hd']; congruence. }
  assert (Hno : forall f, f ∈ pending r ++ acked r ++ frames r -> resetErr (st r) = None -> Fin f = true -> False).
  { intros f Hin Hre Hff. destruct (i_fin _ I Hre f Hin Hff). congruence. }
  assert (Hwo : writeOffset (st r) + blen d <= limit (flowController (st r))).
  { destruct I as [[]]. pose proof (window_le (flowController (st r)) ltac:(llia)). llia. }
  assert (Hg : frame_ok (popped r s2 (Some g) more) g).
  { split; [done|]. rewrite Hsent. cbn. rewrite <- (i_sent _ I). split; [|apply piece_last]. destruct I as [[]].
    unfold stream_ok. cbn. split_and!; [done|llia|llia|llia|]. intros ->. rewrite blen_nil in Hd. llia. }
  assert (Hkept : resetErr (st r) <> None -> kept (popped r s2 (Some g) more) = kept r /\ dlen s2 = dlen (st r) /\ next_data (st r) = d ++ next_data s2).
  { intros Hre. assert (next_data (st r) = d ++ next_data s2 /\ data = dataForWriting (st r)) as [Hnd Hdd].
    { unfold next_data at 1. destruct Htk as [f Hn Hf|f rest Hn Hf|Hn Hx|rest Hn Hx]; [| |done..]; rewrite Hn, Hf; unfold s2, next_data; cbn; by rewrite ?app_nil_r. }
    split; [|split; [unfold dlen, s2; cbn; by rewrite Hdd|done]]. unfold kept. rewrite Hsent. cbn [popped st]. change (resetErr s2) with (resetErr (st r)).
    change (shutdownErr s2) with (shutdownErr (st r)). rewrite Hs. destruct (resetErr (st r)); [|done]. cbn [is_Some_b andb negb].
    rewrite <- app_assoc, Hnd. f_equal. change (reliableOffset s2) with (reliableOffset (st r)). change (writeOffset s2) with (writeOffset (st r) + blen d).
    specialize (Hdr ltac:(done)). rewrite take_app_ge by (unfold blen in *; llia). do 2 f_equal. unfold blen. llia. }
  assert (Hnone : resetErr (st r) = None -> kept (popped r s2 (Some g) more) = sent r ++ d) by (intros Hre; rewrite kept_none; done).
  assert (Hall : forall x, x ∈ (pending r ++ [g]) ++ acked r ++ frames r ++ [g] -> x = g \/ x ∈ pending r ++ acked r ++ frames r).
  { intros x. rewrite !elem_of_app, list_elem_of_singleton. naive_solver. }
  destruct I. split; rewrite ?Hpend; try done; cbn [popped st writer app frames inflight acked resets active control reported].
  - apply (popped_pop_ok r d data next chan c fin); done.
  - rewrite Hsent, blen_app, i_sent0. done.
  - apply Forall_forall. intros x Hx. destruct (Hall x Hx) as [->|Hx']; [done|].
    apply (frame_ok_app r); [|done|exists d; done]. rewrite Forall_forall in i_frames0. auto.
  - intros Hre x Hx Hfx. destruct (Hall x Hx) as [->|Hx']; [|by destruct (Hno x Hx' Hre)].
    cbn in Hfx |- *. rewrite Hfx, orb_true_r. done.
  - cbn. rewrite Hfs. cbn. unfold fin, fin_now. intros Hf. rewrite !andb_true_iff in Hf. destruct data, next; naive_solver.
  - intros Hwr Hre _. specialize (i_idle0 Hwr Hre Hs). cbn. destruct Htk; congruence.
  - intros Hre _. change (cur _) with (cur r). rewrite Hsent, <- (i_content0 Hre Hs), <- app_assoc. f_equal. rewrite Htd. done.
  - destruct (resetErr (st r)) eqn:Hre; [destruct Hkept as [-> _]; done|]. rewrite Hnone by done.
    change (cur _) with (cur r). rewrite <- (i_content0 eq_refl Hs), Htd, app_assoc. by apply prefix_app_r.
  - intros p Hp. destruct (i_room0 p Hp) as [Hr1 Hr2]. destruct (resetErr (st r)) eqn:Hre.
    { destruct Hkept as (-> & -> & _); done. }
    specialize (i_content0 eq_refl Hs). rewrite Htd in i_content0. unfold cur in i_content0. rewrite Hp in i_content0. cbn in i_content0.
    assert (Hdl : dlen s2 = blen (default [] data)) by (unfold dlen, s2; cbn; by destruct data).
    apply (f_equal blen) in i_content0. rewrite Hnone, Hdl by done. rewrite !blen_app in *. pose proof (blen_nonneg (next_data s2)).
    split; [|llia]. destruct Htk as [f Hn Hf|f rest Hn Hf|Hn Hx Hdd|rest Hn Hx Hdd]; cbn; unfold dlen in Hr1; rewrite ?Hdd in Hr1; rewrite ?blen_nil, ?blen_app in *;
      pose proof (blen_nonneg p); try llia; destruct (dataForWriting (st r)); cbn; rewrite ?blen_nil; llia.
  - intros Hre _. specialize (i_bound0 Hre Hs). unfold next_data, s2 in *. cbn.
    destruct Htk as [f Hn Hf|f rest Hn Hf|Hn Hx Hdd|rest Hn Hx Hdd]; rewrite Hn in i_bound0; rewrite ?Hf, ?blen_app, ?blen_nil in *; cbn; rewrite ?blen_nil; llia.
  - rewrite counted_push by done. cbn. rewrite i_count0. llia.
  - destruct (resetErr (st r)) eqn:Hre.
    + eapply Forall_impl; [exact i_final0|]. intros f [H1 H2]. specialize (Hdr ltac:(done)). change (reliableOffset s2) with (reliableOffset (st r)). cbn. llia.
    + destruct (i_noreset0 eq_refl) as [-> Hqn]. change (queuedResetStreamFrame s2) with (queuedResetStreamFrame (st r)). by rewrite Hqn.
  - intros _ x Hx Hre. destruct (decide (x < writeOffset (st r))) as [Hlt|Hge].
    + destruct (i_cover0 Hs x ltac:(llia) Hre) as (h & Hh & Hc). exists h. split; [|done]. rewrite !elem_of_app in *. naive_solver.
    + exists g. split; [rewrite !elem_of_app, list_elem_of_singleton; auto|]. unfold carries. cbn in *. llia.
  - intros Hre _. cbn. rewrite Hfs. cbn. intros Hf. exists g. split; [rewrite !elem_of_app, list_elem_of_singleton; auto|done].
  - intros Hc Hre _. destruct (i_completed0 Hc Hre Hs). congruence.
  - intros Ht. destruct more; [done|]. by destruct Hm.
  - intros Hwr Hc. specialize (i_wake0 Hwr). cbn in Hc |- *. unfold is_reset in *. cbn in Hc.
    destruct Htk as [f Hn Hf|f rest Hn Hf|Hn Hx Hdd|rest Hn Hx Hdd]; try done.
    + apply i_wake0. destruct Hc as [?|[?|[?|[? _]]]]; [by left|done|by right; right; left|done].
    + destruct Hc as [?|[?|[?|[_ Hl2]]]]; try done. unfold dlen in Hl2. cbn in Hl2. rewrite (proj2 (Z.leb_le _ _)) by llia. apply orb_true_r.
Qed.

Lemma pop_inv (r : run) maxBytes :
  inv r -> 0 <= maxBytes <= MaxPacketBufferSize ->
  exists f b s' more, popStreamFrame (st r) maxBytes = Ok (f, b, s', more) /\ inv (popped r s' f more) /\
    (f = None -> more = true -> maxBytes < 19 \/ SendWindowSize (flowController (st r)) = 0).
Proof.
  intros I Hm. destruct (pop_stream_spec (st r) maxBytes (i_pop _ I) Hm) as (f & b & s' & more & Hp & Hc & Hmore & Hsome & Hroom & _).
  unfold popStreamFrame. rewrite Hp. cbn [mbind res_bind]. eexists f, b, _, more. split; [done|]. split; [|done].
  destruct Hc as [|f q Hq|f q g f' Hq Hc|Hre Hq Hn Hd Hf Hfs|d data next chan c pool Hq Htk Hd Hw Hdr Hu Hl].
  - by apply pop_none_inv.
  - destruct Hsome as [Hs Hr]; [done|]. assert (Hmt : inv (popped r (with_outstanding (with_queue (st r) ([] ++ q)) (numOutstandingFrames (st r) + 1)) (Some f) true)).
    { eapply requeue_inv; [done..|]. by left. }
    destruct more; [exact Hmt|]. destruct Hmt. split; try done. intros Ht. by destruct Hmore.
  - destruct Hsome as [Hs Hr]; [done|]. assert (Hmt : inv (popped r (with_outstanding (with_queue (st r) ([f'] ++ q)) (numOutstandingFrames (st r) + 1)) (Some g) true)).
    { eapply requeue_inv; [done..|]. right. by exists f'. }
    destruct more; [exact Hmt|]. destruct Hmt. split; try done. intros Ht. by destruct Hmore.
  - destruct Hsome as [Hs Hr]; [done|]. by apply pop_fin_inv.
  - destruct Hsome as [Hs Hr]; [done|]. by apply pop_new_inv.
Qed.

(** ** Acknowledgements and losses *)

(** A frame leaves the network: it is acknowledged, queued again or dropped. *)
Lemma move_inv (r : run) i f q' ak' n ns :
  let s' := with_queue (with_outstanding (st r) n) q' in
  let r' := with_flight (update r s' ns) (delete i (inflight r)) ak' (resets r) in
  inv r -> inflight r !! i = Some f -> has onStreamCompleted ns = false ->
  n = Z.of_nat (counted r') ->
  (forall x, x ∈ retransmissionQueue (st r) ++ acked r -> x ∈ q' ++ ak') ->
  (forall x, x ∈ q' ++ ak' -> x ∈ retransmissionQueue (st r) ++ acked r \/
     frame_ok r x /\ (resetErr (st r) = None -> Fin x = true -> Fin f = true /\ Offset x + blen (Data x) = Offset f + blen (Data f))) ->
  (forall x, shutdownErr (st r) = None -> (is_reset (st r) -> x < reliableOffset (st r)) -> carries f x -> covered (q' ++ ak') x) ->
  (resetErr (st r) = None -> Fin f = true -> exists g, g ∈ q' ++ ak' /\ Fin g = true) ->
  q' = retransmissionQueue (st r) \/ has onHasStreamData ns = true ->
  inv r'.
Proof.
  intros s' r' I Hi Hns Hn Hold Hnew Hcov Hfin Hact.
  assert (Hdel : forall x, x ∈ delete i (inflight r) -> x ∈ inflight r).
  { intros x Hx. apply (elem_of_Permutation_proper x _ _ (delete_Permutation _ _ _ Hi)). by right. }
  assert (Hdel' : forall x, x ∈ inflight r -> x = f \/ x ∈ delete i (inflight r)).
  { intros x Hx. apply (elem_of_Permutation_proper x _ _ (delete_Permutation _ _ _ Hi)) in Hx. by apply elem_of_cons in Hx. }
  assert (Hfin_in : f ∈ pending r). { unfold pending. apply elem_of_app. right. by eapply list_elem_of_lookup_2. }
  assert (Hall : forall x, x ∈ pending r' ++ ak' -> x ∈ pending r ++ acked r \/ x ∈ q' ++ ak').
  { intros x. unfold pending. cbn. rewrite !elem_of_app. specialize (Hdel x). naive_solver. }
  assert (Hsome : forall x, x ∈ pending r ++ acked r -> x = f \/ x ∈ pending r' ++ ak').
  { intros x. unfold pending. cbn. specialize (Hold x). specialize (Hdel' x). clear -Hold Hdel'. rewrite !elem_of_app in *. tauto. }
  assert (Hq : forall x, x ∈ q' ++ ak' -> x ∈ pending r' ++ ak').
  { intros x. unfold pending. cbn. rewrite !elem_of_app. naive_solver. }
  assert (Hfok : frame_ok r f).
  { pose proof (i_frames _ I) as Hx. rewrite Forall_forall in Hx. apply Hx, elem_of_app. by left. }
  assert (Hnewok : forall x, x ∈ q' ++ ak' -> frame_ok r x).
  { intros x Hx. destruct (Hnew x Hx) as [H1|[H1 _]]; [|done]. pose proof (i_frames _ I) as Hy. rewrite Forall_forall in Hy.
    apply Hy. unfold pending. rewrite !elem_of_app in *. naive_solver. }
  destruct I. split; try done; cbn [with_flight update st writer app sent frames inflight acked resets active control reported].
  - destruct i_pop0. split; try done. cbn. apply Forall_forall. intros x Hx. destruct (Hnewok x) as (_ & ? & _); [|done]. apply elem_of_app. by left.
  - apply Forall_forall. intros x Hx. rewrite Forall_forall in i_frames0. rewrite app_assoc in Hx. apply elem_of_app in Hx as [Hx|Hx].
    + destruct (Hall x Hx) as [Hx'|Hx']; [|by apply Hnewok]. apply i_frames0. rewrite app_assoc. apply elem_of_app. by left.
    + apply i_frames0. rewrite !elem_of_app. auto.
  - intros Hre x Hx Hfx. rewrite app_assoc in Hx. apply elem_of_app in Hx as [Hx|Hx]; [|apply (i_fin0 Hre x); [rewrite !elem_of_app; auto|done]].
    destruct (Hall x Hx) as [Hx'|Hx']; [apply (i_fin0 Hre x); [rewrite !elem_of_app in *; naive_solver|done]|].
    destruct (Hnew x Hx') as [Hy|[_ Hy]]; [apply (i_fin0 Hre x); [unfold pending; rewrite !elem_of_app in *; naive_solver|done]|].
    destruct (Hy Hre Hfx) as [Hf ->]. apply (i_fin0 Hre f); [|done]. apply elem_of_app. by left.
  - intros Hs x Hx Hr. destruct (i_cover0 Hs x Hx Hr) as (h & Hh & Hc). destruct (Hsome h Hh) as [->|Hh']; [|by exists h].
    destruct (Hcov x Hs Hr Hc) as (k & Hk & Hkc). exists k. split; [by apply Hq|done].
  - intros Hre Hs Hf. destruct (i_fincover0 Hre Hs Hf) as (h & Hh & Hfh). destruct (Hsome h Hh) as [->|Hh']; [|by exists h].
    destruct (Hfin Hre Hfh) as (k & Hk & Hkf). exists k. split; [by apply Hq|done].
  - intros Hc Hre Hs. destruct (i_completed0 Hc Hre Hs) as [_ Hp]. rewrite Hp in Hfin_in. by apply elem_of_nil in Hfin_in.
  - change (reported r') with (reported r + if has onStreamCompleted ns then 1 else 0)%nat. rewrite Hns, Nat.add_0_r. done.
  - intros Ht. change (active r') with (active r || has onHasStreamData ns). destruct Hact as [->|Hhas]; [|rewrite Hhas; apply orb_true_r].
    rewrite i_active0; [done|]. destruct Ht as [Hs Ht]. split; [done|]. exact Ht.
  - intros Hqr. change (control r') with (control r || has onHasStreamControlFrame ns). by rewrite i_control0.
Qed.

Lemma with_queue_same (s : SendStream) n : with_queue (with_outstanding s n) (retransmissionQueue s) = with_outstanding s n.
Proof. done. Qed.

Lemma update_flight (r : run) s0 fl ak rs s ns :
  update (with_flight (update r s0 []) fl ak rs) s ns = with_flight (update r s ns) fl ak rs.
Proof. unfold update, with_flight. cbn. by rewrite !orb_false_r, Nat.add_0_r. Qed.

Lemma counted_flight (r : run) i f n q' ak' ns :
  inv r -> inflight r !! i = Some f -> ~ (is_reset (st r) /\ reliableOffset (st r) = 0) ->
  S (counted (with_flight (update r (with_queue (with_outstanding (st r) n) q') ns) (delete i (inflight r)) ak' (resets r))) = counted r.
Proof.
  intros I Hi Hr. unfold counted. cbn. change (reliableOffset _) with (reliableOffset (st r)).
  pose proof (length_delete (inflight r) i ltac:(eauto)). pose proof (lookup_lt_Some _ _ _ Hi). unfold is_reset in Hr.
  destruct (resetErr (st r)); cbn; [destruct (_ =? 0) eqn:E; [exfalso; apply Hr; split; [done|lia]|]|]; lia.
Qed.

Lemma counted_flight_reset (r : run) i n q' ak' ns :
  is_reset (st r) -> reliableOffset (st r) = 0 ->
  counted (with_flight (update r (with_queue (with_outstanding (st r) n) q') ns) (delete i (inflight r)) ak' (resets r)) = counted r.
Proof.
  intros Hr H0. unfold counted. cbn. change (reliableOffset _) with (reliableOffset (st r)). rewrite H0. unfold is_reset in Hr.
  by destruct (resetErr (st r)).
Qed.

Lemma ack_inv (r : run) i f :
  inv r -> inflight r !! i = Some f ->
  exists s ns, stream_OnAcked (st r) = Ok (s, ns) /\ inv (with_flight (update r s ns) (delete i (inflight r)) (acked r ++ [f]) (resets r)).
Proof.
  intros I Hi. unfold stream_OnAcked.
  assert (Hmove : forall n, n = Z.of_nat (counted (with_flight (update r (with_queue (with_outstanding (st r) n) (retransmissionQueue (st r))) []) (delete i (inflight r)) (acked r ++ [f]) (resets r))) ->
            inv (with_flight (update r (with_outstanding (st r) n) []) (delete i (inflight r)) (acked r ++ [f]) (resets r))).
  { intros n Hn. rewrite <- with_queue_same. eapply move_inv; try done.
    - intros x. rewrite !elem_of_app. naive_solver.
    - intros x. rewrite !elem_of_app, list_elem_of_singleton. intros [?|[?| ->]]; [by left; left|by left; right|]. right. split; [|done].
      pose proof (i_frames _ I) as Hx. rewrite Forall_forall in Hx. apply Hx. unfold pending. rewrite !elem_of_app. left. right. by eapply list_elem_of_lookup_2.
    - intros x _ _ Hc. exists f. split; [|done]. rewrite !elem_of_app, list_elem_of_singleton. auto.
    - intros _ Hf. exists f. split; [|done]. rewrite !elem_of_app, list_elem_of_singleton. auto.
    - by left. }
  destruct (is_Some_b (resetErr (st r)) && _) eqn:E.
  { eexists _, _. split; [done|]. assert (with_outstanding (st r) (numOutstandingFrames (st r)) = st r) as He by (by destruct (st r)).
    rewrite <- He at 1. apply Hmove. apply andb_prop in E as [E1 E2]. rewrite counted_flight_reset; [apply I| |lia].
    unfold is_reset. by destruct (resetErr (st r)). }
  assert (~ (is_reset (st r) /\ reliableOffset (st r) = 0)) as Hnr.
  { intros [H1 H2]. unfold is_reset in H1. rewrite H2 in E. by destruct (resetErr (st r)). }
  assert (Hc : numOutstandingFrames (st r) - 1 = Z.of_nat (counted (with_flight (update r (with_queue (with_outstanding (st r) (numOutstandingFrames (st r) - 1)) (retransmissionQueue (st r))) []) (delete i (inflight r)) (acked r ++ [f]) (resets r)))).
  { pose proof (counted_flight r i f (numOutstandingFrames (st r) - 1) (retransmissionQueue (st r)) (acked r ++ [f]) [] I Hi Hnr). pose proof (i_count _ I). lia. }
  unfold outstanding_done. rewrite (proj2 (Z.ltb_ge _ 0)) by lia. cbn [mbind res_bind].
  pose proof (completed_inv _ (Hmove _ Hc)) as I1. cbn [with_flight update st] in I1.
  destruct (isNewlyCompleted _) as [b s'] in I1 |- *. eexists _, _. split; [done|]. by rewrite update_flight in I1.
Qed.

Lemma truncate_ok (r : run) n f :
  frame_ok r f -> Offset f < n ->
  frame_ok r (truncate n f) /\ Offset (truncate n f) = Offset f /\ Fin (truncate n f) = Fin f /\
  (forall x, carries f x -> x < n -> carries (truncate n f) x).
Proof.
  intros (Hi & (Ho1 & Ho2 & Ho3 & Ho4 & Ho5) & Hp) Hn. unfold truncate. destruct (_ <=? n) eqn:E; [by split_and!|].
  pose proof (piece_cut (sent r) (Offset f) (take (Z.to_nat (n - Offset f)) (Data f)) (drop (Z.to_nat (n - Offset f)) (Data f))) as Hc.
  rewrite take_drop in Hc. destruct (Hc Hp) as [Hp1 _].
  assert (Hl : blen (take (Z.to_nat (n - Offset f)) (Data f)) = n - Offset f) by (unfold blen in *; rewrite length_take; lia).
  split; [split; [done|split; [|done]]|split_and!; try done].
  - unfold stream_ok. cbn. rewrite Hl. split_and!; try done; try lia. intros Hnil. rewrite Hnil, blen_nil in Hl. lia.
  - intros x Hx Hlt. unfold carries in *. cbn. rewrite Hl. lia.
Qed.

Lemma lost_inv (r : run) i f :
  inv r -> inflight r !! i = Some f ->
  exists s ns, stream_OnLost (st r) f = Ok (s, ns) /\ inv (with_flight (update r s ns) (delete i (inflight r)) (acked r) (resets r)).
Proof.
  intros I Hi. unfold stream_OnLost.
  assert (Hfok : frame_ok r f).
  { pose proof (i_frames _ I) as Hx. rewrite Forall_forall in Hx. apply Hx. unfold pending. rewrite !elem_of_app. left. right. by eapply list_elem_of_lookup_2. }
  assert (Hdrop : forall n, n = Z.of_nat (counted (with_flight (update r (with_queue (with_outstanding (st r) n) (retransmissionQueue (st r))) []) (delete i (inflight r)) (acked r) (resets r))) ->
            is_reset (st r) -> reliableOffset (st r) <= Offset f ->
            inv (with_flight (update r (with_outstanding (st r) n) []) (delete i (inflight r)) (acked r) (resets r))).
  { intros n Hn Hr Ho. rewrite <- with_queue_same. eapply move_inv; try done.
    - intros x. by left.
    - intros x _ Hx Hc. unfold carries in Hc. specialize (Hx Hr). lia.
    - by left. }
  destruct (is_Some_b (resetErr (st r)) && (reliableOffset (st r) =? 0)) eqn:E.
  { eexists _, _. split; [done|]. assert (with_outstanding (st r) (numOutstandingFrames (st r)) = st r) as He by (by destruct (st r)).
    apply andb_prop in E as [E1 E2]. assert (is_reset (st r)) as Hr by (unfold is_reset; by destruct (resetErr (st r))).
    rewrite <- He at 1. apply Hdrop; [|done|destruct Hfok as (_ & _ & ? & _); lia]. rewrite counted_flight_reset; [apply I|done|lia]. }
  assert (~ (is_reset (st r) /\ reliableOffset (st r) = 0)) as Hnr.
  { intros [H1 H2]. unfold is_reset in H1. rewrite H2 in E. by destruct (resetErr (st r)). }
  assert (Hc : forall q' ns, numOutstandingFrames (st r) - 1 = Z.of_nat (counted (with_flight (update r (with_queue (with_outstanding (st r) (numOutstandingFrames (st r) - 1)) q') ns) (delete i (inflight r)) (acked r) (resets r)))).
  { intros q' ns. pose proof (counted_flight r i f (numOutstandingFrames (st r) - 1) q' (acked r) ns I Hi Hnr). pose proof (i_count _ I). lia. }
  unfold outstanding_done. rewrite (proj2 (Z.ltb_ge _ 0)) by (specialize (Hc [] []); lia). cbn [mbind res_bind].
  change (resetErr (with_outstanding _ _)) with (resetErr (st r)). set (reset := is_Some_b (resetErr (st r)) && (0 <? reliableOffset (st r))).
  assert (Hreset : reset = true <-> is_reset (st r)).
  { unfold reset, is_reset in *. pose proof (po_rel _ (i_pop _ I)). destruct (resetErr (st r)); cbn in *; [|done]. split; [done|]. lia. }
  destruct (reset && _) eqn:E2.
  { apply andb_prop in E2 as [Er Eo]. apply Hreset in Er. pose proof (completed_inv _ (Hdrop _ (Hc _ _) Er ltac:(lia))) as I1.
    cbn [with_flight update st] in I1. destruct (isNewlyCompleted _) as [b s'] in I1 |- *. eexists _, _. split; [done|]. by rewrite update_flight in I1. }
  set (f1 := if reset then truncate _ f else f). eexists _, _. split; [done|].
  assert (Hf1 : frame_ok r f1 /\ Fin f1 = Fin f /\ (reset = false -> f1 = f) /\ (forall x, (is_reset (st r) -> x < reliableOffset (st r)) -> carries f x -> carries f1 x)).
  { unfold f1. destruct reset eqn:Er; [|by split_and!]. destruct (truncate_ok r (reliableOffset (st r)) f Hfok) as (H1 & _ & H3 & H4); [cbn in E2; lia|].
    split_and!; try done. intros x Hx Hcx. apply H4; [done|]. apply Hx, Hreset. done. }
  destruct Hf1 as (H1 & H2 & H3 & H4). clearbody f1. set (f2 := mkStream _ _ _ _ _ _).
  change (retransmissionQueue (with_outstanding _ _)) with (retransmissionQueue (st r)).
  eapply (move_inv r i f (retransmissionQueue (st r) ++ [f2])); try done.
  - intros x. rewrite !elem_of_app. naive_solver.
  - intros x. rewrite !elem_of_app, list_elem_of_singleton. intros [[?| ->]|?]; [by left; left| |by left; right]. right.
    split; [exact H1|]. intros Hre Hf. cbn in Hf. cbn.
    assert (f1 = f) as Hff; [|by rewrite Hff in *]. apply H3. destruct reset; [exfalso; by apply Hreset|done].
  - intros x _ Hx Hcx. exists f2. split; [rewrite !elem_of_app, list_elem_of_singleton; auto|]. by apply H4.
  - intros _ Hf. exists f2. split; [rewrite !elem_of_app, list_elem_of_singleton; auto|]. cbn. congruence.
  - by right.
Qed.

(** ** Closing and resetting *)

Lemma finish_inv (r : run) ns :
  inv r -> writer r = None -> has onStreamCompleted ns = false -> is_reset (st r) \/ has onHasStreamData ns = true ->
  inv (update r (with_finished (st r) true) ns).
Proof.
  intros [] Hw Hn Ha. split; try done; cbn [update st writer app sent frames inflight acked resets active control reported]; rewrite ?Hn, ?Nat.add_0_r; try done.
  - destruct i_pop0. by split.
  - intros Hf. by destruct (i_finSent0 Hf) as (_ & ? & ?).
  - intros [Hs Ht]. destruct Ha as [Ha| ->]; [|apply orb_true_r]. rewrite i_active0; [done|]. split; [done|].
    unfold is_reset in Ha. cbn in Ht. by destruct (resetErr (st r)).
  - intros Hq. by rewrite i_control0.
Qed.

Lemma update_comm (r : run) s n1 n2 : update r s (n1 ++ n2) = update r s (n2 ++ n1).
Proof. unfold update, has. by rewrite !existsb_app, !(orb_comm (existsb _ n1)). Qed.

Lemma close_inv (r : run) s e ns : inv r -> writer r = None -> Close (st r) = (s, e, ns) -> inv (update r s ns).
Proof.
  intros I Hw Hc. unfold Close in Hc. destruct (_ || _) eqn:E; [injection Hc as <- <- <-; by rewrite update_nil|].
  destruct (resetErr (st r)) eqn:Er; cbn [is_Some_b] in Hc.
  - assert (Hr : is_reset (st r)) by (unfold is_reset; by rewrite Er).
    pose proof (completed_inv _ (flagged_inv _ true (finish_inv r [] I Hw eq_refl (or_introl Hr)))) as I1.
    cbn [update st] in I1. rewrite !update_update in I1 by done. destruct (isNewlyCompleted _) as [b s'] in Hc, I1.
    injection Hc as <- <- <-. rewrite !update_update in I1 by done. by rewrite app_nil_r.
  - pose proof (completed_inv _ (finish_inv r [onHasStreamData] I Hw eq_refl (or_intror eq_refl))) as I1.
    cbn [update st] in I1. destruct (isNewlyCompleted _) as [b s'] in Hc, I1.
    injection Hc as <- <- <-. rewrite update_update in I1 by done. by rewrite update_comm.
Qed.

(** A reset that keeps nothing. *)
Lemma drop_inv (r : run) (s' : SendStream) (g : ResetStreamFrame) :
  inv r -> shutdownErr (st r) = None -> (is_reset (st r) -> 0 < reliableOffset (st r)) ->
  numOutstandingFrames s' = 0 -> retransmissionQueue s' = [] -> streamID s' = streamID (st r) -> reliableOffset s' = 0 ->
  0 <= reliableSize s' -> writeOffset s' = writeOffset (st r) -> shutdownErr s' = None -> is_reset s' ->
  queuedResetStreamFrame s' = Some g -> ReliableSize g = 0 -> FinalSize g = writeOffset (st r) ->
  finishedWriting s' = finishedWriting (st r) -> finSent s' = finSent (st r) -> completed s' = completed (st r) ->
  dataForWriting s' = dataForWriting (st r) -> nextFrame s' = None -> writeChan s' = true -> flowController s' = flowController (st r) ->
  inv (update r s' [onHasStreamControlFrame]).
Proof.
  intros I Hs Hrel Hnum Hq Hid Hr0 Hrs Hwo Hs' Hre Hqr Hg1 Hg2 Hfw Hfs Hco Hd Hn Hch Hfl.
  assert (Hk : kept (update r s' [onHasStreamControlFrame]) = sent r).
  { unfold kept. cbn. rewrite Hr0, Hwo. pose proof (po_off _ (i_pop _ I)). replace (Z.to_nat _) with 0%nat by llia. destruct (_ && _); apply app_nil_r. }
  assert (Hkk : exists x, kept r = sent r ++ x) by (unfold kept; eauto). destruct Hkk as [kx Hkx].
  assert (Hpre : forall x, x ∈ pending (update r s' [onHasStreamControlFrame]) ++ acked r ++ frames r -> x ∈ pending r ++ acked r ++ frames r).
  { intros x. unfold pending. cbn. rewrite Hq. cbn. rewrite !elem_of_app. naive_solver. }
  assert (Hwo0 : 0 <= writeOffset (st r)) by apply I.
  destruct I. split; cbn [update st writer app sent frames inflight acked resets active control reported]; unfold is_reset in *;
    rewrite ?Hid, ?Hwo, ?Hs', ?Hfw, ?Hfs, ?Hco, ?Hd, ?Hn, ?Hch, ?Hqr, ?Hr0, ?orb_true_r; try done.
  - destruct i_pop0. split; rewrite ?Hid, ?Hwo, ?Hfl, ?Hd, ?Hq, ?Hr0; try done; [intros f Hf; congruence|]. intros _ _. pose proof (blen_nonneg (next_data s')). llia.
  - apply Forall_forall. intros x Hx. rewrite Forall_forall in i_frames0. destruct (i_frames0 x (Hpre x Hx)) as (H1 & H2 & H3). split; [|done]. cbn. congruence.
  - intros Hf. by destruct (i_finSent0 Hf) as (? & _ & ?).
  - rekept Hk. rewrite Hkx in i_kept0. eapply prefix_app_l, i_kept0.
  - intros p Hp. destruct (i_room0 p Hp) as [H1 H2]. assert (dlen s' = dlen (st r)) as -> by (unfold dlen; by rewrite Hd). split; [done|].
    rekept Hk. rewrite Hkx, blen_app in H2. pose proof (blen_nonneg kx). llia.
  - rewrite Hnum. unfold counted. cbn. rewrite Hr0. destruct (resetErr s'); [|done]. cbn.
    assert (filter (fun f => ReliableSize f = 0) (resets r) = []) as ->; [|done].
    destruct (resetErr (st r)) eqn:Er; [|destruct (i_noreset0 eq_refl) as [-> _]; done]. specialize (Hrel ltac:(done)).
    specialize (i_resets0 Hrel). apply filter_none. eapply Forall_impl; [exact i_resets0|]. cbn. intros x Hx. llia.
  - intros f [= <-]. done.
  - rewrite Forall_app in i_final0 |- *. destruct i_final0 as [Hf1 _]. cbn. split; [|constructor; [llia|done]].
    eapply Forall_impl; [exact Hf1|]. intros x [? ?]. cbn in *. llia.
  - intros _ x Hx Hxr. specialize (Hxr Hre). llia.
  - cbn. rewrite Nat.add_0_r. done.
  - intros [_ Ht]. destruct (resetErr s'); [|done]. rewrite Hr0 in Ht. llia.
Qed.


(** A reset that keeps the bytes before the reliable offset. *)
Lemma keep_inv (r : run) (s' : SendStream) (g : ResetStreamFrame) :
  let R := reliableOffset (st r) in
  inv r -> shutdownErr (st r) = None -> resetErr (st r) = None -> 0 < R ->
  numOutstandingFrames s' = numOutstandingFrames (st r) -> retransmissionQueue s' = truncate_queue R (retransmissionQueue (st r)) ->
  streamID s' = streamID (st r) -> reliableOffset s' = R -> reliableSize s' = reliableSize (st r) -> writeOffset s' = writeOffset (st r) ->
  shutdownErr s' = None -> is_reset s' -> queuedResetStreamFrame s' = Some g -> ReliableSize g = R -> FinalSize g = Z.max (writeOffset (st r)) R ->
  finishedWriting s' = finishedWriting (st r) -> finSent s' = finSent (st r) -> completed s' = completed (st r) ->
  dataForWriting s' = dataForWriting (st r) ->
  nextFrame s' = match nextFrame (st r) with Some f => if R <=? Offset f then None else Some (truncate R f) | None => None end ->
  writeChan s' = true -> flowController s' = flowController (st r) ->
  inv (update r s' [onHasStreamControlFrame]).
Proof.
  intros R I Hs Hre0 HR Hnum Hq Hid Hr Hrs Hwo Hs' Hre Hqr Hg1 Hg2 Hfw Hfs Hco Hd Hn Hch Hfl.
  destruct (i_noreset _ I Hre0) as [Hnr Hnq]. pose proof (i_content _ I Hre0 Hs) as Hcont.
  assert (Hbound : R <= writeOffset (st r) + blen (next_data (st r))).
  { pose proof (i_bound _ I Hre0 Hs). pose proof (i_relsize _ I). unfold R, reliableOffset. pose proof (po_off _ (i_pop _ I)). pose proof (blen_nonneg (next_data (st r))).
    destruct (supportsResetStreamAt (st r)); llia. }
  assert (Hnd : next_data s' = take (Z.to_nat (R - writeOffset (st r))) (next_data (st r))).
  { unfold next_data at 1. rewrite Hn. unfold next_data in *. destruct (nextFrame (st r)) as [f|] eqn:En; [|by rewrite take_nil].
    destruct (po_next _ (i_pop _ I) f En) as (_ & -> & Hfl2 & _). destruct (R <=? writeOffset (st r)) eqn:E.
    - replace (Z.to_nat (R - writeOffset (st r))) with 0%nat by (clear -E; llia). done.
    - unfold truncate. destruct (po_next _ (i_pop _ I) f En) as (_ & -> & _). destruct (_ <=? R) eqn:E2; [|done]. rewrite take_ge; [done|]. unfold blen in *. llia. }
  assert (Hk : kept (update r s' [onHasStreamControlFrame]) = sent r ++ next_data s').
  { unfold kept. cbn. rewrite Hr, Hwo, Hs'. unfold is_reset in Hre. destruct (resetErr s'); [|done]. cbn. rewrite Hnd. f_equal.
    rewrite take_take. f_equal. llia. }
  assert (Hpre : exists x, sent r ++ next_data (st r) = (sent r ++ next_data s') ++ x).
  { rewrite Hnd. eexists (drop _ _). by rewrite <- app_assoc, take_drop. }
  destruct Hpre as [kx Hkx].
  assert (Hfrom : forall x, x ∈ truncate_queue R (retransmissionQueue (st r)) -> frame_ok r x).
  { intros x. unfold truncate_queue. rewrite list_elem_of_fmap. intros (f & -> & Hf). apply list_elem_of_filter in Hf as [Hlt Hf].
    apply truncate_ok; [|done]. pose proof (i_frames _ I) as Hx. rewrite Forall_forall in Hx. apply Hx. unfold pending. rewrite !elem_of_app. auto. }
  destruct I. split; cbn [update st writer app sent frames inflight acked resets active control reported]; unfold is_reset in *;
    rewrite ?Hid, ?Hwo, ?Hs', ?Hfw, ?Hfs, ?Hco, ?Hd, ?Hch, ?Hqr, ?Hr, ?Hrs, ?orb_true_r; try done.
  - destruct i_pop0. split; rewrite ?Hid, ?Hwo, ?Hfl, ?Hd, ?Hq, ?Hr; try done.
    + intros f Hf. rewrite Hn in Hf. rewrite Hid, Hwo. destruct (nextFrame (st r)) as [f0|] eqn:En; [|done].
      destruct (po_next0 f0 En) as (H1 & H2 & H3 & H4). destruct (R <=? _) eqn:E; [done|]. injection Hf as <-. unfold truncate.
      destruct (_ <=? R) eqn:E2; [done|]. cbn. split_and!; try done; unfold blen in *; rewrite length_take; llia.
    + apply Forall_forall. intros x Hx. by destruct (Hfrom x Hx) as (_ & ? & _).
    + intros _ _. rewrite Hnd. unfold blen in *. rewrite length_take. llia.
  - apply Forall_forall. intros x Hx. rewrite Forall_forall in i_frames0. assert (frame_ok r x) as (H1 & H2 & H3).
    { unfold pending in Hx. cbn in Hx. rewrite Hq, !elem_of_app in Hx. destruct Hx as [[?|?]|?]; [by apply Hfrom|..]; apply i_frames0; unfold pending; rewrite !elem_of_app; naive_solver. }
    split; [|done]. cbn. congruence.
  - intros Hf. destruct (i_finSent0 Hf) as (H1 & H2 & H3). rewrite Hn, H2. done.
  - rekept Hk. change (cur _) with (cur r). rewrite <- Hcont, app_assoc, Hkx, <- app_assoc. by apply prefix_app_r.
  - intros p Hp. destruct (i_room0 p Hp) as [H1 H2]. assert (dlen s' = dlen (st r)) as -> by (unfold dlen; by rewrite Hd). split; [done|].
    rekept Hk. unfold cur in Hcont. rewrite Hp in Hcont. cbn in Hcont. rewrite <- Hcont, app_assoc, Hkx, !blen_app. pose proof (blen_nonneg kx).
    assert (dlen (st r) = blen (default [] (dataForWriting (st r)))) as -> by (unfold dlen; by destruct (dataForWriting (st r))). llia.
  - rewrite Hnum, i_count0. unfold counted. cbn. rewrite Hr, Hre0, Hnr. destruct (resetErr s'); [|done]. cbn. rewrite (proj2 (Z.eqb_neq R 0)) by llia. done.
  - intros f [= <-]. done.
  - rewrite Hnr. constructor; [|done]. llia.
  - intros _ x Hx Hxr. specialize (Hxr Hre). destruct (i_cover0 Hs x Hx ltac:(done)) as (f & Hf & Hc). unfold pending in *. cbn. rewrite Hq.
    rewrite !elem_of_app in Hf. destruct Hf as [[Hf|Hf]|Hf]; [|exists f; split; [rewrite !elem_of_app; auto|done]..].
    exists (truncate R f). split.
    + rewrite !elem_of_app. left. left. apply list_elem_of_fmap. exists f. split; [done|]. apply list_elem_of_filter. split; [|done]. unfold carries in Hc. llia.
    + apply (truncate_ok r); [|unfold carries in Hc; llia|done|done]. rewrite Forall_forall in i_frames0. apply i_frames0. rewrite !elem_of_app. auto.
  - cbn. rewrite Nat.add_0_r. done.
  - intros [_ Ht]. cbn [has existsb orb]. rewrite orb_false_r. apply i_active0. split; [done|]. rewrite Hre0. destruct (resetErr s'); [|done]. rewrite Hr, Hwo, Hq in Ht. destruct Ht as [_ [Ht|Ht]].
    + left. intros H0. by rewrite H0 in Ht.
    + right. left. intros H0. unfold next_data in Hbound. rewrite H0, blen_nil in Hbound. llia.
Qed.

Lemma cancel_inv (r : run) code s ns : inv r -> CancelWrite (st r) code = (s, ns) -> inv (update r s ns).
Proof.
  intros I Hc. unfold CancelWrite in Hc. destruct (shutdownErr (st r)) eqn:Es; cbn [is_Some_b] in Hc; [injection Hc as <- <-; by rewrite update_nil|].
  destruct (resetErr (st r)) eqn:Er; cbn [is_Some_b with_flagged resetErr] in Hc; rewrite Er in Hc; cbn [is_Some_b] in Hc.
  { pose proof (completed_inv _ (flagged_inv r true I)) as I1. cbn [update st] in I1. destruct (isNewlyCompleted _) as [b s'] in Hc, I1.
    injection Hc as <- <-. by rewrite update_update in I1. }
  pose proof (po_rel _ (i_pop _ I)) as H0. set (R := reliableOffset (st r)) in *.
  change (reliableOffset (with_reset _ _)) with R in Hc. destruct (R =? 0) eqn:E0.
  - rewrite (proj2 (Z.ltb_ge 0 R)) in Hc by lia. injection Hc as <- <-. pose proof (po_off _ (i_pop _ I)).
    eapply (drop_inv r _ (mkResetStream (streamID (st r)) code (Z.max (writeOffset (st r)) R) R)); try done; try apply I; cbn; try lia.
    change (R = 0). lia.
  - rewrite (proj2 (Z.ltb_lt 0 R)) in Hc by lia. injection Hc as <- <-.
    eapply (keep_inv r _ (mkResetStream (streamID (st r)) code (Z.max (writeOffset (st r)) R) R)); try done. cbn. fold R. lia.
Qed.

Lemma stop_inv (r : run) code s ns : inv r -> handleStopSendingFrame (st r) code = (s, ns) -> inv (update r s ns).
Proof.
  intros I Hc. unfold handleStopSendingFrame in Hc. destruct (shutdownErr (st r)) eqn:Es; cbn [is_Some_b] in Hc; [injection Hc as <- <-; by rewrite update_nil|].
  destruct (_ && _) eqn:E; [injection Hc as <- <-; by rewrite update_nil|]. injection Hc as <- <-.
  eapply (drop_inv r _ (mkResetStream (streamID (st r)) _ (writeOffset (st r)) 0)); try done; cbn.
  - intros Hr. pose proof (po_rel _ (i_pop _ I)). unfold is_reset in Hr. destruct (resetErr (st r)); [|done]. cbn in E. lia.
  - unfold reliableOffset. cbn. by destruct (supportsResetStreamAt (st r)).
Qed.

Lemma shutdown_all_inv (r : run) e : inv r -> inv (update r (closeForShutdown (st r) e) []).
Proof.
  intros I. unfold closeForShutdown. destruct (_ && _) eqn:E; [|by apply signal_inv]. apply andb_prop in E as [E1 E2].
  apply shutdown_inv; [done|by destruct (shutdownErr (st r))|by destruct (finishedWriting (st r))].
Qed.

Lemma control_inv (r : run) f s :
  inv r -> getControlFrame (st r) = (f, s) ->
  inv (mkRun s (writer r) (app r) (sent r) (frames r) (inflight r) (acked r) (resets r ++ option_list f) (active r) false (reported r)).
Proof.
  intros [] Hc. unfold getControlFrame in Hc. destruct (queuedResetStreamFrame (st r)) as [g|] eqn:Eq; injection Hc as <- <-; cbn [option_list].
  - split; try done; cbn [st writer app sent frames inflight acked resets active control reported].
    + destruct i_pop0. by split.
    + unfold counted in *. cbn. rewrite i_count0. change (reliableOffset (with_queued_reset _ _)) with (reliableOffset (st r)).
      rewrite filter_app, length_app. rewrite (filter_cons_True _ g) by (by apply i_queued0). cbn. lia.
    + intros Hn. destruct (i_noreset0 Hn). congruence.
    + intros Hr. apply Forall_app. split; [by apply i_resets0|]. constructor; [|done]. by apply i_queued0.
    + by rewrite app_nil_r.
  - rewrite app_nil_r. split; try done; cbn [st writer app sent frames inflight acked resets active control reported]; rewrite ?Eq; try done.
Qed.

Lemma filter_delete (P : ResetStreamFrame -> Prop) `{!forall x, Decision (P x)} l i f :
  l !! i = Some f -> length (filter P l) = (length (filter P (delete i l)) + if decide (P f) then 1 else 0)%nat.
Proof.
  intros Hi. rewrite (Permutation_length (filter_Permutation P _ _ (delete_Permutation _ _ _ Hi))). rewrite filter_cons.
  destruct (decide (P f)); cbn; lia.
Qed.

(** A RESET_STREAM frame leaves the network. *)
Lemma reset_move_inv (r : run) i f q n ns :
  let s' := with_outstanding (with_queued_reset (st r) q) n in
  let r' := with_flight (update r s' ns) (inflight r) (acked r) (delete i (resets r)) in
  inv r -> resets r !! i = Some f -> has onStreamCompleted ns = false ->
  n = Z.of_nat (counted r') ->
  q = queuedResetStreamFrame (st r) \/ (q = Some f /\ ReliableSize f = reliableOffset (st r) /\ has onHasStreamControlFrame ns = true) ->
  inv r'.
Proof.
  intros s' r' I Hi Hns Hn Hq.
  assert (Hdel : forall x, x ∈ delete i (resets r) -> x ∈ resets r).
  { intros x Hx. apply (elem_of_Permutation_proper x _ _ (delete_Permutation _ _ _ Hi)). by right. }
  assert (Hfin : f ∈ resets r) by (by eapply list_elem_of_lookup_2).
  destruct I. split; try done; cbn [with_flight update st writer app sent frames inflight acked resets active control reported].
  - destruct i_pop0. by split.
  - intros Hre. destruct (i_noreset0 Hre) as [H1 _]. rewrite H1 in Hi. done.
  - intros Hr. specialize (i_resets0 Hr). rewrite Forall_forall in i_resets0 |- *. intros x Hx. by apply i_resets0, Hdel.
  - intros g Hg. cbn in Hg. destruct Hq as [->|(-> & Hr & _)]; [by apply i_queued0|]. by injection Hg as <-.
  - rewrite Forall_app in i_final0 |- *. destruct i_final0 as [H1 H2]. rewrite Forall_forall in H1. split; [apply Forall_forall; intros x Hx; by apply H1, Hdel|].
    cbn. destruct Hq as [->|(-> & _)]; [done|]. constructor; [|done]. by apply H1.
  - change (reported r') with (reported r + if has onStreamCompleted ns then 1 else 0)%nat. rewrite Hns, Nat.add_0_r. done.
  - intros Ht. change (active r') with (active r || has onHasStreamData ns). by rewrite i_active0.
  - intros Hqn. change (control r') with (control r || has onHasStreamControlFrame ns).
    destruct Hq as [->|(-> & _ & ->)]; [|apply orb_true_r]. by rewrite i_control0.
Qed.

Lemma counted_reset (r : run) i f q n ns :
  resets r !! i = Some f ->
  (counted (with_flight (update r (with_outstanding (with_queued_reset (st r) q) n) ns) (inflight r) (acked r) (delete i (resets r))) +
   if decide (ReliableSize f = reliableOffset (st r)) then 1 else 0)%nat = counted r.
Proof.
  intros Hi. unfold counted. cbn. change (reliableOffset (with_outstanding _ _)) with (reliableOffset (st r)).
  rewrite (filter_delete (fun f => ReliableSize f = reliableOffset (st r)) (resets r) i f Hi). lia.
Qed.

Lemma same_state (s : SendStream) : with_outstanding (with_queued_reset s (queuedResetStreamFrame s)) (numOutstandingFrames s) = s.
Proof. by destruct s. Qed.

Lemma reset_ack_inv (r : run) i f :
  inv r -> resets r !! i = Some f ->
  exists s ns, reset_OnAcked (st r) f = Ok (s, ns) /\ inv (with_flight (update r s ns) (inflight r) (acked r) (delete i (resets r))).
Proof.
  intros I Hi. unfold reset_OnAcked. pose proof (i_count _ I).
  pose proof (fun n q ns => counted_reset r i f q n ns Hi) as Hc.
  destruct (negb _) eqn:E.
  - eexists _, _. split; [done|]. rewrite <- (same_state (st r)) at 1. apply (reset_move_inv r i f); try done; [|by left].
    specialize (Hc (numOutstandingFrames (st r)) (queuedResetStreamFrame (st r)) []). rewrite decide_False in Hc by lia. lia.
  - specialize (Hc (numOutstandingFrames (st r) - 1) (queuedResetStreamFrame (st r)) []). rewrite decide_True in Hc by lia.
    unfold outstanding_done. rewrite (proj2 (Z.ltb_ge _ 0)) by lia. cbn [mbind res_bind].
    pose proof (reset_move_inv r i f (queuedResetStreamFrame (st r)) (numOutstandingFrames (st r) - 1) [] I Hi eq_refl ltac:(lia) (or_introl eq_refl)) as I1.
    pose proof (completed_inv _ I1) as I2. cbn [with_flight update st] in I2.
    assert (with_outstanding (with_queued_reset (st r) (queuedResetStreamFrame (st r))) (numOutstandingFrames (st r) - 1) = with_outstanding (st r) (numOutstandingFrames (st r) - 1)) as He by (by destruct (st r)).
    rewrite He in I2. destruct (isNewlyCompleted _) as [b s'] in I2 |- *. eexists _, _. split; [done|]. by rewrite update_flight in I2.
Qed.

Lemma reset_lost_inv (r : run) i f s ns :
  inv r -> resets r !! i = Some f -> reset_OnLost (st r) f = (s, ns) ->
  inv (with_flight (update r s ns) (inflight r) (acked r) (delete i (resets r))).
Proof.
  intros I Hi Hl. unfold reset_OnLost in Hl. pose proof (i_count _ I).
  pose proof (fun n q ns => counted_reset r i f q n ns Hi) as Hc. destruct (negb _) eqn:E; injection Hl as <- <-.
  - rewrite <- (same_state (st r)) at 1. apply (reset_move_inv r i f); try done; [|by left].
    specialize (Hc (numOutstandingFrames (st r)) (queuedResetStreamFrame (st r)) []). rewrite decide_False in Hc by lia. lia.
  - apply (reset_move_inv r i f); try done.
    + specialize (Hc (numOutstandingFrames (st r) - 1) (Some f) [onHasStreamControlFrame]). rewrite decide_True in Hc by lia. lia.
    + right. split; [done|]. split; [lia|done].
Qed.

(** Every event of the surroundings keeps the invariant, and none panics. *)
Lemma send_exec_inv (r : run) e : inv r -> guard r e -> exists r', exec r e = Ok r' /\ inv r'.
Proof.
  intros I Hg. destruct e as [now now' p|timer now| | |code|code| |l|c|t|e|m| |i|i|i|i]; cbn [exec guard] in *.
  - destruct (write (st r) now now' p) as [[s w] ns] eqn:E. eexists. split; [done|]. by eapply write_inv.
  - destruct Hg as [Hw _]. destruct (writer r) as [p|] eqn:Ew; [|done]. destruct (wake _ _ _ _) as [[s w] ns] eqn:E. eexists. split; [done|]. by eapply wake_inv.
  - destruct (Close (st r)) as [[s x] ns] eqn:E. eexists. split; [done|]. by eapply close_inv.
  - eexists. split; [done|]. by apply boundary_inv.
  - destruct (CancelWrite (st r) code) as [s ns] eqn:E. eexists. split; [done|]. by eapply cancel_inv.
  - destruct (handleStopSendingFrame (st r) code) as [s ns] eqn:E. eexists. split; [done|]. by eapply stop_inv.
  - eexists. split; [done|]. by apply enable_inv.
  - unfold updateSendWindow. pose proof (fun ns => window_inv r l ns I Hg) as Hw. destruct (UpdateSendWindow _ l) as [b c]. eexists. split; [done|]. apply Hw.
    by destruct (_ && _).
  - eexists. split; [done|]. destruct Hg as [Hu Hl]. apply flow_inv; [done|done|]. pose proof (po_limit _ (i_pop _ I)). lia.
  - eexists. split; [done|]. pose proof (signal_inv _ (deadline_inv r t I)) as I1. by rewrite update_update in I1.
  - eexists. split; [done|]. by apply shutdown_all_inv.
  - destruct (pop_inv r m I Hg) as (f & b & s' & more & -> & I1 & _). cbn. eexists. split; [done|]. exact I1.
  - destruct (getControlFrame (st r)) as [f s] eqn:E. eexists. split; [done|]. by apply control_inv.
  - destruct (inflight r !! i) as [f|] eqn:Ei; [|by exists r]. destruct (ack_inv r i f I Ei) as (s & ns & -> & I1). cbn. by eexists.
  - destruct (inflight r !! i) as [f|] eqn:Ei; [|by exists r]. destruct (lost_inv r i f I Ei) as (s & ns & -> & I1). cbn. by eexists.
  - destruct (resets r !! i) as [f|] eqn:Ei; [|by exists r]. destruct (reset_ack_inv r i f I Ei) as (s & ns & -> & I1). cbn. by eexists.
  - destruct (resets r !! i) as [f|] eqn:Ei; [|by exists r]. destruct (reset_OnLost _ _) as [s ns] eqn:E. eexists. split; [done|]. by apply reset_lost_inv with f.
Qed.

(** ** What the stream guarantees *)

Lemma reachable_inv id (c : F) b r :
  Varint.vrange id -> used c = 0 -> 0 <= limit c <= MaxByteCount -> reachable id c b r -> inv r.
Proof.
  intros Hid Hu Hl. induction 1 as [|r e r' _ IH Hg He]; [by apply start_inv|].
  destruct (send_exec_inv r e IH Hg) as (r2 & He2 & I). congruence.
Qed.

Lemma sent_prefix (r : run) : inv r -> sent r `prefix_of` app r ++ cur r.
Proof.
  intros []. assert (Hkk : exists x, kept r = sent r ++ x) by (unfold kept; eauto). destruct Hkk as [kx Hkx]. rewrite Hkx in i_kept0. eapply prefix_app_l, i_kept0.
Qed.

(** A stream whose FIN was sent has sent everything. *)
Lemma finished_content (r : run) :
  inv r -> resetErr (st r) = None -> shutdownErr (st r) = None -> finSent (st r) = true -> finishedWriting (st r) = true /\ sent r = app r.
Proof.
  intros [] Hre Hs Hfs. destruct (i_finSent0 Hfs) as (Hfw & Hn & Hd). split; [done|]. specialize (i_content0 Hre Hs). unfold next_data, cur in i_content0.
  rewrite Hn, Hd, (i_finished0 Hfw) in i_content0. cbn in i_content0. by rewrite !app_nil_r in i_content0.
Qed.

Lemma finished_frames (r : run) f :
  inv r -> resetErr (st r) = None -> shutdownErr (st r) = None -> f ∈ frames r -> Fin f = true ->
  finishedWriting (st r) = true /\ sent r = app r /\ Offset f + blen (Data f) = blen (app r).
Proof.
  intros I Hre Hs Hf Hfin. destruct (i_fin _ I Hre f) as [Hfs Hend]; [rewrite !elem_of_app; auto|done|].
  destruct (finished_content r I Hre Hs Hfs) as [? Heq]. split; [done|]. split; [done|]. by rewrite <- Heq, (i_sent _ I).
Qed.

Lemma completed_acked (r : run) :
  inv r -> completed (st r) = true -> resetErr (st r) = None -> shutdownErr (st r) = None ->
  (forall x, 0 <= x < blen (app r) -> covered (acked r) x) /\ exists f, f ∈ acked r /\ Fin f = true /\ Offset f + blen (Data f) = blen (app r).
Proof.
  intros I Hc Hre Hs. destruct (i_completed _ I Hc Hre Hs) as [Hfs Hp]. destruct (finished_content r I Hre Hs Hfs) as [_ <-]. destruct I. rewrite Hp in *.
  cbn in i_cover0, i_fincover0, i_fin0. rewrite i_sent0. split; [intros x Hx; by apply i_cover0|].
  destruct (i_fincover0 Hre Hs Hfs) as (f & Hf & Hfin). exists f. split; [done|]. split; [done|]. apply (i_fin0 Hre f); [rewrite !elem_of_app; auto|done].
Qed.

Section theorems.
Context (id : Z) (c : F) (b : bool) (r : run).
Hypothesis Hid : Varint.vrange id.
Hypothesis Hused : used c = 0.
Hypothesis Hlimit : 0 <= limit c <= MaxByteCount.
Hypothesis Hr : reachable id c b r.

Lemma reached : inv r.
Proof. exact (reachable_inv id c b r Hid Hused Hlimit Hr). Qed.

(** C14: a send stream sends what the application wrote.  Whatever the application,
    the framer, the network and the peer do, within the guards of the events (one [Write]
    or [Close] at a time, windows up to the largest offset, packets that fit their buffers, every frame in flight acknowledged or lost
    once, and no move of the reliable boundary and no enabling of reliable resets once
    the stream was reset, which [boundary_after_stop_panics] shows to be necessary), no
    operation panics; the bytes sent
    are a beginning of the bytes accepted from the application, within the flow
    control limit; every frame carries its part of them at its offset; and while the
    stream is neither reset nor shut down nothing is lost: the bytes sent, those
    buffered and those of the waiting [Write] are all that was accepted, every byte
    sent is acknowledged, in flight or queued again, and a FIN marks the end of
    everything written. *)
Theorem send_stream_correct :
  (forall e, guard r e -> exists r', exec r e = Ok r') /\
  sent r `prefix_of` app r ++ cur r /\ blen (sent r) = writeOffset (st r) /\ writeOffset (st r) <= limit (flowController (st r)) /\
  (forall f, f ∈ frames r -> StreamID f = streamID (st r) /\ piece (sent r) (Offset f) (Data f)) /\
  (resetErr (st r) = None -> shutdownErr (st r) = None ->
     sent r ++ next_data (st r) ++ default [] (dataForWriting (st r)) = app r ++ cur r /\
     (forall x, 0 <= x < blen (sent r) -> covered ((retransmissionQueue (st r) ++ inflight r) ++ acked r) x) /\
     (forall f, f ∈ frames r -> Fin f = true -> finishedWriting (st r) = true /\ sent r = app r /\ Offset f + blen (Data f) = blen (app r))).
Proof.
  pose proof reached as I. split; [intros e Hg; destruct (send_exec_inv r e I Hg) as (r' & He & _); by exists r'|].
  split; [by apply sent_prefix|]. split; [apply I|]. split; [apply I|]. pose proof (i_frames _ I) as Hfr. rewrite Forall_forall in Hfr.
  split; [intros f Hf; destruct (Hfr f) as (? & _ & ?); [rewrite !elem_of_app; auto|done]|].
  intros Hre Hs. split; [by apply I|]. split; [intros x Hx; apply (i_cover _ I); [done|rewrite <- (i_sent _ I); done|done]|].
  intros f Hf Hfin. by apply finished_frames.
Qed.

(** Completion.  A stream reports its completion at most once, and one that was
    neither reset nor shut down does so only when every byte accepted and the FIN
    were acknowledged. *)
Theorem send_stream_completion :
  (reported r <= 1)%nat /\
  (completed (st r) = true -> resetErr (st r) = None -> shutdownErr (st r) = None ->
     (forall x, 0 <= x < blen (app r) -> covered (acked r) x) /\
     exists f, f ∈ acked r /\ Fin f = true /\ Offset f + blen (Data f) = blen (app r)).
Proof.
  pose proof reached as I. split; [rewrite (i_reported _ I); destruct (completed (st r)); lia|]. by apply completed_acked.
Qed.

(** C31: the reliable part of a stream that was reset and not shut down, and whose
    reliable boundary was not moved after the reset.  Every byte before the
    reliable offset is acknowledged, in flight, queued again or still buffered, what
    is buffered of it is what the application wrote, and no byte is ever sent beyond
    any of the final sizes announced or about to be. *)
Theorem send_stream_reliable_reset :
  resetErr (st r) <> None -> shutdownErr (st r) = None ->
  (forall x, 0 <= x < reliableOffset (st r) ->
     covered ((retransmissionQueue (st r) ++ inflight r) ++ acked r) x \/ writeOffset (st r) <= x < writeOffset (st r) + blen (next_data (st r))) /\
  sent r ++ take (Z.to_nat (reliableOffset (st r) - writeOffset (st r))) (next_data (st r)) `prefix_of` app r ++ cur r /\
  Forall (fun f => blen (sent r) <= FinalSize f) (resets r ++ option_list (queuedResetStreamFrame (st r))).
Proof.
  intros Hre Hs. destruct reached. split; [|split].
  - intros x Hx. destruct (decide (x < writeOffset (st r))); [left; apply i_cover0; [done|lia|intros _; lia]|].
    right. pose proof (po_reliable _ i_pop0 Hre Hs). lia.
  - unfold kept in i_kept0. rewrite Hs in i_kept0. by destruct (resetErr (st r)).
  - eapply Forall_impl; [exact i_final0|]. intros f [? _]. lia.
Qed.


End theorems.

(** ** A stream that never completes *)

(** A stream whose reset keeps nothing, with data in its buffer. *)
Definition stuck (r : run) : Prop :=
  shutdownErr (st r) = None /\ is_reset (st r) /\ reliableOffset (st r) = 0 /\ next_data (st r) <> [] /\ completed (st r) = false.

Lemma newly_buffered (s : SendStream) : next_data s <> [] -> isNewlyCompleted s = (false, s).
Proof.
  intros Hn. unfold isNewlyCompleted, next_data in *. destruct (completed s); [done|]. destruct (nextFrame s) as [f|]; [|done].
  destruct (Data f); [done|]. by rewrite (proj2 (Z.ltb_lt 0 _)) by (rewrite blen_cons; pose proof (blen_nonneg l); lia).
Qed.

Lemma stuck_iter (s s' : SendStream) now plen notified w ns :
  shutdownErr s = None -> is_reset s -> reliableOffset s = 0 -> next_data s <> [] -> completed s = false ->
  write_iter s now plen notified = (s', w, ns) ->
  shutdownErr s' = None /\ is_reset s' /\ reliableOffset s' = 0 /\ next_data s' <> [] /\ completed s' = false.
Proof.
  intros H1 H2 H3 H4 H5 Hw. unfold write_iter in Hw. destruct (canBufferStreamFrame s && _).
  { injection Hw as <- <- <-. split_and!; try done. unfold next_data, buffer in *. cbn. destruct (nextFrame s); [|done]. cbn. by intros [? _]%app_nil. }
  destruct (expired s now); [by injection Hw as <- <- <-|]. unfold is_reset in *. rewrite H1 in Hw.
  destruct (resetErr s) eqn:Er; [|done]. cbn in Hw. rewrite orb_true_r in Hw. unfold write_end in Hw. rewrite H1, Er in Hw.
  destruct (_ =? plen); [injection Hw as <- <- <-; by rewrite Er|]. rewrite newly_buffered in Hw by done. injection Hw as <- <- <-. cbn. by rewrite Er.
Qed.

Lemma stuck_step (r r' : run) e :
  stuck r -> guard r e -> (forall x, e <> EShutdown x) -> exec r e = Ok r' -> stuck r'.
Proof.
  intros (H1 & H2 & H3 & H4 & H5) Hg Hne He. unfold stuck. assert (H2' := H2). unfold is_reset in H2'. 
  assert (is_Some_b (resetErr (st r)) = true) as H2b by (by destruct (resetErr (st r))).
  destruct e as [now now' p|timer now| | |code|code| |l|c|t|x|m| |i|i|i|i]; cbn [exec guard] in *.
  - unfold write in He. destruct (resetErr (st r)) as [e|] eqn:Er; [|done]. rewrite newly_buffered in He by done. injection He as <-.
    cbn. unfold is_reset. cbn. by rewrite Er.
  - destruct Hg as [Hw _]. destruct (writer r) as [p|]; [|done]. destruct (wake _ _ _ _) as [[s w] ns] eqn:Ew. unfold wake in Ew.
    apply stuck_iter in Ew; [|by destruct timer..]. by destruct w; injection He as <-.
  - unfold Close in He. rewrite H1 in He. destruct (_ || _); [by injection He as <-|]. rewrite H2b, newly_buffered in He by done. by injection He as <-.
  - done.
  - unfold CancelWrite in He. rewrite H1 in He. cbn [is_Some_b with_flagged resetErr] in He. rewrite H2b, newly_buffered in He by done. by injection He as <-.
  - unfold handleStopSendingFrame in He. rewrite H1, H2b, H3 in He. by injection He as <-.
  - done.
  - unfold updateSendWindow in He. destruct (UpdateSendWindow _ _). by injection He as <-.
  - by injection He as <-.
  - by injection He as <-.
  - by destruct (Hne x).
  - unfold popStreamFrame, popNewOrRetransmittedStreamFrame in He. rewrite H1, H2b, H3 in He. by injection He as <-.
  - unfold getControlFrame in He. destruct (queuedResetStreamFrame (st r)); by injection He as <-.
  - destruct (inflight r !! i); [|by injection He as <-]. unfold stream_OnAcked in He. rewrite H2b, H3 in He. by injection He as <-.
  - destruct (inflight r !! i); [|by injection He as <-]. unfold stream_OnLost in He. rewrite H2b, H3 in He. by injection He as <-.
  - destruct (resets r !! i); [|by injection He as <-]. unfold reset_OnAcked, outstanding_done in He. destruct (negb _); [by injection He as <-|].
    destruct (_ <? 0); [done|]. cbn [mbind res_bind] in He. rewrite newly_buffered in He by done. by injection He as <-.
  - destruct (resets r !! i); [|by injection He as <-]. unfold reset_OnLost in He. destruct (negb _); by injection He as <-.
Qed.

(** What can happen after [r] while the connection is not shut down. *)
Inductive continues (r : run) : run -> Prop :=
| cont_refl : continues r r
| cont_step r1 e r2 : continues r r1 -> guard r1 e -> (forall x, e <> EShutdown x) -> exec r1 e = Ok r2 -> continues r r2.

Lemma stuck_forever (r r' : run) : stuck r -> continues r r' -> stuck r'.
Proof. intros Hs. induction 1; [done|]. by eapply stuck_step. Qed.

(** ** Runs of events *)

(** A decidable [guard]. *)
Definition guard_b (r : run) (e : event) : bool :=
  match e with
  | EWrite _ _ _ | EClose => negb (is_Some_b (writer r))
  | EWake timer _ => is_Some_b (writer r) && if timer then negb (deadline (st r) =? 0) else writeChan (st r)
  | EBoundary | EEnable => negb (is_Some_b (resetErr (st r)))
  | EWindow l => l <=? MaxByteCount
  | EFlow c => (used c =? used (flowController (st r))) && (limit c =? limit (flowController (st r)))
  | EPop maxBytes => (0 <=? maxBytes) && (maxBytes <=? MaxPacketBufferSize)
  | EAck i | ELost i => bool_decide (i < length (inflight r))%nat
  | EResetAck i | EResetLost i => bool_decide (i < length (resets r))%nat
  | _ => true
  end.

Lemma guard_b_sound r e : guard_b r e = true -> guard r e.
Proof.
  destruct e; cbn; try done; intros Hg; try (apply bool_decide_eq_true in Hg; exact Hg); try lia.
  - by destruct (writer r).
  - apply andb_prop in Hg as [H1 H2]. split; [by destruct (writer r)|]. destruct timer; [|done]. lia.
  - by destruct (writer r).
  - by destruct (resetErr (st r)).
  - by destruct (resetErr (st r)).
Qed.

Fixpoint legal_run (r : run) (es : list event) : option run :=
  match es with
  | [] => Some r
  | e :: es => if guard_b r e then match exec r e with Ok r' => legal_run r' es | _ => None end else None
  end.

Lemma legal_reachable id c b r es r' : reachable id c b r -> legal_run r es = Some r' -> reachable id c b r'.
Proof.
  revert r. induction es as [|e es IH]; cbn; intros r Hr Hl; [by simplify_eq|].
  destruct (guard_b r e) eqn:Eg; [|done]. destruct (exec r e) as [r1| |] eqn:Ee; try done.
  eapply IH; [|exact Hl]. eapply reach_step; [done|by apply guard_b_sound|done].
Qed.

End stream.

(** ** Examples *)

Definition sample_flow : FlowControl.streamFlowController * FlowControl.baseFlowController :=
  (FlowControl.NewStreamFlowController 5000 5000 5000, FlowControl.mkBase 0 5000 0 0 0 5000 5000 5000 0 0).

Definition sample_start := start 4 sample_flow true.

Lemma sample_id : Varint.vrange 4.
Proof. unfold Varint.vrange, Varint.maxVarInt8. lia. Qed.

Lemma sample_used : used sample_flow = 0.
Proof. reflexivity. Qed.

Lemma sample_limit : 0 <= limit sample_flow <= MaxByteCount.
Proof. cbn. unfold MaxByteCount. lia. Qed.

Definition from_start (es : list event) : option (@run _) := legal_run sample_start es.

Definition data (n : nat) : bytes := replicate n Byte.x2a.

(** Data is written, sent in two frames, one is lost and sent again, the stream is
    closed and everything is acknowledged. *)
Definition sample_events : list (@event (FlowControl.streamFlowController * FlowControl.baseFlowController)) :=
  [EWrite 0 0 (data 100); EPop 60; EWrite 0 0 (data 30); EPop 200; ELost 0; EClose; EPop 40; EPop 40; EPop 100; EAck 0; EAck 0; EAck 0; EAck 0].

Ltac sample r E :=
  destruct (from_start sample_events) as [r|] eqn:E; [|vm_compute in E; discriminate E].

Lemma from_start_reachable es r : from_start es = Some r -> reachable 4 sample_flow true r.
Proof. apply legal_reachable, reach_start. Qed.

Lemma send_stream_correct_witness :
  match from_start sample_events with
  | Some r => sent r `prefix_of` app r ++ cur r /\ length (frames r) = 5%nat
  | None => False
  end.
Proof.
  sample r E.
  destruct (send_stream_correct 4 sample_flow true r sample_id sample_used sample_limit (from_start_reachable _ r E)) as (_ & H & _).
  split; [exact H|]. vm_compute in E. injection E as <-. reflexivity.
Defined.

Lemma send_stream_completion_witness :
  match from_start sample_events with
  | Some r => completed (st r) = true /\ (reported r <= 1)%nat /\ forall x, 0 <= x < blen (app r) -> covered (acked r) x
  | None => False
  end.
Proof.
  sample r E. pose proof (send_stream_completion 4 sample_flow true r sample_id sample_used sample_limit (from_start_reachable _ r E)) as [H1 H2].
  vm_compute in E. injection E as <-. split; [reflexivity|]. split; [exact H1|]. apply H2; reflexivity.
Defined.

Definition reset_events : list (@event (FlowControl.streamFlowController * FlowControl.baseFlowController)) :=
  [EWrite 0 0 (data 10); EBoundary; EWrite 0 0 (data 10); EPop 12; ECancel 7; EControl].

Lemma send_stream_reliable_reset_witness :
  match from_start reset_events with
  | Some r => reliableOffset (st r) = 10 /\ Forall (fun f => blen (sent r) <= FinalSize f) (resets r ++ option_list (queuedResetStreamFrame (st r)))
  | None => False
  end.
Proof.
  destruct (from_start reset_events) as [r|] eqn:E; [|vm_compute in E; discriminate E].
  pose proof (from_start_reachable _ r E) as Hr.
  pose proof (send_stream_reliable_reset 4 sample_flow true r sample_id sample_used sample_limit Hr) as H.
  vm_compute in E. injection E as <-. split; [reflexivity|]. destruct H as (_ & _ & H); [discriminate|reflexivity|exact H].
Defined.


(** ** What the guards exclude, and what they do not *)

(** Moving the reliable boundary after the peer stopped the stream makes the
    next acknowledgement panic: the frames in flight are no longer counted, but are
    discounted again once the reliable size is not zero. *)
Theorem boundary_after_stop_panics :
  exists r, reachable 4 sample_flow true r /\ resetErr (st r) = Some (mkStreamError 9 true) /\
    exec (update r (SetReliableBoundary (st r)) []) (EAck 0) = Panic.
Proof.
  destruct (from_start [EWrite 0 0 (data 10); EPop 100; EStop 9]) as [r|] eqn:E; [|vm_compute in E; discriminate E].
  exists r. split; [exact (from_start_reachable _ r E)|]. vm_compute in E. injection E as <-. split; reflexivity.
Qed.

(** A reset announces a final size of 10 bytes, and after the peer asked to stop
    another reset announces a final size of 0. *)
Theorem stop_changes_final_size :
  exists r, reachable 4 sample_flow true r /\ FinalSize <$> resets r = [10; 0].
Proof.
  destruct (from_start [EWrite 0 0 (data 10); EBoundary; ECancel 7; EControl; EStop 9; EControl]) as [r|] eqn:E; [|vm_compute in E; discriminate E].
  exists r. split; [exact (from_start_reachable _ r E)|]. vm_compute in E. injection E as <-. reflexivity.
Qed.

(** A frame that is cut to the reliable size keeps its FIN: the peer is told that
    the stream ends after 10 bytes, while the reset announces 20. *)
Theorem truncated_frame_keeps_fin :
  exists r f g, reachable 4 sample_flow true r /\ f ∈ frames r /\ Fin f = true /\ Offset f + blen (Data f) = 10 /\
    queuedResetStreamFrame (st r) = Some g /\ FinalSize g = 20.
Proof.
  destruct (from_start [EWrite 0 0 (data 10); EBoundary; EWrite 0 0 (data 10); EClose; EPop 100; ELost 0; ECancel 7; EPop 100]) as [r|] eqn:E; [|vm_compute in E; discriminate E].
  pose proof (from_start_reachable _ r E) as Hr.
  vm_compute in E. injection E as <-. eexists _, (mkStream 4 0 (data 10) true true true), _. split; [exact Hr|]. split; [right; left|]. repeat split.
Qed.

(** A [Write] that waits while the stream is cancelled may find its data fits
    the buffer, report success, and leave the data there: the stream then never
    completes, whatever happens short of a shutdown. *)
Theorem cancelled_write_never_completes :
  exists r, reachable 4 sample_flow true r /\ app r = data 2000 /\ writer r = None /\ inflight r = [] /\ resets r = [] /\
    forall r', continues r r' -> completed (st r') = false.
Proof.
  destruct (from_start [EWrite 0 0 (data 1000); EWrite 0 0 (data 1000); ECancel 7; EWake false 0; EControl; EResetAck 0]) as [r|] eqn:E; [|vm_compute in E; discriminate E].
  pose proof (from_start_reachable _ r E) as Hr. exists r. split; [exact Hr|].
  assert (Hs : stuck r /\ app r = data 2000 /\ writer r = None /\ inflight r = [] /\ resets r = []).
  { vm_compute in E. injection E as <-. repeat split; discriminate. }
  destruct Hs as [Hs H]. split_and!; try apply H. intros r' Hc. by destruct (stuck_forever r r' Hs Hc) as (_ & _ & _ & _ & ?).
Qed.

End SendSafety.
