(* ===== verification/ReceiveStream.v ===== *)
(** * Receive streams (src/quicfork/receive_stream.go)

    The receiving half of a stream, on top of the frame sorter and the flow
    controllers: frames and resets that arrive, reads, cancellation and completion.
    The mutex makes each operation atomic; [Read] is split where it waits, into its
    beginning and what it does when it is woken, and so is [Peek]. *)

From Stdlib Require Import ZifyBool.
From stdpp Require Import gmap.
From S2P Require Import Prelude GoBytes Varint Wire Frames FlowControl FrameSorter.
Local Open Scope Z_scope.

Module ReceiveStream.
Import Frames.

Record StreamError := mkStreamError { se_code : Z; se_remote : bool }.

(** [finalOffset] is [MaxByteCount] while it is not known; [deadline] 0 is the zero
    time; [readChan] says whether its one element is there.  The flow controller is
    that of the stream with that of the connection. *)
Record ReceiveStream := mkReceiveStream {
  streamID : Z;
  frameQueue : FrameSorter.frameSorter;
  finalOffset : Z;
  currentFrame : option bytes; currentFrameDone : FrameSorter.cb;
  readPosInFrame : Z; currentFrameIsLast : bool;
  queuedStopSending : bool; queuedMaxStreamData : bool;
  errorRead : bool; completed : bool; cancelledRemotely : bool; cancelledLocally : bool;
  cancelErr : option StreamError;
  closeForShutdownErr : option Z;
  readPos : Z; reliableSize : Z;
  readChan : bool;
  deadline : Z;
  flowController : FlowControl.streamFlowController * FlowControl.baseFlowController }.

Definition with_queue (s : ReceiveStream) (q : FrameSorter.frameSorter) : ReceiveStream :=
  mkReceiveStream (streamID s) q (finalOffset s) (currentFrame s) (currentFrameDone s) (readPosInFrame s) (currentFrameIsLast s) (queuedStopSending s) (queuedMaxStreamData s) (errorRead s) (completed s) (cancelledRemotely s) (cancelledLocally s) (cancelErr s) (closeForShutdownErr s) (readPos s) (reliableSize s) (readChan s) (deadline s) (flowController s).
Definition with_final (s : ReceiveStream) (n : Z) : ReceiveStream :=
  mkReceiveStream (streamID s) (frameQueue s) n (currentFrame s) (currentFrameDone s) (readPosInFrame s) (currentFrameIsLast s) (queuedStopSending s) (queuedMaxStreamData s) (errorRead s) (completed s) (cancelledRemotely s) (cancelledLocally s) (cancelErr s) (closeForShutdownErr s) (readPos s) (reliableSize s) (readChan s) (deadline s) (flowController s).
Definition with_frame (s : ReceiveStream) (q : FrameSorter.frameSorter) (f : option bytes) (done : FrameSorter.cb) (last : bool) : ReceiveStream :=
  mkReceiveStream (streamID s) q (finalOffset s) f done 0 last (queuedStopSending s) (queuedMaxStreamData s) (errorRead s) (completed s) (cancelledRemotely s) (cancelledLocally s) (cancelErr s) (closeForShutdownErr s) (readPos s) (reliableSize s) (readChan s) (deadline s) (flowController s).
Definition no_frame (s : ReceiveStream)  : ReceiveStream :=
  mkReceiveStream (streamID s) (frameQueue s) (finalOffset s) None (currentFrameDone s) (readPosInFrame s) (currentFrameIsLast s) (queuedStopSending s) (queuedMaxStreamData s) (errorRead s) (completed s) (cancelledRemotely s) (cancelledLocally s) (cancelErr s) (closeForShutdownErr s) (readPos s) (reliableSize s) (readChan s) (deadline s) (flowController s).
Definition with_stop (s : ReceiveStream) (b : bool) : ReceiveStream :=
  mkReceiveStream (streamID s) (frameQueue s) (finalOffset s) (currentFrame s) (currentFrameDone s) (readPosInFrame s) (currentFrameIsLast s) b (queuedMaxStreamData s) (errorRead s) (completed s) (cancelledRemotely s) (cancelledLocally s) (cancelErr s) (closeForShutdownErr s) (readPos s) (reliableSize s) (readChan s) (deadline s) (flowController s).
Definition with_max_data (s : ReceiveStream) (b : bool) : ReceiveStream :=
  mkReceiveStream (streamID s) (frameQueue s) (finalOffset s) (currentFrame s) (currentFrameDone s) (readPosInFrame s) (currentFrameIsLast s) (queuedStopSending s) b (errorRead s) (completed s) (cancelledRemotely s) (cancelledLocally s) (cancelErr s) (closeForShutdownErr s) (readPos s) (reliableSize s) (readChan s) (deadline s) (flowController s).
Definition with_errorRead (s : ReceiveStream)  : ReceiveStream :=
  mkReceiveStream (streamID s) (frameQueue s) (finalOffset s) (currentFrame s) (currentFrameDone s) (readPosInFrame s) (currentFrameIsLast s) (queuedStopSending s) (queuedMaxStreamData s) true (completed s) (cancelledRemotely s) (cancelledLocally s) (cancelErr s) (closeForShutdownErr s) (readPos s) (reliableSize s) (readChan s) (deadline s) (flowController s).
Definition with_completed (s : ReceiveStream) (b : bool) : ReceiveStream :=
  mkReceiveStream (streamID s) (frameQueue s) (finalOffset s) (currentFrame s) (currentFrameDone s) (readPosInFrame s) (currentFrameIsLast s) (queuedStopSending s) (queuedMaxStreamData s) (errorRead s) b (cancelledRemotely s) (cancelledLocally s) (cancelErr s) (closeForShutdownErr s) (readPos s) (reliableSize s) (readChan s) (deadline s) (flowController s).
Definition with_remote (s : ReceiveStream) (e : StreamError) : ReceiveStream :=
  mkReceiveStream (streamID s) (frameQueue s) (finalOffset s) (currentFrame s) (currentFrameDone s) (readPosInFrame s) (currentFrameIsLast s) (queuedStopSending s) (queuedMaxStreamData s) (errorRead s) (completed s) true (cancelledLocally s) (Some e) (closeForShutdownErr s) (readPos s) (reliableSize s) (readChan s) (deadline s) (flowController s).
Definition with_local (s : ReceiveStream)  : ReceiveStream :=
  mkReceiveStream (streamID s) (frameQueue s) (finalOffset s) (currentFrame s) (currentFrameDone s) (readPosInFrame s) (currentFrameIsLast s) (queuedStopSending s) (queuedMaxStreamData s) (errorRead s) (completed s) (cancelledRemotely s) true (cancelErr s) (closeForShutdownErr s) (readPos s) (reliableSize s) (readChan s) (deadline s) (flowController s).
Definition with_cancelErr (s : ReceiveStream) (e : StreamError) : ReceiveStream :=
  mkReceiveStream (streamID s) (frameQueue s) (finalOffset s) (currentFrame s) (currentFrameDone s) (readPosInFrame s) (currentFrameIsLast s) (queuedStopSending s) (queuedMaxStreamData s) (errorRead s) (completed s) (cancelledRemotely s) (cancelledLocally s) (Some e) (closeForShutdownErr s) (readPos s) (reliableSize s) (readChan s) (deadline s) (flowController s).
Definition with_shutdown (s : ReceiveStream) (e : Z) : ReceiveStream :=
  mkReceiveStream (streamID s) (frameQueue s) (finalOffset s) (currentFrame s) (currentFrameDone s) (readPosInFrame s) (currentFrameIsLast s) (queuedStopSending s) (queuedMaxStreamData s) (errorRead s) (completed s) (cancelledRemotely s) (cancelledLocally s) (cancelErr s) (Some e) (readPos s) (reliableSize s) (readChan s) (deadline s) (flowController s).
Definition with_pos (s : ReceiveStream) (inFrame : Z) (pos : Z) : ReceiveStream :=
  mkReceiveStream (streamID s) (frameQueue s) (finalOffset s) (currentFrame s) (currentFrameDone s) inFrame (currentFrameIsLast s) (queuedStopSending s) (queuedMaxStreamData s) (errorRead s) (completed s) (cancelledRemotely s) (cancelledLocally s) (cancelErr s) (closeForShutdownErr s) pos (reliableSize s) (readChan s) (deadline s) (flowController s).
Definition with_reliable (s : ReceiveStream) (n : Z) : ReceiveStream :=
  mkReceiveStream (streamID s) (frameQueue s) (finalOffset s) (currentFrame s) (currentFrameDone s) (readPosInFrame s) (currentFrameIsLast s) (queuedStopSending s) (queuedMaxStreamData s) (errorRead s) (completed s) (cancelledRemotely s) (cancelledLocally s) (cancelErr s) (closeForShutdownErr s) (readPos s) n (readChan s) (deadline s) (flowController s).
Definition with_chan (s : ReceiveStream) (b : bool) : ReceiveStream :=
  mkReceiveStream (streamID s) (frameQueue s) (finalOffset s) (currentFrame s) (currentFrameDone s) (readPosInFrame s) (currentFrameIsLast s) (queuedStopSending s) (queuedMaxStreamData s) (errorRead s) (completed s) (cancelledRemotely s) (cancelledLocally s) (cancelErr s) (closeForShutdownErr s) (readPos s) (reliableSize s) b (deadline s) (flowController s).
Definition with_deadline (s : ReceiveStream) (t : Z) : ReceiveStream :=
  mkReceiveStream (streamID s) (frameQueue s) (finalOffset s) (currentFrame s) (currentFrameDone s) (readPosInFrame s) (currentFrameIsLast s) (queuedStopSending s) (queuedMaxStreamData s) (errorRead s) (completed s) (cancelledRemotely s) (cancelledLocally s) (cancelErr s) (closeForShutdownErr s) (readPos s) (reliableSize s) (readChan s) t (flowController s).
Definition with_flow (s : ReceiveStream) (c : FlowControl.streamFlowController * FlowControl.baseFlowController) : ReceiveStream :=
  mkReceiveStream (streamID s) (frameQueue s) (finalOffset s) (currentFrame s) (currentFrameDone s) (readPosInFrame s) (currentFrameIsLast s) (queuedStopSending s) (queuedMaxStreamData s) (errorRead s) (completed s) (cancelledRemotely s) (cancelledLocally s) (cancelErr s) (closeForShutdownErr s) (readPos s) (reliableSize s) (readChan s) (deadline s) c.

Definition newReceiveStream (id : Z) (c : FlowControl.streamFlowController * FlowControl.baseFlowController) : ReceiveStream :=
  mkReceiveStream id FrameSorter.newFrameSorter MaxByteCount None None 0 false false false false false false false None None 0 0 false 0 c.

Definition signalRead (s : ReceiveStream) : ReceiveStream := with_chan s true.

(** What a stream tells its [streamSender]. *)
Inductive note := onHasStreamControlFrame | onHasConnectionData | onStreamCompleted.

Definition is_Some_b {A} (o : option A) : bool := match o with Some _ => true | None => false end.

Definition isNewlyCompleted (s : ReceiveStream) : bool * ReceiveStream :=
  if completed s then (false, s)
  else if finalOffset s =? MaxByteCount then (false, s)
  else if cancelledLocally s then (true, with_completed s true)
  else if errorRead s then (true, with_completed s true)
  else (false, s).

Definition isRemoteCancellationEffective (s : ReceiveStream) : bool := cancelledRemotely s && (reliableSize s <=? readPos s).

(** [s.flowController.Abandon()] *)
Definition Abandon (s : ReceiveStream) : ReceiveStream :=
  with_flow s (FlowControl.Abandon (flowController s).1 (flowController s).2).

(** ** Reading *)

(** [errBug] are the errors that start with BUG. *)
Inductive rerr := EOF | errCancelled (e : option StreamError) | errShutdown (e : Z) | errDeadline | errBug.

(** The next frame of the queue; [calls] are the callbacks called before. *)
Definition dequeueNextFrame (s : ReceiveStream) : res FrameSorter.serr (ReceiveStream * list nat) :=
  '(q, (offset, data, done)) ← FrameSorter.Pop (frameQueue s);
  let last := (finalOffset s <=? offset + match data with Some d => blen d | None => 0 end) && negb (cancelledRemotely s) in
  Ok (with_frame s q data done last, FrameSorter.call (currentFrameDone s)).

Definition frame_len (s : ReceiveStream) : Z := match currentFrame s with Some d => blen d | None => 0 end.

Definition expired (s : ReceiveStream) (now : Z) : bool := negb (deadline s =? 0) && negb (now <? deadline s).

(** The updates a call of [Read] queued. *)
Record updates := mkUpdates { hasStreamWindowUpdate : bool; hasConnWindowUpdate : bool }.

(** [Read] returns bytes and an error, or waits. *)
Inductive rresult := RReturn (data : bytes) (err : option rerr) | RBlocked.

Definition rstate : Type := ReceiveStream * updates * list nat * rresult.

(** One copy from the current frame: the bytes and the stream afterwards. *)
Definition copy_frame (s : ReceiveStream) (room : Z) (u : updates) : res FrameSorter.serr (bytes * ReceiveStream * updates) :=
  rest ← go_slice (default [] (currentFrame s)) (readPosInFrame s) (frame_len s);
  let d := take (Z.to_nat room) rest in
  let m := blen d in
  let '(s, u) :=
    if negb (isRemoteCancellationEffective s) then
      let '(fs, conn, (hasStream, hasConn)) := FlowControl.stream_AddBytesRead (flowController s).1 (flowController s).2 m in
      let s := with_flow s (fs, conn) in
      (if hasStream then with_max_data s true else s,
       mkUpdates (hasStreamWindowUpdate u || hasStream) (hasConnWindowUpdate u || hasConn))
    else (s, u) in
  let s := with_pos s (readPosInFrame s + m) (readPos s + m) in
  let s := if isRemoteCancellationEffective s then Abandon s else s in
  Ok (d, s, u).

Section read.
(** The clock, by the iterations left, and the length of the buffer. *)
Context (clock : nat -> Z) (plen : Z).

(** The loop of [readImpl] from the checks for errors on ([inner]) and from its
    beginning; [acc] are the bytes read so far. *)
Fixpoint read_inner (fuel : nat) (s : ReceiveStream) (u : updates) (calls : list nat) (acc : bytes) : res FrameSorter.serr rstate :=
  match fuel with
  | O => Panic
  | S fuel =>
      match closeForShutdownErr s with
      | Some e => Ok (s, u, calls, RReturn acc (Some (errShutdown e)))
      | None =>
          if cancelledLocally s || isRemoteCancellationEffective s then
            Ok (with_errorRead s, u, calls, RReturn acc (Some (errCancelled (cancelErr s))))
          else if expired s (clock fuel) then Ok (s, u, calls, RReturn acc (Some errDeadline))
          else if negb (is_Some_b (currentFrame s) || currentFrameIsLast s) then Ok (s, u, calls, RBlocked)
          else if (plen <? blen acc) || (frame_len s <? readPosInFrame s) then Ok (s, u, calls, RReturn acc (Some errBug))
          else
            '(d, s, u) ← copy_frame s (plen - blen acc) u;
            let acc := acc ++ d in
            if (frame_len s <=? readPosInFrame s) && currentFrameIsLast s then
              Ok (with_errorRead (no_frame s), u, calls ++ FrameSorter.call (currentFrameDone s), RReturn acc (Some EOF))
            else if plen <=? blen acc then
              if isRemoteCancellationEffective s then Ok (with_errorRead s, u, calls, RReturn acc (Some (errCancelled (cancelErr s))))
              else Ok (s, u, calls, RReturn acc None)
            else
              '(s, calls') ← (if negb (is_Some_b (currentFrame s)) || (frame_len s <=? readPosInFrame s) then dequeueNextFrame s else Ok (s, []));
              if negb (is_Some_b (currentFrame s)) && (0 <? blen acc) then
                Ok (s, u, calls ++ calls', RReturn acc (option_map errShutdown (closeForShutdownErr s)))
              else read_inner fuel s u (calls ++ calls') acc
      end
  end.

(** The beginning of [readImpl]. *)
Definition readImpl (fuel : nat) (s : ReceiveStream) : res FrameSorter.serr rstate :=
  let u := mkUpdates false false in
  if currentFrameIsLast s && negb (is_Some_b (currentFrame s)) then Ok (with_errorRead s, u, [], RReturn [] (Some EOF))
  else if cancelledLocally s || isRemoteCancellationEffective s then Ok (with_errorRead s, u, [], RReturn [] (Some (errCancelled (cancelErr s))))
  else match closeForShutdownErr s with
  | Some e => Ok (s, u, [], RReturn [] (Some (errShutdown e)))
  | None =>
      if plen <=? 0 then
        if isRemoteCancellationEffective s then Ok (with_errorRead s, u, [], RReturn [] (Some (errCancelled (cancelErr s))))
        else Ok (s, u, [], RReturn [] None)
      else
        '(s, calls) ← (if negb (is_Some_b (currentFrame s)) || (frame_len s <=? readPosInFrame s) then dequeueNextFrame s else Ok (s, []));
        read_inner fuel s u calls []
  end.

(** A waiting [Read] takes the element of [readChan]; with a deadline it may also be
    woken by its timer. *)
Definition wakeImpl (fuel : nat) (timer : bool) (s : ReceiveStream) : res FrameSorter.serr rstate :=
  let s := if timer then s else with_chan s false in
  '(s, calls) ← dequeueNextFrame s;
  read_inner fuel s (mkUpdates false false) calls [].
End read.

Definition completed_note (b : bool) : list note := if b then [onStreamCompleted] else [].

(** After [readImpl] in [Read]: when it returned. *)
Definition read_end (x : rstate) : ReceiveStream * list nat * rresult * list note :=
  let '(s, u, calls, w) := x in
  match w with
  | RBlocked => (s, calls, w, [])
  | RReturn _ _ =>
      let '(b, s) := isNewlyCompleted s in
      (s, calls, w, completed_note b ++ (if hasStreamWindowUpdate u then [onHasStreamControlFrame] else [])
                    ++ (if hasConnWindowUpdate u then [onHasConnectionData] else []))
  end.

(** Each iteration but the last copies a byte. *)
Definition read_fuel (plen : Z) : nat := S (Z.to_nat plen).

Definition Read (s : ReceiveStream) (clock : nat -> Z) (plen : Z) : res FrameSorter.serr (ReceiveStream * list nat * rresult * list note) :=
  x ← readImpl clock plen (read_fuel plen) s; Ok (read_end x).

Definition wake (s : ReceiveStream) (clock : nat -> Z) (timer : bool) (plen : Z) : res FrameSorter.serr (ReceiveStream * list nat * rresult * list note) :=
  x ← wakeImpl clock plen (read_fuel plen) timer s; Ok (read_end x).

(** ** Peeking

    The loop of [peekImpl] returns or waits in each iteration. *)

(** The bytes of the current frame with those the queue has after them, up to [total]
    bytes from the read position on, if they are all there. *)
Definition peek_upto (s : ReceiveStream) (rest : bytes) (total : Z) : res FrameSorter.serr (option bytes) :=
  let available := blen rest in
  if total - available <=? 0 then Ok (Some (take (Z.to_nat total) rest))
  else match FrameSorter.Peek (frameQueue s) (readPos s + available) (Z.to_nat (total - available)) with
  | Ok d => Ok (Some (rest ++ d))
  | Err _ => Ok None
  | Panic => Panic
  end.

Definition peek_frame (s : ReceiveStream) (n : Z) : res FrameSorter.serr (option (bytes * option rerr)) :=
  rest ← go_slice (default [] (currentFrame s)) (readPosInFrame s) (frame_len s);
  let available := blen rest in
  if n <=? available then Ok (Some (take (Z.to_nat n) rest, None))
  else match FrameSorter.Peek (frameQueue s) (readPos s + available) (Z.to_nat (n - available)) with
  | Ok d => Ok (Some (rest ++ d, None))
  | Panic => Panic
  | Err _ =>
      if currentFrameIsLast s then Ok (Some (rest, Some EOF))
      else
        cancelled ← (if cancelledRemotely s && (reliableSize s <? readPos s + n)
                     then peek_upto s rest (reliableSize s - readPos s) else Ok None);
        match cancelled with
        | Some d => Ok (Some (d, Some (errCancelled (cancelErr s))))
        | None =>
            ended ← (if finalOffset s <? readPos s + n then peek_upto s rest (finalOffset s - readPos s) else Ok None);
            Ok (option_map (fun d => (d, Some EOF)) ended)
        end
  end.

Definition peek_iter (s : ReceiveStream) (n now : Z) : res FrameSorter.serr (ReceiveStream * list nat * rresult) :=
  if currentFrameIsLast s && negb (is_Some_b (currentFrame s)) then Ok (s, [], RReturn [] (Some EOF))
  else if cancelledLocally s || isRemoteCancellationEffective s then Ok (s, [], RReturn [] (Some (errCancelled (cancelErr s))))
  else match closeForShutdownErr s with
  | Some e => Ok (s, [], RReturn [] (Some (errShutdown e)))
  | None =>
      if expired s now then Ok (s, [], RReturn [] (Some errDeadline))
      else
        '(s, calls) ← (if negb (is_Some_b (currentFrame s)) || (frame_len s <=? readPosInFrame s) then dequeueNextFrame s else Ok (s, []));
        found ← (if is_Some_b (currentFrame s) && (readPosInFrame s <? frame_len s) then peek_frame s n else Ok None);
        match found with
        | Some (d, err) => Ok (s, calls, RReturn d err)
        | None =>
            if currentFrameIsLast s || (finalOffset s <=? readPos s) then Ok (s, calls, RReturn [] (Some EOF))
            else Ok (s, calls, RBlocked)
        end
  end.

Definition Peek (s : ReceiveStream) (n now : Z) : res FrameSorter.serr (ReceiveStream * list nat * rresult) :=
  if n =? 0 then Ok (s, [], RReturn [] None) else peek_iter s n now.

Definition peek_wake (s : ReceiveStream) (timer : bool) (n now : Z) : res FrameSorter.serr (ReceiveStream * list nat * rresult) :=
  let s := if timer then s else with_chan s false in
  '(s, calls) ← (if negb (is_Some_b (currentFrame s)) || (frame_len s <=? readPosInFrame s) then dequeueNextFrame s else Ok (s, []));
  '(s, calls', w) ← peek_iter s n now;
  Ok (s, calls ++ calls', w).

(** ** Cancelling *)

Definition cancelReadImpl (s : ReceiveStream) (errorCode : Z) : bool * ReceiveStream :=
  if cancelledLocally s then (false, s)
  else if is_Some_b (closeForShutdownErr s) then (false, s)
  else
    let s := with_local s in
    if errorRead s || cancelledRemotely s then (false, s)
    else (true, signalRead (with_cancelErr (with_stop s true) (mkStreamError errorCode false))).

Definition CancelRead (s : ReceiveStream) (errorCode : Z) : ReceiveStream * list note :=
  let '(queued, s) := cancelReadImpl s errorCode in
  let '(b, s) := isNewlyCompleted s in
  (if b then Abandon s else s, (if queued then [onHasStreamControlFrame] else []) ++ completed_note b).

(** ** Frames *)

Inductive herr := errFlow (e : FlowControl.ferr) | errSorter (e : FrameSorter.serr).

(** [frame.PutBack] is the callback [doneCb]; the result holds the callbacks called. *)
Definition handleStreamFrameImpl (s : ReceiveStream) (frame : StreamFrame) (doneCb : FrameSorter.cb) (now : Z)
    : res FrameSorter.serr (ReceiveStream * list nat * option herr) :=
  let maxOffset := Offset frame + blen (Data frame) in
  let '(fs, conn, err) := FlowControl.UpdateHighestReceived (flowController s).1 (flowController s).2 maxOffset (Fin frame) now in
  let s := with_flow s (fs, conn) in
  match err with
  | Some e => Ok (s, [], Some (errFlow e))
  | None =>
      let s := if Fin frame then with_final s maxOffset else s in
      if cancelledLocally s then Ok (s, [], None)
      else
        '(q, calls, err) ← FrameSorter.Push (frameQueue s) (Data frame) (Offset frame) doneCb;
        let s := with_queue s q in
        match err with
        | Some e => Ok (s, calls, Some (errSorter e))
        | None => Ok (signalRead s, calls, None)
        end
  end.

Definition handleStreamFrame (s : ReceiveStream) (frame : StreamFrame) (doneCb : FrameSorter.cb) (now : Z)
    : res FrameSorter.serr (ReceiveStream * list nat * option herr * list note) :=
  '(s, calls, err) ← handleStreamFrameImpl s frame doneCb now;
  let '(b, s) := isNewlyCompleted s in
  Ok (if b then Abandon s else s, calls, err, completed_note b).

Definition handleResetStreamFrameImpl (s : ReceiveStream) (frame : ResetStreamFrame) (now : Z) : ReceiveStream * option herr :=
  if is_Some_b (closeForShutdownErr s) then (s, None)
  else
    let '(fs, conn, err) := FlowControl.UpdateHighestReceived (flowController s).1 (flowController s).2 (FinalSize frame) true now in
    let s := with_flow s (fs, conn) in
    match err with
    | Some e => (s, Some (errFlow e))
    | None =>
        let s := with_final s (FinalSize frame) in
        let s := if (negb (cancelledRemotely s) && (reliableSize s =? 0)) || (ReliableSize frame <? reliableSize s)
                 then with_reliable s (ReliableSize frame) else s in
        let s := if reliableSize s <=? readPos s then Abandon s else s in
        if cancelledRemotely s then (s, None)
        else if cancelledLocally s then (s, None)
        else (signalRead (with_remote s (mkStreamError (rs_ErrorCode frame) true)), None)
    end.

Definition handleResetStreamFrame (s : ReceiveStream) (frame : ResetStreamFrame) (now : Z) : ReceiveStream * option herr * list note :=
  let '(s, err) := handleResetStreamFrameImpl s frame now in
  let '(b, s) := isNewlyCompleted s in
  (s, err, completed_note b).

(** ** Control frames, deadlines and shutdown *)

Inductive control := CStopSending (f : StopSendingFrame) | CMaxStreamData (f : MaxStreamDataFrame).

(** The frame, if there is one, and whether there are more.  [s.cancelErr] is
    dereferenced for STOP_SENDING. *)
Definition getControlFrame (rtt : Z) (allow : Z -> bool) (s : ReceiveStream) (now : Z)
    : res FrameSorter.serr (option control * bool * ReceiveStream) :=
  if negb (queuedStopSending s) && negb (queuedMaxStreamData s) then Ok (None, false, s)
  else if queuedStopSending s then
    match cancelErr s with
    | Some e => Ok (Some (CStopSending (mkStopSending (streamID s) (se_code e))), queuedMaxStreamData s, with_stop s false)
    | None => Panic
    end
  else
    let '(offset, fs, conn) := FlowControl.GetWindowUpdate rtt allow (flowController s).1 (flowController s).2 now in
    Ok (Some (CMaxStreamData (mkMaxStreamData (streamID s) offset)), false, with_flow (with_max_data s false) (fs, conn)).

Definition SetReadDeadline (s : ReceiveStream) (t : Z) : ReceiveStream := signalRead (with_deadline s t).

Definition closeForShutdown (s : ReceiveStream) (e : Z) : ReceiveStream := signalRead (with_shutdown s e).

(** ** A stream and its surroundings

    [waiting] is a call that waits, a [Read] or a [Peek], with the length of its
    buffer; [out] are the bytes read, [eof] whether the end was, [got] the frames that
    were queued, each with a callback of its own ([handed]) of which [released] were
    called; [failed] is the error that closes the connection. *)

Inductive call_kind := CRead | CPeek.

Record run := mkRun {
  st : ReceiveStream; waiting : option (call_kind * Z); out : bytes; eof : bool;
  got : list StreamFrame; handed : list nat; released : list nat; reported : nat; failed : option herr }.

Inductive event :=
| RRead (clock : nat -> Z) (n : Z)
| RPeek (now : Z) (n : Z)
| RWake (timer : bool) (clock : nat -> Z)
| RCancel (code : Z)
| RFrame (f : StreamFrame) (id : nat) (now : Z)
| RReset (f : ResetStreamFrame) (now : Z)
| RControl (rtt : Z) (allow : Z -> bool) (now : Z)
| RDeadline (t : Z)
| RShutdown (e : Z)
| RConn (c : FlowControl.baseFlowController).

Definition unread (c : FlowControl.baseFlowController) : Z := FlowControl.highestReceived c - FlowControl.bytesRead c.

(** When the surroundings issue an event, for a peer that sends the stream [str].
    One call reads or peeks at a time; the offsets of frames are below the largest
    one; other streams use the connection's controller, where what this stream has
    not read stays counted. *)
Definition guard (str : Z -> Byte.byte) (r : run) (e : event) : Prop :=
  failed r = None /\
  match e with
  | RRead _ n | RPeek _ n => waiting r = None /\ 0 <= n
  | RWake timer _ => waiting r <> None /\ if timer then deadline (st r) <> 0 else readChan (st r) = true
  | RFrame f id _ => 0 <= Offset f /\ Offset f + blen (Data f) < MaxByteCount /\
      FrameSorter.agrees str (Offset f) (Data f) /\ id ∉ handed r
  | RReset f _ => 0 <= ReliableSize f <= FinalSize f /\ FinalSize f < MaxByteCount
  | RConn c => FlowControl.sound c /\ unread (FlowControl.fc (flowController (st r)).1) <= unread c
  | _ => True
  end.

Definition is_completed (ns : list note) : bool :=
  existsb (fun n => match n with onStreamCompleted => true | _ => false end) ns.

Definition update (r : run) (s : ReceiveStream) (calls : list nat) (ns : list note) : run :=
  mkRun s (waiting r) (out r) (eof r) (got r) (handed r) (released r ++ calls)
    (reported r + if is_completed ns then 1 else 0) (failed r).

Definition is_eof (e : option rerr) : bool := match e with Some EOF => true | _ => false end.

(** A call returned or waits. *)
Definition returned (r : run) (k : call_kind) (n : Z) (w : rresult) : run :=
  match w, k with
  | RReturn d err, CRead => mkRun (st r) None (out r ++ d) (eof r || is_eof err) (got r) (handed r) (released r) (reported r) (failed r)
  | RReturn _ _, CPeek => mkRun (st r) None (out r) (eof r) (got r) (handed r) (released r) (reported r) (failed r)
  | RBlocked, _ => mkRun (st r) (Some (k, n)) (out r) (eof r) (got r) (handed r) (released r) (reported r) (failed r)
  end.

Definition with_failed (r : run) (e : option herr) : run :=
  mkRun (st r) (waiting r) (out r) (eof r) (got r) (handed r) (released r) (reported r) e.

Definition exec (r : run) (e : event) : res FrameSorter.serr run :=
  let s := st r in
  match e with
  | RRead clock n => '(s, calls, w, ns) ← Read s clock n; Ok (returned (update r s calls ns) CRead n w)
  | RPeek now n => '(s, calls, w) ← Peek s n now; Ok (returned (update r s calls []) CPeek n w)
  | RWake timer clock =>
      match waiting r with
      | Some (CRead, n) => '(s, calls, w, ns) ← wake s clock timer n; Ok (returned (update r s calls ns) CRead n w)
      | Some (CPeek, n) => '(s, calls, w) ← peek_wake s timer n (clock O); Ok (returned (update r s calls []) CPeek n w)
      | None => Ok r
      end
  | RCancel code => let '(s, ns) := CancelRead s code in Ok (update r s [] ns)
  | RFrame f id now =>
      '(s', calls, err, ns) ← handleStreamFrame s f (Some id) now;
      let r' := update r s' calls ns in
      let queued := negb (cancelledLocally s) in
      Ok (mkRun (st r') (waiting r') (out r') (eof r') (if queued then got r' ++ [f] else got r')
            (if queued then handed r' ++ [id] else handed r') (released r') (reported r') err)
  | RReset f now => let '(s, err, ns) := handleResetStreamFrame s f now in Ok (with_failed (update r s [] ns) err)
  | RControl rtt allow now => '(_, _, s) ← getControlFrame rtt allow s now; Ok (update r s [] [])
  | RDeadline t => Ok (update r (SetReadDeadline s t) [] [])
  | RShutdown e => Ok (update r (closeForShutdown s e) [] [])
  | RConn c => Ok (update r (with_flow s ((flowController s).1, c)) [] [])
  end.

Definition start (id : Z) (c : FlowControl.streamFlowController * FlowControl.baseFlowController) : run :=
  mkRun (newReceiveStream id c) None [] false [] [] [] 0 None.

Inductive reachable (str : Z -> Byte.byte) (id : Z) (c : FlowControl.streamFlowController * FlowControl.baseFlowController) : run -> Prop :=
| reach_start : reachable str id c (start id c)
| reach_step r e r' : reachable str id c r -> guard str r e -> exec r e = Ok r' -> reachable str id c r'.

End ReceiveStream.
