(* ===== verification/ReceiveSafety.v ===== *)
(** * Receive streams: what they guarantee (src/quicfork/receive_stream.go)

    The invariant of a receive stream and its surroundings, for a peer that sends one
    stream of bytes, and that every operation keeps it. *)

From Stdlib Require Import ZifyBool.
From stdpp Require Import gmap.
From S2P Require Import Prelude GoBytes Varint Wire Frames FlowControl FrameSorter ReceiveStream.
Local Open Scope Z_scope.

Module ReceiveSafety.
Import Frames ReceiveStream.

Section stream.
Context (str : Z -> Byte.byte).

(** ** The invariant *)

(** The controller of the stream; the gaps of what arrived; the buffer in use. *)
Definition fl (s : ReceiveStream) : FlowControl.baseFlowController := FlowControl.fc (flowController s).1.
Definition missing (s : ReceiveStream) (x : Z) : Prop := FrameSorter.in_gaps (FrameSorter.gaps (frameQueue s)) x.
Definition qpos (s : ReceiveStream) : Z := FrameSorter.readPos (frameQueue s).
Definition held (s : ReceiveStream) : list nat :=
  match currentFrame s with Some _ => FrameSorter.call (currentFrameDone s) | None => [] end.

Definition known (s : ReceiveStream) : Prop := finalOffset s <> MaxByteCount.

(** The end was read, or will be read next. *)
Definition at_end (s : ReceiveStream) : Prop := currentFrameIsLast s = true /\ currentFrame s = None.

Definition effective (s : ReceiveStream) : Prop := isRemoteCancellationEffective s = true.
Definition local (s : ReceiveStream) : Prop := cancelledLocally s = true.

Definition credited (s : ReceiveStream) : Prop := FlowControl.bytesRead (fl s) = FlowControl.highestReceived (fl s).

(** What the connection counts as read beyond the bytes of this stream. *)
Definition others (c : FlowControl.streamFlowController * FlowControl.baseFlowController) : Z :=
  FlowControl.bytesRead c.2 - FlowControl.bytesRead (FlowControl.fc c.1).

(** Both controllers are sound, and what the stream has not read counts for the
    connection too. *)
Record flow_ok (c : FlowControl.streamFlowController * FlowControl.baseFlowController) : Prop := mkFlowOk {
  fo_sound : FlowControl.sound (FlowControl.fc c.1);
  fo_conn : FlowControl.sound c.2;
  fo_share : unread (FlowControl.fc c.1) <= unread c.2 }.

Record ok (s : ReceiveStream) (o : bytes) (hd rl : list nat) : Prop := mkOk {
  v_queue : FrameSorter.inv str (frameQueue s);
  v_high : forall x, FlowControl.highestReceived (fl s) <= x < MaxByteCount -> missing s x;
  v_final : if FlowControl.receivedFinalOffset (flowController s).1
            then finalOffset s = FlowControl.highestReceived (fl s) /\ finalOffset s < MaxByteCount
            else finalOffset s = MaxByteCount;
  v_fc : flow_ok (flowController s);
  v_frame : forall d, currentFrame s = Some d ->
    FrameSorter.agrees str (qpos s - blen d) d /\ 0 <= readPosInFrame s <= blen d /\ readPos s = qpos s - blen d + readPosInFrame s;
  v_noframe : currentFrame s = None -> readPos s = qpos s;
  v_nocb : currentFrame s = None -> currentFrameIsLast s = false -> currentFrameDone s = None;
  v_last : currentFrameIsLast s = true -> known s /\ qpos s = finalOffset s;
  v_out : o = FrameSorter.stream str 0 (Z.to_nat (readPos s)) /\ 0 <= readPos s;
  v_flow : FlowControl.bytesRead (fl s) = readPos s \/ (credited s /\ known s /\ (effective s \/ local s));
  v_effective : effective s -> credited s;
  v_remote : cancelledRemotely s = true -> known s;
  v_cancelErr : local s \/ cancelledRemotely s = true -> cancelErr s <> None \/ at_end s;
  v_stop : queuedStopSending s = true -> cancelErr s <> None;
  v_errorRead : errorRead s = true -> at_end s \/ local s \/ effective s;
  v_completed : completed s = true -> known s /\ (local s \/ errorRead s = true);
  v_cbs : rl ++ held s ++ FrameSorter.cbs (FrameSorter.queue (frameQueue s)) ≡ₚ hd }.

(** What reading leaves as it is. *)
Record same (s s' : ReceiveStream) : Prop := mkSame {
  sm_id : streamID s' = streamID s; sm_final : finalOffset s' = finalOffset s;
  sm_stop : queuedStopSending s' = queuedStopSending s; sm_completed : completed s' = completed s;
  sm_remote : cancelledRemotely s' = cancelledRemotely s; sm_local : cancelledLocally s' = cancelledLocally s;
  sm_cancelErr : cancelErr s' = cancelErr s; sm_shutdown : closeForShutdownErr s' = closeForShutdownErr s;
  sm_reliable : reliableSize s' = reliableSize s; sm_deadline : deadline s' = deadline s;
  sm_gaps : FrameSorter.gaps (frameQueue s') = FrameSorter.gaps (frameQueue s);
  sm_high : FlowControl.highestReceived (fl s') = FlowControl.highestReceived (fl s);
  sm_received : FlowControl.receivedFinalOffset (flowController s').1 = FlowControl.receivedFinalOffset (flowController s).1;
  sm_read : FlowControl.bytesRead (fl s) <= FlowControl.bytesRead (fl s');
  sm_others : others (flowController s') = others (flowController s);
  sm_pos : readPos s <= readPos s';
  sm_localpos : cancelledLocally s = true -> readPos s' = readPos s;
  sm_last : currentFrameIsLast s' = true -> currentFrameIsLast s = true \/ cancelledRemotely s = false;
  sm_end : at_end s -> at_end s' }.

Lemma same_refl s : same s s.
Proof. split; auto; done. Qed.

Lemma same_trans s1 s2 s3 : same s1 s2 -> same s2 s3 -> same s1 s3.
Proof.
  intros [] []. split; try (etrans; eassumption); auto.
  - intros Hl. rewrite sm_localpos1, sm_localpos0; congruence.
  - intros Hl. destruct (sm_last1 Hl) as [?|?]; [auto|right; congruence].
Qed.

(** Nothing is read beyond what arrived. *)
Lemma read_le_high q h :
  FrameSorter.inv str q -> (forall x, h <= x < MaxByteCount -> FrameSorter.in_gaps (FrameSorter.gaps q) x) -> FrameSorter.readPos q <= h.
Proof.
  intros Hq Hh. destruct (decide (FrameSorter.readPos q <= h)); [done|]. exfalso.
  pose proof (FrameSorter.read_lt_max str _ Hq). pose proof (FrameSorter.inv_after str _ Hq h (Hh h ltac:(lia))). lia.
Qed.

Lemma qpos_high s o hd rl : ok s o hd rl -> qpos s <= FlowControl.highestReceived (fl s).
Proof. intros K. apply read_le_high; apply K. Qed.

Lemma known_high s o hd rl : ok s o hd rl -> known s ->
  FlowControl.receivedFinalOffset (flowController s).1 = true /\ finalOffset s = FlowControl.highestReceived (fl s) /\ finalOffset s < MaxByteCount.
Proof. intros K Hk. pose proof (v_final _ _ _ _ K) as H. unfold known in Hk. destruct (FlowControl.receivedFinalOffset _); [tauto|done]. Qed.

Lemma qpos_final s o hd rl : ok s o hd rl -> qpos s <= finalOffset s.
Proof.
  intros K. pose proof (qpos_high _ _ _ _ K). pose proof (v_final _ _ _ _ K) as H1.
  pose proof (FrameSorter.read_lt_max str _ (v_queue _ _ _ _ K)). unfold qpos in *. destruct (FlowControl.receivedFinalOffset _); lia.
Qed.

Lemma pos_qpos s o hd rl : ok s o hd rl -> readPos s + (frame_len s - match currentFrame s with Some _ => readPosInFrame s | None => 0 end) = qpos s.
Proof.
  intros K. unfold frame_len. destruct (currentFrame s) eqn:E; [apply (v_frame _ _ _ _ K) in E; lia|apply (v_noframe _ _ _ _ K) in E; lia].
Qed.

(** ** Reading *)

Lemma dequeue_ok s o hd rl :
  ok s o hd rl -> ~ at_end s -> frame_len s <= readPosInFrame s \/ currentFrame s = None ->
  exists s' calls, dequeueNextFrame s = Ok (s', calls) /\ ok s' o hd (rl ++ calls) /\ same s s' /\ errorRead s' = errorRead s /\
    currentFrameIsLast s' = (finalOffset s <=? qpos s') && negb (cancelledRemotely s) /\
    readPos s' = readPos s /\ readPosInFrame s' = 0 /\
    match currentFrame s' with Some d => 0 < blen d | None => missing s (readPos s') /\ currentFrameDone s' = None end.
Proof.
  intros K Hne Hd. pose proof (pos_qpos _ _ _ _ K) as Hpos.
  assert (Hrp : readPos s = qpos s).
  { destruct Hd as [Hd|Hd]; [|by apply K]. destruct (currentFrame s) eqn:E; [|by apply K].
    destruct (v_frame _ _ _ _ K _ E) as (_ & Hb & ->). unfold frame_len in *. rewrite E in *. lia. }
  assert (Hheld : held s = FrameSorter.call (currentFrameDone s)).
  { unfold held. destruct (currentFrame s) eqn:E; [done|]. rewrite (v_nocb _ _ _ _ K E); [done|].
    destruct (currentFrameIsLast s) eqn:El; [|done]. by destruct Hne. }
  unfold dequeueNextFrame.
  destruct (FrameSorter.pop_spec str _ (v_queue _ _ _ _ K)) as [(q & d & c & -> & Hpos' & Hag & Hq & Hgaps & Hqr & Hcbs)|[-> Hgap]];
    cbn [mbind res_bind]; eexists _, _; (split; [reflexivity|]).
  - split; [|split; [|split_and!; try done; cbn; unfold qpos; cbn; by rewrite Hqr]].
    + destruct K. unfold qpos, missing, known in *. split; cbn; unfold qpos, missing, fl, known in *; cbn; rewrite ?Hgaps; try done.
      * intros d' [= <-]. rewrite Hqr. replace (FrameSorter.readPos (frameQueue s) + blen d - blen d) with (FrameSorter.readPos (frameQueue s)) by lia.
        split_and!; [done|lia|lia|lia].
      * intros Hl. assert (finalOffset s <= FrameSorter.readPos (frameQueue s) + blen d) by lia.
        assert (K' : FrameSorter.readPos q <= FlowControl.highestReceived (FlowControl.fc (flowController s).1)) by (apply read_le_high; [done|by rewrite Hgaps]).
        pose proof (FrameSorter.read_lt_max str _ Hq). destruct (FlowControl.receivedFinalOffset _); [split; lia|lia].
      * intros Hl. destruct (v_cancelErr0 Hl) as [?|He]; [by left|done].
      * intros He. destruct (v_errorRead0 He) as [He'|?]; [done|by right].
      * rewrite <- v_cbs0, Hheld, Hcbs. cbn. by rewrite <- !app_assoc.
    + split; try done. cbn. intros Hl. right. by apply andb_true_iff in Hl as [_ Hl%negb_true_iff].
  - split; [|split; [|split_and!; try done; cbn; unfold qpos, missing; cbn; [f_equal; lia|by rewrite Hrp]]].
    + destruct K. unfold qpos, missing, known in *. split; cbn; unfold qpos, missing, fl, known in *; cbn; try done.
      * intros Hl. assert (finalOffset s <= FrameSorter.readPos (frameQueue s)) by lia.
        pose proof (FrameSorter.read_lt_max str _ v_queue0). pose proof (read_le_high _ _ v_queue0 v_high0).
        destruct (FlowControl.receivedFinalOffset _); [split; lia|lia].
      * intros Hl. destruct (v_cancelErr0 Hl) as [?|He]; [by left|done].
      * intros He. destruct (v_errorRead0 He) as [He'|?]; [done|by right].
      * rewrite <- v_cbs0, Hheld. cbn. by rewrite <- !app_assoc.
    + split; try done. cbn. intros Hl. right. by apply andb_true_iff in Hl as [_ Hl%negb_true_iff].
Qed.

(** ** The controllers *)

Definition same_high (c c' : FlowControl.streamFlowController * FlowControl.baseFlowController) : Prop :=
  FlowControl.highestReceived (FlowControl.fc c'.1) = FlowControl.highestReceived (FlowControl.fc c.1) /\
  FlowControl.receivedFinalOffset c'.1 = FlowControl.receivedFinalOffset c.1.

Lemma same_high_trans c1 c2 c3 : same_high c1 c2 -> same_high c2 c3 -> same_high c1 c3.
Proof. unfold same_high. intros [] []. split; congruence. Qed.

Lemma add_read_flow c n :
  flow_ok c -> 0 <= n <= unread (FlowControl.fc c.1) ->
  let c' := (FlowControl.stream_AddBytesRead c.1 c.2 n).1 in
  flow_ok c' /\ same_high c c' /\ FlowControl.bytesRead (FlowControl.fc c'.1) = FlowControl.bytesRead (FlowControl.fc c.1) + n /\
  others c' = others c.
Proof.
  intros [Hs Hc Hsh] Hn. unfold FlowControl.sound, unread, same_high, others in *. cbn.
  split; [split|]; unfold FlowControl.sound, unread; cbn; lia.
Qed.

Lemma abandon_flow c :
  flow_ok c -> let c' := FlowControl.Abandon c.1 c.2 in
  flow_ok c' /\ same_high c c' /\ FlowControl.bytesRead (FlowControl.fc c'.1) = FlowControl.highestReceived (FlowControl.fc c.1).
Proof.
  intros [Hs Hc Hsh]. unfold FlowControl.Abandon, FlowControl.sound, unread, same_high in *.
  destruct (0 <? _) eqn:E; cbn; (split; [split|]; unfold FlowControl.sound, unread; cbn; lia).
Qed.

Lemma abandon_others c :
  FlowControl.bytesRead (FlowControl.fc c.1) <= FlowControl.highestReceived (FlowControl.fc c.1) ->
  others (FlowControl.Abandon c.1 c.2) = others c.
Proof. intros Hc. unfold FlowControl.Abandon, others. destruct (0 <? _) eqn:E; cbn; lia. Qed.

Lemma max_data_ok s b o hd rl : ok s o hd rl -> ok (with_max_data s b) o hd rl.
Proof. intros []. by split. Qed.

(** A part of a frame of the stream. *)
Lemma agrees_part p (d e : bytes) i :
  FrameSorter.agrees str p e -> 0 <= i -> d = take (length d) (drop (Z.to_nat i) e) -> d = FrameSorter.stream str (p + i) (length d).
Proof.
  intros Ha Hi Hd. apply FrameSorter.agrees_stream. intros j b Hj. rewrite Hd, lookup_take_Some, lookup_drop in Hj.
  destruct Hj as [Hj _]. apply Ha in Hj. rewrite <- Hj. f_equal. lia.
Qed.

(** Reading the bytes [d] of the current frame, with the controllers at [c]. *)
Lemma advance_ok s c d o hd rl :
  ok s o hd rl -> flow_ok c -> same_high (flowController s) c ->
  d = take (length d) (drop (Z.to_nat (readPosInFrame s)) (default [] (currentFrame s))) ->
  let s' := with_pos (with_flow s c) (readPosInFrame s + blen d) (readPos s + blen d) in
  FlowControl.bytesRead (FlowControl.fc c.1) = readPos s' /\ ~ effective s' \/ credited s' /\ effective s' ->
  errorRead s = false -> ~ local s ->
  ok s' (o ++ d) hd rl.
Proof.
  intros K Hc [Hh Hf] Hd s' Hfl He Hl. destruct K.
  assert (Hlen : 0 <= blen d) by apply blen_nonneg.
  assert (Hk : effective s' -> known s).
  { intros Hef. apply v_remote0. unfold effective, isRemoteCancellationEffective in Hef. cbn in Hef. by apply andb_true_iff in Hef as [? _]. }
  split; cbn; unfold qpos, missing, known, fl, held, effective, credited, local, at_end in *; cbn in *; rewrite ?Hh, ?Hf; try done.
  - intros f Hff. destruct (v_frame0 f Hff) as (Ha & Hb & Hp). rewrite Hff in Hd. cbn in Hd. split; [done|].
    apply (f_equal length) in Hd. rewrite length_take, length_drop in Hd. unfold blen in *. llia.
  - intros Hn. rewrite Hn in Hd. cbn in Hd. rewrite drop_nil, take_nil in Hd. rewrite Hd, (v_noframe0 Hn). apply Z.add_0_r.
  - destruct v_out0 as [Ho Hp]. split; [|llia]. rewrite Z2Nat.inj_add, FrameSorter.stream_app, <- Ho by done. f_equal.
    rewrite Z2Nat.id by done. unfold blen. rewrite Nat2Z.id. destruct (currentFrame s) as [f|] eqn:Ef.
    + destruct (v_frame0 f eq_refl) as (Ha & Hb & ->). rewrite Z.add_0_l. apply (agrees_part _ _ f); [done|llia|done].
    + cbn in Hd. rewrite drop_nil, take_nil in Hd. by rewrite Hd.
  - destruct Hfl as [[? _]|[? ?]]; [by left|right; auto].
  - destruct Hfl as [[_ ?]|[? ?]]; [done|by intros _].
  - by rewrite He.
Qed.

Lemma same_advance s c i p b :
  same_high (flowController s) c -> FlowControl.bytesRead (fl s) <= FlowControl.bytesRead (FlowControl.fc c.1) -> others c = others (flowController s) -> readPos s <= p -> ~ local s ->
  same s (with_max_data (with_pos (with_flow s c) i p) b).
Proof. intros [H1 H2] Hc Ho Hp Hl. split; try done. by left. Qed.

(** One copy of a read: bytes of the stream, at least one of them when there is a
    frame that is not read. *)
Lemma copy_ok s u room o hd rl :
  ok s o hd rl -> ~ effective s -> ~ local s -> errorRead s = false -> 0 < room ->
  (currentFrame s = None -> readPosInFrame s = 0) -> readPosInFrame s <= frame_len s ->
  exists d s' u', copy_frame s room u = Ok (d, s', u') /\ ok s' (o ++ d) hd rl /\ same s s' /\ errorRead s' = false /\
    blen d = Z.min room (frame_len s - readPosInFrame s) /\ readPosInFrame s' = readPosInFrame s + blen d /\ readPos s' = readPos s + blen d /\
    currentFrame s' = currentFrame s /\ currentFrameIsLast s' = currentFrameIsLast s /\ currentFrameDone s' = currentFrameDone s.
Proof.
  intros K Hne Hl He Hroom Hnone Hle. unfold copy_frame.
  assert (Hp : 0 <= readPosInFrame s).
  { destruct (currentFrame s) as [f|] eqn:Ef; [destruct (v_frame _ _ _ _ K f Ef) as (_ & ? & _); lia|rewrite Hnone by done; done]. }
  assert (Hfl : frame_len s = blen (default [] (currentFrame s))) by (unfold frame_len; by destruct (currentFrame s)).
  rewrite go_slice_Ok by lia. cbn [mbind res_bind].
  assert (Hef : isRemoteCancellationEffective s = false) by (by apply not_true_iff_false). rewrite Hef. cbn [negb].
  set (d := take (Z.to_nat room) _).
  assert (Hlen : blen d = Z.min room (frame_len s - readPosInFrame s)).
  { unfold d. unfold blen in *. rewrite !length_take, length_drop. lia. }
  assert (Hd : d = take (length d) (drop (Z.to_nat (readPosInFrame s)) (default [] (currentFrame s)))).
  { unfold d. rewrite take_take. unfold blen in *. rewrite !length_take, ?length_drop. f_equal. lia. }
  assert (Hr : 0 <= blen d <= unread (FlowControl.fc (flowController s).1)).
  { pose proof (qpos_high _ _ _ _ K). pose proof (pos_qpos _ _ _ _ K) as Hq. unfold unread. fold (fl s).
    destruct (v_flow _ _ _ _ K) as [->|(_ & _ & [?|?])]; [|done|done]. pose proof (blen_nonneg d). destruct (currentFrame s); [llia|].
    rewrite Hnone in Hlen by done. llia. }
  destruct (add_read_flow _ _ (v_fc _ _ _ _ K) Hr) as (Hc & Hh & Hb & Hot).
  destruct (FlowControl.stream_AddBytesRead _ _ _) as [[fs conn] [hs hc]] eqn:Eadd. cbn [fst] in Hc, Hh, Hb, Hot.
  assert (Hbr : FlowControl.bytesRead (FlowControl.fc fs) = readPos s + blen d).
  { destruct (v_flow _ _ _ _ K) as [Hv|(_ & _ & [?|?])]; [|done|done]. unfold fl in Hv. cbn in Hb. llia. }
  pose proof (proj1 Hh). pose proof (proj1 (fo_sound _ (v_fc _ _ _ _ K))) as Hso. cbn in H.
  set (s1 := with_pos (with_flow s (fs, conn)) (readPosInFrame s + blen d) (readPos s + blen d)).
  assert (Hs1 : exists b, (let s0 := if hs then with_max_data (with_flow s (fs, conn)) true else with_flow s (fs, conn) in
                 with_pos s0 (readPosInFrame s0 + blen d) (readPos s0 + blen d)) = with_max_data s1 b).
  { destruct hs; [by exists true|]. exists (queuedMaxStreamData s). done. }
  destruct Hs1 as [b Hs1]. cbv zeta in Hs1. exists d.
  destruct (isRemoteCancellationEffective s1) eqn:E1.
  - destruct (abandon_flow _ Hc) as (Hc' & Hh' & Hb'). cbn [fst snd] in Hc', Hh', Hb'.
    exists (with_max_data (with_pos (with_flow s (FlowControl.Abandon fs conn)) (readPosInFrame s + blen d) (readPos s + blen d)) b), (mkUpdates (hasStreamWindowUpdate u || hs) (hasConnWindowUpdate u || hc)).
    split; [|split; [|split; [apply same_advance; [done|unfold fl; cbn in *; llia|rewrite <- Hot; apply (abandon_others (fs, conn)), (fo_sound _ Hc)|llia|done]|split_and!; done]]].
    + destruct hs; cbv beta iota zeta; rewrite Hs1;
        replace (isRemoteCancellationEffective (with_max_data s1 b)) with true by (by rewrite <- E1); done.
    + apply max_data_ok. apply advance_ok; try done. right; split; [|exact E1].
      unfold credited, fl. cbn. destruct Hh' as [Hh' _]. cbn in Hh'. congruence.
  - exists (with_max_data s1 b), (mkUpdates (hasStreamWindowUpdate u || hs) (hasConnWindowUpdate u || hc)).
    split; [|split; [|split; [apply same_advance; [done|unfold fl; cbn in *; llia|done|llia|done]|split_and!; done]]].
    + destruct hs; cbv beta iota zeta; rewrite Hs1;
        replace (isRemoteCancellationEffective (with_max_data s1 b)) with false by (by rewrite <- E1); done.
    + apply max_data_ok, advance_ok; try done. left. split; [done|]. unfold effective. fold s1. by rewrite E1.
Qed.

Lemma errorRead_ok s o hd rl : ok s o hd rl -> at_end s \/ local s \/ effective s -> ok (with_errorRead s) o hd rl.
Proof. intros [] He. split; try done. intros Hc. split; [by apply v_completed0|by right]. Qed.

Lemma same_errorRead s s' : same s s' -> same s (with_errorRead s').
Proof. intros []. by split. Qed.

(** What a [Read] promises for the bytes and the error it returns. *)
Definition read_post (s s' : ReceiveStream) (plen : Z) (d : bytes) (err : option rerr) : Prop :=
  blen d <= Z.max plen 0 /\
  match err with
  | Some EOF => at_end s' /\ errorRead s' = true
  | Some (errCancelled e) => (local s \/ effective s') /\ e = cancelErr s /\ e <> None /\ errorRead s' = true
  | Some (errShutdown e) => closeForShutdownErr s = Some e
  | Some errDeadline => deadline s <> 0
  | Some errBug => False
  | None => 0 < blen d \/ plen <= 0
  end.

Definition blocked_post (s' : ReceiveStream) : Prop :=
  currentFrame s' = None /\ currentFrameIsLast s' = false /\ missing s' (readPos s') /\
  (finalOffset s' <=? readPos s') && negb (cancelledRemotely s') = false /\
  ~ local s' /\ ~ effective s' /\ closeForShutdownErr s' = None.

(** The state in which an iteration of the read loop starts: a frame with bytes
    that were not read, or none and the next byte is missing. *)
Record fresh (s : ReceiveStream) : Prop := mkFresh {
  fr_some : forall d, currentFrame s = Some d -> readPosInFrame s < blen d;
  fr_none : currentFrame s = None -> readPosInFrame s = 0 /\ missing s (readPos s) /\ currentFrameDone s = None /\
    currentFrameIsLast s = (finalOffset s <=? readPos s) && negb (cancelledRemotely s);
  fr_error : errorRead s = true -> local s \/ effective s;
  fr_cancel : local s \/ effective s -> cancelErr s <> None }.

Lemma cancelled_end s o hd rl : ok s o hd rl -> ~ at_end s -> local s \/ effective s -> cancelErr s <> None.
Proof.
  intros K Hn Hc. destruct (v_cancelErr _ _ _ _ K) as [?|?]; [|done|done].
  destruct Hc as [?|He]; [by left|right]. by apply andb_true_iff in He as [? _].
Qed.

(** The end of the stream was reached by the copy. *)
Lemma eof_ok s o hd rl :
  ok s o hd rl -> currentFrameIsLast s = true -> frame_len s <= readPosInFrame s ->
  (currentFrame s = None -> currentFrameDone s = None) ->
  ok (with_errorRead (no_frame s)) o hd (rl ++ FrameSorter.call (currentFrameDone s)).
Proof.
  intros K Hl Hp Hnone. pose proof (pos_qpos _ _ _ _ K) as Hq. pose proof K as []. apply errorRead_ok; [|by left].
  assert (Hheld : held s = FrameSorter.call (currentFrameDone s)).
  { unfold held. destruct (currentFrame s); [done|]. by rewrite Hnone. }
  split; cbn; unfold at_end in *; try done.
  - intros _. destruct (currentFrame s) as [f|] eqn:Ef; [|by apply v_noframe0]. destruct (v_frame0 f eq_refl) as (_ & Hb & _). unfold frame_len in *.
    rewrite Ef in *. unfold qpos in *. cbn. lia.
  - intros _ Hl'. congruence.
  - intros Hc. right. done.
  - intros He. left. done.
  - unfold held. cbn. rewrite <- v_cbs0, Hheld. by rewrite <- !app_assoc.
Qed.

Lemma same_cancelled s s' : same s s' -> readPos s' = readPos s -> local s' \/ effective s' <-> local s \/ effective s.
Proof.
  intros [] Hp. unfold local, effective, isRemoteCancellationEffective.
  by rewrite sm_local0, sm_remote0, sm_reliable0, Hp.
Qed.

Lemma dequeue_fresh s o hd rl :
  ok s o hd rl -> ~ at_end s -> frame_len s <= readPosInFrame s \/ currentFrame s = None ->
  exists s' calls, dequeueNextFrame s = Ok (s', calls) /\ ok s' o hd (rl ++ calls) /\ same s s' /\ fresh s' /\ readPos s' = readPos s.
Proof.
  intros K Hne Hd. destruct (dequeue_ok s o hd rl K Hne Hd) as (s' & calls & -> & K' & Hsame & He & Hlast & Hp & Hi & Hm).
  exists s', calls. split_and!; try done. split.
  - intros d Hc. rewrite Hc in Hm. llia.
  - intros Hc. rewrite Hc in Hm. split_and!; [done| |apply Hm|].
    + unfold missing in *. rewrite (sm_gaps _ _ Hsame). apply Hm.
    + rewrite Hlast, <- (v_noframe _ _ _ _ K' Hc), (sm_final _ _ Hsame), (sm_remote _ _ Hsame). done.
  - intros Her. rewrite He in Her. destruct (v_errorRead _ _ _ _ K Her) as [?|Hc]; [done|]. by rewrite (same_cancelled s s').
  - intros Hc. rewrite (sm_cancelErr _ _ Hsame). apply (cancelled_end s o hd rl K Hne). by rewrite <- (same_cancelled s s').
Qed.

Lemma read_post_same s s2 s' plen d err : same s s2 -> read_post s2 s' plen d err -> read_post s s' plen d err.
Proof.
  intros [] [Hd He]. split; [done|]. unfold local in *. destruct err as [[]|]; congruence.
Qed.

Lemma read_inner_ok clock plen fuel : forall s u calls acc o hd rl,
  ok s (o ++ acc) hd (rl ++ calls) -> fresh s -> blen acc < plen -> (currentFrame s = None -> acc = []) ->
  (Z.to_nat (plen - blen acc) <= fuel)%nat ->
  exists s' u' calls' w, read_inner clock plen fuel s u calls acc = Ok (s', u', calls', w) /\ same s s' /\
    match w with
    | RReturn d err => ok s' (o ++ d) hd (rl ++ calls') /\ read_post s s' plen d err
    | RBlocked => ok s' o hd (rl ++ calls') /\ blocked_post s'
    end.
Proof.
  induction fuel as [|fuel IH]; intros s u calls acc o hd rl K Hf Hlt Hacc Hfuel; [lia|].
  cbn [read_inner]. destruct (closeForShutdownErr s) as [e|] eqn:Esh.
  { eexists _, _, _, _. split; [reflexivity|]. split; [apply same_refl|]. split; [done|]. split; [llia|done]. }
  destruct (cancelledLocally s || isRemoteCancellationEffective s) eqn:Ec.
  { apply orb_true_iff in Ec. eexists _, _, _, _. split; [reflexivity|]. split; [apply same_errorRead, same_refl|].
    split; [apply errorRead_ok; [done|by right]|]. split; [llia|]. split_and!; try done. by apply Hf. }
  apply orb_false_iff in Ec as [Hl He].
  destruct (expired s (clock fuel)) eqn:Ex.
  { eexists _, _, _, _. split; [reflexivity|]. split; [apply same_refl|]. split; [done|]. split; [llia|].
    unfold expired in Ex. destruct (deadline s =? 0) eqn:Ed; [done|]. llia. }
  destruct (negb (is_Some_b (currentFrame s) || currentFrameIsLast s)) eqn:Eb.
  { apply negb_true_iff, orb_false_iff in Eb as [Eb El]. destruct (currentFrame s) eqn:Ef; [done|]. rewrite (Hacc eq_refl), app_nil_r in *.
    eexists _, _, _, _. split; [reflexivity|]. split; [apply same_refl|]. split; [done|]. unfold blocked_post, local, effective. rewrite Hl, He.
    destruct (fr_none _ Hf Ef) as (_ & ? & _ & Hlast). rewrite El in Hlast. by split_and!. }
  assert (Hpos : readPosInFrame s <= frame_len s).
  { unfold frame_len. destruct (currentFrame s) eqn:Ef; [pose proof (fr_some _ Hf _ Ef); llia|]. rewrite (proj1 (fr_none _ Hf Ef)). done. }
  rewrite (proj2 (orb_false_iff _ _)) by (split; llia).
  assert (Herr : errorRead s = false).
  { destruct (errorRead s) eqn:E; [|done]. destruct (fr_error _ Hf E); unfold local, effective in *; congruence. }
  destruct (copy_ok s u (plen - blen acc) _ hd _ K) as (d & s1 & u1 & -> & K1 & Hs1 & He1 & Hd1 & Hi1 & Hp1 & Hc1 & Hl1 & Hdn1);
    [unfold effective; congruence|unfold local; congruence|done|llia|intros E; apply (fr_none _ Hf E)|done|].
  cbn [mbind res_bind]. rewrite <- app_assoc in K1. assert (Hfl1 : frame_len s1 = frame_len s) by (unfold frame_len; by rewrite Hc1).
  destruct ((frame_len s1 <=? readPosInFrame s1) && currentFrameIsLast s1) eqn:Ee.
  { apply andb_true_iff in Ee as [Ee1 Ee2]. eexists _, _, _, _. split; [reflexivity|]. split; [apply same_errorRead; destruct Hs1; by split|].
    split; [rewrite (app_assoc rl); apply eof_ok; [done|done|llia|]|split; [rewrite blen_app; llia|done]].
    intros E. rewrite Hdn1. apply (fr_none _ Hf). congruence. }
  assert (Hne1 : ~ at_end s1).
  { intros [El Ef]. rewrite El in Ee. unfold frame_len in Ee. rewrite Ef in Ee. cbn in Ee. rewrite Hc1 in Ef.
    pose proof (proj1 (fr_none _ Hf Ef)). pose proof (blen_nonneg d). llia. }
  destruct (plen <=? blen (acc ++ d)) eqn:Ep.
  { assert (blen (acc ++ d) = plen) by (rewrite blen_app in *; llia). assert (0 < plen) by (pose proof (blen_nonneg acc); llia).
    destruct (isRemoteCancellationEffective s1) eqn:Eef; eexists _, _, _, _; (split; [reflexivity|]).
    - split; [by apply same_errorRead|]. split; [apply errorRead_ok; [done|right; by right]|]. split; [llia|].
      split_and!; [by right|apply Hs1|eapply cancelled_end; [done|done|by right]|done].
    - split; [done|]. split; [done|]. split; [llia|left; llia]. }
  assert (Hd2 : blen d = frame_len s - readPosInFrame s) by (rewrite blen_app in Ep; llia).
  replace (negb (is_Some_b (currentFrame s1)) || (frame_len s1 <=? readPosInFrame s1)) with true
    by (symmetry; apply orb_true_iff; right; llia).
  destruct (dequeue_fresh s1 _ _ _ K1 Hne1) as (s2 & calls2 & -> & K2 & Hs2 & Hf2 & Hp2); [left; llia|].
  cbn [mbind res_bind]. rewrite <- app_assoc in K2.
  assert (Hs : same s s2) by (by apply (same_trans _ s1)).
  destruct (negb (is_Some_b (currentFrame s2)) && (0 <? blen (acc ++ d))) eqn:Er.
  { eexists _, _, _, _. split; [reflexivity|]. split; [done|]. split; [done|].
    rewrite (sm_shutdown _ _ Hs), Esh. split; [llia|left; apply andb_true_iff in Er as [_ Er]; llia]. }
  assert (Hprog : 0 < blen d).
  { destruct (currentFrame s) as [f|] eqn:Ef; [pose proof (fr_some _ Hf f Ef); unfold frame_len in Hd2; rewrite Ef in Hd2; llia|].
    exfalso. apply Hne1. split; [|done]. rewrite Hl1. by destruct (currentFrameIsLast s). }
  destruct (IH s2 u1 (calls ++ calls2) (acc ++ d) o hd rl) as (s' & u' & calls' & w & -> & Hs' & Hw); try done.
  { llia. }
  { intros Ef. rewrite Ef in Er. cbn in Er. rewrite blen_app in Er. pose proof (blen_nonneg acc). llia. }
  { rewrite blen_app in *. pose proof (blen_nonneg acc). llia. }
  eexists _, _, _, _. split; [reflexivity|]. split; [by apply (same_trans _ s2)|]. destruct w as [d' err|]; [|done].
  destruct Hw as [K' Hpost]. split; [done|]. by apply (read_post_same s s2).
Qed.

Definition read_end_ok (s s' : ReceiveStream) (plen : Z) (o : bytes) (hd rl : list nat) (w : rresult) : Prop :=
  match w with
  | RReturn d err => ok s' (o ++ d) hd rl /\ read_post s s' plen d err
  | RBlocked => ok s' o hd rl /\ blocked_post s'
  end.

(** The bytes of the current frame were read, or there is none. *)
Lemma needs_frame s : negb (is_Some_b (currentFrame s)) || (frame_len s <=? readPosInFrame s) = true ->
  frame_len s <= readPosInFrame s \/ currentFrame s = None.
Proof. destruct (currentFrame s) eqn:E; cbn; [intros H; left; lia|by right]. Qed.

Lemma fresh_frame s o hd rl :
  ok s o hd rl -> ~ at_end s -> negb (is_Some_b (currentFrame s)) || (frame_len s <=? readPosInFrame s) = false -> fresh s.
Proof.
  intros K Hne Hf. destruct (currentFrame s) as [f|] eqn:Ef; [|done]. cbn in Hf. unfold frame_len in Hf. rewrite Ef in Hf. split.
  - intros d Hd. assert (d = f) as -> by congruence. lia.
  - congruence.
  - intros He. destruct (v_errorRead _ _ _ _ K He) as [?|?]; [done|done].
  - by apply (cancelled_end s o hd rl).
Qed.

(** The beginning of an iteration: a frame with bytes that were not read, or none. *)
Lemma next_frame s o hd rl :
  ok s o hd rl -> ~ at_end s ->
  exists s1 calls, (if negb (is_Some_b (currentFrame s)) || (frame_len s <=? readPosInFrame s) then dequeueNextFrame s else Ok (s, [])) = Ok (s1, calls) /\
    ok s1 o hd (rl ++ calls) /\ same s s1 /\ fresh s1 /\ readPos s1 = readPos s.
Proof.
  intros K Hne. destruct (negb _ || _) eqn:Ed.
  - apply needs_frame in Ed. destruct (dequeue_fresh s o hd rl K Hne Ed) as (s1 & calls & -> & ? & ? & ? & ?). eauto 10.
  - exists s, []. split; [done|]. rewrite app_nil_r. split_and!; [done|apply same_refl|by apply (fresh_frame s o hd rl)|done].
Qed.

Lemma nil_fits n : blen [] <= Z.max n 0.
Proof. unfold blen. cbn. lia. Qed.

Lemma readImpl_ok clock plen s o hd rl :
  ok s o hd rl ->
  exists s' u calls w, readImpl clock plen (read_fuel plen) s = Ok (s', u, calls, w) /\ same s s' /\ read_end_ok s s' plen o hd (rl ++ calls) w /\ (w = RBlocked -> 0 < plen).
Proof.
  intros K. unfold readImpl.
  assert (Hret : forall s', ok s' o hd rl -> ok s' (o ++ []) hd (rl ++ [])) by (intros s'; by rewrite !app_nil_r).
  destruct (currentFrameIsLast s && negb (is_Some_b (currentFrame s))) eqn:Ea.
  { apply andb_true_iff in Ea as [E1 E2]. assert (at_end s) by (split; [done|by destruct (currentFrame s)]).
    eexists _, _, _, _. split; [reflexivity|]. split; [apply same_errorRead, same_refl|]. split; [|done]. split; [apply Hret, errorRead_ok; [done|by left]|]. split; [apply nil_fits|done]. }
  assert (Hne : ~ at_end s) by (intros [E1 E2]; by rewrite E1, E2 in Ea).
  destruct (cancelledLocally s || isRemoteCancellationEffective s) eqn:Ec.
  { apply orb_true_iff in Ec. eexists _, _, _, _. split; [reflexivity|]. split; [apply same_errorRead, same_refl|].
    split; [|done]. split; [apply Hret, errorRead_ok; [done|by right]|]. split; [apply nil_fits|]. split_and!; try done. by apply (cancelled_end s o hd rl). }
  apply orb_false_iff in Ec as [Hl He]. destruct (closeForShutdownErr s) as [e|] eqn:Esh.
  { eexists _, _, _, _. split; [reflexivity|]. split; [apply same_refl|]. split; [|done]. split; [by apply Hret|]. split; [apply nil_fits|done]. }
  rewrite He. destruct (plen <=? 0) eqn:Ep.
  { eexists _, _, _, _. split; [reflexivity|]. split; [apply same_refl|]. split; [|done]. split; [by apply Hret|]. split; [apply nil_fits|right; lia]. }
  destruct (next_frame s o hd rl K Hne) as (s1 & calls & -> & K1 & Hs1 & Hf1 & _). cbn [mbind res_bind]. rewrite <- (app_nil_r o) in K1.
  destruct (read_inner_ok clock plen (read_fuel plen) s1 (mkUpdates false false) calls [] o hd rl K1 Hf1) as (s' & u & calls' & w & -> & Hs' & Hw);
    [unfold blen; cbn; lia|done|unfold read_fuel, blen; cbn; lia|].
  eexists _, _, _, _. split; [reflexivity|]. split; [by apply (same_trans _ s1)|]. split; [|lia]. destruct w; [|done]. destruct Hw. split; [done|by apply (read_post_same s s1)].
Qed.

Lemma chan_ok s b o hd rl : ok s o hd rl -> ok (with_chan s b) o hd rl.
Proof. intros []. by split. Qed.

Lemma wakeImpl_ok clock plen timer s o hd rl :
  ok s o hd rl -> currentFrame s = None -> currentFrameIsLast s = false -> 0 < plen ->
  exists s' u calls w, wakeImpl clock plen (read_fuel plen) timer s = Ok (s', u, calls, w) /\
    same (if timer then s else with_chan s false) s' /\ read_end_ok s s' plen o hd (rl ++ calls) w.
Proof.
  intros K Hc Hl Hp. unfold wakeImpl. set (s0 := if timer then s else with_chan s false).
  assert (K0 : ok s0 o hd rl) by (unfold s0; destruct timer; [done|by apply chan_ok]).
  assert (Hc0 : currentFrame s0 = None) by (unfold s0; by destruct timer).
  destruct (dequeue_fresh s0 o hd rl K0) as (s1 & calls & -> & K1 & Hs1 & Hf1 & _); [|by right|].
  { unfold s0. intros [? _]. destruct timer; cbn in *; congruence. }
  cbn [mbind res_bind]. rewrite <- (app_nil_r o) in K1.
  destruct (read_inner_ok clock plen (read_fuel plen) s1 (mkUpdates false false) calls [] o hd rl K1 Hf1) as (s' & u & calls' & w & -> & Hs' & Hw);
    [unfold blen; cbn; lia|done|unfold read_fuel, blen; cbn; lia|].
  eexists _, _, _, _. split; [reflexivity|]. split; [by apply (same_trans _ s1)|]. destruct w; [|done]. destruct Hw as [? Hw]. split; [done|].
  apply (read_post_same s0 s1) in Hw; [|done]. unfold s0 in Hw. by destruct timer.
Qed.

(** ** Completion *)

#[local] Arguments FlowControl.Abandon : simpl never.

Lemma completed_ok s o hd rl : ok s o hd rl -> known s -> local s \/ errorRead s = true -> ok (with_completed s true) o hd rl.
Proof. intros [] Hk Hc. by split. Qed.

Lemma abandon_ok s o hd rl : ok s o hd rl -> known s -> at_end s \/ local s \/ effective s -> ok (Abandon s) o hd rl /\ credited (Abandon s).
Proof.
  intros K Hk Hc. destruct (abandon_flow _ (v_fc _ _ _ _ K)) as (Hc' & [Hh Hf] & Hb).
  assert (Hcr : credited (Abandon s)) by (unfold credited, fl; cbn in *; congruence).
  assert (Hae : at_end s -> FlowControl.highestReceived (fl s) = readPos s).
  { intros [H1 H2]. rewrite (v_noframe _ _ _ _ K H2), (proj2 (v_last _ _ _ _ K H1)). symmetry. apply (known_high s o hd rl K Hk). }
  split; [|done]. destruct K. split; cbn; unfold fl, missing in *; cbn; rewrite ?Hh, ?Hf; try done.
  destruct Hc as [Ha|Hc]; [left; rewrite Hb; auto|right]. split; [done|]. split; [done|]. destruct Hc; [by right|by left].
Qed.

Lemma at_end_credited s o hd rl : ok s o hd rl -> at_end s -> credited s.
Proof.
  intros K [H1 H2]. destruct (v_flow _ _ _ _ K) as [Hb|[? _]]; [|done]. destruct (v_last _ _ _ _ K H1) as [Hk Hq].
  unfold credited. rewrite Hb, (v_noframe _ _ _ _ K H2), Hq. apply (known_high s o hd rl K Hk).
Qed.

(** The three cases of [isNewlyCompleted]. *)
Lemma newly_cases s :
  isNewlyCompleted s = (false, s) /\ (completed s = true \/ ~ known s \/ ~ local s /\ errorRead s = false) \/
  isNewlyCompleted s = (true, with_completed s true) /\ completed s = false /\ known s /\ (local s \/ errorRead s = true).
Proof.
  unfold isNewlyCompleted, known, local. destruct (completed s); [left; auto|]. destruct (finalOffset s =? MaxByteCount) eqn:E; [left; split; [done|right; left; lia]|].
  destruct (cancelledLocally s); [right; split_and!; [done|done|lia|by left]|].
  destruct (errorRead s); [right; split_and!; [done|done|lia|by right]|left; split; [done|]; right; right; auto].
Qed.

(** ** Frames *)

Lemma update_spec c off fin now fs conn :
  flow_ok c -> FlowControl.UpdateHighestReceived c.1 c.2 off fin now = (fs, conn, None) ->
  flow_ok (fs, conn) /\ FlowControl.bytesRead (FlowControl.fc fs) = FlowControl.bytesRead (FlowControl.fc c.1) /\
  FlowControl.highestReceived (FlowControl.fc fs) = Z.max (FlowControl.highestReceived (FlowControl.fc c.1)) off /\
  FlowControl.receivedFinalOffset fs = FlowControl.receivedFinalOffset c.1 || fin /\
  (fin = true -> FlowControl.highestReceived (FlowControl.fc fs) = off) /\
  (FlowControl.receivedFinalOffset c.1 = true -> FlowControl.highestReceived (FlowControl.fc fs) = FlowControl.highestReceived (FlowControl.fc c.1)).
Proof.
  intros [Hs Hc Hsh] Hu. destruct (FlowControl.receive_spec _ _ _ _ _ _ _ Hs Hc Hu) as ([Hs' _] & [Hc' _] & (H1 & H2 & _) & Hh & Hd).
  split; [split; cbn; unfold unread in *; [done|done|lia]|]. split; [done|]. split; [done|].
  unfold FlowControl.UpdateHighestReceived in Hu.
  destruct (FlowControl.receivedFinalOffset c.1 && fin && _) eqn:E1; [done|].
  destruct (FlowControl.receivedFinalOffset c.1 && (_ <? _)) eqn:E2; [done|].
  assert (Hfin : FlowControl.receivedFinalOffset fs = FlowControl.receivedFinalOffset c.1 || fin /\ (fin = true -> FlowControl.highestReceived (FlowControl.fc c.1) <= off)).
  { destruct (off =? _) eqn:E3; [injection Hu as <- <-; split; [done|lia]|].
    destruct (off <? _) eqn:E4; [destruct fin; [done|]; by injection Hu as <- <-|].
    destruct (FlowControl.checkFlowControlViolation _); [done|]. unfold FlowControl.IncrementHighestReceived in Hu.
    injection Hu as <- <- _. split; [done|lia]. }
  destruct Hfin as [? Hfin]. split; [done|]. split; [lia|]. intros Hr. rewrite Hr in E2. cbn in E2. lia.
Qed.

Lemma Push_spec q d off id :
  FrameSorter.inv str q -> 0 <= off -> FrameSorter.agrees str off d -> off + blen d < MaxByteCount ->
  exists q' calls err, FrameSorter.Push q d off (Some id) = Ok (q', calls, err) /\
    (err = None -> FrameSorter.inv str q' /\ FrameSorter.readPos q' = FrameSorter.readPos q /\
       (forall x, FrameSorter.in_gaps (FrameSorter.gaps q') x <-> FrameSorter.in_gaps (FrameSorter.gaps q) x /\ ~ (off <= x < off + blen d)) /\
       id :: FrameSorter.cbs (FrameSorter.queue q) ≡ₚ calls ++ FrameSorter.cbs (FrameSorter.queue q')).
Proof.
  intros Hq Ho Ha Hm. destruct (FrameSorter.push_spec str q d off (Some id) Hq Ho Ha Hm) as (q' & calls & err & Hp & Hpost).
  unfold FrameSorter.Push. rewrite Hp. cbn [mbind res_bind]. destruct err as [[]|]; try (eexists _, _, _; by split).
  - destruct Hpost as (-> & -> & Hn). eexists _, _, _. split; [reflexivity|]. intros _. split_and!; [done|done| |done].
    intros x. split; [intros Hx; split; [done|intros Hr; by apply (Hn x)]|by intros [? _]].
  - eexists _, _, _. split; [reflexivity|]. intros _. by destruct Hpost as (? & ? & ? & ? & _).
Qed.

(** The final size, when it is learned. *)
Definition ended (s : ReceiveStream) (fin : bool) (n : Z) : ReceiveStream := if fin then with_final s n else s.

Lemma ended_ok s fin n c o hd rl now :
  ok s o hd rl -> 0 <= n < MaxByteCount -> FlowControl.UpdateHighestReceived (flowController s).1 (flowController s).2 n fin now = (c, None) ->
  ok (ended (with_flow s c) fin n) o hd rl /\ (known s -> finalOffset (ended (with_flow s c) fin n) = finalOffset s) /\
  (known s -> FlowControl.highestReceived (FlowControl.fc c.1) = FlowControl.highestReceived (fl s)) /\
  n <= FlowControl.highestReceived (FlowControl.fc c.1) /\ (fin = true -> known (ended (with_flow s c) fin n)) /\
  (known s -> credited s -> credited (ended (with_flow s c) fin n)).
Proof.
  intros K Hn Eu. destruct c as [fs conn]. destruct (update_spec _ _ _ _ _ _ (v_fc _ _ _ _ K) Eu) as (Hc & Hb & Hh & Hr & Hfin & Hold).
  assert (Hkn : known s -> FlowControl.receivedFinalOffset (flowController s).1 = true /\ finalOffset s = FlowControl.highestReceived (fl s)) by (intros Hk; split; apply (known_high s o hd rl K Hk)).
  assert (Hfo : known s -> finalOffset (ended (with_flow s (fs, conn)) fin n) = finalOffset s).
  { intros Hk. destruct (Hkn Hk) as [Hk1 Hk2]. unfold ended. destruct fin; [|done]. cbn. rewrite Hk2. unfold fl. rewrite <- (Hold Hk1). symmetry. auto. }
  assert (Hkh : known s -> FlowControl.highestReceived (FlowControl.fc fs) = FlowControl.highestReceived (fl s)) by (intros Hk; apply Hold, Hkn, Hk).
  assert (Hkk : known s -> known (ended (with_flow s (fs, conn)) fin n)) by (intros Hk; unfold known; by rewrite Hfo).
  assert (Hcred : known s -> credited s -> FlowControl.bytesRead (FlowControl.fc fs) = FlowControl.highestReceived (FlowControl.fc fs)) by (unfold credited, fl in *; intros; rewrite Hb, Hkh; auto).
  split; [|split_and!; [done|done|cbn; llia|intros ->; unfold known; cbn; llia|intros; unfold credited, fl, ended; destruct fin; by apply Hcred]].
  assert (Hsame : ended (with_flow s (fs, conn)) fin n = with_final (with_flow s (fs, conn)) (finalOffset (ended (with_flow s (fs, conn)) fin n))) by (by destruct fin).
  rewrite Hsame. unfold known in *. set (fo := finalOffset (ended _ _ _)) in *. cbn in Hkk, Hfo. destruct K.
  split; cbn; unfold fl, missing, qpos, credited, known in *; cbn; try done.
  - intros x Hx. apply v_high0. llia.
  - rewrite Hr. destruct (FlowControl.receivedFinalOffset (flowController s).1) eqn:Er; cbn.
    + destruct v_final0 as [? ?]. split; [rewrite Hfo, Hkh by llia; done|rewrite Hfo by llia; llia].
    + unfold fo. destruct fin; [|done]. cbn. rewrite Hfin by done. split; [done|llia].
  - intros Hl. destruct (v_last0 Hl) as [? ?]. rewrite Hfo by done. done.
  - destruct v_flow0 as [?|(? & ? & ?)]; [left; congruence|right; auto].
  - intros He. apply Hcred; [|by apply v_effective0]. apply v_remote0. by apply andb_true_iff in He as [? _].
  - intros Hr'. apply Hkk; auto.
  - intros Hco. destruct (v_completed0 Hco). auto.
Qed.

Lemma queued_ok s q calls id o hd rl :
  ok s o hd rl -> FrameSorter.inv str q -> FrameSorter.readPos q = FrameSorter.readPos (frameQueue s) ->
  (forall x, FlowControl.highestReceived (fl s) <= x < MaxByteCount -> FrameSorter.in_gaps (FrameSorter.gaps q) x) ->
  id :: FrameSorter.cbs (FrameSorter.queue (frameQueue s)) ≡ₚ calls ++ FrameSorter.cbs (FrameSorter.queue q) ->
  ok (signalRead (with_queue s q)) o (hd ++ [id]) (rl ++ calls).
Proof.
  intros [] Hq Hp Hh Hcb. split; cbn; unfold qpos in *; cbn; rewrite ?Hp; try done.
  change (held (signalRead (with_queue s q))) with (held s). rewrite <- v_cbs0, (Permutation_app_comm _ [id]). cbn.
  rewrite <- app_assoc, !Permutation_middle, Hcb. apply Permutation_app_head. rewrite !app_assoc. apply Permutation_app_tail, Permutation_app_comm.
Qed.

(** The stream after a frame was accepted. *)
Definition framed (s : ReceiveStream) (f : StreamFrame) (c : FlowControl.streamFlowController * FlowControl.baseFlowController) (q : FrameSorter.frameSorter) : ReceiveStream :=
  let s := ended (with_flow s c) (Fin f) (Offset f + blen (Data f)) in
  if cancelledLocally s then s else signalRead (with_queue s q).

Definition fits (f : StreamFrame) : Prop :=
  0 <= Offset f /\ Offset f + blen (Data f) < MaxByteCount /\ FrameSorter.agrees str (Offset f) (Data f).

Lemma frame_ok s f id now o hd rl :
  ok s o hd rl -> fits f ->
  exists s' calls err, handleStreamFrameImpl s f (Some id) now = Ok (s', calls, err) /\
    (err = None -> exists c q, s' = framed s f c q /\ ok s' o (if cancelledLocally s then hd else hd ++ [id]) (rl ++ calls) /\
       (forall x, missing s' x <-> missing s x /\ (cancelledLocally s = false -> ~ (Offset f <= x < Offset f + blen (Data f)))) /\
       (known s -> finalOffset s' = finalOffset s /\ (credited s -> credited s'))).
Proof.
  intros K (Ho & Hm & Ha). unfold handleStreamFrameImpl. pose proof (blen_nonneg (Data f)).
  destruct (FlowControl.UpdateHighestReceived _ _ _ _ _) as [[fs conn] [e|]] eqn:Eu; [eexists _, _, _; by split|].
  destruct (ended_ok s (Fin f) (Offset f + blen (Data f)) (fs, conn) o hd rl now K) as (K' & Hk & _ & Hle & _ & Hcr); [lia|done|].
  fold (ended (with_flow s (fs, conn)) (Fin f) (Offset f + blen (Data f))). unfold framed.
  set (s1 := ended _ _ _) in *. assert (Hl : cancelledLocally s1 = cancelledLocally s) by (unfold s1, ended; by destruct (Fin f)).
  assert (Hq : frameQueue s1 = frameQueue s) by (unfold s1, ended; by destruct (Fin f)).
  assert (Hfl : FlowControl.highestReceived (fl s1) = FlowControl.highestReceived (FlowControl.fc fs)) by (unfold s1, ended; by destruct (Fin f)).
  rewrite Hl. destruct (cancelledLocally s).
  { eexists _, _, _. split; [reflexivity|]. intros _. exists (fs, conn), (frameQueue s). fold s1. rewrite Hl, app_nil_r.
    split_and!; [done|done| |auto]. intros x. unfold missing. rewrite Hq. naive_solver. }
  rewrite Hq. destruct (Push_spec (frameQueue s) (Data f) (Offset f) id (v_queue _ _ _ _ K) Ho Ha Hm) as (q & calls & err & -> & Hp).
  cbn [mbind res_bind]. destruct err as [e|]; [eexists _, _, _; by split|]. destruct (Hp eq_refl) as (Hi & Hr & Hg & Hcb).
  eexists _, _, _. split; [reflexivity|]. intros _. exists (fs, conn), q. fold s1. rewrite Hl. split; [done|]. split; [|split].
  - apply queued_ok; rewrite ?Hq; try done. intros x Hx. apply Hg. split; [|cbn in *; lia].
    rewrite <- Hq. by apply (v_high _ _ _ _ K').
  - intros x. unfold missing. cbn. rewrite Hg. naive_solver.
  - intros Hkn. split; [by apply Hk|by apply Hcr].
Qed.

(** ** Resets *)

(** The stream when a reset with the reliable size [n] took effect. *)
Definition was_reset (s : ReceiveStream) (n : Z) (code : Z) : ReceiveStream :=
  let s := with_reliable s n in
  let s := if n <=? readPos s then Abandon s else s in
  if cancelledRemotely s || cancelledLocally s then s else signalRead (with_remote s (mkStreamError code true)).

Lemma was_reset_cases s n code :
  (if n <=? readPos s then Abandon (with_reliable s n) else with_reliable s n) =
  with_flow (with_reliable s n) (if n <=? readPos s then FlowControl.Abandon (flowController s).1 (flowController s).2 else flowController s) /\
  was_reset s n code = (let s1 := with_flow (with_reliable s n) (if n <=? readPos s then FlowControl.Abandon (flowController s).1 (flowController s).2 else flowController s) in
    if cancelledRemotely s || cancelledLocally s then s1 else signalRead (with_remote s1 (mkStreamError code true))).
Proof. unfold was_reset. cbn. by destruct (n <=? readPos s), s. Qed.

Lemma was_reset_ok s n code o hd rl :
  ok s o hd rl -> known s -> (cancelledRemotely s = true -> n <= reliableSize s) ->
  ok (was_reset s n code) o hd rl /\ (n <= readPos s \/ credited s -> credited (was_reset s n code)).
Proof.
  intros K Hk Hn. rewrite (proj2 (was_reset_cases s n code)). cbv zeta. set (c := if n <=? readPos s then _ else _).
  assert (Hc : flow_ok c /\ same_high (flowController s) c /\
               (n <= readPos s \/ credited s -> FlowControl.bytesRead (FlowControl.fc c.1) = FlowControl.highestReceived (FlowControl.fc c.1)) /\
               (readPos s < n -> c = flowController s)).
  { pose proof (v_fc _ _ _ _ K) as Hc. destruct (abandon_flow _ Hc) as (Hc' & Hh & Hb). unfold c. destruct (n <=? readPos s) eqn:E.
    - split_and!; [done|done| |lia]. intros _. rewrite Hb. symmetry. apply Hh.
    - split_and!; [done|by split| |done]. intros [?|?]; [lia|done]. }
  destruct Hc as (Hc & [Hh Hf] & Hcr & Hcs). clearbody c.
  split; [|intros Hx; specialize (Hcr Hx); by destruct (cancelledRemotely s || cancelledLocally s)].
  assert (Heff : effective s -> n <= readPos s) by (intros He; apply andb_true_iff in He as [H1 H2]; specialize (Hn H1); lia).
  assert (Hv : FlowControl.bytesRead (FlowControl.fc c.1) = readPos s \/
    FlowControl.bytesRead (FlowControl.fc c.1) = FlowControl.highestReceived (FlowControl.fc c.1) /\ known s /\ ((n <=? readPos s) = true \/ local s)).
  { destruct (decide (n <= readPos s)) as [Hle|Hlt]; [right; split_and!; [auto|done|left; lia]|].
    rewrite Hcs in * by lia. destruct (v_flow _ _ _ _ K) as [?|(? & ? & [He|?])]; [by left|specialize (Heff He); lia|right; auto]. }
  assert (Hcr' : (n <=? readPos s) = true -> FlowControl.bytesRead (FlowControl.fc c.1) = FlowControl.highestReceived (FlowControl.fc c.1)) by (intros; apply Hcr; left; lia).
  assert (He' : errorRead s = true -> at_end s \/ local s \/ (cancelledRemotely s = true /\ (n <=? readPos s) = true)).
  { intros He. destruct (v_errorRead _ _ _ _ K He) as [?|[?|He2]]; [auto|auto|]. right; right. split; [by apply andb_true_iff in He2 as [? _]|].
    specialize (Heff He2). lia. }
  clear Heff Hcs Hcr. destruct K. unfold effective, isRemoteCancellationEffective, credited, local, at_end, known, fl, missing, qpos in *.
  destruct (cancelledRemotely s) eqn:Er, (cancelledLocally s) eqn:El; cbn [orb];
    (split; cbn; unfold fl, missing, qpos, held, credited, known, effective, isRemoteCancellationEffective, local, at_end; cbn; rewrite ?Er, ?El, ?Hh, ?Hf; try done);
    unfold fl; cbn; rewrite ?Hh; rewrite ?Hh in Hv, Hcr'; first [clear -Hv Hk; tauto|clear -Hcr'; tauto|clear -He'; tauto|intros _; by left].
Qed.

(** ** Peeking *)

Lemma Peek_spec q off n : FrameSorter.inv str q ->
  (FrameSorter.Peek q off n = Ok (FrameSorter.stream str off n) /\ forall x, off <= x < off + Z.of_nat n -> ~ FrameSorter.in_gaps (FrameSorter.gaps q) x) \/
  exists e, FrameSorter.Peek q off n = Err e.
Proof.
  intros Hq. unfold FrameSorter.Peek. destruct (bool_decide _) eqn:E; [left; apply bool_decide_eq_true in E as ->; split; [done|lia]|].
  apply bool_decide_eq_false in E. destruct (FrameSorter.peek_check _ _ _ _) eqn:Ec; [left|right; eauto]. split; [cbn; f_equal; by apply FrameSorter.peek_copy_spec|].
  assert (Hst : exists e, FrameSorter.queue q !! off = Some e).
  { destruct n; [done|]. cbn in Ec. destruct (FrameSorter.queue q !! off); [eauto|done]. }
  intros x Hx. by apply (FrameSorter.peek_check_spec str q n off n Hq ltac:(done) (or_intror Hst)).
Qed.

(** The last byte a stream can have never arrived. *)
Lemma last_missing q : FrameSorter.inv str q -> FrameSorter.in_gaps (FrameSorter.gaps q) (MaxByteCount - 1).
Proof.
  intros Hq. destruct (FrameSorter.inv_gaps _ _ Hq) as (HF & _ & l & g & Hg & He). rewrite Hg in *. apply Forall_app in HF as [_ HF].
  apply Forall_inv in HF. exists g. split; [set_solver|]. unfold FrameSorter.in_gap. lia.
Qed.

(** What a [Peek] promises: bytes of the stream from the read position on, as many
    as asked for unless the stream ends or was reset before. *)
Definition peek_post (s : ReceiveStream) (n : Z) (d : bytes) (err : option rerr) : Prop :=
  d = FrameSorter.stream str (readPos s) (length d) /\ blen d <= n /\
  match err with
  | None => blen d = n
  | Some EOF => known s /\ readPos s + blen d = finalOffset s
  | Some (errCancelled e) => e = cancelErr s /\ e <> None /\ (local s \/ cancelledRemotely s = true /\ reliableSize s <= readPos s + blen d)
  | Some (errShutdown e) => closeForShutdownErr s = Some e
  | Some errDeadline => deadline s <> 0
  | Some errBug => False
  end.

Lemma agrees_rest s o hd rl d :
  ok s o hd rl -> currentFrame s = Some d -> readPosInFrame s <= blen d ->
  let rest := drop (Z.to_nat (readPosInFrame s)) d in
  rest = FrameSorter.stream str (readPos s) (length rest) /\ blen rest = blen d - readPosInFrame s /\ readPos s + blen rest = qpos s.
Proof.
  intros K Hd Hp. destruct (v_frame _ _ _ _ K d Hd) as (Ha & Hb & Hr). cbv zeta.
  assert (Hl : blen (drop (Z.to_nat (readPosInFrame s)) d) = blen d - readPosInFrame s) by (unfold blen in *; rewrite length_drop; lia).
  split; [|split; [done|lia]]. rewrite Hr. apply (agrees_part _ _ d); [done|lia|]. by rewrite firstn_all.
Qed.

Lemma stream_prefix (d : bytes) p n : d = FrameSorter.stream str p (length d) -> take n d = FrameSorter.stream str p (length (take n d)).
Proof.
  intros Hd. apply FrameSorter.agrees_stream. apply FrameSorter.agrees_stream in Hd. intros i b Hi.
  apply lookup_take_Some in Hi as [Hi _]. by apply Hd.
Qed.

Lemma stream_concat (d : bytes) p q n :
  d = FrameSorter.stream str p (length d) -> q = p + blen d -> d ++ FrameSorter.stream str q n = FrameSorter.stream str p (length (d ++ FrameSorter.stream str q n)).
Proof. intros Hd ->. rewrite length_app, FrameSorter.length_stream, FrameSorter.stream_app, <- Hd. done. Qed.

(** The bytes up to [total] from the read position on, if they are there. *)
Lemma peek_upto_ok s rest total :
  FrameSorter.inv str (frameQueue s) -> rest = FrameSorter.stream str (readPos s) (length rest) -> 0 <= total ->
  exists x, peek_upto s rest total = Ok x /\ forall d, x = Some d -> d = FrameSorter.stream str (readPos s) (length d) /\ blen d = total /\
    forall y, readPos s + blen rest <= y < readPos s + total -> ~ missing s y.
Proof.
  intros Hq Hr Ht. unfold peek_upto. destruct (total - blen rest <=? 0) eqn:E.
  - eexists. split; [reflexivity|]. intros d [= <-]. split; [by apply stream_prefix|]. split; [unfold blen in *; rewrite length_take; lia|lia].
  - destruct (Peek_spec (frameQueue s) (readPos s + blen rest) (Z.to_nat (total - blen rest)) Hq) as [[-> Hg]|[e ->]]; eexists; (split; [reflexivity|]); [|done].
    intros d [= <-]. split; [by apply stream_concat|]. split; [rewrite blen_app; unfold blen at 2; rewrite FrameSorter.length_stream; lia|].
    intros y Hy. apply Hg. lia.
Qed.

Lemma peek_frame_ok s n o hd rl :
  ok s o hd rl -> 0 < n -> is_Some_b (currentFrame s) && (readPosInFrame s <? frame_len s) = true -> ~ local s -> ~ effective s ->
  exists x, peek_frame s n = Ok x /\ (forall d err, x = Some (d, err) -> peek_post s n d err) /\ (x = None -> currentFrameIsLast s = false).
Proof.
  intros K Hn Hf Hl He. apply andb_true_iff in Hf as [Hs Hp]. destruct (currentFrame s) as [f|] eqn:Ef; [|done].
  assert (Hfl : frame_len s = blen f) by (unfold frame_len; by rewrite Ef).
  destruct (agrees_rest s o hd rl f K Ef) as (Hr & Hlen & Hq); [lia|]. destruct (v_frame _ _ _ _ K f Ef) as (_ & Hb & _).
  unfold peek_frame. rewrite Ef, Hfl. change (default [] (Some f)) with f. rewrite go_slice_Ok by lia. cbn [mbind res_bind].
  rewrite take_ge by (unfold blen in *; rewrite length_drop; lia).
  set (rest := drop _ f) in *.
  destruct (n <=? blen rest) eqn:E1.
  { eexists. split; [reflexivity|]. split; [|done]. intros d err [= <- <-].
    assert (blen (take (Z.to_nat n) rest) = n) by (unfold blen in *; rewrite length_take; lia).
    split; [by apply stream_prefix|]. split; lia. }
  destruct (Peek_spec (frameQueue s) (readPos s + blen rest) (Z.to_nat (n - blen rest)) (v_queue _ _ _ _ K)) as [[-> _]|[e ->]].
  { eexists. split; [reflexivity|]. split; [|done]. intros d err [= <- <-].
    assert (blen (rest ++ FrameSorter.stream str (readPos s + blen rest) (Z.to_nat (n - blen rest))) = n).
    { rewrite blen_app. unfold blen at 2. rewrite FrameSorter.length_stream. lia. }
    split; [by apply stream_concat|]. split; lia. }
  destruct (currentFrameIsLast s) eqn:El.
  { eexists. split; [reflexivity|]. split; [|done]. intros d err [= <- <-]. destruct (v_last _ _ _ _ K El). split; [done|]. split; [lia|]. split; [done|lia]. }
  pose proof (qpos_final _ _ _ _ K).
  assert (Hc : exists x, (if cancelledRemotely s && (reliableSize s <? readPos s + n) then peek_upto s rest (reliableSize s - readPos s) else Ok None) = Ok x /\
            forall d, x = Some d -> peek_post s n d (Some (errCancelled (cancelErr s)))).
  { destruct (cancelledRemotely s && _) eqn:E2; [|by eexists]. apply andb_true_iff in E2 as [E2 E3].
    assert (readPos s < reliableSize s). { unfold effective, isRemoteCancellationEffective in He. rewrite E2 in He. cbn in He. lia. }
    destruct (peek_upto_ok s rest (reliableSize s - readPos s) (v_queue _ _ _ _ K) Hr) as (x & -> & Hx); [lia|].
    eexists. split; [reflexivity|]. intros d Hd. destruct (Hx d Hd) as (? & ? & _). split; [done|]. split; [lia|]. split; [done|].
    split; [|right; split; [done|lia]]. destruct (v_cancelErr _ _ _ _ K) as [?|[? ?]]; [by right|done|congruence]. }
  destruct Hc as (x & -> & Hx). cbn [mbind res_bind]. destruct x as [d|].
  { eexists. split; [reflexivity|]. split; [|done]. intros d' err [= <- <-]. by apply Hx. }
  destruct (finalOffset s <? readPos s + n) eqn:E2; [|cbn [mbind res_bind]; eexists; by split_and!].
  destruct (peek_upto_ok s rest (finalOffset s - readPos s) (v_queue _ _ _ _ K) Hr) as (y & -> & Hy); [pose proof (blen_nonneg rest); lia|].
  cbn [mbind res_bind]. eexists. split; [reflexivity|]. split; [|done]. intros d err Hd. destruct y as [d'|]; [|done]. cbn in Hd. injection Hd as <- <-.
  destruct (Hy d' eq_refl) as (? & ? & Hm). split; [done|]. split; [lia|]. split; [|lia]. intros Hfo.
  pose proof (FrameSorter.read_lt_max str _ (v_queue _ _ _ _ K)) as Hlt. fold (qpos s) in Hlt.
  apply (Hm (MaxByteCount - 1)); [lia|]. apply last_missing, K.
Qed.

Lemma peek_post_same s s' n d err : same s s' -> readPos s' = readPos s -> peek_post s' n d err -> peek_post s n d err.
Proof.
  intros [] Hp (H1 & H2 & H3). rewrite Hp in H1. split; [done|]. split; [done|]. unfold known, local in *.
  destruct err as [[]|]; rewrite ?sm_final0, ?sm_cancelErr0, ?sm_local0, ?sm_remote0, ?sm_reliable0, ?sm_shutdown0, ?sm_deadline0, ?Hp in H3; done.
Qed.

Definition peek_end_ok (s s' : ReceiveStream) (n : Z) (o : bytes) (hd rl : list nat) (w : rresult) : Prop :=
  ok s' o hd rl /\ readPos s' = readPos s /\ match w with RReturn d err => peek_post s n d err | RBlocked => ~ at_end s' end.

Lemma peek_iter_ok s n now o hd rl :
  ok s o hd rl -> 0 < n ->
  exists s' calls w, peek_iter s n now = Ok (s', calls, w) /\ same s s' /\ peek_end_ok s s' n o hd (rl ++ calls) w.
Proof.
  intros K Hn. unfold peek_iter.
  assert (Hnil : forall err, match err with None => False | Some EOF => at_end s | Some (errCancelled e) => e = cancelErr s /\ ~ at_end s /\ (local s \/ effective s)
      | Some (errShutdown e) => closeForShutdownErr s = Some e | Some errDeadline => deadline s <> 0 | Some errBug => False end ->
      peek_end_ok s s n o hd (rl ++ []) (RReturn [] err)).
  { intros err He. split; [by rewrite app_nil_r|]. split; [done|]. split; [done|]. split; [unfold blen; cbn; lia|]. destruct err as [[]|]; try done.
    - destruct He as [H1 H2]. destruct (v_last _ _ _ _ K H1). split; [done|]. rewrite (v_noframe _ _ _ _ K H2). unfold blen. cbn. lia.
    - destruct He as (-> & Hne & Hc). split; [done|]. split; [by apply (cancelled_end s o hd rl)|]. destruct Hc as [?|Hc]; [by left|right].
      apply andb_true_iff in Hc as [? ?]. split; [done|]. unfold blen. cbn. lia. }
  destruct (currentFrameIsLast s && negb (is_Some_b (currentFrame s))) eqn:Ea.
  { apply andb_true_iff in Ea as [E1 E2]. assert (at_end s) by (split; [done|by destruct (currentFrame s)]).
    eexists _, _, _. split; [reflexivity|]. split; [apply same_refl|]. by apply Hnil. }
  assert (Hne : ~ at_end s) by (intros [E1 E2]; by rewrite E1, E2 in Ea).
  destruct (cancelledLocally s || isRemoteCancellationEffective s) eqn:Ec.
  { apply orb_true_iff in Ec. eexists _, _, _. split; [reflexivity|]. split; [apply same_refl|]. by apply Hnil. }
  apply orb_false_iff in Ec as [Hl He]. destruct (closeForShutdownErr s) as [e|] eqn:Esh.
  { eexists _, _, _. split; [reflexivity|]. split; [apply same_refl|]. by apply Hnil. }
  destruct (expired s now) eqn:Ex.
  { eexists _, _, _. split; [reflexivity|]. split; [apply same_refl|]. apply Hnil. unfold expired in Ex. destruct (deadline s =? 0) eqn:Ed; [done|lia]. }
  destruct (next_frame s o hd rl K Hne) as (s1 & calls & -> & K1 & Hs1 & Hf1 & Hp1). cbn [mbind res_bind].
  assert (Hc1 : ~ local s1 /\ ~ effective s1).
  { unfold local, effective, isRemoteCancellationEffective. rewrite (sm_local _ _ Hs1), (sm_remote _ _ Hs1), (sm_reliable _ _ Hs1), Hp1.
    unfold isRemoteCancellationEffective in He. split; congruence. }
  assert (Hfound : exists x, (if is_Some_b (currentFrame s1) && (readPosInFrame s1 <? frame_len s1) then peek_frame s1 n else Ok None) = Ok x /\
     (forall d err, x = Some (d, err) -> peek_post s n d err) /\ (x = None -> currentFrameIsLast s1 = true -> currentFrame s1 = None)).
  { destruct (is_Some_b (currentFrame s1) && _) eqn:Ef.
    - destruct (peek_frame_ok s1 n o hd _ K1 Hn Ef) as (x & -> & Hx & Hxn); [apply Hc1|apply Hc1|]. exists x. split; [done|].
      split; [intros d err Hd; by apply (peek_post_same s s1), Hx|]. intros Hx' Hl'. rewrite Hxn in Hl' by done. done.
    - eexists. split; [reflexivity|]. split; [done|]. intros _ _. destruct (currentFrame s1) as [f|] eqn:Ef1; [|done].
      pose proof (fr_some _ Hf1 f Ef1). cbn in Ef. unfold frame_len in Ef. rewrite Ef1 in Ef. lia. }
  destruct Hfound as (x & -> & Hx & Hxn). cbn [mbind res_bind]. destruct x as [[d err]|].
  { eexists _, _, _. split; [reflexivity|]. split; [done|]. split; [done|]. split; [done|by apply Hx]. }
  destruct (currentFrameIsLast s1 || (finalOffset s1 <=? readPos s1)) eqn:Eend; eexists _, _, _; (split; [reflexivity|]); (split; [done|]); (split; [done|]); (split; [done|]).
  - apply (peek_post_same s s1); [done|done|]. split; [done|]. split; [unfold blen; cbn; lia|]. change (blen []) with 0. rewrite Z.add_0_r.
    pose proof (qpos_final _ _ _ _ K1). pose proof (pos_qpos _ _ _ _ K1) as Hpq.
    apply orb_true_iff in Eend as [El|El].
    + rewrite (v_noframe _ _ _ _ K1 (Hxn eq_refl El)). by apply (v_last _ _ _ _ K1).
    + assert (readPos s1 <= qpos s1).
      { destruct (currentFrame s1) as [f|] eqn:Ef; [|rewrite (v_noframe _ _ _ _ K1 Ef); done]. destruct (v_frame _ _ _ _ K1 f Ef) as (_ & ? & ->). lia. }
      split; [|lia]. intros Hm. pose proof (FrameSorter.read_lt_max str _ (v_queue _ _ _ _ K1)) as Hlt. fold (qpos s1) in Hlt. lia.
  - intros [El _]. by rewrite El in Eend.
Qed.

Lemma Peek_ok s n now o hd rl :
  ok s o hd rl -> 0 <= n ->
  exists s' calls w, Peek s n now = Ok (s', calls, w) /\ same s s' /\ peek_end_ok s s' n o hd (rl ++ calls) w /\ (w = RBlocked -> 0 < n).
Proof.
  intros K Hn. unfold Peek. destruct (n =? 0) eqn:E.
  - eexists _, _, _. split; [reflexivity|]. split; [apply same_refl|]. split; [|done]. split; [by rewrite app_nil_r|]. split; [done|].
    split; [done|]. unfold blen. cbn. lia.
  - destruct (peek_iter_ok s n now o hd rl K) as (s' & calls & w & -> & ? & ?); [lia|]. eexists _, _, _. split_and!; try done. lia.
Qed.

Lemma peek_wake_ok s timer n now o hd rl :
  ok s o hd rl -> ~ at_end s -> 0 < n ->
  exists s' calls w, peek_wake s timer n now = Ok (s', calls, w) /\ same (if timer then s else with_chan s false) s' /\ peek_end_ok s s' n o hd (rl ++ calls) w.
Proof.
  intros K Hne Hn. unfold peek_wake. set (s0 := if timer then s else with_chan s false).
  assert (K0 : ok s0 o hd rl) by (unfold s0; destruct timer; [done|by apply chan_ok]).
  assert (Hs0 : readPos s0 = readPos s /\ (forall d err, peek_post s0 n d err -> peek_post s n d err)) by (unfold s0; by destruct timer).
  destruct (next_frame s0 o hd rl K0) as (s1 & calls & -> & K1 & Hs1 & _ & Hp1); [unfold s0, at_end in *; by destruct timer|].
  cbn [mbind res_bind]. destruct (peek_iter_ok s1 n now o hd _ K1 Hn) as (s' & calls' & w & -> & Hs' & K' & Hp' & Hw). cbn [mbind res_bind].
  eexists _, _, _. split; [reflexivity|]. split; [by apply (same_trans _ s1)|]. rewrite <- app_assoc in K'. split; [done|].
  split; [destruct Hs0; congruence|]. destruct w; [|done]. apply Hs0, (peek_post_same s0 s1); done.
Qed.

(** ** A stream and its surroundings *)

Definition covered (fs : list StreamFrame) (x : Z) : Prop := exists f, f ∈ fs /\ Offset f <= x < Offset f + blen (Data f).

(** A frame that ends the stream arrived. *)
Definition fin_got (r : run) : Prop := exists f, f ∈ got r /\ Fin f = true /\ Offset f + blen (Data f) = finalOffset (st r).

Definition unlucky (s : ReceiveStream) : Prop := local s /\ readPos s < reliableSize s.

Record inv (r : run) : Prop := mkInv {
  i_ok : ok (st r) (out r) (handed r) (released r);
  i_local : local (st r) -> known (st r) -> completed (st r) = true;
  i_credit : completed (st r) = true -> credited (st r) \/ unlucky (st r);
  i_waitread : forall n, waiting r = Some (CRead, n) -> currentFrame (st r) = None /\ currentFrameIsLast (st r) = false /\ 0 < n;
  i_waitpeek : forall n, waiting r = Some (CPeek, n) -> ~ at_end (st r) /\ 0 < n;
  i_got : forall x, 0 <= x < MaxByteCount -> missing (st r) x <-> ~ covered (got r) x;
  i_fits : Forall fits (got r);
  i_fin : known (st r) -> cancelledRemotely (st r) = false -> ~ local (st r) -> fin_got r;
  i_ends : forall f, f ∈ got r -> Fin f = true -> Offset f + blen (Data f) = finalOffset (st r);
  i_last : currentFrameIsLast (st r) = true -> local (st r) \/ fin_got r;
  i_eof : eof r = true -> at_end (st r);
  i_reported : reported r = if completed (st r) then 1%nat else 0%nat;
  i_wake : forall n, waiting r = Some (CRead, n) ->
    ~ missing (st r) (readPos (st r)) \/ (finalOffset (st r) <=? readPos (st r)) && negb (cancelledRemotely (st r)) = true \/
    closeForShutdownErr (st r) <> None \/ local (st r) /\ cancelledRemotely (st r) = false -> readChan (st r) = true }.

Lemma receive_start_inv id c :
  flow_ok c -> FlowControl.receivedFinalOffset c.1 = false -> FlowControl.bytesRead (FlowControl.fc c.1) = 0 ->
  FlowControl.highestReceived (FlowControl.fc c.1) = 0 -> inv (start id c).
Proof.
  intros Hc Hr Hb Hh. destruct (FrameSorter.start_run_ok str) as [Hq _]. split; try done; cbn.
  - split; cbn; try done; rewrite ?Hr; try done.
    + unfold missing, fl. cbn. rewrite Hh. intros x Hx. exists (FrameSorter.mkGap 0 MaxByteCount). split; [left|done].
    + by left.
    + intros [|]; done.
  - intros x Hx. unfold missing. cbn. split; [intros _ (f & Hf & _); by apply elem_of_nil in Hf|]. intros _. exists (FrameSorter.mkGap 0 MaxByteCount). split; [left|done].
  - intros f Hf. by apply elem_of_nil in Hf.
Qed.

Lemma same_credit s s' o hd rl : ok s' o hd rl -> same s s' -> credited s \/ unlucky s -> credited s' \/ unlucky s'.
Proof.
  intros K [] Hc. destruct Hc as [Hc|[Hl Hp]].
  - left. pose proof (proj1 (fo_sound _ (v_fc _ _ _ _ K))). unfold credited, fl in *. llia.
  - right. unfold unlucky, local in *. rewrite sm_local0, sm_reliable0, sm_localpos0 by done. done.
Qed.

(** Reading and peeking keep what the surroundings know of the stream. *)
Record reads (r : run) (s' : ReceiveStream) (hd rl : list nat) (o : bytes) : Prop := mkReads {
  rd_ok : ok s' o hd rl;
  rd_local : local s' -> known s' -> completed s' = true;
  rd_credit : completed s' = true -> credited s' \/ unlucky s';
  rd_got : forall x, 0 <= x < MaxByteCount -> missing s' x <-> ~ covered (got r) x;
  rd_fin : known s' -> cancelledRemotely s' = false -> ~ local s' -> exists f, f ∈ got r /\ Fin f = true /\ Offset f + blen (Data f) = finalOffset s';
  rd_ends : forall f, f ∈ got r -> Fin f = true -> Offset f + blen (Data f) = finalOffset s';
  rd_last : currentFrameIsLast s' = true -> local s' \/ exists f, f ∈ got r /\ Fin f = true /\ Offset f + blen (Data f) = finalOffset s';
  rd_eof : eof r = true -> at_end s';
  rd_reported : reported r = if completed s' then 1%nat else 0%nat }.

Lemma same_reads r s' rl o : inv r -> ok s' o (handed r) rl -> same (st r) s' -> reads r s' (handed r) rl o.
Proof.
  intros [] K Hs. pose proof (same_credit _ _ _ _ _ K Hs) as Hcr. pose proof Hs as []. unfold fin_got, known, local, missing in *.
  split; rewrite ?sm_final0, ?sm_completed0, ?sm_remote0, ?sm_local0, ?sm_gaps0; unfold missing, known, local; rewrite ?sm_final0, ?sm_remote0, ?sm_local0, ?sm_gaps0; auto.
  intros Hl. destruct (sm_last0 Hl) as [?|?]; [auto|]. destruct (cancelledLocally (st r)) eqn:El; [auto|]. right. apply i_fin0; [|done|done].
  rewrite <- sm_final0. apply (v_last _ _ _ _ K Hl).
Qed.

Lemma same_chan s (timer : bool) s' : same (if timer then s else with_chan s false) s' -> same s s'.
Proof. destruct timer; [done|]. intros []. by split. Qed.

Lemma read_end_inv r s' u calls w n :
  inv r -> same (st r) s' -> read_end_ok (st r) s' n (out r) (handed r) (released r ++ calls) w -> (w = RBlocked -> 0 < n) ->
  inv (let '(s, calls, w, ns) := read_end (s', u, calls, w) in returned (update r s calls ns) CRead n w).
Proof.
  intros I Hs Hw Hn. destruct w as [d err|]; cbn [read_end].
  - destruct Hw as [K Hpost]. pose proof (same_reads r s' _ _ I K Hs) as []. 
    assert (Hfin : inv (returned (update r s' calls []) CRead n (RReturn d err))).
    { split; cbn; rewrite ?Nat.add_0_r; unfold fin_got; cbn; try done; [apply I|].
      intros He. apply orb_true_iff in He as [He|He]; [auto|]. destruct err as [[]|]; try done. apply Hpost. }
    destruct (newly_cases s') as [[-> _]|(-> & Hnc & Hk & Hc)].
    { cbn. destruct (hasStreamWindowUpdate u), (hasConnWindowUpdate u); exact Hfin. }
    assert (Hcr : credited s').
    { destruct Hc as [Hl|He]; [rewrite rd_local0 in Hnc by done; done|].
      destruct (v_errorRead _ _ _ _ K He) as [?|[Hl|?]]; [by eapply at_end_credited|rewrite rd_local0 in Hnc by done; done|by eapply v_effective]. }
    assert (inv (returned (update r (with_completed s' true) calls [onStreamCompleted]) CRead n (RReturn d err))).
    { destruct Hfin as []. cbn in *. rewrite Nat.add_0_r, Hnc in *. split; cbn; unfold fin_got in *; cbn in *; try done; [by apply completed_ok|by left|].
      by rewrite i_reported0. }
    by destruct (hasStreamWindowUpdate u), (hasConnWindowUpdate u).
  - destruct Hw as [K (H1 & H2 & H3 & H4 & H5 & H6 & H7)]. pose proof (same_reads r s' _ _ I K Hs) as [].
    split; cbn; rewrite ?Nat.add_0_r; unfold fin_got; cbn; try done.
    + intros m [= <-]. auto.
    + apply I.
    + intros m [= <-] [?|[?|[?|[? _]]]]; congruence.
Qed.

Lemma peek_end_inv r s' calls w n :
  inv r -> same (st r) s' -> peek_end_ok (st r) s' n (out r) (handed r) (released r ++ calls) w -> (w = RBlocked -> 0 < n) ->
  inv (returned (update r s' calls []) CPeek n w).
Proof.
  intros I Hs (K & Hp & Hw) Hn. pose proof (same_reads r s' _ _ I K Hs) as [].
  destruct w as [d err|]; split; cbn; rewrite ?Nat.add_0_r; unfold fin_got; cbn; try done; try apply I.
  intros m [= <-]. auto.
Qed.

(** The operations that do not read. *)
Lemma stay_inv r s' gt hd rl rep e :
  inv r -> ok s' (out r) hd rl ->
  currentFrame s' = currentFrame (st r) -> currentFrameIsLast s' = currentFrameIsLast (st r) -> readPos s' = readPos (st r) ->
  (known (st r) -> finalOffset s' = finalOffset (st r)) -> (local (st r) -> local s') ->
  (local s' -> known s' -> completed s' = true) -> (completed s' = true -> credited s' \/ unlucky s') ->
  (forall f, f ∈ got r -> f ∈ gt) -> Forall fits gt -> (forall f, f ∈ gt -> f ∈ got r \/ (Fin f = true -> Offset f + blen (Data f) = finalOffset s')) -> (forall x, 0 <= x < MaxByteCount -> missing s' x <-> ~ covered gt x) ->
  (known s' -> cancelledRemotely s' = false -> ~ local s' -> known (st r) /\ cancelledRemotely (st r) = false \/
     exists f, f ∈ gt /\ Fin f = true /\ Offset f + blen (Data f) = finalOffset s') ->
  rep = (if completed s' then 1%nat else 0%nat) ->
  (forall n, waiting r = Some (CRead, n) ->
    ~ missing s' (readPos s') \/ (finalOffset s' <=? readPos s') && negb (cancelledRemotely s') = true \/
    closeForShutdownErr s' <> None \/ local s' /\ cancelledRemotely s' = false -> readChan s' = true) ->
  inv (mkRun s' (waiting r) (out r) (eof r) gt hd rl rep e).
Proof.
  intros I K Hc Hl Hp Hk Hlo H1 H2 Hsub Hfits Hend Hm Hf Hr Hw. destruct I.
  assert (Hfg : known (st r) -> fin_got r -> exists f, f ∈ gt /\ Fin f = true /\ Offset f + blen (Data f) = finalOffset s').
  { intros Hkn (f & ? & ? & ?). exists f. rewrite Hk by done. auto. }
  assert (Hkn : forall f, f ∈ got r -> Fin f = true -> known (st r)).
  { intros f Hg HF. unfold known. rewrite <- (i_ends0 f Hg HF). rewrite Forall_forall in i_fits0. destruct (i_fits0 f Hg) as (_ & ? & _). lia. }
  split; cbn; unfold fin_got, at_end in *; cbn; rewrite ?Hc, ?Hl; auto.
  - intros H3 H4 H5. destruct (Hf H3 H4 H5) as [[H6 H7]|?]; [|done]. apply Hfg; [done|]. apply i_fin0; auto.
  - intros f Hg HF. destruct (Hend f Hg) as [Hg'|?]; [|auto]. rewrite Hk by eauto. auto.
  - intros H3. destruct (i_last0 H3) as [?|?]; [auto|]. right. apply Hfg; [|done]. apply (v_last _ _ _ _ i_ok0 H3).
Qed.

Lemma framed_fields s f c q :
  currentFrame (framed s f c q) = currentFrame s /\ currentFrameIsLast (framed s f c q) = currentFrameIsLast s /\ readPos (framed s f c q) = readPos s /\
  cancelledLocally (framed s f c q) = cancelledLocally s /\ cancelledRemotely (framed s f c q) = cancelledRemotely s /\
  completed (framed s f c q) = completed s /\ reliableSize (framed s f c q) = reliableSize s /\ closeForShutdownErr (framed s f c q) = closeForShutdownErr s /\
  finalOffset (framed s f c q) = (if Fin f then Offset f + blen (Data f) else finalOffset s) /\
  readChan (framed s f c q) = (if cancelledLocally s then readChan s else true).
Proof. unfold framed, ended. destruct (Fin f); cbn; destruct (cancelledLocally s) eqn:E; cbn; rewrite ?E; by split_and!. Qed.

(** Only the completion and the controllers differ. *)
Definition alike (s s' : ReceiveStream) : Prop :=
  currentFrame s' = currentFrame s /\ currentFrameIsLast s' = currentFrameIsLast s /\ readPos s' = readPos s /\ finalOffset s' = finalOffset s /\
  cancelledLocally s' = cancelledLocally s /\ cancelledRemotely s' = cancelledRemotely s /\ frameQueue s' = frameQueue s /\
  closeForShutdownErr s' = closeForShutdownErr s /\ readChan s' = readChan s.

(** The completion that follows an operation, with the credit returned ([abandons]) or not. *)
Definition complete (abandons : bool) (s : ReceiveStream) : bool * ReceiveStream :=
  let '(b, s) := isNewlyCompleted s in (b, if b && abandons then Abandon s else s).

Lemma complete_ok abandons s o hd rl :
  ok s o hd rl -> (completed s = true -> credited s \/ unlucky s) -> (abandons = false -> local s -> known s -> completed s = false -> credited s \/ unlucky s) ->
  exists b s', complete abandons s = (b, s') /\ ok s' o hd rl /\ alike s s' /\ (local s' -> known s' -> completed s' = true) /\
    (completed s' = true -> credited s' \/ unlucky s') /\ completed s' = completed s || b /\ (b = true -> completed s = false).
Proof.
  intros K Hc Ha. unfold complete. destruct (newly_cases s) as [[-> Hn]|(-> & Hnc & Hk & Hw)]; cbn [andb].
  { eexists _, _. split; [reflexivity|]. rewrite orb_false_r. split_and!; try done. intros Hl Hk. destruct Hn as [?|[?|[? _]]]; done. }
  assert (Hw' : at_end s \/ local s \/ effective s).
  { destruct Hw as [?|He]; [auto|]. destruct (v_errorRead _ _ _ _ K He) as [?|[?|?]]; auto. }
  pose proof (completed_ok s o hd rl K Hk Hw) as K'. destruct abandons.
  - destruct (abandon_ok (with_completed s true) o hd rl K' Hk Hw') as [K2 Hc2].
    eexists _, _. split; [reflexivity|]. rewrite orb_true_r. split_and!; try done. by left.
  - eexists _, _. split; [reflexivity|]. rewrite orb_true_r. split_and!; try done. intros _.
    destruct Hw' as [?|[Hl|?]]; [left; by eapply (at_end_credited (with_completed s true))|by apply Ha|left; by eapply (v_effective (with_completed s true))].
Qed.

Lemma got_snoc fs f x : covered (fs ++ [f]) x <-> covered fs x \/ Offset f <= x < Offset f + blen (Data f).
Proof.
  unfold covered. split.
  - intros (g & Hg & Hx). apply elem_of_app in Hg as [?|Hg]; [eauto|]. apply list_elem_of_singleton in Hg as ->. auto.
  - intros [(g & Hg & Hx)|Hx]; [exists g|exists f]; rewrite elem_of_app, list_elem_of_singleton; auto.
Qed.

Lemma is_completed_note b : is_completed (completed_note b) = b.
Proof. by destruct b. Qed.

Lemma reported_once (n : nat) (c c' b : bool) :
  n = (if c then 1 else 0)%nat -> c' = c || b -> (b = true -> c = false) -> (n + (if b then 1 else 0))%nat = (if c' then 1 else 0)%nat.
Proof. intros -> -> H. destruct b; [by rewrite H|]. by destruct c. Qed.

(** An operation that does not read, with the completion that follows it. *)
Lemma op_inv abandons r s1 gt hd rl e :
  inv r -> ok s1 (out r) hd rl ->
  currentFrame s1 = currentFrame (st r) -> currentFrameIsLast s1 = currentFrameIsLast (st r) -> readPos s1 = readPos (st r) ->
  completed s1 = completed (st r) -> (known (st r) -> finalOffset s1 = finalOffset (st r)) -> (local (st r) -> local s1) ->
  (completed s1 = true -> credited s1 \/ unlucky s1) -> (abandons = false -> local s1 -> known s1 -> completed s1 = false -> credited s1 \/ unlucky s1) ->
  (forall f, f ∈ got r -> f ∈ gt) -> Forall fits gt -> (forall f, f ∈ gt -> f ∈ got r \/ (Fin f = true -> Offset f + blen (Data f) = finalOffset s1)) -> (forall x, 0 <= x < MaxByteCount -> missing s1 x <-> ~ covered gt x) ->
  (known s1 -> cancelledRemotely s1 = false -> ~ local s1 -> known (st r) /\ cancelledRemotely (st r) = false \/
     exists f, f ∈ gt /\ Fin f = true /\ Offset f + blen (Data f) = finalOffset s1) ->
  (forall n, waiting r = Some (CRead, n) ->
    ~ missing s1 (readPos s1) \/ (finalOffset s1 <=? readPos s1) && negb (cancelledRemotely s1) = true \/
    closeForShutdownErr s1 <> None \/ local s1 /\ cancelledRemotely s1 = false -> readChan s1 = true) ->
  inv (let '(b, s) := complete abandons s1 in mkRun s (waiting r) (out r) (eof r) gt hd rl (reported r + if b then 1 else 0) e).
Proof.
  intros I K F1 F2 F3 F4 F5 F6 Hc Ha Hsub Hfits Hend Hm Hf Hw.
  destruct (complete_ok abandons s1 _ _ _ K Hc Ha) as (b & s' & -> & K' & (A1 & A2 & A3 & A4 & A5 & A6 & A7 & A8 & A9) & Hl' & Hc' & Hcb & Hb).
  unfold known, local, missing in *. apply stay_inv; unfold known, local, missing in *; rewrite ?A3, ?A4, ?A5, ?A6, ?A7, ?A8, ?A9 in *; try done; try congruence.
  eapply reported_once; [apply I|by rewrite Hcb, F4|by rewrite <- F4].
Qed.

Lemma frame_inv r f id now :
  inv r -> fits f ->
  exists r', exec r (RFrame f id now) = Ok r' /\ (failed r' = None -> inv r').
Proof.
  intros I Hf. cbn [exec]. unfold handleStreamFrame.
  destruct (frame_ok (st r) f id now (out r) (handed r) (released r) (i_ok _ I) Hf) as (s1 & calls & err & -> & Hok). cbn [mbind res_bind].
  destruct err as [e|]; [destruct (isNewlyCompleted s1); eexists; by split|]. destruct (Hok eq_refl) as (c & q & -> & K1 & Hm & Hk). clear Hok.
  destruct (framed_fields (st r) f c q) as (F1 & F2 & F3 & F4 & F5 & F6 & F7 & F8 & F9 & F10). set (s1 := framed (st r) f c q) in *.
  assert (Hgo : forall gt hd, gt = (if cancelledLocally (st r) then got r else got r ++ [f]) -> hd = (if cancelledLocally (st r) then handed r else handed r ++ [id]) ->
    inv (let '(b, s) := complete true s1 in mkRun s (waiting r) (out r) (eof r) gt hd (released r ++ calls) (reported r + if b then 1 else 0) None)).
  { intros gt hd -> ->. apply op_inv; try done.
    - by apply Hk.
    - unfold local. by rewrite F4.
    - rewrite F6. intros Hc. destruct (i_credit _ I Hc) as [?|?]; [left; apply Hk; [by apply (v_completed _ _ _ _ (i_ok _ I))|done]|right].
      unfold unlucky, local in *. by rewrite F3, F4, F7.
    - intros g Hg. destruct (cancelledLocally (st r)); [done|]. rewrite elem_of_app. auto.
    - destruct (cancelledLocally (st r)); [apply I|]. rewrite Forall_app. split; [apply I|by constructor].
    - intros g Hg. destruct (cancelledLocally (st r)); [by left|]. apply elem_of_app in Hg as [?|Hg]; [by left|right].
      apply list_elem_of_singleton in Hg as ->. intros HF. rewrite F9, HF. done.
    - intros x Hx. rewrite Hm, (i_got _ I x Hx). destruct (cancelledLocally (st r)); [naive_solver|]. rewrite got_snoc. tauto.
    - intros Hkn Hre Hlo. unfold local in Hlo. rewrite F4 in Hlo. destruct (cancelledLocally (st r)); [done|]. destruct (Fin f) eqn:Ef.
      + right. exists f. rewrite elem_of_app, list_elem_of_singleton. split_and!; [auto|done|congruence].
      + left. unfold known in *. split; congruence.
    - intros n Hn Hw. rewrite F10. destruct (cancelledLocally (st r)) eqn:El; [|done]. apply (i_wake _ I n Hn). rewrite Hm, F3, F5, F8 in Hw.
      unfold local. rewrite El. destruct (cancelledRemotely (st r)); [|auto]. rewrite andb_false_r in Hw.
      destruct Hw as [Hw|[?|[?|[_ ?]]]]; [|done|auto|done]. left. intros Hmi. apply Hw. by split. }
  unfold complete in Hgo. destruct (isNewlyCompleted s1) as [b s2]. rewrite andb_true_r in Hgo.
  eexists. split; [reflexivity|]. intros _. unfold update. cbn. rewrite is_completed_note. by apply Hgo; destruct (cancelledLocally (st r)).
Qed.

Lemma reset_impl s f now o hd rl :
  ok s o hd rl -> 0 <= ReliableSize f <= FinalSize f -> FinalSize f < MaxByteCount ->
  exists s' err, handleResetStreamFrameImpl s f now = (s', err) /\
    (err = None -> s' = s \/ exists c n, s' = was_reset (ended (with_flow s c) true (FinalSize f)) n (rs_ErrorCode f) /\ ok s' o hd rl /\
       (n <= readPos s -> credited s') /\ (known s -> finalOffset s' = finalOffset s) /\ (known s -> credited s -> credited s') /\ known s').
Proof.
  intros K Hr Hm. unfold handleResetStreamFrameImpl. destruct (is_Some_b (closeForShutdownErr s)); [eexists _, _; split; [reflexivity|auto]|].
  destruct (FlowControl.UpdateHighestReceived _ _ _ _ _) as [[fs conn] [e|]] eqn:Eu; [eexists _, _; by split|].
  destruct (ended_ok s true (FinalSize f) (fs, conn) o hd rl now K) as (K1 & Hk & _ & _ & Hkn & Hcr); [lia|done|].
  specialize (Hkn eq_refl). cbn [ended] in *. set (s1 := with_final (with_flow s (fs, conn)) (FinalSize f)) in *.
  set (n := if (negb (cancelledRemotely s1) && (reliableSize s1 =? 0)) || (ReliableSize f <? reliableSize s1) then ReliableSize f else reliableSize s1).
  assert (Hn : (if (negb (cancelledRemotely s1) && (reliableSize s1 =? 0)) || (ReliableSize f <? reliableSize s1) then with_reliable s1 (ReliableSize f) else s1) = with_reliable s1 n).
  { unfold n. by destruct (_ || _), s. }
  rewrite Hn. destruct (was_reset_ok s1 n (rs_ErrorCode f) o hd rl K1 Hkn) as [K2 Hc2].
  { intros Hre. unfold n. rewrite Hre. cbn [negb andb orb]. destruct (ReliableSize f <? reliableSize s1) eqn:E; llia. }
  exists (was_reset s1 n (rs_ErrorCode f)), None. split.
  - unfold was_reset. cbn. destruct (n <=? readPos s); cbn; by destruct (cancelledRemotely s), (cancelledLocally s).
  - intros _. right. exists (fs, conn), n. split_and!; [done|done|by intros; apply Hc2; left| |by intros; apply Hc2; right; auto|].
    + intros Hk'. rewrite <- Hk by done. unfold was_reset. cbn. destruct (n <=? readPos s); cbn; by destruct (cancelledRemotely s), (cancelledLocally s).
    + unfold known in *. unfold was_reset. cbn. destruct (n <=? readPos s); cbn; by destruct (cancelledRemotely s), (cancelledLocally s).
Qed.

Lemma was_reset_fields s c m n code :
  let s' := was_reset (ended (with_flow s c) true m) n code in
  currentFrame s' = currentFrame s /\ currentFrameIsLast s' = currentFrameIsLast s /\ readPos s' = readPos s /\
  cancelledLocally s' = cancelledLocally s /\ cancelledRemotely s' = negb (cancelledLocally s) || cancelledRemotely s /\
  completed s' = completed s /\ reliableSize s' = n /\ closeForShutdownErr s' = closeForShutdownErr s /\ frameQueue s' = frameQueue s /\
  readChan s' = (if cancelledRemotely s || cancelledLocally s then readChan s else true).
Proof.
  cbv zeta. unfold was_reset. cbn.
  destruct (n <=? readPos s), (cancelledRemotely s) eqn:E1, (cancelledLocally s) eqn:E2; cbn; rewrite ?E1, ?E2; by split_and!.
Qed.

Lemma reset_inv r f now :
  inv r -> 0 <= ReliableSize f <= FinalSize f -> FinalSize f < MaxByteCount ->
  exists r', exec r (RReset f now) = Ok r' /\ (failed r' = None -> inv r').
Proof.
  intros I Hf Hm. cbn [exec]. unfold handleResetStreamFrame.
  destruct (reset_impl (st r) f now (out r) (handed r) (released r) (i_ok _ I) Hf Hm) as (s1 & err & -> & Hok).
  destruct err as [e|]; [destruct (isNewlyCompleted s1); eexists; by split|].
  assert (Hgo : inv (let '(b, s) := complete false s1 in mkRun s (waiting r) (out r) (eof r) (got r) (handed r) (released r) (reported r + if b then 1 else 0) None)).
  { destruct (Hok eq_refl) as [->|(c & n & -> & K1 & Hc & Hk & Hcr & Hkn)]; clear Hok.
    - apply op_inv; try done; try apply I; try (by intros; left).
      intros _ Hl Hk Hc. rewrite (i_local _ I Hl Hk) in Hc. done.
    - destruct (was_reset_fields (st r) c (FinalSize f) n (rs_ErrorCode f)) as (F1 & F2 & F3 & F4 & F5 & F6 & F7 & F8 & F9 & F10). set (s1 := was_reset _ _ _) in *.
      assert (Hun : local s1 -> credited s1 \/ unlucky s1).
      { intros Hl. destruct (decide (n <= readPos (st r))); [auto|]. right. split; [done|]. rewrite F3, F7. llia. }
      apply op_inv; try done; try apply I; try (by intros; left).
      + unfold local. by rewrite F4.
      + rewrite F6. intros Hco. destruct (i_credit _ I Hco) as [?|[? ?]]; [left; apply Hcr; [by apply (v_completed _ _ _ _ (i_ok _ I))|done]|].
        apply Hun. unfold local. by rewrite F4.
      + auto.
      + intros x Hx. unfold missing. rewrite F9. by apply I.
      + unfold local. rewrite F4, F5. intros _ Hre Hl. destruct (cancelledLocally (st r)); [done|]. by destruct (cancelledRemotely (st r)).
      + intros m Hn Hw. rewrite F10. destruct (cancelledRemotely (st r) || cancelledLocally (st r)) eqn:E; [|done]. apply (i_wake _ I m Hn).
        unfold missing, local in *. rewrite F3, F4, F5, F8, F9 in Hw. destruct (cancelledLocally (st r)), (cancelledRemotely (st r)); try done; cbn in *;
          rewrite ?andb_false_r in *; naive_solver. }
  unfold complete in Hgo. destruct (isNewlyCompleted s1) as [b s2]. rewrite andb_false_r in Hgo.
  eexists. split; [reflexivity|]. intros _. unfold with_failed, update. cbn. by rewrite is_completed_note, app_nil_r.
Qed.

(** ** The other operations *)

Lemma cancel_impl s code o hd rl :
  ok s o hd rl ->
  cancelReadImpl s code = (false, s) /\ (local s \/ closeForShutdownErr s <> None) \/
  cancelReadImpl s code = (false, with_local s) /\ ok (with_local s) o hd rl /\ ~ local s /\ (errorRead s = true \/ cancelledRemotely s = true) \/
  exists s', cancelReadImpl s code = (true, s') /\ s' = signalRead (with_cancelErr (with_stop (with_local s) true) (mkStreamError code false)) /\ ok s' o hd rl /\ ~ local s.
Proof.
  intros K. unfold cancelReadImpl, local. destruct (cancelledLocally s) eqn:El; [auto|]. destruct (closeForShutdownErr s) eqn:Es; [left; split; [done|by right]|].
  cbn [is_Some_b]. destruct (errorRead (with_local s) || cancelledRemotely (with_local s)) eqn:Ee.
  - right; left. apply orb_true_iff in Ee. cbn in Ee. split_and!; try done. destruct K. unfold local in *. split; try done.
    + destruct v_flow0 as [?|(? & ? & ?)]; [by left|right]. split_and!; try done. by right.
    + intros _. destruct Ee as [Ee|?]; [|by apply v_cancelErr0; right]. destruct (v_errorRead0 Ee) as [?|[?|He]]; [by right|congruence|].
      apply v_cancelErr0. right. by apply andb_true_iff in He as [? _].
    + intros _. right. by left.
    + intros Hco. split; [by apply v_completed0|by left].
  - right; right. eexists. split; [reflexivity|]. split; [done|]. split; [|done]. destruct K. unfold local in *. split; try done.
    + destruct v_flow0 as [?|(? & ? & ?)]; [by left|right]. split_and!; try done. by right.
    + by left.
    + intros _. right. by left.
    + intros Hco. split; [by apply v_completed0|by left].
Qed.

Lemma receive_cancel_inv r code :
  inv r -> exists r', exec r (RCancel code) = Ok r' /\ (failed r' = failed r) /\ inv r'.
Proof.
  intros I. pose proof (i_ok _ I) as K. cbn [exec]. unfold CancelRead.
  assert (Hgo : let '(q, s1) := cancelReadImpl (st r) code in
    inv (let '(b, s) := complete true s1 in mkRun s (waiting r) (out r) (eof r) (got r) (handed r) (released r) (reported r + if b then 1 else 0) (failed r))).
  { destruct (cancel_impl (st r) code _ _ _ K) as [[-> _]|[(-> & K1 & Hl & He)|(s' & -> & -> & K1 & Hl)]].
    - apply op_inv; try done; try apply I; by intros; left.
    - assert (Hcr : completed (st r) = true -> credited (with_local (st r))).
      { intros Hc. destruct (i_credit _ I Hc) as [?|[? _]]; done. }
      apply op_inv; try done; try apply I; try (by intros; left); [intros; left; auto|].
      intros n Hn Hw. apply (i_wake _ I n Hn). cbn in Hw. destruct Hw as [?|[?|[?|[_ Hr]]]]; auto.
      destruct He as [He|He]; [|congruence]. destruct (v_errorRead _ _ _ _ K He) as [[? _]|[?|He']]; [|done|].
      + destruct (i_waitread _ I n Hn) as (_ & ? & _). congruence.
      + apply andb_true_iff in He' as [? _]. congruence.
    - assert (Hcr : completed (st r) = true -> credited (st r)).
      { intros Hc. destruct (i_credit _ I Hc) as [?|[? _]]; done. }
      apply op_inv; try done; try apply I; try (by intros; left); intros; left; auto. }
  destruct (cancelReadImpl (st r) code) as [q s1]. unfold complete in Hgo. destruct (isNewlyCompleted s1) as [b s2]. rewrite andb_true_r in Hgo.
  eexists. split; [reflexivity|]. split; [done|]. unfold update. rewrite app_nil_r.
  by replace (is_completed ((if q then [onHasStreamControlFrame] else []) ++ completed_note b)) with b by (by destruct q, b).
Qed.

Lemma flow_change_ok s c o hd rl :
  ok s o hd rl -> flow_ok c -> same_high (flowController s) c -> FlowControl.bytesRead (FlowControl.fc c.1) = FlowControl.bytesRead (fl s) ->
  ok (with_flow s c) o hd rl.
Proof.
  intros [] Hc [Hh Hf] Hb. unfold credited, fl in *. split; cbn; unfold credited, missing, fl in *; cbn; rewrite ?Hh, ?Hf, ?Hb; try done.
Qed.

(** An operation that changes neither data nor completion. *)
Lemma plain_inv r s' :
  inv r -> ok s' (out r) (handed r) (released r) ->
  currentFrame s' = currentFrame (st r) -> currentFrameIsLast s' = currentFrameIsLast (st r) -> readPos s' = readPos (st r) ->
  finalOffset s' = finalOffset (st r) -> cancelledLocally s' = cancelledLocally (st r) -> cancelledRemotely s' = cancelledRemotely (st r) ->
  frameQueue s' = frameQueue (st r) -> completed s' = completed (st r) -> reliableSize s' = reliableSize (st r) ->
  (credited (st r) -> credited s') ->
  readChan s' = true \/ readChan s' = readChan (st r) /\ closeForShutdownErr s' = closeForShutdownErr (st r) ->
  inv (update r s' [] []).
Proof.
  intros I K F1 F2 F3 F4 F5 F6 F7 F8 F9 Hc Hw. pose proof I as []. unfold update. cbn [is_completed existsb]. rewrite app_nil_r, Nat.add_0_r.
  unfold unlucky, local, known, missing in *.
  apply stay_inv; unfold unlucky, local, known, missing in *; rewrite ?F3, ?F4, ?F5, ?F6, ?F7, ?F8, ?F9; try done; auto.
  - intros Hco. destruct (i_credit0 Hco); auto.
  - intros n Hn Hx. destruct Hw as [?|[-> ?]]; [done|]. apply (i_wake0 n Hn). by rewrite F3, F4, F5, F6, F7 in Hx || congruence.
Qed.

Lemma receive_control_inv r rtt allow now :
  inv r -> exists r', exec r (RControl rtt allow now) = Ok r' /\ (failed r' = failed r) /\ inv r'.
Proof.
  intros I. pose proof (i_ok _ I) as K. cbn [exec]. unfold getControlFrame.
  destruct (negb (queuedStopSending (st r)) && _) eqn:E1; [|destruct (queuedStopSending (st r)) eqn:E2].
  - eexists. split; [reflexivity|]. split; [done|]. apply plain_inv; try done. by right.
  - destruct (cancelErr (st r)) as [e|] eqn:Ec; [|by destruct (v_stop _ _ _ _ K E2)].
    eexists. split; [reflexivity|]. split; [done|]. apply plain_inv; try done; [|by right]. destruct K. by split.
  - destruct (FlowControl.stream_update_spec rtt allow (flowController (st r)).1 (flowController (st r)).2 now) as ([H1 _] & [H2 _] & H3 & H4);
      [apply K|apply K|].
    assert (Hrf : FlowControl.receivedFinalOffset (FlowControl.GetWindowUpdate rtt allow (flowController (st r)).1 (flowController (st r)).2 now).1.2 =
                  FlowControl.receivedFinalOffset (flowController (st r)).1).
    { unfold FlowControl.GetWindowUpdate. destruct (FlowControl.receivedFinalOffset (flowController (st r)).1) eqn:E; [exact E|]. by destruct (FlowControl.getWindowUpdate _ _ _ _). }
    destruct (FlowControl.GetWindowUpdate _ _ _ _ _) as [[off fs] conn]. cbn [fst snd] in *. unfold FlowControl.same_counts in *.
    eexists. split; [reflexivity|]. split; [done|].
    assert (K1 : ok (with_flow (with_max_data (st r) false) (fs, conn)) (out r) (handed r) (released r)).
    { apply flow_change_ok; [by apply max_data_ok| |split; [apply H3|done]|apply H3].
      split; [done|done|]. pose proof (fo_share _ (v_fc _ _ _ _ K)). unfold unread in *. cbn. lia. }
    apply plain_inv; try done; [|by right]. unfold credited, fl. cbn. destruct H3 as (-> & -> & _). done.
Qed.

Lemma conn_inv r c :
  inv r -> FlowControl.sound c -> unread (fl (st r)) <= unread c -> inv (update r (with_flow (st r) ((flowController (st r)).1, c)) [] []).
Proof.
  intros I Hc Hu. pose proof (i_ok _ I) as K. apply plain_inv; try done; [|by right].
  apply flow_change_ok; [done| |done|done]. split; [apply K|done|done].
Qed.

Lemma signal_ok s o hd rl : ok s o hd rl -> ok (signalRead s) o hd rl.
Proof. intros []. by split. Qed.

(** ** The connection's share *)

(** The stream and the connection were credited the same, and nothing was read that did not arrive. *)
Definition level (s s' : ReceiveStream) : Prop :=
  others (flowController s') = others (flowController s) /\ FlowControl.bytesRead (fl s') <= FlowControl.highestReceived (fl s').

Lemma update_level s off fin now :
  level s s -> level s (with_flow s (FlowControl.UpdateHighestReceived (flowController s).1 (flowController s).2 off fin now).1).
Proof.
  intros [_ Hs]. unfold level, others, fl in *. cbn. unfold FlowControl.UpdateHighestReceived, FlowControl.IncrementHighestReceived.
  repeat (case_match; cbn; try (split; lia)).
Qed.

Lemma abandon_level s s' : level s s' -> level s (Abandon s').
Proof.
  intros [H1 H2]. split; [cbn; rewrite abandon_others by exact H2; exact H1|]. unfold fl, Abandon, FlowControl.Abandon. cbn. lia.
Qed.

Lemma complete_level b s s' : level s s' -> level s (complete b s').2.
Proof.
  intros H. unfold complete. destruct (newly_cases s') as [[-> _]|[-> _]]; cbn; [done|].
  destruct b; [by apply (abandon_level s (with_completed s' true))|done].
Qed.

Lemma frame_level s f cb now s' calls err : level s s -> handleStreamFrameImpl s f cb now = Ok (s', calls, err) -> level s s'.
Proof.
  intros Hs He. unfold handleStreamFrameImpl in He. pose proof (update_level s (Offset f + blen (Data f)) (Fin f) now Hs) as Hu.
  destruct (FlowControl.UpdateHighestReceived _ _ _ _ _) as [[fs conn] [e|]]; cbn [fst] in Hu; [by injection He as <- <- <-|].
  set (s1 := if Fin f then _ else _) in He. assert (Hs1 : level s s1) by (unfold s1; by destruct (Fin f)). clearbody s1.
  destruct (cancelledLocally s1); [by injection He as <- <- <-|].
  destruct (FrameSorter.Push _ _ _ _) as [[[q cs] [e|]]| |]; try done; cbn in He; by injection He as <- <- <-.
Qed.

Lemma reset_level s f now : level s s -> level s (handleResetStreamFrameImpl s f now).1.
Proof.
  intros Hs. unfold handleResetStreamFrameImpl. destruct (is_Some_b _); [done|]. pose proof (update_level s (FinalSize f) true now Hs) as Hu.
  destruct (FlowControl.UpdateHighestReceived _ _ _ _ _) as [[fs conn] [e|]]; cbn [fst] in Hu; [done|].
  set (s1 := if (_ || _) then _ else _). assert (Hs1 : level s s1) by (unfold s1; by destruct (_ || _)). clearbody s1.
  set (s2 := if reliableSize s1 <=? _ then _ else _).
  assert (Hs2 : level s s2) by (unfold s2; destruct (_ <=? _); [by apply abandon_level|done]). clearbody s2.
  destruct (cancelledRemotely s2); [done|]. by destruct (cancelledLocally s2).
Qed.

Lemma read_end_others s u calls w s' calls' w' ns :
  read_end (s, u, calls, w) = (s', calls', w', ns) -> others (flowController s') = others (flowController s).
Proof.
  unfold read_end. destruct w; [|by intros [= <- _ _ _]]. destruct (newly_cases s) as [[-> _]|[-> _]]; by intros [= <- _ _ _].
Qed.

Lemma returned_st r k n w : st (returned r k n w) = st r.
Proof. by destruct w, k. Qed.

(** Every operation of the stream credits the connection what it credits the stream. *)
Lemma exec_others r e r' :
  inv r -> guard str r e -> (forall c, e <> RConn c) -> exec r e = Ok r' ->
  others (flowController (st r')) = others (flowController (st r)).
Proof.
  intros I [Hnf Hg] Hne He. pose proof (i_ok _ I) as K.
  assert (Hl : level (st r) (st r)) by (split; [done|apply (fo_sound _ (v_fc _ _ _ _ K))]).
  destruct e as [clock n|now n|timer clock|code|f id now|f now|rtt allow now|t|e|c]; cbn [exec] in He.
  - unfold Read in He. destruct (readImpl_ok clock n (st r) _ _ _ K) as (s' & u & calls & w & E & Hs & _). rewrite E in He. cbn [mbind res_bind] in He.
    destruct (read_end _) as [[[s2 ?] ?] ?] eqn:Ee. injection He as <-. rewrite returned_st. rewrite <- (sm_others _ _ Hs). by eapply read_end_others.
  - destruct (Peek_ok (st r) n now _ _ _ K) as (s' & calls & w & E & Hs & _); [apply Hg|]. rewrite E in He. injection He as <-.
    rewrite returned_st. apply (sm_others _ _ Hs).
  - destruct (waiting r) as [[[] n]|] eqn:Ew; [| |by injection He as <-].
    + destruct (i_waitread _ I n Ew) as (H1 & H2 & H3). unfold wake in He.
      destruct (wakeImpl_ok clock n timer (st r) _ _ _ K H1 H2 H3) as (s' & u & calls & w & E & Hs%same_chan & _). rewrite E in He. cbn [mbind res_bind] in He.
      destruct (read_end _) as [[[s2 ?] ?] ?] eqn:Ee. injection He as <-. rewrite returned_st. rewrite <- (sm_others _ _ Hs). by eapply read_end_others.
    + destruct (i_waitpeek _ I n Ew) as (H1 & H2).
      destruct (peek_wake_ok (st r) timer n (clock O) _ _ _ K H1 H2) as (s' & calls & w & E & Hs%same_chan & _). rewrite E in He. injection He as <-.
      rewrite returned_st. apply (sm_others _ _ Hs).
  - unfold CancelRead in He.
    assert (H1 : level (st r) (cancelReadImpl (st r) code).2) by (unfold cancelReadImpl; repeat (case_match; try done)).
    destruct (cancelReadImpl (st r) code) as [q s1]. cbn [snd] in H1. apply (complete_level true) in H1. unfold complete in H1.
    destruct (isNewlyCompleted s1) as [b s2]. rewrite andb_true_r in H1. injection He as <-. apply H1.
  - unfold handleStreamFrame in He. destruct (handleStreamFrameImpl _ _ _ _) as [[[s1 calls] err]| |] eqn:E; try done. cbn in He.
    apply (frame_level _ _ _ _ _ _ _ Hl), (complete_level true) in E. unfold complete in E.
    destruct (isNewlyCompleted s1) as [b s2]. rewrite andb_true_r in E. injection He as <-. apply E.
  - unfold handleResetStreamFrame in He. pose proof (complete_level false _ _ (reset_level _ f now Hl)) as H1. unfold complete in H1.
    destruct (handleResetStreamFrameImpl _ _ _) as [s1 err]. cbn [fst] in H1. destruct (isNewlyCompleted s1) as [b s2]. rewrite andb_false_r in H1.
    injection He as <-. apply H1.
  - unfold getControlFrame in He. destruct (negb _ && _); [by injection He as <-|]. destruct (queuedStopSending (st r)).
    + destruct (cancelErr (st r)); [by injection He as <-|done].
    + destruct (FlowControl.stream_update_spec rtt allow (flowController (st r)).1 (flowController (st r)).2 now) as (_ & _ & H3 & H4); [apply K|apply K|].
      destruct (FlowControl.GetWindowUpdate _ _ _ _ _) as [[off fs] conn]. cbn [fst snd] in *. injection He as <-.
      unfold others. cbn. destruct H3 as (-> & _), H4 as (-> & _). done.
  - by injection He as <-.
  - by injection He as <-.
  - by destruct (Hne c).
Qed.

(** Every operation is defined and keeps the invariant, unless it fails the connection. *)
Lemma receive_exec_inv r e :
  inv r -> guard str r e -> exists r', exec r e = Ok r' /\ (failed r' = None -> inv r').
Proof.
  intros I [Hnf Hg]. pose proof (i_ok _ I) as K. destruct e as [clock n|now n|timer clock|code|f id now|f now|rtt allow now|t|e|c].
  - cbn [exec]. unfold Read. destruct (readImpl_ok clock n (st r) _ _ _ K) as (s' & u & calls & w & -> & Hs & Hw & Hn). cbn [mbind res_bind].
    pose proof (read_end_inv r s' u calls w n I Hs Hw) as Hend. destruct (read_end _) as [[[s2 calls2] w2] ns]. eexists. split; [reflexivity|]. intros _. by apply Hend.
  - cbn [exec]. destruct (Peek_ok (st r) n now _ _ _ K) as (s' & calls & w & -> & Hs & Hw & Hn); [apply Hg|]. cbn [mbind res_bind].
    eexists. split; [reflexivity|]. intros _. by apply peek_end_inv.
  - destruct Hg as [Hw Hg]. cbn [exec]. destruct (waiting r) as [[[] n]|] eqn:Ew; [| |done].
    + destruct (i_waitread _ I n Ew) as (H1 & H2 & H3).
      unfold wake. destruct (wakeImpl_ok clock n timer (st r) _ _ _ K H1 H2 H3) as (s' & u & calls & w & -> & Hs%same_chan & Hw'). cbn [mbind res_bind].
      pose proof (read_end_inv r s' u calls w n I Hs Hw') as Hend. destruct (read_end _) as [[[s2 calls2] w2] ns]. eexists. split; [reflexivity|]. intros _. by apply Hend.
    + destruct (i_waitpeek _ I n Ew) as (H1 & H2).
      destruct (peek_wake_ok (st r) timer n (clock O) _ _ _ K H1 H2) as (s' & calls & w & -> & Hs%same_chan & Hw'). cbn [mbind res_bind].
      eexists. split; [reflexivity|]. intros _. by apply peek_end_inv.
  - destruct (receive_cancel_inv r code I) as (r' & ? & _ & ?). eauto.
  - apply frame_inv; [done|]. by destruct Hg as (? & ? & ? & _).
  - destruct Hg. by apply reset_inv.
  - destruct (receive_control_inv r rtt allow now I) as (r' & ? & _ & ?). eauto.
  - eexists. split; [reflexivity|]. intros _. apply plain_inv; try done; [|by left]. apply signal_ok. destruct K. by split.
  - eexists. split; [reflexivity|]. intros _. apply plain_inv; try done; [|by left]. apply signal_ok. destruct K. by split.
  - eexists. split; [reflexivity|]. intros _. destruct Hg. by apply conn_inv.
Qed.

Lemma receive_reachable_inv id c r :
  flow_ok c -> FlowControl.receivedFinalOffset c.1 = false -> FlowControl.bytesRead (FlowControl.fc c.1) = 0 ->
  FlowControl.highestReceived (FlowControl.fc c.1) = 0 -> reachable str id c r -> failed r = None -> inv r.
Proof.
  intros H1 H2 H3 H4 Hr. induction Hr as [|r e r' Hr IH Hg He]; intros Hf; [by apply receive_start_inv|].
  destruct (receive_exec_inv r e (IH (proj1 Hg)) Hg) as (r2 & Hr2 & Hi). rewrite He in Hr2. injection Hr2 as <-. auto.
Qed.

#[export] Instance covered_dec fs x : Decision (covered fs x).
Proof.
  refine (cast_if (decide (Exists (fun f => Offset f <= x < Offset f + blen (Data f)) fs))); unfold covered; rewrite Exists_exists in *; done.
Defined.

Lemma new_stream_flow w mw sw conn : 0 <= w <= mw -> 0 <= sw -> FlowControl.sound conn -> flow_ok (FlowControl.NewStreamFlowController w mw sw, conn).
Proof.
  intros Hw Hs Hc. split; [unfold FlowControl.sound; cbn; lia|done|]. unfold FlowControl.sound, unread in *. cbn. lia.
Qed.

(** ** What a receive stream guarantees *)

Section theorems.
Context (id w mw sw : Z) (conn : FlowControl.baseFlowController) (r : run).
Hypothesis Hw : 0 <= w <= mw.
Hypothesis Hsw : 0 <= sw.
Hypothesis Hconn : FlowControl.sound conn.
Hypothesis Hr : reachable str id (FlowControl.NewStreamFlowController w mw sw, conn) r.
Hypothesis Hnf : failed r = None.

Lemma receive_reached : inv r.
Proof. by apply (receive_reachable_inv id (FlowControl.NewStreamFlowController w mw sw, conn)); [apply new_stream_flow|..]. Qed.

Lemma out_pos : blen (out r) = readPos (st r) /\ readPos (st r) <= qpos (st r).
Proof.
  pose proof (i_ok _ receive_reached) as K. destruct (v_out _ _ _ _ K) as [-> Hp]. split; [unfold blen; rewrite FrameSorter.length_stream; lia|].
  destruct (currentFrame (st r)) as [f|] eqn:Ef; [destruct (v_frame _ _ _ _ K f Ef) as (_ & ? & ->); lia|by rewrite (v_noframe _ _ _ _ K Ef)].
Qed.

Lemma read_covered x : 0 <= x < blen (out r) -> covered (got r) x.
Proof.
  intros Hx. destruct out_pos as [Ho Hq]. pose proof receive_reached as I. pose proof (v_queue _ _ _ _ (i_ok _ I)) as Q.
  pose proof (FrameSorter.read_lt_max str _ Q) as Hlt. fold (qpos (st r)) in Hlt.
  apply dec_stable. rewrite <- (i_got _ I x) by lia. intros Hm. apply (FrameSorter.inv_after _ _ Q) in Hm. fold (qpos (st r)) in Hm. lia.
Qed.

(** C15: a receive stream delivers what the peer sent.  Whatever frames of the stream
    that end below the largest offset arrive, in whatever order and however often, and
    whatever the application does, with one [Read] or [Peek] at a time,
    as long as no frame made the connection fail,
    no operation panics; the bytes read are a beginning of the peer's stream and all
    of them arrived; on a stream that was not cancelled locally the end is reported
    only after a frame that ends the stream, at the position it gives (after a local
    cancellation it may be reported without one, see [cancelled_read_reports_eof]);
    and every buffer of a frame that arrived before a local cancellation is released
    once, or still in use.  The buffers of later frames are not put back. *)
Theorem receive_stream_correct :
  (forall e, guard str r e -> exists r', exec r e = Ok r') /\
  out r = FrameSorter.stream str 0 (length (out r)) /\ (forall x, 0 <= x < blen (out r) -> covered (got r) x) /\
  (eof r = true -> cancelledLocally (st r) = false -> exists f, f ∈ got r /\ Fin f = true /\ Offset f + blen (Data f) = blen (out r)) /\
  released r ++ held (st r) ++ FrameSorter.cbs (FrameSorter.queue (frameQueue (st r))) ≡ₚ handed r.
Proof.
  pose proof receive_reached as I. pose proof (i_ok _ I) as K. destruct out_pos as [Ho Hq].
  split; [intros e Hg; destruct (receive_exec_inv r e I Hg) as (r' & ? & _); eauto|].
  split; [destruct (v_out _ _ _ _ K) as [Hv _]; rewrite Hv at 1; f_equal; unfold blen in Ho; lia|]. split; [apply read_covered|].
  split; [|apply K]. intros He Hl. destruct (i_eof _ I He) as [H1 H2]. destruct (i_last _ I H1) as [?|(f & ? & ? & ?)]; [unfold local in *; congruence|].
  exists f. split_and!; [done|done|]. rewrite Ho, (v_noframe _ _ _ _ K H2), (proj2 (v_last _ _ _ _ K H1)). done.
Qed.

(** What a [Read] returns.  It returns the bytes of the stream that follow those
    read before, at least one unless the buffer is empty or there is an error; EOF
    only at the end of the stream, a cancellation only when the stream was cancelled;
    and it waits only when the next byte has not arrived and the end was not reached. *)
Theorem receive_stream_read clock n :
  exists s' calls w ns, Read (st r) clock n = Ok (s', calls, w, ns) /\
    match w with
    | RReturn d err => d = FrameSorter.stream str (blen (out r)) (length d) /\ read_post (st r) s' n d err /\
        (err = Some EOF -> finalOffset (st r) = blen (out r) + blen d)
    | RBlocked => ~ covered (got r) (blen (out r)) /\ cancelledLocally (st r) = false /\ closeForShutdownErr (st r) = None /\
        (finalOffset (st r) = blen (out r) -> cancelledRemotely (st r) = true)
    end.
Proof.
  pose proof receive_reached as I. pose proof (i_ok _ I) as K. destruct out_pos as [Ho Hq].
  destruct (readImpl_ok clock n (st r) _ _ _ K) as (s' & u & calls & w' & Hread & Hs & Hw' & _). unfold Read. rewrite Hread. cbn [mbind res_bind].
  destruct w' as [d err|]; cbn [read_end].
  - destruct Hw' as [K' Hpost].
    assert (Hd : d = FrameSorter.stream str (blen (out r)) (length d) /\ readPos s' = blen (out r) + blen d).
    { destruct (v_out _ _ _ _ K) as [Hv _], (v_out _ _ _ _ K') as [Hv' Hp']. pose proof (f_equal length Hv') as Hlen. rewrite length_app, FrameSorter.length_stream in Hlen.
      assert (Hpos : readPos s' = blen (out r) + blen d) by (unfold blen in *; lia). split; [|done]. rewrite Hpos in Hv'.
      rewrite Z2Nat.inj_add, FrameSorter.stream_app in Hv' by apply blen_nonneg. unfold blen in Hv'. rewrite !Nat2Z.id in Hv'.
      apply app_inj_1 in Hv' as [_ Hv']; [|by rewrite FrameSorter.length_stream]. exact Hv'. }
    assert (Heof : err = Some EOF -> finalOffset (st r) = blen (out r) + blen d).
    { intros ->. destruct Hpost as [_ [[H1 H2] _]]. rewrite <- (proj2 Hd), (v_noframe _ _ _ _ K' H2), (proj2 (v_last _ _ _ _ K' H1)). symmetry. apply Hs. }
    destruct Hd as [Hd _]. destruct (newly_cases s') as [[-> _]|[-> _]]; eexists _, _, _, _; (split; [reflexivity|]); (split; [exact Hd|]); (split; [exact Hpost|exact Heof]).
  - destruct Hw' as [K' (H1 & H2 & H3 & H4 & H5 & H6 & H7)]. eexists _, _, _, _. split; [reflexivity|].
    assert (Hpos : readPos s' = readPos (st r)).
    { destruct (v_out _ _ _ _ K) as [Hv ?], (v_out _ _ _ _ K') as [Hv' ?]. rewrite Hv in Hv'. apply (f_equal length) in Hv'. rewrite !FrameSorter.length_stream in Hv'. lia. }
    unfold missing, local in *. destruct Hs. rewrite sm_gaps0, Hpos, <- Ho in H3. rewrite sm_final0, sm_remote0, Hpos, <- Ho in H4. rewrite sm_local0 in H5. rewrite sm_shutdown0 in H7.
    pose proof (FrameSorter.read_lt_max str _ (v_queue _ _ _ _ K)) as Hlt. fold (qpos (st r)) in Hlt. pose proof (blen_nonneg (out r)).
    split_and!; [apply (i_got _ I); [llia|done]|by destruct (cancelledLocally (st r))|done|]. intros Hf. rewrite Hf in H4. rewrite Z.leb_refl in H4. by destruct (cancelledRemotely (st r)).
Qed.


(** No lost wake-up.  A [Read] that waits has its wake-up pending as soon as the
    next byte arrived, the end of the stream was reached, the connection was closed,
    or the application cancelled a stream the peer has not reset. *)
Theorem receive_stream_wakes n :
  waiting r = Some (CRead, n) ->
  covered (got r) (blen (out r)) \/ finalOffset (st r) = blen (out r) /\ cancelledRemotely (st r) = false \/ closeForShutdownErr (st r) <> None \/
  cancelledLocally (st r) = true /\ cancelledRemotely (st r) = false -> readChan (st r) = true.
Proof.
  intros Hn Hx. pose proof receive_reached as I. pose proof (i_ok _ I) as K. destruct out_pos as [Ho Hq]. apply (i_wake _ I n Hn). rewrite <- Ho.
  pose proof (FrameSorter.read_lt_max str _ (v_queue _ _ _ _ K)) as Hlt. fold (qpos (st r)) in Hlt. pose proof (blen_nonneg (out r)).
  destruct Hx as [Hc|[[Hf Hre]|[?|?]]]; [left|right; left; rewrite Hf, Hre, Z.leb_refl; done|auto|auto]. intros Hm. apply (i_got _ I) in Hm; [done|lia].
Qed.

End theorems.

(** ** A read that nobody wakes *)

(** The stream was reset by the peer and then cancelled, and no wake-up is pending. *)
Definition sleeps (s : ReceiveStream) : Prop :=
  readChan s = false /\ deadline s = 0 /\ cancelledLocally s = true /\ cancelledRemotely s = true.

(** Everything but a deadline and the end of the connection. *)
Definition ordinary (e : event) : Prop := match e with RDeadline _ | RShutdown _ => False | _ => True end.

Inductive continues (r : run) : run -> Prop :=
| cont_refl : continues r r
| cont_step r1 e r2 : continues r r1 -> guard str r1 e -> ordinary e -> exec r1 e = Ok r2 -> continues r r2.

Lemma complete_sleeps b s : sleeps s -> sleeps (complete b s).2.
Proof. unfold complete. destruct (newly_cases s) as [[-> _]|[-> _]]; cbn; [|destruct b]; done. Qed.

Lemma frame_sleeps s f cb now s' calls err : sleeps s -> handleStreamFrameImpl s f cb now = Ok (s', calls, err) -> sleeps s'.
Proof.
  intros Hs He. unfold handleStreamFrameImpl in He. destruct (FlowControl.UpdateHighestReceived _ _ _ _ _) as [[fs conn] [e|]]; [by injection He as <- <- <-|].
  set (s1 := if Fin f then _ else _) in He. assert (Hs1 : sleeps s1) by (unfold s1; by destruct (Fin f)).
  destruct Hs1 as (? & ? & Hl & ?). rewrite Hl in He. by injection He as <- <- <-.
Qed.

Lemma reset_sleeps s f now : sleeps s -> sleeps (handleResetStreamFrameImpl s f now).1.
Proof.
  intros Hs. unfold handleResetStreamFrameImpl. destruct (is_Some_b _); [done|]. destruct (FlowControl.UpdateHighestReceived _ _ _ _ _) as [[fs conn] [e|]]; [done|].
  set (s1 := if (_ || _) then _ else _). assert (Hs1 : sleeps s1) by (unfold s1; by destruct (_ || _)). clearbody s1.
  set (s2 := if reliableSize s1 <=? _ then _ else _). assert (Hs2 : sleeps s2) by (unfold s2; by destruct (_ <=? _)). clearbody s2.
  destruct Hs2 as (? & ? & ? & Hr). by rewrite Hr.
Qed.

Lemma asleep_step n r e r' :
  waiting r = Some (CRead, n) /\ sleeps (st r) -> guard str r e -> ordinary e -> exec r e = Ok r' -> waiting r' = Some (CRead, n) /\ sleeps (st r').
Proof.
  intros [Hw Hs] [_ Hg] Ho He. pose proof Hs as (Hc & Hd & Hl & Hr). destruct e as [clock m|now m|timer clock|code|f id now|f now|rtt allow now|t|e|c]; try done.
  - destruct Hg. congruence.
  - destruct Hg. congruence.
  - destruct Hg as [_ Hg]. destruct timer; congruence.
  - cbn in He. unfold CancelRead, cancelReadImpl in He. rewrite Hl in He. pose proof (complete_sleeps true (st r) Hs) as C. unfold complete in C.
    destruct (isNewlyCompleted (st r)) as [b s]. rewrite andb_true_r in C. by injection He as <-.
  - cbn [exec] in He. unfold handleStreamFrame in He. destruct (handleStreamFrameImpl _ _ _ _) as [[[s1 calls] err]| |] eqn:E; try done. cbn in He.
    pose proof (complete_sleeps true s1 (frame_sleeps _ _ _ _ _ _ _ Hs E)) as C. unfold complete in C.
    destruct (isNewlyCompleted s1) as [b s]. rewrite andb_true_r in C. by injection He as <-.
  - cbn [exec] in He. unfold handleResetStreamFrame in He. pose proof (complete_sleeps false _ (reset_sleeps (st r) f now Hs)) as C. unfold complete in C.
    destruct (handleResetStreamFrameImpl _ _ _) as [s1 err]. cbn [fst] in C. destruct (isNewlyCompleted s1) as [b s]. rewrite andb_false_r in C. by injection He as <-.
  - cbn [exec] in He. unfold getControlFrame in He. destruct (negb _ && _); [by injection He as <-|]. destruct (queuedStopSending (st r)).
    + destruct (cancelErr (st r)); [by injection He as <-|done].
    + destruct (FlowControl.GetWindowUpdate _ _ _ _ _) as [[off fs] conn]. by injection He as <-.
  - by injection He as <-.
Qed.

Lemma asleep_forever n r r' : waiting r = Some (CRead, n) -> sleeps (st r) -> continues r r' -> waiting r' = Some (CRead, n) /\ sleeps (st r').
Proof. intros Hw Hs. induction 1 as [|r1 e r2 _ IH Hg Ho He]; [done|]. by eapply asleep_step. Qed.

(** ** Runs, checked *)

Definition receive_guard_b (r : run) (e : event) : bool :=
  negb (is_Some_b (failed r)) &&
  match e with
  | RRead _ n | RPeek _ n => negb (is_Some_b (waiting r)) && (0 <=? n)
  | RWake timer _ => is_Some_b (waiting r) && if timer then negb (deadline (st r) =? 0) else readChan (st r)
  | RFrame f id _ => (0 <=? Offset f) && (Offset f + blen (Data f) <? MaxByteCount) &&
      bool_decide (Data f = FrameSorter.stream str (Offset f) (length (Data f))) && bool_decide (id ∉ handed r)
  | RReset f _ => (0 <=? ReliableSize f) && (ReliableSize f <=? FinalSize f) && (FinalSize f <? MaxByteCount)
  | RConn _ => false
  | _ => true
  end.

Lemma receive_guard_sound r e : receive_guard_b r e = true -> guard str r e.
Proof.
  unfold receive_guard_b, guard. intros Hg. apply andb_prop in Hg as [Hf Hg]. split; [by destruct (failed r)|].
  destruct e; try done; repeat match goal with H : _ && _ = true |- _ => apply andb_prop in H as [? ?] end; try lia.
  - split; [by destruct (waiting r)|lia].
  - split; [by destruct (waiting r)|lia].
  - split; [by destruct (waiting r)|]. destruct timer; [lia|done].
  - repeat match goal with H : bool_decide _ = true |- _ => apply bool_decide_eq_true in H end.
    split_and!; [lia|lia|by apply FrameSorter.agrees_stream|done].
Qed.

Fixpoint receive_run (r : run) (es : list event) : option run :=
  match es with
  | [] => Some r
  | e :: es => if receive_guard_b r e then match exec r e with Ok r' => receive_run r' es | _ => None end else None
  end.

Lemma receive_run_reachable id c r es r' : reachable str id c r -> receive_run r es = Some r' -> reachable str id c r'.
Proof.
  revert r. induction es as [|e es IH]; cbn; intros r Hr Hl; [by simplify_eq|].
  destruct (receive_guard_b r e) eqn:Eg; [|done]. destruct (exec r e) as [r1| |] eqn:Ee; try done.
  eapply IH; [|exact Hl]. eapply reach_step; [done|by apply receive_guard_sound|done].
Qed.

End stream.

(** ** Examples *)

Definition zeros : Z -> Byte.byte := fun _ => Byte.x00.
Definition sample_conn : FlowControl.baseFlowController := FlowControl.mkBase 0 5000 0 0 0 5000 5000 5000 0 0.
Definition sample_flow := (FlowControl.NewStreamFlowController 5000 5000 5000, sample_conn).
Definition sample_run (es : list event) : option run := receive_run zeros (start 4 sample_flow) es.
Definition frame (off : Z) (n : nat) (fin : bool) : StreamFrame := mkStream 4 off (replicate n Byte.x00) fin true true.
Definition clock0 : nat -> Z := fun _ => 0.

Lemma sample_sound : FlowControl.sound sample_conn.
Proof. unfold FlowControl.sound. cbn. lia. Qed.

Lemma sample_run_reachable es r : sample_run es = Some r -> reachable zeros 4 sample_flow r.
Proof. apply receive_run_reachable, reach_start. Qed.

(** Frames arrive out of order and overlap, and everything is read to the end. *)
Definition sample_events : list event :=
  [RFrame (frame 10 10 true) 1 0; RRead clock0 5; RFrame (frame 0 12 false) 2 0; RWake false clock0; RPeek 0 8; RRead clock0 100; RRead clock0 100].

Lemma receive_stream_correct_witness :
  match sample_run sample_events with
  | Some r => out r = FrameSorter.stream zeros 0 (length (out r)) /\ length (out r) = 20%nat /\ eof r = true
  | None => False
  end.
Proof.
  destruct (sample_run sample_events) as [r|] eqn:E; [|vm_compute in E; discriminate E].
  assert (Hf : failed r = None) by (vm_compute in E; injection E as <-; reflexivity).
  destruct (receive_stream_correct zeros 4 5000 5000 5000 sample_conn r ltac:(lia) ltac:(lia) sample_sound (sample_run_reachable _ r E) Hf) as (_ & H & _).
  split; [exact H|]. vm_compute in E. injection E as <-. split; reflexivity.
Defined.

(** A read of a stream with one frame. *)
Lemma receive_stream_read_witness :
  match sample_run [RFrame (frame 0 10 false) 1 0] with
  | Some r => exists s' calls ns, Read (st r) clock0 4 = Ok (s', calls, RReturn (replicate 4 Byte.x00) None, ns)
  | None => False
  end.
Proof.
  destruct (sample_run [RFrame (frame 0 10 false) 1 0]) as [r|] eqn:E; [|vm_compute in E; discriminate E].
  assert (Hf : failed r = None) by (vm_compute in E; injection E as <-; reflexivity).
  destruct (receive_stream_read zeros 4 5000 5000 5000 sample_conn r ltac:(lia) ltac:(lia) sample_sound (sample_run_reachable _ r E) Hf clock0 4) as (s' & calls & w & ns & Hread & _).
  exists s', calls, ns. rewrite Hread. vm_compute in E. injection E as <-. vm_compute in Hread. injection Hread as _ _ <- _. reflexivity.
Defined.


Lemma receive_stream_wakes_witness :
  match sample_run [RRead clock0 5; RFrame (frame 0 10 false) 1 0] with
  | Some r => waiting r = Some (CRead, 5) /\ readChan (st r) = true
  | None => False
  end.
Proof.
  destruct (sample_run [RRead clock0 5; RFrame (frame 0 10 false) 1 0]) as [r|] eqn:E; [|vm_compute in E; discriminate E].
  assert (Hf : failed r = None) by (vm_compute in E; injection E as <-; reflexivity).
  pose proof (receive_stream_wakes zeros 4 5000 5000 5000 sample_conn r ltac:(lia) ltac:(lia) sample_sound (sample_run_reachable _ r E) Hf 5) as H.
  vm_compute in E. injection E as <-. split; [reflexivity|]. apply H; [reflexivity|]. left. exists (frame 0 10 false). split; [left|cbn; unfold blen; cbn; lia].
Defined.

(** After a local cancellation, a reset with a reliable size completes the stream
    without returning the credit of its bytes to the connection. *)
Theorem cancelled_reset_keeps_credit :
  exists r, reachable zeros 4 sample_flow r /\ completed (st r) = true /\ reported r = 1%nat /\
    finalOffset (st r) = 20 /\ FlowControl.bytesRead (fl (st r)) = 0 /\ unread (flowController (st r)).2 = 20.
Proof.
  destruct (sample_run [RFrame (frame 0 10 false) 1 0; RCancel 7; RReset (mkResetStream 4 7 20 15) 0]) as [r|] eqn:E; [|vm_compute in E; discriminate E].
  exists r. split; [exact (sample_run_reachable _ r E)|]. vm_compute in E. injection E as <-. repeat split.
Qed.

(** A [Read] that waits for the reliable part of a stream the peer reset is not
    woken by [CancelRead], nor by anything the peer sends afterwards. *)
Theorem cancelled_read_never_woken :
  exists r, reachable zeros 4 sample_flow r /\ cancelledLocally (st r) = true /\
    forall r', continues zeros r r' -> waiting r' = Some (CRead, 10) /\ readChan (st r') = false.
Proof.
  destruct (sample_run [RRead clock0 10; RReset (mkResetStream 4 7 20 15) 0; RWake false clock0; RCancel 7]) as [r|] eqn:E; [|vm_compute in E; discriminate E].
  exists r. split; [exact (sample_run_reachable _ r E)|].
  assert (Hs : waiting r = Some (CRead, 10) /\ sleeps (st r)) by (vm_compute in E; injection E as <-; repeat split).
  split; [apply Hs|]. intros r' Hc. destruct (asleep_forever zeros 10 r r' (proj1 Hs) (proj2 Hs) Hc) as [? [? _]]. done.
Qed.

(** A [Read] that is woken by a cancellation may turn the next [Read] of the
    cancelled stream into an end of stream, although no frame ended it. *)
Theorem cancelled_read_reports_eof :
  exists r, reachable zeros 4 sample_flow r /\ cancelledLocally (st r) = true /\ eof r = true /\ got r = [].
Proof.
  destruct (sample_run [RRead clock0 10; RCancel 7; RReset (mkResetStream 4 7 0 0) 0; RWake false clock0; RRead clock0 10]) as [r|] eqn:E; [|vm_compute in E; discriminate E].
  exists r. split; [exact (sample_run_reachable _ r E)|]. vm_compute in E. injection E as <-. repeat split.
Qed.

End ReceiveSafety.
