(* ===== verification/StreamTransfer.v ===== *)
(** * A stream from end to end

    The send stream of one endpoint and the receive stream of the other, with a
    network between them that loses, reorders and repeats frames: what is read is
    what was written, and what was acknowledged has arrived.  This composes
    [SendStream] and [ReceiveStream], which compose the frames, the flow controllers
    and the frame sorter. *)

From Stdlib Require Import ZifyBool.
From stdpp Require Import gmap.
From S2P Require Import Prelude GoBytes Varint Wire Frames FlowControl FrameSorter SendStream SendSafety ReceiveStream ReceiveSafety.
Local Open Scope Z_scope.

Module StreamTransfer.
Import Frames.

Section transfer.
Context {F : Type} {SF : SendFlow F} {FL : SendFlowLaws F}.

(** [delivered] are the frames that arrived, in order; [announced] the resets that
    were sent. *)
Record link := mkLink { snd : @SendStream.run F; rcv : ReceiveStream.run; delivered : list StreamFrame; announced : list ResetStreamFrame }.

(** The events of the receiver that are not frames of the peer. *)
Definition inner (e : ReceiveStream.event) : Prop := match e with ReceiveStream.RFrame _ _ _ | ReceiveStream.RReset _ _ => False | _ => True end.

(** A frame is acknowledged only after it arrived, and the peer gets no more credit
    than the receiver granted. *)
Definition honest (l : link) (e : @SendStream.event F) : Prop :=
  match e with
  | SendStream.EAck i => forall f, SendStream.inflight (snd l) !! i = Some f -> f ∈ delivered l
  | SendStream.EWindow n => n <= FlowControl.receiveWindow (ReceiveSafety.fl (ReceiveStream.st (rcv l)))
  | _ => True
  end.

Definition any_byte : Z -> Byte.byte := fun _ => Byte.x00.

(** A step: of the sender, of the receiver, the arrival of a frame that was sent at
    some time, or the arrival of a reset that was sent at some time.  Streams stay
    below the largest offset. *)
Inductive step (l : link) : link -> Prop :=
| step_send e s' :
    SendStream.guard (snd l) e -> honest l e -> SendStream.exec (snd l) e = Ok s' ->
    step l (mkLink s' (rcv l) (delivered l)
              (announced l ++ match e with SendStream.EControl => drop (length (SendStream.resets (snd l))) (SendStream.resets s') | _ => [] end))
| step_receive e r' :
    inner e -> ReceiveStream.guard any_byte (rcv l) e -> ReceiveStream.exec (rcv l) e = Ok r' -> step l (mkLink (snd l) r' (delivered l) (announced l))
| step_deliver f id now r' :
    ReceiveStream.failed (rcv l) = None -> f ∈ SendStream.frames (snd l) -> Offset f + blen (Data f) < MaxByteCount -> id ∉ ReceiveStream.handed (rcv l) ->
    ReceiveStream.exec (rcv l) (ReceiveStream.RFrame f id now) = Ok r' -> step l (mkLink (snd l) r' (delivered l ++ [f]) (announced l))
| step_reset f now r' :
    ReceiveStream.failed (rcv l) = None -> f ∈ announced l -> 0 <= ReliableSize f <= FinalSize f -> FinalSize f < MaxByteCount ->
    ReceiveStream.exec (rcv l) (ReceiveStream.RReset f now) = Ok r' -> step l (mkLink (snd l) r' (delivered l) (announced l)).

Section run.
Context (id : Z) (c : F) (supports : bool) (w mw sw : Z) (conn : FlowControl.baseFlowController).

Definition start_link : link :=
  mkLink (SendStream.start id c supports) (ReceiveStream.start id (FlowControl.NewStreamFlowController w mw sw, conn)) [] [].

Inductive linked : link -> Prop :=
| linked_start : linked start_link
| linked_step l l' : linked l -> step l l' -> linked l'.
End run.

(** ** The sender *)

Local Notation stream := (@SendStream.SendStream F).

(** The controller and the reset stay. *)
Definition quiet (s s' : stream) : Prop := SendStream.flowController s' = SendStream.flowController s /\ SendStream.resetErr s' = SendStream.resetErr s.

Lemma newly_quiet (s s0 s1 : stream) b : SendStream.isNewlyCompleted s0 = (b, s1) -> quiet s s0 -> quiet s s1.
Proof. unfold SendStream.isNewlyCompleted. intros Hn Hq. repeat case_match; by simplify_eq. Qed.

Ltac quiets := repeat case_match; simplify_eq; try done; (eapply newly_quiet; [eassumption|done]).

Lemma write_end_quiet (s s' : stream) plen n w ns : SendStream.write_end s plen n = (s', w, ns) -> quiet s s'.
Proof. unfold SendStream.write_end. intros Hw. quiets. Qed.

Lemma write_iter_quiet (s s' : stream) now plen b w ns : SendStream.write_iter s now plen b = (s', w, ns) -> quiet s s'.
Proof.
  unfold SendStream.write_iter. intros Hw. destruct (_ && _); [by simplify_eq|]. destruct (SendStream.expired s now); [by simplify_eq|].
  destruct (_ || _); [by eapply write_end_quiet|by simplify_eq].
Qed.

Lemma write_quiet (s s' : stream) now now' p w ns : SendStream.write s now now' p = (s', w, ns) -> quiet s s'.
Proof.
  unfold SendStream.write. intros Hw. destruct (SendStream.resetErr s) eqn:E1.
  { destruct (SendStream.isNewlyCompleted _) eqn:E; simplify_eq. eapply newly_quiet; [eassumption|done]. }
  destruct (SendStream.shutdownErr s); [by simplify_eq|]. repeat case_match; simplify_eq; try done. by apply write_iter_quiet in Hw.
Qed.

(** What a step adds: frames and bytes to what was sent, a frame to those
    acknowledged; the limit rises only with the window, and a reset stays. *)
Definition grows (r : @SendStream.run F) (e : @SendStream.event F) (r' : @SendStream.run F) : Prop :=
  (exists fs, SendStream.frames r' = SendStream.frames r ++ fs) /\ (exists d, SendStream.sent r' = SendStream.sent r ++ d) /\
  (SendStream.acked r' = SendStream.acked r \/
     exists i f, e = SendStream.EAck i /\ SendStream.inflight r !! i = Some f /\ SendStream.acked r' = SendStream.acked r ++ [f]) /\
  limit (SendStream.flowController (SendStream.st r')) <= Z.max (limit (SendStream.flowController (SendStream.st r))) (match e with SendStream.EWindow n => n | _ => 0 end) /\
  (SendStream.resetErr (SendStream.st r') = None -> SendStream.resetErr (SendStream.st r) = None).

Lemma quiet_grows r e r' :
  SendStream.frames r' = SendStream.frames r -> SendStream.sent r' = SendStream.sent r ->
  (SendStream.acked r' = SendStream.acked r \/
     exists i f, e = SendStream.EAck i /\ SendStream.inflight r !! i = Some f /\ SendStream.acked r' = SendStream.acked r ++ [f]) ->
  quiet (SendStream.st r) (SendStream.st r') -> grows r e r'.
Proof.
  unfold grows. intros -> -> Ha [Hf Hr]. split; [exists []; by rewrite app_nil_r|]. split; [exists []; by rewrite app_nil_r|]. split; [done|].
  rewrite Hf, Hr. split; [lia|done].
Qed.

Lemma send_grows r e r' : SendSafety.inv r -> SendStream.guard r e -> SendStream.exec r e = Ok r' -> grows r e r'.
Proof.
  intros I Hg He. destruct e as [now now' p|timer now| | |code|code| |n|c|t|e|m| |i|i|i|i]; cbn [SendStream.exec] in He.
  - destruct (SendStream.write _ _ _ _) as [[s w] ns] eqn:E. apply write_quiet in E. injection He as <-. destruct w; (apply quiet_grows; [done|done|by left|done]).
  - destruct (SendStream.writer r) as [p|]; [|by injection He as <-; apply quiet_grows; try done; left].
    destruct (SendStream.wake _ _ _ _) as [[s w] ns] eqn:E. apply write_iter_quiet in E.
    assert (quiet (SendStream.st r) s) by (by destruct timer). injection He as <-. destruct w; (apply quiet_grows; [done|done|by left|done]).
  - destruct (SendStream.Close _) as [[s x] ns] eqn:E. injection He as <-. apply quiet_grows; [done|done|by left|]. unfold SendStream.Close in E. cbn. quiets.
  - injection He as <-. by apply quiet_grows; try done; left.
  - destruct (SendStream.CancelWrite _ _) as [s ns] eqn:E. injection He as <-. unfold SendStream.CancelWrite in E.
    assert (Hs : SendStream.flowController s = SendStream.flowController (SendStream.st r) /\ (SendStream.resetErr s = None -> SendStream.resetErr (SendStream.st r) = None)).
    { destruct (SendStream.is_Some_b (SendStream.shutdownErr _)); [by simplify_eq|]. destruct (SendStream.is_Some_b (SendStream.resetErr _)) eqn:Er.
      - destruct (SendStream.isNewlyCompleted _) as [b s1] eqn:En. simplify_eq. eapply newly_quiet in En as [H1 H2]; [|split; reflexivity]. by rewrite H1, H2.
      - repeat case_match; by simplify_eq. }
    destruct Hs as [H1 H2]. unfold grows. cbn. rewrite H1. split_and!; [exists []; by rewrite app_nil_r|exists []; by rewrite app_nil_r|by left|lia|done].
  - destruct (SendStream.handleStopSendingFrame _ _) as [s ns] eqn:E. injection He as <-. unfold SendStream.handleStopSendingFrame in E.
    assert (Hs : SendStream.flowController s = SendStream.flowController (SendStream.st r) /\ (SendStream.resetErr s = None -> SendStream.resetErr (SendStream.st r) = None)).
    { repeat case_match; by simplify_eq. }
    destruct Hs as [H1 H2]. unfold grows. cbn. rewrite H1. split_and!; [exists []; by rewrite app_nil_r|exists []; by rewrite app_nil_r|by left|lia|done].
  - injection He as <-. by apply quiet_grows; try done; left.
  - unfold SendStream.updateSendWindow in He. pose proof (limit_update (SendStream.flowController (SendStream.st r)) n) as Hl.
    destruct (UpdateSendWindow _ _) as [u c]. injection He as <-. unfold grows. cbn in *.
    split_and!; [exists []; by rewrite app_nil_r|exists []; by rewrite app_nil_r|by left|lia|done].
  - injection He as <-. destruct Hg as [_ Hl]. unfold grows. cbn.
    split_and!; [exists []; by rewrite app_nil_r|exists []; by rewrite app_nil_r|by left|lia|done].
  - injection He as <-. by apply quiet_grows; try done; left.
  - injection He as <-. apply quiet_grows; try done; [by left|]. cbn. unfold SendStream.closeForShutdown. by repeat case_match.
  - destruct (SendStream.pop_stream_spec (SendStream.st r) m (SendSafety.i_pop _ I)) as (f & b & s' & more & Hp & Hc & _); [exact Hg|].
    unfold SendStream.popStreamFrame in He. rewrite Hp in He. cbn in He. injection He as <-. unfold grows. cbn.
    split_and!; [by eexists|by eexists|by left| |]; inversion Hc; subst; cbn; try done; try lia.
  - destruct (SendStream.getControlFrame _) as [f s] eqn:E. injection He as <-. apply quiet_grows; try done; [by left|]. unfold SendStream.getControlFrame in E.
    cbn. repeat case_match; by simplify_eq.
  - destruct (SendStream.inflight r !! i) as [f|] eqn:Ei; [|by injection He as <-; apply quiet_grows; try done; left].
    destruct (SendStream.stream_OnAcked _) as [[s ns]| |] eqn:E; try done. cbn in He. injection He as <-.
    apply quiet_grows; try done; [right; eauto|]. cbn. unfold SendStream.stream_OnAcked, SendStream.outstanding_done in E.
    destruct (_ && _); [by simplify_eq|]. destruct (_ <? 0); [done|]. cbn in E. quiets.
  - destruct (SendStream.inflight r !! i) as [f|] eqn:Ei; [|by injection He as <-; apply quiet_grows; try done; left].
    destruct (SendStream.stream_OnLost _ _) as [[s ns]| |] eqn:E; try done. cbn in He. injection He as <-.
    apply quiet_grows; try done; [by left|]. cbn. unfold SendStream.stream_OnLost, SendStream.outstanding_done in E.
    destruct (_ && _); [by simplify_eq|]. destruct (_ <? 0); [done|]. cbn in E. destruct (_ && _); [|by simplify_eq]. quiets.
  - destruct (SendStream.resets r !! i) as [f|] eqn:Ei; [|by injection He as <-; apply quiet_grows; try done; left].
    destruct (SendStream.reset_OnAcked _ _) as [[s ns]| |] eqn:E; try done. cbn in He. injection He as <-.
    apply quiet_grows; try done; [by left|]. cbn. unfold SendStream.reset_OnAcked, SendStream.outstanding_done in E.
    destruct (negb _); [by simplify_eq|]. destruct (_ <? 0); [done|]. cbn in E. quiets.
  - destruct (SendStream.resets r !! i) as [f|] eqn:Ei; [|by injection He as <-; apply quiet_grows; try done; left].
    destruct (SendStream.reset_OnLost _ _) as [s ns] eqn:E. injection He as <-.
    apply quiet_grows; try done; [by left|]. cbn. unfold SendStream.reset_OnLost in E. repeat case_match; by simplify_eq.
Qed.

(** ** The receiver *)

Local Notation window s := (FlowControl.receiveWindow (ReceiveSafety.fl s)).
Local Notation high s := (FlowControl.highestReceived (ReceiveSafety.fl s)).
Local Notation ended s := (FlowControl.receivedFinalOffset (ReceiveStream.flowController s).1).

(** The window, the largest offset and the knowledge of the end stay. *)
Definition keeps (s s' : ReceiveStream.ReceiveStream) : Prop :=
  window s' = window s /\ high s' = high s /\ ended s' = ended s /\
  (ReceiveStream.cancelledLocally s' = false -> ReceiveStream.cancelledLocally s = false) /\
  ReceiveStream.cancelledRemotely s' = ReceiveStream.cancelledRemotely s.

Lemma abandon_keeps s : keeps s (ReceiveStream.Abandon s).
Proof. done. Qed.

Lemma keeps_trans s1 s2 s3 : keeps s1 s2 -> keeps s2 s3 -> keeps s1 s3.
Proof. unfold keeps. intros (-> & -> & -> & H1 & ->) (-> & -> & -> & H2 & ->). split_and!; auto. Qed.

Lemma newly_keeps s b s' : ReceiveStream.isNewlyCompleted s = (b, s') -> keeps s s'.
Proof. unfold ReceiveStream.isNewlyCompleted. intros Hn. repeat case_match; by simplify_eq. Qed.

Lemma dequeue_keeps s s' calls : ReceiveStream.dequeueNextFrame s = Ok (s', calls) -> keeps s s'.
Proof. unfold ReceiveStream.dequeueNextFrame. destruct (FrameSorter.Pop _) as [[q [[off d] cb]]| |]; cbn; by intros [= <- _]. Qed.

Lemma copy_keeps s room u d s' u' : ReceiveStream.copy_frame s room u = Ok (d, s', u') -> keeps s s'.
Proof.
  unfold ReceiveStream.copy_frame. destruct (go_slice _ _ _) as [rest| |]; [|done|done]. cbn [mbind res_bind]. intros Hc.
  destruct (ReceiveStream.isRemoteCancellationEffective s); cbn in Hc; repeat case_match; by simplify_eq.
Qed.

Lemma next_keeps {A} (b : bool) s (k : ReceiveStream.ReceiveStream * list nat -> res FrameSorter.serr A) y :
  ((if b then ReceiveStream.dequeueNextFrame s else Ok (s, [])) ≫= k) = Ok y -> exists s' calls, keeps s s' /\ k (s', calls) = Ok y.
Proof.
  destruct b; [|intros H; by exists s, []]. destruct (ReceiveStream.dequeueNextFrame s) as [[s' calls]| |] eqn:E; [|done|done].
  apply dequeue_keeps in E. intros H. by exists s', calls.
Qed.

Lemma read_inner_keeps clock plen fuel : forall s u calls acc s' u' calls' w,
  ReceiveStream.read_inner clock plen fuel s u calls acc = Ok (s', u', calls', w) -> keeps s s'.
Proof.
  induction fuel as [|fuel IH]; [done|]. intros s u calls acc s' u' calls' w Hr. cbn [ReceiveStream.read_inner] in Hr.
  destruct (ReceiveStream.closeForShutdownErr s); [by simplify_eq|]. destruct (_ || _); [by simplify_eq|].
  destruct (ReceiveStream.expired _ _); [by simplify_eq|]. destruct (negb _); [by simplify_eq|]. destruct (_ || _); [by simplify_eq|].
  destruct (ReceiveStream.copy_frame _ _ _) as [[[d s1] u1]| |] eqn:Ec; try done. apply copy_keeps in Ec. cbn [mbind res_bind] in Hr.
  destruct (_ && _); [by simplify_eq|]. destruct (plen <=? _).
  { destruct (ReceiveStream.isRemoteCancellationEffective s1); by simplify_eq. }
  apply next_keeps in Hr as (s2 & calls2 & Ed & Hr).
  destruct (_ && _); [simplify_eq; by eapply keeps_trans|]. apply IH in Hr. by do 2 (eapply keeps_trans; [eassumption|]).
Qed.

Lemma read_keeps clock plen s s' u calls w :
  ReceiveStream.readImpl clock plen (ReceiveStream.read_fuel plen) s = Ok (s', u, calls, w) -> keeps s s'.
Proof.
  unfold ReceiveStream.readImpl. intros Hr. destruct (_ && _); [by simplify_eq|]. destruct (_ || _); [by simplify_eq|].
  destruct (ReceiveStream.closeForShutdownErr s); [by simplify_eq|]. destruct (plen <=? 0); [by repeat case_match; simplify_eq|].
  apply next_keeps in Hr as (s2 & calls2 & Ed & Hr).
  apply read_inner_keeps in Hr. by eapply keeps_trans.
Qed.

Lemma read_end_keeps s u calls w s' calls' w' ns :
  ReceiveStream.read_end (s, u, calls, w) = (s', calls', w', ns) -> keeps s s'.
Proof.
  unfold ReceiveStream.read_end. destruct w; [|by intros [= <- _ _ _]]. destruct (ReceiveStream.isNewlyCompleted s) as [b s1] eqn:E. intros [= <- _ _ _]. by apply newly_keeps in E.
Qed.

Lemma peek_iter_keeps s n now s' calls w : ReceiveStream.peek_iter s n now = Ok (s', calls, w) -> keeps s s'.
Proof.
  unfold ReceiveStream.peek_iter. intros Hr. destruct (_ && _); [by simplify_eq|]. destruct (_ || _); [by simplify_eq|].
  destruct (ReceiveStream.closeForShutdownErr s); [by simplify_eq|]. destruct (ReceiveStream.expired s now); [by simplify_eq|].
  apply next_keeps in Hr as (s2 & calls2 & Ed & Hr).
  match type of Hr with (?x ≫= _) = _ => destruct x as [[[d err]|]| |] end; cbn [mbind res_bind] in Hr; repeat case_match; by simplify_eq.
Qed.

Lemma peek_wake_keeps s timer n now s' calls w : ReceiveStream.peek_wake s timer n now = Ok (s', calls, w) -> keeps s s'.
Proof.
  unfold ReceiveStream.peek_wake. intros Hr. apply next_keeps in Hr as (s1 & calls1 & Ed & Hr).
  destruct (ReceiveStream.peek_iter _ _ _) as [[[s2 calls2] w2]| |] eqn:E; try done. apply peek_iter_keeps in E. injection Hr as <- _ _.
  eapply keeps_trans; [|exact E]. by destruct timer.
Qed.

Lemma inner_got r e r' : inner e -> ReceiveStream.exec r e = Ok r' -> ReceiveStream.got r' = ReceiveStream.got r /\ ReceiveStream.failed r' = ReceiveStream.failed r.
Proof.
  intros Hi He. destruct e; try done; cbn [ReceiveStream.exec] in He.
  - destruct (ReceiveStream.Read _ _ _) as [[[[s calls] w] ns]| |]; try done. injection He as <-. by destruct w.
  - destruct (ReceiveStream.Peek _ _ _) as [[[s calls] w]| |]; try done. injection He as <-. by destruct w.
  - destruct (ReceiveStream.waiting r) as [[[] n]|]; [| |by injection He as <-].
    + destruct (ReceiveStream.wake _ _ _ _) as [[[[s calls] w] ns]| |]; try done. injection He as <-. by destruct w.
    + destruct (ReceiveStream.peek_wake _ _ _ _) as [[[s calls] w]| |]; try done. injection He as <-. by destruct w.
  - destruct (ReceiveStream.CancelRead _ _). by injection He as <-.
  - destruct (ReceiveStream.getControlFrame _ _ _ _) as [[[x y] s]| |]; try done. by injection He as <-.
  - by injection He as <-.
  - by injection He as <-.
  - by injection He as <-.
Qed.

(** What an inner event does to the controller. *)
Lemma inner_flow r e r' :
  FlowControl.sound (ReceiveSafety.fl (ReceiveStream.st r)) -> FlowControl.sound (ReceiveStream.flowController (ReceiveStream.st r)).2 ->
  inner e -> ReceiveStream.exec r e = Ok r' ->
  window (ReceiveStream.st r) <= window (ReceiveStream.st r') /\ high (ReceiveStream.st r') = high (ReceiveStream.st r) /\
  ended (ReceiveStream.st r') = ended (ReceiveStream.st r) /\
  (ReceiveStream.cancelledLocally (ReceiveStream.st r') = false -> ReceiveStream.cancelledLocally (ReceiveStream.st r) = false) /\
  ReceiveStream.cancelledRemotely (ReceiveStream.st r') = ReceiveStream.cancelledRemotely (ReceiveStream.st r).
Proof.
  intros Hs Hc Hi He.
  match goal with |- ?P => assert (Hk : keeps (ReceiveStream.st r) (ReceiveStream.st r') -> P) by (intros (-> & -> & -> & ? & ->); split_and!; [lia|done|done|done|done]) end.
  destruct e as [clock n|now n|timer clock|code|f id now|f now|rtt allow now|t|e|c]; try done; cbn [ReceiveStream.exec] in He.
  - unfold ReceiveStream.Read in He. destruct (ReceiveStream.readImpl _ _ _ _) as [[[[s u] calls] w]| |] eqn:E; try done. apply read_keeps in E. cbn [mbind res_bind] in He.
    destruct (ReceiveStream.read_end _) as [[[s2 calls2] w2] ns] eqn:Ee. apply read_end_keeps in Ee. injection He as <-. apply Hk.
    destruct w2; cbn; by eapply keeps_trans.
  - unfold ReceiveStream.Peek in He. destruct (n =? 0); [injection He as <-; by apply Hk|].
    destruct (ReceiveStream.peek_iter _ _ _) as [[[s calls] w]| |] eqn:E; try done. apply peek_iter_keeps in E. injection He as <-. apply Hk. by destruct w.
  - destruct (ReceiveStream.waiting r) as [[[] n]|]; [| |injection He as <-; by apply Hk].
    + unfold ReceiveStream.wake, ReceiveStream.wakeImpl in He.
      destruct (ReceiveStream.dequeueNextFrame _) as [[s1 calls1]| |] eqn:Ed; try done. apply dequeue_keeps in Ed. cbn [mbind res_bind] in He.
      destruct (ReceiveStream.read_inner _ _ _ _ _ _ _) as [[[[s u] calls] w]| |] eqn:E; try done. apply read_inner_keeps in E. cbn [mbind res_bind] in He.
      destruct (ReceiveStream.read_end _) as [[[s2 calls2] w2] ns] eqn:Ee. apply read_end_keeps in Ee. injection He as <-. apply Hk.
      assert (keeps (ReceiveStream.st r) s2) by (do 2 (eapply keeps_trans; [|eassumption]); by destruct timer). by destruct w2.
    + destruct (ReceiveStream.peek_wake _ _ _ _) as [[[s calls] w]| |] eqn:E; try done. apply peek_wake_keeps in E. injection He as <-. apply Hk. by destruct w.
  - destruct (ReceiveStream.CancelRead _ _) as [s ns] eqn:E. injection He as <-. apply Hk. cbn. unfold ReceiveStream.CancelRead in E.
    destruct (ReceiveStream.cancelReadImpl _ _) as [q s1] eqn:Ec. destruct (ReceiveStream.isNewlyCompleted s1) as [b s2] eqn:En. apply newly_keeps in En.
    assert (keeps (ReceiveStream.st r) s1) by (unfold ReceiveStream.cancelReadImpl in Ec; repeat case_match; by simplify_eq).
    injection E as <- _. destruct b; [change (keeps (ReceiveStream.st r) s2)|]; by eapply keeps_trans.
  - unfold ReceiveStream.getControlFrame in He. destruct (negb _ && _); [injection He as <-; by apply Hk|].
    destruct (ReceiveStream.queuedStopSending _); [destruct (ReceiveStream.cancelErr _); [injection He as <-; by apply Hk|done]|].
    destruct (FlowControl.stream_update_spec rtt allow (ReceiveStream.flowController (ReceiveStream.st r)).1 (ReceiveStream.flowController (ReceiveStream.st r)).2 now Hs Hc) as ((_ & Hgr) & _ & Hsame & _).
    assert (Hrf : FlowControl.receivedFinalOffset (FlowControl.GetWindowUpdate rtt allow (ReceiveStream.flowController (ReceiveStream.st r)).1 (ReceiveStream.flowController (ReceiveStream.st r)).2 now).1.2 =
                  FlowControl.receivedFinalOffset (ReceiveStream.flowController (ReceiveStream.st r)).1).
    { unfold FlowControl.GetWindowUpdate. destruct (FlowControl.receivedFinalOffset (ReceiveStream.flowController (ReceiveStream.st r)).1) eqn:E; [exact E|]. by destruct (FlowControl.getWindowUpdate _ _ _ _). }
    destruct (FlowControl.GetWindowUpdate _ _ _ _ _) as [[off fs] conn]. cbn in He. injection He as <-. cbn in *. split_and!; [apply Hgr|apply Hsame|done|done|done].
  - injection He as <-. by apply Hk.
  - injection He as <-. by apply Hk.
  - injection He as <-. by apply Hk.
Qed.

Lemma update_flow s c off fin now fs conn err :
  FlowControl.UpdateHighestReceived s c off fin now = (fs, conn, err) ->
  let h := FlowControl.highestReceived (FlowControl.fc s) in
  let h' := FlowControl.highestReceived (FlowControl.fc fs) in
  FlowControl.receiveWindow (FlowControl.fc fs) = FlowControl.receiveWindow (FlowControl.fc s) /\ h' <= Z.max h off /\
  (FlowControl.receivedFinalOffset fs = true ->
     (FlowControl.receivedFinalOffset s = true /\ h' = h) \/ (fin = true /\ h' = Z.max h off)) /\
  (off <= FlowControl.receiveWindow (FlowControl.fc s) -> (FlowControl.receivedFinalOffset s = true -> off <= h /\ (fin = true -> off = h)) ->
   (fin = true -> h <= off) -> err = None \/ err = Some FlowControl.errConnFlow).
Proof.
  intros Hu. pose proof (FlowControl.receive_window_same _ _ _ _ _ _ _ _ Hu) as [Hw _]. cbv zeta. split; [done|]. clear Hw.
  unfold FlowControl.UpdateHighestReceived, FlowControl.IncrementHighestReceived, FlowControl.checkFlowControlViolation in Hu.
  destruct (FlowControl.receivedFinalOffset s) eqn:Er, fin; cbn [andb orb] in Hu; repeat case_match; simplify_eq; cbn in *; rewrite ?Er; split_and!; try lia; intros; try (by left); try (by right); try lia.
Qed.

(** The errors that do not blame the sender of this stream: the connection's window,
    which all streams share, and the limit on the gaps between frames. *)
Definition blameless (e : option ReceiveStream.herr) : Prop :=
  e = None \/ e = Some (ReceiveStream.errFlow FlowControl.errConnFlow) \/ exists x, e = Some (ReceiveStream.errSorter x).

Lemma deliver_flow r f id now r' :
  ReceiveStream.exec r (ReceiveStream.RFrame f id now) = Ok r' ->
  let s := ReceiveStream.st r in let s' := ReceiveStream.st r' in let n := Offset f + blen (Data f) in
  window s' = window s /\ high s' <= Z.max (high s) n /\
  (ended s' = true -> (ended s = true /\ high s' = high s) \/ (Fin f = true /\ high s' = Z.max (high s) n)) /\
  (n <= window s -> (ended s = true -> n <= high s /\ (Fin f = true -> n = high s)) -> (Fin f = true -> high s <= n) -> blameless (ReceiveStream.failed r')) /\
  ReceiveStream.got r' = (if ReceiveStream.cancelledLocally s then ReceiveStream.got r else ReceiveStream.got r ++ [f]) /\
  ReceiveStream.cancelledLocally s' = ReceiveStream.cancelledLocally s /\ ReceiveStream.cancelledRemotely s' = ReceiveStream.cancelledRemotely s.
Proof.
  cbn [ReceiveStream.exec]. unfold ReceiveStream.handleStreamFrame. intros He. cbv zeta.
  destruct (ReceiveStream.handleStreamFrameImpl _ _ _ _) as [[[s1 calls] err]| |] eqn:Ei; try done. cbn [mbind res_bind] in He.
  destruct (ReceiveStream.isNewlyCompleted s1) as [b s2] eqn:En.
  assert (Hk : keeps s1 (if b then ReceiveStream.Abandon s2 else s2)) by (apply newly_keeps in En; by destruct b).
  assert (Hl : ReceiveStream.cancelledLocally (if b then ReceiveStream.Abandon s2 else s2) = ReceiveStream.cancelledLocally s1).
  { clear -En. unfold ReceiveStream.isNewlyCompleted in En. repeat case_match; by simplify_eq. }
  injection He as <-. cbn [ReceiveStream.st ReceiveStream.failed ReceiveStream.got ReceiveStream.update]. rewrite Hl. destruct Hk as (-> & -> & -> & _ & ->). clear Hl En s2 b.
  unfold ReceiveStream.handleStreamFrameImpl in Ei. destruct (FlowControl.UpdateHighestReceived _ _ _ _ _) as [[fs conn] e] eqn:Eu.
  pose proof (update_flow _ _ _ _ _ _ _ _ Eu) as (Hw & Hh & Hf & He). cbv zeta in *.
  assert (Hs1 : ReceiveStream.flowController s1 = (fs, conn) /\ ReceiveStream.cancelledLocally s1 = ReceiveStream.cancelledLocally (ReceiveStream.st r) /\
    ReceiveStream.cancelledRemotely s1 = ReceiveStream.cancelledRemotely (ReceiveStream.st r) /\
    (blameless (option_map ReceiveStream.errFlow e) -> blameless err)).
  { destruct e as [e|]; [by simplify_eq|].
    set (s0 := if Fin f then _ else _) in Ei.
    assert (Hs0 : ReceiveStream.flowController s0 = (fs, conn) /\ ReceiveStream.cancelledLocally s0 = ReceiveStream.cancelledLocally (ReceiveStream.st r) /\
      ReceiveStream.cancelledRemotely s0 = ReceiveStream.cancelledRemotely (ReceiveStream.st r)) by (unfold s0; by destruct (Fin f)).
    clearbody s0. destruct Hs0 as (C1 & C2 & C3). destruct (ReceiveStream.cancelledLocally s0) eqn:E0; [injection Ei as <- <- <-; split_and!; [done|congruence|done|done]|].
    destruct (FrameSorter.Push _ _ _ _) as [[[q calls'] e]| |]; try done. cbn [mbind res_bind] in Ei.
    destruct e; injection Ei as <- <- <-; (split_and!; [done|cbn; congruence|done|]); intros _; [right; right; eauto|by left]. }
  destruct Hs1 as (Hc & Hl & Hrm & Hb). unfold ReceiveSafety.fl. rewrite Hc. cbn [fst]. split_and!; try done.
  - intros H1 H2 H3. apply Hb. destruct (He H1 H2 H3) as [-> | ->]; [by left|by right; left].
  - by destruct (ReceiveStream.cancelledLocally (ReceiveStream.st r)).
Qed.

Lemma reset_window r f now r' :
  ReceiveStream.exec r (ReceiveStream.RReset f now) = Ok r' ->
  window (ReceiveStream.st r') = window (ReceiveStream.st r) /\ ReceiveStream.got r' = ReceiveStream.got r /\
  ReceiveStream.cancelledLocally (ReceiveStream.st r') = ReceiveStream.cancelledLocally (ReceiveStream.st r).
Proof.
  cbn [ReceiveStream.exec]. unfold ReceiveStream.handleResetStreamFrame. intros He.
  destruct (ReceiveStream.handleResetStreamFrameImpl _ _ _) as [s1 err] eqn:Ei. destruct (ReceiveStream.isNewlyCompleted s1) as [b s2] eqn:En.
  injection He as <-. cbn.
  assert (Hk : keeps s1 s2 /\ ReceiveStream.cancelledLocally s2 = ReceiveStream.cancelledLocally s1).
  { split; [by apply newly_keeps in En|]. clear -En. unfold ReceiveStream.isNewlyCompleted in En. repeat case_match; by simplify_eq. }
  destruct Hk as [(-> & _) ->]. unfold ReceiveStream.handleResetStreamFrameImpl in Ei. destruct (ReceiveStream.is_Some_b _); [by simplify_eq|].
  destruct (FlowControl.UpdateHighestReceived _ _ _ _ _) as [[fs conn] e] eqn:Eu. pose proof (update_flow _ _ _ _ _ _ _ _ Eu) as (Hw & _).
  destruct e; [by simplify_eq|]. set (s0 := if (_ || _) then _ else _) in Ei. assert (Hs0 : window s0 = window (ReceiveStream.st r) /\ ReceiveStream.cancelledLocally s0 = ReceiveStream.cancelledLocally (ReceiveStream.st r)) by (unfold s0; by destruct (_ || _)).
  clearbody s0. destruct Hs0 as [H1 H2]. set (s3 := if (_ <=? _) then _ else _) in Ei. assert (Hs3 : window s3 = window s0 /\ ReceiveStream.cancelledLocally s3 = ReceiveStream.cancelledLocally s0) by (unfold s3; by destruct (_ <=? _)).
  clearbody s3. destruct Hs3 as [H3 H4]. rewrite <- H1, <- H2, <- H3, <- H4. repeat case_match; by simplify_eq.
Qed.

(** ** The invariant *)

Section run.
Context (id : Z) (c : F) (supports : bool) (w mw sw : Z) (conn : FlowControl.baseFlowController).
Hypothesis Hid : Varint.vrange id.
Hypothesis Hused : used c = 0.
Hypothesis Hlimit : 0 <= limit c <= MaxByteCount.
Hypothesis Hgrant : limit c <= w.
Hypothesis Hw : 0 <= w <= mw.
Hypothesis Hsw : 0 <= sw.
Hypothesis Hconn : FlowControl.sound conn.

Local Notation flow := (FlowControl.NewStreamFlowController w mw sw, conn).

Record ok (l : link) : Prop := mkOk {
  l_snd : SendSafety.inv (snd l);
  l_rcv : forall str, FrameSorter.agrees str 0 (SendStream.sent (snd l)) -> ReceiveStream.reachable str id flow (rcv l);
  l_delivered : forall f, f ∈ delivered l -> f ∈ SendStream.frames (snd l);
  l_got : forall f, f ∈ ReceiveStream.got (rcv l) -> f ∈ delivered l;
  l_all : ReceiveStream.cancelledLocally (ReceiveStream.st (rcv l)) = false -> ReceiveStream.got (rcv l) = delivered l;
  l_acked : forall f, f ∈ SendStream.acked (snd l) -> f ∈ delivered l;
  l_announced : SendStream.resetErr (SendStream.st (snd l)) = None -> announced l = [];
  l_remote : announced l = [] -> ReceiveStream.cancelledRemotely (ReceiveStream.st (rcv l)) = false;
  l_limit : limit (SendStream.flowController (SendStream.st (snd l))) <= window (ReceiveStream.st (rcv l));
  l_high : SendStream.resetErr (SendStream.st (snd l)) = None -> high (ReceiveStream.st (rcv l)) <= blen (SendStream.sent (snd l));
  l_final : SendStream.resetErr (SendStream.st (snd l)) = None -> ended (ReceiveStream.st (rcv l)) = true ->
    exists f, f ∈ SendStream.frames (snd l) /\ Fin f = true /\ high (ReceiveStream.st (rcv l)) = Offset f + blen (Data f);
  l_failed : SendStream.resetErr (SendStream.st (snd l)) = None -> blameless (ReceiveStream.failed (rcv l)) }.

Lemma start_link_ok : ok (start_link id c supports w mw sw conn).
Proof.
  split; cbn; try done; try (by intros f ?%elem_of_nil).
  - by apply SendSafety.start_inv.
  - intros str _. apply ReceiveStream.reach_start.
  - by left.
Qed.

(** The bytes of a list, as a stream. *)
Definition as_stream (d : bytes) : Z -> Byte.byte := fun x => default Byte.x00 (d !! Z.to_nat x).

Lemma agrees_as_stream d : FrameSorter.agrees (as_stream d) 0 d.
Proof. intros i b Hi. unfold as_stream. rewrite Z.add_0_l, Nat2Z.id. by rewrite Hi. Qed.

Lemma rcv_inv l : ok l -> ReceiveStream.failed (rcv l) = None ->
  exists str, FrameSorter.agrees str 0 (SendStream.sent (snd l)) /\ ReceiveSafety.inv str (rcv l).
Proof.
  intros [] Hf. exists (as_stream (SendStream.sent (snd l))). pose proof (agrees_as_stream (SendStream.sent (snd l))) as Ha. split; [done|].
  by apply (ReceiveSafety.receive_reachable_inv _ id flow); [apply ReceiveSafety.new_stream_flow|..|by apply l_rcv0|].
Qed.

Lemma guard_inner str str' r e : inner e -> ReceiveStream.guard str r e -> ReceiveStream.guard str' r e.
Proof. by destruct e. Qed.

(** The bytes of a frame are those of any stream that begins with what was sent. *)
Lemma piece_agrees str (d : bytes) f :
  FrameSorter.agrees str 0 d -> SendSafety.piece d (Offset f) (Data f) -> FrameSorter.agrees str (Offset f) (Data f).
Proof.
  intros Ha (H0 & Hb & Hd) i b Hi. rewrite <- Hd in Hi. apply lookup_take_Some in Hi as [Hi _]. rewrite lookup_drop in Hi. apply Ha in Hi. rewrite <- Hi. f_equal. lia.
Qed.

Lemma send_step l e s' :
  ok l -> SendStream.guard (snd l) e -> honest l e -> SendStream.exec (snd l) e = Ok s' ->
  ok (mkLink s' (rcv l) (delivered l) (announced l ++ match e with SendStream.EControl => drop (length (SendStream.resets (snd l))) (SendStream.resets s') | _ => [] end)).
Proof.
  intros O Hg Hh He. destruct (SendSafety.send_exec_inv _ _ (l_snd _ O) Hg) as (s1 & Hs1 & I'). rewrite He in Hs1. injection Hs1 as <-.
  destruct (send_grows _ _ _ (l_snd _ O) Hg He) as ([fs Hfs] & [d Hd] & Hack & Hlim & Hre). pose proof (l_snd _ O) as I. destruct O. split; cbn; try done.
  - intros str Ha. apply l_rcv0. intros i b Hi. apply Ha. rewrite Hd. by apply lookup_app_l_Some.
  - intros f Hf. rewrite Hfs, elem_of_app. auto.
  - intros f Hf. destruct Hack as [Hack|(i & g & -> & Hi & Hack)]; rewrite Hack in Hf; [auto|]. apply elem_of_app in Hf as [?|Hf]; [auto|].
    apply list_elem_of_singleton in Hf as ->. by apply Hh.
  - intros Hn. rewrite l_announced0 by auto. destruct (SendSafety.i_noreset _ I' Hn) as [-> _]. destruct e; try done. by rewrite drop_nil.
  - intros Hn. apply l_remote0. by apply app_nil in Hn as [? _].
  - pose proof (SendStream.po_off _ (SendSafety.i_pop _ I)). pose proof (SendStream.po_limit _ (SendSafety.i_pop _ I)).
    destruct e; cbn in Hh; lia.
  - intros Hn. rewrite Hd, blen_app. specialize (l_high0 (Hre Hn)). pose proof (blen_nonneg d). lia.
  - intros Hn Hen. destruct (l_final0 (Hre Hn) Hen) as (f & ? & ?). exists f. rewrite Hfs, elem_of_app. auto.
  - auto.
Qed.

Lemma receive_step l e r' :
  ok l -> inner e -> ReceiveStream.guard any_byte (rcv l) e -> ReceiveStream.exec (rcv l) e = Ok r' -> ok (mkLink (snd l) r' (delivered l) (announced l)).
Proof.
  intros O Hi Hg He. destruct (rcv_inv l O (proj1 Hg)) as (str & _ & I). pose proof (ReceiveSafety.v_fc _ _ _ _ _ (ReceiveSafety.i_ok _ _ I)) as [Hs Hc _].
  destruct (inner_flow _ _ _ Hs Hc Hi He) as (Hwin & Hhi & Hen & Hlo & Hrm). destruct (inner_got _ _ _ Hi He) as [Hgot Hf]. destruct O.
  split; cbn; rewrite ?Hgot, ?Hhi, ?Hen, ?Hf, ?Hrm; auto; [|lia].
  intros str' Ha. eapply ReceiveStream.reach_step; [by apply l_rcv0|by eapply guard_inner|done].
Qed.

Lemma deliver_step l f i now r' :
  ok l -> ReceiveStream.failed (rcv l) = None -> f ∈ SendStream.frames (snd l) -> Offset f + blen (Data f) < MaxByteCount -> i ∉ ReceiveStream.handed (rcv l) ->
  ReceiveStream.exec (rcv l) (ReceiveStream.RFrame f i now) = Ok r' -> ok (mkLink (snd l) r' (delivered l ++ [f]) (announced l)).
Proof.
  intros O Hf Hin Hm Hid' He. destruct (deliver_flow _ _ _ _ _ He) as (Hwin & Hhi & Hen & Hbl & Hgot & Hlo & Hrm). cbv zeta in *.
  pose proof (SendSafety.i_frames _ (l_snd _ O)) as Hfr. rewrite Forall_forall in Hfr.
  destruct (Hfr f) as (_ & _ & Hp); [rewrite !elem_of_app; auto|]. pose proof Hp as (Hp0 & Hp1 & _).
  pose proof (SendSafety.i_sent _ (l_snd _ O)) as Hsent. pose proof (SendStream.po_limit _ (SendSafety.i_pop _ (l_snd _ O))) as Hlim.
  assert (Hfin : SendStream.resetErr (SendStream.st (snd l)) = None -> forall g, g ∈ SendStream.frames (snd l) -> Fin g = true -> Offset g + blen (Data g) = blen (SendStream.sent (snd l))).
  { intros Hn g Hg HF. rewrite Hsent. apply (SendSafety.i_fin _ (l_snd _ O) Hn g); [rewrite !elem_of_app; auto|done]. }
  destruct O. split; cbn; rewrite ?Hwin, ?Hlo, ?Hgot, ?Hrm; try done.
  - intros str Ha. eapply ReceiveStream.reach_step; [by apply l_rcv0| |done]. split; [done|]. split_and!; [done|done|by eapply piece_agrees|done].
  - intros g Hg. apply elem_of_app in Hg as [?|Hg]; [auto|]. by apply list_elem_of_singleton in Hg as ->.
  - intros g Hg. rewrite elem_of_app. destruct (ReceiveStream.cancelledLocally _); [auto|]. apply elem_of_app in Hg as [?|?]; auto.
  - intros Hl. rewrite Hl. rewrite l_all0; done.
  - intros g Hg. rewrite elem_of_app. auto.
  - intros Hn. specialize (l_high0 Hn). llia.
  - intros Hn He'. destruct (Hen He') as [[Hen' ->]|[HF ->]]; [auto|]. exists f. split_and!; [done|done|]. specialize (l_high0 Hn). rewrite (Hfin Hn f) by done. llia.
  - intros Hn. specialize (l_high0 Hn). apply Hbl.
    + llia.
    + intros He'. destruct (l_final0 Hn He') as (g & Hg & HF & ->). rewrite (Hfin Hn g) by done. split; [done|]. intros HF'. by apply Hfin.
    + intros HF. rewrite (Hfin Hn f) by done. done.
Qed.

Lemma reset_step l f now r' :
  ok l -> ReceiveStream.failed (rcv l) = None -> f ∈ announced l -> 0 <= ReliableSize f <= FinalSize f -> FinalSize f < MaxByteCount ->
  ReceiveStream.exec (rcv l) (ReceiveStream.RReset f now) = Ok r' -> ok (mkLink (snd l) r' (delivered l) (announced l)).
Proof.
  intros O Hf Hin Hs Hm He. destruct (reset_window _ _ _ _ He) as (Hwin & Hgot & Hlo).
  assert (Hre : SendStream.resetErr (SendStream.st (snd l)) <> None). { intros Hn. rewrite (l_announced _ O Hn) in Hin. by apply elem_of_nil in Hin. }
  destruct O. split; cbn; rewrite ?Hwin, ?Hgot, ?Hlo; try done.
  - intros str Ha. eapply ReceiveStream.reach_step; [by apply l_rcv0| |exact He]. by split.
  - intros Hn. rewrite Hn in Hin. by apply elem_of_nil in Hin.
Qed.

Lemma linked_ok l : linked id c supports w mw sw conn l -> ok l.
Proof.
  induction 1 as [|l l' _ IH Hs]; [apply start_link_ok|]. destruct Hs.
  - by apply send_step.
  - by eapply receive_step.
  - by eapply deliver_step.
  - by eapply reset_step.
Qed.

(** ** What the transfer guarantees *)

Context (l : link).
Hypothesis Hl : linked id c supports w mw sw conn l.

Lemma stream_take (d : bytes) n : (n <= length d)%nat -> FrameSorter.stream (as_stream d) 0 n = take n d.
Proof.
  intros Hn. pose proof (agrees_as_stream d) as Ha. apply FrameSorter.agrees_stream in Ha. rewrite Ha at 2.
  replace (length d) with (n + (length d - n))%nat by lia. rewrite FrameSorter.stream_app, take_app_length' by (by rewrite FrameSorter.length_stream). done.
Qed.

Lemma got_sent f : f ∈ ReceiveStream.got (rcv l) -> f ∈ SendStream.frames (snd l) /\ Offset f + blen (Data f) <= blen (SendStream.sent (snd l)).
Proof.
  pose proof (linked_ok l Hl) as O. intros Hf%(l_got _ O)%(l_delivered _ O). split; [done|].
  pose proof (SendSafety.i_frames _ (l_snd _ O)) as Hfr. rewrite Forall_forall in Hfr. destruct (Hfr f) as (_ & _ & ? & ? & _); [rewrite !elem_of_app; auto|done].
Qed.

(** The bytes read are the first that were sent. *)
Lemma read_sent :
  ReceiveStream.failed (rcv l) = None -> ReceiveStream.out (rcv l) = take (length (ReceiveStream.out (rcv l))) (SendStream.sent (snd l)) /\
  (length (ReceiveStream.out (rcv l)) <= length (SendStream.sent (snd l)))%nat.
Proof.
  intros Hf. pose proof (linked_ok l Hl) as O. pose proof (l_rcv _ O _ (agrees_as_stream _)) as Hr.
  assert (Hlen : (length (ReceiveStream.out (rcv l)) <= length (SendStream.sent (snd l)))%nat).
  { destruct (decide (length (ReceiveStream.out (rcv l)) <= length (SendStream.sent (snd l)))%nat); [done|]. exfalso.
    destruct (ReceiveSafety.read_covered _ id w mw sw conn _ Hw Hsw Hconn Hr Hf (blen (SendStream.sent (snd l)))) as (f & Hg & Hx); [unfold blen; lia|].
    destruct (got_sent f Hg). lia. }
  split; [|done]. rewrite <- stream_take by done.
  pose proof (ReceiveSafety.receive_reached _ id w mw sw conn _ Hw Hsw Hconn Hr Hf) as I. destruct (ReceiveSafety.v_out _ _ _ _ _ (ReceiveSafety.i_ok _ _ I)) as [Ho Hp].
  rewrite Ho at 1. f_equal. apply (f_equal length) in Ho. by rewrite FrameSorter.length_stream in Ho.
Qed.

(** C1: a stream delivers what was written.  Over a network that loses, reorders and
    repeats frames, as long as the receiver has not failed the connection, what the
    reader has read is a beginning of what the writer wrote; and when the reader
    reaches the end of a stream that it did not cancel and that the sender neither reset
    nor shut down, the writer closed it and everything written was read.  Frames are
    acknowledged only after they arrived, the sender gets the credit the receiver
    granted, offsets stay below the largest one, and the reliable boundary of a reset stream is not moved. *)
Theorem stream_transfer_correct :
  ReceiveStream.failed (rcv l) = None ->
  ReceiveStream.out (rcv l) `prefix_of` SendStream.app (snd l) ++ SendSafety.cur (snd l) /\
  (ReceiveStream.eof (rcv l) = true -> ReceiveStream.cancelledLocally (ReceiveStream.st (rcv l)) = false ->
   SendStream.resetErr (SendStream.st (snd l)) = None -> SendStream.shutdownErr (SendStream.st (snd l)) = None ->
   SendStream.finishedWriting (SendStream.st (snd l)) = true /\ ReceiveStream.out (rcv l) = SendStream.app (snd l)).
Proof.
  intros Hf. pose proof (linked_ok l Hl) as O. destruct (read_sent Hf) as [Ho Hlen]. split.
  - transitivity (SendStream.sent (snd l)); [|apply SendSafety.sent_prefix, O]. rewrite Ho. apply prefix_take.
  - intros He Hlo Hre Hs. pose proof (l_rcv _ O _ (agrees_as_stream _)) as Hr. pose proof (ReceiveSafety.receive_reached _ id w mw sw conn _ Hw Hsw Hconn Hr Hf) as I.
    destruct (ReceiveSafety.i_eof _ _ I He) as [H1 H2]. destruct (ReceiveSafety.i_last _ _ I H1) as [?|(f & Hg & HF & Hend)]; [unfold ReceiveSafety.local in *; congruence|].
    destruct (SendSafety.finished_frames _ f (l_snd _ O) Hre Hs (proj1 (got_sent f Hg)) HF) as (Hfw & Hsent & Hlen'). split; [done|].
    pose proof (ReceiveSafety.i_ok _ _ I) as K. destruct (ReceiveSafety.out_pos _ id w mw sw conn _ Hw Hsw Hconn Hr Hf) as [Hpos _].
    rewrite (ReceiveSafety.v_noframe _ _ _ _ _ K H2), (proj2 (ReceiveSafety.v_last _ _ _ _ _ K H1)) in Hpos.
    rewrite Ho, Hsent, take_ge; [done|]. unfold blen in *. lia.
Qed.

(** C6: completion means delivery.  When the sender considers a stream complete that it
    neither reset nor shut down, that the receiver did not cancel and on which the
    receiver has not failed the connection, every byte written and the end have
    arrived, so that no later [Read] waits.  The conditions on the network and the
    peers are those of the previous theorem. *)
Theorem stream_transfer_complete :
  ReceiveStream.failed (rcv l) = None -> ReceiveStream.cancelledLocally (ReceiveStream.st (rcv l)) = false ->
  SendStream.completed (SendStream.st (snd l)) = true -> SendStream.resetErr (SendStream.st (snd l)) = None -> SendStream.shutdownErr (SendStream.st (snd l)) = None ->
  (forall x, 0 <= x < blen (SendStream.app (snd l)) -> ReceiveSafety.covered (ReceiveStream.got (rcv l)) x) /\
  ReceiveStream.finalOffset (ReceiveStream.st (rcv l)) = blen (SendStream.app (snd l)) /\
  forall clock n, exists s' calls d err ns, ReceiveStream.Read (ReceiveStream.st (rcv l)) clock n = Ok (s', calls, ReceiveStream.RReturn d err, ns).
Proof.
  intros Hf Hlo Hc Hre Hs. pose proof (linked_ok l Hl) as O. pose proof (l_rcv _ O _ (agrees_as_stream _)) as Hr.
  pose proof (ReceiveSafety.receive_reached _ id w mw sw conn _ Hw Hsw Hconn Hr Hf) as I. pose proof (ReceiveSafety.i_ok _ _ I) as K.
  destruct (SendSafety.completed_acked _ (l_snd _ O) Hc Hre Hs) as [Hcov (f & Hfa & HF & Hend)].
  assert (Hg : forall g, g ∈ SendStream.acked (snd l) -> g ∈ ReceiveStream.got (rcv l)) by (intros g Hga%(l_acked _ O); by rewrite (l_all _ O Hlo)).
  assert (Hcov' : forall x, 0 <= x < blen (SendStream.app (snd l)) -> ReceiveSafety.covered (ReceiveStream.got (rcv l)) x).
  { intros x Hx. destruct (Hcov x Hx) as (g & Hga & Hx'). exists g. auto. }
  assert (Hfo : ReceiveStream.finalOffset (ReceiveStream.st (rcv l)) = blen (SendStream.app (snd l))) by (rewrite <- Hend; symmetry; apply (ReceiveSafety.i_ends _ _ I f); auto).
  split; [done|]. split; [done|]. intros clock n.
  destruct (ReceiveSafety.readImpl_ok _ clock n _ _ _ _ K) as (s' & u & calls & r & Hread & Hsame & Hw' & _). unfold ReceiveStream.Read. rewrite Hread. cbn [mbind res_bind].
  destruct r as [d err|]; cbn [ReceiveStream.read_end]; [destruct (ReceiveStream.isNewlyCompleted s'); eauto 10|]. exfalso.
  destruct Hw' as [K' (H1 & H2 & H3 & H4 & _)]. unfold ReceiveSafety.missing in H3.
  rewrite (ReceiveSafety.sm_gaps _ _ Hsame) in H3. rewrite (ReceiveSafety.sm_final _ _ Hsame), (ReceiveSafety.sm_remote _ _ Hsame), Hfo, (l_remote _ O (l_announced _ O Hre)), andb_true_r in H4.
  pose proof (ReceiveSafety.qpos_final _ _ _ _ _ K') as Hq. rewrite (ReceiveSafety.sm_final _ _ Hsame), Hfo in Hq. rewrite (ReceiveSafety.v_noframe _ _ _ _ _ K' H1) in *.
  destruct (ReceiveSafety.v_out _ _ _ _ _ K') as [_ Hp]. rewrite (ReceiveSafety.v_noframe _ _ _ _ _ K' H1) in Hp.
  assert (Hb : blen (SendStream.app (snd l)) < MaxByteCount).
  { rewrite <- Hfo. apply (ReceiveSafety.known_high _ _ _ _ _ K). unfold ReceiveSafety.known. rewrite Hfo, <- Hend.
    pose proof (ReceiveSafety.i_fits _ _ I) as Hfi. rewrite Forall_forall in Hfi. destruct (Hfi f (Hg f Hfa)) as (_ & ? & _). lia. }
  apply (ReceiveSafety.i_got _ _ I) in H3; [|lia]. apply H3, Hcov'. lia.
Qed.

(** C27: no blame.  As long as the sender does not reset the stream, what it sends
    never violates the stream's flow control nor its final size: the receiver fails
    only for the window of the connection or for the number of gaps. *)
Theorem stream_transfer_blameless :
  SendStream.resetErr (SendStream.st (snd l)) = None -> blameless (ReceiveStream.failed (rcv l)).
Proof. apply (linked_ok l Hl). Qed.

End run.

(** ** Runs, checked *)

Inductive move := MSend (e : @SendStream.event F) | MReceive (e : ReceiveStream.event) | MDeliver (i id : nat).

#[local] Instance frame_eq_dec : EqDecision StreamFrame.
Proof. solve_decision. Defined.

Definition honest_b (l : link) (e : @SendStream.event F) : bool :=
  match e with
  | SendStream.EAck i => match SendStream.inflight (snd l) !! i with Some f => bool_decide (f ∈ delivered l) | None => true end
  | SendStream.EWindow n => n <=? window (ReceiveStream.st (rcv l))
  | _ => true
  end.

Definition inner_b (e : ReceiveStream.event) : bool := match e with ReceiveStream.RFrame _ _ _ | ReceiveStream.RReset _ _ => false | _ => true end.

Definition play (l : link) (m : move) : option link :=
  match m with
  | MSend e =>
      if SendSafety.guard_b (snd l) e && honest_b l e then
        match SendStream.exec (snd l) e with
        | Ok s' => Some (mkLink s' (rcv l) (delivered l)
            (announced l ++ match e with SendStream.EControl => drop (length (SendStream.resets (snd l))) (SendStream.resets s') | _ => [] end))
        | _ => None
        end
      else None
  | MReceive e =>
      if inner_b e && ReceiveSafety.receive_guard_b any_byte (rcv l) e then
        match ReceiveStream.exec (rcv l) e with Ok r' => Some (mkLink (snd l) r' (delivered l) (announced l)) | _ => None end
      else None
  | MDeliver i id =>
      match SendStream.frames (snd l) !! i with
      | Some f =>
          if negb (ReceiveStream.is_Some_b (ReceiveStream.failed (rcv l))) && (Offset f + blen (Data f) <? MaxByteCount) && bool_decide (id ∉ ReceiveStream.handed (rcv l)) then
            match ReceiveStream.exec (rcv l) (ReceiveStream.RFrame f id 0) with Ok r' => Some (mkLink (snd l) r' (delivered l ++ [f]) (announced l)) | _ => None end
          else None
      | None => None
      end
  end.

Fixpoint plays (l : link) (ms : list move) : option link :=
  match ms with [] => Some l | m :: ms => match play l m with Some l' => plays l' ms | None => None end end.

Lemma play_step l m l' : play l m = Some l' -> step l l'.
Proof.
  destruct m as [e|e|i id]; cbn.
  - destruct (SendSafety.guard_b _ _ && _) eqn:Eg; [|done]. apply andb_prop in Eg as [Eg Eh]. destruct (SendStream.exec _ _) as [s'| |] eqn:Ee; try done. intros [= <-].
    apply step_send; [by apply SendSafety.guard_b_sound| |done]. destruct e; try done; cbn in *; [lia|].
    intros f Hf. rewrite Hf in Eh. by apply bool_decide_eq_true in Eh.
  - destruct (inner_b e && _) eqn:Eg; [|done]. apply andb_prop in Eg as [Eg Eh]. destruct (ReceiveStream.exec _ _) as [r'| |] eqn:Ee; try done. intros [= <-].
    apply (step_receive l e r'); [by destruct e|by apply ReceiveSafety.receive_guard_sound|exact Ee].
  - destruct (_ !! i) as [f|] eqn:Ei; [|done]. destruct (_ && _) eqn:Eg; [|done]. apply andb_prop in Eg as [Eg E3]. apply andb_prop in Eg as [E1 E2].
    destruct (ReceiveStream.handleStreamFrame _ _ _ _ ≫= _) as [r'| |] eqn:Ee; try done. intros [= <-].
    eapply (step_deliver l f id 0 r'); [by destruct (ReceiveStream.failed _)|by eapply list_elem_of_lookup_2|lia|by apply bool_decide_eq_true in E3|exact Ee].
Qed.

Lemma plays_linked id c b w mw sw conn l ms l' : linked id c b w mw sw conn l -> plays l ms = Some l' -> linked id c b w mw sw conn l'.
Proof.
  revert l. induction ms as [|m ms IH]; cbn; intros l Hl Hp; [by simplify_eq|]. destruct (play l m) as [l1|] eqn:E; [|done].
  eapply IH; [|exact Hp]. eapply linked_step; [done|by apply play_step in E].
Qed.

End transfer.

(** ** An example *)

Definition sample_start : link := start_link 4 SendSafety.sample_flow true 5000 5000 5000 ReceiveSafety.sample_conn.
Definition zero_clock : nat -> Z := fun _ => 0.

(** Data is sent in two frames; the first is lost and sent again in two; everything
    arrives out of order and twice, is read to the end and acknowledged. *)
Definition sample_moves : list (@move (FlowControl.streamFlowController * FlowControl.baseFlowController)) :=
  [MSend (SendStream.EWrite 0 0 (SendSafety.data 100)); MSend (SendStream.EPop 60); MSend (SendStream.EClose); MSend (SendStream.EPop 100);
   MSend (SendStream.ELost 0); MSend (SendStream.EPop 40); MSend (SendStream.EPop 40); MReceive (ReceiveStream.RRead zero_clock 200);
   MDeliver 1 1; MDeliver 3 2; MDeliver 1 3; MDeliver 2 4; MReceive (ReceiveStream.RWake false zero_clock); MDeliver 0 5; MReceive (ReceiveStream.RRead zero_clock 200)].

Definition sample_end : option link := plays sample_start (sample_moves ++ [MSend (SendStream.EAck 0); MSend (SendStream.EAck 0); MSend (SendStream.EAck 0)]).

Lemma sample_linked l : sample_end = Some l -> linked 4 SendSafety.sample_flow true 5000 5000 5000 ReceiveSafety.sample_conn l.
Proof. apply plays_linked, linked_start. Qed.

Lemma sample_grant : limit SendSafety.sample_flow <= 5000.
Proof. cbn. lia. Qed.

Lemma stream_transfer_correct_witness :
  match sample_end with
  | Some l => SendStream.finishedWriting (SendStream.st (snd l)) = true /\ ReceiveStream.out (rcv l) = SendStream.app (snd l)
  | None => False
  end.
Proof.
  destruct sample_end as [l|] eqn:E; [|vm_compute in E; discriminate E].
  assert (Hf : ReceiveStream.failed (rcv l) = None /\ ReceiveStream.eof (rcv l) = true /\ ReceiveStream.cancelledLocally (ReceiveStream.st (rcv l)) = false /\
    SendStream.resetErr (SendStream.st (snd l)) = None /\ SendStream.shutdownErr (SendStream.st (snd l)) = None) by (vm_compute in E; injection E as <-; repeat split).
  destruct Hf as (H1 & H2 & H3 & H4 & H5).
  destruct (stream_transfer_correct 4 SendSafety.sample_flow true 5000 5000 5000 ReceiveSafety.sample_conn SendSafety.sample_id SendSafety.sample_used SendSafety.sample_limit
    sample_grant ltac:(lia) ltac:(lia) ReceiveSafety.sample_sound l (sample_linked l E) H1) as [_ H].
  exact (H H2 H3 H4 H5).
Defined.

Lemma stream_transfer_complete_witness :
  match sample_end with
  | Some l => ReceiveStream.finalOffset (ReceiveStream.st (rcv l)) = blen (SendStream.app (snd l))
  | None => False
  end.
Proof.
  destruct sample_end as [l|] eqn:E; [|vm_compute in E; discriminate E].
  assert (Hf : ReceiveStream.failed (rcv l) = None /\ ReceiveStream.cancelledLocally (ReceiveStream.st (rcv l)) = false /\ SendStream.completed (SendStream.st (snd l)) = true /\
    SendStream.resetErr (SendStream.st (snd l)) = None /\ SendStream.shutdownErr (SendStream.st (snd l)) = None) by (vm_compute in E; injection E as <-; repeat split).
  destruct Hf as (H1 & H2 & H3 & H4 & H5).
  destruct (stream_transfer_complete 4 SendSafety.sample_flow true 5000 5000 5000 ReceiveSafety.sample_conn SendSafety.sample_id SendSafety.sample_used SendSafety.sample_limit
    sample_grant ltac:(lia) ltac:(lia) ReceiveSafety.sample_sound l (sample_linked l E) H1 H2 H3 H4 H5) as (_ & H & _).
  exact H.
Defined.

Lemma stream_transfer_blameless_witness :
  match sample_end with Some l => blameless (ReceiveStream.failed (rcv l)) | None => False end.
Proof.
  destruct sample_end as [l|] eqn:E; [|vm_compute in E; discriminate E].
  assert (Hf : SendStream.resetErr (SendStream.st (snd l)) = None) by (vm_compute in E; injection E as <-; reflexivity).
  exact (stream_transfer_blameless 4 SendSafety.sample_flow true 5000 5000 5000 ReceiveSafety.sample_conn SendSafety.sample_id SendSafety.sample_used SendSafety.sample_limit
    sample_grant ltac:(lia) ltac:(lia) ReceiveSafety.sample_sound l (sample_linked l E) Hf).
Defined.

End StreamTransfer.
