(* ===== verification/RttStats.v ===== *)
(** * Round-trip time estimation (src/quicfork/internal/utils/rtt_stats.go)

    Durations are in nanoseconds.  The smoothed values are computed in
    [float32] on microseconds, modelled by rounding to the nearest (ties to
    even) at 24 significant bits: every intermediate value is an integer
    multiple of the last power of two used, so it is kept as that integer.
    Multiplication and addition round separately, as on amd64; the exponent
    range is not reached. *)

From Stdlib Require Import ZifyBool.
From S2P Require Import Prelude.
Local Open Scope Z_scope.

Module RttStats.

(** ** Rounding *)

(** [n] rounded to [p] significant bits. *)
Definition round_even (p n : Z) : Z :=
  let k := Z.log2 (Z.abs n) + 1 - p in
  if k <=? 0 then n else
  let q := Z.abs n / 2 ^ k in
  let r := Z.abs n mod 2 ^ k in
  Z.sgn n * (if (r <? 2 ^ (k - 1)) || ((r =? 2 ^ (k - 1)) && Z.even q) then q else q + 1) * 2 ^ k.

Definition float32 (n : Z) : Z := round_even 24 n.
Definition float64 (n : Z) : Z := round_even 53 n.

Lemma round_even_exact p n : Z.abs n < 2 ^ p -> 0 < p -> round_even p n = n.
Proof.
  intros Hn Hp. unfold round_even.
  assert (Z.log2 (Z.abs n) < p).
  { destruct (Z.eqb_spec n 0) as [-> | Hz]; [done|]. apply Z.log2_lt_pow2; lia. }
  by rewrite (proj2 (Z.leb_le _ _)) by lia.
Qed.

Lemma round_even_near p n k :
  0 <= n < 2 ^ (p + k) -> 0 < p -> 0 < k -> Z.abs (round_even p n - n) <= 2 ^ (k - 1).
Proof.
  intros Hn Hp Hk. unfold round_even. rewrite (Z.abs_eq n) by lia.
  set (j := Z.log2 n + 1 - p). assert (0 <= 2 ^ (k - 1)) by (apply Z.pow_nonneg; lia).
  destruct (Z.leb_spec j 0) as [Hj|Hj]; [lia|].
  assert (n <> 0) by (intros ->; cbn in j; lia).
  assert (Hl : Z.log2 n < p + k) by (apply Z.log2_lt_pow2; lia).
  rewrite (Z.sgn_pos n), Z.mul_1_l by lia.
  pose proof (Z.div_mod n (2 ^ j) ltac:(apply Z.pow_nonzero; lia)) as Hdm.
  pose proof (Z.mod_pos_bound n (2 ^ j) ltac:(apply Z.pow_pos_nonneg; lia)) as Hr.
  assert (H2 : 2 ^ j = 2 * 2 ^ (j - 1)) by (rewrite <- Z.pow_succ_r by lia; f_equal; lia).
  assert (Hm : 2 ^ (j - 1) <= 2 ^ (k - 1)) by (apply Z.pow_le_mono_r; lia).
  set (q := n / 2 ^ j) in *. set (r := n mod 2 ^ j) in *.
  destruct (_ || _) eqn:E; nia.
Qed.

(** ** Operations *)

Definition Microsecond : Z := 1000.
Definition Millisecond : Z := 1000 * Microsecond.
Definition Second : Z := 1000 * Millisecond.

Definition DefaultInitialRTT : Z := 100 * Millisecond.
Definition TimerGranularity : Z := Millisecond.

Record RTTStats := mkRTT {
  hasMeasurement : bool;
  minRTT : Z; latestRTT : Z; smoothedRTT : Z; meanDeviation : Z;
  maxAckDelay : Z }.

Definition NewRTTStats : RTTStats :=
  mkRTT false DefaultInitialRTT DefaultInitialRTT DefaultInitialRTT 0 0.

Definition PTO (r : RTTStats) (includeMaxAckDelay : bool) : Z :=
  if negb (hasMeasurement r) then 2 * DefaultInitialRTT else
  let pto := smoothedRTT r + Z.max (4 * meanDeviation r) TimerGranularity in
  if includeMaxAckDelay then pto + maxAckDelay r else pto.

(** [k/(k+1) * float32(a) + 1/(k+1) * float32(b)], truncated to an integer. *)
Definition average (k a b : Z) : Z :=
  Z.quot (float32 (float32 (k * float32 a) + float32 b)) (k + 1).

Definition UpdateRTT (r : RTTStats) (sendDelta ackDelay : Z) : RTTStats :=
  if sendDelta <=? 0 then r else
  let min' := if negb (hasMeasurement r) || (sendDelta <? minRTT r) then sendDelta else minRTT r in
  let sample := if ackDelay <=? sendDelta - min' then sendDelta - ackDelay else sendDelta in
  if negb (hasMeasurement r) then
    mkRTT true min' sample sample (Z.quot sample 2) (maxAckDelay r)
  else
    let meanDev := average 3 (Z.quot (meanDeviation r) Microsecond)
                             (Z.quot (Z.abs (smoothedRTT r - sample)) Microsecond) * Microsecond in
    let newSmoothedRTT := average 7 (Z.quot (smoothedRTT r) Microsecond) (Z.quot sample Microsecond) * Microsecond in
    mkRTT true min' sample newSmoothedRTT meanDev (maxAckDelay r).

Definition SetMaxAckDelay (r : RTTStats) (mad : Z) : RTTStats :=
  mkRTT (hasMeasurement r) (minRTT r) (latestRTT r) (smoothedRTT r) (meanDeviation r) mad.

Definition SetInitialRTT (r : RTTStats) (t : Z) : RTTStats :=
  if hasMeasurement r then r
  else mkRTT (hasMeasurement r) (minRTT r) t t (meanDeviation r) (maxAckDelay r).

Definition ResetForPathMigration (r : RTTStats) : RTTStats :=
  mkRTT false DefaultInitialRTT DefaultInitialRTT DefaultInitialRTT 0 (maxAckDelay r).

Definition Clone (r : RTTStats) : RTTStats :=
  mkRTT (hasMeasurement r) (minRTT r) (latestRTT r) (smoothedRTT r) (meanDeviation r) (maxAckDelay r).

(** ** Bounds *)

Lemma round_even_nonneg p n : 0 <= n -> 0 <= round_even p n.
Proof.
  intros Hn. unfold round_even. rewrite (Z.abs_eq n) by done. destruct (_ <=? 0) eqn:E; [done|].
  assert (0 <= n / 2 ^ (Z.log2 n + 1 - p)) by (apply Z.div_pos; [done|apply Z.pow_pos_nonneg; lia]).
  assert (0 <= 2 ^ (Z.log2 n + 1 - p)) by (apply Z.pow_nonneg; lia).
  destruct (_ || _); nia.
Qed.

(** A weighted average of microseconds below 2^23 (8.4 s), up to the rounding of [float32] and the
    truncation; it lies between zero and the larger of the two. *)
Lemma average_near j a b m :
  2 <= j <= 3 -> 0 <= a <= m -> 0 <= b <= m -> m < 2 ^ 23 ->
  let k := 2 ^ j - 1 in
  k * a + b - 2 ^ (j - 1) - k <= (k + 1) * average k a b <= k * a + b + 2 ^ (j - 1) /\ 0 <= average k a b <= m.
Proof.
  intros Hj Ha Hb Hm. unfold average, float32. set (k := 2 ^ j - 1).
  assert (Hk : (j = 2 /\ k = 3) \/ (j = 3 /\ k = 7)) by (assert (j = 2 \/ j = 3) as [-> | ->] by lia; auto).
  rewrite (round_even_exact 24 a), (round_even_exact 24 b) by lia.
  assert (Hs : forall n, 0 <= n <= (k + 1) * m + 2 ^ (j - 2) ->
    0 <= round_even 24 n /\ n - 2 ^ (j - 2) <= round_even 24 n <= n + 2 ^ (j - 2)).
  { intros n Hn. pose proof (round_even_nonneg 24 n ltac:(lia)).
    assert (n < 2 ^ (24 + (j - 1))) by (destruct Hk as [[-> ->] | [-> ->]]; cbn in *; lia).
    pose proof (round_even_near 24 n (j - 1) ltac:(lia) ltac:(lia) ltac:(lia)) as H1.
    replace (j - 1 - 1) with (j - 2) in H1 by lia. lia. }
  pose proof (Hs (k * a) ltac:(destruct Hk as [[-> ->] | [-> ->]]; cbn; lia)) as H1.
  pose proof (Hs (round_even 24 (k * a) + b) ltac:(destruct Hk as [[-> ->] | [-> ->]]; cbn in *; lia)) as H2.
  rewrite Z.quot_div_nonneg by lia. set (R := round_even 24 (round_even 24 (k * a) + b)) in *.
  pose proof (Z.div_mod R (k + 1) ltac:(lia)) as Hd. pose proof (Z.mod_pos_bound R (k + 1) ltac:(lia)) as Hr.
  destruct Hk as [[-> ->] | [-> ->]]; cbn in *; lia.
Qed.

(** The estimator after a sequence of samples [(sendDelta, ackDelay)]. *)
Definition samples (r : RTTStats) (l : list (Z * Z)) : RTTStats :=
  fold_left (fun r s => UpdateRTT r s.1 s.2) l r.

(** Every estimate lies in the range of the samples. *)
Definition bounded (lo h : Z) (r : RTTStats) : Prop :=
  hasMeasurement r = true /\ lo <= minRTT r <= h /\ minRTT r <= latestRTT r <= h /\
  0 <= smoothedRTT r /\ lo - 20 * Microsecond <= smoothedRTT r <= h /\ 0 <= meanDeviation r <= h.

(** The estimates after another sample, up to rounding: 7/8 and 1/8, 3/4 and 1/4. *)
Definition weighed (r r' : RTTStats) : Prop :=
  7 * smoothedRTT r + latestRTT r' - 20 * Microsecond <= 8 * smoothedRTT r' <= 7 * smoothedRTT r + latestRTT r' + 4 * Microsecond /\
  let dev := Z.abs (smoothedRTT r - latestRTT r') in
  3 * meanDeviation r + dev - 10 * Microsecond <= 4 * meanDeviation r' <= 3 * meanDeviation r + dev + 2 * Microsecond.

Lemma average_ns j x y h : 2 <= j <= 3 -> 0 <= x <= h -> 0 <= y <= h -> h mod Microsecond = 0 -> h < 2 ^ 23 * Microsecond ->
  let k := 2 ^ j - 1 in let v := average k (Z.quot x Microsecond) (Z.quot y Microsecond) * Microsecond in
  0 <= v <= h /\ k * x + y - (2 ^ (j - 1) + 2 * k + 1) * Microsecond <= (k + 1) * v <= k * x + y + 2 ^ (j - 1) * Microsecond.
Proof.
  intros Hj Hx Hy Hu Hh k v. subst v. unfold Microsecond in *. rewrite !Z.quot_div_nonneg by lia.
  pose proof (average_near j (x / 1000) (y / 1000) (h / 1000) Hj) as Hb.
  assert (0 <= x / 1000 <= h / 1000) by (split; [apply Z.div_pos; lia|apply Z.div_le_mono; lia]).
  assert (0 <= y / 1000 <= h / 1000) by (split; [apply Z.div_pos; lia|apply Z.div_le_mono; lia]).
  specialize (Hb ltac:(done) ltac:(done) ltac:(apply Z.div_lt_upper_bound; lia)). cbv zeta in Hb. fold k in Hb. destruct Hb as [H1 H2].
  pose proof (Z.div_mod h 1000 ltac:(lia)). pose proof (Z.div_mod x 1000 ltac:(lia)). pose proof (Z.div_mod y 1000 ltac:(lia)).
  pose proof (Z.mod_pos_bound x 1000 ltac:(lia)). pose proof (Z.mod_pos_bound y 1000 ltac:(lia)).
  assert (k = 3 \/ k = 7) as Hk by (unfold k; assert (j = 2 \/ j = 3) as [-> | ->] by lia; auto).
  split; [lia|]. destruct Hk as [-> | ->]; lia.
Qed.

(** The sample that is used: without the delay the peer claims, unless it would fall below the minimum. *)
Lemma update_sample r d a : 0 < d ->
  latestRTT (UpdateRTT r d a) = if a <=? d - minRTT (UpdateRTT r d a) then d - a else d.
Proof. intros Hd. unfold UpdateRTT. rewrite (proj2 (Z.leb_gt _ _)) by lia. by destruct (hasMeasurement r). Qed.

Lemma update_weighed lo h r d a : bounded lo h r -> 0 < d <= h -> 0 <= a -> 0 < lo ->
  h mod Microsecond = 0 -> h < 2 ^ 23 * Microsecond ->
  weighed r (UpdateRTT r d a) /\ smoothedRTT (UpdateRTT r d a) <= h /\ 0 <= smoothedRTT (UpdateRTT r d a) /\ 0 <= meanDeviation (UpdateRTT r d a) <= h.
Proof.
  intros (Hm & Hmin & _ & HS0 & HS & HD) Hd Ha Hlo Hu Hh. unfold weighed. rewrite update_sample by lia.
  unfold UpdateRTT. rewrite (proj2 (Z.leb_gt d 0)), Hm by lia. cbn [negb orb minRTT smoothedRTT meanDeviation].
  set (m := if _ <? _ then d else _). assert (0 < m <= d) by (unfold m; destruct (_ <? _) eqn:E; lia).
  set (s := if a <=? _ then d - a else d). assert (0 <= s <= h) by (unfold s; destruct (_ <=? _) eqn:E; lia).
  pose proof (average_ns 3 (smoothedRTT r) s h ltac:(lia) ltac:(lia) ltac:(lia) Hu Hh) as H3.
  pose proof (average_ns 2 (meanDeviation r) (Z.abs (smoothedRTT r - s)) h ltac:(lia) ltac:(lia) ltac:(lia) Hu Hh) as H2.
  cbv zeta in H2, H3. change (2 ^ 3 - 1) with 7 in H3. change (2 ^ (3 - 1)) with 4 in H3. change (2 ^ 2 - 1) with 3 in H2. change (2 ^ (2 - 1)) with 2 in H2.
  clear -H2 H3. generalize dependent (average 7 (Z.quot (smoothedRTT r) Microsecond) (Z.quot s Microsecond)).
  generalize dependent (average 3 (Z.quot (meanDeviation r) Microsecond) (Z.quot (Z.abs (smoothedRTT r - s)) Microsecond)).
  unfold Microsecond. clearbody s. intros; lia.
Qed.

Lemma update_bounded lo h r d a :
  (hasMeasurement r = true -> bounded lo h r) -> 0 < lo -> lo <= d <= h -> 0 <= a ->
  h mod Microsecond = 0 -> h < 2 ^ 23 * Microsecond -> bounded lo h (UpdateRTT r d a).
Proof.
  intros Hr Hlo Hd Ha Hu Hh. set (r' := UpdateRTT r d a).
  assert (Hl : latestRTT r' = if a <=? d - minRTT r' then d - a else d) by (apply update_sample; lia).
  assert (Hm : hasMeasurement r' = true /\ lo <= minRTT r' <= d).
  { unfold r', UpdateRTT. rewrite (proj2 (Z.leb_gt d 0)) by lia. destruct (hasMeasurement r) eqn:E; cbn [negb orb]; [|cbn; lia].
    destruct (Hr eq_refl) as (_ & ? & _). cbn. destruct (d <? minRTT r) eqn:Ed; (split; [done|lia]). }
  assert (Hl' : minRTT r' <= latestRTT r' <= d) by (rewrite Hl; destruct (_ <=? _) eqn:E; lia).
  destruct (hasMeasurement r) eqn:E.
  - pose proof (Hr eq_refl) as Hb. destruct (update_weighed lo h r d a Hb ltac:(lia) Ha Hlo Hu Hh) as ([H1 _] & H2 & H3 & H4). fold r' in H1, H2, H3, H4.
    destruct Hb as (_ & _ & _ & _ & ? & _). unfold bounded, Microsecond in *. split_and!; try lia; by destruct Hm.
  - assert (smoothedRTT r' = latestRTT r' /\ meanDeviation r' = Z.quot (latestRTT r') 2) as [HS HD].
    { unfold r', UpdateRTT. by rewrite (proj2 (Z.leb_gt d 0)), E by lia. }
    assert (0 <= Z.quot (latestRTT r') 2 <= latestRTT r').
    { rewrite Z.quot_div_nonneg by lia. split; [apply Z.div_pos; lia|apply Z.div_le_upper_bound; lia]. }
    unfold bounded, Microsecond in *. rewrite HS, HD. split_and!; try lia; by destruct Hm.
Qed.

Lemma samples_bounded lo h l : forall r,
  (hasMeasurement r = true -> bounded lo h r) -> 0 < lo -> Forall (fun s => lo <= s.1 <= h /\ 0 <= s.2) l ->
  h mod Microsecond = 0 -> h < 2 ^ 23 * Microsecond -> (l <> [] \/ hasMeasurement r = true) ->
  bounded lo h (samples r l).
Proof.
  induction l as [|s l IH]; intros r Hr Hlo Hl Hu Hh Hn; cbn.
  - destruct Hn as [Hn|Hn]; [done|auto].
  - inversion_clear Hl as [|? ? [Hs Ha] Hl']. apply IH; try done.
    + intros _. by apply update_bounded.
    + right. by destruct (update_bounded lo h r s.1 s.2) as (? & _).
Qed.

Lemma samples_min l : forall r, hasMeasurement r = true -> Forall (fun s => 0 < s.1) l ->
  minRTT (samples r l) = foldr Z.min (minRTT r) l.*1 /\ maxAckDelay (samples r l) = maxAckDelay r.
Proof.
  assert (Hb : forall l x y, foldr Z.min (Z.min x y) l = Z.min x (foldr Z.min y l)).
  { intros l'. induction l' as [|z l' IH]; intros x y; cbn; [done|]. rewrite IH. lia. }
  induction l as [|s l IH]; intros r Hr Hl; cbn; [done|]. inversion_clear Hl as [|? ? Hs Hl'].
  destruct (IH (UpdateRTT r s.1 s.2)) as [IH1 IH2]; [|done|].
  { unfold UpdateRTT. rewrite Hr. by destruct (_ <=? 0). }
  unfold samples in *. rewrite IH1, IH2. unfold UpdateRTT. rewrite Hr. cbn [negb orb].
  rewrite (proj2 (Z.leb_gt _ _)) by lia. cbn. split; [|done]. rewrite <- Hb. f_equal.
  destruct (_ <? _) eqn:E; lia.
Qed.

(** C30: the RTT estimates.  Take any sequence of samples between [lo > 0] and [h], a whole number of
    microseconds below 8.4 s (beyond which the [float32] arithmetic on microseconds is not exact
    enough), with whatever delays the peer claims for its acknowledgements.  The minimum is the
    smallest sample; the smoothed RTT is at most [h] and at least [lo] up to 20 us of rounding; the
    mean deviation is at most [h]; the probe timeout is between a millisecond and [5 h] and a
    millisecond (plus the peer's maximum acknowledgement delay).  A further sample counts without the
    claimed delay, unless it would then fall below the minimum; it enters the smoothed RTT with
    weight 1/8 and the mean deviation with weight 1/4, up to 2.5 us of rounding. *)
Theorem rtt_estimates_bounded (lo h d a : Z) (l : list (Z * Z)) (r : RTTStats) :
  hasMeasurement r = false -> 0 <= maxAckDelay r -> 0 < lo ->
  Forall (fun s => lo <= s.1 <= h /\ 0 <= s.2) ((d, a) :: l) ->
  h mod Microsecond = 0 -> h < 2 ^ 23 * Microsecond ->
  let r' := samples r ((d, a) :: l) in
  minRTT r' = foldr Z.min d l.*1 /\ minRTT r' <= latestRTT r' <= h /\
  lo - 20 * Microsecond <= smoothedRTT r' <= h /\ 0 <= meanDeviation r' <= h /\
  (forall b, Millisecond <= PTO r' b <= 5 * h + Millisecond + maxAckDelay r) /\
  forall d' a', 0 < d' <= h -> 0 <= a' ->
    let r'' := UpdateRTT r' d' a' in
    latestRTT r'' = (if a' <=? d' - Z.min d' (minRTT r') then d' - a' else d') /\ weighed r' r''.
Proof.
  intros Hr Hmad Hlo Hl Hu Hh r'.
  assert (Hb : bounded lo h r') by (apply samples_bounded; try done; [congruence|by left]).
  inversion_clear Hl as [|? ? [Hd Ha] Hl'].
  assert (E : hasMeasurement (UpdateRTT r d a) = true /\ minRTT (UpdateRTT r d a) = d /\ maxAckDelay (UpdateRTT r d a) = maxAckDelay r).
  { unfold UpdateRTT. rewrite Hr. cbn in Hd. by rewrite (proj2 (Z.leb_gt _ _)) by lia. }
  destruct E as (E0 & E1 & E2). destruct (samples_min l (UpdateRTT r d a)) as [H1 H2]; [done|eapply Forall_impl; [exact Hl'|cbn; intros s ?; lia]|].
  change (samples (UpdateRTT r d a) l) with r' in H1, H2. rewrite E1 in H1.
  pose proof Hb as (Hm & Hmin & Hlat & Hs0 & Hsm & Hdev). split_and!; try done; try lia.
  - intros b. unfold PTO. rewrite Hm. cbn [negb]. unfold TimerGranularity. rewrite H2, E2.
    unfold Millisecond, Microsecond in *. destruct b; lia.
  - intros d' a' Hd' Ha' r''. split; [|by apply (update_weighed lo h)]. unfold r''. rewrite update_sample by lia.
    unfold UpdateRTT. rewrite (proj2 (Z.leb_gt d' 0)), Hm by lia. cbn [negb orb minRTT].
    destruct (d' <? minRTT r') eqn:E; [rewrite Z.min_l by lia|rewrite Z.min_r by lia]; done.
Qed.

Lemma rtt_estimates_bounded_witness :
  let r' := samples NewRTTStats [(60000000, 0); (80000000, 25000000); (40000000, 1000000)] in
  smoothedRTT r' = 59687000 /\ 39980000 <= smoothedRTT r' <= 80000000.
Proof.
  split; [vm_compute; reflexivity|].
  destruct (rtt_estimates_bounded 40000000 80000000 60000000 0 [(80000000, 25000000); (40000000, 1000000)] NewRTTStats
    eq_refl ltac:(done) ltac:(done) ltac:(repeat constructor; cbn; lia) eq_refl ltac:(done)) as (_ & _ & H & _).
  exact H.
Defined.

End RttStats.
