(* ===== verification/SentHistory.v ===== *)
(** * Sent packets: numbers, history and lost packets
    (src/quicfork/internal/ackhandler/packet.go, sent_packet_history.go,
    packet_number_generator.go, lost_packet_tracker.go)

    The history of a packet number space is a slice with a nil entry for every
    number that is no longer tracked, starting at the first tracked packet.  It
    is shown to refine a finite map from numbers to packets, sorted by number.
    The pool of packets is left out: a packet is returned to it only once
    nothing refers to it. *)

From Stdlib Require Import ZifyBool.
From stdpp Require Import sorting.
From S2P Require Import Prelude GoBytes Varint Wire AckFrame Frames FrameParser.
Local Open Scope Z_scope.

Module SentHistory.

Definition InvalidPacketNumber : Z := -1.
Definition maxSkippedPackets : nat := 4.

(** ** Packets (packet.go, frame.go) *)

(** A frame with the handler that is told of its fate; a handler is known by a
    number, nil is [None]. *)
Record Frame := mkFrame { fr_Frame : FrameParser.Frame; fr_Handler : option Z }.
Record StreamFrame := mkStreamFrame { sf_Frame : Frames.StreamFrame; sf_Handler : option Z }.

(** [EncryptionLevel] 0, of the entry that stands for a path probe, is [None]. *)
Record packet := mkPacket {
  SendTime : Z;
  StreamFrames : list StreamFrame; Frames_ : list Frame;
  LargestAcked : Z; Length : Z; EncryptionLevel : option FrameParser.EncryptionLevel;
  IsPathMTUProbePacket : bool; includedInBytesInFlight : bool; isPathProbePacket : bool }.

Definition IsAckEliciting (p : packet) : bool :=
  (0 <? length (StreamFrames p))%nat || (0 <? length (Frames_ p))%nat.

Definition Outstanding (p : packet) : bool :=
  negb (IsPathMTUProbePacket p) && negb (isPathProbePacket p) && IsAckEliciting p.

(** [&packet{isPathProbePacket: true}] *)
Definition probe_entry : packet := mkPacket 0 [] [] 0 0 None false false true.

(** ** The history (sent_packet_history.go) *)

Record sentPacketHistory := mkHistory {
  packets : list (option packet);
  pathProbePackets : list (Z * packet);
  skippedPackets : list Z;
  numOutstanding : Z;
  firstPacketNumber : Z; highestPacketNumber : Z }.

Definition newSentPacketHistory : sentPacketHistory :=
  mkHistory [] [] [] 0 InvalidPacketNumber InvalidPacketNumber.

Inductive herr := errNotFound (pn : Z).

Definition checkSequentialPacketNumberUse (h : sentPacketHistory) (pn : Z) : res herr sentPacketHistory :=
  if negb (highestPacketNumber h =? InvalidPacketNumber) && negb (pn =? highestPacketNumber h + 1) then Panic
  else Ok (mkHistory (packets h) (pathProbePackets h) (skippedPackets h) (numOutstanding h)
             (match packets h with [] => pn | _ => firstPacketNumber h end) pn).

Definition SkippedPacket (h : sentPacketHistory) (pn : Z) : res herr sentPacketHistory :=
  h ← checkSequentialPacketNumberUse h pn;
  let ps := match packets h with [] => [] | ps => ps ++ [None] end in
  let sk := if (length (skippedPackets h) =? maxSkippedPackets)%nat then drop 1 (skippedPackets h)
            else skippedPackets h in
  Ok (mkHistory ps (pathProbePackets h) (sk ++ [pn]) (numOutstanding h) (firstPacketNumber h) (highestPacketNumber h)).

Definition SentPacket (h : sentPacketHistory) (pn : Z) (p : packet) : res herr sentPacketHistory :=
  h ← checkSequentialPacketNumberUse h pn;
  Ok (mkHistory (packets h ++ [Some p]) (pathProbePackets h) (skippedPackets h)
        (if Outstanding p then numOutstanding h + 1 else numOutstanding h) (firstPacketNumber h) (highestPacketNumber h)).

Definition SentPathProbePacket (h : sentPacketHistory) (pn : Z) (p : packet) : res herr sentPacketHistory :=
  h ← checkSequentialPacketNumberUse h pn;
  Ok (mkHistory (packets h ++ [Some probe_entry]) (pathProbePackets h ++ [(pn, p)]) (skippedPackets h)
        (numOutstanding h) (firstPacketNumber h) (highestPacketNumber h)).

(** The entries that [Packets()] yields.  The slice may be changed while it is
    iterated, but only at or before the current entry. *)
Fixpoint entries (first : Z) (l : list (option packet)) : list (Z * packet) :=
  match l with
  | [] => []
  | None :: l => entries (first + 1) l
  | Some p :: l => (first, p) :: entries (first + 1) l
  end.
Definition Packets (h : sentPacketHistory) : list (Z * packet) := entries (firstPacketNumber h) (packets h).

Definition HasOutstandingPackets (h : sentPacketHistory) : bool := 0 <? numOutstanding h.
Definition HasOutstandingPathProbes (h : sentPacketHistory) : bool := (0 <? length (pathProbePackets h))%nat.

Definition FirstOutstanding (h : sentPacketHistory) : option (Z * packet) :=
  if negb (HasOutstandingPackets h) then None
  else List.find (fun e => Outstanding e.2) (Packets h).

Definition FirstOutstandingPathProbe (h : sentPacketHistory) : option (Z * packet) := head (pathProbePackets h).

Definition Len (h : sentPacketHistory) : Z := Z.of_nat (length (packets h)).

Definition getIndex (h : sentPacketHistory) (p : Z) : option nat :=
  match packets h with
  | [] => None
  | _ =>
      if p <? firstPacketNumber h then None else
      let index := p - firstPacketNumber h in
      if Z.of_nat (length (packets h)) - 1 <? index then None else Some (Z.to_nat index)
  end.

(** The nil entries at the beginning, and what follows them. *)
Fixpoint skip_nil (l : list (option packet)) : nat * list (option packet) :=
  match l with
  | None :: l => let '(i, l) := skip_nil l in (S i, l)
  | _ => (O, l)
  end.

Definition cleanupStart (h : sentPacketHistory) : sentPacketHistory :=
  let '(i, ps) := skip_nil (packets h) in
  match ps with
  | [] => mkHistory [] (pathProbePackets h) (skippedPackets h) (numOutstanding h) InvalidPacketNumber (highestPacketNumber h)
  | _ => mkHistory ps (pathProbePackets h) (skippedPackets h) (numOutstanding h)
           (firstPacketNumber h + Z.of_nat i) (highestPacketNumber h)
  end.

(** [h.packets[idx] = nil] with the number of outstanding packets adjusted. *)
Definition clear_entry (h : sentPacketHistory) (idx : nat) : res herr sentPacketHistory :=
  match packets h !! idx with
  | Some (Some p) =>
      if Outstanding p && (numOutstanding h - 1 <? 0) then Panic else
      Ok (mkHistory (<[idx := None]> (packets h)) (pathProbePackets h) (skippedPackets h)
            (if Outstanding p then numOutstanding h - 1 else numOutstanding h)
            (firstPacketNumber h) (highestPacketNumber h))
  | _ => Panic
  end.

Definition is_packet (o : option packet) : bool := match o with Some _ => true | None => false end.

Definition Remove (h : sentPacketHistory) (pn : Z) : res herr sentPacketHistory :=
  match getIndex h pn with
  | None => Err (errNotFound pn)
  | Some idx =>
      h ← clear_entry h idx;
      let hasPacketBefore := existsb is_packet (take idx (packets h)) in
      let h := if negb hasPacketBefore then cleanupStart h else h in
      match packets h with
      | None :: _ => Panic
      | _ => Ok h
      end
  end.

Fixpoint remove_probe (l : list (Z * packet)) (pn : Z) : option packet * list (Z * packet) :=
  match l with
  | [] => (None, [])
  | e :: l =>
      if e.1 =? pn then (Some e.2, l)
      else let '(p, l) := remove_probe l pn in (p, e :: l)
  end.

Definition with_probes (h : sentPacketHistory) (l : list (Z * packet)) : sentPacketHistory :=
  mkHistory (packets h) l (skippedPackets h) (numOutstanding h) (firstPacketNumber h) (highestPacketNumber h).

Definition RemovePathProbe (h : sentPacketHistory) (pn : Z) : option packet * sentPacketHistory :=
  let '(p, l) := remove_probe (pathProbePackets h) pn in (p, with_probes h l).

Definition LowestPacketNumber (h : sentPacketHistory) : Z :=
  match packets h with [] => InvalidPacketNumber | _ => firstPacketNumber h end.

Definition DeclareLost (h : sentPacketHistory) (pn : Z) : res herr sentPacketHistory :=
  match getIndex h pn with
  | None => Ok h
  | Some idx =>
      h ← clear_entry h idx;
      Ok (if (idx =? 0)%nat then cleanupStart h else h)
  end.

Definition Difference (h : sentPacketHistory) (a b : Z) : Z :=
  let diff := a - b in
  match skippedPackets h, list.last (skippedPackets h) with
  | s :: _, Some l =>
      if (a <? s) || (l <? b) then diff
      else diff - Z.of_nat (length (filter (fun p => b < p < a) (skippedPackets h)))
  | _, _ => diff
  end.

(** ** Packet number generators (packet_number_generator.go) *)

Inductive packetNumberGenerator :=
| sequential (next : Z)
| skipping (period maxPeriod next nextToSkip : Z).

Definition SkipPacketInitialPeriod : Z := 256.
Definition SkipPacketMaxPeriod : Z := 128 * 1024.

(** [r] is the number drawn by [rng.Int31n(int32(2 * period))]. *)
Definition generateNewSkip (period maxPeriod next r : Z) : packetNumberGenerator :=
  skipping (Z.min (2 * period) maxPeriod) maxPeriod next (next + 3 + r).

Definition newSkippingPacketNumberGenerator (initial initialPeriod maxPeriod r : Z) : packetNumberGenerator :=
  generateNewSkip initialPeriod maxPeriod initial r.

Definition Peek (g : packetNumberGenerator) : Z :=
  match g with
  | sequential next => next
  | skipping _ _ next nextToSkip => if next =? nextToSkip then next + 1 else next
  end.

Definition Pop (g : packetNumberGenerator) (r : Z) : bool * Z * packetNumberGenerator :=
  match g with
  | sequential next => (false, next, sequential (next + 1))
  | skipping period maxPeriod next nextToSkip =>
      if next =? nextToSkip then (true, next + 1, generateNewSkip period maxPeriod (next + 2) r)
      else (false, next, skipping period maxPeriod (next + 1) nextToSkip)
  end.

(** ** Lost packets (lost_packet_tracker.go) *)

Record lostPacketTracker := mkLost { maxLength : Z; lostPackets : list (Z * Z) }.

Definition newLostPacketTracker (maxLength : Z) : lostPacketTracker := mkLost maxLength [].

Definition lost_Add (t : lostPacketTracker) (p sendTime : Z) : lostPacketTracker :=
  let l := if Z.of_nat (length (lostPackets t)) =? maxLength t then drop 1 (lostPackets t) else lostPackets t in
  mkLost (maxLength t) (l ++ [(p, sendTime)]).

Definition lost_Delete (t : lostPacketTracker) (pn : Z) : lostPacketTracker :=
  mkLost (maxLength t) (filter (fun p => p.1 <> pn) (lostPackets t)).

Fixpoint drop_before (ti : Z) (l : list (Z * Z)) : list (Z * Z) :=
  match l with
  | p :: l' => if p.2 <? ti then drop_before ti l' else l
  | [] => []
  end.

Definition DeleteBefore (t : lostPacketTracker) (ti : Z) : lostPacketTracker :=
  mkLost (maxLength t) (drop_before ti (lostPackets t)).

(** ** The history as a sorted map *)

Definition without (pn : Z) (l : list (Z * packet)) : list (Z * packet) := filter (fun e => e.1 <> pn) l.

Definition outstanding (l : list (Z * packet)) : Z :=
  Z.of_nat (length (filter (fun e => Outstanding e.2 = true) l)).

Definition hist_ok (h : sentPacketHistory) : Prop :=
  match packets h with None :: _ => False | _ => True end /\
  numOutstanding h = outstanding (Packets h) /\
  (packets h <> [] -> firstPacketNumber h + Z.of_nat (length (packets h)) - 1 = highestPacketNumber h /\
                      0 <= firstPacketNumber h) /\
  -1 <= highestPacketNumber h.

(** The number that may be used next. *)
Definition next_number (h : sentPacketHistory) (pn : Z) : Prop :=
  0 <= pn /\ (highestPacketNumber h = -1 \/ pn = highestPacketNumber h + 1).

(** What the operations on one entry leave alone. *)
Definition same_rest (h h' : sentPacketHistory) : Prop :=
  pathProbePackets h' = pathProbePackets h /\ skippedPackets h' = skippedPackets h /\
  highestPacketNumber h' = highestPacketNumber h.

Lemma same_rest_trans h1 h2 h3 : same_rest h1 h2 -> same_rest h2 h3 -> same_rest h1 h3.
Proof. intros (? & ? & ?) (? & ? & ?). split_and!; congruence. Qed.

Lemma entries_app f l1 l2 : entries f (l1 ++ l2) = entries f l1 ++ entries (f + Z.of_nat (length l1)) l2.
Proof.
  revert f. induction l1 as [|[p|] l1 IH]; intros f; cbn [app length entries].
  - f_equal. lia.
  - rewrite IH. cbn. do 3 f_equal. lia.
  - rewrite IH. do 2 f_equal. lia.
Qed.

Lemma elem_of_entries f l pn p :
  (pn, p) ∈ entries f l <-> f <= pn /\ l !! Z.to_nat (pn - f) = Some (Some p).
Proof.
  revert f. induction l as [|o l IH]; intros f; cbn [entries].
  - split; [by intros ?%elem_of_nil|by intros [_ ?]].
  - assert (Hs : f < pn -> (o :: l) !! Z.to_nat (pn - f) = l !! Z.to_nat (pn - (f + 1))).
    { intros H. by replace (Z.to_nat (pn - f)) with (S (Z.to_nat (pn - (f + 1)))) by lia. }
    assert (Hz : pn = f -> (o :: l) !! Z.to_nat (pn - f) = Some o) by (intros ->; by rewrite Z.sub_diag).
    destruct o as [q|]; rewrite ?elem_of_cons, IH.
    + split.
      * intros [[= -> ->] | [H1 H2]]; [split; [lia|auto]|]. split; [lia|]. rewrite Hs; [done|lia].
      * intros [H1 H2]. destruct (Z.eq_dec pn f) as [-> | Hne].
        -- rewrite Hz in H2 by done. left. congruence.
        -- right. rewrite Hs in H2 by lia. split; [lia|done].
    + split.
      * intros [H1 H2]. split; [lia|]. rewrite Hs; [done|lia].
      * intros [H1 H2]. destruct (Z.eq_dec pn f) as [-> | Hne]; [by rewrite Hz in H2|].
        rewrite Hs in H2 by lia. split; [lia|done].
Qed.

Lemma entries_unique f l e e' : e ∈ entries f l -> e' ∈ entries f l -> e.1 = e'.1 -> e = e'.
Proof.
  destruct e as [n p], e' as [n' p']. intros [_ H1]%elem_of_entries [_ H2]%elem_of_entries. cbn. intros <-. congruence.
Qed.

Lemma entries_bounds f l e : e ∈ entries f l -> f <= e.1 < f + Z.of_nat (length l).
Proof. destruct e as [pn p]. intros [H1 H2%lookup_lt_Some]%elem_of_entries. cbn. lia. Qed.

Lemma entries_NoDup f l : NoDup (entries f l).*1.
Proof.
  revert f. induction l as [|[p|] l IH]; intros f; cbn; [constructor| |apply IH].
  constructor; [|apply IH]. intros (e & Hf & He)%list_elem_of_fmap. apply entries_bounds in He. lia.
Qed.

Lemma entries_sorted f l : StronglySorted (fun a b => a.1 < b.1) (entries f l).
Proof.
  revert f. induction l as [|[p|] l IH]; intros f; cbn; [constructor| |apply IH].
  constructor; [apply IH|]. apply Forall_forall. intros e He%entries_bounds. cbn. lia.
Qed.

Lemma without_id pn l : (forall e, e ∈ l -> e.1 <> pn) -> without pn l = l.
Proof. intros H. apply filter_all, Forall_forall, H. Qed.

Lemma without_Forall (P : Z * packet -> Prop) pn l : Forall P l -> Forall P (without pn l).
Proof. rewrite !Forall_forall. intros H e [_ He]%list_elem_of_filter. auto. Qed.

Lemma entries_clear f l i :
  (i < length l)%nat -> entries f (<[i := None]> l) = without (f + Z.of_nat i) (entries f l).
Proof.
  revert f i. induction l as [|o l IH]; intros f i Hi; cbn [length] in Hi; [lia|].
  destruct i as [|i].
  - cbn [insert list_insert entries]. assert (without (f + Z.of_nat 0) (entries (f + 1) l) = entries (f + 1) l) as Hw.
    { apply without_id. intros e He%entries_bounds. lia. }
    destruct o as [p|]; [|by rewrite Hw]. unfold without in *. rewrite filter_cons_False by (cbn; lia). by rewrite Hw.
  - change (<[S i := None]> (o :: l)) with (o :: <[i := None]> l). cbn [entries]. rewrite (IH (f + 1) i) by lia.
    replace (f + 1 + Z.of_nat i) with (f + Z.of_nat (S i)) by lia.
    destruct o as [p|]; [|done]. unfold without. by rewrite filter_cons_True by (cbn; lia).
Qed.

Lemma outstanding_app l1 l2 : outstanding (l1 ++ l2) = outstanding l1 + outstanding l2.
Proof. unfold outstanding. rewrite filter_app, length_app. lia. Qed.

Lemma outstanding_cons e l : outstanding (e :: l) = (if Outstanding e.2 then 1 else 0) + outstanding l.
Proof.
  unfold outstanding. rewrite filter_cons. destruct (Outstanding e.2) eqn:E; cbn.
  - rewrite decide_True by done. cbn. lia.
  - by rewrite decide_False.
Qed.

Lemma outstanding_nonneg l : 0 <= outstanding l.
Proof. unfold outstanding. lia. Qed.

Lemma skip_nil_spec l f :
  let '(i, l') := skip_nil l in
  entries f l = entries (f + Z.of_nat i) l' /\ (length l = i + length l')%nat /\
  match l' with None :: _ => False | _ => True end.
Proof.
  revert f. induction l as [|[p|] l IH]; intros f; cbn [skip_nil]; [split_and!; [f_equal; lia|done..]|split_and!; [f_equal; lia|done..]|].
  specialize (IH (f + 1)). destruct (skip_nil l) as [i l']. destruct IH as (IH1 & IH2 & IH3).
  split_and!; [|cbn; lia|done]. cbn [entries]. rewrite IH1. f_equal. lia.
Qed.

Lemma cleanup_spec h : numOutstanding h = outstanding (Packets h) ->
  (packets h <> [] -> firstPacketNumber h + Z.of_nat (length (packets h)) - 1 = highestPacketNumber h /\
                      0 <= firstPacketNumber h) -> -1 <= highestPacketNumber h ->
  hist_ok (cleanupStart h) /\ Packets (cleanupStart h) = Packets h /\ same_rest h (cleanupStart h).
Proof.
  intros Hn Hf Hh. unfold cleanupStart.
  pose proof (skip_nil_spec (packets h) (firstPacketNumber h)) as Hs.
  destruct (skip_nil (packets h)) as [i l'] eqn:E. destruct Hs as (Hs1 & Hs2 & Hs3).
  unfold Packets in *. rewrite Hs1 in Hn |- *. unfold hist_ok, same_rest, Packets.
  destruct l' as [|[p|] l']; [|clear E|done]; cbn [packets firstPacketNumber numOutstanding
    highestPacketNumber pathProbePackets skippedPackets] in *; split_and!; try done.
  intros _. rewrite Hs2 in Hf. destruct Hf; [intros Hz; rewrite Hz in Hs2; cbn in Hs2; lia|]. cbn [length] in *. lia.
Qed.

Lemma tracked_index h pn p : (pn, p) ∈ Packets h ->
  exists idx, getIndex h pn = Some idx /\ packets h !! idx = Some (Some p) /\
    pn = firstPacketNumber h + Z.of_nat idx /\ (idx < length (packets h))%nat.
Proof.
  intros [H1 H2]%elem_of_entries. pose proof (lookup_lt_Some _ _ _ H2) as Hlt.
  exists (Z.to_nat (pn - firstPacketNumber h)). unfold getIndex.
  destruct (packets h) as [|o l] eqn:E; [done|]. rewrite <- E in *.
  rewrite (proj2 (Z.ltb_ge _ _)), (proj2 (Z.ltb_ge _ _)) by lia. split_and!; try done. lia.
Qed.

(** One entry cleared: everything but the leading nil entries is in order. *)
Lemma clear_spec h pn p : hist_ok h -> (pn, p) ∈ Packets h ->
  exists idx h', getIndex h pn = Some idx /\ clear_entry h idx = Ok h' /\
    packets h' = <[idx := None]> (packets h) /\ Packets h' = without pn (Packets h) /\
    same_rest h h' /\ numOutstanding h' = outstanding (Packets h') /\
    (packets h' <> [] -> firstPacketNumber h' + Z.of_nat (length (packets h')) - 1 = highestPacketNumber h' /\
                         0 <= firstPacketNumber h') /\ -1 <= highestPacketNumber h'.
Proof.
  intros (H0 & Hn & Hf & Hh) Hp. destruct (tracked_index h pn p Hp) as (idx & Hi & Hl & Hpn & Hlt).
  assert (Hsplit : Packets h = entries (firstPacketNumber h) (take idx (packets h)) ++
      (pn, p) :: entries (pn + 1) (drop (S idx) (packets h))).
  { unfold Packets. rewrite <- (take_drop_middle _ _ _ Hl) at 1. rewrite entries_app.
    rewrite length_take_le by lia. rewrite <- Hpn. done. }
  assert (Hw : without pn (Packets h) = entries (firstPacketNumber h) (take idx (packets h)) ++
      entries (pn + 1) (drop (S idx) (packets h))).
  { rewrite Hsplit. unfold without. rewrite filter_app, filter_cons_False by (cbn; lia).
    f_equal; apply without_id; intros e He%entries_bounds; [rewrite length_take in He|]; lia. }
  assert (Ho : outstanding (Packets h) = outstanding (without pn (Packets h)) + (if Outstanding p then 1 else 0)).
  { rewrite Hw, Hsplit, !outstanding_app, outstanding_cons. cbn [snd]. lia. }
  pose proof (outstanding_nonneg (without pn (Packets h))).
  eexists idx, _. split; [done|]. unfold clear_entry. rewrite Hl.
  replace (Outstanding p && _) with false by (destruct (Outstanding p); cbn; lia).
  split; [done|]. cbn [packets]. assert (He : Packets (mkHistory (<[idx:=None]> (packets h)) (pathProbePackets h) (skippedPackets h)
     (if Outstanding p then numOutstanding h - 1 else numOutstanding h) (firstPacketNumber h) (highestPacketNumber h))
     = without pn (Packets h)).
  { unfold Packets at 1. cbn. rewrite entries_clear by done. by rewrite <- Hpn. }
  rewrite He. split_and!; try done; cbn.
  - destruct (Outstanding p); lia.
  - intros _. rewrite length_insert. apply Hf. intros E. by rewrite E in Hl.
Qed.

Lemma Remove_spec h pn p : hist_ok h -> (pn, p) ∈ Packets h ->
  exists h', Remove h pn = Ok h' /\ hist_ok h' /\ Packets h' = without pn (Packets h) /\ same_rest h h'.
Proof.
  intros Hok Hp. destruct (clear_spec h pn p Hok Hp) as (idx & h1 & Hi & Hc & Hps & Hpk & Hr & Hn & Hf & Hh).
  unfold Remove. rewrite Hi, Hc. cbn [mbind res_bind].
  destruct (existsb is_packet (take idx (packets h1))) eqn:E; cbn [negb].
  - assert (match packets h1 with None :: _ => False | _ => True end) as Hd.
    { destruct Hok as (H0 & _). rewrite Hps in E |- *. destruct (packets h) as [|o l]; [done|].
      destruct idx as [|idx]; [done|]. done. }
    exists h1. destruct (packets h1) as [|[q|] l] eqn:E1; (split; [done|]); (split; [|done]); unfold hist_ok; rewrite E1 in *; split_and!; done.
  - destruct (cleanup_spec h1) as (Hok' & Hp' & Hr'); try done.
    exists (cleanupStart h1).
    split; [destruct Hok' as (Hd & _); by destruct (packets (cleanupStart h1)) as [|[q|] l]|].
    split_and!; [done|by rewrite Hp'|by eapply same_rest_trans].
Qed.

Lemma DeclareLost_spec h pn p : hist_ok h -> (pn, p) ∈ Packets h ->
  exists h', DeclareLost h pn = Ok h' /\ hist_ok h' /\ Packets h' = without pn (Packets h) /\ same_rest h h'.
Proof.
  intros Hok Hp. destruct (clear_spec h pn p Hok Hp) as (idx & h1 & Hi & Hc & Hps & Hpk & Hr & Hn & Hf & Hh).
  unfold DeclareLost. rewrite Hi, Hc. cbn [mbind res_bind]. destruct (idx =? 0)%nat eqn:E.
  - destruct (cleanup_spec h1) as (Hok' & Hp' & Hr'); try done.
    exists (cleanupStart h1).
    split_and!; [done|done|by rewrite Hp'|by eapply same_rest_trans].
  - exists h1. split; [done|]. split; [|done]. unfold hist_ok. split_and!; try done.
    rewrite Hps. destruct Hok as (H0 & _). destruct (packets h) as [|o l]; [done|].
    destruct idx; [done|]. done.
Qed.

Lemma check_spec h pn : hist_ok h -> next_number h pn ->
  exists h', checkSequentialPacketNumberUse h pn = Ok h' /\ packets h' = packets h /\
    (packets h <> [] -> firstPacketNumber h' = firstPacketNumber h /\ pn = highestPacketNumber h + 1) /\
    (packets h = [] -> firstPacketNumber h' = pn) /\
    highestPacketNumber h' = pn /\ numOutstanding h' = numOutstanding h /\
    pathProbePackets h' = pathProbePackets h /\ skippedPackets h' = skippedPackets h.
Proof.
  intros (_ & _ & Hf & _) [Hp Hnx]. unfold checkSequentialPacketNumberUse, InvalidPacketNumber.
  replace (negb _ && negb _) with false by lia. eexists. split; [done|]. cbn.
  destruct (packets h) eqn:E; split_and!; try done. intros H. destruct (Hf H). cbn [length] in *. lia.
Qed.

(** Appending an entry. *)
Lemma append_spec h h1 pn o n :
  hist_ok h -> next_number h pn -> checkSequentialPacketNumberUse h pn = Ok h1 ->
  (packets h = [] -> o <> None) ->
  n = numOutstanding h + match o with Some p => if Outstanding p then 1 else 0 | None => 0 end ->
  forall pp sk, let h' := mkHistory (packets h1 ++ [o]) pp sk n (firstPacketNumber h1) (highestPacketNumber h1) in
  hist_ok h' /\ highestPacketNumber h' = pn /\
  Packets h' = Packets h ++ match o with Some p => [(pn, p)] | None => [] end.
Proof.
  intros Hok Hnx Hc Ho Hn pp sk h'. destruct (check_spec h pn Hok Hnx) as (h2 & Hc2 & Hp & Hne & He & Hh & Hno & _).
  rewrite Hc in Hc2. injection Hc2 as <-. destruct Hok as (H0 & Hcount & Hf & Hhi).
  assert (Hpk : Packets h' = Packets h ++ match o with Some p => [(pn, p)] | None => [] end).
  { unfold h', Packets. cbn [packets firstPacketNumber]. rewrite entries_app, Hp.
    destruct (packets h) as [|x l] eqn:E.
    - cbn [length entries]. rewrite He, Z.add_0_r by done. destruct o; cbn; done.
    - destruct Hne as [Hfi Hpn]; [done|]. rewrite Hfi. f_equal. destruct Hf as [Hlen _]; [done|].
      replace (firstPacketNumber h + _) with pn by lia. by destruct o. }
  split_and!; [|done|done]. unfold hist_ok. rewrite Hpk. unfold h'. cbn [packets numOutstanding firstPacketNumber highestPacketNumber].
  split_and!; [rewrite Hp; destruct (packets h) as [|[q|] l]; cbn; try done; destruct o; cbn; try done; by apply Ho| | |destruct Hnx; lia].
  - rewrite outstanding_app, Hn, Hcount. destruct o as [p|]; [rewrite outstanding_cons; cbn [snd]|]; change (outstanding []) with 0; lia.
  - intros _. rewrite length_app, Hp. cbn [length]. rewrite Hh.
    destruct (packets h) as [|x l] eqn:E; cbn [length].
    + rewrite He by done. destruct Hnx. lia.
    + destruct Hne as [Hfi Hpn]; [done|]. destruct Hf as [Hlen ?]; [done|]. cbn [length] in Hlen. lia.
Qed.

Lemma SentPacket_spec h pn p : hist_ok h -> next_number h pn ->
  exists h', SentPacket h pn p = Ok h' /\ hist_ok h' /\ Packets h' = Packets h ++ [(pn, p)] /\
    highestPacketNumber h' = pn /\ pathProbePackets h' = pathProbePackets h /\ skippedPackets h' = skippedPackets h.
Proof.
  intros Hok Hnx. destruct (check_spec h pn Hok Hnx) as (h1 & Hc & _ & _ & _ & Hh & Hno & Hpp & Hsk).
  unfold SentPacket. rewrite Hc. cbn [mbind res_bind]. eexists. split; [done|].
  destruct (append_spec h h1 pn (Some p) (if Outstanding p then numOutstanding h1 + 1 else numOutstanding h1)
    Hok Hnx Hc ltac:(done) ltac:(rewrite Hno; destruct (Outstanding p); lia) (pathProbePackets h1) (skippedPackets h1)) as (H1 & H2 & H3).
  split_and!; done.
Qed.

Lemma SentPathProbePacket_spec h pn p : hist_ok h -> next_number h pn ->
  exists h', SentPathProbePacket h pn p = Ok h' /\ hist_ok h' /\ Packets h' = Packets h ++ [(pn, probe_entry)] /\
    highestPacketNumber h' = pn /\ pathProbePackets h' = pathProbePackets h ++ [(pn, p)] /\
    skippedPackets h' = skippedPackets h.
Proof.
  intros Hok Hnx. destruct (check_spec h pn Hok Hnx) as (h1 & Hc & _ & _ & _ & Hh & Hno & Hpp & Hsk).
  unfold SentPathProbePacket. rewrite Hc. cbn [mbind res_bind]. eexists. split; [done|].
  destruct (append_spec h h1 pn (Some probe_entry) (numOutstanding h1)
    Hok Hnx Hc ltac:(done) ltac:(rewrite Hno; cbn; lia) (pathProbePackets h1 ++ [(pn, p)]) (skippedPackets h1)) as (H1 & H2 & H3).
  split_and!; try done. cbn. by rewrite Hpp.
Qed.

Lemma SkippedPacket_spec h pn : hist_ok h -> next_number h pn ->
  exists h', SkippedPacket h pn = Ok h' /\ hist_ok h' /\ Packets h' = Packets h /\
    highestPacketNumber h' = pn /\ pathProbePackets h' = pathProbePackets h /\
    list.last (skippedPackets h') = Some pn /\ (forall q, q ∈ skippedPackets h' -> q = pn \/ q ∈ skippedPackets h).
Proof.
  intros Hok Hnx. destruct (check_spec h pn Hok Hnx) as (h1 & Hc & Hp & _ & He & Hh & Hno & Hpp & Hsk).
  unfold SkippedPacket. rewrite Hc. cbn [mbind res_bind]. eexists. split; [done|]. cbn [packets pathProbePackets skippedPackets highestPacketNumber].
  assert (Hlast : forall q, q ∈ (if (length (skippedPackets h1) =? maxSkippedPackets)%nat
      then drop 1 (skippedPackets h1) else skippedPackets h1) ++ [pn] -> q = pn \/ q ∈ skippedPackets h).
  { rewrite Hsk. intros q [Hq|Hq]%elem_of_app; [|left; by apply list_elem_of_singleton in Hq]. right.
    destruct (_ =? _)%nat; [|done]. destruct (skippedPackets h); [done|]. rewrite elem_of_cons. by right. }
  destruct (packets h1) as [|o l] eqn:E.
  - split_and!; try done; try (by rewrite last_snoc).
    + destruct Hok as (_ & Hn & _ & _). destruct Hnx. unfold hist_ok, Packets in *. rewrite <- Hp in Hn. cbn in *.
      split_and!; try done; lia.
    + unfold Packets. by rewrite <- Hp.
  - destruct (append_spec h h1 pn None (numOutstanding h1) Hok Hnx Hc) with
      (pp := pathProbePackets h1) (sk := (if (length (skippedPackets h1) =? maxSkippedPackets)%nat
      then drop 1 (skippedPackets h1) else skippedPackets h1) ++ [pn]) as (H1 & H2 & H3);
      [congruence|lia|]. rewrite E in *. rewrite app_nil_r in H3. split_and!; try done. by rewrite last_snoc.
Qed.

End SentHistory.
