(* ===== verification/Ecn.v ===== *)
(** * Validation of ECN on a path (src/quicfork/internal/ackhandler/ecn.go)

    The state machine that marks ten testing packets, waits for the peer's
    counts of them and decides whether the path carries ECN marks.  Logging is
    left out. *)

From Stdlib Require Import ZifyBool.
From S2P Require Import Prelude GoBytes ReceivedPackets SentHistory.
Local Open Scope Z_scope.

Module Ecn.
Import Tracker SentHistory.

Inductive ecnState := ecnStateInitial | ecnStateTesting | ecnStateUnknown | ecnStateCapable | ecnStateFailed.

#[export] Instance ecnState_eq_dec : EqDecision ecnState.
Proof. solve_decision. Defined.

#[export] Instance ECN_eq_dec : EqDecision ECN.
Proof. solve_decision. Defined.

Definition numECNTestingPackets : Z := 10.

Record ecnTracker := mkEcn {
  state : ecnState;
  numSentTesting : Z; numLostTesting : Z;
  firstTestingPacket : Z; lastTestingPacket : Z; firstCapablePacket : Z;
  numSentECT0 : Z; numSentECT1 : Z;
  numAckedECT0 : Z; numAckedECT1 : Z; numAckedECNCE : Z }.

Definition newECNTracker : ecnTracker :=
  mkEcn ecnStateInitial 0 0 InvalidPacketNumber InvalidPacketNumber InvalidPacketNumber 0 0 0 0 0.

Definition with_state (e : ecnTracker) (s : ecnState) : ecnTracker :=
  mkEcn s (numSentTesting e) (numLostTesting e) (firstTestingPacket e) (lastTestingPacket e) (firstCapablePacket e)
    (numSentECT0 e) (numSentECT1 e) (numAckedECT0 e) (numAckedECT1 e) (numAckedECNCE e).

(** What follows the counting of a marked packet. *)
Definition sent_marked (e : ecnTracker) (pn : Z) : ecnTracker :=
  let fc := if bool_decide (state e = ecnStateCapable) && (firstCapablePacket e =? InvalidPacketNumber)
            then pn else firstCapablePacket e in
  if negb (bool_decide (state e = ecnStateTesting)) then
    mkEcn (state e) (numSentTesting e) (numLostTesting e) (firstTestingPacket e) (lastTestingPacket e) fc
      (numSentECT0 e) (numSentECT1 e) (numAckedECT0 e) (numAckedECT1 e) (numAckedECNCE e)
  else
    let ft := if firstTestingPacket e =? InvalidPacketNumber then pn else firstTestingPacket e in
    let done_ := numECNTestingPackets <=? numSentECT0 e + numSentECT1 e in
    mkEcn (if done_ then ecnStateUnknown else state e) (u8 (numSentTesting e + 1)) (numLostTesting e) ft
      (if done_ then pn else lastTestingPacket e) fc
      (numSentECT0 e) (numSentECT1 e) (numAckedECT0 e) (numAckedECT1 e) (numAckedECNCE e).

Definition count_sent (e : ecnTracker) (d0 d1 : Z) : ecnTracker :=
  mkEcn (state e) (numSentTesting e) (numLostTesting e) (firstTestingPacket e) (lastTestingPacket e) (firstCapablePacket e)
    (numSentECT0 e + d0) (numSentECT1 e + d1) (numAckedECT0 e) (numAckedECT1 e) (numAckedECNCE e).

Definition SentPacket (e : ecnTracker) (pn : Z) (ecn : ECN) : res herr ecnTracker :=
  match ecn with
  | ECNNon => Ok e
  | ECN_ECT0 => Ok (sent_marked (count_sent e 1 0) pn)
  | ECN_ECT1 => Ok (sent_marked (count_sent e 0 1) pn)
  | ECNUnsupported => if negb (bool_decide (state e = ecnStateFailed)) then Panic else Ok (sent_marked e pn)
  | ECN_CE => Panic
  end.

Definition Mode (e : ecnTracker) : ECN * ecnTracker :=
  match state e with
  | ecnStateInitial => (ECN_ECT0, with_state e ecnStateTesting)
  | ecnStateTesting | ecnStateCapable => (ECN_ECT0, e)
  | ecnStateUnknown | ecnStateFailed => (ECNNon, e)
  end.

Definition isTestingPacket (e : ecnTracker) (pn : Z) : bool :=
  if firstTestingPacket e =? InvalidPacketNumber then false
  else (firstTestingPacket e <=? pn) && ((pn <=? lastTestingPacket e) || (lastTestingPacket e =? InvalidPacketNumber)).

Definition failIfMangled (e : ecnTracker) : ecnTracker :=
  if numAckedECNCE e + numLostTesting e <? numSentECT0 e + numSentECT1 e then e
  else with_state e ecnStateFailed.

Definition LostPacket (e : ecnTracker) (pn : Z) : ecnTracker :=
  match state e with
  | ecnStateTesting | ecnStateUnknown =>
      if negb (isTestingPacket e pn) then e else
      let e := mkEcn (state e) (numSentTesting e) (u8 (numLostTesting e + 1)) (firstTestingPacket e)
                 (lastTestingPacket e) (firstCapablePacket e) (numSentECT0 e) (numSentECT1 e)
                 (numAckedECT0 e) (numAckedECT1 e) (numAckedECNCE e) in
      if negb (bool_decide (state e = ecnStateUnknown)) then e
      else if numSentTesting e <=? numLostTesting e then with_state e ecnStateFailed
      else failIfMangled e
  | _ => e
  end.

Definition ecnMarking (e : ecnTracker) (pn : Z) : ECN :=
  if (pn <? firstTestingPacket e) || (firstTestingPacket e =? InvalidPacketNumber) then ECNNon
  else if (pn <? lastTestingPacket e) || (lastTestingPacket e =? InvalidPacketNumber) then ECN_ECT0
  else if (pn <? firstCapablePacket e) || (firstCapablePacket e =? InvalidPacketNumber) then ECNNon
  else ECN_ECT0.

Definition marked (e : ecnTracker) (m : ECN) (packets : list (Z * packet)) : Z :=
  Z.of_nat (length (filter (fun p => ecnMarking e p.1 = m) packets)).

(** The checks of the counts of an ACK frame, in the order of the code. *)
Definition counts_ok (e : ecnTracker) (packets : list (Z * packet)) (ect0 ect1 ecnce : Z) : bool :=
  let ackedECT0 := marked e ECN_ECT0 packets in
  let ackedECT1 := marked e ECN_ECT1 packets in
  if (numSentECT0 e <? ect0) || (numSentECT1 e <? ect1) then false
  else if ((0 <? ackedECT0) || (0 <? ackedECT1)) && (ect0 =? 0) && (ect1 =? 0) && (ecnce =? 0) then false
  else
    let newECT0 := ect0 - numAckedECT0 e in
    let newECT1 := ect1 - numAckedECT1 e in
    let newECNCE := ecnce - numAckedECNCE e in
    if (newECT0 <? 0) || (newECT1 <? 0) || (newECNCE <? 0) then false
    else if newECT0 + newECNCE <? ackedECT0 then false
    else negb (newECT1 + newECNCE <? ackedECT1).

Definition HandleNewlyAcked (e : ecnTracker) (packets : list (Z * packet)) (ect0 ect1 ecnce : Z) : bool * ecnTracker :=
  if bool_decide (state e = ecnStateFailed) then (false, e)
  else if negb (counts_ok e packets ect0 ect1 ecnce) then (false, with_state e ecnStateFailed)
  else
    let newECT0 := ect0 - numAckedECT0 e in
    let newECT1 := ect1 - numAckedECT1 e in
    let newECNCE := ecnce - numAckedECNCE e in
    let e := mkEcn (state e) (numSentTesting e) (numLostTesting e) (firstTestingPacket e) (lastTestingPacket e)
               (firstCapablePacket e) (numSentECT0 e) (numSentECT1 e) ect0 ect1 ecnce in
    let e := if bool_decide (state e = ecnStateUnknown) then failIfMangled e else e in
    if bool_decide (state e = ecnStateFailed) then (false, e) else
    let e := match state e with
             | ecnStateTesting | ecnStateUnknown =>
                 let ackedTestingPacket := existsb (fun p => isTestingPacket e p.1) packets in
                 if ackedTestingPacket && ((0 <? newECT0) || (0 <? newECT1)) then with_state e ecnStateCapable else e
             | _ => e
             end in
    (bool_decide (state e = ecnStateCapable) && (0 <? newECNCE), e).

(** ** Runs *)

Inductive event :=
| EMode
| ESent (pn : Z) (ecn : ECN)
| ELost (pn : Z)
| EAcked (packets : list (Z * packet)) (ect0 ect1 ecnce : Z).

(** The tracker after an event, and whether it reported congestion. *)
Definition step (e : ecnTracker) (ev : event) : res herr (bool * ecnTracker) :=
  match ev with
  | EMode => Ok (false, (Mode e).2)
  | ESent pn ecn => e ← SentPacket e pn ecn; Ok (false, e)
  | ELost pn => Ok (false, LostPacket e pn)
  | EAcked ps ect0 ect1 ecnce => Ok (HandleNewlyAcked e ps ect0 ect1 ecnce)
  end.

(** A marked packet carries the mark that [Mode] gives; packets that are not
    sent on their own are not marked. *)
Definition guard (e : ecnTracker) (ev : event) : Prop :=
  match ev with
  | ESent pn ecn => 0 <= pn /\ (ecn = ECNNon \/ (ecn = ECN_ECT0 /\ (state e = ecnStateTesting \/ state e = ecnStateCapable)))
  | EAcked _ ect0 ect1 ecnce => 0 <= ect0 /\ 0 <= ect1 /\ 0 <= ecnce
  | _ => True
  end.

Inductive reachable : ecnTracker -> list event -> Prop :=
| reach_start : reachable newECNTracker []
| reach_step e evs ev b e' :
    reachable e evs -> guard e ev -> step e ev = Ok (b, e') -> reachable e' (evs ++ [ev]).

(** ** The invariant *)

Definition tested (e : ecnTracker) : bool := bool_decide (lastTestingPacket e <> InvalidPacketNumber).

Definition inv (e : ecnTracker) : Prop :=
  0 <= numSentTesting e <= numECNTestingPackets /\ numSentECT1 e = 0 /\
  0 <= numAckedECT0 e <= numSentECT0 e /\ numAckedECT1 e = 0 /\ 0 <= numAckedECNCE e /\ 0 <= numLostTesting e /\
  match state e with
  | ecnStateInitial => numSentECT0 e = 0 /\ numSentTesting e = 0 /\ firstTestingPacket e = -1 /\ lastTestingPacket e = -1
  | ecnStateTesting => numSentECT0 e = numSentTesting e /\ numSentTesting e < numECNTestingPackets /\ lastTestingPacket e = -1 /\
                       (firstTestingPacket e = -1 <-> numSentTesting e = 0)
  | ecnStateUnknown => numSentECT0 e = numSentTesting e /\ numSentTesting e = numECNTestingPackets
  | ecnStateCapable => numSentTesting e <= numSentECT0 e /\ 0 < numAckedECT0 e
  | ecnStateFailed => numSentTesting e <= numSentECT0 e
  end.

Lemma sent_inv e pn ecn e' : inv e -> guard e (ESent pn ecn) -> SentPacket e pn ecn = Ok e' -> inv e'.
Proof.
  intros Hi [Hp [-> | [-> Hs]]] He; cbn in He; injection He as <-; [done|].
  unfold inv, sent_marked, count_sent, InvalidPacketNumber, numECNTestingPackets in *.
  cbn [state firstCapablePacket firstTestingPacket numSentECT0 numSentECT1]. destruct Hi as (H1 & H2 & H3 & H4 & H5 & H6 & Hst).
  destruct (state e) eqn:E; try (destruct Hs; discriminate);
    [rewrite (bool_decide_true (ecnStateTesting = ecnStateTesting)) by done
    |rewrite (bool_decide_false (ecnStateCapable = ecnStateTesting)) by done];
    cbn [negb state numSentTesting numLostTesting firstTestingPacket lastTestingPacket numSentECT0 numSentECT1 numAckedECT0 numAckedECT1 numAckedECNCE].
  - rewrite u8_small by lia. destruct (10 <=? _) eqn:Ed; split_and!; try lia.
    destruct (_ =? -1) eqn:Ef; lia.
  - split_and!; lia.
Qed.

Lemma failed_inv e : inv e -> inv (with_state e ecnStateFailed).
Proof.
  unfold inv. intros (H1 & H2 & H3 & H4 & H5 & H6 & Hst). cbn. split_and!; try done; try lia.
  destruct (state e); lia.
Qed.

Lemma mangled_inv e : inv e -> inv (failIfMangled e).
Proof. intros H. unfold failIfMangled. destruct (_ <? _); [done|by apply failed_inv]. Qed.

Lemma ecn_lost_inv e pn : inv e -> inv (LostPacket e pn).
Proof.
  intros Hi. unfold LostPacket. set (e1 := mkEcn _ _ _ _ _ _ _ _ _ _ _).
  assert (inv e1).
  { unfold e1, inv in *. cbn. destruct Hi as (H1 & H2 & H3 & H4 & H5 & H6 & Hst). split_and!; try done; try lia.
    unfold u8. apply Z.mod_pos_bound. lia. }
  clearbody e1. destruct (state e); try done; (destruct (negb _); [done|]);
    (destruct (negb _); [done|]); (destruct (_ <=? _); [by apply failed_inv|by apply mangled_inv]).
Qed.

Lemma ecn_mode_inv e : inv e -> inv (Mode e).2.
Proof.
  intros Hi. unfold Mode. destruct (state e) eqn:E; try done. unfold inv in *. rewrite E in Hi. cbn.
  unfold numECNTestingPackets in *. split_and!; lia.
Qed.

(** The counts that pass the checks. *)
Lemma counts_ok_spec e ps a b c : inv e -> 0 <= b -> counts_ok e ps a b c = true ->
  numAckedECT0 e <= a <= numSentECT0 e /\ b = 0 /\ numAckedECNCE e <= c.
Proof.
  intros (H1 & H2 & H3 & H4 & H5 & H6 & _) Hb. unfold counts_ok.
  destruct (_ || _) eqn:E1; [done|]. destruct (_ && _); [done|].
  destruct (_ || _ || _) eqn:E2; [done|]. intros _. lia.
Qed.

Lemma acked_inv e ps a b c : inv e -> guard e (EAcked ps a b c) ->
  inv (HandleNewlyAcked e ps a b c).2 /\
  ((HandleNewlyAcked e ps a b c).1 = true ->
   state (HandleNewlyAcked e ps a b c).2 = ecnStateCapable /\ numAckedECNCE e < c).
Proof.
  intros Hi (Ha & Hb & Hc). unfold HandleNewlyAcked. case_bool_decide as Hf; [done|].
  destruct (counts_ok e ps a b c) eqn:Hco; cbn [negb]; [|split; [by apply failed_inv|done]].
  destruct (counts_ok_spec _ _ _ _ _ Hi Hb Hco) as (Ha' & -> & Hc'). set (e1 := mkEcn _ _ _ _ _ _ _ _ _ _ _).
  assert (He1 : inv e1).
  { unfold e1, inv in *. cbn. destruct Hi as (H1 & H2 & H3 & H4 & H5 & H6 & Hst). split_and!; try lia.
    destruct (state e); try done; lia. }
  assert (Hpos : 0 < a - numAckedECT0 e -> 0 < numAckedECT0 e1) by (cbn; destruct Hi as (_ & _ & ? & _); lia).
  assert (H1 : numAckedECT1 e = 0) by (unfold inv in Hi; tauto).
  set (e2 := if bool_decide (state e1 = ecnStateUnknown) then failIfMangled e1 else e1).
  assert (He2 : inv e2 /\ numAckedECT0 e2 = numAckedECT0 e1).
  { unfold e2. case_bool_decide; [|done]. split; [by apply mangled_inv|]. unfold failIfMangled. by destruct (_ <? _). }
  clearbody e2. destruct He2 as [He2 Hn2]. case_bool_decide as Hf2; [done|]. rewrite <- Hn2 in Hpos. clear Hn2.
  assert (Hw : forall e', inv e' ->
    inv e' /\ (bool_decide (state e' = ecnStateCapable) && (0 <? c - numAckedECNCE e) = true ->
                state e' = ecnStateCapable /\ numAckedECNCE e < c)).
  { intros e' He'. split; [done|]. intros [Hs1%bool_decide_eq_true Hs2]%andb_true_iff. split; [done|lia]. }
  cbn [fst snd]. apply Hw. clear Hw.
  assert (Hcap : inv e2 -> 0 < numAckedECT0 e2 -> inv (with_state e2 ecnStateCapable)).
  { clear. unfold inv. cbn. intros (H1 & H2 & H3 & H4 & H5 & H6 & Hst) Hp. split_and!; try done; try lia.
    destruct (state e2); lia. }
  destruct (state e2) eqn:E2; try done; (destruct (existsb _ _ && _) eqn:Ex; [|done]); apply Hcap; try done; lia.
Qed.

Lemma ecn_reachable_inv e evs : reachable e evs -> inv e.
Proof.
  induction 1 as [|e evs ev b e' _ IH Hg Hs]; [unfold inv, numECNTestingPackets; cbn; split_and!; lia || done|].
  destruct ev as [|pn ecn|pn|ps x y z]; cbn in Hs.
  - injection Hs as _ <-. by apply ecn_mode_inv.
  - destruct (SentPacket e pn ecn) as [e1| |] eqn:E; [|done..]. injection Hs as _ <-. by eapply sent_inv.
  - injection Hs as _ <-. by apply ecn_lost_inv.
  - injection Hs as Hs. destruct (acked_inv e ps x y z IH Hg) as [H1 _]. by rewrite Hs in H1.
Qed.

(** ECN validation, whatever the peer reports and the path loses: at most ten marked packets are
    sent before the path is known to carry marks; that is only concluded after the peer reported
    an ECT(0) mark; congestion is only reported on such a path and for a new CE mark; and a failed
    validation is final. *)
Theorem ecn_validation_sound (e e' : ecnTracker) (evs : list event) (ev : event) (b : bool) :
  reachable e evs -> guard e ev -> step e ev = Ok (b, e') ->
  (state e <> ecnStateCapable -> state e <> ecnStateFailed -> numSentECT0 e <= numECNTestingPackets) /\
  (state e' = ecnStateCapable -> 0 < numAckedECT0 e') /\
  (b = true -> state e' = ecnStateCapable /\ numAckedECNCE e < numAckedECNCE e') /\
  (state e = ecnStateFailed -> state e' = ecnStateFailed).
Proof.
  intros Hr Hg Hs. pose proof (ecn_reachable_inv _ _ Hr) as Hi.
  pose proof (ecn_reachable_inv _ _ (reach_step _ _ _ _ _ Hr Hg Hs)) as Hi'. split_and!.
  - unfold inv, numECNTestingPackets in *. destruct (state e); intros; try done; lia.
  - intros E. unfold inv in Hi'. rewrite E in Hi'. tauto.
  - intros ->. destruct ev as [|pn ecn|pn|ps x y z]; cbn in Hs; try done.
    + by destruct (SentPacket e pn ecn).
    + injection Hs as Hs. destruct (acked_inv e ps x y z Hi Hg) as [_ H2]. rewrite Hs in H2.
      destruct (H2 eq_refl) as [H3 H4]. split; [done|]. assert (numAckedECNCE e' = z); [|lia].
      revert Hs. unfold HandleNewlyAcked, failIfMangled. repeat (case_bool_decide || case_match); intros ?; by simplify_eq.
  - intros E. destruct ev as [|pn ecn|pn|ps x y z]; cbn in Hs.
    + injection Hs as _ <-. unfold Mode. by rewrite E.
    + destruct Hg as [_ [-> | [_ [Hst|Hst]]]]; [|congruence..]. cbn in Hs. by injection Hs as _ <-.
    + injection Hs as _ <-. unfold LostPacket. by rewrite E.
    + injection Hs as Hs. unfold HandleNewlyAcked in Hs. rewrite bool_decide_true in Hs by done. by injection Hs as _ <-.
Qed.

(** Ten marked packets, acknowledged with nine marks and one that says congestion. *)
Definition testing : list event := EMode :: map (fun pn => ESent pn ECN_ECT0) (seqZ 0 10).

Fixpoint run (e : ecnTracker) (evs : list event) : res herr ecnTracker :=
  match evs with [] => Ok e | ev :: evs => '(_, e) ← step e ev; run e evs end.

Lemma run_reachable_ecn : forall evs e past e', reachable e past ->
  (fix ok e evs := match evs with
                   | [] => True
                   | ev :: evs => guard e ev /\ match step e ev with Ok (_, e) => ok e evs | _ => False end
                   end) e evs ->
  run e evs = Ok e' -> reachable e' (past ++ evs).
Proof.
  induction evs as [|ev evs IH]; intros e past e' Hr Hg H; cbn in H.
  - injection H as <-. by rewrite app_nil_r.
  - destruct Hg as [Hg Hgs]. destruct (step e ev) as [[b e1]| |] eqn:E; [|done..]. cbn in H.
    rewrite cons_middle, app_assoc. eapply IH; [|exact Hgs|exact H]. by eapply reach_step.
Qed.

Definition tested_path : ecnTracker := match run newECNTracker testing with Ok e => e | _ => newECNTracker end.

Lemma tested_reachable : reachable tested_path testing.
Proof.
  apply (run_reachable_ecn testing newECNTracker []); [constructor| |vm_compute; reflexivity].
  cbn. repeat split; try lia; right; (split; [done|]); by left.
Qed.

Definition all_acked : event := EAcked ((fun pn => (pn, probe_entry)) <$> seqZ 0 10) 9 0 1.

Lemma ecn_validation_sound_witness :
  exists b e', step tested_path all_acked = Ok (b, e') /\ (b = true -> state e' = ecnStateCapable /\ numAckedECNCE tested_path < numAckedECNCE e').
Proof.
  destruct (step tested_path all_acked) as [[b e']| |] eqn:E; [|vm_compute in E; discriminate E..].
  exists b, e'. split; [done|]. refine (proj1 (proj2 (proj2 (ecn_validation_sound tested_path e' testing all_acked b tested_reachable _ E)))). cbn. lia.
Defined.

(** The last testing packet is sent with a mark, but its acknowledgement is not counted as one:
    a peer that reports one mark too few for it goes unnoticed. *)
Definition ten_sent : res herr ecnTracker :=
  foldr (fun pn (r : res herr ecnTracker) => e ← r; SentPacket e pn ECN_ECT0) (Ok (Mode newECNTracker).2) (rev (seqZ 0 10)).

Theorem last_testing_packet_not_counted :
  exists e, ten_sent = Ok e /\ state e = ecnStateUnknown /\ isTestingPacket e 9 = true /\ ecnMarking e 9 = ECNNon /\
    (let acked := (fun pn => (pn, probe_entry)) <$> seqZ 0 10 in
     (HandleNewlyAcked e acked 9 0 0).2.(state) = ecnStateCapable).
Proof. eexists. split; [vm_compute; reflexivity|]. split_and!; vm_compute; reflexivity. Qed.

End Ecn.
