(* ===== verification/SentPackets.v ===== *)
(** * Loss recovery: the handler of sent packets
    (src/quicfork/internal/ackhandler/sent_packet_handler.go)

    What a connection has sent and what became of it: acknowledgements, loss by
    reordering and by time, probe timeouts, the limits on sending, keys that
    are dropped, Retry and path migration.  Calls to the handlers of the frames
    and to [ignorePacketsBelow] are recorded in [calls].  The congestion
    controller is used through an interface; it reads the RTT statistics it
    shares with the handler.  Logging and qlog are left out.  An error closes
    the connection, so the state after it is left out too.  The flag
    [includedInBytesInFlight] is cleared only on packets that leave the
    history, where it is not read again. *)

From Stdlib Require Import ZifyBool.
From S2P Require Import Prelude GoBytes Varint Wire AckFrame Frames FrameParser PacketNumber ReceivedPackets RttStats SentHistory Ecn.
Local Open Scope Z_scope.

(** [congestion.SendAlgorithmWithDebugInfos], as far as the handler uses it, and
    [NewCubicSender] for the controller of a new path; [None] is a panic. *)
Class SendAlgorithm (C : Type) := {
  TimeUntilSend : RttStats.RTTStats -> C -> Z -> option Z;
  HasPacingBudget : RttStats.RTTStats -> C -> Z -> bool;
  OnPacketSent : RttStats.RTTStats -> C -> Z -> Z -> Z -> Z -> bool -> C;
  CanSend : C -> Z -> bool;
  MaybeExitSlowStart : RttStats.RTTStats -> C -> C;
  OnPacketAcked : RttStats.RTTStats -> C -> Z -> Z -> Z -> Z -> C;
  OnCongestionEvent : C -> Z -> Z -> Z -> C;
  SetMaxDatagramSize : C -> Z -> option C;
  NewCubicSender : RttStats.RTTStats -> Z -> C }.

Module SentPackets.
Import Wire Ack Tracker RttStats SentHistory.

Notation EncryptionLevel := FrameParser.EncryptionLevel.
Notation EncryptionInitial := FrameParser.EncryptionInitial.
Notation EncryptionHandshake := FrameParser.EncryptionHandshake.
Notation Encryption0RTT := FrameParser.Encryption0RTT.
Notation Encryption1RTT := FrameParser.Encryption1RTT.
Notation Perspective := PacketNumber.Perspective.
Notation PerspectiveServer := PacketNumber.PerspectiveServer.
Notation PerspectiveClient := PacketNumber.PerspectiveClient.

#[export] Instance level_eq_dec : EqDecision EncryptionLevel.
Proof. solve_decision. Defined.
#[export] Instance perspective_eq_dec : EqDecision Perspective.
Proof. solve_decision. Defined.

(** ** Constants *)

Definition packetThreshold : Z := 3.
Definition amplificationFactor : Z := 3.
Definition minRTTAfterRetry : Z := 5 * Millisecond.
Definition maxPTODuration : Z := 60 * Second.
Definition pathProbePacketLossTimeout : Z := Second.
Definition MaxCongestionWindowPackets : Z := 10000.
Definition MaxOutstandingSentPackets : Z := 2 * MaxCongestionWindowPackets.
Definition MaxTrackedSentPackets : Z := Z.quot (MaxOutstandingSentPackets * 5) 4.

(** ** State *)

Inductive SendMode :=
| SendNone | SendAck | SendPTOInitial | SendPTOHandshake | SendPTOAppData | SendPacingLimited | SendAny.

Inductive timerType := TimerTypeACK | TimerTypePTO | TimerTypePathProbe.

(** Zero values are [0] and [None]. *)
Record alarmTimer := mkAlarm { Time : Z; TimerType : option timerType; AlarmLevel : option EncryptionLevel }.
Definition no_alarm : alarmTimer := mkAlarm 0 None None.

Record ConnectionStats := mkStats { BytesSent : Z; PacketsSent : Z; BytesReceived : Z; PacketsReceived : Z }.

Record packetNumberSpace := mkSpace {
  history : sentPacketHistory;
  pns : packetNumberGenerator;
  lossTime : Z; lastAckElicitingPacketTime : Z;
  largestAcked : Z; largestSent : Z }.

(** [r] is the random number of the first skip. *)
Definition newPacketNumberSpace (initialPN : Z) (isAppData : bool) (r : Z) : packetNumberSpace :=
  mkSpace newSentPacketHistory
    (if isAppData then newSkippingPacketNumberGenerator initialPN SkipPacketInitialPeriod SkipPacketMaxPeriod r
     else sequential initialPN)
    0 0 InvalidPacketNumber InvalidPacketNumber.

Definition with_history (s : packetNumberSpace) (x : sentPacketHistory) : packetNumberSpace :=
  mkSpace x (pns s) (lossTime s) (lastAckElicitingPacketTime s) (largestAcked s) (largestSent s).
Definition with_pns (s : packetNumberSpace) (x : packetNumberGenerator) : packetNumberSpace :=
  mkSpace (history s) x (lossTime s) (lastAckElicitingPacketTime s) (largestAcked s) (largestSent s).
Definition with_lossTime (s : packetNumberSpace) (x : Z) : packetNumberSpace :=
  mkSpace (history s) (pns s) x (lastAckElicitingPacketTime s) (largestAcked s) (largestSent s).
Definition with_lastTime (s : packetNumberSpace) (x : Z) : packetNumberSpace :=
  mkSpace (history s) (pns s) (lossTime s) x (largestAcked s) (largestSent s).
Definition with_largestAcked (s : packetNumberSpace) (x : Z) : packetNumberSpace :=
  mkSpace (history s) (pns s) (lossTime s) (lastAckElicitingPacketTime s) x (largestSent s).
Definition with_largestSent (s : packetNumberSpace) (x : Z) : packetNumberSpace :=
  mkSpace (history s) (pns s) (lossTime s) (lastAckElicitingPacketTime s) (largestAcked s) x.

(** The calls out of the handler. *)
Inductive call :=
| OnAcked (handler : Z) (f : FrameParser.Frame)
| OnLost (handler : Z) (f : FrameParser.Frame)
| IgnorePacketsBelow (pn : Z).

Inductive aerr :=
| errUnsentAcked                                 (* "received ACK for an unsent packet" *)
| errSkippedAcked (pn : Z)                       (* "received an ACK for skipped packet number" *)
| errAckedNotEmpty                               (* "ackhandler BUG: ackedPackets slice not empty" *)
| errWrongPacket (pn smallest largest : Z)       (* "BUG: ackhandler would have acked wrong packet" *)
| errHistory (e : herr)
| errAck (e : werr)
| errPTODropped                                  (* "sentPacketHandler BUG: PTO fired, ..." *)
| errPTOLevel (l : EncryptionLevel).             (* "PTO timer in unexpected encryption level" *)

Section handler.
Context {C : Type} {CC : SendAlgorithm C}.

(** A nil packet number space or ECN tracker is [None]; [customCC] and
    [ignorePacketsBelow] say whether they are not nil. *)
Record sentPacketHandler := mkHandler {
  initialPackets : option packetNumberSpace;
  handshakePackets : option packetNumberSpace;
  appDataPackets : packetNumberSpace;
  lostPackets : lostPacketTracker;
  largestAckedTime : Z;
  peerCompletedAddressValidation : bool;
  bytesReceived : Z;
  bytesSent : Z;
  peerAddressValidated : bool;
  handshakeConfirmed : bool;
  ignorePacketsBelow : bool;
  ackedPackets : list (Z * packet);
  bytesInFlight : Z;
  congestion : C;
  customCC : bool;
  rttStats : RTTStats;
  connStats : ConnectionStats;
  ptoCount : Z;
  ptoMode : SendMode;
  numProbesToSend : Z;
  alarm : alarmTimer;
  h_ecn : option Ecn.ecnTracker;
  perspective : Perspective;
  calls : list call }.

Definition with_initial (h : sentPacketHandler) (x : option packetNumberSpace) : sentPacketHandler :=
  mkHandler x (handshakePackets h) (appDataPackets h) (lostPackets h) (largestAckedTime h)
    (peerCompletedAddressValidation h) (bytesReceived h) (bytesSent h) (peerAddressValidated h)
    (handshakeConfirmed h) (ignorePacketsBelow h) (ackedPackets h) (bytesInFlight h) (congestion h) (customCC h)
    (rttStats h) (connStats h) (ptoCount h) (ptoMode h) (numProbesToSend h) (alarm h) (h_ecn h) (perspective h)
    (calls h).
Definition with_handshake (h : sentPacketHandler) (x : option packetNumberSpace) : sentPacketHandler :=
  mkHandler (initialPackets h) x (appDataPackets h) (lostPackets h) (largestAckedTime h) (peerCompletedAddressValidation
    h) (bytesReceived h) (bytesSent h) (peerAddressValidated h) (handshakeConfirmed h) (ignorePacketsBelow h)
    (ackedPackets h) (bytesInFlight h) (congestion h) (customCC h) (rttStats h) (connStats h) (ptoCount h)
    (ptoMode h) (numProbesToSend h) (alarm h) (h_ecn h) (perspective h) (calls h).
Definition with_app (h : sentPacketHandler) (x : packetNumberSpace) : sentPacketHandler :=
  mkHandler (initialPackets h) (handshakePackets h) x (lostPackets h) (largestAckedTime h)
    (peerCompletedAddressValidation h) (bytesReceived h) (bytesSent h) (peerAddressValidated h)
    (handshakeConfirmed h) (ignorePacketsBelow h) (ackedPackets h) (bytesInFlight h) (congestion h) (customCC h)
    (rttStats h) (connStats h) (ptoCount h) (ptoMode h) (numProbesToSend h) (alarm h) (h_ecn h) (perspective h)
    (calls h).
Definition with_lost (h : sentPacketHandler) (x : lostPacketTracker) : sentPacketHandler :=
  mkHandler (initialPackets h) (handshakePackets h) (appDataPackets h) x (largestAckedTime h)
    (peerCompletedAddressValidation h) (bytesReceived h) (bytesSent h) (peerAddressValidated h)
    (handshakeConfirmed h) (ignorePacketsBelow h) (ackedPackets h) (bytesInFlight h) (congestion h) (customCC h)
    (rttStats h) (connStats h) (ptoCount h) (ptoMode h) (numProbesToSend h) (alarm h) (h_ecn h) (perspective h)
    (calls h).
Definition with_largestAckedTime (h : sentPacketHandler) (x : Z) : sentPacketHandler :=
  mkHandler (initialPackets h) (handshakePackets h) (appDataPackets h) (lostPackets h) x (peerCompletedAddressValidation
    h) (bytesReceived h) (bytesSent h) (peerAddressValidated h) (handshakeConfirmed h) (ignorePacketsBelow h)
    (ackedPackets h) (bytesInFlight h) (congestion h) (customCC h) (rttStats h) (connStats h) (ptoCount h)
    (ptoMode h) (numProbesToSend h) (alarm h) (h_ecn h) (perspective h) (calls h).
Definition with_completed (h : sentPacketHandler) (x : bool) : sentPacketHandler :=
  mkHandler (initialPackets h) (handshakePackets h) (appDataPackets h) (lostPackets h) (largestAckedTime h) x
    (bytesReceived h) (bytesSent h) (peerAddressValidated h) (handshakeConfirmed h) (ignorePacketsBelow h)
    (ackedPackets h) (bytesInFlight h) (congestion h) (customCC h) (rttStats h) (connStats h) (ptoCount h)
    (ptoMode h) (numProbesToSend h) (alarm h) (h_ecn h) (perspective h) (calls h).
Definition with_received (h : sentPacketHandler) (x : Z) (y : ConnectionStats) : sentPacketHandler :=
  mkHandler (initialPackets h) (handshakePackets h) (appDataPackets h) (lostPackets h) (largestAckedTime h)
    (peerCompletedAddressValidation h) x (bytesSent h) (peerAddressValidated h) (handshakeConfirmed h)
    (ignorePacketsBelow h) (ackedPackets h) (bytesInFlight h) (congestion h) (customCC h) (rttStats h) y
    (ptoCount h) (ptoMode h) (numProbesToSend h) (alarm h) (h_ecn h) (perspective h) (calls h).
Definition with_sent (h : sentPacketHandler) (x : Z) (y : ConnectionStats) : sentPacketHandler :=
  mkHandler (initialPackets h) (handshakePackets h) (appDataPackets h) (lostPackets h) (largestAckedTime h)
    (peerCompletedAddressValidation h) (bytesReceived h) x (peerAddressValidated h) (handshakeConfirmed h)
    (ignorePacketsBelow h) (ackedPackets h) (bytesInFlight h) (congestion h) (customCC h) (rttStats h) y
    (ptoCount h) (ptoMode h) (numProbesToSend h) (alarm h) (h_ecn h) (perspective h) (calls h).
Definition with_validated (h : sentPacketHandler) (x : bool) : sentPacketHandler :=
  mkHandler (initialPackets h) (handshakePackets h) (appDataPackets h) (lostPackets h) (largestAckedTime h)
    (peerCompletedAddressValidation h) (bytesReceived h) (bytesSent h) x (handshakeConfirmed h)
    (ignorePacketsBelow h) (ackedPackets h) (bytesInFlight h) (congestion h) (customCC h) (rttStats h)
    (connStats h) (ptoCount h) (ptoMode h) (numProbesToSend h) (alarm h) (h_ecn h) (perspective h) (calls h).
Definition with_stats (h : sentPacketHandler) (x : ConnectionStats) : sentPacketHandler :=
  mkHandler (initialPackets h) (handshakePackets h) (appDataPackets h) (lostPackets h) (largestAckedTime h)
    (peerCompletedAddressValidation h) (bytesReceived h) (bytesSent h) (peerAddressValidated h)
    (handshakeConfirmed h) (ignorePacketsBelow h) (ackedPackets h) (bytesInFlight h) (congestion h) (customCC h)
    (rttStats h) x (ptoCount h) (ptoMode h) (numProbesToSend h) (alarm h) (h_ecn h) (perspective h) (calls h).
Definition with_confirmed (h : sentPacketHandler) (x : bool) : sentPacketHandler :=
  mkHandler (initialPackets h) (handshakePackets h) (appDataPackets h) (lostPackets h) (largestAckedTime h)
    (peerCompletedAddressValidation h) (bytesReceived h) (bytesSent h) (peerAddressValidated h) x
    (ignorePacketsBelow h) (ackedPackets h) (bytesInFlight h) (congestion h) (customCC h) (rttStats h)
    (connStats h) (ptoCount h) (ptoMode h) (numProbesToSend h) (alarm h) (h_ecn h) (perspective h) (calls h).
Definition with_acked (h : sentPacketHandler) (x : list (Z * packet)) : sentPacketHandler :=
  mkHandler (initialPackets h) (handshakePackets h) (appDataPackets h) (lostPackets h) (largestAckedTime h)
    (peerCompletedAddressValidation h) (bytesReceived h) (bytesSent h) (peerAddressValidated h)
    (handshakeConfirmed h) (ignorePacketsBelow h) x (bytesInFlight h) (congestion h) (customCC h) (rttStats h)
    (connStats h) (ptoCount h) (ptoMode h) (numProbesToSend h) (alarm h) (h_ecn h) (perspective h) (calls h).
Definition with_flight (h : sentPacketHandler) (x : Z) : sentPacketHandler :=
  mkHandler (initialPackets h) (handshakePackets h) (appDataPackets h) (lostPackets h) (largestAckedTime h)
    (peerCompletedAddressValidation h) (bytesReceived h) (bytesSent h) (peerAddressValidated h)
    (handshakeConfirmed h) (ignorePacketsBelow h) (ackedPackets h) x (congestion h) (customCC h) (rttStats h)
    (connStats h) (ptoCount h) (ptoMode h) (numProbesToSend h) (alarm h) (h_ecn h) (perspective h) (calls h).
Definition with_cc (h : sentPacketHandler) (x : C) : sentPacketHandler :=
  mkHandler (initialPackets h) (handshakePackets h) (appDataPackets h) (lostPackets h) (largestAckedTime h)
    (peerCompletedAddressValidation h) (bytesReceived h) (bytesSent h) (peerAddressValidated h)
    (handshakeConfirmed h) (ignorePacketsBelow h) (ackedPackets h) (bytesInFlight h) x (customCC h) (rttStats h)
    (connStats h) (ptoCount h) (ptoMode h) (numProbesToSend h) (alarm h) (h_ecn h) (perspective h) (calls h).
Definition with_rtt (h : sentPacketHandler) (x : RTTStats) : sentPacketHandler :=
  mkHandler (initialPackets h) (handshakePackets h) (appDataPackets h) (lostPackets h) (largestAckedTime h)
    (peerCompletedAddressValidation h) (bytesReceived h) (bytesSent h) (peerAddressValidated h)
    (handshakeConfirmed h) (ignorePacketsBelow h) (ackedPackets h) (bytesInFlight h) (congestion h) (customCC h)
    x (connStats h) (ptoCount h) (ptoMode h) (numProbesToSend h) (alarm h) (h_ecn h) (perspective h) (calls h).
Definition with_pto (h : sentPacketHandler) (x : Z) (y : SendMode) (z : Z) : sentPacketHandler :=
  mkHandler (initialPackets h) (handshakePackets h) (appDataPackets h) (lostPackets h) (largestAckedTime h)
    (peerCompletedAddressValidation h) (bytesReceived h) (bytesSent h) (peerAddressValidated h)
    (handshakeConfirmed h) (ignorePacketsBelow h) (ackedPackets h) (bytesInFlight h) (congestion h) (customCC h)
    (rttStats h) (connStats h) x y z (alarm h) (h_ecn h) (perspective h) (calls h).
Definition with_alarm (h : sentPacketHandler) (x : alarmTimer) : sentPacketHandler :=
  mkHandler (initialPackets h) (handshakePackets h) (appDataPackets h) (lostPackets h) (largestAckedTime h)
    (peerCompletedAddressValidation h) (bytesReceived h) (bytesSent h) (peerAddressValidated h)
    (handshakeConfirmed h) (ignorePacketsBelow h) (ackedPackets h) (bytesInFlight h) (congestion h) (customCC h)
    (rttStats h) (connStats h) (ptoCount h) (ptoMode h) (numProbesToSend h) x (h_ecn h) (perspective h) (calls
    h).
Definition with_ecn (h : sentPacketHandler) (x : option Ecn.ecnTracker) : sentPacketHandler :=
  mkHandler (initialPackets h) (handshakePackets h) (appDataPackets h) (lostPackets h) (largestAckedTime h)
    (peerCompletedAddressValidation h) (bytesReceived h) (bytesSent h) (peerAddressValidated h)
    (handshakeConfirmed h) (ignorePacketsBelow h) (ackedPackets h) (bytesInFlight h) (congestion h) (customCC h)
    (rttStats h) (connStats h) (ptoCount h) (ptoMode h) (numProbesToSend h) (alarm h) x (perspective h) (calls
    h).
Definition with_calls (h : sentPacketHandler) (x : list call) : sentPacketHandler :=
  mkHandler (initialPackets h) (handshakePackets h) (appDataPackets h) (lostPackets h) (largestAckedTime h)
    (peerCompletedAddressValidation h) (bytesReceived h) (bytesSent h) (peerAddressValidated h)
    (handshakeConfirmed h) (ignorePacketsBelow h) (ackedPackets h) (bytesInFlight h) (congestion h) (customCC h)
    (rttStats h) (connStats h) (ptoCount h) (ptoMode h) (numProbesToSend h) (alarm h) (h_ecn h) (perspective h)
    x.

(** ** Construction *)

Definition NewSentPacketHandler (cc : option C) (initialPN initialMaxDatagramSize : Z) (rtt : RTTStats)
    (stats : ConnectionStats) (clientAddressValidated enableECN hasIgnore : bool) (pers : Perspective) (r : Z)
    : sentPacketHandler :=
  mkHandler (Some (newPacketNumberSpace initialPN false 0)) (Some (newPacketNumberSpace 0 false 0))
    (newPacketNumberSpace 0 true r) (newLostPacketTracker 64) 0
    (bool_decide (pers = PerspectiveServer)) 0 0
    (bool_decide (pers = PerspectiveClient) || clientAddressValidated) false hasIgnore [] 0
    (match cc with Some c => c | None => NewCubicSender rtt initialMaxDatagramSize end)
    (match cc with Some _ => true | None => false end) rtt stats 0 SendNone 0 no_alarm
    (if enableECN then Some Ecn.newECNTracker else None) pers [].

(** ** Helpers *)

Definition getPacketNumberSpace (h : sentPacketHandler) (encLevel : EncryptionLevel) : option packetNumberSpace :=
  match encLevel with
  | EncryptionInitial => initialPackets h
  | EncryptionHandshake => handshakePackets h
  | Encryption0RTT | Encryption1RTT => Some (appDataPackets h)
  end.

(** The space, where it is dereferenced. *)
Definition space (h : sentPacketHandler) (l : EncryptionLevel) : res aerr packetNumberSpace :=
  match getPacketNumberSpace h l with Some s => Ok s | None => Panic end.

Definition put (h : sentPacketHandler) (l : EncryptionLevel) (s : packetNumberSpace) : sentPacketHandler :=
  match l with
  | EncryptionInitial => with_initial h (Some s)
  | EncryptionHandshake => with_handshake h (Some s)
  | Encryption0RTT | Encryption1RTT => with_app h s
  end.

Definition put_history (h : sentPacketHandler) (l : EncryptionLevel) (x : sentPacketHistory) : res aerr sentPacketHandler :=
  s ← space h l; Ok (put h l (with_history s x)).

Definition removeFromBytesInFlight (h : sentPacketHandler) (p : packet) : res aerr sentPacketHandler :=
  if includedInBytesInFlight p then
    if bytesInFlight h <? Length p then Panic else Ok (with_flight h (bytesInFlight h - Length p))
  else Ok h.

(** The frames of a packet that have a handler, in the order of the callbacks. *)
Definition handled (p : packet) : list (Z * FrameParser.Frame) :=
  omap (fun f => (fun x => (x, fr_Frame f)) <$> fr_Handler f) (Frames_ p) ++
  omap (fun f => (fun x => (x, FrameParser.FStream (sf_Frame f))) <$> sf_Handler f) (StreamFrames p).

Definition add_calls (h : sentPacketHandler) (l : list call) : sentPacketHandler := with_calls h (calls h ++ l).

Definition queueFramesForRetransmission (h : sentPacketHandler) (p : packet) : res aerr sentPacketHandler :=
  match Frames_ p, StreamFrames p with
  | [], [] => Panic
  | _, _ => Ok (add_calls h (map (fun x => OnLost x.1 x.2) (handled p)))
  end.

Definition isAmplificationLimited (h : sentPacketHandler) : bool :=
  if peerAddressValidated h then false
  else amplificationFactor * bytesReceived h <=? bytesSent h.

(** ** The loss detection timer *)

Definition earlier (t other : Z) : bool := (other =? 0) || (negb (t =? 0) && (t <? other)).

Definition getLossTimeAndSpace (h : sentPacketHandler) : Z * option EncryptionLevel :=
  let '(t, l) := match initialPackets h with
                 | Some s => (lossTime s, Some EncryptionInitial)
                 | None => (0, None)
                 end in
  let '(t, l) := match handshakePackets h with
                 | Some s => if earlier (lossTime s) t then (lossTime s, Some EncryptionHandshake) else (t, l)
                 | None => (t, l)
                 end in
  let s := appDataPackets h in
  if earlier (lossTime s) t then (lossTime s, Some Encryption1RTT) else (t, l).

(** The shift of an [int64] by [ptoCount]. *)
Definition getScaledPTO (h : sentPacketHandler) (includeMaxAckDelay : bool) : Z :=
  let pto := i64 (Z.shiftl (PTO (rttStats h) includeMaxAckDelay) (ptoCount h)) in
  if (maxPTODuration <? pto) || (pto <=? 0) then maxPTODuration else pto.

Definition space_outstanding (o : option packetNumberSpace) : bool :=
  match o with Some s => HasOutstandingPackets (history s) | None => false end.

Definition hasOutstandingCryptoPackets (h : sentPacketHandler) : bool :=
  space_outstanding (initialPackets h) || space_outstanding (handshakePackets h).

Definition getPTOTimeAndSpace (h : sentPacketHandler) (now : Z) : Z * option EncryptionLevel :=
  if negb (handshakeConfirmed h) && negb (hasOutstandingCryptoPackets h) then
    if peerCompletedAddressValidation h then (0, None) else
    let t := now + getScaledPTO h false in
    match initialPackets h with
    | Some _ => (t, Some EncryptionInitial)
    | None => (t, Some EncryptionHandshake)
    end
  else
    let '(pto, l) := match initialPackets h with
                     | Some s =>
                         if HasOutstandingPackets (history s) && negb (lastAckElicitingPacketTime s =? 0)
                         then (lastAckElicitingPacketTime s + getScaledPTO h false, Some EncryptionInitial)
                         else (0, None)
                     | None => (0, None)
                     end in
    let '(pto, l) := match handshakePackets h with
                     | Some s =>
                         if HasOutstandingPackets (history s) && negb (lastAckElicitingPacketTime s =? 0) then
                           let t := lastAckElicitingPacketTime s + getScaledPTO h false in
                           if earlier t pto then (t, Some EncryptionHandshake) else (pto, l)
                         else (pto, l)
                     | None => (pto, l)
                     end in
    let s := appDataPackets h in
    if handshakeConfirmed h && HasOutstandingPackets (history s) && negb (lastAckElicitingPacketTime s =? 0) then
      let t := lastAckElicitingPacketTime s + getScaledPTO h true in
      if earlier t pto then (t, Some Encryption1RTT) else (pto, l)
    else (pto, l).

Definition lossDetectionTime (h : sentPacketHandler) (now : Z) : alarmTimer :=
  let app := history (appDataPackets h) in
  if peerCompletedAddressValidation h && negb (hasOutstandingCryptoPackets h) &&
     negb (HasOutstandingPackets app) && negb (HasOutstandingPathProbes app) then no_alarm
  else if isAmplificationLimited h then no_alarm
  else
    let probe := match FirstOutstandingPathProbe app with
                 | Some (_, p) => SendTime p + pathProbePacketLossTimeout
                 | None => 0
                 end in
    let '(lt, l) := getLossTimeAndSpace h in
    if negb (lt =? 0) && ((probe =? 0) || (lt <? probe)) then mkAlarm lt (Some TimerTypeACK) l
    else
      let '(pt, l) := getPTOTimeAndSpace h now in
      if negb (pt =? 0) && ((probe =? 0) || (pt <? probe)) then mkAlarm pt (Some TimerTypePTO) l
      else if negb (probe =? 0) then mkAlarm probe (Some TimerTypePathProbe) (Some Encryption1RTT)
      else no_alarm.

Definition setLossDetectionTimer (h : sentPacketHandler) (now : Z) : sentPacketHandler :=
  with_alarm h (lossDetectionTime h now).

Definition GetLossDetectionTimeout (h : sentPacketHandler) : Z := Time (alarm h).

(** ** Sending *)

Definition PeekPacketNumber (h : sentPacketHandler) (encLevel : EncryptionLevel) : res aerr (Z * Z) :=
  s ← space h encLevel;
  let pn := Peek (pns s) in
  Ok (pn, PacketNumber.PacketNumberLengthForHeader pn (largestAcked s)).

Definition PopPacketNumber (h : sentPacketHandler) (encLevel : EncryptionLevel) (r : Z) : res aerr (Z * sentPacketHandler) :=
  s ← space h encLevel;
  let '(skipped, pn, g) := Pop (pns s) r in
  hist ← (if skipped then wrap_err errHistory (SkippedPacket (history s) (pn - 1)) else Ok (history s));
  Ok (pn, put h encLevel (with_history (with_pns s g) hist)).

Definition SentPacket (h : sentPacketHandler) (t pn largestAcked : Z) (streamFrames : list StreamFrame)
    (frames : list Frame) (encLevel : EncryptionLevel) (ecn : ECN) (size : Z)
    (isPathMTUProbePacket isPathProbePacket : bool) : res aerr sentPacketHandler :=
  let st := connStats h in
  let h := with_sent h (bytesSent h + size)
             (mkStats (u64 (BytesSent st + size)) (u64 (PacketsSent st + 1)) (BytesReceived st) (PacketsReceived st)) in
  s ← space h encLevel;
  let s := with_largestSent s pn in
  let p := mkPacket t streamFrames frames largestAcked size (Some encLevel) isPathMTUProbePacket false isPathProbePacket in
  if isPathProbePacket then
    hist ← wrap_err errHistory (SentPathProbePacket (history s) pn p);
    Ok (setLossDetectionTimer (put h encLevel (with_history s hist)) t)
  else
    let isAckEliciting := IsAckEliciting p in
    let s := if isAckEliciting then with_lastTime s t else s in
    let h := if isAckEliciting then
               with_pto (with_flight h (bytesInFlight h + size)) (ptoCount h) (ptoMode h)
                 (if 0 <? numProbesToSend h then numProbesToSend h - 1 else numProbesToSend h)
             else h in
    let p := mkPacket t streamFrames frames largestAcked size (Some encLevel) isPathMTUProbePacket
               isAckEliciting isPathProbePacket in
    let h := with_cc h (OnPacketSent (rttStats h) (congestion h) t (bytesInFlight h) pn size isAckEliciting) in
    h ← (match h_ecn h with
         | Some e => if bool_decide (encLevel = Encryption1RTT)
                     then e ← wrap_err errHistory (Ecn.SentPacket e pn ecn); Ok (with_ecn h (Some e))
                     else Ok h
         | None => Ok h
         end);
    hist ← wrap_err errHistory (SentHistory.SentPacket (history s) pn p);
    let h := put h encLevel (with_history s hist) in
    if negb isAckEliciting then
      Ok (if negb (peerCompletedAddressValidation h) then setLossDetectionTimer h t else h)
    else Ok (setLossDetectionTimer h t).

Definition SendMode_ (h : sentPacketHandler) (now : Z) : SendMode :=
  let len o := match o with Some s => Len (history s) | None => 0 end in
  let numTrackedPackets := Len (history (appDataPackets h)) + len (initialPackets h) + len (handshakePackets h) in
  if isAmplificationLimited h then SendNone
  else if MaxTrackedSentPackets <=? numTrackedPackets then SendNone
  else if 0 <? numProbesToSend h then ptoMode h
  else if negb (CanSend (congestion h) (bytesInFlight h)) then SendAck
  else if MaxOutstandingSentPackets <=? numTrackedPackets then SendAck
  else if negb (HasPacingBudget (rttStats h) (congestion h) now) then SendPacingLimited
  else SendAny.

Definition TimeUntilSend_ (h : sentPacketHandler) : res aerr Z :=
  match TimeUntilSend (rttStats h) (congestion h) (bytesInFlight h) with Some t => Ok t | None => Panic end.

Definition SetMaxDatagramSize_ (h : sentPacketHandler) (s : Z) : res aerr sentPacketHandler :=
  match SetMaxDatagramSize (congestion h) s with Some c => Ok (with_cc h c) | None => Panic end.

Definition ECNMode (h : sentPacketHandler) (isShortHeaderPacket : bool) : ECN * sentPacketHandler :=
  match h_ecn h with
  | None => (ECNUnsupported, h)
  | Some e => if negb isShortHeaderPacket then (ECNNon, h)
              else let '(m, e) := Ecn.Mode e in (m, with_ecn h (Some e))
  end.

(** ** Receiving *)

Definition ReceivedBytes (h : sentPacketHandler) (n t : Z) : sentPacketHandler :=
  let st := connStats h in
  let wasAmplificationLimit := isAmplificationLimited h in
  let h := with_received h (bytesReceived h + n)
             (mkStats (BytesSent st) (PacketsSent st) (u64 (BytesReceived st + n)) (PacketsReceived st)) in
  if wasAmplificationLimit && negb (isAmplificationLimited h) then setLossDetectionTimer h t else h.

Definition ReceivedPacket (h : sentPacketHandler) (l : EncryptionLevel) (t : Z) : sentPacketHandler :=
  let st := connStats h in
  let h := with_stats h (mkStats (BytesSent st) (PacketsSent st) (BytesReceived st) (u64 (PacketsReceived st + 1))) in
  if bool_decide (perspective h = PerspectiveServer) && bool_decide (l = EncryptionHandshake) &&
     negb (peerAddressValidated h)
  then setLossDetectionTimer (with_validated h true) t else h.

(** *** Acknowledged packets *)

Fixpoint acks_skipped (ack : AckFrame) (l : list Z) : res aerr unit :=
  match l with
  | [] => Ok tt
  | p :: l => a ← wrap_err errAck (AcksPacket ack p);
              if (a : bool) then Err (errSkippedAcked p) else acks_skipped ack l
  end.

(** [ack.AckRanges[len(ack.AckRanges)-1-ackRangeIndex]] *)
Definition range_from_end (ack : AckFrame) (i : nat) : res aerr AckRange :=
  match AckRanges ack !! (length (AckRanges ack) - 1 - i)%nat with Some r => Ok r | None => Panic end.

(** The inner loop; the number of ranges is enough fuel. *)
Fixpoint next_range (fuel : nat) (ack : AckFrame) (pn : Z) (i : nat) (r : AckRange) : res aerr (nat * AckRange) :=
  if (Largest r <? pn) && (i <? length (AckRanges ack) - 1)%nat then
    match fuel with
    | O => Panic
    | S fuel => r ← range_from_end ack (S i); next_range fuel ack pn (S i) r
    end
  else Ok (i, r).

(** The position in the ranges and whether the packet is acknowledged. *)
Definition in_ranges (ack : AckFrame) (i : nat) (pn : Z) : res aerr (nat * bool) :=
  if negb (HasMissingRanges ack) then Ok (i, true) else
  r ← range_from_end ack i;
  '(i, r) ← next_range (length (AckRanges ack)) ack pn i r;
  if pn <? Smallest r then Ok (i, false)
  else if Largest r <? pn then Err (errWrongPacket pn (Smallest r) (Largest r))
  else Ok (i, true).

Fixpoint acked_loop (ack : AckFrame) (lowest largest : Z) (hist : sentPacketHistory) (acked : list (Z * packet))
    (i : nat) (hasAckEliciting : bool) (l : list (Z * packet))
    : res aerr (sentPacketHistory * list (Z * packet) * bool) :=
  match l with
  | [] => Ok (hist, acked, hasAckEliciting)
  | (pn, p) :: l =>
      if pn <? lowest then acked_loop ack lowest largest hist acked i hasAckEliciting l
      else if largest <? pn then Ok (hist, acked, hasAckEliciting)
      else
        '(i, is_acked) ← in_ranges ack i pn;
        if negb (is_acked : bool) then acked_loop ack lowest largest hist acked i hasAckEliciting l
        else if isPathProbePacket p then
          let '(probePacket, hist) := RemovePathProbe hist pn in
          let acked := match probePacket with Some q => acked ++ [(pn, q)] | None => acked end in
          acked_loop ack lowest largest hist acked i hasAckEliciting l
        else acked_loop ack lowest largest hist (acked ++ [(pn, p)]) i
               (if IsAckEliciting p then true else hasAckEliciting) l
  end.

(** The callbacks of the acknowledged packets, which then leave the history. *)
Fixpoint ack_packets (encLevel : EncryptionLevel) (h : sentPacketHandler) (l : list (Z * packet)) : res aerr sentPacketHandler :=
  match l with
  | [] => Ok h
  | (pn, p) :: l =>
      let h := if negb (LargestAcked p =? InvalidPacketNumber) && bool_decide (encLevel = Encryption1RTT) &&
                  ignorePacketsBelow h
               then add_calls h [IgnorePacketsBelow (LargestAcked p + 1)] else h in
      let h := add_calls h (map (fun x => OnAcked x.1 x.2) (handled p)) in
      s ← space h encLevel;
      hist ← wrap_err errHistory (Remove (history s) pn);
      ack_packets encLevel (put h encLevel (with_history s hist)) l
  end.

Definition detectAndRemoveAckedPackets (h : sentPacketHandler) (ack : AckFrame) (encLevel : EncryptionLevel)
    : res aerr (bool * sentPacketHandler) :=
  match ackedPackets h with
  | _ :: _ => Err errAckedNotEmpty
  | [] =>
      s ← space h encLevel;
      _ ← (if bool_decide (encLevel = Encryption1RTT) then acks_skipped ack (skippedPackets (history s)) else Ok tt);
      lowestAcked ← wrap_err errAck (LowestAcked ack);
      largestAcked ← wrap_err errAck (Ack.LargestAcked ack);
      '(hist, acked, hasAckEliciting) ← acked_loop ack lowestAcked largestAcked (history s) [] 0 false (Packets (history s));
      h ← ack_packets encLevel (with_acked (put h encLevel (with_history s hist)) acked) acked;
      Ok (hasAckEliciting, h)
  end.

(** *** Lost packets *)

(** [time.Duration(timeThreshold * maxRTT)] with [timeThreshold = 9.0 / 8]. *)
Definition loss_delay (rtt : RTTStats) : Z :=
  Z.max (Z.quot (float64 (9 * float64 (Z.max (latestRTT rtt) (smoothedRTT rtt)))) 8) TimerGranularity.

(** [f.Handler.OnLost(f.Frame)]: the handler is not checked for nil here. *)
Fixpoint probe_calls (fs : list Frame) : res aerr (list call) :=
  match fs with
  | [] => Ok []
  | f :: fs => match fr_Handler f with
               | None => Panic
               | Some x => cs ← probe_calls fs; Ok (OnLost x (fr_Frame f) :: cs)
               end
  end.

Fixpoint probes_lost (h : sentPacketHandler) (l : list (Z * packet)) : res aerr sentPacketHandler :=
  match l with
  | [] => Ok h
  | (pn, p) :: l =>
      cs ← probe_calls (Frames_ p);
      let h := add_calls h cs in
      let s := appDataPackets h in
      probes_lost (with_app h (with_history s (RemovePathProbe (history s) pn).2)) l
  end.

Definition detectLostPathProbes (h : sentPacketHandler) (now : Z) : res aerr sentPacketHandler :=
  let hist := history (appDataPackets h) in
  if negb (HasOutstandingPathProbes hist) then Ok h else
  let lossTime := now - pathProbePacketLossTimeout in
  probes_lost h (filter (fun e => SendTime e.2 <= lossTime) (pathProbePackets hist)).

Definition is_app (l : EncryptionLevel) : bool :=
  match l with Encryption0RTT | Encryption1RTT => true | _ => false end.

(** What is done with a packet that is declared lost. *)
Definition lose_packet (h : sentPacketHandler) (encLevel : EncryptionLevel) (priorInFlight pn : Z) (p : packet)
    : res aerr sentPacketHandler :=
  let h := if is_app encLevel then with_lost h (lost_Add (lostPackets h) pn (SendTime p)) else h in
  s ← space h encLevel;
  hist ← wrap_err errHistory (DeclareLost (history s) pn);
  let h := put h encLevel (with_history s hist) in
  if negb (isPathProbePacket p) && IsAckEliciting p then
    h ← removeFromBytesInFlight h p;
    h ← queueFramesForRetransmission h p;
    let h := if negb (IsPathMTUProbePacket p)
             then with_cc h (OnCongestionEvent (congestion h) pn (Length p) priorInFlight) else h in
    Ok (match h_ecn h with
        | Some e => if bool_decide (encLevel = Encryption1RTT) then with_ecn h (Some (Ecn.LostPacket e pn)) else h
        | None => h
        end)
  else Ok h.

Fixpoint lost_loop (h : sentPacketHandler) (encLevel : EncryptionLevel) (lossDelay lostSendTime priorInFlight : Z)
    (l : list (Z * packet)) : res aerr sentPacketHandler :=
  match l with
  | [] => Ok h
  | (pn, p) :: l =>
      s ← space h encLevel;
      if largestAcked s <? pn then Ok h else
      if (SendTime p <=? lostSendTime) || (packetThreshold <=? Difference (history s) (largestAcked s) pn) then
        h ← lose_packet h encLevel priorInFlight pn p;
        lost_loop h encLevel lossDelay lostSendTime priorInFlight l
      else
        let h := if lossTime s =? 0 then put h encLevel (with_lossTime s (SendTime p + lossDelay)) else h in
        lost_loop h encLevel lossDelay lostSendTime priorInFlight l
  end.

Definition detectLostPackets (h : sentPacketHandler) (now : Z) (encLevel : EncryptionLevel) : res aerr sentPacketHandler :=
  s ← space h encLevel;
  let h := put h encLevel (with_lossTime s 0) in
  let lossDelay := loss_delay (rttStats h) in
  lost_loop h encLevel lossDelay (now - lossDelay) (bytesInFlight h) (Packets (history s)).

(** *** Spurious losses *)

(** The inner loop over the ranges, from the last one down. *)
Fixpoint spurious_range (ranges : list AckRange) (pn : Z) (i : nat) : res aerr (nat * AckRange) :=
  match ranges !! i with
  | None => Panic
  | Some r =>
      if Largest r <? pn then
        match i with
        | O => Ok (O, r)
        | S i' => spurious_range ranges pn i'
        end
      else Ok (i, r)
  end.

Fixpoint spurious_loop (ranges : list AckRange) (i : nat) (l : list (Z * Z)) : res aerr (list Z) :=
  match l with
  | [] => Ok []
  | (pn, _) :: l =>
      '(i, r) ← spurious_range ranges pn i;
      rest ← spurious_loop ranges i l;
      Ok (if (Smallest r <=? pn) && (pn <=? Largest r) then pn :: rest else rest)
  end.

Definition detectSpuriousLosses (h : sentPacketHandler) (ack : AckFrame) : res aerr sentPacketHandler :=
  spuriousLosses ← spurious_loop (AckRanges ack) (length (AckRanges ack) - 1) (SentHistory.lostPackets (lostPackets h));
  Ok (with_lost h (fold_left lost_Delete spuriousLosses (lostPackets h))).

(** *** ReceivedAck *)

Definition update_rtt (h : sentPacketHandler) (ack : AckFrame) (encLevel : EncryptionLevel) (rcvTime largest : Z)
    (hasAckEliciting : bool) : sentPacketHandler :=
  match list.last (ackedPackets h) with
  | Some (pn, p) =>
      if (pn =? largest) && negb (isPathProbePacket p) && hasAckEliciting then
        let ackDelay := if bool_decide (encLevel = Encryption1RTT)
                        then Z.min (DelayTime ack) (maxAckDelay (rttStats h)) else 0 in
        let h := if (largestAckedTime h =? 0) || negb (SendTime p <? largestAckedTime h)
                 then with_largestAckedTime (with_rtt h (UpdateRTT (rttStats h) (rcvTime - SendTime p) ackDelay)) (SendTime p)
                 else h in
        with_cc h (MaybeExitSlowStart (rttStats h) (congestion h))
      else h
  | None => h
  end.

Definition update_ecn (h : sentPacketHandler) (s : packetNumberSpace) (ack : AckFrame) (encLevel : EncryptionLevel)
    (largest priorInFlight : Z) : sentPacketHandler :=
  match h_ecn h with
  | Some e =>
      if bool_decide (encLevel = Encryption1RTT) && (largestAcked s <? largest) then
        let '(congested, e) := Ecn.HandleNewlyAcked e (ackedPackets h) (i64 (ECT0 ack)) (i64 (ECT1 ack)) (i64 (ECNCE ack)) in
        let h := with_ecn h (Some e) in
        if (congested : bool) then with_cc h (OnCongestionEvent (congestion h) largest 0 priorInFlight) else h
      else h
  | None => h
  end.

(** The congestion controller learns of the acknowledged packets, whose bytes
    leave the network. *)
Fixpoint settle_acked (h : sentPacketHandler) (priorInFlight rcvTime : Z) (acked1RTTPacket : bool) (l : list (Z * packet))
    : res aerr (bool * sentPacketHandler) :=
  match l with
  | [] => Ok (acked1RTTPacket, h)
  | (pn, p) :: l =>
      let h := if includedInBytesInFlight p
               then with_cc h (OnPacketAcked (rttStats h) (congestion h) pn (Length p) priorInFlight rcvTime) else h in
      let acked1RTTPacket := if bool_decide (SentHistory.EncryptionLevel p = Some Encryption1RTT) then true else acked1RTTPacket in
      h ← removeFromBytesInFlight h p;
      settle_acked h priorInFlight rcvTime acked1RTTPacket l
  end.

(** What follows once packets were newly acknowledged. *)
Definition after_acked (h : sentPacketHandler) (ack : AckFrame) (encLevel : EncryptionLevel) (rcvTime largest : Z)
    (hasAckEliciting : bool) (priorInFlight : Z) : res aerr (bool * sentPacketHandler) :=
  let h := update_rtt h ack encLevel rcvTime largest hasAckEliciting in
  s ← space h encLevel;
  let h := update_ecn h s ack encLevel largest priorInFlight in
  let h := put h encLevel (with_largestAcked s (Z.max (largestAcked s) largest)) in
  h ← detectLostPackets h rcvTime encLevel;
  h ← (if bool_decide (encLevel = Encryption1RTT) then detectLostPathProbes h rcvTime else Ok h);
  '(acked1RTTPacket, h) ← settle_acked h priorInFlight rcvTime false (ackedPackets h);
  s ← space h encLevel;
  h ← (if bool_decide (encLevel = Encryption1RTT) && (largest =? largestAcked s) then
         h ← detectSpuriousLosses h ack;
         Ok (with_lost h (DeleteBefore (lostPackets h) (rcvTime - 3 * PTO (rttStats h) false)))
       else Ok h);
  let h := with_acked h [] in
  let h := with_pto h (if peerCompletedAddressValidation h then 0 else ptoCount h) (ptoMode h) 0 in
  Ok (acked1RTTPacket, setLossDetectionTimer h rcvTime).

Definition ReceivedAck (h : sentPacketHandler) (ack : AckFrame) (encLevel : EncryptionLevel) (rcvTime : Z)
    : res aerr (bool * sentPacketHandler) :=
  s ← space h encLevel;
  largest ← wrap_err errAck (Ack.LargestAcked ack);
  if largestSent s <? largest then Err errUnsentAcked else
  let h := if bool_decide (perspective h = PerspectiveClient) && negb (peerCompletedAddressValidation h) &&
              bool_decide (encLevel = EncryptionHandshake \/ encLevel = Encryption1RTT)
           then setLossDetectionTimer (with_completed h true) rcvTime else h in
  let priorInFlight := bytesInFlight h in
  '(hasAckEliciting, h) ← detectAndRemoveAckedPackets h ack encLevel;
  match ackedPackets h with
  | [] => Ok (false, h)
  | _ => after_acked h ack encLevel rcvTime largest hasAckEliciting priorInFlight
  end.

(** ** Timeouts and probes *)

(** The probes that are owed when the timer of space [l] fires. *)
Definition pto_probes (h : sentPacketHandler) (l : EncryptionLevel) (r : Z) : res aerr sentPacketHandler :=
  let h := with_pto h (u32 (ptoCount h + 1)) (ptoMode h) (numProbesToSend h + 2) in
  match l with
  | EncryptionInitial => Ok (with_pto h (ptoCount h) SendPTOInitial (numProbesToSend h))
  | EncryptionHandshake => Ok (with_pto h (ptoCount h) SendPTOHandshake (numProbesToSend h))
  | Encryption1RTT =>
      '(pn, h) ← PopPacketNumber h Encryption1RTT r;
      s ← space h Encryption1RTT;
      hist ← wrap_err errHistory (SkippedPacket (history s) pn);
      let h := put h Encryption1RTT (with_history s hist) in
      Ok (with_pto h (ptoCount h) SendPTOAppData (numProbesToSend h))
  | Encryption0RTT => Err (errPTOLevel l)
  end.

(** The part of [OnLossDetectionTimeout] for the probe timeout. *)
Definition on_pto (h : sentPacketHandler) (now r : Z) : res aerr sentPacketHandler :=
  if (bytesInFlight h =? 0) && negb (peerCompletedAddressValidation h) then
    let h := with_pto h (u32 (ptoCount h + 1)) (ptoMode h) (numProbesToSend h + 1) in
    match initialPackets h, handshakePackets h with
    | Some _, _ => Ok (with_pto h (ptoCount h) SendPTOInitial (numProbesToSend h))
    | None, Some _ => Ok (with_pto h (ptoCount h) SendPTOHandshake (numProbesToSend h))
    | None, None => Err errPTODropped
    end
  else
    let '(ptoTime, l) := getPTOTimeAndSpace h now in
    if ptoTime =? 0 then Ok h else
    l ← (match l with Some l => Ok l | None => Panic end);
    ps ← space h l;
    if negb (HasOutstandingPackets (history ps)) && negb (HasOutstandingPathProbes (history ps)) &&
       negb (peerCompletedAddressValidation h)
    then Ok h else pto_probes h l r.

Definition OnLossDetectionTimeout (h : sentPacketHandler) (now r : Z) : res aerr sentPacketHandler :=
  h ← (if handshakeConfirmed h then detectLostPathProbes h now else Ok h);
  let '(earliestLossTime, l) := getLossTimeAndSpace h in
  h ← (if negb (earliestLossTime =? 0) then
         match l with Some l => detectLostPackets h now l | None => Panic end
       else on_pto h now r);
  Ok (setLossDetectionTimer h now).

Definition QueueProbePacket (h : sentPacketHandler) (encLevel : EncryptionLevel) : res aerr (bool * sentPacketHandler) :=
  s ← space h encLevel;
  match FirstOutstanding (history s) with
  | None => Ok (false, h)
  | Some (pn, p) =>
      hist ← wrap_err errHistory (DeclareLost (history s) pn);
      h ← removeFromBytesInFlight (put h encLevel (with_history s hist)) p;
      h ← queueFramesForRetransmission h p;
      Ok (true, h)
  end.

(** ** Keys dropped, Retry, migration *)

Fixpoint remove_all_flight (h : sentPacketHandler) (l : list (Z * packet)) : res aerr sentPacketHandler :=
  match l with
  | [] => Ok h
  | (_, p) :: l => h ← removeFromBytesInFlight h p; remove_all_flight h l
  end.

Fixpoint drop_0rtt (h : sentPacketHandler) (l : list (Z * packet)) : res aerr sentPacketHandler :=
  match l with
  | [] => Ok h
  | (pn, p) :: l =>
      if negb (bool_decide (SentHistory.EncryptionLevel p = Some Encryption0RTT)) then Ok h else
      h ← removeFromBytesInFlight h p;
      let s := appDataPackets h in
      (* the error of [Remove] is ignored *)
      match Remove (history s) pn with
      | Ok hist => drop_0rtt (with_app h (with_history s hist)) l
      | Err _ => drop_0rtt h l
      | Panic => Panic
      end
  end.

Definition DropPackets (h : sentPacketHandler) (encLevel : EncryptionLevel) (now : Z) : res aerr sentPacketHandler :=
  let h := if bool_decide (perspective h = PerspectiveClient) && bool_decide (encLevel = EncryptionHandshake)
           then with_completed h true else h in
  let reset h := setLossDetectionTimer (with_pto h 0 SendNone 0) now in
  match encLevel with
  | EncryptionInitial =>
      match initialPackets h with
      | None => Ok h
      | Some s => h ← remove_all_flight h (Packets (history s)); Ok (reset (with_initial h None))
      end
  | EncryptionHandshake =>
      match handshakePackets h with
      | None => Ok h
      | Some s => h ← remove_all_flight h (Packets (history s));
                  Ok (reset (with_handshake (with_confirmed h true) None))
      end
  | Encryption0RTT =>
      h ← drop_0rtt h (Packets (history (appDataPackets h))); Ok (reset h)
  | Encryption1RTT => Panic
  end.

Fixpoint queue_all (h : sentPacketHandler) (l : list (Z * packet)) : res aerr sentPacketHandler :=
  match l with
  | [] => Ok h
  | (_, p) :: l =>
      h ← (if IsAckEliciting p then queueFramesForRetransmission h p else Ok h);
      queue_all h l
  end.

(** The first send time that is not zero. *)
Definition first_send_time (l : list (Z * packet)) : Z :=
  fold_left (fun t e => if t =? 0 then SendTime e.2 else t) l 0.

Definition ResetForRetry (h : sentPacketHandler) (now r : Z) : res aerr sentPacketHandler :=
  let h := with_flight h 0 in
  s ← space h EncryptionInitial;
  let firstPacketSendTime := first_send_time (Packets (history s)) in
  h ← queue_all h (Packets (history s));
  h ← queue_all h (Packets (history (appDataPackets h)));
  let h := if ptoCount h =? 0
           then with_rtt h (UpdateRTT (rttStats h) (Z.max minRTTAfterRetry (now - firstPacketSendTime)) 0) else h in
  let h := with_initial h (Some (newPacketNumberSpace (Peek (pns s)) false 0)) in
  let h := with_app h (newPacketNumberSpace (Peek (pns (appDataPackets h))) true r) in
  let h := with_alarm h no_alarm in
  Ok (with_pto h 0 (ptoMode h) (numProbesToSend h)).

Fixpoint migrate_packets (h : sentPacketHandler) (l : list (Z * packet)) : res aerr sentPacketHandler :=
  match l with
  | [] => Ok h
  | (pn, p) :: l =>
      let s := appDataPackets h in
      hist ← wrap_err errHistory (DeclareLost (history s) pn);
      let h := with_app h (with_history s hist) in
      h ← (if negb (isPathProbePacket p) then
             h ← removeFromBytesInFlight h p;
             if IsAckEliciting p then queueFramesForRetransmission h p else Ok h
           else Ok h);
      migrate_packets h l
  end.

(** [RemovePathProbe] on the array behind the slice, of which the first [len]
    elements are the slice: [copy] shifts them and leaves the last one behind. *)
Definition remove_in_place (arr : list (Z * packet)) (len : nat) (pn : Z) : list (Z * packet) * nat :=
  match list_find (fun e => e.1 = pn) (take len arr) with
  | Some (idx, _) => (take idx arr ++ drop (S idx) (take len arr) ++ drop (len - 1) arr, (len - 1)%nat)
  | None => (arr, len)
  end.

(** The loop of [MigratedPath] over the path probes: it reads the array it
    changes, at the indices of the slice it started with. *)
Fixpoint migrate_probes (n i : nat) (arr : list (Z * packet)) (len : nat) : list (Z * packet) :=
  match n with
  | O => take len arr
  | S n =>
      match arr !! i with
      | Some e => let '(arr, len) := remove_in_place arr len e.1 in migrate_probes n (S i) arr len
      | None => take len arr
      end
  end.

Definition MigratedPath (h : sentPacketHandler) (now initialMaxDatagramSize : Z) : res aerr sentPacketHandler :=
  let h := with_rtt h (ResetForPathMigration (rttStats h)) in
  h ← migrate_packets h (Packets (history (appDataPackets h)));
  let s := appDataPackets h in
  let probes := pathProbePackets (history s) in
  let h := with_app h (with_history s (with_probes (history s) (migrate_probes (length probes) 0 probes (length probes)))) in
  let h := if customCC h then h else with_cc h (NewCubicSender (rttStats h) initialMaxDatagramSize) in
  Ok (setLossDetectionTimer h now).

End handler.
End SentPackets.
