(* ===== verification/SentAcks.v ===== *)
(** * Which packets an ACK frame acknowledges

    The handler of sent packets walks the tracked packets and the ranges of an
    ACK frame in step (the loops of [detectAndRemoveAckedPackets] in
    src/quicfork/internal/ackhandler/sent_packet_handler.go).  The walk is shown
    equivalent to asking the frame about every packet. *)

From Stdlib Require Import ZifyBool.
From stdpp Require Import sorting.
From S2P Require Import Prelude GoBytes Varint Wire AckFrame FrameParser SentHistory SentPackets.
Local Open Scope Z_scope.

Module SentAcks.
Import Wire Ack SentHistory SentPackets.

Definition covers (ack : AckFrame) (pn : Z) : bool :=
  existsb (fun r => (Smallest r <=? pn) && (pn <=? Largest r)) (AckRanges ack).

(** The [i]-th range from the end, the lowest first. *)
Definition ascending (ack : AckFrame) (i : nat) : option AckRange := reverse (AckRanges ack) !! i.

Lemma ascending_from_end ack i : (i < length (AckRanges ack))%nat ->
  exists r, ascending ack i = Some r /\ range_from_end ack i = Ok r.
Proof.
  intros Hi. unfold ascending, range_from_end.
  destruct (lookup_lt_is_Some_2 (AckRanges ack) (length (AckRanges ack) - S i)) as [r Hr]; [lia|].
  exists r. rewrite reverse_lookup by done. replace (length _ - 1 - i)%nat with (length (AckRanges ack) - S i)%nat by lia.
  by rewrite Hr.
Qed.

Lemma ascending_order ack i j ri rj : ack_ok ack -> ascending ack i = Some ri -> ascending ack j = Some rj ->
  Smallest ri <= Largest ri /\ ((i < j)%nat -> Largest ri < Smallest rj).
Proof.
  intros (_ & Hok & _) Hi Hj. unfold ascending in *.
  pose proof (lookup_lt_Some _ _ _ Hi) as Li. pose proof (lookup_lt_Some _ _ _ Hj) as Lj. rewrite length_reverse in *.
  rewrite reverse_lookup in Hi, Hj by done.
  destruct (ranges_lookup _ _ _ _ ri ri Hok Hi Hi) as (H1 & _).
  destruct (ranges_lookup _ _ _ _ rj ri Hok Hj Hi) as (_ & _ & H2). split; [lia|]. intros Hij.
  specialize (H2 ltac:(lia)). lia.
Qed.

Lemma covers_ascending ack pn : covers ack pn = true <-> exists i r, ascending ack i = Some r /\ Smallest r <= pn <= Largest r.
Proof.
  unfold covers, ascending. rewrite existsb_exists. split.
  - intros (r & Hr%list_elem_of_In & Hc). apply elem_of_reverse, list_elem_of_lookup_1 in Hr as [i Hi].
    exists i, r. split; [done|lia].
  - intros (i & r & Hi & Hc). exists r. split; [|lia].
    by apply list_elem_of_In, elem_of_reverse, (list_elem_of_lookup_2 _ i).
Qed.

(** The ranges before the [i]-th end before [pn]. *)
Definition passed (ack : AckFrame) (i : nat) (pn : Z) : Prop :=
  (i < length (AckRanges ack))%nat /\ forall j r, (j < i)%nat -> ascending ack j = Some r -> Largest r < pn.

Lemma next_range_spec ack pn : forall fuel i r, (length (AckRanges ack) - 1 - i <= fuel)%nat ->
  ascending ack i = Some r -> passed ack i pn ->
  exists i' r', next_range fuel ack pn i r = Ok (i', r') /\ ascending ack i' = Some r' /\ passed ack i' pn /\
    (Largest r' < pn -> S i' = length (AckRanges ack)).
Proof.
  induction fuel as [|fuel IH]; intros i r Hf Hr [Hi Hp]; cbn [next_range].
  - rewrite (proj2 (Nat.ltb_ge _ _)), andb_false_r by lia. exists i, r. split_and!; try done. lia.
  - destruct (Largest r <? pn) eqn:E; cbn [andb].
    + destruct (Nat.ltb_spec i (length (AckRanges ack) - 1)) as [Hlt|Hge].
      * destruct (ascending_from_end ack (S i)) as (r1 & Hr1 & ->); [lia|]. cbn [mbind res_bind].
        apply IH; [lia|done|]. split; [lia|]. intros j r2 Hj Hr2. destruct (decide (j = i)) as [-> |]; [|apply (Hp j); [lia|done]].
        rewrite Hr in Hr2. simplify_eq. lia.
      * exists i, r. split_and!; try done. lia.
    + exists i, r. split_and!; try done. lia.
Qed.

Lemma ack_bounds ack : ack_ok ack -> exists lo hi, LowestAcked ack = Ok lo /\ Ack.LargestAcked ack = Ok hi /\
  (exists rl, ascending ack 0 = Some rl /\ Smallest rl = lo) /\
  (exists rh, ascending ack (length (AckRanges ack) - 1) = Some rh /\ Largest rh = hi).
Proof.
  intros (Hne & _). unfold LowestAcked, Ack.LargestAcked, range_at, ascending.
  destruct (AckRanges ack) as [|r0 l] eqn:E; [done|]. cbn [length].
  destruct (lookup_lt_is_Some_2 (r0 :: l) (length l)) as [rl Hl]; [cbn; lia|].
  rewrite !reverse_lookup by (cbn; lia). cbn [length]. replace (S (length l) - 1)%nat with (length l) by lia.
  replace (S (length l) - S (length l))%nat with 0%nat by lia. cbn [lookup list_lookup] in *.
  rewrite Hl. exists (Smallest rl), (Largest r0). cbn. split_and!; try done; eauto.
Qed.

Lemma in_ranges_spec ack i pn hi : ack_ok ack -> Ack.LargestAcked ack = Ok hi -> pn <= hi -> passed ack i pn ->
  (exists lo, LowestAcked ack = Ok lo /\ lo <= pn) ->
  exists i', in_ranges ack i pn = Ok (i', covers ack pn) /\ passed ack i' pn.
Proof.
  intros Hok Hhi Hle Hp (lo & Hlo & Hge). destruct (ack_bounds ack Hok) as (lo' & hi' & E1 & E2 & (rl & Hrl & Hl) & (rh & Hrh & Hh)).
  rewrite Hlo in E1. rewrite Hhi in E2. simplify_eq. unfold in_ranges, HasMissingRanges.
  destruct (Nat.ltb_spec 1 (length (AckRanges ack))) as [Hlen|Hlen]; cbn [negb].
  - destruct Hp as [Hi Hp]. destruct (ascending_from_end ack i Hi) as (r & Hr & ->). cbn [mbind res_bind].
    destruct (next_range_spec ack pn (length (AckRanges ack)) i r) as (i' & r' & -> & Hr' & Hp' & Hlast); [lia|done|done|].
    cbn [mbind res_bind]. exists i'. split; [|done]. destruct Hp' as [Hi' Hp'].
    destruct (pn <? Smallest r') eqn:Es.
    + f_equal. f_equal. symmetry. apply not_true_is_false. rewrite covers_ascending. intros (j & q & Hj & Hc).
      destruct (Nat.lt_trichotomy j i') as [Hji|[-> | Hji]].
      * specialize (Hp' j q Hji Hj). lia.
      * simplify_eq. lia.
      * destruct (ascending_order ack i' j r' q Hok Hr' Hj) as [? Ho]. specialize (Ho Hji). lia.
    + destruct (Largest r' <? pn) eqn:El.
      * exfalso. specialize (Hlast ltac:(lia)). rewrite <- Hlast in Hrh.
        replace (S i' - 1)%nat with i' in Hrh by lia. rewrite Hr' in Hrh. simplify_eq. lia.
      * f_equal. f_equal. symmetry. apply covers_ascending. exists i', r'. split; [done|lia].
  - exists i. split; [|done]. f_equal. f_equal. symmetry. apply covers_ascending. exists 0%nat, rl. split; [done|].
    destruct Hp as [Hi _]. replace (length (AckRanges ack) - 1)%nat with 0%nat in Hrh by lia. rewrite Hrl in Hrh. simplify_eq. lia.
Qed.

(** ** The packets *)

(** The packets reported for tracked entries: a path probe is reported only if
    it was not declared lost before. *)
Fixpoint collect (probes : list (Z * packet)) (l : list (Z * packet)) : list (Z * packet) * list (Z * packet) :=
  match l with
  | [] => ([], probes)
  | (pn, p) :: l =>
      if isPathProbePacket p then
        let '(q, probes) := remove_probe probes pn in
        let '(acked, probes) := collect probes l in
        (match q with Some q => (pn, q) :: acked | None => acked end, probes)
      else let '(acked, probes) := collect probes l in ((pn, p) :: acked, probes)
  end.

Definition eliciting (e : Z * packet) : bool := negb (isPathProbePacket e.2) && IsAckEliciting e.2.

Lemma with_probes_id h : with_probes h (pathProbePackets h) = h.
Proof. by destruct h. Qed.

Lemma covers_outside ack lo hi pn : ack_ok ack -> LowestAcked ack = Ok lo -> Ack.LargestAcked ack = Ok hi ->
  pn < lo \/ hi < pn -> covers ack pn = false.
Proof.
  intros Hok Hlo Hhi Ho. destruct (ack_bounds ack Hok) as (lo' & hi' & E1 & E2 & (rl & Hrl & Hl) & (rh & Hrh & Hh)).
  rewrite Hlo in E1. rewrite Hhi in E2. simplify_eq. apply not_true_is_false. rewrite covers_ascending.
  intros (j & q & Hj & Hc). pose proof (lookup_lt_Some _ _ _ Hj) as Lj. rewrite length_reverse in Lj.
  destruct (ascending_order ack 0 j rl q Hok Hrl Hj) as [? O1].
  destruct (ascending_order ack j (length (AckRanges ack) - 1) q rh Hok Hj Hrh) as [? O2].
  assert (Smallest rl <= Smallest q) by (destruct (decide (j = 0%nat)) as [-> |]; [simplify_eq; lia|specialize (O1 ltac:(lia)); lia]).
  assert (Largest q <= Largest rh).
  { destruct (decide (j = (length (AckRanges ack) - 1)%nat)) as [-> |]; [simplify_eq; lia|]. specialize (O2 ltac:(lia)).
    destruct (ascending_order ack _ _ rh rh Hok Hrh Hrh). lia. }
  lia.
Qed.

Lemma acked_loop_spec ack lo hi : ack_ok ack -> LowestAcked ack = Ok lo -> Ack.LargestAcked ack = Ok hi ->
  forall l hist acked i b,
  StronglySorted (fun x y => x.1 < y.1) l -> Forall (fun e => passed ack i e.1) l ->
  let cl := filter (fun e => covers ack e.1 = true) l in
  let '(new, probes) := collect (pathProbePackets hist) cl in
  acked_loop ack lo hi hist acked i b l = Ok (with_probes hist probes, acked ++ new, b || existsb eliciting cl).
Proof.
  intros Hok Hlo Hhi. induction l as [|[pn p] l IH]; intros hist acked i b Hso Hpa; cbn zeta.
  - cbn. by rewrite with_probes_id, app_nil_r, orb_false_r.
  - apply StronglySorted_inv in Hso as [Hso Hlt]. apply Forall_cons in Hpa as [Hp Hpa]. cbn [acked_loop fst] in *.
    rewrite filter_cons. cbn [fst]. destruct (pn <? lo) eqn:E1.
    { rewrite decide_False by (rewrite (covers_outside ack lo hi) by (try done; lia); done). by apply IH. }
    destruct (hi <? pn) eqn:E2.
    { assert (filter (fun e => covers ack e.1 = true) l = []) as ->.
      { apply filter_none, Forall_forall. intros e He. rewrite Forall_forall in Hlt. specialize (Hlt e He). cbn in Hlt.
        rewrite (covers_outside ack lo hi) by (try done; lia). done. }
      rewrite decide_False by (rewrite (covers_outside ack lo hi) by (try done; lia); done).
      cbn. by rewrite with_probes_id, app_nil_r, orb_false_r. }
    destruct (in_ranges_spec ack i pn hi Hok Hhi) as (i' & -> & Hi'); [lia|done|exists lo; split; [done|lia]|].
    cbn [mbind res_bind].
    assert (Hpa' : Forall (fun e => passed ack i' e.1) l).
    { apply Forall_forall. intros e He. rewrite Forall_forall in Hlt. specialize (Hlt e He). cbn in Hlt.
      destruct Hi' as [? Hj]. split; [done|]. intros j r H1 H2. specialize (Hj j r H1 H2). lia. }
    destruct (covers ack pn) eqn:Ec; cbn [negb].
    + rewrite decide_True by done. cbn [collect]. destruct (isPathProbePacket p) eqn:Epp.
      * unfold RemovePathProbe. destruct (remove_probe (pathProbePackets hist) pn) as [q probes] eqn:Er.
        specialize (IH (with_probes hist probes) (match q with Some q => acked ++ [(pn, q)] | None => acked end) i' b Hso Hpa').
        cbn in IH. destruct (collect probes _) as [new probes']. rewrite IH. cbn [existsb]. unfold eliciting at 2. cbn [snd].
        rewrite Epp. cbn [negb andb orb]. destruct q; [by rewrite <- app_assoc|done].
      * specialize (IH hist (acked ++ [(pn, p)]) i' (if IsAckEliciting p then true else b) Hso Hpa').
        cbn in IH. destruct (collect _ _) as [new probes']. rewrite IH. cbn [existsb]. unfold eliciting at 2. cbn [snd].
        rewrite Epp. cbn [negb andb]. rewrite <- app_assoc. cbn. do 2 f_equal. by destruct (IsAckEliciting p), b.
    + rewrite decide_False by done. by apply IH.
Qed.

(** Asking the frame about one packet. *)
Definition acks_packet (ack : AckFrame) (pn : Z) : bool := match AcksPacket ack pn with Ok b => b | _ => false end.

(** C23: walking over the tracked packets and the ranges of an ACK frame in step, from the lowest
    range up, gives the same packets in the same order as asking the frame about every tracked
    packet, path probes being looked up among those not given up; and no packet is mistaken. *)
Theorem ack_walk_equivalent (ack : AckFrame) (lo hi : Z) (hist : sentPacketHistory) :
  ack_ok ack -> LowestAcked ack = Ok lo -> Ack.LargestAcked ack = Ok hi ->
  acked_loop ack lo hi hist [] 0 false (Packets hist) =
  (let cl := filter (fun e => acks_packet ack e.1 = true) (Packets hist) in
   let '(acked, probes) := collect (pathProbePackets hist) cl in
   Ok (with_probes hist probes, acked, existsb eliciting cl)).
Proof.
  intros Hok Hlo Hhi. pose proof (acked_loop_spec ack lo hi Hok Hlo Hhi (Packets hist) hist [] 0 false (entries_sorted _ _)) as H.
  assert (filter (fun e => acks_packet ack e.1 = true) (Packets hist) = filter (fun e => covers ack e.1 = true) (Packets hist)) as ->.
  { apply list_filter_iff. intros e. unfold acks_packet. by rewrite (AcksPacket_spec ack e.1 Hok). }
  cbn zeta in H |- *. destruct (collect _ _) as [acked probes]. apply H. apply Forall_forall. intros e _. split; [|intros j r Hj; lia].
  destruct Hok as (Hne & _). destruct (AckRanges ack); [done|]. cbn. lia.
Qed.

Definition example_ack : AckFrame := mkAck [mkRange 7 9; mkRange 2 4] 0 0 0 0.

Definition example_history : sentPacketHistory :=
  mkHistory ((fun i => if i =? 5 then None else Some (mkPacket i [] [mkFrame FrameParser.FPing None] (-1) 100 None false true false)) <$> seqZ 1 9)
    [] [] 8 1 9.

Lemma ack_walk_equivalent_witness :
  acked_loop example_ack 2 9 example_history [] 0 false (Packets example_history) =
  (let cl := filter (fun e => acks_packet example_ack e.1 = true) (Packets example_history) in
   let '(acked, probes) := collect (pathProbePackets example_history) cl in
   Ok (with_probes example_history probes, acked, existsb eliciting cl)).
Proof. apply (ack_walk_equivalent example_ack 2 9 example_history); [vm_compute; split_and!; done|reflexivity..]. Defined.

End SentAcks.
