(* ===== verification/SentSafety.v ===== *)
(** * Safety of loss recovery

    The invariant of the handler of sent packets (SentPackets.v) under every
    sequence of the operations a connection performs on it: the bytes in flight
    are those of the tracked packets, no operation panics, and every frame that
    was sent in a packet is reported exactly once, as acknowledged or as lost,
    unless its packet is still tracked or was dropped with its keys. *)

From Stdlib Require Import ZifyBool.
From stdpp Require Import sorting.
From S2P Require Import Prelude GoBytes Varint Wire AckFrame Frames FrameParser PacketNumber ReceivedPackets RttStats SentHistory Ecn SentPackets SentAcks.
Local Open Scope Z_scope.

Module SentSafety.
Import Wire Ack Tracker RttStats SentHistory SentPackets SentAcks.

(** ** Packets that are tracked, and what they carry *)

Definition cost (p : packet) : Z := if includedInBytesInFlight p then Length p else 0.
Definition flight (l : list (Z * packet)) : Z := foldr (fun e n => cost e.2 + n) 0 l.
Definition frames (l : list (Z * packet)) : list (Z * FrameParser.Frame) := mjoin (map (fun e => handled e.2) l).

#[local] Arguments frames : simpl never.
#[local] Arguments flight : simpl never.

(** The frames whose handlers were called. *)
Definition settled (cs : list call) : list (Z * FrameParser.Frame) :=
  omap (fun c => match c with
                 | OnAcked x f | OnLost x f => Some (x, f)
                 | IgnorePacketsBelow _ => None
                 end) cs.

Definition space_live (s : packetNumberSpace) : list (Z * packet) :=
  Packets (history s) ++ pathProbePackets (history s).

Definition opt_live (o : option packetNumberSpace) : list (Z * packet) :=
  match o with Some s => space_live s | None => [] end.

Lemma flight_app l1 l2 : flight (l1 ++ l2) = flight l1 + flight l2.
Proof. unfold flight. induction l1 as [|e l1 IH]; cbn; lia. Qed.

#[export] Instance flight_perm : Proper ((≡ₚ) ==> (=)) flight.
Proof. unfold flight. intros l1 l2 H. induction H; cbn; lia. Qed.

Lemma frames_app l1 l2 : frames (l1 ++ l2) = frames l1 ++ frames l2.
Proof. unfold frames. by rewrite map_app, join_app. Qed.

#[export] Instance frames_perm : Proper ((≡ₚ) ==> (≡ₚ)) frames.
Proof.
  intros l1 l2 H. induction H as [|e l l' _ IH|e1 e2 l|l1 l2 l3 _ IH1 _ IH2]; cbn; [done| | |by rewrite IH1].
  - unfold frames in *. cbn. by rewrite IH.
  - unfold frames. cbn. solve_Permutation.
Qed.

Lemma settled_app c1 c2 : settled (c1 ++ c2) = settled c1 ++ settled c2.
Proof. apply omap_app. Qed.

Lemma settled_acked l : settled (map (fun x => OnAcked x.1 x.2) l) = l.
Proof. unfold settled in *. induction l as [|[x f] l IH]; cbn; [done|]. by f_equal. Qed.

Lemma settled_lost l : settled (map (fun x => OnLost x.1 x.2) l) = l.
Proof. unfold settled in *. induction l as [|[x f] l IH]; cbn; [done|]. by f_equal. Qed.

Lemma handled_quiet p : IsAckEliciting p = false -> handled p = [].
Proof. unfold IsAckEliciting, handled. by destruct (Frames_ p), (StreamFrames p). Qed.

(** ** The invariant *)

(** An entry of the history: what counts as in flight is what elicits an ACK. *)
Definition entry_ok (e : Z * packet) : Prop :=
  includedInBytesInFlight e.2 = IsAckEliciting e.2 /\ 0 <= Length e.2 /\ 0 <= SendTime e.2 /\
  (isPathProbePacket e.2 = true -> IsAckEliciting e.2 = false).

(** A path probe: it has control frames with handlers only. *)
Definition probe_ok (e : Z * packet) : Prop :=
  isPathProbePacket e.2 = true /\ includedInBytesInFlight e.2 = false /\ StreamFrames e.2 = [] /\
  Forall (fun f => is_Some (fr_Handler f)) (Frames_ e.2).

Definition gen_next (g : packetNumberGenerator) : Z :=
  match g with sequential n => n | skipping _ _ n _ => n end.

(** The numbers: [pend] is one that was taken from the generator and not used yet. *)
Definition numbers_ok (pend : option Z) (h : sentPacketHistory) (g : packetNumberGenerator) : Prop :=
  match pend with
  | None => 0 <= gen_next g /\ (highestPacketNumber h = -1 \/ gen_next g = highestPacketNumber h + 1)
  | Some pn => next_number h pn /\ gen_next g = pn + 1
  end.

Definition space_ok (pend : option Z) (s : packetNumberSpace) : Prop :=
  hist_ok (history s) /\ numbers_ok pend (history s) (pns s) /\
  Forall entry_ok (Packets (history s)) /\ Forall probe_ok (pathProbePackets (history s)) /\
  NoDup (pathProbePackets (history s)).*1 /\
  Forall (fun e => e.1 <= highestPacketNumber (history s)) (pathProbePackets (history s)).

Record pending := mkPending { pend_initial : option Z; pend_handshake : option Z; pend_app : option Z }.

Definition pend_of (p : pending) (l : EncryptionLevel) : option Z :=
  match l with
  | EncryptionInitial => pend_initial p
  | EncryptionHandshake => pend_handshake p
  | Encryption0RTT | Encryption1RTT => pend_app p
  end.

Definition set_pend (p : pending) (l : EncryptionLevel) (o : option Z) : pending :=
  match l with
  | EncryptionInitial => mkPending o (pend_handshake p) (pend_app p)
  | EncryptionHandshake => mkPending (pend_initial p) o (pend_app p)
  | Encryption0RTT | Encryption1RTT => mkPending (pend_initial p) (pend_handshake p) o
  end.

Section safety.
Context {C : Type} {CC : SendAlgorithm C}.
Implicit Types h : sentPacketHandler (C := C).

Definition live h : list (Z * packet) :=
  opt_live (initialPackets h) ++ opt_live (handshakePackets h) ++ space_live (appDataPackets h).

(** The packets of the other spaces. *)
Definition others h (l : EncryptionLevel) : list (Z * packet) :=
  match l with
  | EncryptionInitial => opt_live (handshakePackets h) ++ space_live (appDataPackets h)
  | EncryptionHandshake => opt_live (initialPackets h) ++ space_live (appDataPackets h)
  | Encryption0RTT | Encryption1RTT => opt_live (initialPackets h) ++ opt_live (handshakePackets h)
  end.

(** The probes that are owed are of a space that still exists. *)
Definition mode_ok h : Prop :=
  0 <= numProbesToSend h /\
  (0 < numProbesToSend h ->
   match ptoMode h with
   | SendPTOInitial => initialPackets h <> None
   | SendPTOHandshake => handshakePackets h <> None
   | SendPTOAppData => True
   | _ => False
   end).

(** [extra] are packets that have left the history but not the network. *)
Record inv (pend : pending) (extra : list (Z * packet)) h : Prop := {
  inv_space l s : getPacketNumberSpace h l = Some s -> space_ok (pend_of pend l) s;
  inv_flight : bytesInFlight h = flight (live h) + flight extra;
  inv_extra : Forall (fun e => 0 <= cost e.2) extra;
  inv_mode : mode_ok h;
  inv_peer : peerCompletedAddressValidation h = false -> handshakePackets h <> None /\ perspective h = PerspectiveClient }.

(** Every frame sent so far: those reported and those of the tracked packets. *)
Definition books h : list (Z * FrameParser.Frame) := settled (calls h) ++ frames (live h).

(** What the invariant and the books depend on. *)
Definition core h :=
  (initialPackets h, handshakePackets h, appDataPackets h, bytesInFlight h, calls h,
   (ptoMode h, numProbesToSend h, peerCompletedAddressValidation h, perspective h)).

Lemma inv_core pend extra h h' : core h' = core h -> inv pend extra h -> inv pend extra h'.
Proof.
  unfold core. intros [= H1 H2 H3 H4 H5 H6 H7 H8 H9] [I1 I2 I3 I4 I5]. constructor.
  - intros l s. specialize (I1 l s). destruct l; cbn in *; rewrite ?H1, ?H2, ?H3; done.
  - unfold live in *. by rewrite H1, H2, H3, H4.
  - done.
  - unfold mode_ok in *. by rewrite H6, H7, H1, H2.
  - by rewrite H8, H2, H9.
Qed.

Lemma books_core h h' : core h' = core h -> books h' = books h.
Proof. unfold core. intros [= H1 H2 H3 _ H5 _ _ _ _]. unfold books, live. by rewrite H1, H2, H3, H5. Qed.

Lemma live_split h l s : getPacketNumberSpace h l = Some s -> live h ≡ₚ others h l ++ space_live s.
Proof.
  unfold live, others. destruct l; cbn; intros H; [rewrite H..| |]; simplify_eq; cbn; solve_Permutation.
Qed.

Lemma put_get h l s : getPacketNumberSpace (put h l s) l = Some s.
Proof. by destruct l. Qed.

Lemma live_put h l s : live (put h l s) ≡ₚ others h l ++ space_live s.
Proof. unfold live, others. destruct l; cbn; solve_Permutation. Qed.

Lemma live_flight h l s : getPacketNumberSpace h l = Some s ->
  flight (live h) = flight (others h l) + flight (space_live s).
Proof. intros H. by rewrite (live_split h l s H), flight_app. Qed.

Lemma live_frames h l s : getPacketNumberSpace h l = Some s ->
  frames (live h) ≡ₚ frames (others h l) ++ frames (space_live s).
Proof. intros H. by rewrite (live_split h l s H), frames_app. Qed.

Lemma put_flight h l s : flight (live (put h l s)) = flight (others h l) + flight (space_live s).
Proof. by rewrite live_put, flight_app. Qed.

Lemma put_frames h l s : frames (live (put h l s)) ≡ₚ frames (others h l) ++ frames (space_live s).
Proof. by rewrite live_put, frames_app. Qed.

Lemma space_get h l s : space h l = Ok s <-> getPacketNumberSpace h l = Some s.
Proof. unfold space. destruct (getPacketNumberSpace h l); split; congruence. Qed.

(** One space replaced. *)
Lemma handler_put pend o extra extra' h l s s' :
  inv pend extra h -> getPacketNumberSpace h l = Some s -> space_ok o s' ->
  Forall (fun e => 0 <= cost e.2) extra' ->
  flight (space_live s) + flight extra = flight (space_live s') + flight extra' ->
  inv (set_pend pend l o) extra' (put h l s').
Proof.
  intros [I1 I2 I3 I4 I5] Hs Hok Hex Hfl. constructor.
  - intros l' s2 H2. pose proof (I1 l' s2). destruct l, l'; cbn in *; simplify_eq; auto.
  - rewrite put_flight. rewrite (live_flight h l s Hs) in I2.
    replace (bytesInFlight (put h l s')) with (bytesInFlight h) by (by destruct l). lia.
  - done.
  - unfold mode_ok in *. destruct l; cbn in *; intuition; destruct (ptoMode h); done.
  - destruct l; cbn in *; try done. intros Hp. destruct (I5 Hp). by split.
Qed.

Lemma set_pend_id pend l : set_pend pend l (pend_of pend l) = pend.
Proof. by destruct pend, l. Qed.

Lemma inv_put_same pend extra extra' h l s s' :
  inv pend extra h -> getPacketNumberSpace h l = Some s -> space_ok (pend_of pend l) s' ->
  Forall (fun e => 0 <= cost e.2) extra' ->
  flight (space_live s) + flight extra = flight (space_live s') + flight extra' ->
  inv pend extra' (put h l s').
Proof.
  intros. rewrite <- (set_pend_id pend l). by eapply handler_put.
Qed.

Lemma entry_cost e : entry_ok e -> 0 <= cost e.2.
Proof. intros (_ & H & _). unfold cost. by destruct (includedInBytesInFlight e.2). Qed.

Lemma without_perm f l pn p :
  (pn, p) ∈ entries f l -> entries f l ≡ₚ (pn, p) :: without pn (entries f l).
Proof.
  intros Hp. pose proof (entries_NoDup f l) as Hnd.
  unfold without. apply elem_of_Permutation in Hp as [l' Hl]. rewrite Hl in Hnd |- *.
  cbn in Hnd. apply NoDup_cons in Hnd as [Hni _].
  rewrite filter_cons_False by (cbn; auto). rewrite filter_all; [done|].
  apply Forall_forall. intros e He Heq. apply Hni. rewrite <- Heq. by apply list_elem_of_fmap_2.
Qed.

(** A tracked packet leaves the history. *)
Lemma take_out pend extra h l s pn p hist :
  inv pend extra h -> getPacketNumberSpace h l = Some s -> (pn, p) ∈ Packets (history s) ->
  hist_ok hist -> Packets hist = without pn (Packets (history s)) -> same_rest (history s) hist ->
  let h' := put h l (with_history s hist) in
  inv pend ((pn, p) :: extra) h' /\ frames (live h) ≡ₚ handled p ++ frames (live h') /\ entry_ok (pn, p).
Proof.
  intros Hi Hs Hp Hok Hpk (R1 & R2 & R3) h'. pose proof (inv_space _ _ _ Hi _ _ Hs) as (S1 & S2 & S3 & S4 & S5 & S6).
  assert (He : entry_ok (pn, p)) by (rewrite Forall_forall in S3; by apply S3).
  assert (Hperm : Packets (history s) ≡ₚ (pn, p) :: Packets hist) by (rewrite Hpk; by apply without_perm).
  split_and!; [|unfold h'; rewrite (live_frames h l s Hs), put_frames|done].
  - eapply inv_put_same; try done.
    + unfold space_ok, numbers_ok, next_number, with_history. cbn. rewrite R1, R3. split_and!; try done.
      rewrite Hpk. by apply without_Forall.
    + constructor; [by apply (entry_cost (pn, p))|by apply Hi].
    + unfold space_live, with_history. cbn. rewrite Hperm, R1, !flight_app. cbn. fold (flight extra).
      unfold flight. cbn. fold (flight extra) (flight (Packets hist)). lia.
  - unfold space_live, with_history. cbn. rewrite R1, !frames_app, Hperm.
    change (frames ((pn, p) :: Packets hist)) with (handled p ++ frames (Packets hist)). solve_Permutation.
Qed.

Lemma flight_nonneg l : Forall (fun e => 0 <= cost e.2) l -> 0 <= flight l.
Proof. unfold flight. induction 1; cbn; lia. Qed.

Lemma space_flight pend s : space_ok pend s -> 0 <= flight (space_live s).
Proof.
  intros (_ & _ & S3 & S4 & _). apply flight_nonneg, Forall_app. split.
  - eapply Forall_impl; [exact S3|]. apply entry_cost.
  - eapply Forall_impl; [exact S4|]. intros e (_ & He & _). unfold cost. by rewrite He.
Qed.

Lemma live_flight_nonneg pend extra h : inv pend extra h -> 0 <= flight (live h).
Proof.
  intros Hi. unfold live. rewrite !flight_app.
  pose proof (space_flight _ _ (inv_space _ _ _ Hi Encryption1RTT _ eq_refl)).
  assert (forall o l, getPacketNumberSpace h l = o -> 0 <= flight (opt_live o)) as Ho.
  { intros [s|] l Hl; [|done]. exact (space_flight _ _ (inv_space _ _ _ Hi l s Hl)). }
  pose proof (Ho _ EncryptionInitial eq_refl). pose proof (Ho _ EncryptionHandshake eq_refl). cbn in *. lia.
Qed.

Lemma remove_flight pend extra h e : inv pend (e :: extra) h ->
  exists b, removeFromBytesInFlight h e.2 = Ok (with_flight h b) /\ inv pend extra (with_flight h b).
Proof.
  intros Hi. pose proof (live_flight_nonneg _ _ _ Hi) as Hl. destruct Hi as [I1 I2 I3 I4 I5].
  inversion_clear I3 as [|? ? He Hex]. pose proof (flight_nonneg _ Hex) as Hx.
  change (flight (e :: extra)) with (cost e.2 + flight extra) in I2. unfold removeFromBytesInFlight, cost in *.
  destruct (includedInBytesInFlight e.2).
  - rewrite (proj2 (Z.ltb_ge _ _)) by lia. eexists. split; [done|]. constructor; try done.
    change (bytesInFlight h - Length e.2 = flight (live h) + flight extra). lia.
  - exists (bytesInFlight h). split; [by destruct h|]. constructor; try done.
Qed.

(** Bytes that do not count need not be removed. *)
Lemma inv_drop pend extra h e : inv pend (e :: extra) h -> cost e.2 = 0 -> inv pend extra h.
Proof.
  intros [I1 I2 I3 I4 I5] Hc. inversion_clear I3. constructor; try done.
  change (flight (e :: extra)) with (cost e.2 + flight extra) in I2. lia.
Qed.

Lemma inv_calls pend extra h cs : inv pend extra h -> inv pend extra (add_calls h cs).
Proof. intros [I1 I2 I3 I4 I5]. by constructor. Qed.

Lemma queue_frames h p : IsAckEliciting p = true ->
  queueFramesForRetransmission h p = Ok (add_calls h (map (fun x => OnLost x.1 x.2) (handled p))).
Proof. unfold IsAckEliciting, queueFramesForRetransmission. by destruct (Frames_ p), (StreamFrames p). Qed.

Lemma quiet_cost e : entry_ok e -> IsAckEliciting e.2 = false -> cost e.2 = 0.
Proof. intros (H & _) Hq. unfold cost. by rewrite H, Hq. Qed.

(** What is done with the bytes and the frames of a packet that was taken out. *)
Lemma settle_lost pend extra h pn p :
  inv pend ((pn, p) :: extra) h -> entry_ok (pn, p) -> IsAckEliciting p = true ->
  exists b, removeFromBytesInFlight h p = Ok (with_flight h b) /\
    let h' := add_calls (with_flight h b) (map (fun x => OnLost x.1 x.2) (handled p)) in
    queueFramesForRetransmission (with_flight h b) p = Ok h' /\ inv pend extra h' /\
    books h' ≡ₚ handled p ++ books h.
Proof.
  intros Hi He Ha. destruct (remove_flight _ _ _ (pn, p) Hi) as (b & Hb & Hi'). exists b. split; [done|].
  split_and!; [by apply queue_frames|by apply inv_calls|].
  unfold books, add_calls. cbn. rewrite settled_app, settled_lost. fold (live h).
  change (live (with_calls _ _)) with (live h). solve_Permutation.
Qed.

(** ** Loss detection *)

(** What loss detection does not touch. *)
Definition env h :=
  (ackedPackets h, rttStats h, perspective h, handshakeConfirmed h, (peerAddressValidated h, bytesReceived h, bytesSent h),
   (ptoCount h, ptoMode h, numProbesToSend h, peerCompletedAddressValidation h)).

(** Within a space: the history loses packets, nothing else changes. *)
Definition shrinks (s s' : packetNumberSpace) : Prop :=
  same_rest (history s) (history s') /\ pns s' = pns s /\
  lastAckElicitingPacketTime s' = lastAckElicitingPacketTime s /\
  largestAcked s' = largestAcked s /\ largestSent s' = largestSent s.

Lemma shrinks_refl s : shrinks s s.
Proof. unfold shrinks, same_rest. by split_and!. Qed.

Lemma shrinks_trans s1 s2 s3 : shrinks s1 s2 -> shrinks s2 s3 -> shrinks s1 s3.
Proof.
  intros (R1 & ? & ? & ? & ?) (R2 & ? & ? & ? & ?). split; [by eapply same_rest_trans|]. split_and!; congruence.
Qed.

Lemma lose_spec pend extra h lv s prior pn p :
  inv pend extra h -> getPacketNumberSpace h lv = Some s -> (pn, p) ∈ Packets (history s) ->
  exists h' s', lose_packet h lv prior pn p = Ok h' /\ inv pend extra h' /\ books h' ≡ₚ books h /\ env h' = env h /\
    getPacketNumberSpace h' lv = Some s' /\ shrinks s s' /\ lossTime s' = lossTime s /\
    Packets (history s') = without pn (Packets (history s)).
Proof.
  intros Hi Hs Hp. unfold lose_packet.
  set (h1 := if is_app lv then with_lost h _ else h).
  assert (Hc : core h1 = core h /\ env h1 = env h) by (unfold h1; by destruct (is_app lv)).
  destruct Hc as [Hc He1]. assert (Hs1 : getPacketNumberSpace h1 lv = Some s) by (unfold h1; by destruct lv).
  pose proof (inv_core _ _ _ _ Hc Hi) as Hi1. pose proof (books_core _ _ Hc) as Hb1. clearbody h1.
  rewrite (proj2 (space_get h1 lv s) Hs1). cbn [mbind res_bind].
  destruct (inv_space _ _ _ Hi _ _ Hs) as (Hok & _).
  destruct (DeclareLost_spec (history s) pn p Hok Hp) as (hist & Hd & Hok' & Hpk & Hr).
  rewrite Hd. cbn [mbind res_bind wrap_err].
  destruct (take_out pend extra h1 lv s pn p hist Hi1 Hs1 Hp Hok' Hpk Hr) as (Hi2 & Hf & He).
  assert (Hrest : forall h2, getPacketNumberSpace h2 lv = Some (with_history s hist) ->
    exists s', getPacketNumberSpace h2 lv = Some s' /\ shrinks s s' /\ lossTime s' = lossTime s /\
      Packets (history s') = without pn (Packets (history s))).
  { intros h2 H2. exists (with_history s hist). split; [done|]. unfold shrinks. cbn. split_and!; try done; apply Hr. }
  set (h2 := put h1 lv (with_history s hist)) in *.
  assert (He2 : env h2 = env h1 /\ calls h2 = calls h1) by (unfold h2; by destruct lv).
  assert (Hg2 : getPacketNumberSpace h2 lv = Some (with_history s hist)) by apply put_get.
  destruct He2 as [He2 Hc2]. rewrite <- He1, <- He2.
  assert (Hbk : books h ≡ₚ handled p ++ books h2).
  { rewrite <- Hb1. unfold books. rewrite Hf, <- Hc2. solve_Permutation. }
  clearbody h2.
  destruct (negb (isPathProbePacket p) && IsAckEliciting p) eqn:E.
  - apply andb_true_iff in E as [Ep Ea].
    destruct (settle_lost _ _ _ _ _ Hi2 He Ea) as (b & Hrm & Hq & Hi3 & Hb3).
    rewrite Hrm. cbn [mbind res_bind]. rewrite Hq. cbn [mbind res_bind].
    set (h3 := add_calls (with_flight h2 b) _) in *.
    set (h4 := if negb (IsPathMTUProbePacket p) then with_cc h3 _ else h3).
    assert (Hx : exists h', (match h_ecn h4 with
        | Some e => if bool_decide (lv = Encryption1RTT) then with_ecn h4 (Some (Ecn.LostPacket e pn)) else h4
        | None => h4 end) = h' /\ core h' = core h3 /\ env h' = env h2 /\
        forall l, getPacketNumberSpace h' l = getPacketNumberSpace h3 l).
    { eexists. split; [done|]. unfold h4. destruct (negb (IsPathMTUProbePacket p)); cbn;
      destruct (h_ecn _); try case_bool_decide; done. }
    destruct Hx as (h' & -> & Hc' & He' & Hg'). exists h'. destruct (Hrest h') as (s' & Hr'); [by rewrite Hg'|].
    exists s'. split_and!; try apply Hr'; [done|by eapply inv_core| |done].
    by rewrite (books_core _ _ Hc'), Hb3, Hbk.
  - destruct (Hrest h2 Hg2) as (s' & Hr'). exists h2, s'.
    assert (Hq : IsAckEliciting p = false).
    { destruct (IsAckEliciting p) eqn:Ea; [|done]. rewrite andb_true_r in E. apply negb_false_iff in E.
      destruct He as (_ & _ & _ & Hpr). cbn in Hpr. rewrite Ea in Hpr. by apply Hpr in E. }
    split_and!; try apply Hr'; [done| | |done].
    + eapply inv_drop; [exact Hi2|]. by apply (quiet_cost (pn, p)).
    + by rewrite Hbk, (handled_quiet p Hq).
Qed.

(** A packet that loss detection gives up: newer ones were acknowledged, and it was sent long enough
    ago or at least three (skipped numbers aside) before the largest of them. *)
Definition is_lost (s : packetNumberSpace) (lostSendTime : Z) (e : Z * packet) : bool :=
  (e.1 <=? largestAcked s) &&
  ((SendTime e.2 <=? lostSendTime) || (packetThreshold <=? Difference (history s) (largestAcked s) e.1)).

Lemma is_lost_shrinks s s' t e : shrinks s s' -> is_lost s' t e = is_lost s t e.
Proof. intros ((_ & Hk & _) & _ & _ & Ha & _). unfold is_lost, Difference. by rewrite Hk, Ha. Qed.

(** The time at which the first packet that is not lost yet will be. *)
Definition first_waiting (s : packetNumberSpace) (delay t : Z) (l : list (Z * packet)) : Z :=
  match List.find (fun e => (e.1 <=? largestAcked s) && negb (is_lost s t e)) l with
  | Some e => SendTime e.2 + delay
  | None => 0
  end.

Lemma first_waiting_shrinks s s' d t l : shrinks s s' -> first_waiting s' d t l = first_waiting s d t l.
Proof.
  intros Hsh. unfold first_waiting. induction l as [|e l IH]; cbn; [done|].
  rewrite (is_lost_shrinks _ _ _ _ Hsh). assert (largestAcked s' = largestAcked s) as Ha by apply Hsh.
  rewrite Ha in IH |- *. by destruct (_ && _).
Qed.

Lemma lost_loop_spec pend extra lv delay t prior : 0 < delay -> forall l h s,
  inv pend extra h -> getPacketNumberSpace h lv = Some s ->
  Forall (fun e => e ∈ Packets (history s)) l -> StronglySorted (fun a b => a.1 < b.1) l ->
  exists h' s', lost_loop h lv delay t prior l = Ok h' /\ inv pend extra h' /\ books h' ≡ₚ books h /\ env h' = env h /\
    getPacketNumberSpace h' lv = Some s' /\ shrinks s s' /\
    (forall e, e ∈ Packets (history s') <-> e ∈ Packets (history s) /\ ~ (e ∈ l /\ is_lost s t e = true)) /\
    lossTime s' = (if lossTime s =? 0 then first_waiting s delay t l else lossTime s).
Proof.
  intros Hdelay. induction l as [|[pn p] l IH]; intros h s Hi Hs Hin Hso.
  - exists h, s. cbn. split_and!; try done.
    { intros e. split; [|tauto]. intros He. split; [done|]. by intros [?%elem_of_nil _]. }
    unfold first_waiting. cbn. by destruct (Z.eqb_spec (lossTime s) 0).
  - apply Forall_cons in Hin as [Hp Hin]. apply StronglySorted_inv in Hso as [Hso Hlt].
    cbn [lost_loop]. rewrite (proj2 (space_get h lv s) Hs). cbn [mbind res_bind].
    destruct (largestAcked s <? pn) eqn:Ela.
    { assert (Hnl : forall e, e ∈ (pn, p) :: l -> (e.1 <=? largestAcked s) = false).
      { intros e [-> | He]%elem_of_cons; cbn; [lia|]. rewrite Forall_forall in Hlt. specialize (Hlt e He). cbn in Hlt. lia. }
      exists h, s. split_and!; try done.
      - intros e. split; [|tauto]. intros He. split; [done|]. intros [Hl Hx]. unfold is_lost in Hx.
        rewrite (Hnl e Hl) in Hx. done.
      - unfold first_waiting. destruct (List.find _ _) as [e|] eqn:Ef; [|by destruct (Z.eqb_spec (lossTime s) 0)].
        apply List.find_some in Ef as [Hl He]. apply list_elem_of_In in Hl. rewrite (Hnl e Hl) in He. done. }
    destruct (_ || _) eqn:El.
    + assert (Hlost : is_lost s t (pn, p) = true) by (unfold is_lost; cbn; rewrite El, andb_true_r; lia).
      destruct (lose_spec pend extra h lv s prior pn p Hi Hs Hp) as (h1 & s1 & -> & Hi1 & Hb1 & He1 & Hs1 & Hsh & Hlt1 & Hpk).
      cbn [mbind res_bind]. destruct (IH h1 s1 Hi1 Hs1) as (h' & s' & -> & Hi' & Hb' & He' & Hs' & Hsh' & Hin' & Hl'); [|done|].
      { rewrite Hpk. apply Forall_forall. intros e He. rewrite Forall_forall in Hlt, Hin. apply list_elem_of_filter.
        specialize (Hlt e He). cbn in Hlt. split; [lia|auto]. }
      exists h', s'. split_and!; try done; [by rewrite Hb'|congruence|by eapply shrinks_trans| |].
      * intros e. rewrite Hin', Hpk. unfold without. rewrite list_elem_of_filter, elem_of_cons.
        rewrite (is_lost_shrinks _ _ _ _ Hsh). split.
        -- intros [[H1 H2] H3]. split; [done|]. intros [[-> | H4] H5]; [done|]. by apply H3.
        -- intros [H1 H2]. split_and!; [|done|tauto]. intros He. apply H2.
           rewrite (entries_unique _ _ _ _ H1 Hp He). auto.
      * rewrite Hl', Hlt1. destruct (lossTime s =? 0); [|done]. rewrite (first_waiting_shrinks _ _ _ _ _ Hsh).
        unfold first_waiting. cbn [List.find]. rewrite Hlost. cbn [negb]. by rewrite andb_false_r.
    + assert (Hlost : is_lost s t (pn, p) = false) by (unfold is_lost; cbn; by rewrite El, andb_false_r).
      set (h1 := if lossTime s =? 0 then put h lv (with_lossTime s (SendTime p + delay)) else h).
      assert (Hh1 : exists s1, getPacketNumberSpace h1 lv = Some s1 /\ inv pend extra h1 /\ books h1 ≡ₚ books h /\ env h1 = env h /\
        shrinks s s1 /\ history s1 = history s /\ lossTime s1 = (if lossTime s =? 0 then SendTime p + delay else lossTime s)).
      { unfold h1. destruct (lossTime s =? 0); [|exists s; split_and!; try done].
        exists (with_lossTime s (SendTime p + delay)). pose proof (inv_space _ _ _ Hi _ _ Hs).
        split_and!; try done; [apply put_get|by eapply inv_put_same; try done; apply Hi| |by destruct lv].
        unfold books. rewrite (live_frames h lv s Hs), put_frames. by destruct lv. }
      destruct Hh1 as (s1 & Hs1 & Hi1 & Hb1 & He1 & Hsh & Hh & Hlt1). clearbody h1.
      destruct (IH h1 s1 Hi1 Hs1) as (h' & s' & -> & Hi' & Hb' & He' & Hs' & Hsh' & Hin' & Hl'); [by rewrite Hh|done|].
      exists h', s'. split_and!; try done; [by rewrite Hb'|congruence|by eapply shrinks_trans| |].
      * intros e. rewrite Hin', Hh, elem_of_cons, (is_lost_shrinks _ _ _ _ Hsh). split.
        -- intros [H1 H2]. split; [done|]. intros [[-> | H4] H5]; [congruence|tauto].
        -- intros [H1 H2]. split; [done|tauto].
      * rewrite Hl', Hlt1. rewrite (first_waiting_shrinks _ _ _ _ _ Hsh).
        destruct (lossTime s =? 0) eqn:Elt; [|by rewrite Elt].
        assert (entry_ok (pn, p)) as (_ & _ & Hst & _).
        { destruct (inv_space _ _ _ Hi _ _ Hs) as (_ & _ & S3 & _). rewrite Forall_forall in S3. by apply S3. }
        cbn in Hst. rewrite (proj2 (Z.eqb_neq _ 0)) by lia.
        unfold first_waiting. cbn [List.find]. rewrite Hlost. cbn [negb fst]. rewrite andb_true_r.
        by rewrite (proj2 (Z.leb_le _ _)) by lia.
Qed.

Lemma loss_delay_pos rtt : 0 < loss_delay rtt.
Proof. unfold loss_delay, TimerGranularity, Millisecond, Microsecond. lia. Qed.

Lemma detect_lost_spec pend extra h lv s now :
  inv pend extra h -> getPacketNumberSpace h lv = Some s ->
  let d := loss_delay (rttStats h) in
  exists h' s', detectLostPackets h now lv = Ok h' /\ inv pend extra h' /\ books h' ≡ₚ books h /\ env h' = env h /\
    getPacketNumberSpace h' lv = Some s' /\ shrinks s s' /\
    (forall e, e ∈ Packets (history s') <-> e ∈ Packets (history s) /\ is_lost s (now - d) e = false) /\
    lossTime s' = first_waiting s d (now - d) (Packets (history s)).
Proof.
  intros Hi Hs d. unfold detectLostPackets. rewrite (proj2 (space_get h lv s) Hs). cbn [mbind res_bind].
  set (s1 := with_lossTime s 0). set (h1 := put h lv s1).
  assert (Hh1 : inv pend extra h1 /\ books h1 ≡ₚ books h /\ env h1 = env h /\ rttStats h1 = rttStats h).
  { pose proof (inv_space _ _ _ Hi _ _ Hs). unfold h1. split_and!; [by eapply inv_put_same; try done; apply Hi| |by destruct lv..].
    unfold books. rewrite (live_frames h lv s Hs), put_frames. by destruct lv. }
  destruct Hh1 as (Hi1 & Hb1 & He1 & Hr1). rewrite Hr1. fold d.
  destruct (lost_loop_spec pend extra lv d (now - d) (bytesInFlight h1) (loss_delay_pos _) (Packets (history s)) h1 s1)
    as (h' & s' & -> & Hi' & Hb' & He' & Hs' & Hsh & Hin & Hl); [done|apply put_get|by apply Forall_forall|apply entries_sorted|].
  exists h', s'. assert (Hsh1 : shrinks s s1) by done.
  split_and!; try done; [by rewrite Hb'|congruence|].
  intros e. rewrite Hin. change (history s1) with (history s). change (is_lost s1) with (is_lost s).
  destruct (is_lost s (now - d) e); split; intros [? ?]; split; try done; [tauto|intros [_ ?]; done].
Qed.

Lemma remove_probe_spec (l : list (Z * packet)) pn p :
  (pn, p) ∈ l -> NoDup l.*1 -> remove_probe l pn = (Some p, without pn l) /\ l ≡ₚ (pn, p) :: without pn l.
Proof.
  intros Hp Hnd. induction l as [|[n q] l IH]; [by apply elem_of_nil in Hp|].
  cbn in Hnd. apply NoDup_cons in Hnd as [Hn Hnd]. cbn [remove_probe fst snd].
  assert (Hid : without n l = l).
  { apply without_id. intros e He <-. by apply Hn, list_elem_of_fmap_2. }
  apply elem_of_cons in Hp as [[= -> ->] | Hp].
  - rewrite Z.eqb_refl. unfold without in *. rewrite filter_cons_False by (cbn; auto). by rewrite Hid.
  - assert (n <> pn) by (intros ->; by apply Hn, (list_elem_of_fmap_2 fst l (pn, p))).
    rewrite (proj2 (Z.eqb_neq _ _)) by done. destruct (IH Hp Hnd) as [-> IH2]. unfold without in *.
    rewrite filter_cons_True by done. split; [done|]. rewrite IH2 at 1. apply Permutation_swap.
Qed.

Lemma probe_calls_spec p : probe_ok p -> exists cs, probe_calls (Frames_ p.2) = Ok cs /\ settled cs = handled p.2.
Proof.
  intros (_ & _ & Hs & Hf). unfold handled. rewrite Hs, app_nil_r.
  induction Hf as [|f fs [x Hx] _ (cs & IH1 & IH2)]; cbn [probe_calls]; [by exists []|].
  rewrite Hx, IH1. cbn [mbind res_bind]. eexists. split; [done|]. cbn. rewrite Hx. cbn. f_equal. exact IH2.
Qed.

(** The application data space with other path probes. *)
Definition with_app_probes h (ps : list (Z * packet)) : sentPacketHandler :=
  with_app h (with_history (appDataPackets h) (with_probes (history (appDataPackets h)) ps)).

Lemma probes_flight l : Forall probe_ok l -> flight l = 0.
Proof.
  unfold flight. induction 1 as [|e l (_ & He & _) _ IH]; cbn; [done|].
  assert (cost e.2 = 0) by (unfold cost; by rewrite He). lia.
Qed.

Lemma probes_put pend extra h lv s ps :
  inv pend extra h -> getPacketNumberSpace h lv = Some s -> ps ⊆+ pathProbePackets (history s) ->
  let h' := put h lv (with_history s (with_probes (history s) ps)) in
  inv pend extra h' /\ frames (live h) ++ frames ps ≡ₚ frames (live h') ++ frames (pathProbePackets (history s)).
Proof.
  intros Hi Hs Hsub h'. destruct (inv_space _ _ _ Hi _ _ Hs) as (S1 & S2 & S3 & S4 & S5 & S6). split.
  - apply submseteq_Permutation in Hsub as [k Hk].
    assert (Hall : Forall probe_ok ps /\ NoDup ps.*1 /\ Forall (fun e => e.1 <= highestPacketNumber (history s)) ps /\
      flight (pathProbePackets (history s)) = flight ps).
    { rewrite Hk in S4, S5, S6 |- *. rewrite fmap_app in S5. apply NoDup_app in S5 as (S5 & _).
      apply Forall_app in S4 as [S4 S4']. apply Forall_app in S6 as [S6 _]. split_and!; try done.
      rewrite flight_app, (probes_flight k S4'). lia. }
    destruct Hall as (Q1 & Q2 & Q3 & Q4).
    eapply inv_put_same; try done; [by apply Hi|]. unfold space_live, with_history, with_probes. cbn. by rewrite !flight_app, Q4.
  - unfold h'. rewrite (live_frames h lv s Hs), put_frames. unfold space_live, with_history, with_probes. cbn.
    change (Packets (mkHistory _ _ _ _ _ _)) with (Packets (history s)). rewrite !frames_app. solve_Permutation.
Qed.

Lemma probes_inv pend extra h ps :
  inv pend extra h -> ps ⊆+ pathProbePackets (history (appDataPackets h)) -> inv pend extra (with_app_probes h ps).
Proof. intros Hi Hsub. by apply (probes_put pend extra h Encryption1RTT). Qed.

Lemma probes_frames pend extra h ps :
  inv pend extra h -> ps ⊆+ pathProbePackets (history (appDataPackets h)) ->
  frames (live h) ++ frames ps ≡ₚ frames (live (with_app_probes h ps)) ++ frames (pathProbePackets (history (appDataPackets h))).
Proof. intros Hi Hsub. by apply (probes_put pend extra h Encryption1RTT). Qed.

(** Only path probes are taken from the application data space. *)
Definition only_probes h h' : Prop :=
  initialPackets h' = initialPackets h /\ handshakePackets h' = handshakePackets h /\ env h' = env h /\
  exists ps, appDataPackets h' = with_history (appDataPackets h) (with_probes (history (appDataPackets h)) ps).

Lemma probes_lost_spec pend extra : forall l h,
  inv pend extra h -> Forall (fun e => e ∈ pathProbePackets (history (appDataPackets h))) l -> NoDup l.*1 ->
  exists h', probes_lost h l = Ok h' /\ inv pend extra h' /\ books h' ≡ₚ books h /\ only_probes h h'.
Proof.
  induction l as [|[pn p] l IH]; intros h Hi Hin Hnd; cbn [probes_lost].
  - exists h. split_and!; try done. split_and!; try done. exists (pathProbePackets (history (appDataPackets h))).
    by destruct (appDataPackets h) as [[] ? ? ? ? ?].
  - apply Forall_cons in Hin as [Hp Hin]. cbn in Hnd. apply NoDup_cons in Hnd as [Hn Hnd].
    destruct (inv_space _ _ _ Hi Encryption1RTT _ eq_refl) as (S1 & S2 & S3 & S4 & S5 & S6).
    assert (Hpr : probe_ok (pn, p)) by (rewrite Forall_forall in S4; by apply S4).
    destruct (probe_calls_spec _ Hpr) as (cs & Hcs & Hset). cbn in Hcs, Hset. rewrite Hcs. cbn [mbind res_bind].
    destruct (remove_probe_spec _ _ _ Hp S5) as [Hrm Hperm].
    set (ps := without pn (pathProbePackets (history (appDataPackets h)))) in *.
    set (h1 := with_app _ _). assert (Hh1 : h1 = with_app_probes (add_calls h cs) ps).
    { unfold h1, RemovePathProbe. cbn [appDataPackets add_calls with_calls]. rewrite Hrm. done. }
    rewrite Hh1. clear h1 Hh1. set (h1 := with_app_probes (add_calls h cs) ps).
    assert (Hsub : ps ⊆+ pathProbePackets (history (appDataPackets h))) by (rewrite Hperm; by apply submseteq_cons).
    assert (Hi1 : inv pend extra h1) by (apply probes_inv; [by apply inv_calls|done]).
    assert (Hb1 : books h1 ≡ₚ books h).
    { unfold books, h1. change (calls (with_app_probes _ _)) with (calls h ++ cs). rewrite settled_app, Hset.
      pose proof (probes_frames pend extra (add_calls h cs) ps (inv_calls _ _ _ cs Hi) Hsub) as Hf. cbn in Hf. change (live (add_calls h cs)) with (live h) in Hf.
      rewrite Hperm in Hf. change (frames ((pn, p) :: ps)) with (handled p ++ frames ps) in Hf.
      rewrite app_assoc in Hf. apply Permutation_app_inv_r in Hf. rewrite Hf. solve_Permutation. }
    destruct (IH h1 Hi1) as (h' & -> & Hi' & Hb' & (O1 & O2 & O3 & ps' & O4)); [|done|].
    { apply Forall_forall. intros e He. cbn. rewrite Forall_forall in Hin. apply list_elem_of_filter. split; [|auto].
      intros Heq. apply Hn. rewrite <- Heq. by apply list_elem_of_fmap_2. }
    exists h'. split_and!; try done; [by rewrite Hb'|]. split_and!; try done. exists ps'. by rewrite O4.
Qed.

Lemma detect_probes_spec pend extra h now : inv pend extra h ->
  exists h', detectLostPathProbes h now = Ok h' /\ inv pend extra h' /\ books h' ≡ₚ books h /\ only_probes h h'.
Proof.
  intros Hi. unfold detectLostPathProbes. destruct (negb _).
  - destruct (probes_lost_spec pend extra [] h Hi) as (h' & Hh & ?); [constructor..|]. cbn in Hh. simplify_eq. by exists h'.
  - apply probes_lost_spec; [done| |].
    + apply Forall_forall. by intros e [_ He]%list_elem_of_filter.
    + destruct (inv_space _ _ _ Hi Encryption1RTT _ eq_refl) as (_ & _ & _ & _ & S5 & _).
      eapply sublist_NoDup; [exact S5|]. by apply fmap_sublist, sublist_filter.
Qed.

(** ** Acknowledged packets *)

Definition is_probe (e : Z * packet) : Prop := isPathProbePacket e.2 = true.

(** An acknowledged packet and the entry of the history it came from. *)
Definition entry_of (ps : list (Z * packet)) (e : Z * packet) : Prop :=
  (isPathProbePacket e.2 = false /\ e ∈ ps) \/
  (isPathProbePacket e.2 = true /\ exists q, isPathProbePacket q = true /\ (e.1, q) ∈ ps).

Lemma collect_spec cl : forall probes, NoDup probes.*1 -> Forall is_probe probes -> NoDup cl.*1 ->
  let '(new, probes') := collect probes cl in
  probes ≡ₚ probes' ++ filter is_probe new /\ Forall (entry_of cl) new /\ sublist new.*1 cl.*1.
Proof.
  induction cl as [|[pn p] cl IH]; intros probes Hnd Hpr Hcl; cbn [collect].
  - split_and!; [by rewrite app_nil_r|constructor..].
  - cbn in Hcl. apply NoDup_cons in Hcl as [Hn Hcl].
    assert (Hup : forall new, Forall (entry_of cl) new -> Forall (entry_of ((pn, p) :: cl)) new).
    { intros new H. eapply Forall_impl; [exact H|]. intros e [[H1 H2]|[H1 (q & H2 & H3)]]; [left|right];
        split; try done; [by right|exists q; split; [done|by right]]. }
    destruct (isPathProbePacket p) eqn:Ep.
    + destruct (remove_probe probes pn) as [q pr1] eqn:Er.
      assert (Hq : match q with Some q => probes ≡ₚ (pn, q) :: pr1 | None => probes = pr1 end).
      { clear -Er. revert q pr1 Er. induction probes as [|[n x] probes IH]; cbn; intros q pr1 Er; [by simplify_eq|].
        destruct (n =? pn) eqn:En; [simplify_eq; by replace n with pn by lia|].
        destruct (remove_probe probes pn) as [q' pr'] eqn:E'. simplify_eq. specialize (IH _ _ eq_refl).
        destruct q; [rewrite IH; apply Permutation_swap|congruence]. }
      assert (Hpr1 : NoDup pr1.*1 /\ Forall is_probe pr1).
      { destruct q as [q|]; [|by subst]. rewrite Hq in Hnd, Hpr. cbn in Hnd. apply NoDup_cons in Hnd as [_ ?].
        by apply Forall_cons in Hpr as [_ ?]. }
      destruct Hpr1 as [Hnd1 Hpr1]. specialize (IH pr1 Hnd1 Hpr1 Hcl). destruct (collect pr1 cl) as [new pr2].
      destruct IH as (IH1 & IH2 & IH3). destruct q as [q|].
      * rewrite Hq in Hpr. apply Forall_cons in Hpr as [Hqp _]. split_and!.
        -- rewrite Hq, IH1, filter_cons_True by done. solve_Permutation.
        -- constructor; [|by apply Hup]. right. split; [done|]. exists p. split; [done|]. by left.
        -- cbn. by constructor.
      * subst. split_and!; [done|by apply Hup|cbn; by constructor].
    + specialize (IH probes Hnd Hpr Hcl). destruct (collect probes cl) as [new pr2]. destruct IH as (IH1 & IH2 & IH3).
      split_and!; [|constructor; [|by apply Hup]|cbn; by constructor].
      * rewrite filter_cons_False by (unfold is_probe; cbn; by rewrite Ep). done.
      * left. split; [done|by left].
Qed.

Lemma inv_extra_eq pend e1 e2 h : inv pend e1 h -> Forall (fun e => 0 <= cost e.2) e2 -> flight e1 = flight e2 -> inv pend e2 h.
Proof. intros [I1 I2 I3 I4 I5] H2 Hf. constructor; try done. by rewrite <- Hf. Qed.

Lemma remove_acked pend extra h lv s pn q :
  inv pend extra h -> getPacketNumberSpace h lv = Some s -> (pn, q) ∈ Packets (history s) ->
  exists hist, Remove (history s) pn = Ok hist /\
    let h' := put h lv (with_history s hist) in
    inv pend ((pn, q) :: extra) h' /\ frames (live h) ≡ₚ handled q ++ frames (live h') /\ env h' = env h /\
    calls h' = calls h /\ Packets hist = without pn (Packets (history s)) /\ same_rest (history s) hist /\ entry_ok (pn, q).
Proof.
  intros Hi Hs Hp. destruct (inv_space _ _ _ Hi _ _ Hs) as (Hok & _).
  destruct (Remove_spec (history s) pn q Hok Hp) as (hist & Hd & Hok' & Hpk & Hr). exists hist. split; [done|].
  destruct (take_out pend extra h lv s pn q hist Hi Hs Hp Hok' Hpk Hr) as (Hi2 & Hf & He). split_and!; try done; by destruct lv.
Qed.

Lemma ack_packets_spec pend lv : forall l extra h s,
  inv pend extra h -> getPacketNumberSpace h lv = Some s -> Forall (entry_of (Packets (history s))) l -> NoDup l.*1 ->
  Forall (fun e => 0 <= cost e.2) l -> Forall (fun e => is_probe e -> cost e.2 = 0) l ->
  exists h' s', ack_packets lv h l = Ok h' /\ inv pend (l ++ extra) h' /\ env h' = env h /\
    books h' ≡ₚ books h ++ frames (filter is_probe l) /\
    getPacketNumberSpace h' lv = Some s' /\ shrinks s s' /\ lossTime s' = lossTime s /\
    (forall e, e ∈ Packets (history s') <-> e ∈ Packets (history s) /\ e.1 ∉ l.*1).
Proof.
  induction l as [|[pn p] l IH]; intros extra h s Hi Hs Hent Hnd Hcost Hpc; cbn [ack_packets].
  - exists h, s. split_and!; try done; [by rewrite app_nil_r|]. intros e. split; [|tauto]. intros He. split; [done|].
    apply not_elem_of_nil.
  - apply Forall_cons in Hent as [He Hent]. cbn in Hnd. apply NoDup_cons in Hnd as [Hn Hnd].
    apply Forall_cons in Hcost as [Hc Hcost]. apply Forall_cons in Hpc as [Hpc1 Hpc].
    set (h0 := if negb (SentHistory.LargestAcked p =? InvalidPacketNumber) && bool_decide (lv = Encryption1RTT) && ignorePacketsBelow h
      then add_calls h [IgnorePacketsBelow (SentHistory.LargestAcked p + 1)] else h). set (h1 := add_calls h0 _).
    assert (H1 : inv pend extra h1 /\ env h1 = env h /\ getPacketNumberSpace h1 lv = Some s /\ live h1 = live h /\
      settled (calls h1) = settled (calls h) ++ handled p).
    { assert (H0 : inv pend extra h0 /\ env h0 = env h /\ getPacketNumberSpace h0 lv = Some s /\ live h0 = live h /\
        settled (calls h0) = settled (calls h)).
      { unfold h0. destruct (_ && _); [|done]. split_and!; [by apply inv_calls|done|by destruct lv|done|].
        cbn. rewrite settled_app. cbn. by rewrite app_nil_r. }
      destruct H0 as (? & ? & ? & ? & Hst). unfold h1. split_and!; [by apply inv_calls|done|by destruct lv|done|].
      cbn. by rewrite settled_app, Hst, settled_acked. }
    destruct H1 as (Hi1 & He1 & Hs1 & Hl1 & Hst1). clearbody h1. clear h0.
    rewrite (proj2 (space_get h1 lv s) Hs1). cbn [mbind res_bind].
    assert (Hq : exists q, (pn, q) ∈ Packets (history s) /\ (isPathProbePacket p = false -> q = p) /\
                           (isPathProbePacket p = true -> isPathProbePacket q = true)).
    { destruct He as [[H1 H2]|[H1 (q & H2 & H3)]]; [exists p|exists q]; split_and!; try done; cbn in *; congruence. }
    destruct Hq as (q & Hq & Hqp & Hqq).
    destruct (remove_acked pend extra h1 lv s pn q Hi1 Hs1 Hq) as (hist & -> & Hi2 & Hf2 & He2 & Hc2 & Hpk & Hr & Hok).
    cbn [mbind res_bind wrap_err]. set (h2 := put h1 lv (with_history s hist)) in *.
    assert (Hi2' : inv pend ((pn, p) :: extra) h2).
    { eapply inv_extra_eq; [exact Hi2|constructor; [done|apply Hi]|]. unfold flight. cbn. f_equal.
      destruct (isPathProbePacket p) eqn:Ep; [|by rewrite Hqp]. specialize (Hpc1 Ep). cbn in Hpc1. rewrite Hpc1.
      apply (quiet_cost (pn, q)); [done|]. by apply Hok, Hqq. }
    assert (Hb2 : books h2 ≡ₚ books h ++ frames (filter is_probe [(pn, p)])).
    { unfold books. rewrite Hc2, Hst1, <- Hl1, Hf2. rewrite filter_cons. cbn [filter list_filter].
      destruct (decide (is_probe (pn, p))) as [Hip|Hip].
      - rewrite (handled_quiet q); [|by apply Hok, Hqq]. unfold frames. cbn. rewrite app_nil_r. solve_Permutation.
      - rewrite (Hqp (not_true_is_false _ Hip)). unfold frames. cbn. rewrite app_nil_r. solve_Permutation. }
    destruct (IH ((pn, p) :: extra) h2 (with_history s hist) Hi2') as (h' & s' & -> & Hi' & He' & Hb' & Hs' & Hsh & Hlt & Hin);
      [apply put_get| |done..|].
    { cbn. rewrite Hpk. apply Forall_forall. intros e He0.
      assert (H4 : e.1 <> pn) by (intros Heq; apply Hn; rewrite <- Heq; by apply list_elem_of_fmap_2).
      rewrite Forall_forall in Hent. destruct (Hent e He0) as [[H1 H2]|[H1 (x & H2 & H3)]]; [left|right]; split; try done.
      - by apply list_elem_of_filter.
      - exists x. split; [done|]. by apply list_elem_of_filter. }
    exists h', s'. split_and!; try done.
    + eapply inv_extra_eq; [exact Hi'| |]; [apply Forall_app; split; [by constructor|apply Hi]|].
      rewrite !flight_app. unfold flight. cbn. lia.
    + congruence.
    + rewrite Hb', Hb2. rewrite <- app_assoc, <- frames_app, <- filter_app. done.
    + eapply shrinks_trans; [|exact Hsh]. unfold shrinks. cbn. by split_and!; try apply Hr.
    + intros e. rewrite Hin. cbn. rewrite Hpk. unfold without. rewrite list_elem_of_filter, not_elem_of_cons. tauto.
Qed.

(** The skipped numbers are refused exactly if the frame covers one. *)
Lemma acks_skipped_spec ack l : ack_ok ack ->
  (acks_skipped ack l = Ok tt /\ Forall (fun pn => covers ack pn = false) l) \/
  (exists pn, acks_skipped ack l = Err (errSkippedAcked pn) /\ pn ∈ l /\ covers ack pn = true).
Proof.
  intros Hok. induction l as [|pn l IH]; cbn [acks_skipped]; [by left|].
  rewrite (AcksPacket_spec ack pn Hok). cbn [wrap_err mbind res_bind]. fold (covers ack pn).
  destruct (covers ack pn) eqn:E.
  - right. exists pn. split_and!; [done|by left|done].
  - destruct IH as [[-> IH]|(q & -> & H1 & H2)]; [left; split; [done|by constructor]|].
    right. exists q. split_and!; [done|by right|done].
Qed.

Lemma detect_acked_spec pend h lv s ack :
  inv pend [] h -> ackedPackets h = [] -> getPacketNumberSpace h lv = Some s -> ack_ok ack ->
  (exists pn, detectAndRemoveAckedPackets h ack lv = Err (errSkippedAcked pn) /\
              lv = Encryption1RTT /\ pn ∈ skippedPackets (history s) /\ covers ack pn = true) \/
  (exists b h' s', detectAndRemoveAckedPackets h ack lv = Ok (b, h') /\ inv pend (ackedPackets h') h' /\
    (lv = Encryption1RTT -> Forall (fun pn => covers ack pn = false) (skippedPackets (history s))) /\
    env h' = env (with_acked h (ackedPackets h')) /\ books h' ≡ₚ books h /\
    getPacketNumberSpace h' lv = Some s' /\ largestAcked s' = largestAcked s /\ lossTime s' = lossTime s /\
    skippedPackets (history s') = skippedPackets (history s) /\
    ackedPackets h' = (collect (pathProbePackets (history s)) (filter (fun e => covers ack e.1 = true) (Packets (history s)))).1 /\
    (forall e, e ∈ Packets (history s') <-> e ∈ Packets (history s) /\ e.1 ∉ (ackedPackets h').*1)).
Proof.
  intros Hi Hac Hs Hok. unfold detectAndRemoveAckedPackets. rewrite Hac, (proj2 (space_get h lv s) Hs). cbn [mbind res_bind].
  assert (Hsk : (if bool_decide (lv = Encryption1RTT) then acks_skipped ack (skippedPackets (history s)) else Ok tt) = Ok tt /\
      (lv = Encryption1RTT -> Forall (fun pn => covers ack pn = false) (skippedPackets (history s))) \/
    exists pn, (if bool_decide (lv = Encryption1RTT) then acks_skipped ack (skippedPackets (history s)) else Ok tt)
               = Err (errSkippedAcked pn) /\ lv = Encryption1RTT /\ pn ∈ skippedPackets (history s) /\ covers ack pn = true).
  { case_bool_decide; [|by left]. destruct (acks_skipped_spec ack (skippedPackets (history s)) Hok) as [?|(pn & ? & ?)]; [tauto|].
    right. by exists pn. }
  destruct Hsk as [[-> Hns] | (pn & -> & Hpn)]; [|left; by exists pn]. right. cbn [mbind res_bind].
  destruct (ack_bounds ack Hok) as (lo & hi & Hlo & Hhi & _). rewrite Hlo, Hhi. cbn [wrap_err mbind res_bind].
  destruct (inv_space _ _ _ Hi _ _ Hs) as (S1 & S2 & S3 & S4 & S5 & S6).
  set (cl := filter (fun e => covers ack e.1 = true) (Packets (history s))).
  pose proof (acked_loop_spec ack lo hi Hok Hlo Hhi (Packets (history s)) (history s) [] 0 false) as Hl.
  pose proof (collect_spec cl (pathProbePackets (history s)) S5) as Hcs. fold cl in Hl. cbn zeta in Hl.
  destruct (collect (pathProbePackets (history s)) cl) as [new probes] eqn:Ecl. cbn [fst].
  rewrite Hl; [|apply entries_sorted|]. 2:{ apply Forall_forall. intros e _. split; [|intros j r Hj; lia].
    destruct Hok as (Hne & _). destruct (AckRanges ack); [done|]. cbn. lia. }
  cbn [mbind res_bind app]. clear Hl.
  destruct Hcs as (C1 & C2 & C3).
  { eapply Forall_impl; [exact S4|]. by intros e (? & _). }
  { eapply sublist_NoDup; [apply (entries_NoDup (firstPacketNumber (history s)) (packets (history s)))|].
    apply fmap_sublist, sublist_filter. }
  destruct (probes_put pend [] h lv s probes Hi Hs) as [Hi1 Hf1]; [rewrite C1; by apply submseteq_inserts_r|].
  set (s1 := with_history s (with_probes (history s) probes)) in *.
  assert (Hcost : Forall (fun e => 0 <= cost e.2) new /\ Forall (fun e => is_probe e -> cost e.2 = 0) new).
  { assert (Hn : Forall (fun e => is_probe e -> e ∈ pathProbePackets (history s)) new).
    { apply Forall_forall. intros e He Hp. rewrite C1. apply elem_of_app. right. by apply list_elem_of_filter. }
    rewrite !Forall_forall in *. assert (Hz : forall e, e ∈ new -> is_probe e -> cost e.2 = 0).
    { intros e He Hp. destruct (S4 e (Hn e He Hp)) as (_ & H0 & _). unfold cost. by rewrite H0. }
    split; [|done]. intros e He. destruct (decide (is_probe e)) as [Hp|Hp]; [by rewrite Hz|].
    apply entry_cost, S3. destruct (C2 e He) as [[_ H2]|[H2 _]]; [|done]. by apply list_elem_of_filter in H2 as [_ ?]. }
  destruct (ack_packets_spec pend lv new [] (with_acked (put h lv s1) new) s1) as (h' & s' & -> & Hi' & He' & Hb' & Hs' & Hsh & Hlt & Hin);
    try apply Hcost; [by eapply inv_core; [|exact Hi1]|by destruct lv| | |].
  { eapply Forall_impl; [exact C2|]. intros e [[H1 H2]|[H1 (q & H2 & H3)]]; [left|right]; split; try done.
    - by apply list_elem_of_filter in H2 as [_ ?].
    - exists q. split; [done|]. by apply list_elem_of_filter in H3 as [_ ?]. }
  { eapply sublist_NoDup; [|exact C3]. eapply sublist_NoDup; [apply (entries_NoDup (firstPacketNumber (history s)) (packets (history s)))|].
    apply fmap_sublist, sublist_filter. }
  assert (Ha : ackedPackets h' = new) by (unfold env in He'; by injection He').
  exists (false || existsb eliciting cl), h', s'. rewrite Ha. split_and!; try done; try apply Hsh.
  - by rewrite app_nil_r in Hi'.
  - rewrite He'. by destruct lv.
  - rewrite Hb'. rewrite (books_core (put h lv s1)) by done. unfold books.
    replace (calls (put h lv s1)) with (calls h) by (by destruct lv).
    rewrite C1, frames_app, (Permutation_app_comm (frames probes)), app_assoc in Hf1.
    apply Permutation_app_inv_r in Hf1. by rewrite Hf1, app_assoc.
Qed.

Lemma update_rtt_core h ack lv t n b :
  core (update_rtt h ack lv t n b) = core h /\ ackedPackets (update_rtt h ack lv t n b) = ackedPackets h /\
  perspective (update_rtt h ack lv t n b) = perspective h.
Proof.
  unfold update_rtt. destruct (list.last _) as [[pn p]|]; [|done]. destruct (_ && _); [|done]. by destruct (_ || _).
Qed.

Lemma update_ecn_core h s ack lv n prior :
  core (update_ecn h s ack lv n prior) = core h /\ ackedPackets (update_ecn h s ack lv n prior) = ackedPackets h /\
  perspective (update_ecn h s ack lv n prior) = perspective h.
Proof.
  unfold update_ecn. destruct (h_ecn h) as [e|]; [|done]. destruct (_ && _); [|done].
  destruct (Ecn.HandleNewlyAcked _ _ _ _ _) as [c e']. by destruct c.
Qed.

Lemma core_space h h' lv : core h' = core h -> getPacketNumberSpace h' lv = getPacketNumberSpace h lv.
Proof. unfold core. intros [= H1 H2 H3 _ _ _ _ _ _]. destruct lv; cbn; congruence. Qed.

(** Nothing but the bytes in flight, and the congestion controller. *)
Lemma settle_acked_spec pend prior t : forall l b h, inv pend l h ->
  exists b' h', settle_acked h prior t b l = Ok (b', h') /\ inv pend [] h' /\
    core (with_flight h' (bytesInFlight h)) = core h /\ lostPackets h' = lostPackets h /\
    perspective h' = perspective h /\ rttStats h' = rttStats h.
Proof.
  induction l as [|[pn p] l IH]; intros b h Hi; cbn [settle_acked]; [by exists b, h|].
  set (h1 := if includedInBytesInFlight p then with_cc h _ else h).
  assert (Hc : core h1 = core h /\ lostPackets h1 = lostPackets h /\ perspective h1 = perspective h /\ rttStats h1 = rttStats h)
    by (unfold h1; by destruct (includedInBytesInFlight p)).
  destruct Hc as (Hc & Hl & Hp & Hr). pose proof (inv_core _ _ _ _ Hc Hi) as Hi1. clearbody h1.
  destruct (remove_flight _ _ _ (pn, p) Hi1) as (n & Hn & Hi2). cbn [snd] in Hn. rewrite Hn. cbn [mbind res_bind].
  destruct (IH (if bool_decide (SentHistory.EncryptionLevel p = Some Encryption1RTT) then true else b) _ Hi2)
    as (b' & h' & -> & Hi' & Hc' & Hl' & Hp' & Hr').
  exists b', h'. split_and!; try done; try (cbn in *; congruence).
  unfold core in *. cbn in *. congruence.
Qed.

Lemma spurious_range_spec ranges pn i : (i < length ranges)%nat ->
  exists i' r, spurious_range ranges pn i = Ok (i', r) /\ (i' < length ranges)%nat.
Proof.
  induction i as [|i IH]; intros Hi; cbn [spurious_range].
  - destruct (lookup_lt_is_Some_2 ranges 0 Hi) as [r ->]. destruct (_ <? _); by exists 0%nat, r.
  - destruct (lookup_lt_is_Some_2 ranges (S i) Hi) as [r ->]. destruct (_ <? _); [apply IH; lia|by exists (S i), r].
Qed.

Lemma spurious_loop_spec ranges : forall l i, (i < length ranges)%nat -> exists lost, spurious_loop ranges i l = Ok lost.
Proof.
  induction l as [|[pn t] l IH]; intros i Hi; cbn [spurious_loop]; [by eexists|].
  destruct (spurious_range_spec ranges pn i Hi) as (i' & r & -> & Hi'). cbn [mbind res_bind].
  destruct (IH i' Hi') as (lost & ->). by eexists.
Qed.

Lemma only_probes_space h h' lv s : only_probes h h' -> getPacketNumberSpace h lv = Some s ->
  exists s', getPacketNumberSpace h' lv = Some s' /\ largestAcked s' = largestAcked s /\ Packets (history s') = Packets (history s).
Proof.
  intros (O1 & O2 & _ & ps & O4) Hs. destruct lv; cbn in *; [exists s; split_and!; congruence..| |]; simplify_eq;
    rewrite O4; by eexists.
Qed.

Lemma after_acked_spec pend h lv s ack t hi b prior :
  inv pend (ackedPackets h) h -> getPacketNumberSpace h lv = Some s -> ack_ok ack ->
  exists b' h' s', after_acked h ack lv t hi b prior = Ok (b', h') /\ inv pend [] h' /\ books h' ≡ₚ books h /\
    ackedPackets h' = [] /\ getPacketNumberSpace h' lv = Some s' /\ largestAcked s' = Z.max (largestAcked s) hi /\
    (forall e, e ∈ Packets (history s') <->
       e ∈ Packets (history s) /\ is_lost (with_largestAcked s (Z.max (largestAcked s) hi)) (t - loss_delay (rttStats h')) e = false).
Proof.
  intros Hi Hs Hok. unfold after_acked. destruct (update_rtt_core h ack lv t hi b) as (Hc1 & Ha1 & Hp1).
  set (h1 := update_rtt h ack lv t hi b) in *. clearbody h1.
  assert (Hs1 : getPacketNumberSpace h1 lv = Some s) by (by rewrite (core_space h h1 lv Hc1)).
  rewrite (proj2 (space_get h1 lv s) Hs1). cbn [mbind res_bind].
  destruct (update_ecn_core h1 s ack lv hi prior) as (Hc2 & Ha2 & Hp2). set (h2 := update_ecn h1 s ack lv hi prior) in *. clearbody h2.
  assert (Hs2 : getPacketNumberSpace h2 lv = Some s) by (by rewrite (core_space h1 h2 lv Hc2)).
  assert (Hi2 : inv pend (ackedPackets h) h2) by (eapply inv_core; [|exact Hi]; congruence).
  assert (Hb2 : books h2 = books h) by (apply books_core; congruence).
  set (s3 := with_largestAcked s (Z.max (largestAcked s) hi)). set (h3 := put h2 lv s3).
  assert (Hi3 : inv pend (ackedPackets h) h3).
  { pose proof (inv_space _ _ _ Hi2 _ _ Hs2). eapply inv_put_same; try done. apply Hi. }
  assert (Hb3 : books h3 ≡ₚ books h).
  { rewrite <- Hb2. unfold books, h3. rewrite (live_frames h2 lv s Hs2), put_frames. by destruct lv. }
  assert (He3 : ackedPackets h3 = ackedPackets h) by (unfold h3; destruct lv; cbn; congruence).
  destruct (detect_lost_spec pend _ h3 lv s3 t Hi3 (put_get _ _ _)) as (h4 & s4 & -> & Hi4 & Hb4 & He4 & Hs4 & Hsh4 & Hin4 & _).
  cbn [mbind res_bind].
  assert (H5 : exists h5 s5, (if bool_decide (lv = Encryption1RTT) then detectLostPathProbes h4 t else Ok h4) = Ok h5 /\
    inv pend (ackedPackets h) h5 /\ books h5 ≡ₚ books h4 /\ env h5 = env h4 /\ getPacketNumberSpace h5 lv = Some s5 /\
    largestAcked s5 = largestAcked s4 /\ Packets (history s5) = Packets (history s4)).
  { case_bool_decide; [|by exists h4, s4]. destruct (detect_probes_spec pend _ h4 t Hi4) as (h5 & -> & Hi5 & Hb5 & Ho).
    destruct (only_probes_space h4 h5 lv s4 Ho Hs4) as (s5 & Hs5 & Hl5 & Hk5). exists h5, s5. split_and!; try done. apply Ho. }
  destruct H5 as (h5 & s5 & -> & Hi5 & Hb5 & He5 & Hs5 & Hl5 & Hk5). cbn [mbind res_bind].
  assert (Ha5 : ackedPackets h5 = ackedPackets h /\ rttStats h5 = rttStats h3).
  { rewrite He4 in He5. rewrite <- He3. clear -He5. unfold env in He5. split; congruence. }
  destruct Ha5 as [-> Hr5].
  destruct (settle_acked_spec pend prior t (ackedPackets h) false h5 Hi5) as (b' & h6 & -> & Hi6 & Hc6 & Hl6 & Hp6 & Hr6).
  cbn [mbind res_bind]. assert (Hs6 : getPacketNumberSpace h6 lv = Some s5).
  { rewrite <- Hs5, <- (core_space _ _ lv Hc6). by destruct lv. }
  rewrite (proj2 (space_get h6 lv s5) Hs6). cbn [mbind res_bind].
  assert (H7 : exists h7, (if bool_decide (lv = Encryption1RTT) && (hi =? largestAcked s5) then
         h ← detectSpuriousLosses h6 ack; Ok (with_lost h (DeleteBefore (lostPackets h) (t - 3 * PTO (rttStats h) false)))
       else Ok h6) = Ok h7 /\ core h7 = core h6 /\ rttStats h7 = rttStats h6).
  { destruct (_ && _); [|by exists h6]. unfold detectSpuriousLosses.
    destruct (spurious_loop_spec (AckRanges ack) (SentHistory.lostPackets (lostPackets h6)) (length (AckRanges ack) - 1)) as (lost & ->).
    { destruct Hok as (Hne & _). destruct (AckRanges ack); [done|]. cbn. lia. }
    cbn [mbind res_bind]. by eexists. }
  destruct H7 as (h7 & -> & Hc7 & Hp7). cbn [mbind res_bind]. eexists _, _, s5. split; [done|].
  pose proof (inv_core _ _ _ _ Hc7 Hi6) as [I1 I2 I3 I4 I5].
  split_and!; [|  |done| |rewrite Hl5; apply Hsh4|].
  - by constructor.
  - rewrite <- Hb3, <- Hb4, <- Hb5, <- (books_core h5 _ Hc6). change (books h7 ≡ₚ books h6). by rewrite (books_core _ _ Hc7).
  - rewrite <- Hs6, <- (core_space _ _ lv Hc7). by destruct lv.
  - intros e. rewrite Hk5, Hin4. cbn. by rewrite Hp7, Hr6, Hr5.
Qed.

(** The tracked packets, and the path probes, that an ACK frame acknowledges. *)
Definition newly_acked (s : packetNumberSpace) (ack : AckFrame) : list (Z * packet) :=
  (collect (pathProbePackets (history s)) (filter (fun e => covers ack e.1 = true) (Packets (history s)))).1.

Lemma received_ack_spec pend h lv s ack t :
  inv pend [] h -> ackedPackets h = [] -> getPacketNumberSpace h lv = Some s -> ack_ok ack ->
  exists hi, Ack.LargestAcked ack = Ok hi /\
  ((largestSent s < hi /\ ReceivedAck h ack lv t = Err errUnsentAcked) \/
   (exists pn, ReceivedAck h ack lv t = Err (errSkippedAcked pn) /\ lv = Encryption1RTT /\ pn ∈ skippedPackets (history s) /\ covers ack pn = true) \/
   (exists b h' s', ReceivedAck h ack lv t = Ok (b, h') /\ inv pend [] h' /\ books h' ≡ₚ books h /\
     ackedPackets h' = [] /\ hi <= largestSent s /\
     (lv = Encryption1RTT -> Forall (fun pn => covers ack pn = false) (skippedPackets (history s))) /\
     getPacketNumberSpace h' lv = Some s' /\
     let acked := newly_acked s ack in
     (forall e, e ∈ Packets (history s') <-> e ∈ Packets (history s) /\ e.1 ∉ acked.*1 /\
        (acked <> [] -> is_lost (with_largestAcked s (Z.max (largestAcked s) hi)) (t - loss_delay (rttStats h')) e = false)) /\
     largestAcked s' = if acked then largestAcked s else Z.max (largestAcked s) hi)).
Proof.
  intros Hi Hac Hs Hok. unfold ReceivedAck. rewrite (proj2 (space_get h lv s) Hs). cbn [mbind res_bind].
  destruct (ack_bounds ack Hok) as (lo & hi & Hlo & Hhi & _). rewrite Hhi. cbn [wrap_err mbind res_bind]. exists hi. split; [done|].
  destruct (Z.ltb_spec (largestSent s) hi) as [Hhigh|Hhigh]; [by left|]. right.
  set (h1 := if _ && _ && _ then setLossDetectionTimer (with_completed h true) t else h).
  assert (H1 : inv pend [] h1 /\ books h1 = books h /\ ackedPackets h1 = [] /\ getPacketNumberSpace h1 lv = Some s).
  { unfold h1. destruct (_ && _); [|done]. split_and!; try done. destruct Hi as [I1 I2 I3 I4 I5]. by constructor. }
  destruct H1 as (Hi1 & Hb1 & Ha1 & Hs1). clearbody h1.
  destruct (detect_acked_spec pend h1 lv s ack Hi1 Ha1 Hs1 Hok)
    as [(pn & -> & Hpn)|(b & h2 & s2 & -> & Hi2 & Hns & He2 & Hb2 & Hs2 & Hl2 & _ & Hk2 & Hac2 & Hin2)];
    cbn [mbind res_bind]; [left; by exists pn|right]. fold (newly_acked s ack) in Hac2. rewrite <- Hac2.
  destruct (ackedPackets h2) as [|e l] eqn:Ea.
  - exists false, h2, s2. split_and!; try done; [by rewrite Hb2, Hb1|]. intros e. rewrite Hin2. cbn. tauto.
  - rewrite <- Ea in Hi2. destruct (after_acked_spec pend h2 lv s2 ack t hi b (bytesInFlight h1) Hi2 Hs2 Hok)
      as (b' & h' & s' & -> & Hi' & Hb' & Ha' & Hs' & Hl' & Hin').
    exists b', h', s'. split_and!; try done; [by rewrite Hb', Hb2, Hb1| |by rewrite Hl', Hl2].
    intros x. rewrite Hin', Hin2. unfold is_lost, Difference. cbn. rewrite Hk2, Hl2. rewrite not_elem_of_cons.
    assert (e :: l <> []) by done. tauto.
Qed.

End safety.
End SentSafety.
