(* ===== verification/SentRecovery.v ===== *)
(** * Loss recovery over the life of a connection

    Every sequence of calls a connection makes to the handler of sent packets
    (src/quicfork/internal/ackhandler/sent_packet_handler.go, called from
    src/quicfork/connection.go and packet_packer.go): numbers are taken and
    packets sent, ACK frames arrive, timers fire, probes are queued, keys are
    dropped, a Retry or a migration resets the handler.  The theorems hold for
    every congestion controller. *)

From Stdlib Require Import ZifyBool.
From stdpp Require Import sorting.
From S2P Require Import Prelude GoBytes Varint Wire AckFrame Frames FrameParser PacketNumber ReceivedPackets RttStats SentHistory Ecn SentPackets SentAcks SentSafety.
Local Open Scope Z_scope.

Module SentRecovery.
Import Wire Ack Tracker RttStats SentHistory SentPackets SentAcks SentSafety.

#[local] Arguments frames : simpl never.
#[local] Arguments flight : simpl never.
#[local] Arguments settled : simpl never.

Section recovery.
Context {C : Type} {CC : SendAlgorithm C}.
Implicit Types h : sentPacketHandler (C := C).

(** ** Sending *)

Lemma timer_inv pend extra h t : inv pend extra h -> inv pend extra (setLossDetectionTimer h t).
Proof. by apply inv_core. Qed.

(** The number that was announced is the one that is used. *)
Lemma pop_number_spec pend h lv s r :
  inv pend [] h -> getPacketNumberSpace h lv = Some s -> pend_of pend lv = None ->
  exists pn l h', PeekPacketNumber h lv = Ok (pn, l) /\ PopPacketNumber h lv r = Ok (pn, h') /\
    inv (set_pend pend lv (Some pn)) [] h' /\ books h' ≡ₚ books h /\ env h' = env h /\
    (forall l', is_Some (getPacketNumberSpace h' l') <-> is_Some (getPacketNumberSpace h l')) /\ 0 <= pn.
Proof.
  intros Hi Hs Hn. unfold PeekPacketNumber, PopPacketNumber. rewrite (proj2 (space_get h lv s) Hs). cbn [mbind res_bind].
  destruct (inv_space _ _ _ Hi _ _ Hs) as (S1 & S2 & S3 & S4 & S5 & S6). rewrite Hn in S2. destruct S2 as [Hg S2].
  assert (Hput : forall pn hist g, hist_ok hist -> Packets hist = Packets (history s) ->
    pathProbePackets hist = pathProbePackets (history s) -> highestPacketNumber (history s) <= highestPacketNumber hist ->
    next_number hist pn -> gen_next g = pn + 1 ->
    let h' := put h lv (with_history (with_pns s g) hist) in
    inv (set_pend pend lv (Some pn)) [] h' /\ books h' ≡ₚ books h /\ env h' = env h /\
    (forall l', is_Some (getPacketNumberSpace h' l') <-> is_Some (getPacketNumberSpace h l'))).
  { intros pn hist g H1 H2 H3 H4 H5 H6 h'. split_and!.
    - eapply handler_put; [exact Hi|exact Hs| |done|].
      + unfold space_ok. cbn. rewrite H2, H3. split_and!; try done.
        eapply Forall_impl; [exact S6|]. cbn. intros e ?. lia.
      + unfold space_live. cbn. by rewrite H2, H3.
    - unfold books, h'. rewrite (live_frames h lv s Hs), put_frames. unfold space_live. cbn. rewrite H2, H3. by destruct lv.
    - by destruct lv.
    - intros l'. unfold h'. destruct lv, l'; cbn in *; rewrite ?Hs; split; intros; done || eauto. }
  destruct (pns s) as [next|period maxPeriod next toSkip] eqn:Eg; cbn [Pop Peek gen_next] in *.
  - cbn [mbind res_bind]. eexists _, _, _. split; [done|]. split; [done|].
    destruct (Hput next (history s) (sequential (next + 1))) as (? & ? & ? & ?); try done.
  - destruct (next =? toSkip).
    + destruct (SkippedPacket_spec (history s) next S1) as (hist & Hsk & K1 & K2 & K3 & K4 & _); [done|].
      replace (next + 1 - 1) with next by lia. rewrite Hsk. cbn [wrap_err mbind res_bind].
      eexists _, _, _. split; [done|]. split; [done|]. destruct S1 as (_ & _ & _ & Hh).
      destruct (Hput (next + 1) hist (generateNewSkip period maxPeriod (next + 2) r)) as (? & ? & ? & ?); try done;
        try (unfold next_number; rewrite K3; cbn; lia); [cbn; lia|]. split_and!; try done. lia.
    + cbn [mbind res_bind]. eexists _, _, _. split; [done|]. split; [done|].
      destruct (Hput next (history s) (skipping period maxPeriod (next + 1) toSkip)) as (? & ? & ? & ?); try done.
Qed.

(** The packet that [SentPacket] records. *)
Definition sent_packet (t largestAcked : Z) (sf : list StreamFrame) (fs : list Frame) (lv : EncryptionLevel) (size : Z)
    (mtu probe : bool) : packet :=
  mkPacket t sf fs largestAcked size (Some lv) mtu
    (negb probe && ((0 <? length sf)%nat || (0 <? length fs)%nat)) probe.

(** What the callers of [SentPacket] guarantee: path probes are 1-RTT packets of
    control frames with handlers, and marks are those that [ECNMode] gives. *)
Definition sendable h (t : Z) (sf : list StreamFrame) (fs : list Frame) (lv : EncryptionLevel) (ecn : ECN) (size : Z)
    (probe : bool) : Prop :=
  0 < t /\ 0 <= size /\
  (h_ecn h <> None -> ecn = ECNNon \/ ecn = ECN_ECT0) /\
  (probe = true -> lv = Encryption1RTT /\ sf = [] /\ Forall (fun f => is_Some (fr_Handler f)) fs).

Lemma flight_one pn p : flight [(pn, p)] = cost p.
Proof. unfold flight. cbn. lia. Qed.

Lemma frames_one pn p : frames [(pn, p)] = handled p.
Proof. unfold frames. cbn. by rewrite app_nil_r. Qed.

Lemma sent_spec pend h lv s pn t la sf fs ecn size mtu probe :
  inv pend [] h -> getPacketNumberSpace h lv = Some s -> pend_of pend lv = Some pn ->
  sendable h t sf fs lv ecn size probe ->
  exists h', SentPackets.SentPacket h t pn la sf fs lv ecn size mtu probe = Ok h' /\
    inv (set_pend pend lv None) [] h' /\ books h' ≡ₚ books h ++ handled (sent_packet t la sf fs lv size mtu probe) /\
    ackedPackets h' = ackedPackets h /\ bytesSent h' = bytesSent h + size.
Proof.
  intros Hi Hs Hpend (Ht & Hsize & Hecn & Hprobe). unfold SentPackets.SentPacket.
  set (h0 := with_sent h _ _). assert (Hc0 : core h0 = core h) by done.
  pose proof (inv_core _ _ _ _ Hc0 Hi) as Hi0. assert (Hs0 : getPacketNumberSpace h0 lv = Some s) by (by destruct lv).
  rewrite (proj2 (space_get h0 lv s) Hs0). cbn [mbind res_bind].
  destruct (inv_space _ _ _ Hi _ _ Hs) as (S1 & S2 & S3 & S4 & S5 & S6). rewrite Hpend in S2. destruct S2 as [Hnx Hg].
  assert (Hb0 : books h0 = books h) by done. assert (Ha0 : ackedPackets h0 = ackedPackets h) by done.
  assert (Hst0 : bytesSent h0 = bytesSent h + size) by done.
  assert (He0 : h_ecn h0 <> None -> ecn = ECNNon \/ ecn = ECN_ECT0) by exact Hecn. clearbody h0.
  set (p := sent_packet t la sf fs lv size mtu probe). assert (Hhigh : highestPacketNumber (history s) <= pn).
  { destruct Hnx as [? [? | ?]]; lia. }
  destruct probe.
  - destruct (Hprobe eq_refl) as (-> & -> & Hfs).
    change (mkPacket _ _ _ _ _ _ _ _ true) with p.
    destruct (SentPathProbePacket_spec (history s) pn p S1 Hnx) as (hist & Hh & K1 & K2 & K3 & K4 & K5).
    change (history (with_largestSent s pn)) with (history s). rewrite Hh. cbn [wrap_err mbind res_bind]. eexists. split; [done|].
    assert (Hpk : probe_ok (pn, p)) by done.
    split_and!; [|  |cbn; done..].
    + apply timer_inv. eapply (handler_put _ _ _ _ _ Encryption1RTT); [exact Hi0|exact Hs0| |done|].
      * unfold space_ok. cbn. rewrite K2, K3, K4. split_and!; try done.
        -- destruct Hnx. lia.
        -- right. lia.
        -- apply Forall_app. split; [done|]. repeat constructor; cbn; done || lia.
        -- apply Forall_app. by split; [|constructor].
        -- rewrite fmap_app. apply NoDup_app. split_and!; [done| |apply NoDup_singleton].
           intros x Hx ->%list_elem_of_singleton. apply list_elem_of_fmap in Hx as ([y q] & Hy & He).
           rewrite Forall_forall in S6. specialize (S6 _ He). cbn in *. subst y. destruct Hnx as [? [Hz | ?]]; [|lia]. lia.
        -- apply Forall_app. split; [eapply Forall_impl; [exact S6|]; cbn; intros; lia|by constructor].
      * unfold space_live. cbn. rewrite K2, K4, !flight_app, !flight_one. change (cost probe_entry) with 0. change (cost p) with 0. lia.
    + rewrite (books_core (put h0 Encryption1RTT (with_history (with_largestSent s pn) hist))) by done.
      rewrite <- Hb0. unfold books. rewrite put_frames. unfold space_live. cbn [history with_history]. rewrite K2, K4.
      rewrite (live_frames h0 Encryption1RTT s Hs0). unfold space_live.
      rewrite !frames_app, !frames_one. cbn. solve_Permutation.
  - cbn zeta. set (q := mkPacket t sf fs la size (Some lv) mtu false false).
    change (IsAckEliciting q) with (IsAckEliciting p).
    change (mkPacket t sf fs la size (Some lv) mtu (IsAckEliciting p) false) with p.
    set (s1 := if IsAckEliciting p then _ else with_largestSent s pn).
    set (h1 := if IsAckEliciting p then with_pto (with_flight h0 (bytesInFlight h0 + size)) _ _ _ else h0).
    set (h2 := with_cc h1 _).
    assert (Hcost : cost p = if IsAckEliciting p then size else 0) by done.
    assert (H2 : inv pend [(pn, p)] h2 /\ live h2 = live h0 /\ calls h2 = calls h0 /\ ackedPackets h2 = ackedPackets h0 /\
      bytesSent h2 = bytesSent h0 /\ h_ecn h2 = h_ecn h0 /\ getPacketNumberSpace h2 lv = Some s).
    { destruct Hi0 as [I1 I2 I3 I4 I5]. unfold h2, h1. destruct (IsAckEliciting p); split_and!; try done; try (by destruct lv);
        (constructor; [done| |by repeat constructor; cbn; rewrite Hcost| |done]); rewrite ?flight_one, ?Hcost;
        change (flight []) with 0 in I2; cbn; try done; try lia.
      - change (live (with_cc _ _)) with (live h0). lia.
      - destruct I4 as [J1 J2]. unfold mode_ok. cbn. destruct (0 <? numProbesToSend h0) eqn:E; [|done]. split; [lia|].
        intros _. apply J2. lia. }
    destruct H2 as (Hi2 & Hl2 & Hc2 & Ha2 & Hst2 & He2 & Hs2). clearbody h2. clear h1.
    assert (H3 : exists h3, (match h_ecn h2 with
         | Some e => if bool_decide (lv = Encryption1RTT)
                     then e ← wrap_err errHistory (Ecn.SentPacket e pn ecn); Ok (with_ecn h2 (Some e))
                     else Ok h2
         | None => Ok h2 end) = Ok h3 /\ core h3 = core h2 /\ ackedPackets h3 = ackedPackets h2 /\ bytesSent h3 = bytesSent h2).
    { rewrite He2. destruct (h_ecn h0) as [e|]; [|by exists h2]. case_bool_decide; [|by exists h2].
      destruct He0 as [-> | ->]; [done|cbn; by eexists..]. }
    destruct H3 as (h3 & -> & Hc3 & Ha3 & Hst3). cbn [mbind res_bind].
    assert (Hs3 : getPacketNumberSpace h3 lv = Some s) by (by rewrite (core_space _ _ lv Hc3)).
    pose proof (inv_core _ _ _ _ Hc3 Hi2) as Hi3.
    assert (Hh1 : history s1 = history s /\ pns s1 = pns s) by (unfold s1; by destruct (IsAckEliciting p)).
    destruct Hh1 as [-> Hpns1]. destruct (SentHistory.SentPacket_spec (history s) pn p S1 Hnx) as (hist & -> & K1 & K2 & K3 & K4 & K5).
    cbn [wrap_err mbind res_bind]. set (h4 := put h3 lv (with_history s1 hist)).
    assert (H4 : inv (set_pend pend lv None) [] h4 /\ books h4 ≡ₚ books h ++ handled p /\ ackedPackets h4 = ackedPackets h /\
      bytesSent h4 = bytesSent h + size).
    { split_and!; try (unfold h4; destruct lv; cbn; congruence).
      - eapply handler_put; [exact Hi3|exact Hs3| |done|].
        + unfold space_ok. cbn. rewrite K2, K3, K4, Hpns1. destruct Hnx. split_and!; try done; [lia|right; lia| |].
          * apply Forall_app. split; [done|]. constructor; [|constructor]. split_and!; try done. cbn. lia.
          * eapply Forall_impl; [exact S6|]. cbn. intros. lia.
        + unfold space_live. cbn. rewrite K2, K4, !flight_app, flight_one. change (flight []) with 0. lia.
      - rewrite <- Hb0. transitivity (books h2 ++ handled p); [|unfold books; by rewrite Hl2, Hc2]. rewrite <- (books_core _ _ Hc3).
        unfold books, h4. rewrite put_frames. rewrite (live_frames h3 lv s Hs3). unfold space_live. cbn [history with_history].
        rewrite K2, K4, !frames_app, frames_one.
        replace (calls (put h3 lv (with_history s1 hist))) with (calls h3) by (by destruct lv). solve_Permutation. }
    clearbody h4. destruct H4 as (Hi4 & Hb4 & Ha4 & Hst4).
    assert (Htm : forall h', (exists t', h' = setLossDetectionTimer h4 t') \/ h' = h4 ->
      inv (set_pend pend lv None) [] h' /\ books h' ≡ₚ books h ++ handled p /\ ackedPackets h' = ackedPackets h /\
      bytesSent h' = bytesSent h + size).
    { intros h' [[t' ->] | ->]; [|done]. split_and!; try done. by apply timer_inv. }
    destruct (IsAckEliciting p); cbn [negb].
    + eexists. split; [done|]. apply Htm. eauto.
    + eexists. split; [done|]. apply Htm. destruct (negb _); eauto.
Qed.

(** ** Probes and timeouts *)

Lemma first_outstanding_spec hist pn p : FirstOutstanding hist = Some (pn, p) ->
  (pn, p) ∈ Packets hist /\ IsAckEliciting p = true.
Proof.
  unfold FirstOutstanding. destruct (negb _); [done|]. intros [H1 H2]%List.find_some.
  split; [by apply list_elem_of_In|]. unfold Outstanding in H2. cbn in H2. by apply andb_true_iff in H2 as [_ ?].
Qed.

Lemma probe_spec pend h lv s : inv pend [] h -> getPacketNumberSpace h lv = Some s ->
  exists b h', QueueProbePacket h lv = Ok (b, h') /\ inv pend [] h' /\ books h' ≡ₚ books h /\ env h' = env h.
Proof.
  intros Hi Hs. unfold QueueProbePacket. rewrite (proj2 (space_get h lv s) Hs). cbn [mbind res_bind].
  destruct (FirstOutstanding (history s)) as [[pn p]|] eqn:E; [|by exists false, h].
  apply first_outstanding_spec in E as [Hp Ha]. destruct (inv_space _ _ _ Hi _ _ Hs) as (S1 & _).
  destruct (DeclareLost_spec (history s) pn p S1 Hp) as (hist & -> & Hok & Hpk & Hr). cbn [wrap_err mbind res_bind].
  destruct (take_out pend [] h lv s pn p hist Hi Hs Hp Hok Hpk Hr) as (Hi2 & Hf & He).
  set (h2 := put h lv (with_history s hist)) in *.
  destruct (settle_lost _ _ _ _ _ Hi2 He Ha) as (b & Hrm & Hq & Hi3 & Hb3). rewrite Hrm. cbn [mbind res_bind].
  rewrite Hq. cbn [mbind res_bind]. eexists _, _. split; [done|]. split_and!; [done| |by destruct lv].
  rewrite Hb3. unfold books. rewrite Hf. replace (calls h2) with (calls h) by (unfold h2; by destruct lv). solve_Permutation.
Qed.

Lemma loss_space h t l : getLossTimeAndSpace h = (t, l) -> t <> 0 -> exists lv, l = Some lv /\ is_Some (getPacketNumberSpace h lv).
Proof.
  unfold getLossTimeAndSpace. intros H Ht.
  destruct (initialPackets h) as [si|] eqn:Ei, (handshakePackets h) as [sh|] eqn:Eh;
    repeat (case_match; simplify_eq); eauto;
    try (eexists; split; [done|]; cbn; rewrite ?Ei, ?Eh; by eexists).
Qed.

Lemma pto_space pend extra h now t l : inv pend extra h -> getPTOTimeAndSpace h now = (t, l) -> t <> 0 ->
  exists lv, l = Some lv /\ lv <> Encryption0RTT /\ is_Some (getPacketNumberSpace h lv).
Proof.
  intros Hi H Ht. assert (Hh : peerCompletedAddressValidation h = false -> is_Some (handshakePackets h)).
  { intros Hp. destruct (inv_peer _ _ _ Hi Hp) as [Hn _]. by apply not_eq_None_Some. }
  unfold getPTOTimeAndSpace in H.
  destruct (initialPackets h) as [si|] eqn:Ei, (handshakePackets h) as [sh|] eqn:Eh, (peerCompletedAddressValidation h) eqn:Ep;
    repeat (case_match; simplify_eq); eauto; try (destruct (Hh eq_refl); done);
    try (eexists; split; [done|split; [done|]]; cbn; rewrite ?Ei, ?Eh; by eexists).
Qed.

Lemma mode_inv pend extra h c m n : inv pend extra h -> mode_ok (with_pto h c m n) -> inv pend extra (with_pto h c m n).
Proof. intros [I1 I2 I3 I4 I5] Hm. by constructor. Qed.

Lemma pto_probes_spec pend h l r : inv pend [] h -> pend_app pend = None -> l <> Encryption0RTT ->
  is_Some (getPacketNumberSpace h l) ->
  exists h', pto_probes h l r = Ok h' /\ inv pend [] h' /\ books h' ≡ₚ books h /\ ackedPackets h' = ackedPackets h.
Proof.
  intros Hi Hp Hl [s Hs]. destruct (inv_mode _ _ _ Hi) as [Hn _]. unfold pto_probes. set (h1 := with_pto h _ _ _).
  destruct l; [| |done|].
  - eexists. split; [done|]. split_and!; try done. apply (mode_inv _ _ h); [done|]. split; cbn in *; [lia|]. by rewrite Hs.
  - eexists. split; [done|]. split_and!; try done. apply (mode_inv _ _ h); [done|]. split; cbn in *; [lia|]. by rewrite Hs.
  - assert (Hm : mode_ok (with_pto h (ptoCount h1) SendPTOAppData (numProbesToSend h1))) by (split; cbn in *; [lia|done]).
    pose proof (mode_inv _ _ _ _ _ _ Hi Hm) as Hi1. set (h2 := with_pto h _ SendPTOAppData _) in *.
    assert (Hpop : PopPacketNumber h2 Encryption1RTT r =
      match PopPacketNumber h1 Encryption1RTT r with
      | Ok (pn, h') => Ok (pn, with_pto h' (ptoCount h') SendPTOAppData (numProbesToSend h'))
      | Err e => Err e | Panic => Panic end).
    { unfold PopPacketNumber. cbn. destruct (Pop _ r) as [[sk pn] g]. destruct sk; cbn; [|done].
      destruct (SkippedPacket _ _) as [hist| |]; cbn; done. }
    destruct (pop_number_spec pend h2 Encryption1RTT s r Hi1 Hs Hp) as (pn & len & h3 & _ & Hpo & Hi3 & Hb3 & He3 & Hsm & Hpn).
    rewrite Hpop in Hpo. destruct (PopPacketNumber h1 Encryption1RTT r) as [[pn' h4]| |]; [|done..]. simplify_eq.
    cbn [mbind res_bind]. cbn [space getPacketNumberSpace mbind res_bind].
    destruct (inv_space _ _ _ Hi3 Encryption1RTT _ eq_refl) as (S1 & S2 & S3 & S4 & S5 & S6). cbn in S1, S2, S3, S4, S5, S6.
    destruct S2 as [Hnx Hg]. destruct (SkippedPacket_spec _ pn S1 Hnx) as (hist & -> & K1 & K2 & K3 & K4 & _).
    cbn [wrap_err mbind res_bind]. eexists. split; [done|].
    change (with_pto (put h4 Encryption1RTT ?s) _ _ _) with
      (put (with_pto h4 (ptoCount h4) SendPTOAppData (numProbesToSend h4)) Encryption1RTT s). split_and!.
    + rewrite <- (set_pend_id pend Encryption1RTT). cbn [pend_of]. rewrite Hp.
      replace (set_pend pend Encryption1RTT None) with (set_pend (set_pend pend Encryption1RTT (Some pn)) Encryption1RTT None) by done.
      eapply handler_put; [exact Hi3|done| |done|].
      * unfold space_ok. cbn. rewrite K2, K3, K4. destruct Hnx as [? Hh]. split_and!; try done; [lia|right; lia|].
        eapply Forall_impl; [exact S6|]. cbn. intros e ?. destruct Hh; lia.
      * unfold space_live. cbn. by rewrite K2, K4.
    + change (books h) with (books h2). rewrite <- Hb3. unfold books. rewrite put_frames. set (h5 := with_pto h4 _ _ _). rewrite (live_frames h5 Encryption1RTT _ eq_refl).
      unfold space_live. cbn. by rewrite K2, K4.
    + unfold env in He3. cbn in *. congruence.
Qed.

Lemma timeout_spec pend h now r : inv pend [] h -> pend_app pend = None ->
  exists h', OnLossDetectionTimeout h now r = Ok h' /\ inv pend [] h' /\ books h' ≡ₚ books h /\ ackedPackets h' = ackedPackets h.
Proof.
  intros Hi Hp. unfold OnLossDetectionTimeout.
  assert (H1 : exists h1, (if handshakeConfirmed h then detectLostPathProbes h now else Ok h) = Ok h1 /\ inv pend [] h1 /\
    books h1 ≡ₚ books h /\ ackedPackets h1 = ackedPackets h).
  { destruct (handshakeConfirmed h); [|by exists h]. destruct (detect_probes_spec pend [] h now Hi) as (h1 & -> & Hi1 & Hb1 & Ho).
    exists h1. split_and!; try done. destruct Ho as (_ & _ & He & _). unfold env in He. congruence. }
  destruct H1 as (h1 & -> & Hi1 & Hb1 & Ha1). cbn [mbind res_bind].
  destruct (getLossTimeAndSpace h1) as [lt l] eqn:El.
  assert (H2 : exists h2, (if negb (lt =? 0) then match l with Some l => detectLostPackets h1 now l | None => Panic end
       else on_pto h1 now r) = Ok h2 /\ inv pend [] h2 /\ books h2 ≡ₚ books h1 /\ ackedPackets h2 = ackedPackets h1).
  { destruct (Z.eqb_spec lt 0) as [Hz|Hz]; cbn [negb].
    - unfold on_pto. destruct (inv_mode _ _ _ Hi1) as [Hn _]. destruct (_ && _) eqn:Eb.
      + assert (Hpc : peerCompletedAddressValidation h1 = false) by (by destruct (peerCompletedAddressValidation h1), (_ =? 0)).
        destruct (inv_peer _ _ _ Hi1 Hpc) as [Hh _]. cbn.
        destruct (initialPackets h1) eqn:Ei; [|destruct (handshakePackets h1) eqn:Eh; [|done]];
          (eexists; split; [done|]; split_and!; try done; apply (mode_inv _ _ h1); [done|]; split; cbn; [lia|by rewrite ?Ei, ?Eh]).
      + destruct (getPTOTimeAndSpace h1 now) as [pt pl] eqn:Ep. destruct (Z.eqb_spec pt 0) as [Hpz|Hpz]; [by exists h1|].
        destruct (pto_space _ _ _ _ _ _ Hi1 Ep Hpz) as (lv & -> & Hlv & s & Hs). cbn [mbind res_bind].
        rewrite (proj2 (space_get h1 lv s) Hs). cbn [mbind res_bind]. clear Eb. destruct (_ && _); [by exists h1|].
        by apply pto_probes_spec.
    - destruct (loss_space _ _ _ El Hz) as (lv & -> & s & Hs).
      destruct (detect_lost_spec pend [] h1 lv s now Hi1 Hs) as (h2 & s2 & -> & Hi2 & Hb2 & He2 & _).
      exists h2. split_and!; try done. unfold env in He2. congruence. }
  destruct H2 as (h2 & -> & Hi2 & Hb2 & Ha2). cbn [mbind res_bind]. eexists. split; [done|].
  split_and!; [by apply timer_inv|by rewrite <- Hb1, <- Hb2|cbn; congruence].
Qed.

(** ** Keys dropped *)

Lemma remove_all_spec : forall l h, Forall (fun e => 0 <= cost e.2) l -> flight l <= bytesInFlight h ->
  remove_all_flight h l = Ok (with_flight h (bytesInFlight h - flight l)).
Proof.
  induction l as [|[pn p] l IH]; intros h Hl Hf; cbn [remove_all_flight].
  - change (flight []) with 0. rewrite Z.sub_0_r. by destruct h.
  - apply Forall_cons in Hl as [Hc Hl]. change (flight ((pn, p) :: l)) with (cost p + flight l) in *. cbn in Hc.
    pose proof (flight_nonneg l Hl). unfold removeFromBytesInFlight, cost in *. destruct (includedInBytesInFlight p).
    + rewrite (proj2 (Z.ltb_ge _ _)) by lia. cbn [mbind res_bind]. rewrite IH; cbn; [|done|lia]. do 2 f_equal. lia.
    + cbn [mbind res_bind]. rewrite IH by (done || lia). do 2 f_equal.
Qed.

(** The packets that leave with the keys of a level. *)
Definition rejected (l : list (Z * packet)) : list (Z * packet) :=
  (fix go l := match l with
               | e :: l => if bool_decide (SentHistory.EncryptionLevel e.2 = Some Encryption0RTT) then e :: go l else []
               | [] => []
               end) l.

Definition dropped_with h (lv : EncryptionLevel) : list (Z * packet) :=
  match lv with
  | EncryptionInitial => opt_live (initialPackets h)
  | EncryptionHandshake => opt_live (handshakePackets h)
  | Encryption0RTT => rejected (Packets (history (appDataPackets h)))
  | Encryption1RTT => []
  end.

Lemma space_flight_packets pend s : space_ok pend s -> flight (space_live s) = flight (Packets (history s)) /\
  Forall (fun e => 0 <= cost e.2) (Packets (history s)).
Proof.
  intros (_ & _ & S3 & S4 & _). unfold space_live. rewrite flight_app, (probes_flight _ S4). split; [lia|].
  eapply Forall_impl; [exact S3|]. apply entry_cost.
Qed.

Lemma flight_le pend h lv s : inv pend [] h -> getPacketNumberSpace h lv = Some s ->
  flight (Packets (history s)) <= bytesInFlight h /\ bytesInFlight h - flight (Packets (history s)) = flight (others h lv).
Proof.
  intros Hi Hs. destruct (space_flight_packets _ _ (inv_space _ _ _ Hi _ _ Hs)) as [Hf _].
  pose proof (inv_flight _ _ _ Hi) as Hb. rewrite (live_flight h lv s Hs), Hf in Hb. change (flight []) with 0 in Hb.
  assert (0 <= flight (others h lv)); [|lia].
  assert (Ho : forall o l, getPacketNumberSpace h l = o -> 0 <= flight (opt_live o)).
  { intros [x|] l Hl; [|done]. exact (space_flight _ _ (inv_space _ _ _ Hi l x Hl)). }
  pose proof (Ho _ EncryptionInitial eq_refl). pose proof (Ho _ EncryptionHandshake eq_refl).
  pose proof (Ho _ Encryption1RTT eq_refl). destruct lv; cbn in *; rewrite flight_app; lia.
Qed.

Lemma drop_0rtt_spec pend : forall l h, inv pend [] h -> Forall (fun e => e ∈ Packets (history (appDataPackets h))) l ->
  NoDup l.*1 ->
  exists h', drop_0rtt h l = Ok h' /\ inv pend [] h' /\ books h ≡ₚ books h' ++ frames (rejected l) /\ env h' = env h.
Proof.
  induction l as [|[pn p] l IH]; intros h Hi Hin Hnd; cbn [drop_0rtt rejected snd].
  - exists h. split_and!; try done. by rewrite app_nil_r.
  - apply Forall_cons in Hin as [Hp Hin]. cbn in Hnd. apply NoDup_cons in Hnd as [Hn Hnd].
    case_bool_decide; cbn [negb]; [|exists h; split_and!; try done; by rewrite app_nil_r].
    destruct (remove_acked pend [] h Encryption1RTT _ pn p Hi eq_refl Hp) as (hist & Hrm & Hi2 & Hf2 & He2 & Hc2 & Hpk & Hr & Hok).
    destruct (remove_flight _ _ _ (pn, p) Hi2) as (b & Hb & Hi3). cbn [snd] in Hb.
    assert (Hb' : removeFromBytesInFlight h p = Ok (with_flight h b)).
    { unfold removeFromBytesInFlight in *. cbn [bytesInFlight put with_app with_flight] in Hb.
      apply (f_equal (fun r => match r with Ok x => Some (bytesInFlight x) | _ => None end)) in Hb.
      destruct (includedInBytesInFlight p); [destruct (_ <? _); [done|]|]; cbn in Hb; injection Hb as <-; [done|by destruct h]. }
    rewrite Hb'. cbn [mbind res_bind appDataPackets with_flight]. rewrite Hrm.
    set (h2 := with_app (with_flight h b) _). change (with_flight (put h _ _) b) with h2 in Hi3.
    destruct (IH h2 Hi3) as (h' & -> & Hi' & Hb2 & He'); [|done|].
    { cbn. rewrite Hpk. apply Forall_forall. intros e He0. rewrite Forall_forall in Hin. apply list_elem_of_filter.
      split; [|auto]. intros Heq. apply Hn. rewrite <- Heq. by apply list_elem_of_fmap_2. }
    exists h'. split_and!; try done. change (frames ((pn, p) :: ?k)) with (handled p ++ frames k).
    unfold books at 1. rewrite Hf2. transitivity (handled p ++ books h2); [unfold books; cbn; change (live h2) with (live (put h Encryption1RTT (with_history (appDataPackets h) hist))); solve_Permutation|].
    rewrite Hb2. solve_Permutation.
Qed.

Lemma drop_spec pend h lv now : inv pend [] h -> lv <> Encryption1RTT ->
  exists h', DropPackets h lv now = Ok h' /\ inv pend [] h' /\ books h ≡ₚ books h' ++ frames (dropped_with h lv) /\
    ackedPackets h' = ackedPackets h.
Proof.
  intros Hi Hlv. unfold DropPackets.
  set (h1 := if _ && _ then with_completed h true else h).
  assert (H1 : inv pend [] h1 /\ books h1 = books h /\ live h1 = live h /\ dropped_with h1 lv = dropped_with h lv /\ ackedPackets h1 = ackedPackets h /\
    (forall l, getPacketNumberSpace h1 l = getPacketNumberSpace h l) /\
    (lv = EncryptionHandshake -> peerCompletedAddressValidation h1 = true)).
  { unfold h1. destruct (_ && _) eqn:E.
    - split_and!; try done; try (by destruct lv). destruct Hi as [I1 I2 I3 I4 I5]. by constructor.
    - split_and!; try done. intros ->. destruct (peerCompletedAddressValidation h) eqn:Ep; [done|].
      destruct (inv_peer _ _ _ Hi Ep) as [_ Hc]. rewrite !bool_decide_true in E by done. done. }
  destruct H1 as (Hi1 & Hb1 & Hl1 & Hd1 & Ha1 & Hg1 & Hp1). rewrite <- Hd1, <- Hb1. clearbody h1.
  destruct lv; [| | |done].
  - destruct (initialPackets h1) as [s|] eqn:Es; cbn [dropped_with opt_live]; [|exists h1; rewrite Es; cbn; by rewrite app_nil_r].
    destruct (flight_le pend h1 EncryptionInitial s Hi1 Es) as [Hle Hf].
    destruct (space_flight_packets _ _ (inv_space _ _ _ Hi1 EncryptionInitial s Es)) as [_ Hc].
    rewrite (remove_all_spec _ _ Hc Hle). cbn [mbind res_bind]. eexists. split; [done|]. rewrite Es. cbn [opt_live]. split_and!; [|  |done].
    + destruct Hi1 as [I1 I2 I3 I4 I5]. constructor; try done.
      * intros l s' Hl. apply I1. destruct l; cbn in *; done.
      * change (bytesInFlight h1 - flight (Packets (history s)) = flight (others h1 EncryptionInitial) + 0). lia.
    + unfold books. rewrite (live_frames h1 EncryptionInitial s Es). cbn. change (live _) with (others h1 EncryptionInitial). solve_Permutation.
  - destruct (handshakePackets h1) as [s|] eqn:Es; cbn [dropped_with opt_live]; [|exists h1; rewrite Es; cbn; by rewrite app_nil_r].
    destruct (flight_le pend h1 EncryptionHandshake s Hi1 Es) as [Hle Hf].
    destruct (space_flight_packets _ _ (inv_space _ _ _ Hi1 EncryptionHandshake s Es)) as [_ Hc].
    rewrite (remove_all_spec _ _ Hc Hle). cbn [mbind res_bind]. eexists. split; [done|]. rewrite Es. cbn [opt_live]. split_and!; [|  |done].
    + destruct Hi1 as [I1 I2 I3 I4 I5]. constructor; try done.
      * intros l s' Hl. apply I1. destruct l; cbn in *; done.
      * change (bytesInFlight h1 - flight (Packets (history s)) = flight (others h1 EncryptionHandshake) + 0). lia.
      * cbn. by rewrite Hp1.
    + unfold books. rewrite (live_frames h1 EncryptionHandshake s Es). cbn. change (live _) with (others h1 EncryptionHandshake). solve_Permutation.
  - destruct (drop_0rtt_spec pend (Packets (history (appDataPackets h1))) h1 Hi1) as (h2 & -> & Hi2 & Hb2 & He2);
      [by apply Forall_forall|apply entries_NoDup|]. cbn [mbind res_bind]. eexists. split; [done|]. split_and!; [|done|].
    + apply timer_inv, mode_inv; [done|]. split; cbn; [done|lia].
    + cbn. unfold env in He2. congruence.
Qed.

(** ** Retry *)

Lemma queue_all_spec : forall l h, exists h', queue_all h l = Ok h' /\ settled (calls h') = settled (calls h) ++ frames l /\
  h' = with_calls h (calls h').
Proof.
  induction l as [|[pn p] l IH]; intros h; cbn [queue_all].
  - exists h. split_and!; [done|by rewrite app_nil_r|by destruct h].
  - change (frames ((pn, p) :: l)) with (handled p ++ frames l). destruct (IsAckEliciting p) eqn:Ea.
    + rewrite queue_frames by done. cbn [mbind res_bind].
      destruct (IH (add_calls h (map (fun x => OnLost x.1 x.2) (handled p)))) as (h' & -> & Hc & He).
      exists h'. split_and!; [done| |rewrite He; by destruct h].
      rewrite Hc. cbn. by rewrite settled_app, settled_lost, <- app_assoc.
    + cbn [mbind res_bind]. rewrite (handled_quiet p Ea). apply IH.
Qed.

(** A Retry comes before any Handshake or 1-RTT packet was sent. *)
Definition retry_ok h : Prop :=
  is_Some (initialPackets h) /\ opt_live (handshakePackets h) = [] /\
  match initialPackets h with Some s => pathProbePackets (history s) = [] | None => True end /\
  pathProbePackets (history (appDataPackets h)) = [].

Lemma new_space_ok n b r : 0 <= n -> space_ok None (newPacketNumberSpace n b r) /\ space_live (newPacketNumberSpace n b r) = [].
Proof.
  intros Hn. split; [|done]. unfold space_ok, newPacketNumberSpace. cbn.
  split_and!; try (by constructor). by destruct b.
Qed.

Lemma peek_nonneg s : space_ok None s -> 0 <= Peek (pns s).
Proof. intros (_ & [Hg _] & _). destruct (pns s); cbn in *; [done|]. destruct (_ =? _); lia. Qed.

Lemma retry_spec h now r : inv (mkPending None None None) [] h -> retry_ok h ->
  exists h', ResetForRetry h now r = Ok h' /\ inv (mkPending None None None) [] h' /\ books h' ≡ₚ books h /\ ackedPackets h' = ackedPackets h.
Proof.
  intros Hi ([s Hs] & Hh & Hp1 & Hp2). rewrite Hs in Hp1. unfold ResetForRetry. set (h0 := with_flight h 0).
  assert (Hs0 : getPacketNumberSpace h0 EncryptionInitial = Some s) by done.
  rewrite (proj2 (space_get h0 EncryptionInitial s) Hs0). cbn [mbind res_bind].
  destruct (queue_all_spec (Packets (history s)) h0) as (h1 & -> & Hc1 & He1). cbn [mbind res_bind].
  destruct (queue_all_spec (Packets (history (appDataPackets h1))) h1) as (h2 & -> & Hc2 & He2). cbn [mbind res_bind].
  eexists. split; [done|]. assert (Happ : appDataPackets h2 = appDataPackets h) by (by rewrite He2, He1).
  pose proof (inv_space _ _ _ Hi EncryptionInitial s Hs) as Si. pose proof (inv_space _ _ _ Hi Encryption1RTT _ eq_refl) as Sa.
  destruct (new_space_ok (Peek (pns s)) false 0 (peek_nonneg _ Si)) as [Ni Li].
  destruct (new_space_ok (Peek (pns (appDataPackets h))) true r (peek_nonneg _ Sa)) as [Na La].
  set (h3 := if ptoCount h2 =? 0 then _ else h2).
  assert (H3 : core h3 = core h2 /\ ackedPackets h3 = ackedPackets h2) by (unfold h3; by destruct (_ =? 0)).
  destruct H3 as [H3 Ha3].
  assert (Hcore : handshakePackets h3 = handshakePackets h /\ appDataPackets h3 = appDataPackets h /\ bytesInFlight h3 = 0 /\
    calls h3 = calls h2 /\ ptoMode h3 = ptoMode h /\ numProbesToSend h3 = numProbesToSend h /\
    peerCompletedAddressValidation h3 = peerCompletedAddressValidation h /\ perspective h3 = perspective h).
  { unfold core in H3. rewrite He2, He1 in H3. cbn in H3. split_and!; congruence. }
  clearbody h3. destruct Hcore as (E2 & E3 & E4 & E5 & E6 & E7 & E8 & E9).
  destruct Hi as [I1 I2 I3 I4 I5]. split_and!.
  - constructor.
    + intros l x Hl. destruct l; cbn in Hl |- *; [by simplify_eq|rewrite E2 in Hl; exact (I1 EncryptionHandshake x Hl)| |];
        simplify_eq; by rewrite E3.
    + unfold live. cbn. by rewrite E2, E4, Hh.
    + done.
    + unfold mode_ok in *. cbn. rewrite E6, E7, E2. destruct I4 as [J1 J2]. split; [done|]. intros Hx. specialize (J2 Hx).
      by destruct (ptoMode h).
    + cbn. rewrite E8, E9, E2. exact I5.
  - unfold books, live. cbn. rewrite E2, E5, Hh, Hc2, Hc1, Hs. cbn.
    rewrite app_nil_r. unfold h0. cbn [calls with_flight]. rewrite He1. cbn [appDataPackets with_calls].
    unfold space_live, h0. cbn. rewrite Hp1, Hp2, !app_nil_r, frames_app. by rewrite app_assoc.
  - cbn. rewrite Ha3. by rewrite He2, He1.
Qed.

(** ** Migration *)

Lemma migrate_packets_spec pend : forall l h, inv pend [] h ->
  Forall (fun e => e ∈ Packets (history (appDataPackets h))) l -> NoDup l.*1 ->
  exists h', migrate_packets h l = Ok h' /\ inv pend [] h' /\ books h' ≡ₚ books h /\ ackedPackets h' = ackedPackets h /\
    pathProbePackets (history (appDataPackets h')) = pathProbePackets (history (appDataPackets h)).
Proof.
  induction l as [|[pn p] l IH]; intros h Hi Hin Hnd; cbn [migrate_packets]; [by exists h|].
  apply Forall_cons in Hin as [Hp Hin]. cbn in Hnd. apply NoDup_cons in Hnd as [Hn Hnd].
  destruct (inv_space _ _ _ Hi Encryption1RTT _ eq_refl) as (S1 & _).
  destruct (DeclareLost_spec _ pn p S1 Hp) as (hist & -> & Hok & Hpk & Hr). cbn [wrap_err mbind res_bind].
  destruct (take_out pend [] h Encryption1RTT _ pn p hist Hi eq_refl Hp Hok Hpk Hr) as (Hi2 & Hf & He).
  change (put h Encryption1RTT ?s) with (with_app h s) in Hi2, Hf. set (h2 := with_app h _) in *.
  assert (H3 : exists h3, (if negb (isPathProbePacket p) then
             h ← removeFromBytesInFlight h2 p;
             if IsAckEliciting p then queueFramesForRetransmission h p else Ok h
           else Ok h2) = Ok h3 /\ inv pend [] h3 /\ books h3 ≡ₚ handled p ++ books h2 /\ ackedPackets h3 = ackedPackets h2 /\
           appDataPackets h3 = appDataPackets h2).
  { destruct (isPathProbePacket p) eqn:Ep; cbn [negb].
    - assert (Hq : IsAckEliciting p = false) by (by apply He). exists h2. rewrite (handled_quiet p Hq). split_and!; try done.
      eapply inv_drop; [exact Hi2|]. by apply (quiet_cost (pn, p)).
    - destruct (IsAckEliciting p) eqn:Ea.
      + destruct (settle_lost _ _ _ _ _ Hi2 He Ea) as (b & Hrm & Hq & Hi3 & Hb3). rewrite Hrm. cbn [mbind res_bind].
        rewrite Hq. eexists. split; [done|]. done.
      + destruct (remove_flight _ _ _ (pn, p) Hi2) as (b & Hb & Hi3). cbn [snd] in Hb. rewrite Hb. cbn [mbind res_bind].
        eexists. split; [done|]. rewrite (handled_quiet p Ea). done. }
  destruct H3 as (h3 & -> & Hi3 & Hb3 & Ha3 & Hs3). cbn [mbind res_bind].
  destruct (IH h3 Hi3) as (h' & -> & Hi' & Hb' & Ha' & Hpp); [|done|].
  { rewrite Hs3. cbn. rewrite Hpk. apply Forall_forall. intros e He0. rewrite Forall_forall in Hin. apply list_elem_of_filter.
    split; [|auto]. intros Heq. apply Hn. rewrite <- Heq. by apply list_elem_of_fmap_2. }
  exists h'. split_and!; try done.
  - rewrite Hb', Hb3. unfold books. cbn. rewrite Hf. solve_Permutation.
  - by rewrite Ha', Ha3.
  - rewrite Hpp, Hs3. cbn. apply Hr.
Qed.

(** Removal in the array removes an element of the slice. *)
Lemma remove_in_place_spec arr len pn : (len <= length arr)%nat ->
  let '(arr', len') := remove_in_place arr len pn in
  sublist (take len' arr') (take len arr) /\ (len' <= length arr')%nat /\ length arr' = length arr.
Proof.
  intros Hl. unfold remove_in_place. destruct (list_find _ _) as [[idx e]|] eqn:E; [|done].
  apply list_find_Some in E as (Hi & _ & _). pose proof (lookup_lt_Some _ _ _ Hi) as Hlt. rewrite length_take in Hlt.
  assert (Ht : take (len - 1) (take idx arr ++ drop (S idx) (take len arr) ++ drop (len - 1) arr) =
    take idx (take len arr) ++ drop (S idx) (take len arr)).
  { rewrite app_assoc, take_app_le.
    - rewrite take_ge; [by rewrite take_take, Nat.min_l by lia|]. rewrite length_app, length_take, length_drop, length_take. lia.
    - rewrite length_app, length_take, length_drop, length_take. lia. }
  split_and!.
  - rewrite Ht. rewrite <- (take_drop_middle _ _ _ Hi) at 3. apply sublist_app; [done|]. by apply sublist_cons.
  - rewrite !length_app, length_take, !length_drop, length_take. lia.
  - rewrite !length_app, length_take, !length_drop, length_take. lia.
Qed.

Lemma migrate_probes_sub : forall n i arr len, (len <= length arr)%nat ->
  sublist (migrate_probes n i arr len) (take len arr).
Proof.
  induction n as [|n IH]; intros i arr len Hl; cbn [migrate_probes]; [done|].
  destruct (arr !! i) as [e|]; [|done]. pose proof (remove_in_place_spec arr len e.1 Hl) as Hr.
  destruct (remove_in_place arr len e.1) as [arr' len']. destruct Hr as (H1 & H2 & _). etrans; [by apply IH|done].
Qed.

Definition survivors h : list (Z * packet) :=
  let probes := pathProbePackets (history (appDataPackets h)) in migrate_probes (length probes) 0 probes (length probes).

(** The path probes that are forgotten. *)
Definition forgotten h : list (Z * packet) :=
  filter (fun e => e.1 ∉ (survivors h).*1) (pathProbePackets (history (appDataPackets h))).

Lemma filter_ext_Forall {A} (P Q : A -> Prop) `{!forall x, Decision (P x), !forall x, Decision (Q x)} (l : list A) :
  Forall (fun x => P x <-> Q x) l -> filter P l = filter Q l.
Proof.
  induction 1 as [|x l Hx _ IH]; [done|]. rewrite !filter_cons, IH.
  destruct (decide (P x)), (decide (Q x)); tauto.
Qed.

Lemma sublist_split (ps l : list (Z * packet)) : sublist ps l -> NoDup l.*1 -> l ≡ₚ ps ++ filter (fun e => e.1 ∉ ps.*1) l.
Proof.
  intros Hs. induction Hs as [|e ps l Hs IH|e ps l Hs IH]; intros Hnd; [done| |];
    cbn in Hnd; apply NoDup_cons in Hnd as [Hn Hnd].
  - rewrite filter_cons_False by (cbn; set_solver). cbn. f_equiv. rewrite (IH Hnd) at 1. f_equiv.
    apply reflexive_eq, filter_ext_Forall, Forall_forall. intros x Hx. cbn. rewrite not_elem_of_cons.
    assert (x.1 <> e.1); [|tauto]. intros Heq. apply Hn. rewrite <- Heq. by apply list_elem_of_fmap_2.
  - rewrite filter_cons_True. 2:{ intros He. apply Hn. eapply elem_of_submseteq; [exact He|]. by apply sublist_submseteq, fmap_sublist. }
    rewrite (IH Hnd) at 1. solve_Permutation.
Qed.

Lemma migrate_spec pend h now size : inv pend [] h ->
  exists h', MigratedPath h now size = Ok h' /\ inv pend [] h' /\ books h ≡ₚ books h' ++ frames (forgotten h) /\ ackedPackets h' = ackedPackets h.
Proof.
  intros Hi. unfold MigratedPath. set (h0 := with_rtt h _).
  assert (Hi0 : inv pend [] h0) by (by eapply inv_core; [|exact Hi]).
  destruct (migrate_packets_spec pend (Packets (history (appDataPackets h0))) h0 Hi0) as (h1 & -> & Hi1 & Hb1 & Ha1 & Hp1);
    [by apply Forall_forall|apply entries_NoDup|]. cbn [mbind res_bind].
  change (appDataPackets h0) with (appDataPackets h) in Hp1. rewrite Hp1. fold (survivors h). fold (with_app_probes h1 (survivors h)).
  set (h2 := with_app_probes h1 (survivors h)).
  destruct (inv_space _ _ _ Hi Encryption1RTT _ eq_refl) as (_ & _ & _ & _ & S5 & _).
  assert (Hsub : sublist (survivors h) (pathProbePackets (history (appDataPackets h)))).
  { unfold survivors. etrans; [by apply migrate_probes_sub|]. by rewrite take_ge. }
  assert (Hi2 : inv pend [] h2) by (apply probes_inv; [done|]; rewrite Hp1; by apply sublist_submseteq).
  assert (Hf2 : frames (live h1) ≡ₚ frames (live h2) ++ frames (forgotten h)).
  { pose proof (probes_frames pend [] h1 (survivors h) Hi1) as Hf. rewrite Hp1 in Hf. specialize (Hf (sublist_submseteq _ _ Hsub)).
    rewrite (sublist_split _ _ Hsub S5) in Hf at 1. fold (forgotten h) in Hf. rewrite frames_app, (Permutation_app_comm (frames (survivors h))) in Hf.
    rewrite app_assoc in Hf. by apply Permutation_app_inv_r in Hf. }
  eexists. split; [done|]. set (h3 := if customCC h2 then h2 else _).
  assert (H3 : core h3 = core h2 /\ ackedPackets h3 = ackedPackets h2) by (unfold h3; by destruct (customCC h2)).
  destruct H3 as [Hc3 Ha3]. split_and!.
  - apply timer_inv. by eapply inv_core.
  - change (books (setLossDetectionTimer h3 now)) with (books h3). rewrite (books_core _ _ Hc3). change (books h) with (books h0).
    rewrite <- Hb1. unfold books. rewrite Hf2. change (calls h2) with (calls h1). by rewrite app_assoc.
  - cbn. rewrite Ha3. exact Ha1.
Qed.

(** ** Runs *)

(** The calls of a connection. *)
Inductive event :=
| EPop (lv : EncryptionLevel) (r : Z)
| ESend (t largestAcked : Z) (sf : list StreamFrame) (fs : list Frame) (lv : EncryptionLevel) (ecn : ECN) (size : Z) (mtu probe : bool)
| EAck (ack : AckFrame) (lv : EncryptionLevel) (t : Z)
| EBytes (n t : Z)
| EPacket (lv : EncryptionLevel) (t : Z)
| EDrop (lv : EncryptionLevel) (t : Z)
| EProbe (lv : EncryptionLevel)
| ETimeout (now r : Z)
| ERetry (now r : Z)
| EMigrate (now size : Z)
| EMode (short : bool)
| EMTU (size : Z).

(** The handler, the numbers taken and not used, the frames sent, and those of
    packets that were dropped without a report. *)
Record state := mkState {
  hd : sentPacketHandler (C := C); taken : pending;
  sent : list (Z * FrameParser.Frame); gone : list (Z * FrameParser.Frame) }.

Definition probe_mode (lv : EncryptionLevel) : SendMode :=
  match lv with
  | EncryptionInitial => SendPTOInitial
  | EncryptionHandshake => SendPTOHandshake
  | _ => SendPTOAppData
  end.

(** When a connection makes a call. *)
Definition guard (st : state) (ev : event) : Prop :=
  let h := hd st in
  match ev with
  | EPop lv _ => is_Some (getPacketNumberSpace h lv) /\ pend_of (taken st) lv = None
  | ESend t _ sf fs lv ecn size _ probe =>
      is_Some (getPacketNumberSpace h lv) /\ is_Some (pend_of (taken st) lv) /\ sendable h t sf fs lv ecn size probe
  | EAck ack lv _ => is_Some (getPacketNumberSpace h lv) /\ ack_ok ack
  | EBytes n _ => 0 <= n
  | EDrop lv _ => lv <> Encryption1RTT
  | EProbe lv => exists now, SendMode_ h now = probe_mode lv
  | ETimeout _ _ => pend_app (taken st) = None
  | ERetry _ _ => taken st = mkPending None None None /\ retry_ok h
  | EMTU size => SetMaxDatagramSize (congestion h) size <> None
  | EPacket _ _ | EMigrate _ _ | EMode _ => True
  end.

Definition with_hd (st : state) h : state := mkState h (taken st) (sent st) (gone st).

Definition exec (st : state) (ev : event) : res aerr state :=
  let h := hd st in
  match ev with
  | EPop lv r =>
      '(pn, h) ← PopPacketNumber h lv r;
      Ok (mkState h (set_pend (taken st) lv (Some pn)) (sent st) (gone st))
  | ESend t la sf fs lv ecn size mtu probe =>
      pn ← (match pend_of (taken st) lv with Some pn => Ok pn | None => Panic end);
      h ← SentPackets.SentPacket h t pn la sf fs lv ecn size mtu probe;
      Ok (mkState h (set_pend (taken st) lv None) (sent st ++ handled (sent_packet t la sf fs lv size mtu probe)) (gone st))
  | EAck ack lv t => '(_, h) ← ReceivedAck h ack lv t; Ok (with_hd st h)
  | EBytes n t => Ok (with_hd st (ReceivedBytes h n t))
  | EPacket lv t => Ok (with_hd st (ReceivedPacket h lv t))
  | EDrop lv t => h' ← DropPackets h lv t; Ok (mkState h' (taken st) (sent st) (gone st ++ frames (dropped_with h lv)))
  | EProbe lv => '(_, h) ← QueueProbePacket h lv; Ok (with_hd st h)
  | ETimeout now r => h ← OnLossDetectionTimeout h now r; Ok (with_hd st h)
  | ERetry now r => h ← ResetForRetry h now r; Ok (with_hd st h)
  | EMigrate now size => h' ← MigratedPath h now size; Ok (mkState h' (taken st) (sent st) (gone st ++ frames (forgotten h)))
  | EMode short => Ok (with_hd st (ECNMode h short).2)
  | EMTU size => h ← SetMaxDatagramSize_ h size; Ok (with_hd st h)
  end.

Definition start (cc : option C) (pn size : Z) (rtt : RTTStats) (stats : ConnectionStats) (validated ecn ignore : bool)
    (pers : Perspective) (r : Z) : state :=
  mkState (NewSentPacketHandler cc pn size rtt stats validated ecn ignore pers r) (mkPending None None None) [] [].

Inductive reachable : state -> Prop :=
| reach_start cc pn size rtt stats validated ecn ignore pers r :
    0 <= pn -> reachable (start cc pn size rtt stats validated ecn ignore pers r)
| reach_step st ev st' : reachable st -> guard st ev -> exec st ev = Ok st' -> reachable st'.

Definition good (st : state) : Prop :=
  inv (taken st) [] (hd st) /\ ackedPackets (hd st) = [] /\ sent st ≡ₚ books (hd st) ++ gone st.

Lemma start_good cc pn size rtt stats validated ecn ignore pers r : 0 <= pn ->
  good (start cc pn size rtt stats validated ecn ignore pers r).
Proof.
  intros Hpn. unfold good, start. cbn. split_and!; [|done|done].
  destruct (new_space_ok pn false 0 Hpn) as [N1 _]. destruct (new_space_ok 0 false 0 ltac:(done)) as [N2 _].
  destruct (new_space_ok 0 true r ltac:(done)) as [N3 _]. constructor.
  - intros l x Hl. destruct l; cbn in Hl; simplify_eq; done.
  - done.
  - done.
  - split; cbn; [done|lia].
  - cbn. case_bool_decide as Hp; [done|]. intros _. split; [done|]. by destruct pers.
Qed.

Lemma mode_space h now lv : mode_ok h -> SendMode_ h now = probe_mode lv ->
  is_Some (getPacketNumberSpace h lv).
Proof.
  intros [_ Hm] Hs. unfold SendMode_ in Hs. destruct (isAmplificationLimited h); [by destruct lv|].
  destruct (_ <=? _); [by destruct lv|]. destruct (0 <? numProbesToSend h) eqn:E.
  - specialize (Hm ltac:(lia)). rewrite Hs in Hm. destruct lv; cbn in *; try (by eexists); by apply not_eq_None_Some.
  - repeat (case_match; try (by destruct lv)).
Qed.

(** An operation fails only because of the peer. *)
Definition peer_error (ev : event) (e : aerr) : Prop :=
  match ev with
  | EAck _ _ _ => e = errUnsentAcked \/ exists pn, e = errSkippedAcked pn
  | _ => False
  end.

Lemma exec_good st ev : good st -> guard st ev ->
  (exists e, exec st ev = Err e /\ peer_error ev e) \/ (exists st', exec st ev = Ok st' /\ good st').
Proof.
  intros (Hi & Ha & Hs) Hg. destruct ev as [lv r|t la sf fs lv ecn size mtu probe|ack lv t|n t|lv t|lv t|lv|now r|now r|now size|short|size];
    cbn in Hg |- *.
  - right. destruct Hg as [[s Hsp] Hp]. destruct (pop_number_spec _ _ lv s r Hi Hsp Hp) as (pn & l & h' & _ & -> & Hi' & Hb' & He' & _).
    eexists. split; [done|]. unfold env in He'. split_and!; cbn; [done|congruence|by rewrite Hb'].
  - right. destruct Hg as ([s Hsp] & [pn Hp] & Hse). rewrite Hp. cbn [mbind res_bind].
    destruct (sent_spec _ _ lv s pn t la sf fs ecn size mtu probe Hi Hsp Hp Hse) as (h' & -> & Hi' & Hb' & Ha' & _).
    eexists. split; [done|]. split_and!; cbn; [done|congruence|]. rewrite Hb', Hs. solve_Permutation.
  - destruct Hg as [[s Hsp] Hok]. destruct (received_ack_spec _ _ lv s ack t Hi Ha Hsp Hok)
      as (hi & _ & [[_ ->] | [(pn & -> & _)|(b & h' & s' & -> & Hi' & Hb' & Ha' & _)]]).
    + left. eexists. split; [done|by left].
    + left. eexists. split; [done|]. right. by eexists.
    + right. eexists. split; [done|]. split_and!; cbn; [done|done|by rewrite Hb'].
  - right. eexists. split; [done|]. unfold ReceivedBytes. destruct (_ && _); split_and!; try done; by (eapply inv_core; [|exact Hi]).
  - right. eexists. split; [done|]. unfold ReceivedPacket. destruct (_ && _); split_and!; try done; by (eapply inv_core; [|exact Hi]).
  - right. destruct (drop_spec _ _ lv t Hi Hg) as (h' & -> & Hi' & Hb' & Ha'). eexists. split; [done|].
    split_and!; cbn; [done|congruence|]. rewrite Hs, Hb'. solve_Permutation.
  - right. destruct Hg as [now Hm]. destruct (mode_space _ _ _ (inv_mode _ _ _ Hi) Hm) as [s Hsp].
    destruct (probe_spec _ _ lv s Hi Hsp) as (b & h' & -> & Hi' & Hb' & He'). eexists. split; [done|]. unfold env in He'.
    split_and!; cbn; [done|congruence|by rewrite Hb'].
  - right. destruct (timeout_spec _ _ now r Hi Hg) as (h' & -> & Hi' & Hb' & Ha'). eexists. split; [done|].
    split_and!; cbn; [done|congruence|by rewrite Hb'].
  - right. destruct Hg as [Hp Hr]. rewrite Hp in Hi. destruct (retry_spec _ now r Hi Hr) as (h' & -> & Hi' & Hb' & Ha').
    eexists. split; [done|]. split_and!; cbn; [by rewrite Hp|congruence|by rewrite Hb'].
  - right. destruct (migrate_spec _ _ now size Hi) as (h' & -> & Hi' & Hb' & Ha'). eexists. split; [done|].
    split_and!; cbn; [done|congruence|]. rewrite Hs, Hb'. solve_Permutation.
  - right. eexists. split; [done|]. unfold ECNMode. destruct (h_ecn (hd st)) as [e|]; [|done]. destruct (negb short); [done|].
    destruct (Ecn.Mode e). split_and!; try done. by (eapply inv_core; [|exact Hi]).
  - right. unfold SetMaxDatagramSize_. destruct (SetMaxDatagramSize (congestion (hd st)) size) as [c|]; [|done].
    eexists. split; [done|]. split_and!; try done. by (eapply inv_core; [|exact Hi]).
Qed.

Lemma reachable_good st : reachable st -> good st.
Proof.
  induction 1 as [|st ev st' _ IH Hg He]; [by apply start_good|].
  destruct (exec_good st ev IH Hg) as [(e & He' & _)|(st2 & He' & H2)]; congruence.
Qed.

(** A run of calls, each of which a connection may make. *)
Fixpoint run (st : state) (evs : list event) : res aerr state :=
  match evs with
  | [] => Ok st
  | ev :: evs => st ← exec st ev; run st evs
  end.

Fixpoint guards (st : state) (evs : list event) : Prop :=
  match evs with
  | [] => True
  | ev :: evs => guard st ev /\ match exec st ev with Ok st => guards st evs | _ => False end
  end.

Lemma run_reachable : forall evs st st', reachable st -> guards st evs -> run st evs = Ok st' -> reachable st'.
Proof.
  induction evs as [|ev evs IH]; intros st st' Hr Hg H; cbn in *; [by simplify_eq|]. destruct Hg as [Hg Hgs].
  destruct (exec st ev) as [st1| |] eqn:E; [|done..]. cbn in H. eapply IH; [|exact Hgs|exact H]. by eapply reach_step.
Qed.

End recovery.
End SentRecovery.
