(* ===== verification/Cubic.v ===== *)
(** * The default congestion controller
    (src/quicfork/internal/congestion/cubic_sender.go, hybrid_slow_start.go,
    pacer.go, bandwidth.go)

    The sender the handler of sent packets creates when no other controller is
    configured.  It is always created in Reno mode, so the cubic window function
    (cubic.go) is not used and left out, with the statistics and qlog.  Byte
    counts and times are [int64], bandwidths [uint64] with wrap-around.  [0.7]
    is the [float64] next to it. *)

From Stdlib Require Import ZifyBool.
From S2P Require Import Prelude GoBytes RttStats SentHistory SentPackets.
Local Open Scope Z_scope.

Module Cubic.
Import RttStats SentHistory.

(** ** Hybrid slow start *)

Definition hybridStartLowWindow : Z := 16.
Definition hybridStartMinSamples : Z := 8.
Definition hybridStartDelayMinThresholdUs : Z := 4000.
Definition hybridStartDelayMaxThresholdUs : Z := 16000.

Record HybridSlowStart := mkHybrid {
  endPacketNumber : Z; lastSentPacketNumber : Z; started : bool;
  currentMinRTT : Z; rttSampleCount : Z; hystartFound : bool }.

Definition StartReceiveRound (s : HybridSlowStart) (lastSent : Z) : HybridSlowStart :=
  mkHybrid lastSent (lastSentPacketNumber s) true 0 0 (hystartFound s).

Definition IsEndOfRound (s : HybridSlowStart) (ack : Z) : bool := endPacketNumber s <? ack.

Definition ShouldExitSlowStart (s : HybridSlowStart) (latest min_ congestionWindow : Z) : bool * HybridSlowStart :=
  let s := if negb (started s) then StartReceiveRound s (lastSentPacketNumber s) else s in
  if hystartFound s then (true, s) else
  let n := u32 (rttSampleCount s + 1) in
  let cur := if (n <=? hybridStartMinSamples) && ((currentMinRTT s =? 0) || (latest <? currentMinRTT s))
             then latest else currentMinRTT s in
  let found := if n =? hybridStartMinSamples then
                 let us := Z.shiftr (Z.quot min_ Microsecond) 3 in
                 let threshold := Z.max (Z.min us hybridStartDelayMaxThresholdUs) hybridStartDelayMinThresholdUs * Microsecond in
                 min_ + threshold <? cur
               else false in
  let s := mkHybrid (endPacketNumber s) (lastSentPacketNumber s) (started s) cur n found in
  ((hybridStartLowWindow <=? congestionWindow) && found, s).

Definition hybrid_OnPacketSent (s : HybridSlowStart) (pn : Z) : HybridSlowStart :=
  mkHybrid (endPacketNumber s) pn (started s) (currentMinRTT s) (rttSampleCount s) (hystartFound s).

Definition hybrid_OnPacketAcked (s : HybridSlowStart) (pn : Z) : HybridSlowStart :=
  if IsEndOfRound s pn
  then mkHybrid (endPacketNumber s) (lastSentPacketNumber s) false (currentMinRTT s) (rttSampleCount s) (hystartFound s)
  else s.

Definition Restart (s : HybridSlowStart) : HybridSlowStart :=
  mkHybrid (endPacketNumber s) (lastSentPacketNumber s) false (currentMinRTT s) (rttSampleCount s) false.

(** ** Bandwidth and pacing *)

Definition BytesPerSecond : Z := 8.
Definition MaxByteCount : Z := 2 ^ 62 - 1.
Definition MinPacingDelay : Z := Millisecond.
Definition maxBurstSizePackets : Z := 10.
Definition initialMaxDatagramSize : Z := 1280.

(** The division is of [uint64]; the caller excludes a zero [delta]. *)
Definition BandwidthFromDelta (bytes delta : Z) : Z :=
  u64 (u64 (u64 bytes * Second) / u64 delta * BytesPerSecond).

Record pacer := mkPacer { budgetAtLastSent : Z; p_maxDatagramSize : Z; lastSentTime : Z }.

(** [bw * 5 / 4] of the estimate in bytes per second. *)
Definition adjustedBandwidth (bw : Z) : Z := u64 (bw / BytesPerSecond * 5) / 4.

Definition timeScaledBandwidth (p : pacer) (bw ns : Z) : Z :=
  let bw := adjustedBandwidth bw in
  if bw =? 0 then 0
  else if (2 ^ 64 - 1) / bw <? ns then maxBurstSizePackets * p_maxDatagramSize p
  else i64 (u64 (bw * ns) / 1000000000).

Definition maxBurstSize (p : pacer) (bw : Z) : Z :=
  Z.max (timeScaledBandwidth p bw (MinPacingDelay + TimerGranularity)) (maxBurstSizePackets * p_maxDatagramSize p).

Definition Budget (p : pacer) (bw now : Z) : Z :=
  if lastSentTime p =? 0 then maxBurstSize p bw else
  let delta := now - lastSentTime p in
  let added := if 0 <? delta then timeScaledBandwidth p bw delta else 0 in
  let budget := i64 (budgetAtLastSent p + added) in
  let budget := if (0 <? added) && (budget <? budgetAtLastSent p) then MaxByteCount else budget in
  Z.min (maxBurstSize p bw) budget.

Definition pacer_SentPacket (p : pacer) (bw sendTime size : Z) : pacer :=
  let budget := Budget p bw sendTime in
  mkPacer (if budget <=? size then 0 else budget - size) (p_maxDatagramSize p) sendTime.

(** [None]: the division by a zero bandwidth. *)
Definition pacer_TimeUntilSend (p : pacer) (bw : Z) : option Z :=
  if p_maxDatagramSize p <=? budgetAtLastSent p then Some 0 else
  let diff := u64 (1000000000 * u64 (p_maxDatagramSize p - budgetAtLastSent p)) in
  let bw := adjustedBandwidth bw in
  if bw =? 0 then None else
  let d := diff / bw in
  let d := if 0 <? diff mod bw then d + 1 else d in
  Some (lastSentTime p + Z.max MinPacingDelay (i64 d)).

Definition pacer_SetMaxDatagramSize (p : pacer) (s : Z) : pacer := mkPacer (budgetAtLastSent p) s (lastSentTime p).

(** ** The sender *)

Definition maxBurstPackets : Z := 3.
Definition minCongestionWindowPackets : Z := 2.
Definition initialCongestionWindow : Z := 32.

(** [float64(c) * renoBeta], truncated. *)
Definition reno_backoff (c : Z) : Z := Z.quot (float64 (float64 c * 6305039478318694)) (2 ^ 53).

Record cubicSender := mkSender {
  hybridSlowStart : HybridSlowStart; c_pacer : pacer;
  largestSentPacketNumber : Z; largestAckedPacketNumber : Z; largestSentAtLastCutback : Z;
  lastCutbackExitedSlowstart : bool;
  congestionWindow : Z; slowStartThreshold : Z; numAckedPackets : Z;
  initialCongestionWindow_ : Z; initialMaxCongestionWindow : Z; maxDatagramSize : Z }.

Definition with_hybrid (c : cubicSender) (s : HybridSlowStart) : cubicSender :=
  mkSender s (c_pacer c) (largestSentPacketNumber c) (largestAckedPacketNumber c) (largestSentAtLastCutback c)
    (lastCutbackExitedSlowstart c) (congestionWindow c) (slowStartThreshold c) (numAckedPackets c)
    (initialCongestionWindow_ c) (initialMaxCongestionWindow c) (maxDatagramSize c).
Definition with_pacer (c : cubicSender) (p : pacer) : cubicSender :=
  mkSender (hybridSlowStart c) p (largestSentPacketNumber c) (largestAckedPacketNumber c) (largestSentAtLastCutback c)
    (lastCutbackExitedSlowstart c) (congestionWindow c) (slowStartThreshold c) (numAckedPackets c)
    (initialCongestionWindow_ c) (initialMaxCongestionWindow c) (maxDatagramSize c).
Definition with_largestSent (c : cubicSender) (pn : Z) : cubicSender :=
  mkSender (hybridSlowStart c) (c_pacer c) pn (largestAckedPacketNumber c) (largestSentAtLastCutback c)
    (lastCutbackExitedSlowstart c) (congestionWindow c) (slowStartThreshold c) (numAckedPackets c)
    (initialCongestionWindow_ c) (initialMaxCongestionWindow c) (maxDatagramSize c).
Definition with_largestAcked (c : cubicSender) (pn : Z) : cubicSender :=
  mkSender (hybridSlowStart c) (c_pacer c) (largestSentPacketNumber c) pn (largestSentAtLastCutback c)
    (lastCutbackExitedSlowstart c) (congestionWindow c) (slowStartThreshold c) (numAckedPackets c)
    (initialCongestionWindow_ c) (initialMaxCongestionWindow c) (maxDatagramSize c).
Definition with_window (c : cubicSender) (w threshold acked : Z) : cubicSender :=
  mkSender (hybridSlowStart c) (c_pacer c) (largestSentPacketNumber c) (largestAckedPacketNumber c) (largestSentAtLastCutback c)
    (lastCutbackExitedSlowstart c) w threshold acked
    (initialCongestionWindow_ c) (initialMaxCongestionWindow c) (maxDatagramSize c).

Definition BandwidthEstimate (c : cubicSender) (rtt : RTTStats) : Z :=
  let srtt := if smoothedRTT rtt =? 0 then TimerGranularity else smoothedRTT rtt in
  BandwidthFromDelta (congestionWindow c) srtt.

(** The pacer starts with the size of a datagram before MTU discovery, the
    sender with the one it is given.  The burst is computed before the fields of
    the sender are read, so the bandwidth is that of the new sender. *)
Definition newCubicSender (rtt : RTTStats) (size cwnd maxCwnd : Z) : cubicSender :=
  let c := mkSender (mkHybrid 0 0 false 0 0 false) (mkPacer 0 initialMaxDatagramSize 0)
             InvalidPacketNumber InvalidPacketNumber InvalidPacketNumber false cwnd MaxByteCount 0 cwnd maxCwnd size in
  with_pacer c (mkPacer (maxBurstSize (c_pacer c) (BandwidthEstimate c rtt)) initialMaxDatagramSize 0).

Definition NewCubicSender (rtt : RTTStats) (size : Z) : cubicSender :=
  newCubicSender rtt size (initialCongestionWindow * size) (SentPackets.MaxCongestionWindowPackets * size).

Definition maxCongestionWindow (c : cubicSender) : Z := maxDatagramSize c * SentPackets.MaxCongestionWindowPackets.
Definition minCongestionWindow (c : cubicSender) : Z := maxDatagramSize c * minCongestionWindowPackets.
Definition GetCongestionWindow (c : cubicSender) : Z := congestionWindow c.
Definition InSlowStart (c : cubicSender) : bool := GetCongestionWindow c <? slowStartThreshold c.
Definition InRecovery (c : cubicSender) : bool :=
  negb (largestAckedPacketNumber c =? InvalidPacketNumber) && (largestAckedPacketNumber c <=? largestSentAtLastCutback c).
Definition CanSend (c : cubicSender) (bytesInFlight : Z) : bool := bytesInFlight <? GetCongestionWindow c.

Definition TimeUntilSend (rtt : RTTStats) (c : cubicSender) (_ : Z) : option Z :=
  pacer_TimeUntilSend (c_pacer c) (BandwidthEstimate c rtt).
Definition HasPacingBudget (rtt : RTTStats) (c : cubicSender) (now : Z) : bool :=
  maxDatagramSize c <=? Budget (c_pacer c) (BandwidthEstimate c rtt) now.

Definition OnPacketSent (rtt : RTTStats) (c : cubicSender) (sentTime _ pn bytes : Z) (isRetransmittable : bool) : cubicSender :=
  let c := with_pacer c (pacer_SentPacket (c_pacer c) (BandwidthEstimate c rtt) sentTime bytes) in
  if negb isRetransmittable then c else
  let c := with_largestSent c pn in with_hybrid c (hybrid_OnPacketSent (hybridSlowStart c) pn).

Definition MaybeExitSlowStart (rtt : RTTStats) (c : cubicSender) : cubicSender :=
  if InSlowStart c then
    let '(exit, s) := ShouldExitSlowStart (hybridSlowStart c) (latestRTT rtt) (minRTT rtt)
                        (Z.quot (GetCongestionWindow c) (maxDatagramSize c)) in
    let c := with_hybrid c s in
    if (exit : bool) then with_window c (congestionWindow c) (congestionWindow c) (numAckedPackets c) else c
  else c.

Definition isCwndLimited (c : cubicSender) (bytesInFlight : Z) : bool :=
  let cw := GetCongestionWindow c in
  if cw <=? bytesInFlight then true else
  let availableBytes := cw - bytesInFlight in
  let slowStartLimited := InSlowStart c && (Z.quot cw 2 <? bytesInFlight) in
  slowStartLimited || (availableBytes <=? maxBurstPackets * maxDatagramSize c).

Definition maybeIncreaseCwnd (c : cubicSender) (priorInFlight : Z) : cubicSender :=
  if negb (isCwndLimited c priorInFlight) then c
  else if maxCongestionWindow c <=? congestionWindow c then c
  else if InSlowStart c then with_window c (congestionWindow c + maxDatagramSize c) (slowStartThreshold c) (numAckedPackets c)
  else
    let n := u64 (numAckedPackets c + 1) in
    if u64 (Z.quot (congestionWindow c) (maxDatagramSize c)) <=? n
    then with_window c (congestionWindow c + maxDatagramSize c) (slowStartThreshold c) 0
    else with_window c (congestionWindow c) (slowStartThreshold c) n.

Definition OnPacketAcked (c : cubicSender) (pn priorInFlight : Z) : cubicSender :=
  let c := with_largestAcked c (Z.max pn (largestAckedPacketNumber c)) in
  if InRecovery c then c else
  let c := maybeIncreaseCwnd c priorInFlight in
  if InSlowStart c then with_hybrid c (hybrid_OnPacketAcked (hybridSlowStart c) pn) else c.

Definition OnCongestionEvent (c : cubicSender) (pn : Z) : cubicSender :=
  if pn <=? largestSentAtLastCutback c then c else
  let w := Z.max (reno_backoff (congestionWindow c)) (minCongestionWindow c) in
  mkSender (hybridSlowStart c) (c_pacer c) (largestSentPacketNumber c) (largestAckedPacketNumber c)
    (largestSentPacketNumber c) (InSlowStart c) w w 0
    (initialCongestionWindow_ c) (initialMaxCongestionWindow c) (maxDatagramSize c).

Definition OnRetransmissionTimeout (c : cubicSender) (packetsRetransmitted : bool) : cubicSender :=
  let c := mkSender (hybridSlowStart c) (c_pacer c) (largestSentPacketNumber c) (largestAckedPacketNumber c)
             InvalidPacketNumber (lastCutbackExitedSlowstart c) (congestionWindow c) (slowStartThreshold c) (numAckedPackets c)
             (initialCongestionWindow_ c) (initialMaxCongestionWindow c) (maxDatagramSize c) in
  if negb packetsRetransmitted then c else
  with_window (with_hybrid c (Restart (hybridSlowStart c))) (minCongestionWindow c) (Z.quot (congestionWindow c) 2) (numAckedPackets c).

Definition OnConnectionMigration (c : cubicSender) : cubicSender :=
  mkSender (Restart (hybridSlowStart c)) (c_pacer c) InvalidPacketNumber InvalidPacketNumber InvalidPacketNumber false
    (initialCongestionWindow_ c) (initialMaxCongestionWindow c) 0
    (initialCongestionWindow_ c) (initialMaxCongestionWindow c) (maxDatagramSize c).

(** [None]: the panic for a smaller size. *)
Definition SetMaxDatagramSize (c : cubicSender) (s : Z) : option cubicSender :=
  if s <? maxDatagramSize c then None else
  let cwndIsMinCwnd := congestionWindow c =? minCongestionWindow c in
  let c := mkSender (hybridSlowStart c) (c_pacer c) (largestSentPacketNumber c) (largestAckedPacketNumber c)
             (largestSentAtLastCutback c) (lastCutbackExitedSlowstart c) (congestionWindow c) (slowStartThreshold c)
             (numAckedPackets c) (initialCongestionWindow_ c) (initialMaxCongestionWindow c) s in
  let c := if cwndIsMinCwnd then with_window c (minCongestionWindow c) (slowStartThreshold c) (numAckedPackets c) else c in
  Some (with_pacer c (pacer_SetMaxDatagramSize (c_pacer c) s)).

#[export] Instance cubic_algorithm : SendAlgorithm cubicSender := {
  SentPackets.TimeUntilSend := TimeUntilSend;
  SentPackets.HasPacingBudget := HasPacingBudget;
  SentPackets.OnPacketSent := OnPacketSent;
  SentPackets.CanSend := CanSend;
  SentPackets.MaybeExitSlowStart := MaybeExitSlowStart;
  SentPackets.OnPacketAcked _ c pn _ prior _ := OnPacketAcked c pn prior;
  SentPackets.OnCongestionEvent c pn _ _ := OnCongestionEvent c pn;
  SentPackets.SetMaxDatagramSize := SetMaxDatagramSize;
  SentPackets.NewCubicSender := NewCubicSender }.

(** ** The congestion window *)

Lemma round_even_upper p n : 0 < n -> 0 < p -> (round_even p n - n) * 2 ^ (p - 1) <= n.
Proof.
  intros Hn Hp. unfold round_even. rewrite (Z.abs_eq n) by lia. set (k := Z.log2 n + 1 - p).
  assert (0 < 2 ^ (p - 1)) by (apply Z.pow_pos_nonneg; lia).
  destruct (Z.leb_spec k 0) as [Hk|Hk]; [lia|]. rewrite Z.sgn_pos, Z.mul_1_l by done.
  pose proof (Z.div_mod n (2 ^ k) ltac:(apply Z.pow_nonzero; lia)) as Hd.
  pose proof (Z.mod_pos_bound n (2 ^ k) ltac:(apply Z.pow_pos_nonneg; lia)) as Hm.
  destruct (Z.log2_spec n Hn) as [Hl _].
  assert (Hpow : 2 ^ k * 2 ^ (p - 1) = 2 ^ Z.log2 n) by (rewrite <- Z.pow_add_r by lia; f_equal; lia).
  destruct (_ || _); nia.
Qed.

Lemma round_even_lower p n : 0 < n -> 0 < p -> (n - round_even p n) * 2 ^ (p - 1) <= n.
Proof.
  intros Hn Hp. unfold round_even. rewrite (Z.abs_eq n) by lia. set (k := Z.log2 n + 1 - p).
  assert (0 < 2 ^ (p - 1)) by (apply Z.pow_pos_nonneg; lia).
  destruct (Z.leb_spec k 0) as [Hk|Hk]; [lia|]. rewrite Z.sgn_pos, Z.mul_1_l by done.
  pose proof (Z.div_mod n (2 ^ k) ltac:(apply Z.pow_nonzero; lia)) as Hd.
  pose proof (Z.mod_pos_bound n (2 ^ k) ltac:(apply Z.pow_pos_nonneg; lia)) as Hm.
  destruct (Z.log2_spec n Hn) as [Hl _].
  assert (Hpow : 2 ^ k * 2 ^ (p - 1) = 2 ^ Z.log2 n) by (rewrite <- Z.pow_add_r by lia; f_equal; lia).
  destruct (_ || _); nia.
Qed.

(** The window after a loss is 7/10 of the one before, up to a byte. *)
Lemma reno_backoff_bounds c : 0 < c < 2 ^ 40 -> 7 * c - 10 <= 10 * reno_backoff c <= 7 * c /\ 0 <= reno_backoff c.
Proof.
  intros Hc. unfold reno_backoff, float64. rewrite (round_even_exact 53 c) by lia.
  set (P := c * 6305039478318694). assert (HP : 0 < P) by lia.
  pose proof (round_even_upper 53 P HP ltac:(lia)) as Hu. pose proof (round_even_lower 53 P HP ltac:(lia)) as Hl.
  pose proof (round_even_nonneg 53 P ltac:(lia)) as H0. set (R := round_even 53 P) in *.
  change (2 ^ (53 - 1)) with 4503599627370496 in *. change (2 ^ 53) with 9007199254740992 in *.
  rewrite Z.quot_div_nonneg by lia. pose proof (Z.div_mod R 9007199254740992 ltac:(lia)) as Hd.
  pose proof (Z.mod_pos_bound R 9007199254740992 ltac:(lia)) as Hm.
  assert (0 <= R / 9007199254740992) by (apply Z.div_pos; lia). unfold P in *. split; [|done]. split; lia.
Qed.

(** What happens to a sender. *)
Inductive event :=
| ESent (t inFlight pn size : Z) (b : bool)
| EAcked (pn prior : Z)
| ELoss (pn : Z)
| ESample
| EMTU (s : Z).

Definition apply_event (rtt : RTTStats) (c : cubicSender) (ev : event) : option cubicSender :=
  match ev with
  | ESent t f pn size b => Some (OnPacketSent rtt c t f pn size b)
  | EAcked pn prior => Some (OnPacketAcked c pn prior)
  | ELoss pn => Some (OnCongestionEvent c pn)
  | ESample => Some (MaybeExitSlowStart rtt c)
  | EMTU s => SetMaxDatagramSize c s
  end.

Definition window_ok (m : Z) (c : cubicSender) : Prop :=
  0 < m <= maxDatagramSize c /\ maxDatagramSize c <= 65536 /\
  minCongestionWindowPackets * m <= congestionWindow c <= maxCongestionWindow c + maxDatagramSize c.

Inductive reachable (m : Z) : cubicSender -> Prop :=
| reach_new rtt : 0 < m <= 65536 -> reachable m (NewCubicSender rtt m)
| reach_event rtt c ev c' :
    reachable m c ->
    match ev with EMTU s => s <= 65536 | ESent t _ _ size _ => 0 < t < 2 ^ 62 /\ 0 <= size | _ => True end ->
    apply_event rtt c ev = Some c' -> reachable m c'.

Lemma increase_ok m c prior : window_ok m c -> window_ok m (maybeIncreaseCwnd c prior).
Proof.
  intros Hw. unfold maybeIncreaseCwnd. destruct (negb _); [done|]. destruct (_ <=? _) eqn:E1; [done|]. apply Z.leb_gt in E1.
  unfold window_ok, maxCongestionWindow in *. destruct (InSlowStart c); [cbn in *; lia|]. destruct (_ <=? _); cbn in *; lia.
Qed.

Lemma acked_ok m c pn prior : window_ok m c -> window_ok m (OnPacketAcked c pn prior).
Proof.
  intros Hw. unfold OnPacketAcked. assert (H1 : window_ok m (Cubic.with_largestAcked c (Z.max pn (largestAckedPacketNumber c)))) by done.
  destruct (InRecovery _); [done|]. apply (increase_ok _ _ prior) in H1. by destruct (InSlowStart _).
Qed.

Lemma reachable_window m c : reachable m c -> window_ok m c.
Proof.
  induction 1 as [rtt Hm|rtt c ev c' _ IH Hs He].
  - unfold window_ok, NewCubicSender, maxCongestionWindow, minCongestionWindowPackets, initialCongestionWindow,
      SentPackets.MaxCongestionWindowPackets. cbn. lia.
  - destruct ev as [t f pn size b|pn prior|pn| |s]; cbn in He.
    + injection He as <-. unfold OnPacketSent. by destruct b.
    + injection He as <-. by apply acked_ok.
    + injection He as <-. unfold OnCongestionEvent. destruct (_ <=? _); [done|].
      unfold window_ok, maxCongestionWindow, minCongestionWindow, minCongestionWindowPackets, SentPackets.MaxCongestionWindowPackets in *.
      destruct (reno_backoff_bounds (congestionWindow c)) as [Hb _]; [lia|]. cbn. lia.
    + injection He as <-. unfold MaybeExitSlowStart. destruct (InSlowStart c); [|done].
      destruct (ShouldExitSlowStart _ _ _ _) as [[] ?]; done.
    + unfold SetMaxDatagramSize in He. destruct (_ <? _) eqn:E; [done|]. injection He as <-. apply Z.ltb_ge in E.
      unfold window_ok, maxCongestionWindow, minCongestionWindow, minCongestionWindowPackets, SentPackets.MaxCongestionWindowPackets in *.
      destruct (Z.eqb_spec (congestionWindow c) (maxDatagramSize c * 2)); cbn in *; lia.
Qed.

(** C29: whatever packets are sent, acknowledged and lost, and however the MTU grows (up to 64 KB), the
    congestion window stays between two datagrams of the initial size and 10001 datagrams of the
    current one (it may be less than two datagrams of the current size, see [window_below_minimum]).
    The loss of a packet sent after the last reduction takes it to 7/10 (up to a byte of rounding, and
    never below two datagrams), and the losses of packets sent before that reduction do not reduce it
    again. *)
Theorem congestion_window_bounded (m : Z) (c : cubicSender) (pn : Z) (later : list Z) :
  reachable m c -> largestSentAtLastCutback c < pn ->
  Forall (fun q => q <= largestSentPacketNumber c) later ->
  2 * m <= congestionWindow c <= 10001 * maxDatagramSize c /\
  let c' := OnCongestionEvent c pn in
  7 * congestionWindow c - 10 <= 10 * congestionWindow c' <= Z.max (7 * congestionWindow c) (20 * maxDatagramSize c) /\
  2 * maxDatagramSize c <= congestionWindow c' /\ slowStartThreshold c' = congestionWindow c' /\
  fold_left OnCongestionEvent later c' = c'.
Proof.
  intros Hr Hpn Hlater. pose proof (reachable_window m c Hr) as Hw.
  unfold window_ok, maxCongestionWindow, minCongestionWindowPackets, SentPackets.MaxCongestionWindowPackets in Hw.
  split; [lia|]. cbv zeta. assert (Hnone : forall c', largestSentAtLastCutback c' = largestSentPacketNumber c -> fold_left OnCongestionEvent later c' = c').
  { intros c' Hc'. induction Hlater as [|q later Hq _ IH]; cbn [fold_left]; [done|].
    unfold OnCongestionEvent at 2. rewrite (proj2 (Z.leb_le _ _)) by lia. exact IH. }
  unfold OnCongestionEvent at 1 2 3 4 5 6. rewrite (proj2 (Z.leb_gt _ _)) by lia. cbn [congestionWindow slowStartThreshold].
  destruct (reno_backoff_bounds (congestionWindow c)) as [Hb _]; [lia|]. unfold minCongestionWindow, minCongestionWindowPackets.
  split_and!; [lia..|done|]. apply Hnone. unfold OnCongestionEvent. by rewrite (proj2 (Z.leb_gt _ _)) by lia.
Qed.

Lemma congestion_window_bounded_witness :
  let c := NewCubicSender NewRTTStats 1200 in
  congestionWindow c = 38400 /\ congestionWindow (OnCongestionEvent c 3) = 26880 /\
  fold_left OnCongestionEvent [] (OnCongestionEvent c 3) = OnCongestionEvent c 3.
Proof.
  split_and!; [reflexivity..|].
  apply (congestion_window_bounded 1200 (NewCubicSender NewRTTStats 1200) 3 []); [|done|constructor].
  constructor. lia.
Defined.

(** ** Pacing *)

Lemma u64_small z : 0 <= z < 2 ^ 64 -> u64 z = z.
Proof. apply Z.mod_small. Qed.

Lemma scaled_nonneg p bw ns : 0 < p_maxDatagramSize p <= 65536 -> 0 <= ns -> 0 <= timeScaledBandwidth p bw ns <= 2 ^ 35.
Proof.
  intros Hp Hn. unfold timeScaledBandwidth, maxBurstSizePackets. destruct (_ =? 0); [lia|]. destruct (_ <? ns); [lia|].
  pose proof (u64_range (adjustedBandwidth bw * ns)) as Hr. set (x := u64 _) in *.
  assert (0 <= x / 1000000000 <= 2 ^ 35) by (split; [apply Z.div_pos; lia|apply Z.div_le_upper_bound; lia]).
  rewrite i64_small by lia. done.
Qed.

Lemma burst_bounds p bw : 0 < p_maxDatagramSize p <= 65536 -> 10 * p_maxDatagramSize p <= maxBurstSize p bw <= 2 ^ 35.
Proof.
  intros Hp. unfold maxBurstSize, maxBurstSizePackets.
  pose proof (scaled_nonneg p bw (MinPacingDelay + TimerGranularity) Hp ltac:(done)). lia.
Qed.

Definition pacer_ok (p : pacer) : Prop :=
  0 < p_maxDatagramSize p <= 65536 /\ 0 <= budgetAtLastSent p <= 2 ^ 35 /\ 0 <= lastSentTime p < 2 ^ 62.

(** The budget at a later time. *)
Lemma budget_later p bw now : pacer_ok p -> lastSentTime p <> 0 ->
  let added := if 0 <? now - lastSentTime p then timeScaledBandwidth p bw (now - lastSentTime p) else 0 in
  Budget p bw now = Z.min (maxBurstSize p bw) (budgetAtLastSent p + added).
Proof.
  intros (Hp & Hb & Ht) Hz added. unfold Budget. rewrite (proj2 (Z.eqb_neq _ 0)) by done. fold added.
  assert (0 <= added <= 2 ^ 35).
  { unfold added. destruct (0 <? _) eqn:E; [|lia]. apply scaled_nonneg; [done|lia]. }
  rewrite i64_small by lia. destruct (_ && _) eqn:E; [lia|]. done.
Qed.

Lemma budget_bounds p bw now : pacer_ok p -> 0 <= Budget p bw now <= 2 ^ 35.
Proof.
  intros Hp. pose proof (burst_bounds p bw (proj1 Hp)). destruct (Z.eq_dec (lastSentTime p) 0) as [Hz|Hz].
  - unfold Budget. rewrite Hz, Z.eqb_refl. destruct Hp. lia.
  - rewrite budget_later by done. destruct Hp as (? & ? & ?). destruct (0 <? _) eqn:E; [|lia].
    pose proof (scaled_nonneg p bw (now - lastSentTime p)). lia.
Qed.

Lemma sent_pacer_ok p bw t size : pacer_ok p -> 0 < t < 2 ^ 62 -> 0 <= size -> pacer_ok (pacer_SentPacket p bw t size).
Proof.
  intros Hp Ht Hs. pose proof (budget_bounds p bw t Hp). destruct Hp as (? & ? & ?). unfold pacer_ok, pacer_SentPacket. cbn.
  destruct (_ <=? _) eqn:E; lia.
Qed.

Lemma reachable_pacer m c : reachable m c -> pacer_ok (c_pacer c).
Proof.
  induction 1 as [rtt Hm|rtt c ev c' Hr IH Hs He].
  - unfold pacer_ok, NewCubicSender, newCubicSender. cbn [c_pacer with_pacer]. set (p := mkPacer 0 initialMaxDatagramSize 0).
    pose proof (burst_bounds p (BandwidthEstimate (mkSender (mkHybrid 0 0 false 0 0 false) p InvalidPacketNumber InvalidPacketNumber
      InvalidPacketNumber false (initialCongestionWindow * m) MaxByteCount 0 (initialCongestionWindow * m)
      (SentPackets.MaxCongestionWindowPackets * m) m) rtt) ltac:(done)) as Hb. cbn [p_maxDatagramSize budgetAtLastSent lastSentTime].
    unfold p, initialMaxDatagramSize in *. cbn [p_maxDatagramSize] in Hb. lia.
  - destruct ev as [t f pn size b|pn prior|pn| |s]; cbn in He.
    + injection He as <-. destruct Hs as [Ht Hsz]. unfold OnPacketSent. destruct b; by apply sent_pacer_ok.
    + injection He as <-. unfold OnPacketAcked, maybeIncreaseCwnd. repeat case_match; done.
    + injection He as <-. unfold OnCongestionEvent. by destruct (_ <=? _).
    + injection He as <-. unfold MaybeExitSlowStart. repeat case_match; done.
    + pose proof (reachable_window m c Hr) as (Hm & _). unfold SetMaxDatagramSize in He. destruct (_ <? _) eqn:E; [done|]. injection He as <-.
      destruct IH as (? & ? & ?). unfold pacer_ok. destruct (_ =? _); cbn; lia.
Qed.

Lemma bandwidth_pos m c rtt : window_ok m c -> 0 <= smoothedRTT rtt <= 2 * m * Second ->
  0 < adjustedBandwidth (BandwidthEstimate c rtt) < 2 ^ 62.
Proof.
  intros (Hm & Hd & Hw) Hr. unfold maxCongestionWindow, SentPackets.MaxCongestionWindowPackets, minCongestionWindowPackets in Hw.
  unfold adjustedBandwidth, BandwidthEstimate, BandwidthFromDelta, BytesPerSecond, TimerGranularity in *.
  set (d := if smoothedRTT rtt =? 0 then Millisecond else smoothedRTT rtt).
  assert (Hdd : 0 < d <= 2 * m * 1000000000).
  { unfold d, Second, Millisecond, Microsecond in *. destruct (_ =? 0) eqn:E; lia. }
  change Second with 1000000000. set (w := congestionWindow c) in *.
  rewrite (u64_small w), (u64_small d), (u64_small (w * 1000000000)) by lia.
  assert (Hq : 1 <= w * 1000000000 / d <= w * 1000000000).
  { split; [apply Z.div_le_lower_bound; lia|apply Z.div_le_upper_bound; nia]. }
  set (q := w * 1000000000 / d) in *. rewrite (u64_small (q * 8)) by lia. rewrite Z.div_mul by lia.
  rewrite u64_small by lia. split; [|apply Z.div_lt_upper_bound; lia].
  assert (1 <= q * 5 / 4) by (apply Z.div_le_lower_bound; lia). lia.
Qed.

(** What the pacer owes is paid at the time it announces. *)
Lemma pacer_time p bw now : pacer_ok p -> 0 < adjustedBandwidth bw < 2 ^ 62 ->
  exists t, pacer_TimeUntilSend p bw = Some t /\
    (t <= now -> lastSentTime p <= now < 2 ^ 62 -> p_maxDatagramSize p <= Budget p bw now).
Proof.
  intros Hp Hbw. pose proof (burst_bounds p bw (proj1 Hp)) as Hburst. unfold pacer_TimeUntilSend.
  destruct (Z.eq_dec (lastSentTime p) 0) as [Hz|Hz].
  { destruct (_ <=? _); [|rewrite (proj2 (Z.eqb_neq _ 0)) by lia]; eexists; (split; [done|]); intros; unfold Budget; rewrite Hz, Z.eqb_refl;
      destruct Hp; lia. }
  pose proof (budget_later p bw now Hp Hz) as Hb. cbv zeta in Hb. rewrite Hb. clear Hb. destruct Hp as (Hd & Hbu & Hlt).
  assert (Hadd : forall ns, 0 <= ns -> 0 <= timeScaledBandwidth p bw ns) by (intros ns ?; by apply scaled_nonneg).
  destruct (p_maxDatagramSize p <=? budgetAtLastSent p) eqn:E1.
  { exists 0. split; [done|]. intros _ Hnow. destruct (0 <? _) eqn:E2; [pose proof (Hadd (now - lastSentTime p))|]; lia. }
  rewrite (proj2 (Z.eqb_neq _ 0)) by lia. set (owed := p_maxDatagramSize p - budgetAtLastSent p) in *.
  rewrite (u64_small owed), (u64_small (1000000000 * owed)) by (unfold owed; lia).
  set (B := adjustedBandwidth bw) in *. set (d := if 0 <? _ then _ else _).
  assert (Hdv : 1000000000 * owed <= B * d /\ 0 <= d < 2 ^ 62).
  { pose proof (Z.div_mod (1000000000 * owed) B ltac:(lia)) as Hdm. pose proof (Z.mod_pos_bound (1000000000 * owed) B ltac:(lia)).
    assert (0 <= 1000000000 * owed / B <= 1000000000 * owed) by (unfold owed; split; [apply Z.div_pos; lia|apply Z.div_le_upper_bound; nia]).
    unfold d. destruct (0 <? _) eqn:E; unfold owed in *; nia. }
  clearbody d. eexists. split; [done|]. intros Ht Hnow. rewrite i64_small in Ht by lia. unfold MinPacingDelay, Millisecond, Microsecond in Ht.
  rewrite (proj2 (Z.ltb_lt 0 _)) by lia.
  assert (owed <= timeScaledBandwidth p bw (now - lastSentTime p)); [|unfold owed in *; lia].
  unfold timeScaledBandwidth. fold B. rewrite (proj2 (Z.eqb_neq _ 0)) by lia. destruct (_ <? _) eqn:E2.
  - unfold maxBurstSizePackets, owed. lia.
  - apply Z.ltb_ge in E2. assert (Hfit : B * (now - lastSentTime p) < 2 ^ 64).
    { pose proof (Z.mul_div_le (2 ^ 64 - 1) B ltac:(lia)). nia. }
    rewrite u64_small by nia. assert (Hq : owed <= B * (now - lastSentTime p) / 1000000000) by (apply Z.div_le_lower_bound; nia).
    rewrite i64_small; [done|]. assert (B * (now - lastSentTime p) / 1000000000 <= 2 ^ 35) by (apply Z.div_le_upper_bound; lia). unfold owed in *. lia.
Qed.

(** The pacing timer never fires too early, and never panics: with an RTT of at most a second
    per byte of the initial window (40 minutes), the pacer names a time, and from that time on there
    is budget for a datagram - as long as pacer and sender agree on the size of a datagram, as they
    do once the MTU has been discovered. *)
Theorem pacing_timer_grants_budget (m : Z) (c : cubicSender) (rtt : RTTStats) :
  reachable m c -> p_maxDatagramSize (c_pacer c) = maxDatagramSize c ->
  0 <= smoothedRTT rtt <= 2 * m * Second ->
  exists t, TimeUntilSend rtt c 0 = Some t /\
    forall now, t <= now -> lastSentTime (c_pacer c) <= now < 2 ^ 62 -> HasPacingBudget rtt c now = true.
Proof.
  intros Hr Hs Hrtt. pose proof (bandwidth_pos m c rtt (reachable_window m c Hr) Hrtt) as Hbw.
  pose proof (reachable_pacer m c Hr) as Hp. unfold TimeUntilSend, HasPacingBudget. rewrite <- Hs.
  destruct (pacer_time _ _ 0 Hp Hbw) as (t & Ht & _). exists t. split; [done|]. intros now Hn Hl.
  destruct (pacer_time _ _ now Hp Hbw) as (t' & Ht' & Hb). assert (t' = t) by congruence. apply Z.leb_le. apply Hb; lia.
Qed.

(** Sixteen datagrams in a row use up the burst. *)
Definition burst : cubicSender :=
  fold_left (fun c pn => OnPacketSent NewRTTStats c 1000 0 pn 1280 true) (seqZ 0 16) (NewCubicSender NewRTTStats 1280).

Lemma burst_reachable : reachable 1280 burst.
Proof.
  unfold burst. assert (H : forall l c, reachable 1280 c ->
    reachable 1280 (fold_left (fun c pn => OnPacketSent NewRTTStats c 1000 0 pn 1280 true) l c)).
  { induction l as [|pn l IH]; intros c Hc; cbn [fold_left]; [done|]. apply IH.
    eapply (reach_event _ NewRTTStats _ (ESent 1000 0 pn 1280 true)); [exact Hc|done|done]. }
  apply H. by constructor.
Qed.

Lemma pacing_timer_grants_budget_witness :
  HasPacingBudget NewRTTStats burst 1000 = false /\
  exists t, TimeUntilSend NewRTTStats burst 0 = Some t /\ HasPacingBudget NewRTTStats burst (t + 1000) = true.
Proof.
  split; [vm_compute; reflexivity|].
  destruct (pacing_timer_grants_budget 1280 burst NewRTTStats burst_reachable) as (t & Ht & Hb); [vm_compute; reflexivity|done|].
  exists t. split; [done|]. vm_compute in Ht. injection Ht as <-. apply Hb; vm_compute; done.
Defined.

(** Without that agreement the timer is of no use: with packets of 1452 bytes from the start, after a
    burst the pacer says that a packet can be sent at once, and there is no budget for it. *)
Theorem pacer_ignores_packet_size :
  let c := fold_left (fun c pn => OnPacketSent NewRTTStats c 1000 0 pn 1452 true) (seqZ 0 7) (NewCubicSender NewRTTStats 1452) in
  let c := OnPacketSent NewRTTStats c 1000 0 8 1300 true in
  TimeUntilSend NewRTTStats c 0 = Some 0 /\ HasPacingBudget NewRTTStats c 1000 = false.
Proof. vm_compute. split; reflexivity. Qed.

(** The window may be below two datagrams after the MTU grew. *)
Theorem window_below_minimum :
  exists c', SetMaxDatagramSize (OnCongestionEvent (mkSender (mkHybrid 0 0 false 0 0 false) (mkPacer 0 1200 0) 9 5 (-1) false
      3500 3500 0 38400 12000000 1200) 7) 1452 = Some c' /\
    congestionWindow c' = 2450 /\ minCongestionWindow c' = 2904.
Proof. eexists. vm_compute. split_and!; reflexivity. Qed.

End Cubic.
