(* ===== verification/LossTimer.v ===== *)
(** * The loss detection timer

    [setLossDetectionTimer], [getScaledPTO] and [OnLossDetectionTimeout]
    (src/quicfork/internal/ackhandler/sent_packet_handler.go) over the runs of
    SentRecovery.v: while data is outstanding and may be sent, the timer is set;
    and a probe timeout makes the connection send probes. *)

From Stdlib Require Import ZifyBool.
From S2P Require Import Prelude GoBytes Varint Wire AckFrame Frames FrameParser PacketNumber ReceivedPackets RttStats SentHistory Ecn SentPackets SentAcks SentSafety SentRecovery Cubic.
Local Open Scope Z_scope.

Module LossTimer.
Import Wire Ack Tracker RttStats SentHistory SentPackets SentAcks SentSafety SentRecovery.

Ltac step_in H :=
  match type of H with
  | mbind _ ?m = _ =>
      let E := fresh "E" in let x := fresh "x" in destruct m as [x| |] eqn:E; cbn [mbind res_bind wrap_err] in H; [|discriminate H..]
  | wrap_err _ ?m = _ =>
      let E := fresh "E" in let x := fresh "x" in destruct m as [x| |] eqn:E; cbn [wrap_err] in H; [|discriminate H..]
  end.

Lemma wrap_ok {E F A} (f : E -> F) (m : res E A) x : wrap_err f m = Ok x -> m = Ok x.
Proof. destruct m; by intros [= <-]. Qed.

(** ** Packets only leave *)

Definition less (h h' : sentPacketHistory) : Prop :=
  numOutstanding h' <= numOutstanding h /\ pathProbePackets h' ⊆ pathProbePackets h /\ Packets h' ⊆ Packets h.

Lemma less_refl h : less h h.
Proof. by split_and!. Qed.
Lemma less_trans h1 h2 h3 : less h1 h2 -> less h2 h3 -> less h1 h3.
Proof. intros (? & ? & ?) (? & ? & ?). split_and!; [lia|set_solver..]. Qed.

Lemma less_clear h i h' : clear_entry h i = Ok h' -> less h h'.
Proof.
  unfold clear_entry. intros H. destruct (packets h !! i) as [[p|]|] eqn:E; [|done..].
  destruct (_ && _); [done|]. injection H as <-. split_and!; cbn; [destruct (Outstanding p); lia|done|].
  unfold Packets. cbn. rewrite entries_clear by (by eapply lookup_lt_Some). unfold without. intros e He.
  by apply list_elem_of_filter in He as [_ He].
Qed.

Lemma less_cleanup h : less h (cleanupStart h).
Proof.
  pose proof (skip_nil_spec (packets h) (firstPacketNumber h)) as Hs. unfold cleanupStart. destruct (skip_nil _) as [i l].
  destruct Hs as (Hs & _). destruct l; (split_and!; [done..|]); unfold Packets; rewrite Hs; done.
Qed.

Lemma less_remove h pn h' : Remove h pn = Ok h' -> less h h'.
Proof.
  unfold Remove. intros H. destruct (getIndex h pn); [|done]. step_in H. apply less_clear in E. eapply less_trans; [exact E|].
  cbn zeta in H. destruct (existsb _ _); cbn [negb] in H; [|pose proof (less_cleanup x)]; repeat case_match; by simplify_eq.
Qed.

Lemma less_lost h pn h' : DeclareLost h pn = Ok h' -> less h h'.
Proof.
  unfold DeclareLost. intros H. destruct (getIndex h pn); [|by simplify_eq]. step_in H. apply less_clear in E. simplify_eq.
  destruct (_ =? _)%nat; [|done]. eapply less_trans; [exact E|apply less_cleanup].
Qed.

Lemma less_check h pn h' : checkSequentialPacketNumberUse h pn = Ok h' -> less h h'.
Proof.
  unfold checkSequentialPacketNumberUse. intros. case_match; [done|]. simplify_eq. split_and!; [done..|].
  unfold Packets. cbn. by destruct (packets h).
Qed.

Lemma less_skip h pn h' : SkippedPacket h pn = Ok h' -> less h h'.
Proof.
  unfold SkippedPacket. intros H. step_in H. apply less_check in E. simplify_eq. eapply less_trans; [exact E|]. split_and!; [done..|].
  unfold Packets. cbn [packets firstPacketNumber]. destruct (packets x) as [|o l]; [done|]. change (o :: l ++ [None]) with ((o :: l) ++ [None]). rewrite entries_app. cbn [entries app]. by rewrite app_nil_r.
Qed.

Lemma remove_probe_sub (l : list (Z * packet)) pn : (remove_probe l pn).2 ⊆ l.
Proof.
  induction l as [|e l IH]; [done|]. cbn. destruct (_ =? _); [set_solver|]. destruct (remove_probe l pn). cbn in *. set_solver.
Qed.

Lemma less_probe h pn : less h (RemovePathProbe h pn).2.
Proof.
  unfold RemovePathProbe. pose proof (remove_probe_sub (pathProbePackets h) pn). destruct (remove_probe _ _). by split_and!.
Qed.

Lemma less_acked_loop ack lo hi : forall l hist acked i b hist' acked' b',
  acked_loop ack lo hi hist acked i b l = Ok (hist', acked', b') -> less hist hist'.
Proof.
  induction l as [|[pn p] l IH]; intros hist acked i b hist' acked' b' H; cbn [acked_loop] in H; [by simplify_eq|].
  destruct (pn <? lo); [by apply IH in H|]. destruct (hi <? pn); [by simplify_eq|]. step_in H. destruct x as [i' a].
  destruct (negb a); [by apply IH in H|]. destruct (isPathProbePacket p); [|by apply IH in H].
  pose proof (less_probe hist pn). destruct (RemovePathProbe hist pn). apply IH in H. by eapply less_trans.
Qed.

Definition calm (s s' : packetNumberSpace) : Prop :=
  lastAckElicitingPacketTime s' = lastAckElicitingPacketTime s /\ gen_next (pns s) <= gen_next (pns s') /\
  less (history s) (history s').

Lemma calm_refl s : calm s s.
Proof. split_and!; [done..|apply less_refl]. Qed.
Lemma calm_trans s1 s2 s3 : calm s1 s2 -> calm s2 s3 -> calm s1 s3.
Proof. intros (? & ? & ?) (? & ? & ?). split_and!; [congruence|lia|by eapply less_trans]. Qed.

Lemma calm_history s hist : less (history s) hist -> calm s (with_history s hist).
Proof. intros H. split; [done|]. by split. Qed.

Section timer.
Context {C : Type} {CC : SendAlgorithm C}.
Implicit Types h : sentPacketHandler (C := C).
Implicit Types st : state (C := C).

Definition calms h h' : Prop :=
  forall lv s', getPacketNumberSpace h' lv = Some s' -> exists s, getPacketNumberSpace h lv = Some s /\ calm s s'.

Lemma calms_same h h' : (forall lv, getPacketNumberSpace h' lv = getPacketNumberSpace h lv) -> calms h h'.
Proof. intros H lv s'. rewrite H. intros Hs. exists s'. split; [done|apply calm_refl]. Qed.

Lemma calms_trans h1 h2 h3 : calms h1 h2 -> calms h2 h3 -> calms h1 h3.
Proof.
  intros H1 H2 lv s3 H3. destruct (H2 lv s3 H3) as (s2 & Hs2 & ?). destruct (H1 lv s2 Hs2) as (s1 & Hs1 & ?).
  exists s1. split; [done|by eapply calm_trans].
Qed.

Lemma calms_put h lv s s' : getPacketNumberSpace h lv = Some s -> calm s s' -> calms h (put h lv s').
Proof.
  intros Hs Hc l x Hx. destruct lv, l; cbn in *; simplify_eq; eauto using calm_refl.
Qed.

(** What limits the sending to an address that is not validated. *)
Definition limits h : bool * Z * Z := (peerAddressValidated h, bytesReceived h, bytesSent h).

Lemma limits_limited h h' : limits h' = limits h -> isAmplificationLimited h' = isAmplificationLimited h.
Proof. unfold limits, isAmplificationLimited. by intros [= -> -> ->]. Qed.

(** What stays the same besides. *)
Definition still h h' : Prop :=
  calms h h' /\ handshakeConfirmed h' = handshakeConfirmed h /\ alarm h' = alarm h /\ limits h' = limits h.

Lemma still_trans h1 h2 h3 : still h1 h2 -> still h2 h3 -> still h1 h3.
Proof.
  intros (C1 & ? & ? & ?) (C2 & ? & ? & ?). split_and!; [by eapply calms_trans|congruence..].
Qed.

Lemma still_put h lv s s' : getPacketNumberSpace h lv = Some s -> calm s s' -> still h (put h lv s').
Proof. intros. split_and!; [by eapply calms_put|by destruct lv..]. Qed.

Lemma space_some h lv s : space h lv = Ok s -> getPacketNumberSpace h lv = Some s.
Proof. apply space_get. Qed.

Lemma still_flight h p h' : removeFromBytesInFlight h p = Ok h' -> still h h'.
Proof. unfold removeFromBytesInFlight. intros. repeat case_match; simplify_eq; (split_and!; [by apply calms_same|done..]). Qed.

Lemma still_queue h p h' : queueFramesForRetransmission h p = Ok h' -> still h h'.
Proof. unfold queueFramesForRetransmission. intros. repeat case_match; simplify_eq; (split_and!; [by apply calms_same|done..]). Qed.

Lemma still_lose h lv prior pn p h' : lose_packet h lv prior pn p = Ok h' -> still h h'.
Proof.
  unfold lose_packet. set (h1 := if is_app lv then _ else h).
  assert (Hc : still h h1) by (unfold h1; destruct (is_app lv); (split_and!; [by apply calms_same|done..])).
  intros H. step_in H. step_in H. apply space_some in E. apply wrap_ok, less_lost in E0.
  assert (H2 : still h (put h1 lv (with_history x x0))) by (eapply still_trans; [exact Hc|by eapply still_put]).
  destruct (_ && _); [|by simplify_eq]. step_in H. step_in H. apply still_flight in E1. apply still_queue in E2. simplify_eq.
  eapply still_trans; [exact H2|]. eapply still_trans; [exact E1|]. eapply still_trans; [exact E2|].
  destruct (negb _), (h_ecn _); try case_bool_decide; (split_and!; [by apply calms_same|done..]).
Qed.

Lemma still_lost_loop lv d t prior : forall l h h', lost_loop h lv d t prior l = Ok h' -> still h h'.
Proof.
  assert (Hr : forall h, still h h) by (intros h; split_and!; [by apply calms_same|done..]).
  induction l as [|[pn p] l IH]; intros h h' H; cbn [lost_loop] in H; [by simplify_eq|].
  step_in H. apply space_some in E. destruct (_ <? pn); [by simplify_eq|]. destruct (_ || _).
  - step_in H. apply still_lose in E0. apply IH in H. by eapply still_trans.
  - apply IH in H. eapply still_trans; [|exact H]. destruct (_ =? 0); [|done]. eapply still_put; [exact E|by split].
Qed.

Lemma still_detect_lost h now lv h' : detectLostPackets h now lv = Ok h' -> still h h'.
Proof.
  unfold detectLostPackets. intros H. step_in H. apply space_some in E. apply still_lost_loop in H.
  eapply still_trans; [|exact H]. eapply still_put; [exact E|by split].
Qed.

Lemma still_probes : forall l h h', probes_lost h l = Ok h' -> still h h'.
Proof.
  induction l as [|[pn p] l IH]; intros h h' H; cbn [probes_lost] in H; [simplify_eq; split_and!; [by apply calms_same|done..]|].
  step_in H. apply IH in H. eapply still_trans; [|exact H]. set (h1 := add_calls h x).
  eapply (still_trans _ h1); [split_and!; [by apply calms_same|done..]|].
  apply (still_put h1 Encryption1RTT (appDataPackets h1)); [done|]. apply calm_history, less_probe.
Qed.

Lemma still_detect_probes h now h' : detectLostPathProbes h now = Ok h' -> still h h'.
Proof.
  unfold detectLostPathProbes. destruct (negb _); [|apply still_probes]. intros ?. simplify_eq. split_and!; [by apply calms_same|done..].
Qed.

Lemma still_ack_packets lv : forall l h h', ack_packets lv h l = Ok h' -> still h h'.
Proof.
  induction l as [|[pn p] l IH]; intros h h' H; cbn [ack_packets] in H; [simplify_eq; split_and!; [by apply calms_same|done..]|].
  set (h0 := add_calls _ _) in H. assert (Hc : still h h0).
  { unfold h0. destruct (_ && _ && _); (split_and!; [by apply calms_same|done..]). }
  clearbody h0. step_in H. apply space_some in E. step_in H. apply wrap_ok, less_remove in E0. apply IH in H.
  eapply still_trans; [exact Hc|]. eapply still_trans; [|exact H]. by eapply still_put.
Qed.

Lemma still_detect_acked h ack lv b h' : detectAndRemoveAckedPackets h ack lv = Ok (b, h') -> still h h'.
Proof.
  unfold detectAndRemoveAckedPackets. intros H. destruct (ackedPackets h); [|done]. step_in H. apply space_some in E.
  step_in H. step_in H. step_in H. step_in H. destruct x3 as [[hist acked] b2]. apply less_acked_loop in E3. step_in H. simplify_eq.
  apply still_ack_packets in E4. eapply still_trans; [|exact E4].
  eapply (still_trans _ (put h lv (with_history x hist))); [by eapply still_put|]. split_and!; [apply calms_same; by destruct lv|done..].
Qed.

Lemma still_pop h lv r pn h' : PopPacketNumber h lv r = Ok (pn, h') -> still h h'.
Proof.
  unfold PopPacketNumber. intros H. step_in H. apply space_some in E. destruct (Pop _ _) as [[sk n] g] eqn:Ep. step_in H. simplify_eq.
  eapply still_put; [exact E|]. split; [done|]. split; cbn.
  - unfold Pop, generateNewSkip in Ep. destruct (pns x); cbn; [by simplify_eq; cbn; lia|]. destruct (_ =? _); simplify_eq; cbn; lia.
  - destruct sk; [by apply wrap_ok, less_skip in E0|]. simplify_eq. apply less_refl.
Qed.

Lemma still_probe h lv b h' : QueueProbePacket h lv = Ok (b, h') -> still h h'.
Proof.
  unfold QueueProbePacket. intros H. step_in H. apply space_some in E.
  destruct (FirstOutstanding _) as [[pn p]|]; [|simplify_eq; split_and!; [by apply calms_same|done..]].
  step_in H. apply wrap_ok, less_lost in E0. step_in H. step_in H. simplify_eq. apply still_flight in E1. apply still_queue in E2.
  eapply still_trans; [|eapply still_trans; [exact E1|exact E2]]. by eapply still_put.
Qed.

(** ** Setting the timer *)

Lemma scaled_pos h b : 0 < getScaledPTO h b <= maxPTODuration.
Proof.
  unfold getScaledPTO. assert (0 < maxPTODuration) by done. set (m := maxPTODuration) in *. clearbody m.
  destruct (_ || _) eqn:E; lia.
Qed.

(** Outstanding packets were sent at some time. *)
Definition fine (s : packetNumberSpace) : Prop :=
  (0 < numOutstanding (history s) -> 0 < lastAckElicitingPacketTime s) /\
  Forall (fun e => 0 <= SendTime e.2) (pathProbePackets (history s)).

Definition fine_all h : Prop := forall lv s, getPacketNumberSpace h lv = Some s -> fine s.

Lemma fine_calm s s' : calm s s' -> fine s -> fine s'.
Proof.
  intros (H1 & _ & H2 & H3 & _) [F1 F2]. split; [rewrite H1; intros; apply F1; lia|].
  rewrite Forall_forall in *. intros e He. by apply F2, H3.
Qed.

Lemma fine_calms h h' : calms h h' -> fine_all h -> fine_all h'.
Proof. intros Hc Hf lv s' Hs. destruct (Hc lv s' Hs) as (s & Hs0 & Hcs). eapply fine_calm; [exact Hcs|by eapply Hf]. Qed.

(** Nothing more is expected than before. *)
Definition eases h h' : Prop :=
  forall lv s', getPacketNumberSpace h' lv = Some s' -> exists s, getPacketNumberSpace h lv = Some s /\
    numOutstanding (history s') <= numOutstanding (history s) /\ pathProbePackets (history s') ⊆ pathProbePackets (history s).

Lemma calms_eases h h' : calms h h' -> eases h h'.
Proof. intros Hc lv s' Hs. destruct (Hc lv s' Hs) as (s & Hs0 & _ & _ & H1 & H2 & _). by exists s. Qed.

Lemma eases_put h lv s s' : getPacketNumberSpace h lv = Some s -> numOutstanding (history s') <= numOutstanding (history s) ->
  pathProbePackets (history s') ⊆ pathProbePackets (history s) -> eases h (put h lv s').
Proof.
  intros Hs H1 H2 l y Hy. destruct lv, l; cbn in *; simplify_eq; eexists; (split; [eassumption || reflexivity|]); done.
Qed.

(** Something is expected from the peer. *)
Definition waiting h : bool :=
  hasOutstandingCryptoPackets h || (handshakeConfirmed h && HasOutstandingPackets (history (appDataPackets h))) ||
  HasOutstandingPathProbes (history (appDataPackets h)).

Definition armed h : Prop := isAmplificationLimited h = false -> waiting h = true -> Time (alarm h) <> 0.

Lemma pto_time h now : fine_all h ->
  hasOutstandingCryptoPackets h || (handshakeConfirmed h && HasOutstandingPackets (history (appDataPackets h))) = true ->
  0 < (getPTOTimeAndSpace h now).1.
Proof.
  intros Hf Hw. pose proof (scaled_pos h true) as S1. pose proof (scaled_pos h false) as S2.
  pose proof (Hf EncryptionInitial) as Fi. pose proof (Hf EncryptionHandshake) as Fh.
  pose proof (Hf Encryption1RTT _ eq_refl) as [Fa _]. cbn [getPacketNumberSpace] in Fi, Fh. unfold getPTOTimeAndSpace.
  assert (negb (handshakeConfirmed h) && negb (hasOutstandingCryptoPackets h) = false) as ->.
  { destruct (hasOutstandingCryptoPackets h), (handshakeConfirmed h); done. }
  unfold hasOutstandingCryptoPackets, space_outstanding, HasOutstandingPackets in *.
  set (a := appDataPackets h) in *. set (sa := getScaledPTO h true) in *. set (sc := getScaledPTO h false) in *. clearbody sa sc.
  assert (Hi : forall s, initialPackets h = Some s -> 0 < numOutstanding (history s) -> 0 < lastAckElicitingPacketTime s).
  { intros s Hs. by apply (Fi s Hs). }
  assert (Hh : forall s, handshakePackets h = Some s -> 0 < numOutstanding (history s) -> 0 < lastAckElicitingPacketTime s).
  { intros s Hs. by apply (Fh s Hs). }
  clear Fi Fh Hf. unfold earlier.
  destruct (initialPackets h) as [si|]; [specialize (Hi si eq_refl)|clear Hi];
  (destruct (handshakePackets h) as [sh|]; [specialize (Hh sh eq_refl)|clear Hh]);
  repeat case_match; simplify_eq; cbn [fst]; lia.
Qed.

Lemma timer_arms h now : fine_all h -> armed (setLossDetectionTimer h now).
Proof.
  intros Hf Ha Hw. cbn. unfold lossDetectionTime. change (isAmplificationLimited h = false) in Ha. change (waiting h = true) in Hw.
  rewrite Ha. unfold waiting in Hw. destruct (_ && _ && _ && _) eqn:E1.
  { destruct (hasOutstandingCryptoPackets h), (HasOutstandingPackets _), (HasOutstandingPathProbes _), (handshakeConfirmed h);
      rewrite ?andb_false_r in E1; done. }
  clear E1. set (probe := match FirstOutstandingPathProbe _ with Some _ => _ | None => 0 end).
  assert (Hp : HasOutstandingPathProbes (history (appDataPackets h)) = true -> 0 < probe).
  { destruct (Hf Encryption1RTT _ eq_refl) as [_ F2]. unfold probe, FirstOutstandingPathProbe, HasOutstandingPathProbes.
    destruct (pathProbePackets _) as [|[pn p] l]; [done|]. apply Forall_cons in F2 as [F2 _]. cbn in *.
    assert (0 < pathProbePacketLossTimeout) by done. lia. }
  pose proof (pto_time h now Hf) as Hpto. destruct (getLossTimeAndSpace h) as [lt l], (getPTOTimeAndSpace h now) as [pt pl].
  cbn [fst] in Hpto. clearbody probe. assert (Hor : 0 < pt \/ 0 < probe) by (apply orb_true_iff in Hw as [Hw|Hw]; auto).
  clear Hw Hp Hpto Ha. repeat case_match; cbn; lia.
Qed.

Lemma armed_eases h h' : eases h h' -> handshakeConfirmed h' = handshakeConfirmed h -> alarm h' = alarm h ->
  limits h' = limits h -> armed h -> armed h'.
Proof.
  intros Hc Hh Ha Hl%limits_limited Har H1 H2. rewrite Ha. apply Har; [by rewrite <- Hl|]. clear Hl Har H1.
  assert (Ho : forall lv s', getPacketNumberSpace h' lv = Some s' -> 0 < numOutstanding (history s') ->
    exists s, getPacketNumberSpace h lv = Some s /\ 0 < numOutstanding (history s)).
  { intros lv s' Hs Hn. destruct (Hc lv s' Hs) as (s & Hs0 & Hn' & _). exists s. split; [done|lia]. }
  unfold waiting in *. rewrite Hh in H2. apply orb_true_iff in H2 as [[H2|H2]%orb_true_iff | H2].
  - apply orb_true_iff. left. apply orb_true_iff. left. unfold hasOutstandingCryptoPackets, space_outstanding, HasOutstandingPackets in *.
    apply orb_true_iff in H2 as [H2|H2]; apply orb_true_iff.
    + left. destruct (initialPackets h') as [s'|] eqn:E; [|done]. destruct (Ho EncryptionInitial s' E) as (s & Hs & Hn); [lia|].
      cbn in Hs. rewrite Hs. lia.
    + right. destruct (handshakePackets h') as [s'|] eqn:E; [|done]. destruct (Ho EncryptionHandshake s' E) as (s & Hs & Hn); [lia|].
      cbn in Hs. rewrite Hs. lia.
  - apply andb_true_iff in H2 as [-> H2]. unfold HasOutstandingPackets in *.
    destruct (Ho Encryption1RTT _ eq_refl) as (s & [= <-] & Hn); [lia|]. cbn [andb]. rewrite (proj2 (Z.ltb_lt _ _) Hn). by rewrite orb_true_r.
  - apply orb_true_iff. right. destruct (Hc Encryption1RTT _ eq_refl) as (s & [= <-] & _ & Hsub).
    unfold HasOutstandingPathProbes in *. destruct (pathProbePackets (history (appDataPackets h'))) as [|e l]; [done|].
    specialize (Hsub e ltac:(by left)). destruct (pathProbePackets (history (appDataPackets h))); [by apply elem_of_nil in Hsub|done].
Qed.

(** ** Runs *)

Definition timed h : Prop := fine_all h /\ armed h.

Lemma timed_still h h' : still h h' -> timed h -> timed h'.
Proof.
  intros (Hc & Hh & Hal & Hl) [Hf Ha]. split; [by eapply fine_calms|]. eapply armed_eases; try done. by apply calms_eases.
Qed.

Lemma timed_set h now : fine_all h -> timed (setLossDetectionTimer h now).
Proof. intros Hf. split; [by eapply fine_calms; [by apply calms_same|]|by apply timer_arms]. Qed.

Lemma fine_put h lv s : fine_all h -> fine s -> fine_all (put h lv s).
Proof.
  intros Hf Hs l x Hx. destruct lv, l; cbn in Hx; simplify_eq; try done;
    first [by apply (Hf EncryptionInitial)|by apply (Hf EncryptionHandshake)|by apply (Hf Encryption1RTT)].
Qed.

Lemma fine_same h h' : (forall lv, getPacketNumberSpace h' lv = getPacketNumberSpace h lv) -> fine_all h -> fine_all h'.
Proof. intros Hg. apply fine_calms. by apply calms_same. Qed.

Lemma timed_sent h t pn la sf fs lv ecn size mtu probe h' : timed h -> 0 < t -> 0 <= size ->
  SentPackets.SentPacket h t pn la sf fs lv ecn size mtu probe = Ok h' -> timed h'.
Proof.
  intros [Hf Ha] Ht Hsize. unfold SentPackets.SentPacket. set (h0 := with_sent h _ _). intros H. step_in H. apply space_some in E.
  assert (Hf0 : fine_all h0) by (by apply (fine_same h)). assert (Ha0 : armed h0).
  { intros H1 H2. apply Ha; [|done]. unfold isAmplificationLimited, h0 in *. cbn in H1. destruct (peerAddressValidated h); [done|]. lia. }
  pose proof (Hf0 lv x E) as [F1 F2]. destruct probe.
  - step_in H. injection H as <-. apply timed_set, fine_put; [done|]. apply wrap_ok in E0. unfold SentPathProbePacket in E0. step_in E0.
    apply less_check in E1 as [L1 L2]. injection E0 as <-. split; cbn in *; [intros; apply F1; lia|].
    apply Forall_app. split; [|constructor; [cbn; lia|constructor]]. rewrite Forall_forall in *. intros e He. by apply F2, L2.
  - cbn zeta in H. set (q := mkPacket t sf fs la size (Some lv) mtu false false) in *. step_in H. step_in H.
    assert (Hx0 : still h0 x0).
    { destruct (h_ecn _); [case_bool_decide|]; [step_in E0|..]; injection E0 as <-;
        destruct (IsAckEliciting q); (split_and!; [by apply calms_same|done..]). }
    apply wrap_ok in E1. unfold SentHistory.SentPacket in E1. step_in E1. apply less_check in E2 as [L1 L2]. injection E1 as <-.
    set (s1 := if IsAckEliciting q then with_lastTime (with_largestSent x pn) t else with_largestSent x pn) in *.
    set (p := mkPacket t sf fs la size (Some lv) mtu (IsAckEliciting q) false) in *. set (s2 := with_history s1 _) in H.
    assert (Hh : history s1 = history x) by (unfold s1; by destruct (IsAckEliciting q)). rewrite Hh in L1, L2.
    assert (Hpr : Forall (fun e => 0 <= SendTime e.2) (pathProbePackets (history s2))).
    { rewrite Forall_forall in *. intros e He. apply F2, L2, He. }
    assert (Hfx : fine_all x0) by (eapply fine_calms; [apply Hx0|done]).
    assert (Hgx : getPacketNumberSpace x0 lv = Some x).
    { clear -E0 E. destruct (h_ecn _); [case_bool_decide|]; [step_in E0|..]; injection E0 as <-; destruct (IsAckEliciting q); by destruct lv. }
    destruct (IsAckEliciting q) eqn:Eq; cbn [negb] in H.
    + injection H as <-. apply timed_set, fine_put; [done|]. split; [done|done].
    + assert (Hn2 : numOutstanding (history s2) <= numOutstanding (history x)).
      { cbn. replace (Outstanding p) with false; [done|]. unfold Outstanding.
        change (IsAckEliciting p) with (IsAckEliciting q). rewrite Eq. by rewrite andb_false_r. }
      assert (Hf2 : fine_all (put x0 lv s2)) by (apply fine_put; [done|]; split; [cbn in *; intros; apply F1; lia|done]).
      destruct (negb _); injection H as <-; [by apply timed_set|]. split; [done|].
      pose proof (timed_still _ _ Hx0 (conj Hf0 Ha0)) as [_ Hax]. eapply (armed_eases x0); try (by destruct lv).
      eapply eases_put; [done..|]. apply L2.
Qed.

(** Packets leave, and the timer stays right. *)
Definition settles h h' : Prop := calms h h' /\ (timed h -> timed h').

Lemma settles_still h h' : still h h' -> settles h h'.
Proof. intros Hs. split; [apply Hs|by apply timed_still]. Qed.

Lemma settles_set h h' now : calms h h' -> settles h (setLossDetectionTimer h' now).
Proof.
  intros Hc. split; [eapply calms_trans; [exact Hc|by apply calms_same]|]. intros [Hf _]. apply timed_set. by eapply fine_calms.
Qed.

Lemma settles_trans h1 h2 h3 : settles h1 h2 -> settles h2 h3 -> settles h1 h3.
Proof. intros [? ?] [? ?]. split; [by eapply calms_trans|auto]. Qed.

Lemma settles_ack h ack lv t b h' : ReceivedAck h ack lv t = Ok (b, h') -> settles h h'.
Proof.
  unfold ReceivedAck. intros H. step_in H. step_in H. destruct (_ <? _); [done|].
  set (h1 := if _ && _ && _ then setLossDetectionTimer (with_completed h true) t else h) in H.
  assert (H1 : settles h h1).
  { unfold h1. destruct (_ && _ && _); [apply settles_set; by apply calms_same|]. split; [by apply calms_same|done]. }
  eapply settles_trans; [exact H1|]. clear H1. clearbody h1. step_in H. destruct x1 as [b2 h2]. apply still_detect_acked in E1.
  eapply settles_trans; [by apply settles_still|]. clear E1.
  destruct (ackedPackets h2) as [|e la]; [simplify_eq; split; [by apply calms_same|done]|]. unfold after_acked in H.
  destruct (update_rtt_core h2 ack lv t x0 b2) as (Hc1 & _). set (h3 := update_rtt h2 ack lv t x0 b2) in *. clearbody h3.
  step_in H. destruct (update_ecn_core h3 x1 ack lv x0 (bytesInFlight h1)) as (Hc2 & _). set (h4 := update_ecn _ _ _ _ _ _) in *. clearbody h4.
  apply space_some in E1. step_in H. step_in H. step_in H. destruct x4 as [b3 h5]. step_in H. step_in H. injection H as _ <-.
  apply still_detect_lost in E2 as [E2 _]. apply settles_set. eapply (calms_trans _ x5); [|by apply calms_same].
  eapply calms_trans; [eapply (calms_same _ h4); intros l; rewrite (core_space _ _ l Hc2); apply (core_space _ _ l Hc1)|].
  eapply calms_trans; [apply (calms_put h4 lv x1 (with_largestAcked x1 (largestAcked x1 `max` x0))); [by rewrite (core_space _ _ lv Hc2)|by split]|].
  eapply calms_trans; [exact E2|].
  assert (H3 : calms x2 x3) by (case_bool_decide; [by apply still_detect_probes in E3 as [E3 _]|simplify_eq; by apply calms_same]).
  eapply calms_trans; [exact H3|]. apply calms_same. intros l.
  assert (H5 : forall l, getPacketNumberSpace h5 l = getPacketNumberSpace x3 l).
  { clear -E4. revert E4. generalize (ackedPackets x3), false. intros la. revert x3. induction la as [|[pn p] la IH]; intros x3 b E4 l; cbn in E4; [by simplify_eq|].
    step_in E4. rewrite (IH _ _ E4). unfold removeFromBytesInFlight in E. destruct (includedInBytesInFlight p); repeat case_match; simplify_eq; by destruct l. }
  rewrite <- H5. assert (H6 : forall l, getPacketNumberSpace x5 l = getPacketNumberSpace h5 l).
  { clear -E6. destruct (_ && _); [|by simplify_eq]. step_in E6. injection E6 as <-. unfold detectSpuriousLosses in E. step_in E.
    injection E as <-. intros []; done. }
  by rewrite <- H6.
Qed.

Lemma remove_all_spaces : forall l h h', remove_all_flight h l = Ok h' ->
  forall lv, getPacketNumberSpace h' lv = getPacketNumberSpace h lv.
Proof.
  induction l as [|[pn p] l IH]; intros h h' H lv; cbn in H; [by simplify_eq|]. step_in H. rewrite (IH _ _ H).
  unfold removeFromBytesInFlight in E. repeat case_match; simplify_eq; by destruct lv.
Qed.

Lemma settles_drop h lv t h' : DropPackets h lv t = Ok h' -> settles h h'.
Proof.
  intros H. unfold DropPackets in H. set (h1 := if _ && _ then with_completed h true else h) in H.
  assert (H1 : settles h h1).
  { split; [apply calms_same; unfold h1; by destruct (_ && _)|]. intros Ht. unfold h1. by destruct (_ && _). }
  eapply settles_trans; [exact H1|]. clear H1. clearbody h1.
  assert (Hid : settles h1 h1) by (split; [by apply calms_same|done]). destruct lv; [| | |done].
  - destruct (initialPackets h1) as [s|]; [|by simplify_eq]. step_in H. injection H as <-. apply settles_set.
    intros l x' Hx. exists x'. split; [|apply calm_refl]. rewrite <- (remove_all_spaces _ _ _ E l). by destruct l.
  - destruct (handshakePackets h1) as [s|]; [|by simplify_eq]. step_in H. injection H as <-. apply settles_set.
    intros l x' Hx. exists x'. split; [|apply calm_refl]. rewrite <- (remove_all_spaces _ _ _ E l). by destruct l.
  - step_in H. injection H as <-. apply settles_set. eapply (calms_trans _ x); [|by apply calms_same].
    clear -E. revert E. generalize (Packets (history (appDataPackets h1))). intros l. revert h1.
    induction l as [|[pn p] l IH]; intros h1 H; cbn in H; [simplify_eq; by apply calms_same|].
    destruct (negb _); [simplify_eq; by apply calms_same|]. step_in H. apply still_flight in E as [E _]. eapply calms_trans; [exact E|].
    destruct (Remove _ _) as [hist| |] eqn:Er; [|by apply IH|done]. apply less_remove in Er. apply IH in H. eapply calms_trans; [|exact H].
    apply (calms_put x0 Encryption1RTT (appDataPackets x0)); [done|by apply calm_history].
Qed.

Lemma calms_pto h now r h' : on_pto h now r = Ok h' -> calms h h'.
Proof.
  unfold on_pto. destruct (_ && _).
  { cbn. intros. repeat case_match; simplify_eq; by apply calms_same. }
  destruct (getPTOTimeAndSpace h now) as [pt pl]. destruct (_ =? 0); [intros; simplify_eq; by apply calms_same|]. intros H. step_in H. step_in H.
  destruct (_ && _); [simplify_eq; by apply calms_same|]. unfold pto_probes in H. destruct x; [simplify_eq; by apply calms_same..|done|].
  step_in H. destruct x as [pn h1]. apply still_pop in E1 as [E1 _]. step_in H. step_in H. apply wrap_ok, less_skip in E3. injection H as <-.
  eapply calms_trans; [eapply calms_trans; [|exact E1]; by apply calms_same|]. injection E2 as <-.
  apply (calms_put h1 Encryption1RTT (appDataPackets h1)); [done|by apply calm_history].
Qed.

Lemma settles_timeout h now r h' : OnLossDetectionTimeout h now r = Ok h' -> settles h h'.
Proof.
  intros H. unfold OnLossDetectionTimeout in H. step_in H. destruct (getLossTimeAndSpace x) as [lt l]. step_in H. injection H as <-.
  apply settles_set. eapply (calms_trans _ x).
  - destruct (handshakeConfirmed h); [by apply still_detect_probes in E as [E _]|simplify_eq; by apply calms_same].
  - destruct (negb _); [|by eapply calms_pto]. destruct l; [|done]. by apply still_detect_lost in E0 as [E0 _].
Qed.

Lemma timed_retry h now r h' : retry_ok h -> space_outstanding (handshakePackets h) = false -> timed h ->
  ResetForRetry h now r = Ok h' -> timed h'.
Proof.
  intros (_ & Hh & _) Ho [Hf _] H. unfold ResetForRetry in H. step_in H. step_in H. step_in H. injection H as <-.
  destruct (queue_all_spec (Packets (history x)) (with_flight h 0)) as (h1 & Hq1 & _ & He1). rewrite E0 in Hq1. injection Hq1 as <-.
  destruct (queue_all_spec (Packets (history (appDataPackets x0))) x0) as (h2 & Hq2 & _ & He2). rewrite E1 in Hq2. injection Hq2 as <-.
  assert (Hhs : handshakePackets x1 = handshakePackets h) by (by rewrite He2, He1).
  set (h3 := if ptoCount x1 =? 0 then _ else x1). assert (Hh3 : handshakePackets h3 = handshakePackets h) by (unfold h3; by destruct (_ =? 0)).
  clearbody h3. split.
  - intros lv s Hs. destruct lv; cbn in Hs; simplify_eq; try (by split; [done|constructor]). apply (Hf EncryptionHandshake). cbn. congruence.
  - intros _ Hw. unfold waiting, hasOutstandingCryptoPackets in Hw. cbn in Hw. rewrite Hh3, Ho, andb_false_r in Hw. done.
Qed.

Lemma settles_migrate h now size h' : MigratedPath h now size = Ok h' -> settles h h'.
Proof.
  intros H. unfold MigratedPath in H. step_in H. injection H as <-. apply settles_set.
  assert (Hx : calms h x).
  { eapply (calms_trans _ (with_rtt h (ResetForPathMigration (rttStats h)))); [by apply calms_same|].
    revert E. set (h0 := with_rtt h _). generalize (Packets (history (appDataPackets h0))). intros l. generalize h0. clear.
    induction l as [|[pn p] l IH]; intros h0 H; cbn in H; [simplify_eq; by apply calms_same|]. step_in H. apply wrap_ok, less_lost in E.
    step_in H. apply IH in H. eapply calms_trans; [|exact H]. set (h1 := with_app h0 _) in *.
    assert (H1 : calms h0 h1) by (apply (calms_put h0 Encryption1RTT (appDataPackets h0)); [done|by apply calm_history]). eapply calms_trans; [exact H1|].
    destruct (negb _); [|simplify_eq; by apply calms_same]. step_in E0. apply still_flight in E1 as [E1 _]. eapply calms_trans; [exact E1|].
    destruct (IsAckEliciting p); [by apply still_queue in E0 as [E0 _]|simplify_eq; by apply calms_same]. }
  set (s := appDataPackets x). set (ps := migrate_probes _ _ _ _).
  assert (Hps : ps ⊆ pathProbePackets (history s)).
  { intros e He. pose proof (migrate_probes_sub (length (pathProbePackets (history s))) 0 (pathProbePackets (history s))
      (length (pathProbePackets (history s))) ltac:(done)) as Hsub. rewrite take_ge in Hsub by done.
    eapply elem_of_submseteq; [exact He|]. by apply sublist_submseteq. }
  eapply calms_trans; [exact Hx|].
  eapply (calms_trans _ (with_app x (with_history s (with_probes (history s) ps)))).
  - apply (calms_put x Encryption1RTT s); [done|]. apply calm_history. by split_and!.
  - apply calms_same. by destruct (customCC _).
Qed.

Lemma timed_bytes h n t : 0 <= n -> timed h -> timed (ReceivedBytes h n t).
Proof.
  intros Hn [Hf Ha]. unfold ReceivedBytes. set (h1 := with_received h _ _).
  assert (Hf1 : fine_all h1) by (by apply (fine_same h)). destruct (_ && _) eqn:E; [by apply timed_set|]. split; [done|].
  intros H1 H2. apply Ha; [|done]. rewrite H1 in E. cbn in E. rewrite andb_true_r in E. done.
Qed.

Lemma timed_packet h lv t : timed h -> timed (ReceivedPacket h lv t).
Proof.
  intros [Hf Ha]. unfold ReceivedPacket. set (h1 := with_stats h _). assert (Hf1 : fine_all h1) by (by apply (fine_same h)).
  destruct (_ && _); [|done]. apply timed_set. by apply (fine_same h1).
Qed.

Lemma exec_timed st ev st' : good st -> guard st ev -> exec st ev = Ok st' -> timed (hd st) -> timed (hd st').
Proof.
  intros (Hi & _ & _) Hg H Ht. destruct ev as [lv r|t la sf fs lv ecn size mtu probe|ack lv t|n t|lv t|lv t|lv|now r|now r|now size|short|size];
    cbn in Hg, H.
  - step_in H. destruct x as [pn h']. injection H as <-. apply still_pop in E. by eapply timed_still.
  - step_in H. step_in H. injection H as <-. destruct Hg as (_ & _ & H1 & H2 & _). by eapply timed_sent.
  - step_in H. destruct x as [b h']. injection H as <-. by eapply settles_ack.
  - injection H as <-. by apply timed_bytes.
  - injection H as <-. by apply timed_packet.
  - step_in H. injection H as <-. by eapply settles_drop.
  - step_in H. destruct x as [b h']. injection H as <-. apply still_probe in E. by eapply timed_still.
  - step_in H. injection H as <-. by eapply settles_timeout.
  - step_in H. injection H as <-. destruct Hg as [_ Hr]. eapply timed_retry; try done. destruct Hr as (_ & Hl & _).
    unfold space_outstanding. destruct (handshakePackets (hd st)) as [s|] eqn:Eh; [|done]. unfold HasOutstandingPackets.
    destruct (inv_space _ _ _ Hi EncryptionHandshake s Eh) as ((_ & Hn & _) & _). cbn in Hl. unfold space_live in Hl.
    apply app_eq_nil in Hl as [Hl _]. by rewrite Hn, Hl.
  - step_in H. injection H as <-. by eapply settles_migrate.
  - injection H as <-. eapply timed_still; [|exact Ht]. cbn. unfold ECNMode.
    repeat case_match; (split_and!; [by apply calms_same|done..]).
  - step_in H. injection H as <-. unfold SetMaxDatagramSize_ in E. case_match; [|done]. simplify_eq.
    eapply timed_still; [|exact Ht]. split_and!; [by apply calms_same|done..].
Qed.

Lemma reachable_timed st : reachable st -> timed (hd st).
Proof.
  induction 1 as [cc pn size rtt stats validated ecn ignore pers r Hpn|st ev st' Hr IH Hg He].
  - split; [|done]. intros lv s Hs. destruct lv; cbn in Hs; simplify_eq; split; try done; constructor.
  - eapply exec_timed; try done. by apply reachable_good.
Qed.

(** ** The theorems *)

(** C17: a connection does not wait for ever: in every state it can reach, if Initial or Handshake
    packets, 1-RTT packets of a confirmed handshake, or path probes are outstanding and the
    amplification limit lets it send, the loss detection timer is set.  For 1-RTT packets alone no
    timer need be set before the handshake is confirmed. *)
Theorem loss_timer_armed st :
  reachable st -> isAmplificationLimited (hd st) = false -> waiting (hd st) = true ->
  GetLossDetectionTimeout (hd st) <> 0.
Proof. intros Hr. by apply (reachable_timed st Hr). Qed.

(** When a probe is due at a level: a probe timeout after its last ack-eliciting packet, if there are
    packets outstanding; at the 1-RTT level only once the handshake is confirmed. *)
Definition probe_due h (lv : EncryptionLevel) : option Z :=
  let due (b : bool) s := if HasOutstandingPackets (history s) then Some (lastAckElicitingPacketTime s + getScaledPTO h b) else None in
  match lv with
  | EncryptionInitial => initialPackets h ≫= due false
  | EncryptionHandshake => handshakePackets h ≫= due false
  | Encryption1RTT => if handshakeConfirmed h then due true (appDataPackets h) else None
  | Encryption0RTT => None
  end.

(** The level at which a probe is due first. *)
Definition due_first h (lv : EncryptionLevel) : Prop :=
  exists t, probe_due h lv = Some t /\ forall lv' t', probe_due h lv' = Some t' -> t <= t'.

(** The level that is probed: with nothing in flight before the peer has validated our address, the
    first one with keys; otherwise the one at which a probe is due first. *)
Definition probed h (lv : EncryptionLevel) : Prop :=
  (bytesInFlight h = 0 /\ peerCompletedAddressValidation h = false /\
   lv = if initialPackets h then EncryptionInitial else EncryptionHandshake) \/ due_first h lv.

(** The choice [getPTOTimeAndSpace] makes, level by level. *)
Definition pick h (acc : Z * option EncryptionLevel) (lv : EncryptionLevel) : Z * option EncryptionLevel :=
  match probe_due h lv with
  | Some t => if earlier t acc.1 then (t, Some lv) else acc
  | None => acc
  end.

Definition picked h (lvs : list EncryptionLevel) (acc : Z * option EncryptionLevel) : Prop :=
  match acc.2 with
  | Some lv => 0 < acc.1 /\ lv ∈ lvs /\ probe_due h lv = Some acc.1 /\ forall lv' t', lv' ∈ lvs -> probe_due h lv' = Some t' -> acc.1 <= t'
  | None => acc.1 = 0 /\ forall lv', lv' ∈ lvs -> probe_due h lv' = None
  end.

Lemma due_pos h lv t : fine_all h -> probe_due h lv = Some t -> 0 < t.
Proof.
  intros Hf H. assert (exists s b, getPacketNumberSpace h lv = Some s /\ HasOutstandingPackets (history s) = true /\ t = lastAckElicitingPacketTime s + getScaledPTO h b) as (s & b & Hs & Ho & ->).
  { unfold probe_due in H. destruct lv; cbn in *;
      [destruct (initialPackets h) as [s|]; [exists s, false|done]|destruct (handshakePackets h) as [s|]; [exists s, false|done]|done
      |destruct (handshakeConfirmed h); [exists (appDataPackets h), true|done]];
      cbn in H; destruct (HasOutstandingPackets _) eqn:E; by simplify_eq. }
  destruct (Hf lv s Hs) as [F _]. pose proof (scaled_pos h b). unfold HasOutstandingPackets in Ho. lia.
Qed.

Lemma pick_picked h lvs acc lv : fine_all h -> picked h lvs acc -> picked h (lvs ++ [lv]) (pick h acc lv).
Proof.
  intros Hf Hp. unfold pick. destruct (probe_due h lv) as [t|] eqn:E.
  - pose proof (due_pos h lv t Hf E) as Ht. unfold earlier. destruct acc as [t0 [lv0|]]; unfold picked in *; cbn in *.
    + destruct Hp as (H0 & H1 & H2 & H3). destruct (_ || _) eqn:Eb; cbn; setoid_rewrite elem_of_app; setoid_rewrite list_elem_of_singleton;
        (split_and!; [lia|auto|done|]); intros lv' t' [Hl| ->] Hd; simplify_eq; try (specialize (H3 _ _ Hl Hd)); lia.
    + destruct Hp as [-> Hn]. cbn. setoid_rewrite elem_of_app. setoid_rewrite list_elem_of_singleton. split_and!; [lia|auto|done|].
      intros lv' t' [Hl| ->] Hd; [by rewrite (Hn _ Hl) in Hd|]. simplify_eq. lia.
  - destruct acc as [t0 [lv0|]]; unfold picked in *; cbn in *; setoid_rewrite elem_of_app; setoid_rewrite list_elem_of_singleton.
    + destruct Hp as (H0 & H1 & H2 & H3). split_and!; [done|auto|done|]. intros lv' t' [Hl| ->] Hd; [by eapply H3|congruence].
    + destruct Hp as [H0 Hn]. split; [done|]. intros lv' [Hl| ->]; [by apply Hn|done].
Qed.

Lemma pto_picks h now : fine_all h ->
  hasOutstandingCryptoPackets h || (handshakeConfirmed h && HasOutstandingPackets (history (appDataPackets h))) = true ->
  getPTOTimeAndSpace h now = fold_left (pick h) [EncryptionInitial; EncryptionHandshake; Encryption1RTT] (0, None).
Proof.
  intros Hf Hw. unfold getPTOTimeAndSpace.
  assert (negb (handshakeConfirmed h) && negb (hasOutstandingCryptoPackets h) = false) as ->.
  { destruct (hasOutstandingCryptoPackets h), (handshakeConfirmed h); done. }
  assert (Hpos : forall lv s, getPacketNumberSpace h lv = Some s -> HasOutstandingPackets (history s) = true -> (lastAckElicitingPacketTime s =? 0) = false).
  { intros lv s Hs Ho. destruct (Hf lv s Hs) as [F _]. unfold HasOutstandingPackets in Ho. lia. }
  pose proof (Hpos Encryption1RTT _ eq_refl) as Pa. pose proof (Hpos EncryptionInitial) as Pi. pose proof (Hpos EncryptionHandshake) as Ph. cbn in Pi, Ph.
  cbn [fold_left]. set (a1 := match initialPackets h with Some _ => _ | None => _ end).
  assert (a1 = pick h (0, None) EncryptionInitial) as ->.
  { unfold a1, pick. cbn. destruct (initialPackets h) as [si|]; [|done]. cbn. specialize (Pi si eq_refl).
    destruct (HasOutstandingPackets (history si)); [|done]. by rewrite Pi. }
  destruct (pick h (0, None) EncryptionInitial) as [t1 l1]. set (a2 := match handshakePackets h with Some _ => _ | None => _ end).
  assert (a2 = pick h (t1, l1) EncryptionHandshake) as ->.
  { unfold a2, pick. cbn. destruct (handshakePackets h) as [sh|]; [|done]. cbn. specialize (Ph sh eq_refl).
    destruct (HasOutstandingPackets (history sh)); [|done]. by rewrite Ph. }
  destruct (pick h (t1, l1) EncryptionHandshake) as [t2 l2]. unfold pick. cbn.
  destruct (handshakeConfirmed h); [|done]. destruct (HasOutstandingPackets _); [|done]. by rewrite Pa.
Qed.

Lemma waiting_space h now t l : fine_all h ->
  hasOutstandingCryptoPackets h || (handshakeConfirmed h && HasOutstandingPackets (history (appDataPackets h))) = true ->
  getPTOTimeAndSpace h now = (t, l) ->
  exists lv s, l = Some lv /\ lv <> Encryption0RTT /\ getPacketNumberSpace h lv = Some s /\ HasOutstandingPackets (history s) = true /\ due_first h lv.
Proof.
  intros Hf Hw H. pose proof (pto_time h now Hf Hw) as Hp. rewrite H in Hp. cbn in Hp. rewrite pto_picks in H by done.
  assert (Hk : picked h [EncryptionInitial; EncryptionHandshake; Encryption1RTT] (t, l)).
  { rewrite <- H. cbn [fold_left]. apply (pick_picked h [EncryptionInitial; EncryptionHandshake]); [done|].
    apply (pick_picked h [EncryptionInitial]); [done|]. apply (pick_picked h []); [done|]. split; [done|]. by intros ? ?%elem_of_nil. }
  unfold picked in Hk. cbn in Hk. destruct l as [lv|]; [|lia]. destruct Hk as (_ & _ & Hd & Hmin).
  assert (lv <> Encryption0RTT) by (by intros ->). exists lv.
  assert (exists s, getPacketNumberSpace h lv = Some s /\ HasOutstandingPackets (history s) = true) as (s & Hs & Ho).
  { unfold probe_due in Hd. destruct lv; cbn in Hd |- *; [destruct (initialPackets h) as [s|]; [|done]|destruct (handshakePackets h) as [s|]; [|done]|done
      |destruct (handshakeConfirmed h); [set (s := appDataPackets h) in *|done]]; exists s; (split; [done|]); cbn in Hd; by destruct (HasOutstandingPackets (history s)). }
  exists s. split_and!; try done. exists t. split; [done|]. intros lv' t' Hd'. apply (Hmin lv' t'); [|done]. destruct lv'; [set_solver..|done|set_solver].
Qed.

Lemma pto_probes_owed h l r h' : pto_probes h l r = Ok h' ->
  numProbesToSend h' = numProbesToSend h + 2 /\ ptoCount h' = u32 (ptoCount h + 1) /\ ptoMode h' = probe_mode l.
Proof.
  unfold pto_probes. intros H. destruct l; [by simplify_eq..|done|]. step_in H. destruct x as [pn h1]. step_in H. step_in H. injection H as <-.
  unfold PopPacketNumber in E. cbn in E. destruct (Pop _ r) as [[sk n] g]. step_in E. by injection E as <- <-.
Qed.

Lemma on_pto_owes pend h now r : inv pend [] h -> fine_all h -> pend_app pend = None ->
  hasOutstandingCryptoPackets h || (handshakeConfirmed h && HasOutstandingPackets (history (appDataPackets h))) = true ->
  exists h' lv, on_pto h now r = Ok h' /\ numProbesToSend h < numProbesToSend h' /\ ptoCount h' = u32 (ptoCount h + 1) /\
    probed h lv /\ ptoMode h' = probe_mode lv.
Proof.
  intros Hi Hf Hg Hw. destruct (inv_mode _ _ _ Hi) as [Hn0 _]. unfold on_pto.
  destruct ((bytesInFlight h =? 0) && negb (peerCompletedAddressValidation h)) eqn:Eb.
  - assert (Hpc : peerCompletedAddressValidation h = false) by (by destruct (peerCompletedAddressValidation h), (_ =? 0)).
    destruct (inv_peer _ _ _ Hi Hpc) as [Hh _]. cbn. destruct (initialPackets h) eqn:Ei; [|destruct (handshakePackets h) eqn:Eh; [|done]].
    + eexists _, EncryptionInitial. split_and!; try done; [cbn; lia|]. left. rewrite Ei. split_and!; [lia|done..].
    + eexists _, EncryptionHandshake. split_and!; try done; [cbn; lia|]. left. rewrite Ei. split_and!; [lia|done..].
  - destruct (getPTOTimeAndSpace h now) as [pt pl] eqn:Ep.
    pose proof (pto_time h now Hf Hw) as Hpt. rewrite Ep in Hpt. cbn in Hpt. rewrite (proj2 (Z.eqb_neq _ _)) by lia.
    destruct (waiting_space h now pt pl Hf Hw Ep) as (lv & s & -> & Hlv & Hs & Ho & Hdue). cbn [mbind res_bind].
    rewrite (proj2 (space_get h lv s) Hs). cbn [mbind res_bind]. rewrite Ho. cbn [negb andb].
    destruct (pto_probes_spec pend h lv r Hi Hg Hlv (ex_intro _ s Hs)) as (h2 & Hh2 & _). rewrite Hh2.
    destruct (pto_probes_owed _ _ _ _ Hh2) as (P1 & P2 & P3). exists h2, lv. split_and!; try done; [lia|by right].
Qed.

Lemma probes_keep_flight h now h' : detectLostPathProbes h now = Ok h' -> bytesInFlight h' = bytesInFlight h.
Proof.
  unfold detectLostPathProbes. destruct (negb _); [by intros [= <-]|]. generalize (filter (fun e => SendTime e.2 <= now - pathProbePacketLossTimeout) (pathProbePackets (history (appDataPackets h)))).
  intros l. revert h. induction l as [|[pn p] l IH]; intros h H; cbn in H; [by simplify_eq|]. step_in H. by apply IH in H.
Qed.

(** The number of packets tracked at all levels. *)
Definition tracked h : Z :=
  let len o := match o with Some s => Len (history s) | None => 0 end in
  Len (history (appDataPackets h)) + len (initialPackets h) + len (handshakePackets h).

(** C24: when the timer fires, no packet is due to be declared lost, and Initial or Handshake packets, or
    1-RTT packets of a confirmed handshake, are outstanding, then the connection owes the peer probe
    packets and backs off.  They are sent at the level at which a probe is due first: the one with the
    earliest sum of the time of its last ack-eliciting packet and its probe timeout among the levels
    with outstanding packets (a connection with no bytes in flight whose peer has not validated its
    address probes the first level it has keys for).  Until they are sent, the send mode is that of
    probes at this level, whatever the congestion window is, or nothing may be sent at all because of
    the amplification limit or the number of tracked packets. *)
Theorem timeout_sends_probes st now r :
  reachable st -> guard st (ETimeout now r) -> (getLossTimeAndSpace (hd st)).1 = 0 ->
  hasOutstandingCryptoPackets (hd st) || (handshakeConfirmed (hd st) && HasOutstandingPackets (history (appDataPackets (hd st)))) = true ->
  exists st' lv, exec st (ETimeout now r) = Ok st' /\
    numProbesToSend (hd st) < numProbesToSend (hd st') /\ ptoCount (hd st') = u32 (ptoCount (hd st) + 1) /\
    probed (hd st) lv /\ ptoMode (hd st') = probe_mode lv /\
    forall t, SendMode_ (hd st') t = probe_mode lv \/
      (SendMode_ (hd st') t = SendNone /\ (isAmplificationLimited (hd st') = true \/ MaxTrackedSentPackets <= tracked (hd st'))).
Proof.
  intros Hr Hg Hlt Hw. destruct (reachable_good st Hr) as (Hi & _ & _). destruct (reachable_timed st Hr) as [Hf _].
  cbn in Hg |- *. unfold OnLossDetectionTimeout. set (h := hd st) in *.
  assert (H1 : exists h1, (if handshakeConfirmed h then detectLostPathProbes h now else Ok h) = Ok h1 /\ inv (taken st) [] h1 /\ fine_all h1 /\ only_probes h h1).
  { destruct (handshakeConfirmed h).
    - destruct (detect_probes_spec (taken st) [] h now Hi) as (h1 & Hh1 & Hi1 & _ & Ho). exists h1. split_and!; try done.
      apply still_detect_probes in Hh1 as [Hh1 _]. by eapply fine_calms.
    - exists h. split_and!; try done. split_and!; try done. exists (pathProbePackets (history (appDataPackets h))).
      by destruct (appDataPackets h) as [[] ? ? ? ? ?]. }
  destruct H1 as (h1 & H1 & Hi1 & Hf1 & (O1 & O2 & O3 & ps & O4)).
  assert (Hb1 : bytesInFlight h1 = bytesInFlight h) by (destruct (handshakeConfirmed h); [by eapply probes_keep_flight|by injection H1 as <-]).
  rewrite H1. cbn [mbind res_bind].
  assert (Hlt1 : (getLossTimeAndSpace h1).1 = 0) by (unfold getLossTimeAndSpace in *; rewrite O1, O2, O4; exact Hlt).
  unfold env in O3. assert (Hc : handshakeConfirmed h1 = handshakeConfirmed h /\ numProbesToSend h1 = numProbesToSend h /\ ptoCount h1 = ptoCount h)
    by (split_and!; congruence). destruct Hc as (Hc & Hn & Hp).
  assert (Hw1 : hasOutstandingCryptoPackets h1 || (handshakeConfirmed h1 && HasOutstandingPackets (history (appDataPackets h1))) = true).
  { unfold hasOutstandingCryptoPackets in *. rewrite O1, O2, O4, Hc. exact Hw. }
  destruct (getLossTimeAndSpace h1) as [lt l]. cbn in Hlt1. subst lt. cbn [Z.eqb negb].
  destruct (inv_mode _ _ _ Hi1) as [Hn0 _].
  destruct (on_pto_owes (taken st) h1 now r Hi1 Hf1 Hg Hw1) as (h2 & lv & -> & Hn2 & Hp2 & Hlv & Hm2).
  cbn [mbind res_bind]. eexists _, lv. split; [done|]. cbn.
  split_and!; try done; [lia|congruence| |].
  - unfold probed, due_first, probe_due, getScaledPTO in Hlv |- *.
    assert (Hr1 : rttStats h1 = rttStats h /\ peerCompletedAddressValidation h1 = peerCompletedAddressValidation h) by (split; congruence).
    destruct Hr1 as [Hr1 Hr2]. rewrite O1, O2, O4, Hc, Hp, Hr1, Hr2, Hb1 in Hlv. exact Hlv.
  - intros t. unfold SendMode_. fold (tracked (setLossDetectionTimer h2 now)). cbn [numProbesToSend setLossDetectionTimer].
    destruct (isAmplificationLimited _); [right; auto|]. destruct (_ <=? _) eqn:E; [right; split; [done|right; lia]|].
    cbn. rewrite (proj2 (Z.ltb_lt _ _)) by lia. by left.
Qed.

(** The probe timeout doubles with every timeout in a row and never exceeds a minute; it is never
    zero or negative, also where the shift overflows. *)
Theorem pto_backoff_bounded h (b : bool) :
  0 < getScaledPTO h b <= 60 * Second /\
  (0 < PTO (rttStats h) b -> 0 <= ptoCount h -> PTO (rttStats h) b * 2 ^ ptoCount h < 2 ^ 63 ->
   getScaledPTO h b = Z.min (PTO (rttStats h) b * 2 ^ ptoCount h) (60 * Second)).
Proof.
  split; [apply scaled_pos|]. intros Hp Hn Hlt. unfold getScaledPTO, maxPTODuration. rewrite Z.shiftl_mul_pow2 by done.
  assert (0 < PTO (rttStats h) b * 2 ^ ptoCount h) by (apply Z.mul_pos_pos; lia).
  rewrite i64_small by lia. set (x := PTO _ _ * _) in *. set (m := 60 * Second). clearbody x m. destruct (_ || _) eqn:E; lia.
Qed.

End timer.

(** ** A connection *)

#[local] Existing Instance Cubic.cubic_algorithm.

(** A server that has confirmed the handshake and sent [n] packets of 1200 bytes. *)
Definition stream_frame (i : Z) : StreamFrame := mkStreamFrame (Frames.mkStream 0 (1200 * i) [Byte.x61] false false false) (Some 1).

Definition send_one (i : Z) : list event :=
  [EPop Encryption1RTT 5; ESend (1000 * Millisecond + i) (-1) [stream_frame i] [] Encryption1RTT ECNNon 1200 false false].

Definition server : state :=
  start (C := Cubic.cubicSender) None 0 1280 NewRTTStats (mkStats 0 0 0 0) true true true PerspectiveServer 7.

Definition sending (n : Z) : list event :=
  [EPacket EncryptionHandshake 1; EDrop EncryptionInitial 1; EDrop EncryptionHandshake 2] ++ mjoin (map send_one (seqZ 0 n)).

Ltac guards_solve :=
  repeat match goal with
  | |- True => exact I
  | |- _ /\ _ => split
  | |- is_Some _ => vm_compute; by eexists
  | |- _ -> _ => intros ?
  | |- exists _, _ => eexists
  | |- _ => first [done|by left|vm_compute; reflexivity|vm_compute; discriminate]
  end.

Lemma server_reachable : reachable server.
Proof. by constructor. Qed.

Lemma sending_guards : guards server (sending 4).
Proof. vm_compute. guards_solve. Qed.

Definition after (evs : list event) : state := match run server evs with Ok st => st | _ => server end.

Lemma after_reachable evs : guards server evs -> reachable (after evs).
Proof.
  intros Hg. unfold after. destruct (run server evs) eqn:E; [|apply server_reachable..].
  eapply run_reachable; [apply server_reachable|exact Hg|exact E].
Qed.

Lemma loss_timer_armed_witness : GetLossDetectionTimeout (hd (after (sending 4))) <> 0.
Proof.
  apply (loss_timer_armed (after (sending 4))); [apply after_reachable, sending_guards|vm_compute; reflexivity..].
Defined.

Lemma timeout_sends_probes_witness :
  exists st' lv, exec (after (sending 4)) (ETimeout (3000 * Millisecond) 5) = Ok st' /\
    numProbesToSend (hd (after (sending 4))) < numProbesToSend (hd st') /\
    ptoCount (hd st') = u32 (ptoCount (hd (after (sending 4))) + 1) /\
    probed (hd (after (sending 4))) lv /\ ptoMode (hd st') = probe_mode lv.
Proof.
  destruct (timeout_sends_probes (after (sending 4)) (3000 * Millisecond) 5 (after_reachable _ sending_guards) eq_refl eq_refl eq_refl)
    as (st' & lv & H1 & H2 & H3 & H4 & H5 & _).
  exists st', lv. split; [exact H1|]. split; [exact H2|]. split; [exact H3|]. split; [exact H4|exact H5].
Defined.

End LossTimer.
