(* ===== verification/LossRecovery.v ===== *)
(** * What loss recovery guarantees

    The theorems on the handler of sent packets
    (src/quicfork/internal/ackhandler/sent_packet_handler.go), for every run of
    SentRecovery.v: its calls do not fail, its accounts are right, frames are
    reported once and as acknowledged only if they were, packets are given up
    exactly when they should, and as long as data is outstanding a timer is set. *)

From Stdlib Require Import ZifyBool.
From stdpp Require Import sorting.
From S2P Require Import Prelude GoBytes Varint Wire AckFrame Frames FrameParser PacketNumber ReceivedPackets RttStats SentHistory Ecn SentPackets SentAcks SentSafety SentRecovery Cubic LossTimer.
Local Open Scope Z_scope.

Module LossRecovery.
Import Wire Ack Tracker RttStats SentHistory SentPackets SentAcks SentSafety SentRecovery LossTimer.

#[local] Arguments frames : simpl never.
#[local] Arguments flight : simpl never.
#[local] Arguments settled : simpl never.

(** The frames reported as acknowledged. *)
Definition acks (cs : list call) : list (Z * FrameParser.Frame) :=
  omap (fun c => match c with OnAcked x f => Some (x, f) | _ => None end) cs.

#[local] Arguments acks : simpl never.

Lemma acks_app c1 c2 : acks (c1 ++ c2) = acks c1 ++ acks c2.
Proof. apply omap_app. Qed.

Lemma acks_acked l : acks (map (fun x => OnAcked x.1 x.2) l) = l.
Proof. unfold acks. induction l as [|[x f] l IH]; cbn; [done|]. by rewrite IH. Qed.

Lemma acks_lost l : acks (map (fun x => OnLost x.1 x.2) l) = [].
Proof. unfold acks. by induction l as [|[x f] l IH]; cbn. Qed.

Section recovery.
Context {C : Type} {CC : SendAlgorithm C}.
Implicit Types h : sentPacketHandler (C := C).
Implicit Types st : state (C := C).

(** ** Acknowledgements are reported only for acknowledged frames *)

Lemma calls_put h lv s : calls (put h lv s) = calls h.
Proof. by destruct lv. Qed.

Lemma acks_queue h p h' : queueFramesForRetransmission h p = Ok h' -> acks (calls h') = acks (calls h).
Proof.
  unfold queueFramesForRetransmission. intros H. assert (h' = add_calls h (map (fun x => OnLost x.1 x.2) (handled p))) as ->.
  { destruct (Frames_ p), (StreamFrames p); by simplify_eq. }
  cbn. by rewrite acks_app, acks_lost, app_nil_r.
Qed.

Lemma acks_remove_flight h p h' : removeFromBytesInFlight h p = Ok h' -> calls h' = calls h.
Proof. unfold removeFromBytesInFlight. intros. repeat case_match; by simplify_eq. Qed.

Lemma acks_lose h lv prior pn p h' : lose_packet h lv prior pn p = Ok h' -> acks (calls h') = acks (calls h).
Proof.
  unfold lose_packet. set (h1 := if is_app lv then _ else h). assert (Hc : calls h1 = calls h) by (unfold h1; by destruct (is_app lv)).
  rewrite <- Hc. clearbody h1. intros H. step_in H. step_in H. destruct (_ && _); [|simplify_eq; by rewrite calls_put].
  step_in H. step_in H. simplify_eq. apply acks_remove_flight in E1. apply acks_queue in E2. rewrite calls_put in E1. rewrite <- E1, <- E2.
  repeat case_match; done.
Qed.

Lemma acks_lost_loop lv d t prior : forall l h h', lost_loop h lv d t prior l = Ok h' -> acks (calls h') = acks (calls h).
Proof.
  induction l as [|[pn p] l IH]; intros h h' H; cbn [lost_loop] in H; [by simplify_eq|].
  step_in H. destruct (_ <? pn); [by simplify_eq|]. destruct (_ || _).
  - step_in H. apply acks_lose in E0. apply IH in H. congruence.
  - apply IH in H. rewrite H. destruct (_ =? 0); [by rewrite calls_put|done].
Qed.

Lemma acks_detect_lost h now lv h' : detectLostPackets h now lv = Ok h' -> acks (calls h') = acks (calls h).
Proof.
  unfold detectLostPackets. intros H. step_in H. apply acks_lost_loop in H. by rewrite H, calls_put.
Qed.

Lemma acks_probes : forall l h h', probes_lost h l = Ok h' -> acks (calls h') = acks (calls h).
Proof.
  assert (Hp : forall fs cs, probe_calls fs = Ok cs -> acks cs = []).
  { induction fs as [|f fs IH]; intros cs H; cbn in H; [by simplify_eq|]. destruct (fr_Handler f); [|done]. step_in H.
    injection H as <-. exact (IH _ eq_refl). }
  induction l as [|[pn p] l IH]; intros h h' H; cbn [probes_lost] in H; [by simplify_eq|].
  step_in H. apply IH in H. rewrite H. cbn. by rewrite acks_app, (Hp _ _ E), app_nil_r.
Qed.

Lemma acks_detect_probes h now h' : detectLostPathProbes h now = Ok h' -> acks (calls h') = acks (calls h).
Proof. unfold detectLostPathProbes. destruct (negb _); [by intros; simplify_eq|]. apply acks_probes. Qed.

Lemma acks_settle prior t : forall l b h b' h', settle_acked h prior t b l = Ok (b', h') -> calls h' = calls h.
Proof.
  induction l as [|[pn p] l IH]; intros b h b' h' H; cbn [settle_acked] in H; [by simplify_eq|].
  step_in H. apply acks_remove_flight in E. apply IH in H. rewrite H, E. by destruct (includedInBytesInFlight p).
Qed.

Lemma acks_after h ack lv t hi b prior b' h' : after_acked h ack lv t hi b prior = Ok (b', h') -> acks (calls h') = acks (calls h).
Proof.
  unfold after_acked. destruct (update_rtt_core h ack lv t hi b) as (Hc1 & _). set (h1 := update_rtt h ack lv t hi b) in *. clearbody h1.
  intros H. step_in H. destruct (update_ecn_core h1 x ack lv hi prior) as (Hc2 & _). set (h2 := update_ecn _ _ _ _ _ _) in *. clearbody h2.
  step_in H. step_in H. step_in H. destruct x2 as [b1 h5]. step_in H. step_in H. injection H as _ <-. cbn.
  apply acks_detect_lost in E0. rewrite calls_put in E0. apply acks_settle in E2.
  assert (Hs : acks (calls x1) = acks (calls x0)) by (case_bool_decide; [by apply acks_detect_probes in E1|by simplify_eq]).
  assert (Hx : calls x3 = calls h5).
  { destruct (_ && _); [|by simplify_eq]. step_in E4. injection E4 as <-. unfold detectSpuriousLosses in E5. step_in E5. by injection E5 as <-. }
  unfold core in Hc1, Hc2. assert (calls h2 = calls h) by congruence. congruence.
Qed.

Lemma acks_packets lv : forall l h h', ack_packets lv h l = Ok h' -> acks (calls h') = acks (calls h) ++ frames l.
Proof.
  induction l as [|[pn p] l IH]; intros h h' H; cbn [ack_packets] in H; [simplify_eq; by rewrite app_nil_r|].
  set (h0 := if _ && _ && _ then _ else h) in H. assert (Hc : acks (calls h0) = acks (calls h)).
  { unfold h0. destruct (_ && _ && _); [|done]. cbn. rewrite acks_app. apply app_nil_r. }
  clearbody h0. step_in H. step_in H. apply IH in H. rewrite H, calls_put. cbn. rewrite acks_app, acks_acked, Hc.
  change (frames ((pn, p) :: l)) with (handled p ++ frames l). by rewrite app_assoc.
Qed.

Lemma acks_received h ack lv t s b h' : ackedPackets h = [] -> getPacketNumberSpace h lv = Some s -> ack_ok ack ->
  ReceivedAck h ack lv t = Ok (b, h') -> acks (calls h') = acks (calls h) ++ frames (newly_acked s ack).
Proof.
  intros Ha Hs Hok H. unfold ReceivedAck in H. rewrite (proj2 (space_get h lv s) Hs) in H. cbn [mbind res_bind] in H.
  step_in H. destruct (_ <? _); [done|].
  set (h1 := if _ && _ && _ then setLossDetectionTimer (with_completed h true) t else h) in H.
  assert (H1 : calls h1 = calls h /\ ackedPackets h1 = [] /\ getPacketNumberSpace h1 lv = Some s) by (unfold h1; by destruct (_ && _ && _)).
  destruct H1 as (Hc1 & Ha1 & Hs1). rewrite <- Hc1. clearbody h1. step_in H. destruct x0 as [b2 h2].
  assert (Hd : acks (calls h2) = acks (calls h1) ++ frames (newly_acked s ack)).
  { clear H E. unfold detectAndRemoveAckedPackets in E0. rewrite Ha1, (proj2 (space_get h1 lv s) Hs1) in E0. cbn [mbind res_bind] in E0.
    step_in E0. destruct (ack_bounds ack Hok) as (lo & hi & Hlo & Hhi & _). rewrite Hlo, Hhi in E0. cbn [wrap_err mbind res_bind] in E0.
    pose proof (acked_loop_spec ack lo hi Hok Hlo Hhi (Packets (history s)) (history s) [] 0 false) as Hl. cbn zeta in Hl.
    unfold newly_acked. destruct (collect _ _) as [new probes]. rewrite Hl in E0; [|apply entries_sorted|].
    2:{ apply Forall_forall. intros e _. split; [|intros j r Hj; lia]. destruct Hok as (Hne & _). destruct (AckRanges ack); [done|]. cbn. lia. }
    cbn [mbind res_bind app] in E0. step_in E0. simplify_eq. apply acks_packets in E1. rewrite E1. cbn. by rewrite calls_put. }
  rewrite <- Hd. destruct (ackedPackets h2); [by simplify_eq|]. by apply acks_after in H.
Qed.

Lemma calls_pop h lv r pn h' : PopPacketNumber h lv r = Ok (pn, h') -> calls h' = calls h.
Proof.
  unfold PopPacketNumber. intros H. step_in H. destruct (Pop _ _) as [[sk n] g]. step_in H. injection H as _ <-. apply calls_put.
Qed.

Lemma calls_sent h t pn la sf fs lv ecn size mtu probe h' :
  SentPackets.SentPacket h t pn la sf fs lv ecn size mtu probe = Ok h' -> calls h' = calls h.
Proof.
  unfold SentPackets.SentPacket. intros H. step_in H. destruct probe.
  - step_in H. injection H as <-. cbn [calls setLossDetectionTimer with_alarm]. by rewrite calls_put.
  - cbn zeta in H. step_in H. step_in H. assert (calls x0 = calls h) as <-.
    { destruct (h_ecn _); [case_bool_decide|]; [step_in E0|..]; injection E0 as <-; by destruct (IsAckEliciting _). }
    destruct (negb _); [destruct (negb _)|]; injection H as <-; cbn [calls setLossDetectionTimer with_alarm]; by rewrite calls_put.
Qed.

Lemma calls_remove_all : forall l h h', remove_all_flight h l = Ok h' -> calls h' = calls h.
Proof.
  induction l as [|[pn p] l IH]; intros h h' H; cbn in H; [by simplify_eq|]. step_in H. apply IH in H.
  apply acks_remove_flight in E. congruence.
Qed.

Lemma calls_drop h lv t h' : DropPackets h lv t = Ok h' -> calls h' = calls h.
Proof.
  unfold DropPackets. set (h1 := if _ && _ then _ else h). assert (Hc : calls h1 = calls h) by (unfold h1; by destruct (_ && _)).
  rewrite <- Hc. clearbody h1. clear. intros H. destruct lv; [| | |done].
  - destruct (initialPackets h1); [|by simplify_eq]. step_in H. injection H as <-. by apply calls_remove_all in E.
  - destruct (handshakePackets h1); [|by simplify_eq]. step_in H. injection H as <-. by apply calls_remove_all in E.
  - step_in H. injection H as <-. cbn. revert E. generalize (Packets (history (appDataPackets h1))). intros l. revert h1.
    induction l as [|[pn p] l IH]; intros h1 H; cbn in H; [by simplify_eq|]. destruct (negb _); [by simplify_eq|]. step_in H.
    apply acks_remove_flight in E. rewrite <- E. destruct (Remove _ _); [|by apply IH in H|done]. by apply IH in H.
Qed.

Lemma acks_probe h lv b h' : QueueProbePacket h lv = Ok (b, h') -> acks (calls h') = acks (calls h).
Proof.
  unfold QueueProbePacket. intros H. step_in H. destruct (FirstOutstanding _) as [[pn p]|]; [|by simplify_eq].
  step_in H. step_in H. step_in H. injection H as _ <-. apply acks_queue in E2. apply acks_remove_flight in E1.
  rewrite calls_put in E1. congruence.
Qed.

Lemma acks_timeout h now r h' : OnLossDetectionTimeout h now r = Ok h' -> acks (calls h') = acks (calls h).
Proof.
  unfold OnLossDetectionTimeout. intros H. step_in H. destruct (getLossTimeAndSpace x) as [lt l]. step_in H. injection H as <-. cbn.
  assert (Hx : acks (calls x) = acks (calls h)) by (destruct (handshakeConfirmed h); [by apply acks_detect_probes in E|by simplify_eq]).
  rewrite <- Hx. clear E Hx. destruct (negb _).
  - destruct l as [lv|]; [|done]. by apply acks_detect_lost in E0.
  - f_equal. revert E0. unfold on_pto. destruct (_ && _).
    + intros. repeat case_match; by simplify_eq.
    + destruct (getPTOTimeAndSpace x now) as [pt pl]. destruct (_ =? 0); [intros; by simplify_eq|]. intros H. step_in H. step_in H.
      destruct (_ && _); [by simplify_eq|]. unfold pto_probes in H. destruct x1; [by simplify_eq..|done|].
      step_in H. destruct x1 as [pn h1]. step_in H. step_in H. injection H as <-. apply calls_pop in E1. done.
Qed.

Lemma acks_queue_all : forall l h h', queue_all h l = Ok h' -> acks (calls h') = acks (calls h).
Proof.
  induction l as [|[pn p] l IH]; intros h h' H; cbn in H; [by simplify_eq|]. step_in H. apply IH in H. rewrite H.
  destruct (IsAckEliciting p); [by apply acks_queue in E|by simplify_eq].
Qed.

Lemma acks_retry h now r h' : ResetForRetry h now r = Ok h' -> acks (calls h') = acks (calls h).
Proof.
  unfold ResetForRetry. intros H. step_in H. step_in H. step_in H. injection H as <-. apply acks_queue_all in E0, E1. cbn in *.
  rewrite <- E0, <- E1. by destruct (_ =? 0).
Qed.

Lemma acks_migrate h now size h' : MigratedPath h now size = Ok h' -> acks (calls h') = acks (calls h).
Proof.
  unfold MigratedPath. set (h0 := with_rtt h _). intros H. step_in H. injection H as <-.
  transitivity (acks (calls x)); [by destruct (customCC _)|]. change (calls h) with (calls h0). revert E.
  generalize (Packets (history (appDataPackets h0))). intros l. clearbody h0. revert h0.
  induction l as [|[pn p] l IH]; intros h0 H; cbn in H; [by simplify_eq|]. step_in H. step_in H. apply IH in H. rewrite H.
  destruct (negb _); [|by simplify_eq]. step_in E0. apply acks_remove_flight in E1. cbn in E1. rewrite <- E1.
  destruct (IsAckEliciting p); [by apply acks_queue in E0|by simplify_eq].
Qed.

Lemma remove_probe_None (l : list (Z * packet)) pn : pn ∉ l.*1 -> remove_probe l pn = (None, l).
Proof.
  induction l as [|[n p] l IH]; [done|]. cbn. intros [Hn Hl]%not_elem_of_cons. rewrite (proj2 (Z.eqb_neq _ _)) by done. by rewrite IH.
Qed.

Lemma collect_elem : forall cl probes, NoDup probes.*1 -> NoDup cl.*1 -> forall e,
  e ∈ (collect probes cl).1 <->
  (e ∈ cl /\ isPathProbePacket e.2 = false) \/ (e ∈ probes /\ exists q, isPathProbePacket q = true /\ (e.1, q) ∈ cl).
Proof.
  induction cl as [|[pn p] cl IH]; intros probes Hp Hc e; cbn [collect].
  - cbn. rewrite elem_of_nil. split; [done|]. intros [[? _]|(_ & q & _ & ?%elem_of_nil)]; done.
  - cbn in Hc. apply NoDup_cons in Hc as [Hn Hc]. destruct (isPathProbePacket p) eqn:Ep.
    + assert (Hr : (exists q, (pn, q) ∈ probes /\ remove_probe probes pn = (Some q, without pn probes)) \/
                   (pn ∉ probes.*1 /\ remove_probe probes pn = (None, probes))).
      { destruct (decide (pn ∈ probes.*1)) as [Hin|Hin]; [left|right; by rewrite remove_probe_None].
        apply list_elem_of_fmap in Hin as ([n q] & -> & Hq). exists q. split; [done|]. by apply remove_probe_spec. }
      destruct Hr as [(q & Hq & ->)|[Hin ->]].
      * specialize (IH (without pn probes)). destruct (collect (without pn probes) cl) as [acked probes']. cbn [fst] in *.
        rewrite elem_of_cons, IH; [|eapply sublist_NoDup; [exact Hp|]; by apply fmap_sublist, sublist_filter|done].
        unfold without. rewrite list_elem_of_filter, elem_of_cons. split.
        -- intros [-> | [[H1 H2]|[[H1 H2] (x & H3 & H4)]]]; [right|left; auto|right; split; [done|]]; [split; [done|]|].
           ++ exists p. split; [done|]. by left.
           ++ exists x. split; [done|]. by right.
        -- intros [[[-> | H1] H2]|[H1 (x & H3 & [H4|H4]%elem_of_cons)]]; [cbn in H2; congruence|auto| |].
           ++ left. injection H4 as H4 ->. destruct e as [n y]. cbn in *. subst n. f_equal.
              destruct (remove_probe_spec _ _ _ H1 Hp) as [R1 _], (remove_probe_spec _ _ _ Hq Hp) as [R2 _]. congruence.
           ++ right. right. split; [split; [|done]|by exists x]. intros Heq. apply Hn. rewrite <- Heq.
              by apply (list_elem_of_fmap_2 fst _ _ H4).
      * specialize (IH probes). destruct (collect probes cl) as [acked probes']. cbn [fst] in *. rewrite IH by done.
        rewrite elem_of_cons. split.
        -- intros [[H1 H2]|[H1 (x & H3 & H4)]]; [left; auto|right; split; [done|]]. exists x. split; [done|]. by right.
        -- intros [[[-> | H1] H2]|[H1 (x & H3 & [H4|H4]%elem_of_cons)]]; [cbn in H2; congruence|auto| |].
           ++ exfalso. apply Hin. injection H4 as <- _. by apply list_elem_of_fmap_2.
           ++ right. split; [done|]. by exists x.
    + specialize (IH probes). destruct (collect probes cl) as [acked probes']. cbn [fst] in *. rewrite elem_of_cons, IH by done.
      rewrite elem_of_cons. split.
      * intros [-> | [[H1 H2]|[H1 (x & H3 & H4)]]]; [left; auto..|right; split; [done|]]. exists x. split; [done|]. by right.
      * intros [[[-> | H1] H2]|[H1 (x & H3 & [H4|H4]%elem_of_cons)]]; [auto..| |right; right; split; [done|]; by exists x].
        injection H4 as _ ->. congruence.
Qed.

(** What an ACK frame newly acknowledges. *)
Lemma newly_acked_spec pend s ack e : space_ok pend s ->
  e ∈ newly_acked s ack <->
  covers ack e.1 = true /\
  ((e ∈ Packets (history s) /\ isPathProbePacket e.2 = false) \/
   (e ∈ pathProbePackets (history s) /\ exists q, isPathProbePacket q = true /\ (e.1, q) ∈ Packets (history s))).
Proof.
  intros (_ & _ & _ & _ & S5 & _). unfold newly_acked. rewrite collect_elem; [|done|].
  2:{ eapply sublist_NoDup; [apply (entries_NoDup (firstPacketNumber (history s)) (packets (history s)))|].
      by apply fmap_sublist, sublist_filter. }
  rewrite list_elem_of_filter. setoid_rewrite list_elem_of_filter. cbn. naive_solver.
Qed.

(** The frames that an event reports as acknowledged. *)
Definition reported st (ev : event) : list (Z * FrameParser.Frame) :=
  match ev with
  | EAck ack lv _ => match getPacketNumberSpace (hd st) lv with Some s => frames (newly_acked s ack) | None => [] end
  | _ => []
  end.

Lemma acks_exec st ev st' : good st -> guard st ev -> exec st ev = Ok st' ->
  acks (calls (hd st')) = acks (calls (hd st)) ++ reported st ev.
Proof.
  intros (_ & Ha & _) Hg H. destruct ev as [lv r|t la sf fs lv ecn size mtu probe|ack lv t|n t|lv t|lv t|lv|now r|now r|now size|short|size];
    cbn in Hg, H |- *; rewrite ?app_nil_r.
  - step_in H. destruct x as [pn h']. injection H as <-. cbn. f_equal. by eapply calls_pop.
  - step_in H. step_in H. injection H as <-. cbn. f_equal. by eapply calls_sent.
  - step_in H. destruct x as [b h']. injection H as <-. destruct Hg as [[s Hs] Hok]. rewrite Hs. by eapply acks_received.
  - injection H as <-. cbn. unfold ReceivedBytes. by destruct (_ && _).
  - injection H as <-. cbn. unfold ReceivedPacket. by destruct (_ && _).
  - step_in H. injection H as <-. cbn. f_equal. by eapply calls_drop.
  - step_in H. destruct x as [b h']. injection H as <-. by eapply acks_probe.
  - step_in H. injection H as <-. by eapply acks_timeout.
  - step_in H. injection H as <-. by eapply acks_retry.
  - step_in H. injection H as <-. by eapply acks_migrate.
  - injection H as <-. cbn. unfold ECNMode. repeat case_match; done.
  - step_in H. injection H as <-. unfold SetMaxDatagramSize_ in E. case_match; by simplify_eq.
Qed.

(** ** Amplification *)

Lemma limits_put h lv s : limits (put h lv s) = limits h.
Proof. by destruct lv. Qed.

Lemma limits_flight h p h' : removeFromBytesInFlight h p = Ok h' -> limits h' = limits h.
Proof. by intros (_ & _ & _ & ?)%still_flight. Qed.

Lemma limits_queue h p h' : queueFramesForRetransmission h p = Ok h' -> limits h' = limits h.
Proof. by intros (_ & _ & _ & ?)%still_queue. Qed.

Lemma limits_sent h t pn la sf fs lv ecn size mtu probe h' :
  SentPackets.SentPacket h t pn la sf fs lv ecn size mtu probe = Ok h' ->
  limits h' = (peerAddressValidated h, bytesReceived h, bytesSent h + size).
Proof.
  unfold SentPackets.SentPacket. intros H. step_in H. destruct probe.
  - step_in H. injection H as <-. change (limits (setLossDetectionTimer ?x _)) with (limits x). by rewrite limits_put.
  - cbn zeta in H. step_in H. step_in H. transitivity (limits x0).
    + destruct (negb _); [destruct (negb _)|]; injection H as <-; try change (limits (setLossDetectionTimer ?y _)) with (limits y);
        by rewrite limits_put.
    + destruct (h_ecn _); [case_bool_decide|]; [step_in E0|..]; injection E0 as <-; by destruct (IsAckEliciting _).
Qed.

Lemma limits_ack h ack lv t b h' : ReceivedAck h ack lv t = Ok (b, h') -> limits h' = limits h.
Proof.
  unfold ReceivedAck. intros H. step_in H. step_in H. destruct (_ <? _); [done|].
  set (h1 := if _ && _ && _ then setLossDetectionTimer (with_completed h true) t else h) in H.
  assert (H1 : limits h1 = limits h) by (unfold h1; by destruct (_ && _ && _)). rewrite <- H1. clearbody h1. clear H1.
  step_in H. destruct x1 as [b2 h2]. apply still_detect_acked in E1 as (_ & _ & _ & E1). rewrite <- E1. clear E1.
  destruct (ackedPackets h2) as [|e la]; [by simplify_eq|]. unfold after_acked in H.
  assert (Hu : limits (update_rtt h2 ack lv t x0 b2) = limits h2).
  { unfold update_rtt. destruct (list.last _) as [[pn p]|]; [|done]. destruct (_ && _); [|done]. by destruct (_ || _). }
  rewrite <- Hu. set (h3 := update_rtt h2 ack lv t x0 b2) in *. clearbody h3. clear Hu. step_in H.
  assert (Hu : limits (update_ecn h3 x1 ack lv x0 (bytesInFlight h1)) = limits h3).
  { unfold update_ecn. destruct (h_ecn h3); [|done]. destruct (_ && _); [|done]. destruct (Ecn.HandleNewlyAcked _ _ _ _ _) as [[] ?]; done. }
  rewrite <- Hu. set (h4 := update_ecn _ _ _ _ _ _) in *. clearbody h4. clear Hu. step_in H. apply still_detect_lost in E2 as (_ & _ & _ & E2).
  rewrite limits_put in E2. rewrite <- E2. step_in H. transitivity (limits x3).
  2:{ case_bool_decide; [by apply still_detect_probes in E3 as (_ & _ & _ & E3)|by simplify_eq]. }
  step_in H. destruct x4 as [b3 h5]. step_in H. step_in H. injection H as _ <-. change (limits x5 = limits x3). transitivity (limits h5).
  - destruct (_ && _); [|by simplify_eq]. step_in E6. injection E6 as <-. unfold detectSpuriousLosses in E7. step_in E7. by injection E7 as <-.
  - clear -E4. revert E4. generalize (ackedPackets x3), false. intros la. revert x3. induction la as [|[pn p] la IH]; intros x3 c E4; cbn in E4; [by simplify_eq|].
    step_in E4. rewrite (IH _ _ E4). apply limits_flight in E. rewrite E. by destruct (includedInBytesInFlight p).
Qed.

Lemma limits_drop h lv t h' : DropPackets h lv t = Ok h' -> limits h' = limits h.
Proof.
  unfold DropPackets. set (h1 := if _ && _ then _ else h). assert (Hc : limits h1 = limits h) by (unfold h1; by destruct (_ && _)).
  rewrite <- Hc. clearbody h1. clear. intros H.
  assert (Hrm : forall l (x y : sentPacketHandler (C := C)), remove_all_flight x l = Ok y -> limits y = limits x).
  { clear. induction l as [|[pn p] l IH]; intros x y H; cbn in H; [by simplify_eq|]. step_in H. rewrite (IH _ _ H). by apply limits_flight in E. }
  destruct lv; [| | |done].
  - destruct (initialPackets h1); [|by simplify_eq]. step_in H. injection H as <-. by apply Hrm in E.
  - destruct (handshakePackets h1); [|by simplify_eq]. step_in H. injection H as <-. by apply Hrm in E.
  - step_in H. injection H as <-. change (limits x = limits h1). revert E. generalize (Packets (history (appDataPackets h1))). intros l. revert h1.
    induction l as [|[pn p] l IH]; intros h1 H; cbn in H; [by simplify_eq|]. destruct (negb _); [by simplify_eq|]. step_in H.
    apply limits_flight in E. rewrite <- E. destruct (Remove _ _); [|by apply IH in H|done]. by apply IH in H.
Qed.

Lemma limits_timeout h now r h' : OnLossDetectionTimeout h now r = Ok h' -> limits h' = limits h.
Proof.
  unfold OnLossDetectionTimeout. intros H. step_in H. destruct (getLossTimeAndSpace x) as [lt l]. step_in H. injection H as <-.
  change (limits x0 = limits h). transitivity (limits x).
  2:{ destruct (handshakeConfirmed h); [by apply still_detect_probes in E as (_ & _ & _ & E)|by simplify_eq]. }
  clear E. destruct (negb _).
  - destruct l as [lv|]; [|done]. by apply still_detect_lost in E0 as (_ & _ & _ & E0).
  - revert E0. unfold on_pto. destruct (_ && _); [intros; repeat case_match; by simplify_eq|].
    destruct (getPTOTimeAndSpace x now) as [pt pl]. destruct (_ =? 0); [intros; by simplify_eq|]. intros H. step_in H. step_in H.
    destruct (_ && _); [by simplify_eq|]. unfold pto_probes in H. destruct x1; [by simplify_eq..|done|].
    step_in H. destruct x1 as [pn h1]. step_in H. step_in H. injection H as <-. by apply still_pop in E1 as (_ & _ & _ & E1).
Qed.

Lemma limits_retry h now r h' : ResetForRetry h now r = Ok h' -> limits h' = limits h.
Proof.
  unfold ResetForRetry. intros H. step_in H. step_in H. step_in H. injection H as <-.
  destruct (queue_all_spec (Packets (history x)) (with_flight h 0)) as (h1 & Hq1 & _ & He1). rewrite E0 in Hq1. injection Hq1 as <-.
  destruct (queue_all_spec (Packets (history (appDataPackets x0))) x0) as (h2 & Hq2 & _ & He2). rewrite E1 in Hq2. injection Hq2 as <-.
  transitivity (limits x1); [by destruct (_ =? 0)|]. by rewrite He2, He1.
Qed.

Lemma limits_migrate h now size h' : MigratedPath h now size = Ok h' -> limits h' = limits h.
Proof.
  unfold MigratedPath. set (h0 := with_rtt h _). intros H. step_in H. injection H as <-.
  transitivity (limits x); [by destruct (customCC _)|]. change (limits h) with (limits h0). revert E.
  generalize (Packets (history (appDataPackets h0))). intros l. clearbody h0. revert h0.
  induction l as [|[pn p] l IH]; intros h0 H; cbn in H; [by simplify_eq|]. step_in H. step_in H. apply IH in H. rewrite H.
  destruct (negb _); [|by simplify_eq]. step_in E0. apply limits_flight in E1. change (limits x2 = limits h0) in E1. rewrite <- E1.
  destruct (IsAckEliciting p); [by apply limits_queue in E0|by simplify_eq].
Qed.

(** Only sending and receiving count, and validation is final. *)
Lemma exec_limits st ev st' : exec st ev = Ok st' ->
  bytesSent (hd st') = bytesSent (hd st) + (match ev with ESend _ _ _ _ _ _ size _ _ => size | _ => 0 end) /\
  bytesReceived (hd st') = bytesReceived (hd st) + (match ev with EBytes n _ => n | _ => 0 end) /\
  (peerAddressValidated (hd st) = true -> peerAddressValidated (hd st') = true).
Proof.
  assert (Hsame : forall x y : sentPacketHandler (C := C), limits y = limits x ->
    bytesSent y = bytesSent x + 0 /\ bytesReceived y = bytesReceived x + 0 /\ (peerAddressValidated x = true -> peerAddressValidated y = true)).
  { intros x y [= H1 H2 H3]. split_and!; [lia..|congruence]. }
  intros H. destruct ev as [lv r|t la sf fs lv ecn size mtu probe|ack lv t|n t|lv t|lv t|lv|now r|now r|now size|short|size]; cbn in H.
  - step_in H. destruct x as [pn h']. injection H as <-. apply Hsame. by apply still_pop in E as (_ & _ & _ & E).
  - step_in H. step_in H. injection H as <-. apply limits_sent in E0. injection E0 as H1 H2 H3. cbn. split_and!; [lia..|congruence].
  - step_in H. destruct x as [b h']. injection H as <-. apply Hsame. by eapply limits_ack.
  - injection H as <-. cbn. unfold ReceivedBytes. destruct (_ && _); cbn; split_and!; lia || done.
  - injection H as <-. cbn. unfold ReceivedPacket. destruct (_ && _); cbn; split_and!; lia || done.
  - step_in H. injection H as <-. apply Hsame. by eapply limits_drop.
  - step_in H. destruct x as [b h']. injection H as <-. apply Hsame. by apply still_probe in E as (_ & _ & _ & E).
  - step_in H. injection H as <-. apply Hsame. by eapply limits_timeout.
  - step_in H. injection H as <-. apply Hsame. by eapply limits_retry.
  - step_in H. injection H as <-. apply Hsame. by eapply limits_migrate.
  - injection H as <-. apply Hsame. cbn. unfold ECNMode. by repeat case_match.
  - step_in H. injection H as <-. apply Hsame. unfold SetMaxDatagramSize_ in E. case_match; by simplify_eq.
Qed.

(** A datagram: the packets that are sent in it, of at most [m] bytes together. *)
Definition event_size (ev : event) : Z := match ev with ESend _ _ _ _ _ _ size _ _ => size | _ => 0 end.
Definition in_datagram (ev : event) : bool := match ev with EPop _ _ | ESend _ _ _ _ _ _ _ _ _ => true | _ => false end.
Definition datagram_size (evs : list event) : Z := foldr (fun ev n => event_size ev + n) 0 evs.

(** Runs in which a datagram is sent only when the send mode allows it, as the
    loops of the connection do. *)
Inductive polite (m : Z) : state (C := C) -> Prop :=
| polite_start cc pn size rtt stats validated ecn ignore pers r :
    0 <= pn -> polite m (start cc pn size rtt stats validated ecn ignore pers r)
| polite_call st ev st' : polite m st -> guard st ev -> in_datagram ev = false -> exec st ev = Ok st' -> polite m st'
| polite_datagram st evs st' now :
    polite m st -> SendMode_ (hd st) now <> SendNone -> Forall (fun ev => in_datagram ev = true) evs ->
    datagram_size evs <= m -> guards st evs -> run st evs = Ok st' -> polite m st'.

Lemma run_limits : forall evs st st', run st evs = Ok st' ->
  Forall (fun ev => in_datagram ev = true) evs ->
  bytesSent (hd st') = bytesSent (hd st) + datagram_size evs /\ bytesReceived (hd st') = bytesReceived (hd st) /\
  (peerAddressValidated (hd st) = true -> peerAddressValidated (hd st') = true).
Proof.
  induction evs as [|ev evs IH]; intros st st' H Hd; cbn in H; [simplify_eq; cbn; split_and!; lia || done|].
  apply Forall_cons in Hd as [Hd1 Hd]. step_in H. destruct (exec_limits _ _ _ E) as (H1 & H2 & H3).
  destruct (IH _ _ H Hd) as (H4 & H5 & H6). change (datagram_size (ev :: evs)) with (event_size ev + datagram_size evs).
  unfold event_size. rewrite H4, H5. split_and!; [destruct ev; lia|destruct ev; done || lia|tauto].
Qed.

(** ** The theorems *)

(** C22: an endpoint cannot be used to flood an address it has not validated: until then, it has sent
    at most three times what it received from there, and one datagram. *)
Theorem amplification_bounded (m : Z) st :
  0 <= m -> polite m st -> peerAddressValidated (hd st) = false ->
  bytesSent (hd st) <= 3 * bytesReceived (hd st) + m.
Proof.
  intros Hm. induction 1 as [| st ev st' _ IH Hg Hd He|st evs st' now _ IH Hmode Hd Hs _ Hr]; [cbn; lia| |].
  - destruct (exec_limits _ _ _ He) as (H1 & H2 & H3). intros Hv.
    assert (Hv0 : peerAddressValidated (hd st) = false) by (destruct (peerAddressValidated (hd st)); [by rewrite H3 in Hv|done]).
    specialize (IH Hv0). destruct ev; cbn in Hd, Hg; try done; try lia.
  - destruct (run_limits _ _ _ Hr Hd) as (H1 & H2 & H3). intros Hv.
    assert (Hv0 : peerAddressValidated (hd st) = false) by (destruct (peerAddressValidated (hd st)); [by rewrite H3 in Hv|done]).
    unfold SendMode_ in Hmode. destruct (isAmplificationLimited (hd st)) eqn:El; [done|].
    unfold isAmplificationLimited, amplificationFactor in El. rewrite Hv0 in El. lia.
Qed.

(** C11: no call that the guard admits panics, and the only errors are those of a peer that
    acknowledges packets it cannot have received; the bytes in flight are always those of the tracked
    packets that count.  The guard demands what the connection observes: a number is taken for every packet sent, ACK
    frames come from the parser and for spaces that were not dropped, the 1-RTT space is not
    dropped, a Retry comes while no Handshake packet and no path probe is outstanding.  It also excludes two calls that do panic: the loss of a path probe
    that has a frame without handler, and a datagram size that the congestion controller refuses (for
    Cubic, one below the current size).  [TimeUntilSend], which asks only the congestion controller and changes
    nothing, is not an event: its pacer divides by a bandwidth that can be zero. *)
Theorem sent_packets_safe st ev :
  reachable st -> guard st ev ->
  (exists e, exec st ev = Err e /\ peer_error ev e) \/
  (exists st', exec st ev = Ok st' /\ bytesInFlight (hd st') = flight (live (hd st'))).
Proof.
  intros Hr Hg. destruct (exec_good st ev (reachable_good st Hr) Hg) as [?|(st' & He & Hi & _)]; [by left|right].
  exists st'. split; [done|]. pose proof (inv_flight _ _ _ Hi) as Hf. change (flight []) with 0 in Hf. lia.
Qed.

(** C5: no frame is lost track of and none is reported twice: at any time, the frames sent with a
    handler are those that were reported to it, once each, as acknowledged or as lost, those of
    packets still tracked, and those of packets dropped with their keys or with their path. *)
Theorem frames_reported_once st :
  reachable st -> sent st ≡ₚ settled (calls (hd st)) ++ frames (live (hd st)) ++ gone st.
Proof. intros Hr. destruct (reachable_good st Hr) as (_ & _ & Hs). by rewrite app_assoc. Qed.

(** C16: frames are reported as acknowledged exactly when an ACK frame is accepted that covers the
    packet they were in while that is still outstanding: a tracked packet that was neither
    acknowledged nor declared lost before, or a path probe that was not given up and whose placeholder
    is still in the history.  An acknowledgement that comes after its packet was declared lost
    reports nothing. *)
Theorem acked_frames_reported st ev st' :
  reachable st -> guard st ev -> exec st ev = Ok st' ->
  acks (calls (hd st')) = acks (calls (hd st)) ++ reported st ev /\
  forall lv s ack e, getPacketNumberSpace (hd st) lv = Some s ->
    e ∈ newly_acked s ack <->
    covers ack e.1 = true /\
    ((e ∈ Packets (history s) /\ isPathProbePacket e.2 = false) \/
     (e ∈ pathProbePackets (history s) /\ exists q, isPathProbePacket q = true /\ (e.1, q) ∈ Packets (history s))).
Proof.
  intros Hr Hg He. pose proof (reachable_good st Hr) as Hgood. split; [by apply acks_exec|].
  intros lv s ack e Hs. eapply newly_acked_spec. destruct Hgood as (Hi & _). by apply (inv_space _ _ _ Hi lv).
Qed.

(** When a packet is given up: a later one was acknowledged, and it was sent long ago or at least
    three packets, not counting skipped numbers, before the largest acknowledged one. *)
Definition given_up (hist : sentPacketHistory) (largest lostSendTime pn : Z) (p : packet) : Prop :=
  pn <= largest /\ (SendTime p <= lostSendTime \/ packetThreshold <= Difference hist largest pn).

(** C10: a well-formed ACK frame for a space that was not dropped is refused exactly if its
    largest number was not sent yet, or if it covers one of the skipped numbers that are remembered,
    the last four of the 1-RTT space; older skipped numbers are not noticed.  Otherwise, of the
    tracked packets other than the placeholders of path probes, those it covers are settled, and,
    only if it acknowledges a packet that was not settled before, those numbers up to the largest
    acknowledged one are given up that are at least three packets (not counting remembered skipped
    numbers) below it, or whose packets were sent at least the loss delay before the frame arrived; no others. *)
Theorem ack_processed_exactly st ack lv t s hi :
  reachable st -> getPacketNumberSpace (hd st) lv = Some s -> ack_ok ack -> Ack.LargestAcked ack = Ok hi ->
  let refused pn := lv = Encryption1RTT /\ pn ∈ skippedPackets (history s) /\ covers ack pn = true in
  match ReceivedAck (hd st) ack lv t with
  | Err errUnsentAcked => largestSent s < hi
  | Err (errSkippedAcked pn) => refused pn
  | Ok (_, h') =>
      hi <= largestSent s /\ (forall pn, ~ refused pn) /\
      exists s', getPacketNumberSpace h' lv = Some s' /\
      forall pn p, isPathProbePacket p = false ->
        (pn, p) ∈ Packets (history s') <->
        (pn, p) ∈ Packets (history s) /\ covers ack pn = false /\
        (newly_acked s ack <> [] ->
         ~ given_up (history s) (Z.max (largestAcked s) hi) (t - loss_delay (rttStats h')) pn p)
  | _ => False
  end.
Proof.
  intros Hr Hs Hok Hhi refused. destruct (reachable_good st Hr) as (Hi & Ha & _).
  destruct (received_ack_spec _ _ lv s ack t Hi Ha Hs Hok) as (hi' & Hhi' & Hcases). rewrite Hhi in Hhi'. injection Hhi' as <-.
  destruct Hcases as [[H ->] | [(pn & -> & H)|(b & h' & s' & -> & _ & _ & _ & H1 & H2 & Hs' & H3 & _)]]; [done|done|].
  split_and!; [done| |].
  - intros pn (Hlv & Hpn & Hc). specialize (H2 Hlv). rewrite Forall_forall in H2. specialize (H2 pn Hpn). congruence.
  - exists s'. split; [done|]. intros pn p Hp. rewrite H3. cbn [fst].
    assert (Hna : (pn, p) ∈ Packets (history s) -> pn ∉ (newly_acked s ack).*1 <-> covers ack pn = false).
    { intros Hin. rewrite <- not_true_iff_false. f_equiv. pose proof (fun e => newly_acked_spec _ s ack e (inv_space _ _ _ Hi lv s Hs)) as Hspec.
      rewrite list_elem_of_fmap. split.
      - intros (e & -> & [He _]%Hspec). done.
      - intros Hc. exists (pn, p). split; [done|]. apply Hspec. auto. }
    assert (Hl : is_lost (with_largestAcked s (Z.max (largestAcked s) hi)) (t - loss_delay (rttStats h')) (pn, p) = false <->
      ~ given_up (history s) (Z.max (largestAcked s) hi) (t - loss_delay (rttStats h')) pn p).
    { unfold is_lost, given_up. cbn. lia. }
    rewrite Hl. tauto.
Qed.

End recovery.

(** ** A connection *)

#[local] Existing Instance Cubic.cubic_algorithm.

(** The peer acknowledges the last of four packets: the first one is lost, two are still in flight. *)
Definition last_acked : AckFrame := mkAck [mkRange 3 3] 0 0 0 0.
Definition acked_run : list event := sending 4 ++ [EAck last_acked Encryption1RTT (1100 * Millisecond)].

Lemma acked_guards : guards server acked_run.
Proof. vm_compute. guards_solve. Qed.

Example acked_run_outcome :
  bytesInFlight (hd (after acked_run)) = 2400 /\
  calls (hd (after acked_run)) =
    [OnAcked 1 (FrameParser.FStream (sf_Frame (stream_frame 3))); OnLost 1 (FrameParser.FStream (sf_Frame (stream_frame 0)))] /\
  fst <$> Packets (history (appDataPackets (hd (after acked_run)))) = [1; 2].
Proof. vm_compute. split_and!; reflexivity. Qed.

Lemma sent_packets_safe_witness :
  (exists e, exec (after (sending 4)) (EAck last_acked Encryption1RTT (1100 * Millisecond)) = Err e /\
     peer_error (EAck last_acked Encryption1RTT (1100 * Millisecond)) e) \/
  (exists st', exec (after (sending 4)) (EAck last_acked Encryption1RTT (1100 * Millisecond)) = Ok st' /\
     bytesInFlight (hd st') = flight (live (hd st'))).
Proof.
  apply (sent_packets_safe (after (sending 4))); [apply after_reachable, sending_guards|].
  vm_compute. guards_solve.
Defined.

Lemma frames_reported_once_witness :
  sent (after acked_run) ≡ₚ
    settled (calls (hd (after acked_run))) ++ frames (live (hd (after acked_run))) ++ gone (after acked_run).
Proof. apply (frames_reported_once (after acked_run)). apply after_reachable, acked_guards. Defined.

Lemma acked_frames_reported_witness :
  acks (calls (hd (after acked_run))) =
    acks (calls (hd (after (sending 4)))) ++ reported (after (sending 4)) (EAck last_acked Encryption1RTT (1100 * Millisecond)).
Proof.
  refine (proj1 (acked_frames_reported (after (sending 4)) (EAck last_acked Encryption1RTT (1100 * Millisecond)) (after acked_run) _ _ _)).
  - apply after_reachable, sending_guards.
  - vm_compute. guards_solve.
  - vm_compute. reflexivity.
Defined.

Lemma ack_processed_exactly_witness :
  match ReceivedAck (hd (after (sending 4))) last_acked Encryption1RTT (1100 * Millisecond) with
  | Ok (_, h') =>
      exists s', getPacketNumberSpace h' Encryption1RTT = Some s' /\
      forall pn p, isPathProbePacket p = false -> (pn, p) ∈ Packets (history s') -> covers last_acked pn = false
  | _ => False
  end.
Proof.
  pose proof (ack_processed_exactly (after (sending 4)) last_acked Encryption1RTT (1100 * Millisecond)
    (appDataPackets (hd (after (sending 4)))) 3 (after_reachable _ sending_guards) eq_refl) as H.
  specialize (H ltac:(vm_compute; split_and!; done) eq_refl).
  destruct (ReceivedAck (hd (after (sending 4))) last_acked Encryption1RTT (1100 * Millisecond)) as [[b h']|e|] eqn:E.
  - destruct H as (_ & _ & s' & Hs' & H). exists s'. split; [done|]. intros pn p Hp Hin. by apply (H pn p Hp).
  - vm_compute in E. discriminate E.
  - done.
Defined.

(** A server that has not validated the address of its client yet. *)
Definition young : state :=
  start (C := Cubic.cubicSender) None 0 1280 NewRTTStats (mkStats 0 0 0 0) false true true PerspectiveServer 7.

Definition first_flight : list event :=
  [EPop EncryptionInitial 0; ESend Millisecond (-1) [] [mkFrame FrameParser.FPing (Some 2)] EncryptionInitial ECNNon 1200 false false].

Definition fed : state := match exec young (EBytes 1200 1) with Ok st => st | _ => young end.
Definition answered : state := match run fed first_flight with Ok st => st | _ => fed end.

Lemma answered_polite : polite 1280 answered.
Proof.
  apply (polite_datagram 1280 fed first_flight answered 2).
  - apply (polite_call 1280 young (EBytes 1200 1) fed); [by constructor|done|done|vm_compute; reflexivity].
  - vm_compute. discriminate.
  - by repeat constructor.
  - done.
  - vm_compute. guards_solve.
  - vm_compute. reflexivity.
Qed.

Lemma amplification_bounded_witness : bytesSent (hd answered) <= 3 * bytesReceived (hd answered) + 1280.
Proof. apply (amplification_bounded 1280 answered); [done|apply answered_polite|vm_compute; reflexivity]. Defined.

(** ** Path probes after a migration *)

Definition send_probe (i : Z) : list event :=
  [EPop Encryption1RTT 5; ESend (1000 * Millisecond + i) (-1) [] [mkFrame FrameParser.FPing (Some 3)] Encryption1RTT ECNNon 1200 false true].

(** [MigratedPath] is to forget all path probes, but it removes them from the array it iterates over:
    of three outstanding probes, the second one survives. *)
Theorem migration_keeps_probe :
  let st := after (sending 0 ++ mjoin (map send_probe (seqZ 0 3))) in
  fst <$> pathProbePackets (history (appDataPackets (hd st))) = [0; 1; 2] /\
  match exec st (EMigrate (1500 * Millisecond) 1280) with
  | Ok st' => fst <$> pathProbePackets (history (appDataPackets (hd st'))) = [1]
  | _ => False
  end.
Proof. vm_compute. split; reflexivity. Qed.

End LossRecovery.
